(* ===== verification/_CoqProject ===== *)
-Q . S2P
Prelude.v
Order.v
Hasher.v
DnsName.v
DnsQuery.v
Utf8.v
DnsQname.v
DnsRecords.v
DnsEdns.v
Ecs.v
DnsMessage.v
DnsBuilder.v
Persist.v
CacheMap.v
Cache.v
CacheKey.v
CacheCorrect.v
CachePersist.v
VerdictCache.v
Singleflight.v
IpRange.v
Inflight.v
RustStr.v
Domain.v
IpParse.v
RankBitmap.v
Mrs.v
MrsTrie.v
Ruleset.v
RouteIndex.v
RouteCorrect.v
Router.v
Resolver.v
ResolverCorrect.v
Upstream.v
UpstreamCorrect.v
UpstreamWire.v
UpstreamUrl.v
UpstreamUrlCorrect.v
ConfigServers.v
ConfigServersCorrect.v
ConfigParse.v
Config.v
ConfigCorrect.v
ServerBuild.v
ServerBuildCorrect.v
ServerCorrect.v
ReloadRace.v
Watcher.v
TcpMux.v
Udp.v
UdpRefresh.v
Transports.v
UdpSend.v
Sockets.v
UdpUring.v
UdpServe.v
UdpShard.v
Listener.v
Netlink.v
NetlinkCorrect.v
Ipset.v
IpsetCorrect.v
IpsetWorker.v
Startup.v
StartupCorrect.v
Restart.v
QueryRing.v
QueryLog.v
QueryHistory.v
IpText.v
QuerySegments.v
QueryHistoryCorrect.v
QuerySegmentsCorrect.v
QueryHistoryExample.v
Rfc3339.v
PoolBuild.v
ApiRender.v
QueryApi.v
QueryApiCorrect.v
