(* ===== verification/Prelude.v ===== *)
(** * PathDNS: a verification library

    PathDNS is a caching, policy-routing DNS forwarder (sources under src/src/).  A query
    that arrives over UDP or TCP is validated by a single pass over its bytes and looked up in
    the response cache; on a miss it is routed by the first rule that matches its name, sent
    to the server of that rule (a pool of upstreams over UDP, TCP, TLS, HTTPS, QUIC or
    HTTP/3, or a fixed answer), the response passes the rule's filters, may put its
    addresses into kernel sets, is cached and answered.  Concurrent identical queries share
    one exchange.  Configuration and rule sets are reloaded while it runs; caches persist
    over restarts; a query log with history files and a dashboard observes it.

    ** Method

    The Rust code is translated by hand into executable functions (a shallow embedding):
    - bytes, identifiers and counters are integers [Z] with their width written out ([wrap w],
      [u_ok w], saturating operations); byte strings and Rust strings are [list Z]; maps and
      sets are stdpp's [gmap] and [gset]; structs are records and enums inductive types;
    - code that can panic (indexing, slicing, division, underflow) returns [outcome]: [Ret],
      [Panic] or [OutOfFuel]; fallible code returns [result] with one constructor per error
      site, or [option].  A theorem that says the code returns means [Ret]: no panic, and no loop that
      ran out of fuel;
    - loops that are not structural take fuel.  The fuel is fixed by the model, not by the
      caller's luck: the length of the input (names, records, control messages, frames), the
      number of messages or servers left (sending, dependency resolution), 65535 for
      the choice of an identifier, 20 digits for a 64-bit number; the theorems show that it
      suffices for every input;
    - mutable state is passed explicitly; what runs concurrently is a step relation with one
      constructor per atomic action (a lock held, an atomic operation, one message) and
      theorems about every reachable state ([rtc]): Singleflight, Inflight, TcpMux,
      UdpRefresh, Transports, UdpUring, UdpSend, UdpServe, QueryLog, Watcher,
      ReloadRace;
    - clocks, random seeds, network and kernel behaviour are arguments, universally quantified
      in the theorems.

    ** Files, in dependency order

    Shared.  [Prelude] (this file: outcomes and their notations [let!], [let?] and
    [let*], machine integers, checked indexing and slicing, byte codecs, the tactics and the
    hint databases [rust], [bytes] and [len]); [Order] (three-way orders and sorting); [RustStr]
    ([str] methods), [Utf8], [IpParse] ([FromStr] of addresses and numbers), [IpText] (their
    [Display] read back), [Rfc3339] (time stamps).

    DNS messages (src/src/hasher.rs, dns/): [Hasher] FNV-1a; [DnsName] names and questions;
    [DnsQuery] [parse_query_fast]; [DnsQname] the routing name; [DnsRecords] records and
    TTLs; [DnsEdns] EDNS variants and UDP truncation; [Ecs] client-subnet rewriting;
    [DnsBuilder] locally built messages; [DnsMessage] the theorems about the layer.

    Caches (cache.rs, verdict_cache.rs, persist.rs): [CacheMap] the interface of the
    third-party concurrent map, as a class with laws and instances; [Cache], [CacheKey],
    [CacheCorrect] the response cache; [CachePersist], [VerdictCache], [Persist] files.

    Routing (domain.rs, iprange.rs, mrs.rs, ruleset.rs, route_index.rs, router.rs,
    response_filter.rs): [Domain], [IpRange], [RankBitmap], [Mrs], [MrsTrie], [Ruleset],
    [RouteIndex], [RouteCorrect], [Router].

    Query pipeline (resolver.rs, singleflight.rs): [Singleflight], [Resolver],
    [ResolverCorrect].

    Upstreams (upstream/): [Inflight] identifiers and anti-spoofing; [Upstream],
    [UpstreamCorrect] health, selection, hedging; [UpstreamWire] what is sent and accepted;
    [TcpMux] TCP and TLS; [Udp], [UdpRefresh] UDP; [Transports] DoH, DoQ and
    HTTP/3; [PoolBuild] from endpoints to pools.

    Configuration (config/): [UpstreamUrl], [UpstreamUrlCorrect] upstream URLs and the
    bootstrap resolution; [ConfigServers], [ConfigServersCorrect] the servers and their
    references; [ConfigParse], [Config], [ConfigCorrect] the whole document.

    Server (server.rs, lib.rs): [ServerBuild], [ServerBuildCorrect] the routing snapshot and
    its reloads; [ServerCorrect] every state of a running server; [ReloadRace] reloads
    against queries; [Watcher] file changes; [Startup], [StartupCorrect], [Restart] start,
    fingerprint, saved caches.

    Listeners (listener.rs, udp_uring.rs, udp_send.rs, sys.rs): [Sockets] addresses and
    control messages; [UdpUring] the receive ring; [UdpServe] one datagram and admission;
    [UdpSend] sending; [UdpShard] one turn of a shard; [Listener] TCP connections and the
    sockets opened.

    Kernel sets (ipset/): [Netlink], [NetlinkCorrect] messages; [Ipset], [IpsetCorrect],
    [IpsetWorker] the manager and its worker.

    Query log (querylog/): [QueryRing], [QueryLog] collection; [QueryHistory],
    [QuerySegments], [QueryHistoryCorrect], [QuerySegmentsCorrect], [QueryHistoryExample]
    history files; [QueryApi], [QueryApiCorrect] requests; [ApiRender] what is shown.

    Files named [...Correct] hold the theorems about the definitions of the file they are
    named after; the others state theirs at the end, followed by a module with a concrete
    example that evaluates the definitions and instantiates the hypotheses.

    ** How the parts are put together

    A component promises what its callers rely on, and theorems are composed through these
    promises: the laws of [CacheMap] (the caches and the route cache are proved for every
    store that satisfies them), [RegexEngine] and [RegexLaws] (patterns), [cache_ok],
    [ctx_ok] (what the parser hands to the resolver), [exch_ok] (what an exchange may
    return), [config_ok] (what parsing promises to building), [snapshot_ok] (what building
    promises to the queries), [endpoint_ok] and [transport_ready] (what parsing promises to
    the pools and the pools to the first exchange), [shard_inv].  [ServerCorrect] combines
    them: from the text of the configuration, over any reloads, to the rule and server a
    query gets.

    ** What the theorems show

    - Answers: accepted queries are exactly the well-formed ones; a cache hit is the stored,
      fresh answer to the same question and variant with the client's ID and aged TTLs; an
      answer stored by the leader is what the next client gets; followers and leader get one
      message; only validated responses reach a waiter, a client or the cache.
    - Routing: the compiled index, its memo and its caches equal a first-match scan; rule-set
      files decode to their patterns; filters decide as listed; a running server follows its
      configuration.
    - Upstreams: every exchange of every transport returns and leaves no registered query,
      permit or count behind; no node starves; built pools are ready, failed ones cleaned up.
    - Configuration: parsing and dependency resolution end, accepted documents are well formed;
      reloads are all or nothing; no file change is lost; restarts restore what is live.
    - Listeners: each datagram has one fate, each answer is sent, waiting or counted, each buffer
      in one place; TCP streams are cut in the only possible way.
    - Observability: each event is processed once or counted; history pages are those of a plain
      scan, also across rotation, compression and crashes; requests without the token change
      nothing.
    Lemmas named in the findings show where the code falls short of its comments (for
    example [ReloadRace.reload_leaves_stale_entry]).

    ** Parameters and assumptions

    Third-party code is an argument with its documented behaviour as named hypotheses, and an
    example instantiates it: the concurrent map ([CacheMapLaws]), the regular expressions
    ([RegexLaws]), zstd (gives bytes), the MessagePack, JSON and gzip codecs of the history
    files (round-trip laws), serde_json's text of an array, TLS, HTTP and QUIC libraries (what
    a connection delivers), Unicode lower-casing, io_uring's parser of a delivered buffer.
    The kernel: sendmmsg takes no more than offered; a completion carries a buffer the ring
    offered; names and files are functions.  The layout of kernel structures is that of
    64-bit little-endian Linux.  Atomics and locks are sequentially consistent.  The network of
    the bootstrap resolution answers bytes.

    ** Not modelled

    Opening, binding and configuring sockets, the other system-call wrappers, starting the
    runtime, its threads and timers, signals, the command line and log lines: these are calls
    into the operating system or the runtime with no logic of their own.  The reading of the
    JSON text by serde, the counters that [render_stats] lists, the dashboard's HTML and its
    accept loop.  Real time is not modelled: a timeout is an event that can happen at any
    moment it is awaited.  Memory use and performance are out of scope. *)

From stdpp Require Export base tactics list numbers option sets gmap sorting.
From Stdlib Require Export ZArith Lia.

(** ** Notation scope *)

Declare Scope rust_scope.
Delimit Scope rust_scope with rust.
#[global] Open Scope rust_scope.

(** ** Outcomes of Rust code

    [Ret] is a normal return, [Panic] an abort of the process (an index or a
    slice out of range, an arithmetic underflow), and [OutOfFuel] marks a loop
    whose fuel was too small: every loop of the development is proved never to
    produce it. *)

Inductive outcome (A : Type) : Type :=
| Ret (a : A)
| Panic
| OutOfFuel.
Arguments Ret {A} a.
Arguments Panic {A}.
Arguments OutOfFuel {A}.

(** [Result<A, E>] of the source, with the error sites as constructors of [E]. *)
Inductive result (E A : Type) : Type :=
| Ok (a : A)
| Err (e : E).
Arguments Ok {E A} a.
Arguments Err {E A} e.

#[export] Instance outcome_eq_dec {A} `{EqDecision A} : EqDecision (outcome A).
Proof. solve_decision. Defined.

#[export] Instance result_eq_dec {E A} `{EqDecision E} `{EqDecision A} : EqDecision (result E A).
Proof. solve_decision. Defined.

#[export] Instance Ret_inj {A} : Inj (=) (=) (@Ret A).
Proof. intros a b H. by injection H. Qed.

Definition obind {A B} (m : outcome A) (k : A -> outcome B) : outcome B :=
  match m with
  | Ret a => k a
  | Panic => Panic
  | OutOfFuel => OutOfFuel
  end.

(** The [?] operator on an [Option]-valued call. *)
Definition obind_opt {A B} (m : outcome (option A)) (k : A -> outcome (option B))
  : outcome (option B) :=
  match m with
  | Ret (Some a) => k a
  | Ret None => Ret None
  | Panic => Panic
  | OutOfFuel => OutOfFuel
  end.

(** The [?] operator on a [Result]-valued call. *)
Definition obind_res {E A B} (m : outcome (result E A))
    (k : A -> outcome (result E B)) : outcome (result E B) :=
  match m with
  | Ret (Ok a) => k a
  | Ret (Err e) => Ret (Err e)
  | Panic => Panic
  | OutOfFuel => OutOfFuel
  end.

#[global] Arguments obind {A B} !m k.
#[global] Arguments obind_opt {A B} !m k.
#[global] Arguments obind_res {E A B} !m k.

Notation "'let!' x ':=' m 'in' k" := (obind m (fun x => k))
  (at level 10, x pattern, m at level 100, k at level 200)
  : rust_scope.
Notation "'let?' x ':=' m 'in' k" := (obind_opt m (fun x => k))
  (at level 10, x pattern, m at level 100, k at level 200)
  : rust_scope.
Notation "'let*' x ':=' m 'in' k" := (obind_res m (fun x => k))
  (at level 10, x pattern, m at level 100, k at level 200)
  : rust_scope.

(** The code returns: neither a panic nor an exhausted loop. *)
Definition returns {A} (m : outcome A) : Prop := exists a, m = Ret a.

Lemma obind_Ret_inv {A B} (m : outcome A) (k : A -> outcome B) b :
  obind m k = Ret b -> exists a, m = Ret a /\ k a = Ret b.
Proof. destruct m; simpl; intros; [eauto | discriminate | discriminate]. Qed.

Lemma obind_opt_Some_inv {A B} (m : outcome (option A)) (k : A -> outcome (option B)) b :
  obind_opt m k = Ret (Some b) -> exists a, m = Ret (Some a) /\ k a = Ret (Some b).
Proof.
  destruct m as [[a|]| |]; simpl; intros; [eauto | discriminate..].
Qed.

Lemma obind_res_Ok_inv {E A B} (m : outcome (result E A))
    (k : A -> outcome (result E B)) b :
  obind_res m k = Ret (Ok b) -> exists a, m = Ret (Ok a) /\ k a = Ret (Ok b).
Proof.
  destruct m as [[a|]| |]; simpl; intros; [eauto | discriminate..].
Qed.

Lemma returns_Ret {A} (a : A) : returns (Ret a).
Proof. eexists; reflexivity. Qed.

Lemma returns_bind {A B} (m : outcome A) (k : A -> outcome B) :
  returns m -> (forall a, m = Ret a -> returns (k a)) -> returns (obind m k).
Proof. intros [a Ha] Hk. rewrite Ha. simpl. auto. Qed.

Lemma returns_bind_opt {A B} (m : outcome (option A)) (k : A -> outcome (option B)) :
  returns m -> (forall a, m = Ret (Some a) -> returns (k a)) -> returns (obind_opt m k).
Proof.
  intros [[a|] Hm] Hk; rewrite Hm; simpl; [auto | apply returns_Ret].
Qed.

Lemma returns_bind_res {E A B} (m : outcome (result E A))
    (k : A -> outcome (result E B)) :
  returns m -> (forall a, m = Ret (Ok a) -> returns (k a)) -> returns (obind_res m k).
Proof.
  intros [[a|e] Hm] Hk; rewrite Hm; simpl; [auto | apply returns_Ret].
Qed.

(** [iter.any(f)] for a predicate that may panic: left to right, stopping at the
    first [true]. *)
Fixpoint oany {A} (f : A -> outcome bool) (l : list A) : outcome bool :=
  match l with
  | [] => Ret false
  | x :: l' => let! b := f x in if b : bool then Ret true else oany f l'
  end.

Lemma oany_Ret {A} (f : A -> outcome bool) (g : A -> bool) l :
  (forall x, f x = Ret (g x)) -> oany f l = Ret (existsb g l).
Proof.
  intros Hf. induction l as [|x l IH]; [done|]. cbn [oany existsb]. rewrite Hf. cbn [obind].
  by destruct (g x).
Qed.

(** A total predicate decides a proposition on every element. *)
Lemma oany_spec {A} (f : A -> outcome bool) (P : A -> Prop) l :
  (forall x, exists b, f x = Ret b /\ (b = true <-> P x)) ->
  exists b, oany f l = Ret b /\ (b = true <-> Exists P l).
Proof.
  intros Hf. induction l as [|x l (b & IH & Hb)]; cbn [oany].
  - exists false. split; [done|]. by rewrite Exists_nil.
  - destruct (Hf x) as (bx & -> & Hx). cbn [obind]. destruct bx.
    + exists true. split; [done|]. split; [|done]. intros _. apply Exists_cons. left. by apply Hx.
    + exists b. split; [done|]. rewrite Exists_cons. split; [intros ?%Hb; by right|].
      intros [?%Hx|?]; [done|by apply Hb].
Qed.

Create HintDb rust.
#[export] Hint Resolve returns_Ret : rust.

(** ** Machine integers and bytes

    A [u8], [u16], [u32], [u64] or [u128] is a [Z] in its range; byte strings
    are [list Z].  [usize] offsets and lengths are [nat]: a slice has at most
    [isize::MAX] bytes and the source adds at most a few times 65535 to an
    offset in one, so those sums never wrap. *)

Definition u_ok (w : Z) (z : Z) : Prop := (0 <= z < 2 ^ w)%Z.
Abbreviation is_byte := (u_ok 8).
Abbreviation bytes_ok := (Forall (u_ok 8)).

Definition wrap (w : Z) (z : Z) : Z := (z mod 2 ^ w)%Z.

(** [saturating_sub] on unsigned integers and [saturating_add] at width [w]. *)
Definition sat_sub (a b : Z) : Z := Z.max 0 (a - b).
Definition sat_add (w a b : Z) : Z := Z.min (2 ^ w - 1) (a + b).

(** ** Slices with Rust's bounds checks *)

(** [l[i]] *)
Definition idx {A} (l : list A) (i : nat) : outcome A :=
  match l !! i with Some x => Ret x | None => Panic end.

(** [&l[i..j]] *)
Definition slice {A} (l : list A) (i j : nat) : outcome (list A) :=
  if decide (i <= j /\ j <= length l) then Ret (take (j - i) (drop i l)) else Panic.

(** [l.get(i..j)] *)
Definition get_slice {A} (l : list A) (i j : nat) : option (list A) :=
  if decide (i <= j /\ j <= length l) then Some (take (j - i) (drop i l)) else None.

(** [l[i] = x] *)
Definition store {A} (l : list A) (i : nat) (x : A) : outcome (list A) :=
  if decide (i < length l) then Ret (<[i := x]> l) else Panic.

(** [a - b] on [usize] *)
Definition usub (a b : nat) : outcome nat :=
  if decide (b <= a) then Ret (a - b) else Panic.

(** Total read with a default, used to describe reads that are in range. *)
Definition nthb (l : list Z) (i : nat) : Z := nth i l 0%Z.

(** Overwrite [xs] at offset [i] ([l[i..i+n].copy_from_slice(xs)]). *)
Definition splice {A} (l : list A) (i : nat) (xs : list A) : list A :=
  take i l ++ xs ++ drop (i + length xs) l.

Definition copy_at {A} (l : list A) (i : nat) (xs : list A) : outcome (list A) :=
  if decide (i + length xs <= length l) then Ret (splice l i xs) else Panic.

(** [uN::from_be_bytes] and [uN::from_le_bytes], and their inverses. *)
Definition from_be (l : list Z) : Z := foldl (fun acc b => acc * 256 + b)%Z 0%Z l.

Fixpoint from_le (l : list Z) : Z :=
  match l with
  | [] => 0%Z
  | b :: l' => (b + 256 * from_le l')%Z
  end.

Fixpoint to_le (n : nat) (z : Z) : list Z :=
  match n with
  | O => []
  | S n' => (z mod 256)%Z :: to_le n' (z / 256)%Z
  end.

Definition to_be (n : nat) (z : Z) : list Z := rev (to_le n z).

(** [u16::from_be_bytes([l[i], l[i + 1]])] and the 32-bit form. *)
Definition u16_at (l : list Z) (i : nat) : outcome Z :=
  let! a := idx l i in
  let! b := idx l (i + 1) in
  Ret (from_be [a; b]).

Definition u32_at (l : list Z) (i : nat) : outcome Z :=
  let! a := idx l i in
  let! b := idx l (i + 1) in
  let! c := idx l (i + 2) in
  let! d := idx l (i + 3) in
  Ret (from_be [a; b; c; d]).

Definition be16 (l : list Z) (i : nat) : Z := from_be [nthb l i; nthb l (i + 1)].
Definition be32 (l : list Z) (i : nat) : Z :=
  from_be [nthb l i; nthb l (i + 1); nthb l (i + 2); nthb l (i + 3)].

(** ** Lemmas on reads and writes *)

Lemma idx_nthb (l : list Z) i : i < length l -> idx l i = Ret (nthb l i).
Proof.
  intros Hi. unfold idx, nthb.
  destruct (lookup_lt_is_Some_2 l i Hi) as [x Hx].
  rewrite Hx. f_equal. symmetry. by apply nth_lookup_Some.
Qed.

Lemma idx_Ret_inv {A} (l : list A) i x : idx l i = Ret x -> l !! i = Some x.
Proof. unfold idx. destruct (l !! i); congruence. Qed.

Lemma idx_lookup {A} (l : list A) i x : l !! i = Some x -> idx l i = Ret x.
Proof. unfold idx. by intros ->. Qed.

Lemma nthb_lookup (l : list Z) i : i < length l -> l !! i = Some (nthb l i).
Proof. intros. by apply idx_Ret_inv, idx_nthb. Qed.

Lemma nthb_Some (l : list Z) i x : l !! i = Some x -> nthb l i = x.
Proof. apply nth_lookup_Some. Qed.

Lemma nthb_app_l (l k : list Z) i : i < length l -> nthb (l ++ k) i = nthb l i.
Proof. apply app_nth1. Qed.

Lemma nthb_app_r (l k : list Z) i : length l <= i -> nthb (l ++ k) i = nthb k (i - length l).
Proof. apply app_nth2. Qed.

Lemma nthb_ok (l : list Z) i : bytes_ok l -> is_byte (nthb l i).
Proof.
  intros Hl. unfold nthb. destruct (decide (i < length l)) as [Hi|Hi].
  - rewrite Forall_lookup in Hl. eapply Hl, nthb_lookup, Hi.
  - rewrite nth_overflow by lia. unfold u_ok; lia.
Qed.

Lemma nthb_insert_eq (l : list Z) i x : i < length l -> nthb (<[i := x]> l) i = x.
Proof. intros. by apply nthb_Some, list_lookup_insert_eq. Qed.

Lemma nthb_insert_ne (l : list Z) i j x : i <> j -> nthb (<[i := x]> l) j = nthb l j.
Proof.
  intros Hne. unfold nthb. rewrite !nth_lookup. by rewrite list_lookup_insert_ne.
Qed.

Lemma nthb_take (l : list Z) n i : i < n -> nthb (take n l) i = nthb l i.
Proof. intros. unfold nthb. rewrite !nth_lookup. by rewrite lookup_take_lt. Qed.

Lemma nthb_drop (l : list Z) n i : nthb (drop n l) i = nthb l (n + i).
Proof. unfold nthb. rewrite !nth_lookup. by rewrite lookup_drop. Qed.

Lemma u16_at_be16 l i : i + 2 <= length l -> u16_at l i = Ret (be16 l i).
Proof. intros. unfold u16_at. by rewrite !idx_nthb by lia. Qed.

Lemma u32_at_be32 l i : i + 4 <= length l -> u32_at l i = Ret (be32 l i).
Proof. intros. unfold u32_at. by rewrite !idx_nthb by lia. Qed.

Lemma slice_Ret {A} (l : list A) i j :
  i <= j -> j <= length l -> slice l i j = Ret (take (j - i) (drop i l)).
Proof. intros. unfold slice. by rewrite decide_True. Qed.

Lemma store_Ret {A} (l : list A) i x : i < length l -> store l i x = Ret (<[i := x]> l).
Proof. intros. unfold store. by rewrite decide_True. Qed.

Lemma usub_Ret a b : b <= a -> usub a b = Ret (a - b).
Proof. intros. unfold usub. by rewrite decide_True. Qed.

Lemma copy_at_Ret {A} (l : list A) i xs :
  i + length xs <= length l -> copy_at l i xs = Ret (splice l i xs).
Proof. intros. unfold copy_at. by rewrite decide_True. Qed.

Lemma length_splice {A} (l : list A) i xs :
  i + length xs <= length l -> length (splice l i xs) = length l.
Proof. intros. unfold splice. rewrite !length_app, length_take, length_drop. lia. Qed.

Lemma lookup_splice_out {A} (l : list A) i xs j :
  i + length xs <= length l -> j < i \/ i + length xs <= j ->
  splice l i xs !! j = l !! j.
Proof.
  intros Hl Hj. unfold splice.
  assert (length (take i l) = i) as Ht by (rewrite length_take; lia).
  destruct (decide (j < i)).
  - rewrite lookup_app_l by lia. by rewrite lookup_take_lt.
  - rewrite lookup_app_r, Ht by lia. rewrite lookup_app_r by lia.
    rewrite lookup_drop. f_equal. lia.
Qed.

Lemma take_eq_lookup {A} (a b : list A) n :
  (forall j, j < n -> a !! j = b !! j) -> take n a = take n b.
Proof.
  intros H. apply list_eq. intros i. destruct (decide (i < n)).
  - rewrite !lookup_take_lt by done. auto.
  - by rewrite !lookup_take_ge by lia.
Qed.

Lemma lookup_splice_in {A} (l : list A) i xs j :
  i + length xs <= length l -> j < length xs -> splice l i xs !! (i + j) = xs !! j.
Proof.
  intros Hl Hj. unfold splice.
  assert (length (take i l) = i) as Ht by (rewrite length_take; lia).
  rewrite lookup_app_r, Ht by lia. replace (i + j - i) with j by lia.
  by rewrite lookup_app_l.
Qed.

(** ** Big- and little-endian codecs *)

Lemma length_to_le n z : length (to_le n z) = n.
Proof. revert z. induction n; simpl; auto. Qed.

Lemma length_to_be n z : length (to_be n z) = n.
Proof. unfold to_be. by rewrite length_rev, length_to_le. Qed.

Lemma from_be_snoc l b : from_be (l ++ [b]) = (from_be l * 256 + b)%Z.
Proof. unfold from_be. by rewrite foldl_app. Qed.

Lemma from_be_rev l : from_be (rev l) = from_le l.
Proof.
  induction l as [|b l IH]; [done|]. simpl rev. rewrite from_be_snoc, IH. simpl. lia.
Qed.

Lemma from_le_to_le n z : from_le (to_le n z) = (z mod 256 ^ Z.of_nat n)%Z.
Proof.
  revert z. induction n as [|n IH]; intros z.
  - simpl. by rewrite Z.mod_1_r.
  - simpl to_le. simpl from_le. rewrite IH.
    rewrite Nat2Z.inj_succ, Z.pow_succ_r by lia.
    rewrite Z.rem_mul_r by lia. done.
Qed.

Lemma from_be_to_be n z : from_be (to_be n z) = (z mod 256 ^ Z.of_nat n)%Z.
Proof. unfold to_be. by rewrite from_be_rev, from_le_to_le. Qed.

Lemma from_be_to_be_small n z :
  (0 <= z < 256 ^ Z.of_nat n)%Z -> from_be (to_be n z) = z.
Proof. intros. rewrite from_be_to_be. by apply Z.mod_small. Qed.

Lemma from_le_to_le_small n z :
  (0 <= z < 256 ^ Z.of_nat n)%Z -> from_le (to_le n z) = z.
Proof. intros. rewrite from_le_to_le. by apply Z.mod_small. Qed.

Lemma from_le_bound l : bytes_ok l -> (0 <= from_le l < 256 ^ Z.of_nat (length l))%Z.
Proof.
  induction 1 as [|b l Hb Hl IH]; [simpl; lia|].
  simpl length. rewrite Nat2Z.inj_succ, Z.pow_succ_r by lia.
  simpl from_le. unfold u_ok in Hb. nia.
Qed.

Lemma from_be_bound l : bytes_ok l -> (0 <= from_be l < 256 ^ Z.of_nat (length l))%Z.
Proof.
  intros Hl. rewrite <- (rev_involutive l), from_be_rev, length_rev.
  apply from_le_bound, Forall_rev, Hl.
Qed.

Lemma from_be_app l k : from_be (l ++ k) = (from_be l * 256 ^ Z.of_nat (length k) + from_be k)%Z.
Proof.
  induction k as [|b k IH] using rev_ind; [by rewrite app_nil_r, Z.mul_1_r, Z.add_0_r|].
  rewrite app_assoc, !from_be_snoc, IH, length_app. cbn [length].
  rewrite Nat.add_1_r, Nat2Z.inj_succ, Z.pow_succ_r by lia. lia.
Qed.

Lemma to_le_from_le l : bytes_ok l -> to_le (length l) (from_le l) = l.
Proof.
  induction 1 as [|b l Hb Hl IH]; [done|]. simpl. unfold u_ok in Hb.
  rewrite (Z.mul_comm 256), Z.mod_add, Z.mod_small by lia.
  rewrite Z.div_add, Z.div_small, Z.add_0_l by lia. by rewrite IH.
Qed.

Lemma to_be_from_be l : bytes_ok l -> to_be (length l) (from_be l) = l.
Proof.
  intros Hl. unfold to_be. rewrite <- (rev_involutive l) at 1 2.
  rewrite from_be_rev, length_rev.
  rewrite to_le_from_le by by apply Forall_rev. apply rev_involutive.
Qed.

Lemma to_le_ok n z : bytes_ok (to_le n z).
Proof.
  revert z. induction n; intros; simpl; constructor; [|done].
  unfold u_ok. apply Z.mod_pos_bound. lia.
Qed.

Lemma to_be_ok n z : bytes_ok (to_be n z).
Proof. unfold to_be. apply Forall_rev, to_le_ok. Qed.

Lemma be16_bound l i : bytes_ok l -> (0 <= be16 l i < 65536)%Z.
Proof.
  intros. apply (from_be_bound [_; _]). repeat constructor; by apply nthb_ok.
Qed.

Lemma be32_bound l i : bytes_ok l -> (0 <= be32 l i < 2 ^ 32)%Z.
Proof.
  intros. apply (from_be_bound [_; _; _; _]). repeat constructor; by apply nthb_ok.
Qed.

(** ** Tactics *)

(** Lengths of compound lists, then linear arithmetic. *)
Create Rewrite HintDb len.
#[export] Hint Rewrite @length_app @length_take @length_drop @length_insert @length_rev
  @length_fmap @length_replicate @length_cons @length_nil length_to_be length_to_le : len.

Ltac len := autorewrite with len; lia.

(** Decompose hypotheses [bind ... = Ret ...]. *)
Ltac inv_ret :=
  repeat match goal with
  | H : obind _ _ = Ret _ |- _ =>
      let a := fresh "a" in let Ha := fresh "Ha" in
      apply obind_Ret_inv in H as (a & Ha & H)
  | H : obind_opt _ _ = Ret (Some _) |- _ =>
      let a := fresh "a" in let Ha := fresh "Ha" in
      apply obind_opt_Some_inv in H as (a & Ha & H)
  | H : obind_res _ _ = Ret (Ok _) |- _ =>
      let a := fresh "a" in let Ha := fresh "Ha" in
      apply obind_res_Ok_inv in H as (a & Ha & H)
  | H : Ret _ = Ret _ |- _ => injection H as H; try subst
  | H : Some _ = Some _ |- _ => injection H as H; try subst
  | H : Ok _ = Ok _ |- _ => injection H as H; try subst
  | H : Ret _ = Panic |- _ => discriminate H
  | H : Panic = Ret _ |- _ => discriminate H
  | H : OutOfFuel = Ret _ |- _ => discriminate H
  | H : None = Some _ |- _ => discriminate H
  | H : Err _ = Ok _ |- _ => discriminate H
  | H : Ret None = Ret (Some _) |- _ => discriminate H
  end.

(** Replace checked reads and writes that are in range by their values. *)
Ltac in_range :=
  cbn [obind obind_opt obind_res];
  repeat (first
    [ rewrite idx_nthb by (simpl; lia)
    | rewrite u16_at_be16 by (simpl; lia)
    | rewrite u32_at_be32 by (simpl; lia)
    | rewrite slice_Ret by (simpl; lia)
    | rewrite store_Ret by (simpl; rewrite ?length_insert; lia)
    | rewrite usub_Ret by lia
    | rewrite copy_at_Ret by (simpl; lia) ];
    cbn [obind obind_opt obind_res]).

(** [bytes_ok] of concatenations, codecs and literal bytes. *)
Create HintDb bytes.
#[export] Hint Resolve to_be_ok to_le_ok : bytes.

Ltac bytes :=
  repeat first
    [ solve [eauto with bytes]
    | apply Forall_app; split
    | apply Forall_cons; split; [unfold u_ok; lia|]
    | apply Forall_nil; exact I ].

(** The last [n] elements of a list: what a ring buffer of size [n] keeps. *)
Definition lastn {A} (n : nat) (l : list A) : list A := drop (length l - n) l.

Lemma length_lastn {A} n (l : list A) : length (lastn n l) = Nat.min n (length l).
Proof. unfold lastn. rewrite length_drop. lia. Qed.

Lemma lastn_all {A} n (l : list A) : length l <= n -> lastn n l = l.
Proof. intros. unfold lastn. by replace (length l - n) with 0 by lia. Qed.

Lemma lastn_app_lastn {A} n (l k : list A) : lastn n (lastn n l ++ k) = lastn n (l ++ k).
Proof.
  unfold lastn. destruct (decide (length l <= n)).
  - by replace (length l - n) with 0 by lia.
  - rewrite !length_app, length_drop, <- (drop_app_le l k (length l - n)) by lia.
    rewrite drop_drop. f_equal. lia.
Qed.

Lemma lastn_push {A} n (l : list A) x :
  0 < n -> length l <= n -> (if decide (length l = n) then drop 1 l else l) ++ [x] = lastn n (l ++ [x]).
Proof.
  intros Hn Hl. unfold lastn. rewrite length_app. cbn [length]. case_decide as H.
  - replace (length l + 1 - n) with 1 by lia. by rewrite drop_app_le by lia.
  - by replace (length l + 1 - n) with 0 by lia.
Qed.

Lemma elem_of_lfilter {A} (p : A -> bool) l x : x ∈ List.filter p l <-> x ∈ l /\ p x = true.
Proof. by rewrite !list_elem_of_In, filter_In. Qed.

(** Deciding [bytes_ok] of a concrete byte string by evaluation. *)
Lemma bytes_check l : forallb (fun b => bool_decide (0 <= b < 256)%Z) l = true -> bytes_ok l.
Proof.
  rewrite forallb_forall. intros H. apply Forall_forall. intros x Hx%list_elem_of_In.
  apply H, bool_decide_eq_true in Hx. unfold u_ok. lia.
Qed.
