(* ===== verification/Order.v ===== *)
(** * Three-way comparisons and sorting

    The orders Rust derives ([Ord]) on byte strings and records as functions to
    [comparison], their laws as a class, and the sorting of names by them. *)

From S2P Require Import Prelude.

(** The order of sequences: the first difference decides, a prefix is smaller. *)
Fixpoint list_cmp {A} (cmp : A -> A -> comparison) (l l' : list A) : comparison :=
  match l, l' with
  | [], [] => Eq
  | [], _ :: _ => Lt
  | _ :: _, [] => Gt
  | a :: l, a' :: l' => match cmp a a' with Eq => list_cmp cmp l l' | c => c end
  end.

Class CmpOrder {A} (cmp : A -> A -> comparison) : Prop := {
  cmp_eq a b : cmp a b = Eq <-> a = b;
  cmp_sym a b : cmp b a = CompOpp (cmp a b);
  cmp_lt_trans a b c : cmp a b = Lt -> cmp b c = Lt -> cmp a c = Lt
}.

#[export] Instance Z_cmp_order : CmpOrder Z.compare.
Proof.
  split.
  - apply Z.compare_eq_iff.
  - intros. apply Z.compare_antisym.
  - intros a b c. rewrite !Z.compare_lt_iff. lia.
Qed.

Lemma cmp_refl {A} (cmp : A -> A -> comparison) `{!CmpOrder cmp} a : cmp a a = Eq.
Proof. by apply cmp_eq. Qed.

#[export] Instance list_cmp_order {A} (cmp : A -> A -> comparison) `{!CmpOrder cmp} : CmpOrder (list_cmp cmp).
Proof.
  split.
  - induction a as [|x a IH]; intros [|y b]; cbn [list_cmp]; try done. destruct (cmp x y) eqn:Hc.
    + apply cmp_eq in Hc as ->. rewrite IH. split; [by intros ->|by intros [= ->]].
    + split; [done|]. intros [= -> _]. by rewrite cmp_refl in Hc.
    + split; [done|]. intros [= -> _]. by rewrite cmp_refl in Hc.
  - induction a as [|x a IH]; intros [|y b]; cbn [list_cmp]; try done.
    rewrite (cmp_sym x y). destruct (cmp x y); cbn [CompOpp]; [apply IH|done..].
  - induction a as [|x a IH]; intros [|y b] [|z c]; cbn [list_cmp]; try done.
    destruct (cmp x y) eqn:Hxy; [apply cmp_eq in Hxy as ->| |done].
    + destruct (cmp y z) eqn:Hyz; [apply IH|done|done].
    + intros _. destruct (cmp y z) eqn:Hyz; [apply cmp_eq in Hyz as ->; by rewrite Hxy| |done].
      by rewrite (cmp_lt_trans x y z Hxy Hyz).
Qed.

Section cmp.
Context {A : Type} (cmp : A -> A -> comparison) `{!CmpOrder cmp}.

Lemma cmp_le_lt_trans a b c : cmp a b <> Gt -> cmp b c = Lt -> cmp a c = Lt.
Proof. intros Hab Hbc. destruct (cmp a b) eqn:H; [by apply cmp_eq in H as ->|by eapply cmp_lt_trans|done]. Qed.

Lemma cmp_lt_le_trans a b c : cmp a b = Lt -> cmp b c <> Gt -> cmp a c = Lt.
Proof. intros Hab Hbc. destruct (cmp b c) eqn:H; [by apply cmp_eq in H as <-|by eapply cmp_lt_trans|done]. Qed.

Lemma cmp_le_trans a b c : cmp a b <> Gt -> cmp b c <> Gt -> cmp a c <> Gt.
Proof.
  intros Hab Hbc. destruct (cmp a b) eqn:H; [by apply cmp_eq in H as ->| |done].
  by rewrite (cmp_lt_le_trans a b c H Hbc).
Qed.
End cmp.


(** ** Sorting names *)

Definition str_le (a b : list Z) : Prop := list_cmp Z.compare a b <> Gt.

#[export] Instance str_le_dec : RelDecision str_le.
Proof. intros a b. unfold str_le, Decision. destruct (list_cmp _ a b); [left|left|right]; congruence. Defined.

#[export] Instance str_le_trans : Transitive str_le.
Proof. intros a b c. apply cmp_le_trans. apply _. Qed.

#[export] Instance str_le_total : Total str_le.
Proof. intros a b. unfold str_le. rewrite (cmp_sym (cmp := list_cmp Z.compare) a b). destruct (list_cmp _ a b); cbn; [left|left|right]; congruence. Qed.

#[export] Instance str_le_antisym : AntiSymm (=) str_le.
Proof.
  intros a b. unfold str_le. rewrite (cmp_sym (cmp := list_cmp Z.compare) a b). destruct (list_cmp Z.compare a b) eqn:E; cbn; [|done|done].
  intros _ _. by apply (cmp_eq (cmp := list_cmp Z.compare)).
Qed.

(** [names.sort()]. *)
Definition sort_names (l : list (list Z)) : list (list Z) := merge_sort str_le l.
