(* ===== verification/Hasher.v ===== *)
(** * FNV-1a hashing (src/src/hasher.rs)

    The 64-bit FNV-1a state shared by the cache keys and the persisted
    fingerprints, with its wrap-around multiplication, and the reference QNAME
    hash [write_qname_wire].  The theorems show that the state stays a [u64]
    and that absorbing a fixed byte string is injective in the state, so two
    hashes that start to differ at one byte never meet again on a common
    suffix. *)

From S2P Require Import Prelude.

(** [u8::to_ascii_lowercase] *)
Definition to_ascii_lowercase (b : Z) : Z :=
  if decide (65 <= b <= 90)%Z then (b + 32)%Z else b.

(** [u8::eq_ignore_ascii_case] *)
Definition eq_ignore_ascii_case (a b : Z) : bool :=
  bool_decide (to_ascii_lowercase a = to_ascii_lowercase b).

Module Fnv1a.

Abbreviation t := Z.

Definition OFFSET : Z := 14695981039346656037.
Definition PRIME : Z := 1099511628211.

Definition new : t := OFFSET.

Definition write_byte (h : t) (b : Z) : t := wrap 64 (Z.lxor h b * PRIME).

Definition write (h : t) (bytes : list Z) : t := foldl write_byte h bytes.

Definition write_sep (h : t) : t := wrap 64 (Z.lxor h 0x00FFFF00 * PRIME).

Definition finish (h : t) : Z := h.

(** One iteration of the [while let Some(&len) = question.get(pos)] loop per
    unit of fuel; the loop consumes at least one byte per iteration. *)
Fixpoint write_qname_wire_loop (fuel : nat) (h : t) (question : list Z) (pos : nat)
  : outcome (t * nat) :=
  match fuel with
  | O => OutOfFuel
  | S fuel' =>
      match question !! pos with
      | None => Ret (h, pos)
      | Some len =>
          let h := write_byte h len in
          let pos := pos + 1 in
          if decide (len = 0)%Z then Ret (h, pos)
          else
            let end_ := min (pos + Z.to_nat len) (length question) in
            let! label := slice question pos end_ in
            let h := foldl (fun h b => write_byte h (to_ascii_lowercase b)) h label in
            write_qname_wire_loop fuel' h question end_
      end
  end.

Definition write_qname_wire (h : t) (question : list Z) : outcome (t * nat) :=
  write_qname_wire_loop (S (length question)) h question 0.

End Fnv1a.

(** ** Bitwise bounds *)

Lemma u_ok_lxor w a b : (0 <= w)%Z -> u_ok w a -> u_ok w b -> u_ok w (Z.lxor a b).
Proof.
  unfold u_ok. intros Hw [Ha1 Ha2] [Hb1 Hb2].
  assert (0 <= Z.lxor a b)%Z as Hnn by (apply Z.lxor_nonneg; tauto).
  split; [done|].
  destruct (Z.eq_dec (Z.lxor a b) 0) as [->|Hne]; [lia|].
  apply Z.log2_lt_pow2; [lia|].
  eapply Z.le_lt_trans; [apply Z.log2_lxor; lia|].
  apply Z.max_lub_lt.
  - destruct (Z.eq_dec a 0) as [->|]; [|apply Z.log2_lt_pow2; lia].
    rewrite Z.log2_nonpos by lia. destruct (Z.eq_dec w 0) as [->|]; [|lia].
    change (2 ^ 0)%Z with 1%Z in *. assert (b = 0)%Z by lia. subst. by rewrite Z.lxor_0_l in Hne.
  - destruct (Z.eq_dec b 0) as [->|]; [|apply Z.log2_lt_pow2; lia].
    rewrite Z.log2_nonpos by lia. destruct (Z.eq_dec w 0) as [->|]; [|lia].
    change (2 ^ 0)%Z with 1%Z in *. assert (a = 0)%Z by lia. subst. by rewrite Z.lxor_0_l in Hne.
Qed.

Lemma u_ok_mono w w' z : (0 <= w <= w')%Z -> u_ok w z -> u_ok w' z.
Proof.
  unfold u_ok. intros ? [? ?]. split; [done|].
  eapply Z.lt_le_trans; [done|]. apply Z.pow_le_mono_r; lia.
Qed.

Lemma lxor_inj_l a b c : Z.lxor a c = Z.lxor b c -> a = b.
Proof.
  intros H. apply (f_equal (fun x => Z.lxor x c)) in H.
  by rewrite !Z.lxor_assoc, Z.lxor_nilpotent, !Z.lxor_0_r in H.
Qed.

(** ** Case folding *)

Lemma to_ascii_lowercase_ok b : is_byte b -> is_byte (to_ascii_lowercase b).
Proof. unfold to_ascii_lowercase, u_ok. intros. case_decide; lia. Qed.

Lemma to_ascii_lowercase_idem b :
  to_ascii_lowercase (to_ascii_lowercase b) = to_ascii_lowercase b.
Proof. unfold to_ascii_lowercase. repeat case_decide; lia. Qed.

(** ** FNV-1a state *)

Section fnv.
Import Fnv1a.

(** The inverse of the FNV prime modulo 2^64. *)
Definition PRIME_INV : Z := 14886173955864302971.

Lemma prime_inverse : (PRIME * PRIME_INV mod 2 ^ 64 = 1)%Z.
Proof. reflexivity. Qed.

Lemma mul_prime_inj x y :
  u_ok 64 x -> u_ok 64 y -> wrap 64 (x * PRIME) = wrap 64 (y * PRIME) -> x = y.
Proof.
  unfold wrap, u_ok. intros Hx Hy H.
  assert (forall z, u_ok 64 z -> ((z * PRIME) mod 2 ^ 64 * PRIME_INV) mod 2 ^ 64 = z)%Z as Hinv.
  { intros z Hz. rewrite Z.mul_mod_idemp_l by lia.
    rewrite <- Z.mul_assoc, <- Z.mul_mod_idemp_r, prime_inverse by lia.
    rewrite Z.mul_1_r. apply Z.mod_small, Hz. }
  rewrite <- (Hinv x), <- (Hinv y) by done. by rewrite H.
Qed.

Lemma write_byte_ok h b : u_ok 64 (write_byte h b).
Proof. unfold write_byte, wrap, u_ok. apply Z.mod_pos_bound. lia. Qed.

Lemma new_ok : u_ok 64 new.
Proof. unfold u_ok, new, OFFSET. lia. Qed.

Lemma write_ok h l : u_ok 64 h -> u_ok 64 (write h l).
Proof.
  revert h. induction l as [|b l IH]; intros h Hh; [done|]. apply IH, write_byte_ok.
Qed.

Lemma write_byte_inj_state h1 h2 b :
  u_ok 64 b -> u_ok 64 h1 -> u_ok 64 h2 -> write_byte h1 b = write_byte h2 b -> h1 = h2.
Proof. intros Hb H1 H2 H. apply mul_prime_inj in H; [by eapply lxor_inj_l| |]; by apply u_ok_lxor. Qed.

Lemma write_byte_inj_byte h b1 b2 :
  u_ok 64 b1 -> u_ok 64 b2 -> u_ok 64 h -> write_byte h b1 = write_byte h b2 -> b1 = b2.
Proof.
  intros H1 H2 Hh H. apply mul_prime_inj in H; [|by apply u_ok_lxor..].
  rewrite !(Z.lxor_comm h) in H. by eapply lxor_inj_l.
Qed.

Lemma write_inj_state h1 h2 l :
  Forall (u_ok 64) l -> u_ok 64 h1 -> u_ok 64 h2 -> write h1 l = write h2 l -> h1 = h2.
Proof.
  intros Hl. revert h1 h2.
  induction Hl as [|b l Hb Hl IH]; intros h1 h2 H1 H2 H; [done|].
  eapply write_byte_inj_state, IH, H; try done; apply write_byte_ok.
Qed.

Lemma write_app h l1 l2 : write h (l1 ++ l2) = write (write h l1) l2.
Proof. apply foldl_app. Qed.

Lemma write_lower_foldl h l :
  foldl (fun h b => write_byte h (to_ascii_lowercase b)) h l
  = write h (to_ascii_lowercase <$> l).
Proof.
  revert h. induction l as [|b l IH]; intros h; [done|]. simpl. apply IH.
Qed.

Lemma byte_symbol b : is_byte b -> u_ok 64 b.
Proof. intros Hb. apply (u_ok_mono 8); done || lia. Qed.

Lemma bytes_symbols l : bytes_ok l -> Forall (u_ok 64) l.
Proof. intros H. eapply Forall_impl; [exact H|apply byte_symbol]. Qed.

(** Two strings of which one symbol differs, with a common suffix. *)
Lemma write_differ_once h l b1 b2 k :
  Forall (u_ok 64) k -> u_ok 64 b1 -> u_ok 64 b2 -> b1 <> b2 -> u_ok 64 h ->
  write h (l ++ b1 :: k) <> write h (l ++ b2 :: k).
Proof.
  intros Hk H1 H2 Hne Hh H. rewrite !write_app in H. simpl in H.
  apply write_inj_state in H; [|done|apply write_byte_ok..].
  apply write_byte_inj_byte in H; [done..|]. by apply write_ok.
Qed.

End fnv.
