(* ===== verification/DnsName.v ===== *)
(** * DNS names and questions on the wire (src/src/dns/mod.rs)

    The name walker [skip_name], [question_end] and the case-insensitive
    question comparison [questions_match], against two abstract descriptions:
    the grammar [wire_name] of (possibly compressed) names inside a packet, and
    the label lists [encode_name] of uncompressed names. *)

From S2P Require Import Prelude Hasher.

(** ** Operations *)

(** The [loop] of [skip_name]; every iteration that continues moves [pos]
    forward, so the packet length plus one bounds the iterations. *)
Fixpoint skip_name_loop (fuel : nat) (packet : list Z) (pos : nat)
  : outcome (option nat) :=
  match fuel with
  | O => OutOfFuel
  | S fuel' =>
      match packet !! pos with
      | None => Ret None
      | Some len =>
          let pos := pos + 1 in
          if decide (len = 0)%Z then Ret (Some pos)
          else if decide (Z.land len 0xc0 = 0xc0)%Z then
            match packet !! pos with
            | None => Ret None
            | Some _ => Ret (Some (pos + 1))
            end
          else if decide (Z.land len 0xc0 <> 0)%Z then Ret None
          else
            let pos := pos + Z.to_nat len in
            if decide (length packet < pos) then Ret None
            else skip_name_loop fuel' packet pos
      end
  end.

Definition skip_name (packet : list Z) (pos : nat) : outcome (option nat) :=
  skip_name_loop (S (length packet)) packet pos.

Definition question_end (packet : list Z) : outcome (option nat) :=
  if decide (length packet < 12) then Ret None
  else
    let? end_ := skip_name packet 12 in
    if decide (length packet < end_ + 4) then Ret None
    else Ret (Some (end_ + 4)).

(** The inner [for _ in 0..label_len] loop: the position after the label, or
    [None] where the source returns [false]. *)
Fixpoint match_label (n : nat) (a b : list Z) (pos : nat) : option nat :=
  match n with
  | O => Some pos
  | S n' =>
      match a !! pos, b !! pos with
      | Some ba, Some bb =>
          if eq_ignore_ascii_case ba bb then match_label n' a b (pos + 1) else None
      | _, _ => None
      end
  end.

Fixpoint questions_match_loop (fuel : nat) (a b : list Z) (qname_end pos : nat)
  : outcome bool :=
  match fuel with
  | O => OutOfFuel
  | S fuel' =>
      if decide (qname_end < pos) then Ret false
      else
        match a !! pos, b !! pos with
        | Some la, Some lb =>
            if decide (la <> lb) then Ret false
            else
              let pos := pos + 1 in
              if decide (la = 0)%Z then Ret true
              else
                match match_label (Z.to_nat la) a b pos with
                | None => Ret false
                | Some pos => questions_match_loop fuel' a b qname_end pos
                end
        | _, _ => Ret false
        end
  end.

Definition questions_match (a b : list Z) : outcome bool :=
  if decide (length a <> length b \/ length a < 4) then Ret false
  else
    let! ta := slice a (length a - 4) (length a) in
    let! tb := slice b (length b - 4) (length b) in
    if decide (ta <> tb) then Ret false
    else questions_match_loop (S (length a)) a b (length a - 4) 0.

(** ** Abstract names *)

(** [wire_name p pos e]: a well-formed name starts at [pos] and the bytes it
    occupies there (a compression pointer ends it) stop just before [e]. *)
Inductive wire_name (p : list Z) : nat -> nat -> Prop :=
| wn_root pos : p !! pos = Some 0%Z -> wire_name p pos (pos + 1)
| wn_pointer pos len b :
    p !! pos = Some len -> (192 <= len)%Z -> p !! (pos + 1) = Some b ->
    wire_name p pos (pos + 2)
| wn_label pos len e :
    p !! pos = Some len -> (1 <= len <= 63)%Z ->
    wire_name p (pos + 1 + Z.to_nat len) e -> wire_name p pos e.

(** Uncompressed names as lists of labels. *)
Definition label_ok (l : list Z) : Prop := 1 <= length l <= 63 /\ bytes_ok l.

Fixpoint encode_name (ls : list (list Z)) : list Z :=
  match ls with
  | [] => [0%Z]
  | l :: ls' => Z.of_nat (length l) :: l ++ encode_name ls'
  end.

#[global] Arguments encode_name : simpl never.

Definition lower_label (l : list Z) : list Z := to_ascii_lowercase <$> l.

Definition lower_name (ls : list (list Z)) : list (list Z) := lower_label <$> ls.

(** ** Byte facts *)

Lemma byte_forall (P : Z -> bool) b :
  forallb P (seqZ 0 256) = true -> is_byte b -> P b = true.
Proof.
  rewrite forallb_forall. intros HP Hb. apply HP.
  apply list_elem_of_In, elem_of_seqZ. unfold u_ok in Hb. lia.
Qed.

Lemma land_c0 b : is_byte b -> Z.land b 0xc0 = (64 * (b / 64))%Z.
Proof.
  intros Hb. apply Z.eqb_eq.
  by apply (byte_forall (fun b => Z.land b 0xc0 =? 64 * (b / 64))%Z).
Qed.

Lemma land_c0_set b : is_byte b -> (Z.land b 0xc0 = 0xc0 <-> 192 <= b)%Z.
Proof.
  intros Hb. rewrite land_c0 by done. change (2 ^ 8)%Z with 256%Z in Hb.
  unfold u_ok in Hb. split; intros; Z.to_euclidean_division_equations; lia.
Qed.

Lemma land_c0_clear b : is_byte b -> (Z.land b 0xc0 = 0 <-> b < 64)%Z.
Proof.
  intros Hb. rewrite land_c0 by done. change (2 ^ 8)%Z with 256%Z in Hb.
  unfold u_ok in Hb. split; intros; Z.to_euclidean_division_equations; lia.
Qed.

(** ** [skip_name] against the grammar *)

Lemma wire_name_bounds p pos e : wire_name p pos e -> pos < e <= length p.
Proof.
  induction 1 as [pos H|pos len b H Hl Hb|pos len e H Hl _ IH];
    repeat match goal with H : _ !! _ = Some _ |- _ => apply lookup_lt_Some in H end; lia.
Qed.

Lemma skip_name_loop_total fuel p pos :
  0 < fuel -> length p < fuel + pos -> returns (skip_name_loop fuel p pos).
Proof.
  revert pos. induction fuel as [|fuel IH]; intros pos H0 Hf; simpl; [lia|].
  destruct (p !! pos) as [len|] eqn:Hp; [|auto with rust].
  apply lookup_lt_Some in Hp. repeat case_decide; try case_match; auto with rust.
  apply IH; lia.
Qed.

Lemma skip_name_total p pos : returns (skip_name p pos).
Proof. apply skip_name_loop_total; lia. Qed.

Lemma skip_name_loop_sound fuel p pos e :
  bytes_ok p -> skip_name_loop fuel p pos = Ret (Some e) -> wire_name p pos e.
Proof.
  intros Hp. revert pos. induction fuel as [|fuel IH]; intros pos; simpl; [done|].
  destruct (p !! pos) as [len|] eqn:Hpos; [|done].
  assert (is_byte len) as Hlen by (eapply Forall_lookup_1; eauto).
  case_decide as H0; [intros; inv_ret; by constructor|].
  case_decide as Hptr.
  { destruct (p !! (pos + 1)) as [b|] eqn:Hb; [|done]. intros; inv_ret.
    replace (pos + 1 + 1) with (pos + 2) by lia.
    eapply wn_pointer; eauto. by apply land_c0_set. }
  case_decide as Hres; [done|]. case_decide; [done|].
  intros He%IH. eapply wn_label; eauto.
  assert (len < 64)%Z by (apply land_c0_clear; [done|]; destruct (decide (Z.land len 0xc0 = 0)%Z); tauto).
  unfold u_ok in Hlen. lia.
Qed.

Lemma skip_name_loop_complete fuel p pos e :
  bytes_ok p -> wire_name p pos e -> length p < fuel + pos ->
  skip_name_loop fuel p pos = Ret (Some e).
Proof.
  intros Hp Hn. revert fuel.
  induction Hn as [pos H|pos len b H Hl Hb|pos len e H Hl Hn IH]; intros fuel Hf;
    assert (Hlt := lookup_lt_Some _ _ _ H); destruct fuel as [|fuel]; try lia; simpl; rewrite H.
  - by rewrite decide_True.
  - assert (is_byte len) as Hlen by (eapply Forall_lookup_1; eauto).
    rewrite decide_False, decide_True by (lia || by apply land_c0_set).
    rewrite Hb. do 2 f_equal. lia.
  - assert (is_byte len) as Hlen by (eapply Forall_lookup_1; eauto).
    assert (Z.land len 0xc0 = 0)%Z as Hc by (apply land_c0_clear; [done|lia]).
    rewrite decide_False by lia. rewrite Hc, decide_False by done.
    rewrite decide_False by tauto.
    apply wire_name_bounds in Hn. rewrite decide_False by lia. apply IH. lia.
Qed.

Lemma skip_name_spec p pos e :
  bytes_ok p -> skip_name p pos = Ret (Some e) <-> wire_name p pos e.
Proof.
  intros Hp. split; [by apply skip_name_loop_sound|].
  intros. apply skip_name_loop_complete; [done..|lia].
Qed.

Lemma skip_name_bounds p pos e :
  skip_name p pos = Ret (Some e) -> pos < e <= length p.
Proof.
  unfold skip_name. generalize (S (length p)). intros fuel. revert pos.
  induction fuel as [|fuel IH]; intros pos; simpl; [done|].
  destruct (p !! pos) as [len|] eqn:Hpos; [|done]. apply lookup_lt_Some in Hpos.
  repeat case_decide; try done; intros; inv_ret; try lia.
  - destruct (p !! (pos + 1)) eqn:E; [|done]. apply lookup_lt_Some in E. inv_ret. lia.
  - apply IH in H3. lia.
Qed.

(** A reading position never depends on what lies beyond the name. *)
Lemma wire_name_det p pos e1 e2 : wire_name p pos e1 -> wire_name p pos e2 -> e1 = e2.
Proof.
  intros H1. revert e2. induction H1; intros e2 H2; inversion H2; simplify_eq; try lia; eauto.
Qed.

Lemma wire_name_local p p' pos e :
  wire_name p pos e -> (forall j, pos <= j < e -> p' !! j = p !! j) -> wire_name p' pos e.
Proof.
  induction 1 as [pos H|pos len b H Hl Hb|pos len e H Hl Hn IH]; intros Hj.
  - apply wn_root. by rewrite Hj by lia.
  - eapply wn_pointer; [by rewrite Hj by lia|done|by rewrite Hj by lia].
  - pose proof (wire_name_bounds _ _ _ Hn). eapply wn_label; [by rewrite Hj by lia|done|].
    apply IH. intros j ?. apply Hj. lia.
Qed.


Lemma wire_name_app p q pos e : wire_name p pos e -> wire_name (p ++ q) pos e.
Proof.
  induction 1; [apply wn_root|eapply wn_pointer|eapply wn_label]; eauto using lookup_app_l_Some.
Qed.

Lemma question_end_total p : returns (question_end p).
Proof.
  unfold question_end. case_decide; auto with rust.
  apply returns_bind_opt; [apply skip_name_total|]. intros. case_decide; auto with rust.
Qed.

Lemma question_end_bounds p e :
  question_end p = Ret (Some e) -> 17 <= e <= length p.
Proof.
  unfold question_end. case_decide; [done|]. intros H'. inv_ret.
  apply skip_name_bounds in Ha. case_decide; inv_ret. lia.
Qed.

(** ** Encoded names *)

Lemma encode_name_nil : encode_name [] = [0%Z].
Proof. done. Qed.

Lemma encode_name_cons l ls :
  encode_name (l :: ls) = Z.of_nat (length l) :: l ++ encode_name ls.
Proof. done. Qed.

Lemma encode_name_ok ls : Forall label_ok ls -> bytes_ok (encode_name ls).
Proof.
  induction 1 as [|l ls [Hl Hb] Hls IH]; [repeat constructor; unfold u_ok; lia|].
  rewrite encode_name_cons. constructor; [unfold u_ok; lia|]. by apply Forall_app.
Qed.

#[export] Hint Resolve encode_name_ok : bytes.

(** Deciding [Forall label_ok] of a concrete name by evaluation. *)
Definition labels_okb (ls : list (list Z)) : bool :=
  forallb (fun l => bool_decide (1 <= length l <= 63)
    && forallb (fun b => bool_decide (0 <= b < 256)%Z) l) ls.

Lemma labels_check ls : labels_okb ls = true -> Forall label_ok ls.
Proof.
  unfold labels_okb. rewrite forallb_forall. intros H. apply Forall_forall.
  intros l Hl%list_elem_of_In. apply H, andb_true_iff in Hl as [H1 H2].
  apply bool_decide_eq_true in H1. split; [done|by apply bytes_check].
Qed.

Lemma length_lower_label l : length (lower_label l) = length l.
Proof. apply length_fmap. Qed.

Lemma lower_name_ok ls : Forall label_ok ls -> Forall label_ok (lower_name ls).
Proof.
  intros H. apply Forall_fmap. eapply (list.Forall_impl _ _ _ H). intros l [Hl Hb]. split.
  - by rewrite length_lower_label.
  - apply Forall_fmap. eapply (list.Forall_impl _ _ _ Hb). intros. by apply to_ascii_lowercase_ok.
Qed.

Lemma length_encode_lower ls : length (encode_name (lower_name ls)) = length (encode_name ls).
Proof.
  induction ls as [|l ls IH]; [done|]. simpl lower_name.
  rewrite !encode_name_cons. simpl. rewrite !length_app, IH. by rewrite length_lower_label.
Qed.

Lemma length_encode_name_pos ls : 0 < length (encode_name ls).
Proof. destruct ls; [simpl; lia|]. rewrite encode_name_cons. simpl. lia. Qed.

Lemma wire_name_encode pre ls post :
  Forall label_ok ls ->
  wire_name (pre ++ encode_name ls ++ post) (length pre) (length pre + length (encode_name ls)).
Proof.
  intros Hls. revert pre. induction Hls as [|l ls [Hl Hb] Hls IH]; intros pre.
  - apply wn_root. by apply list_lookup_middle.
  - rewrite encode_name_cons. simpl.
    eapply (wn_label _ _ (Z.of_nat (length l))); [by apply list_lookup_middle|lia|].
    specialize (IH (pre ++ Z.of_nat (length l) :: l)).
    rewrite <- !app_assoc in IH. simpl in IH. rewrite <- app_assoc.
    rewrite length_app in IH. simpl in IH.
    replace (length pre + 1 + Z.to_nat (Z.of_nat (length l)))
      with (length pre + S (length l)) by lia.
    replace (length pre + S (length (l ++ encode_name ls)))
      with (length pre + S (length l) + length (encode_name ls)) by (rewrite length_app; lia).
    done.
Qed.

(** ** [questions_match] *)

Lemma match_label_bounds n a b pos pos' :
  match_label n a b pos = Some pos' -> pos' = pos + n /\ (n = 0 \/ pos + n <= length a).
Proof.
  revert pos. induction n as [|n IH]; intros pos; simpl.
  - intros [= <-]. lia.
  - destruct (a !! pos) eqn:Ea; [|done]. apply lookup_lt_Some in Ea.
    repeat (case_match; try done). intros ?%IH. lia.
Qed.

Lemma questions_match_loop_total fuel a b qe pos :
  0 < fuel -> length a < fuel + pos -> returns (questions_match_loop fuel a b qe pos).
Proof.
  revert pos. induction fuel as [|fuel IH]; intros pos H0 Hf; simpl; [lia|].
  case_decide; auto with rust.
  destruct (a !! pos) as [la|] eqn:Ea; [|auto with rust]. apply lookup_lt_Some in Ea.
  destruct (b !! pos); auto with rust. repeat case_decide; auto with rust.
  destruct (match_label _ _ _ _) as [pos'|] eqn:Em; auto with rust.
  apply match_label_bounds in Em. apply IH; lia.
Qed.

Lemma questions_match_total a b : returns (questions_match a b).
Proof.
  unfold questions_match. case_decide; auto with rust.
  in_range. case_decide; auto with rust. apply questions_match_loop_total; lia.
Qed.

Lemma match_label_app pa pb l1 l2 ra rb :
  length pa = length pb -> length l1 = length l2 ->
  match_label (length l1) (pa ++ l1 ++ ra) (pb ++ l2 ++ rb) (length pa)
  = if decide (lower_label l1 = lower_label l2) then Some (length pa + length l1) else None.
Proof.
  revert pa pb l2. induction l1 as [|x l1 IH]; intros pa pb l2 Hp Hl;
    destruct l2 as [|y l2]; simpl in *; try lia.
  - by rewrite Nat.add_0_r.
  - rewrite list_lookup_middle by done. rewrite Hp, list_lookup_middle by done.
    unfold eq_ignore_ascii_case. case_bool_decide as Hxy.
    + specialize (IH (pa ++ [x]) (pb ++ [y]) l2). rewrite <- !app_assoc in IH. simpl in IH.
      rewrite !length_app in IH. simpl in IH. rewrite Hp in IH.
      rewrite IH by lia. repeat case_decide; try done.
      * f_equal. lia.
      * unfold lower_label in *. simpl in *. congruence.
      * unfold lower_label in *. simpl in *. congruence.
    + rewrite decide_False; [done|]. unfold lower_label. simpl. congruence.
Qed.

Lemma questions_match_loop_encoded ls1 ls2 fuel pa pb t1 t2 :
  Forall label_ok ls1 -> Forall label_ok ls2 ->
  length pa = length pb ->
  length (encode_name ls1) <= fuel ->
  questions_match_loop fuel (pa ++ encode_name ls1 ++ t1) (pb ++ encode_name ls2 ++ t2)
    (length pa + length (encode_name ls1)) (length pa)
  = Ret (bool_decide (lower_name ls1 = lower_name ls2)).
Proof.
  intros H1. revert ls2 fuel pa pb.
  induction H1 as [|l1 ls1 [Hl1 Hb1] H1 IH]; intros ls2 fuel pa pb H2 Hp Hf;
    destruct fuel as [|fuel]; try (rewrite ?encode_name_cons in Hf; simpl in Hf; lia);
    simpl; rewrite decide_False by lia.
  - rewrite list_lookup_middle by done. destruct H2 as [|l2 ls2 [Hl2 _] H2].
    + rewrite encode_name_nil, Hp. simpl. rewrite list_lookup_middle by done. simpl.
      done.
    + rewrite encode_name_cons, Hp. simpl. rewrite list_lookup_middle by done.
      rewrite decide_True by lia. done.
  - rewrite encode_name_cons in *. simpl in *. rewrite list_lookup_middle by done.
    destruct H2 as [|l2 ls2 [Hl2 Hb2] H2].
    + rewrite Hp. simpl. rewrite list_lookup_middle by done.
      rewrite decide_True by lia. done.
    + rewrite encode_name_cons, Hp. simpl. rewrite list_lookup_middle by done.
      destruct (decide (length l1 = length l2)) as [Hlen|Hlen].
      2:{ rewrite decide_True by lia. rewrite bool_decide_eq_false_2; [done|].
          intros [= Hc _]. apply (f_equal length) in Hc. by rewrite !length_lower_label in Hc. }
      rewrite decide_False by lia. rewrite decide_False by lia.
      assert (Hml := match_label_app (pa ++ [Z.of_nat (length l1)]) (pb ++ [Z.of_nat (length l2)])
        l1 l2 (encode_name ls1 ++ t1) (encode_name ls2 ++ t2)).
      rewrite <- !app_assoc in Hml. simpl in Hml. rewrite !length_app in Hml. simpl in Hml.
      rewrite <- !app_assoc, Nat2Z.id. rewrite <- Hp, Hml by lia. case_decide as Hlow.
      2:{ rewrite bool_decide_eq_false_2; [done|]. simpl. congruence. }
      specialize (IH ls2 fuel (pa ++ Z.of_nat (length l1) :: l1) (pb ++ Z.of_nat (length l2) :: l2)).
      rewrite <- !app_assoc in IH. simpl in IH. rewrite !length_app in IH. simpl in IH.
      rewrite length_app in *.
      replace (length pa + S (length l1 + length (encode_name ls1)))
        with (length pa + S (length l1) + length (encode_name ls1)) by lia.
      replace (length pa + 1 + length l1) with (length pa + S (length l1)) by lia.
      rewrite IH by (done || lia). f_equal. apply bool_decide_ext. simpl. split; [intros <-; by f_equal | by intros [= _ ?]].
Qed.

Lemma questions_match_encoded ls1 ls2 t1 t2 :
  Forall label_ok ls1 -> Forall label_ok ls2 -> length t1 = 4 -> length t2 = 4 ->
  questions_match (encode_name ls1 ++ t1) (encode_name ls2 ++ t2)
  = Ret (bool_decide (lower_name ls1 = lower_name ls2 /\ t1 = t2)).
Proof.
  intros H1 H2 Ht1 Ht2. unfold questions_match.
  assert (length (encode_name ls1 ++ t1) = length (encode_name ls1) + 4) as L1
    by (rewrite length_app; lia).
  assert (length (encode_name ls2 ++ t2) = length (encode_name ls2) + 4) as L2
    by (rewrite length_app; lia).
  rewrite L1, L2. case_decide as Hd.
  - rewrite bool_decide_eq_false_2; [done|]. intros [Hn _].
    apply (f_equal (length ∘ encode_name)) in Hn. simpl in Hn.
    rewrite !length_encode_lower in Hn. lia.
  - assert (length (encode_name ls1) = length (encode_name ls2)) as Hlen by lia.
    rewrite !slice_Ret by lia. cbn [obind].
    replace (length (encode_name ls1) + 4 - 4) with (length (encode_name ls1)) by lia.
    replace (length (encode_name ls2) + 4 - 4) with (length (encode_name ls2)) by lia.
    rewrite !drop_app_length.
    replace (length (encode_name ls1) + 4 - length (encode_name ls1)) with (length t1) by lia.
    replace (length (encode_name ls2) + 4 - length (encode_name ls2)) with (length t2) by lia.
    rewrite !firstn_all. case_decide as Ht.
    + rewrite bool_decide_eq_false_2 by tauto. done.
    + pose proof (questions_match_loop_encoded ls1 ls2 (S (length (encode_name ls1) + 4))
        [] [] t1 t2 H1 H2 eq_refl ltac:(lia)) as Hloop.
      cbn [app length Nat.add] in Hloop. rewrite Hloop. f_equal. apply bool_decide_ext. destruct (decide (t1 = t2)); tauto.
Qed.
