(* ===== verification/DnsQuery.v ===== *)
(** * Query parsing (src/src/dns/query.rs, types of src/src/dns/mod.rs)

    The single-pass validation and hashing of an incoming query
    ([parse_query_fast]), the header accessors, and the types the parser hands
    to the resolver.  [parse_query_fast] is characterised exactly: it accepts a
    packet if and only if the packet is a standard one-question query whose
    uncompressed QNAME is a legal label sequence, and the hash it returns is the
    FNV-1a hash of the case-folded name. *)

From S2P Require Import Prelude Hasher DnsName.

(** ** Types *)

Record EcsSrc := mkEcsSrc {
  ecs_addr : list Z;
  ecs_prefix_len : Z
}.

Record QueryVariant := mkQueryVariant {
  has_opt : bool;
  do_bit : bool;
  edns_version : Z;
  rd : bool;
  ad : bool;
  cd : bool;
  ecs_src : option EcsSrc;
  extra_opts_hash : Z
}.

#[export] Instance EcsSrc_eq_dec : EqDecision EcsSrc.
Proof. solve_decision. Defined.

#[export] Instance QueryVariant_eq_dec : EqDecision QueryVariant.
Proof. solve_decision. Defined.

Record FastQueryInfo := mkFastQueryInfo {
  fast_id : Z;
  fast_qtype : Z;
  fast_question_end : nat;
  fast_qname_wire_hash : Fnv1a.t;
  fast_qname_wire_hash_end : nat
}.

Record QueryInfo := mkQueryInfo {
  info_id : Z;
  info_qname : option (list Z);
  info_qtype : Z;
  info_question_end : nat;
  info_qname_wire_hash : Fnv1a.t;
  info_qname_wire_hash_end : nat;
  info_variant : QueryVariant;
  info_precomputed_cache_keys : option (Z * option Z)
}.

(** The [anyhow!] error sites of query.rs. *)
Inductive query_error :=
| TooShort
| NotAQuery
| NonQueryOpcode
| BadQdcount
| CompressedQname
| InvalidQuestion
| QnameTooLong
| TruncatedQuestion
| InvalidQuery.

(** ** Operations *)

Definition get_id (packet : list Z) : outcome (result query_error Z) :=
  if decide (length packet < 2) then Ret (Err TooShort)
  else let! id := u16_at packet 0 in Ret (Ok id).

Definition set_id (packet : list Z) (id : Z) : outcome (result query_error (list Z)) :=
  if decide (length packet < 2) then Ret (Err TooShort)
  else
    let be := to_be 2 id in
    let! packet := store packet 0 (nthb be 0) in
    let! packet := store packet 1 (nthb be 1) in
    Ret (Ok packet).

Definition is_query (packet : list Z) : outcome bool :=
  if decide (12 <= length packet) then
    let! b := idx packet 2 in Ret (bool_decide (Z.land b 0x80 = 0)%Z)
  else Ret false.

Definition is_reply (packet : list Z) : outcome bool :=
  if decide (12 <= length packet) then
    let! b := idx packet 2 in Ret (bool_decide (Z.land b 0x80 <> 0)%Z)
  else Ret false.

Definition is_truncated (packet : list Z) : outcome bool :=
  if decide (4 <= length packet) then
    let! b := idx packet 2 in Ret (bool_decide (Z.land b 0x02 <> 0)%Z)
  else Ret false.

Definition parse_query_from_fast (_packet : list Z) (fast : FastQueryInfo)
    (variant : QueryVariant) : QueryInfo :=
  {| info_id := fast_id fast;
     info_qname := None;
     info_qtype := fast_qtype fast;
     info_question_end := fast_question_end fast;
     info_qname_wire_hash := fast_qname_wire_hash fast;
     info_qname_wire_hash_end := fast_qname_wire_hash_end fast;
     info_variant := variant;
     info_precomputed_cache_keys := None |}.

Definition question_tail (packet : list Z) (pos : nat) : result query_error nat :=
  if decide (length packet < pos + 4) then Err TruncatedQuestion else Ok (pos + 4).

(** The [while pos < packet.len()] loop of [skip_query_question]: the position
    and hash when it is left, or the error it returns. *)
Fixpoint skip_query_question_loop (fuel : nat) (packet : list Z) (start pos : nat)
    (h : Fnv1a.t) : outcome (result query_error (nat * Fnv1a.t)) :=
  match fuel with
  | O => OutOfFuel
  | S fuel' =>
      if decide (pos < length packet) then
        let! len := idx packet pos in
        let h := Fnv1a.write_byte h len in
        let pos := pos + 1 in
        if decide (len = 0)%Z then Ret (Ok (pos, h))
        else if decide (Z.land len 0xc0 <> 0)%Z then Ret (Err CompressedQname)
        else if decide ((63 < len)%Z \/ length packet < pos + Z.to_nat len) then
          Ret (Err InvalidQuestion)
        else
          let! label := slice packet pos (pos + Z.to_nat len) in
          let h := foldl (fun h b => Fnv1a.write_byte h (to_ascii_lowercase b)) h label in
          let pos := pos + Z.to_nat len in
          let! covered := usub pos start in
          if decide (255 < covered + 1) then Ret (Err QnameTooLong)
          else skip_query_question_loop fuel' packet start pos h
      else Ret (Ok (pos, h))
  end.

Definition skip_query_question (packet : list Z) (pos : nat)
  : outcome (result query_error (nat * Fnv1a.t * nat)) :=
  let start := pos in
  let* (pos, h) := skip_query_question_loop (S (length packet)) packet start pos Fnv1a.new in
  let! hash_end := usub pos start in
  let* qend := Ret (question_tail packet pos) in
  Ret (Ok (qend, h, hash_end)).

Definition parse_query_fast (packet : list Z) : outcome (result query_error FastQueryInfo) :=
  let! q := is_query packet in
  if negb q then Ret (Err NotAQuery)
  else
    let! b2 := idx packet 2 in
    if decide (Z.land (Z.shiftr b2 3) 0x0f <> 0)%Z then Ret (Err NonQueryOpcode)
    else
      let! qd := u16_at packet 4 in
      if decide (qd <> 1)%Z then Ret (Err BadQdcount)
      else
        let* (qend, qname_wire_hash, qname_wire_hash_end) := skip_query_question packet 12 in
        let! i := usub qend 4 in
        let! qtype := u16_at packet i in
        let* id := get_id packet in
        Ret (Ok {| fast_id := id;
                   fast_qtype := qtype;
                   fast_question_end := qend;
                   fast_qname_wire_hash := qname_wire_hash;
                   fast_qname_wire_hash_end := qname_wire_hash_end |}).

(** ** The accepted packets *)

(** Header of a standard query with one question. *)
Definition query_header (p : list Z) : Prop :=
  Z.land (nthb p 2) 0x80 = 0%Z /\ Z.land (Z.shiftr (nthb p 2) 3) 0x0f = 0%Z /\ be16 p 4 = 1%Z.

(** [question_of p ls tail]: the packet's first question is the uncompressed
    name [ls] followed by the four bytes [tail] of QTYPE and QCLASS. *)
Definition question_of (p : list Z) (ls : list (list Z)) (tail : list Z) : Prop :=
  exists hdr rest, p = hdr ++ encode_name ls ++ tail ++ rest /\
    length hdr = 12 /\ length tail = 4 /\
    Forall label_ok ls /\ length (encode_name ls) <= 255.

(** ** The question loop *)

Lemma skip_query_question_loop_total fuel p start pos h :
  0 < fuel -> length p < fuel + pos -> start <= pos ->
  returns (skip_query_question_loop fuel p start pos h).
Proof.
  revert pos h. induction fuel as [|fuel IH]; intros pos h H0 Hf Hs; simpl; [lia|].
  case_decide; auto with rust. in_range.
  repeat (case_decide; auto with rust; in_range). apply IH; lia.
Qed.

Lemma skip_query_question_loop_sound fuel p start pos h e h' :
  bytes_ok p -> start <= pos -> e < length p ->
  skip_query_question_loop fuel p start pos h = Ret (Ok (e, h')) ->
  exists ls, drop pos p = encode_name ls ++ drop e p /\
    e = pos + length (encode_name ls) /\ Forall label_ok ls /\
    h' = Fnv1a.write h (encode_name (lower_name ls)) /\
    (ls = [] \/ e - start <= 255).
Proof.
  intros Hp. revert pos h. induction fuel as [|fuel IH]; intros pos h Hs He; simpl; [done|].
  case_decide as Hlt; [|intros; inv_ret; lia].
  in_range. assert (is_byte (nthb p pos)) as Hlen by by apply nthb_ok.
  assert (drop pos p = nthb p pos :: drop (S pos) p) as Hd
    by (apply drop_S, nthb_lookup, Hlt).
  case_decide as Hz.
  { intros; inv_ret. exists []. rewrite Hd, Hz. simpl.
    rewrite Nat.add_1_r. repeat split; auto. }
  case_decide as Hc; [done|]. case_decide as Hb; [done|]. in_range.
  case_decide as Hq; [done|]. intros Hrec. apply IH in Hrec; [|lia|done].
  destruct Hrec as (ls & Hdrop & -> & Hls & -> & Hlim).
  assert (length (take (Z.to_nat (nthb p pos)) (drop (pos + 1) p)) = Z.to_nat (nthb p pos)) as Hl
    by (rewrite length_take, length_drop; lia).
  set (l := take (Z.to_nat (nthb p pos)) (drop (pos + 1) p)) in *.
  unfold u_ok in Hlen.
  exists (l :: ls). rewrite encode_name_cons. simpl length. rewrite length_app.
  replace (pos + 1 + Z.to_nat (nthb p pos) - (pos + 1)) with (Z.to_nat (nthb p pos)) by lia.
  repeat split.
  - rewrite Hd, Hl, Z2Nat.id by lia. simpl. f_equal.
    rewrite <- (take_drop (Z.to_nat (nthb p pos)) (drop (S pos) p)).
    unfold l. rewrite Nat.add_1_r, drop_drop, <- app_assoc. f_equal.
    replace (S pos + Z.to_nat (nthb p pos)) with (pos + 1 + Z.to_nat (nthb p pos)) by lia.
    rewrite Hdrop. f_equal; f_equal; lia.
  - lia.
  - constructor; [|done]. split; [lia|]. by apply Forall_take, Forall_drop.
  - rewrite write_lower_foldl. simpl lower_name. rewrite encode_name_cons.
    simpl Fnv1a.write. rewrite length_lower_label, Hl, Z2Nat.id by lia.
    by rewrite write_app.
  - right. destruct Hlim as [->|]; simpl in *; lia.
Qed.

Lemma skip_query_question_loop_complete ls fuel pre rest start h :
  Forall label_ok ls -> start <= length pre -> 0 < fuel ->
  length (encode_name ls) <= fuel ->
  length pre - start + length (encode_name ls) <= 255 ->
  skip_query_question_loop fuel (pre ++ encode_name ls ++ rest) start (length pre) h
  = Ret (Ok (length pre + length (encode_name ls), Fnv1a.write h (encode_name (lower_name ls)))).
Proof.
  intros Hls. revert fuel pre h.
  induction Hls as [|l ls [Hl Hb] Hls IH]; intros fuel pre h Hs H0 Hf Hlim;
    (destruct fuel as [|fuel]; [lia|]); simpl;
    rewrite decide_True by (rewrite length_app; simpl; lia);
    rewrite (idx_lookup _ _ _ (list_lookup_middle _ _ _ _ eq_refl)); cbn [obind].
  - done.
  - assert (Z.land (Z.of_nat (length l)) 0xc0 = 0)%Z as Hc.
    { apply land_c0_clear; unfold u_ok; lia. }
    assert (Hpos := length_encode_name_pos ls).
    rewrite encode_name_cons in Hf, Hlim. simpl in Hf, Hlim. rewrite length_app in Hf, Hlim.
    rewrite decide_False by lia. rewrite decide_False by tauto.
    rewrite Nat2Z.id, decide_False by len.
    rewrite slice_Ret by len.
    cbn [obind]. rewrite usub_Ret by lia. cbn [obind]. rewrite decide_False by lia.
    specialize (IH fuel (pre ++ Z.of_nat (length l) :: l)).
    rewrite <- !app_assoc in IH. simpl in IH. rewrite length_app in IH. simpl in IH.
    rewrite <- !app_assoc.
    replace (length pre + 1 + length l) with (length pre + S (length l)) by lia.
    replace (length pre + S (length l) - (length pre + 1)) with (length l) by lia.
    replace (drop (length pre + 1) (pre ++ Z.of_nat (length l) :: l ++ encode_name ls ++ rest))
      with (l ++ encode_name ls ++ rest)
      by (rewrite drop_app_ge by lia; by replace (length pre + 1 - length pre) with 1 by lia).
    rewrite take_app_length.
    rewrite IH by lia. do 3 f_equal; [rewrite length_app; lia|].
    rewrite write_lower_foldl, length_lower_label, write_app. done.
Qed.

Lemma skip_query_question_loop_mono fuel p start pos h e h' :
  skip_query_question_loop fuel p start pos h = Ret (Ok (e, h')) -> pos <= e.
Proof.
  revert pos h. induction fuel as [|fuel IH]; intros pos h; simpl; [done|].
  case_decide; [|by intros; inv_ret]. in_range.
  case_decide; [intros; inv_ret; lia|]. case_decide; [done|]. case_decide; [done|].
  intros Hr; inv_ret. case_decide; [done|]. apply IH in Hr. lia.
Qed.

Lemma skip_query_question_total p pos : returns (skip_query_question p pos).
Proof.
  unfold skip_query_question.
  apply returns_bind_res; [apply skip_query_question_loop_total; lia|].
  intros [e h] He.
  apply skip_query_question_loop_mono in He.
  in_range. case_match; auto with rust.
Qed.

(** ** Headers *)

Lemma is_query_eq p :
  is_query p = Ret (bool_decide (12 <= length p /\ Z.land (nthb p 2) 0x80 = 0%Z)).
Proof.
  unfold is_query. case_decide.
  - in_range. f_equal. apply bool_decide_ext. tauto.
  - by rewrite bool_decide_eq_false_2 by tauto.
Qed.

Lemma is_reply_eq p :
  is_reply p = Ret (bool_decide (12 <= length p /\ Z.land (nthb p 2) 0x80 <> 0%Z)).
Proof.
  unfold is_reply. case_decide.
  - in_range. f_equal. apply bool_decide_ext. tauto.
  - by rewrite bool_decide_eq_false_2 by tauto.
Qed.

Lemma is_truncated_eq p :
  is_truncated p = Ret (bool_decide (4 <= length p /\ Z.land (nthb p 2) 0x02 <> 0%Z)).
Proof.
  unfold is_truncated. case_decide.
  - in_range. f_equal. apply bool_decide_ext. tauto.
  - by rewrite bool_decide_eq_false_2 by tauto.
Qed.

Lemma set_id_eq p id :
  2 <= length p ->
  set_id p id = Ret (Ok (to_be 2 id ++ drop 2 p)).
Proof.
  intros Hp. unfold set_id. rewrite decide_False by lia.
  destruct p as [|a [|b p]]; simpl in Hp; try lia.
  in_range. done.
Qed.

Lemma get_id_eq p : 2 <= length p -> get_id p = Ret (Ok (be16 p 0)).
Proof. intros. unfold get_id. rewrite decide_False by lia. by in_range. Qed.

(** ** [parse_query_fast] *)

Lemma parse_query_fast_total p : returns (parse_query_fast p).
Proof.
  unfold parse_query_fast. rewrite is_query_eq. cbn [obind].
  case_bool_decide as Hq; simpl; [|auto with rust].
  destruct Hq as [Hl _]. in_range. case_decide; auto with rust.
  in_range. case_decide; auto with rust.
  apply returns_bind_res; [apply skip_query_question_total|].
  intros [[qend h] he] Hs. unfold skip_query_question in Hs. inv_ret.
  destruct a as [e h']. inv_ret. unfold question_tail in *. case_decide; inv_ret.
  in_range. rewrite get_id_eq by lia. simpl. auto with rust.
Qed.

Lemma nthb_app_hdr (hdr k : list Z) i : i < length hdr -> nthb (hdr ++ k) i = nthb hdr i.
Proof. apply nthb_app_l. Qed.

Lemma drop_hdr (p : list Z) n : n <= length p -> exists hdr, p = hdr ++ drop n p /\ length hdr = n.
Proof. intros. exists (take n p). rewrite take_drop, length_take. split; [done|lia]. Qed.

Lemma parse_query_fast_sound p fi :
  bytes_ok p -> parse_query_fast p = Ret (Ok fi) ->
  query_header p /\ exists ls tail, question_of p ls tail /\
    fi = {| fast_id := be16 p 0;
            fast_qtype := be16 tail 0;
            fast_question_end := 12 + length (encode_name ls) + 4;
            fast_qname_wire_hash := Fnv1a.write Fnv1a.new (encode_name (lower_name ls));
            fast_qname_wire_hash_end := length (encode_name ls) |}.
Proof.
  intros Hp. unfold parse_query_fast. rewrite is_query_eq. cbn [obind].
  case_bool_decide as Hq; cbn [negb]; [|done]. destruct Hq as [Hl Hqr].
  in_range. case_decide as Hop; [done|]. in_range. case_decide as Hqd; [done|].
  intros Hr. inv_ret. destruct a as [[qend h] he]. inv_ret.
  unfold skip_query_question in Ha. inv_ret. destruct a2 as [e h']. inv_ret.
  unfold question_tail in *. case_decide; inv_ret.
  rewrite get_id_eq in * by lia. rewrite usub_Ret in * by lia. inv_ret.
  rewrite u16_at_be16 in * by lia. inv_ret.
  apply skip_query_question_loop_sound in Ha3; [|done|lia|lia].
  destruct Ha3 as (ls & Hd & -> & Hls & -> & Hlim).
  rewrite usub_Ret in Ha4 by lia. inv_ret.
  split; [done|].
  destruct (drop_hdr p 12 Hl) as (hdr & Hhdr & Hlen).
  exists ls, (take 4 (drop (12 + length (encode_name ls)) p)). split.
  - exists hdr, (drop 4 (drop (12 + length (encode_name ls)) p)).
    rewrite (take_drop 4), <- Hd. repeat split; try done.
    + len.
    + destruct Hlim as [->|]; simpl in *; lia.
  - f_equal; [|lia..]. unfold be16. rewrite !nthb_take, !nthb_drop by lia.
    f_equal. f_equal; [f_equal; lia|]. f_equal. f_equal. lia.
Qed.

Lemma parse_query_fast_complete p ls tail :
  bytes_ok p -> query_header p -> question_of p ls tail ->
  parse_query_fast p = Ret (Ok
    {| fast_id := be16 p 0;
       fast_qtype := be16 tail 0;
       fast_question_end := 12 + length (encode_name ls) + 4;
       fast_qname_wire_hash := Fnv1a.write Fnv1a.new (encode_name (lower_name ls));
       fast_qname_wire_hash_end := length (encode_name ls) |}).
Proof.
  intros Hp (Hqr & Hop & Hqd) (hdr & rest & Heq & Hh & Ht & Hls & Hlim).
  assert (length p = 16 + length (encode_name ls) + length rest) as Hlen
    by (rewrite Heq; len).
  unfold parse_query_fast. rewrite is_query_eq, bool_decide_eq_true_2 by (split; [lia|done]).
  simpl. in_range. rewrite decide_False by tauto. in_range. rewrite decide_False by tauto.
  unfold skip_query_question.
  assert (Hloop := skip_query_question_loop_complete ls (S (length p)) hdr (tail ++ rest) 12
    Fnv1a.new Hls ltac:(lia) ltac:(lia) ltac:(lia) ltac:(lia)).
  rewrite <- Heq, Hh in Hloop. rewrite Hloop. in_range.
  unfold question_tail. rewrite decide_False by lia. in_range.
  rewrite get_id_eq by lia. in_range. do 3 f_equal; [|lia].
  unfold be16. replace (12 + length (encode_name ls) + 4 - 4)
    with (length (hdr ++ encode_name ls)) by len.
  rewrite Heq, app_assoc.
  rewrite (nthb_app_r (hdr ++ _)), (nthb_app_r (hdr ++ _)) by lia.
  rewrite Nat.sub_diag, Nat.add_comm, Nat.add_sub. by rewrite !nthb_app_l by lia.
Qed.
