(* ===== verification/Utf8.v ===== *)
(** * UTF-8 validation and lossy decoding

    [String::from_utf8], [String::from_utf8_lossy] and [is_ascii] of the Rust
    standard library, as used on names by src/src/dns/query.rs,
    src/src/cache.rs and src/src/verdict_cache.rs.  A Rust string is the list of
    its UTF-8 bytes. *)

From S2P Require Import Prelude Hasher DnsName.

Definition is_ascii_byte (b : Z) : bool := bool_decide (b < 128)%Z.
Definition is_ascii (l : list Z) : bool := forallb is_ascii_byte l.

Definition is_cont (o : option Z) : bool :=
  match o with Some b => bool_decide (Z.land b 0xc0 = 0x80)%Z | None => false end.

Definition in_rng (lo hi : Z) (o : option Z) : bool :=
  match o with Some b => bool_decide (lo <= b <= hi)%Z | None => false end.

(** The allowed second byte of a three- or four-byte sequence. *)
Definition second3 (b : Z) (o : option Z) : bool :=
  if decide (b = 0xE0)%Z then in_rng 0xA0 0xBF o
  else if decide (b = 0xED)%Z then in_rng 0x80 0x9F o
  else in_rng 0x80 0xBF o.

Definition second4 (b : Z) (o : option Z) : bool :=
  if decide (b = 0xF0)%Z then in_rng 0x90 0xBF o
  else if decide (b = 0xF4)%Z then in_rng 0x80 0x8F o
  else in_rng 0x80 0xBF o.

(** One chunk step at first byte [b] with rest [r]: whether a whole scalar value
    was read, and the number of bytes consumed (the maximal valid prefix of a
    broken sequence when not). *)
Definition utf8_step (b : Z) (r : list Z) : bool * nat :=
  if decide (b < 128)%Z then (true, 1)
  else if decide (0xC2 <= b <= 0xDF)%Z then
    if is_cont (r !! 0) then (true, 2) else (false, 1)
  else if decide (0xE0 <= b <= 0xEF)%Z then
    if second3 b (r !! 0) then
      if is_cont (r !! 1) then (true, 3) else (false, 2)
    else (false, 1)
  else if decide (0xF0 <= b <= 0xF4)%Z then
    if second4 b (r !! 0) then
      if is_cont (r !! 1) then
        if is_cont (r !! 2) then (true, 4) else (false, 3)
      else (false, 2)
    else (false, 1)
  else (false, 1).

(** U+FFFD in UTF-8. *)
Definition replacement : list Z := [0xEF; 0xBF; 0xBD]%Z.

Fixpoint from_utf8_lossy_loop (fuel : nat) (l : list Z) : list Z :=
  match fuel, l with
  | S fuel', b :: r =>
      let '(ok, n) := utf8_step b r in
      (if ok then take n l else replacement) ++ from_utf8_lossy_loop fuel' (drop n l)
  | _, _ => []
  end.

Definition from_utf8_lossy (l : list Z) : list Z := from_utf8_lossy_loop (length l) l.

Fixpoint utf8_valid_loop (fuel : nat) (l : list Z) : bool :=
  match fuel, l with
  | _, [] => true
  | S fuel', b :: r =>
      let '(ok, n) := utf8_step b r in ok && utf8_valid_loop fuel' (drop n l)
  | O, _ :: _ => false
  end.

Definition utf8_valid (l : list Z) : bool := utf8_valid_loop (length l) l.

(** [String::from_utf8] *)
Definition from_utf8 (l : list Z) : option (list Z) :=
  if utf8_valid l then Some l else None.

(** ** Facts *)

Lemma utf8_step_pos b r : 1 <= (utf8_step b r).2 <= 4.
Proof. unfold utf8_step. repeat case_match; simpl; lia. Qed.

Lemma utf8_valid_loop_lossy fuel l :
  length l <= fuel -> utf8_valid_loop fuel l = true -> from_utf8_lossy_loop fuel l = l.
Proof.
  revert l. induction fuel as [|fuel IH]; intros [|b r] Hl; simpl in *; try done.
  pose proof (utf8_step_pos b r) as Hn. destruct (utf8_step b r) as [ok n]. simpl in Hn.
  intros [-> Hv]%andb_true_iff. rewrite IH; [|rewrite length_drop; simpl; lia|done].
  apply take_drop.
Qed.

(** A valid string is decoded byte for byte. *)
Lemma from_utf8_lossy_valid l : utf8_valid l = true -> from_utf8_lossy l = l.
Proof. by apply utf8_valid_loop_lossy. Qed.

Lemma is_ascii_valid l : is_ascii l = true -> utf8_valid l = true.
Proof.
  unfold utf8_valid. induction l as [|b r IH]; [done|]. simpl.
  intros [Hb Hr]%andb_true_iff. apply bool_decide_eq_true in Hb.
  unfold utf8_step. rewrite decide_True by done. simpl. rewrite drop_0. by apply IH.
Qed.

(** Case folding commutes with lossy decoding: it only moves bytes within the
    ASCII range, which no multi-byte sequence contains. *)
Lemma lower_high b : (128 <= b)%Z -> to_ascii_lowercase b = b.
Proof. unfold to_ascii_lowercase. case_decide; lia. Qed.

Lemma lower_low b : (b < 128)%Z -> (to_ascii_lowercase b < 128)%Z.
Proof. unfold to_ascii_lowercase. case_decide; lia. Qed.

Lemma land_c0_cont b : is_byte b -> (Z.land b 0xc0 = 0x80 <-> 128 <= b < 192)%Z.
Proof.
  intros Hb. rewrite land_c0 by done. unfold u_ok in Hb. change (2 ^ 8)%Z with 256%Z in Hb.
  split; intros; Z.to_euclidean_division_equations; lia.
Qed.

Lemma is_cont_lower r i :
  bytes_ok r -> is_cont (lower_label r !! i) = is_cont (r !! i).
Proof.
  intros Hr. unfold lower_label. rewrite list_lookup_fmap.
  destruct (r !! i) as [b|] eqn:Hb; [|done]. simpl.
  assert (is_byte b) as Hok by (eapply Forall_lookup_1; eauto).
  apply bool_decide_ext. rewrite !land_c0_cont by auto using to_ascii_lowercase_ok.
  destruct (decide (b < 128)%Z) as [Hlt|]; [|by rewrite lower_high by lia].
  apply lower_low in Hlt as ?. lia.
Qed.

Lemma in_rng_lower lo hi r i :
  (128 <= lo)%Z -> in_rng lo hi (lower_label r !! i) = in_rng lo hi (r !! i).
Proof.
  intros Hlo. unfold lower_label. rewrite list_lookup_fmap.
  destruct (r !! i) as [b|] eqn:Hb; [|done]. simpl. apply bool_decide_ext.
  destruct (decide (b < 128)%Z) as [Hlt|]; [|by rewrite lower_high by lia].
  apply lower_low in Hlt as ?. lia.
Qed.

Lemma utf8_step_lower b r :
  bytes_ok r -> utf8_step (to_ascii_lowercase b) (lower_label r) = utf8_step b r.
Proof.
  intros Hr. destruct (decide (b < 128)%Z) as [Hlt|Hge].
  - apply lower_low in Hlt as ?. unfold utf8_step. by rewrite !decide_True.
  - rewrite lower_high by lia. unfold utf8_step, second3, second4.
    rewrite !is_cont_lower, !in_rng_lower by (done || lia). done.
Qed.

Lemma lower_replacement : lower_label replacement = replacement.
Proof. done. Qed.

Lemma from_utf8_lossy_loop_lower fuel l :
  bytes_ok l ->
  from_utf8_lossy_loop fuel (lower_label l) = lower_label (from_utf8_lossy_loop fuel l).
Proof.
  revert l. induction fuel as [|fuel IH]; intros [|b r] Hl; try done.
  simpl. inversion Hl as [|? ? Hb Hr]; subst. rewrite utf8_step_lower by done.
  destruct (utf8_step b r) as [ok n].
  change (to_ascii_lowercase b :: lower_label r) with (lower_label (b :: r)).
  assert (forall (k : list Z), drop n (lower_label k) = lower_label (drop n k)) as Hd
    by (intros; unfold lower_label; by rewrite fmap_drop).
  rewrite Hd, IH by by apply Forall_drop.
  destruct ok; unfold lower_label; rewrite fmap_app; [by rewrite fmap_take | done].
Qed.

Lemma from_utf8_lossy_lower l :
  bytes_ok l -> from_utf8_lossy (lower_label l) = lower_label (from_utf8_lossy l).
Proof.
  intros. unfold from_utf8_lossy. rewrite length_lower_label. by apply from_utf8_lossy_loop_lower.
Qed.

Lemma lower_label_idem l : lower_label (lower_label l) = lower_label l.
Proof.
  unfold lower_label. rewrite <- list_fmap_compose.
  apply list_fmap_ext. intros. apply to_ascii_lowercase_idem.
Qed.

(** ** Valid strings are closed under what names are built with *)

Lemma is_cont_lt r i : is_cont (r !! i) = true -> i < length r.
Proof. destruct (r !! i) as [b|] eqn:H; [|done]. intros _. by eapply lookup_lt_Some. Qed.

Lemma in_rng_lt lo hi r i : in_rng lo hi (r !! i) = true -> i < length r.
Proof. destruct (r !! i) as [b|] eqn:H; [|done]. intros _. by eapply lookup_lt_Some. Qed.

Lemma second_lt b r i : second3 b (r !! i) = true \/ second4 b (r !! i) = true -> i < length r.
Proof. unfold second3, second4. intros [H|H]; repeat case_decide; by eapply in_rng_lt. Qed.

(** A complete sequence depends on its own bytes only. *)
Lemma utf8_step_local b r r' n :
  utf8_step b r = (true, n) -> (forall i, S i < n -> r' !! i = r !! i) ->
  n <= S (length r) /\ utf8_step b r' = (true, n).
Proof.
  unfold utf8_step. intros H Hr.
  destruct (decide (b < 128)%Z); [injection H as <-; split; [lia|done]|].
  destruct (decide (0xC2 <= b <= 0xDF)%Z).
  { destruct (is_cont (r !! 0)) eqn:H0; [|done]. injection H as <-. apply is_cont_lt in H0 as ?.
    split; [lia|]. by rewrite Hr, H0 by lia. }
  destruct (decide (0xE0 <= b <= 0xEF)%Z).
  { destruct (second3 b (r !! 0)) eqn:H0; [|done]. destruct (is_cont (r !! 1)) eqn:H1; [|done].
    injection H as <-. apply is_cont_lt in H1 as ?. split; [lia|]. by rewrite !Hr, H0, H1 by lia. }
  destruct (decide (0xF0 <= b <= 0xF4)%Z); [|done].
  destruct (second4 b (r !! 0)) eqn:H0; [|done]. destruct (is_cont (r !! 1)) eqn:H1; [|done].
  destruct (is_cont (r !! 2)) eqn:H2; [|done].
  injection H as <-. apply is_cont_lt in H2 as ?. split; [lia|]. by rewrite !Hr, H0, H1, H2 by lia.
Qed.

Lemma utf8_valid_loop_fuel f f' l :
  length l <= f -> length l <= f' -> utf8_valid_loop f l = utf8_valid_loop f' l.
Proof.
  revert f' l. induction f as [|f IH]; intros [|f'] [|b r] Hf Hf'; simpl in *; try done; try lia.
  pose proof (utf8_step_pos b r) as Hn. destruct (utf8_step b r) as [ok n]. simpl in Hn. f_equal.
  apply IH; rewrite length_drop; simpl; lia.
Qed.

Lemma utf8_valid_cons b r n :
  utf8_step b r = (true, n) -> utf8_valid (b :: r) = utf8_valid (drop n (b :: r)).
Proof.
  intros Hs. pose proof (utf8_step_pos b r) as Hn. rewrite Hs in Hn. cbn in Hn.
  unfold utf8_valid at 1. cbn [length utf8_valid_loop]. rewrite Hs. cbn [andb].
  apply utf8_valid_loop_fuel; rewrite length_drop; cbn [length]; lia.
Qed.

(** Induction over the sequences of a valid string. *)
Lemma utf8_valid_ind (P : list Z -> Prop) :
  P [] ->
  (forall b r n, utf8_step b r = (true, n) -> 1 <= n <= length (b :: r) ->
     utf8_valid (drop n (b :: r)) = true -> P (drop n (b :: r)) -> P (b :: r)) ->
  forall l, utf8_valid l = true -> P l.
Proof.
  intros H0 Hs l. remember (length l) as m eqn:Hm. assert (Hle : length l <= m) by lia. clear Hm.
  revert l Hle. induction m as [|m IH]; intros [|b r] Hl Hv; cbn [length] in Hl; try done; try lia.
  destruct (utf8_step b r) as [ok n] eqn:Hst. pose proof (utf8_step_pos b r) as Hn. rewrite Hst in Hn. cbn in Hn.
  destruct ok; [|unfold utf8_valid in Hv; cbn [length utf8_valid_loop] in Hv; by rewrite Hst in Hv].
  rewrite (utf8_valid_cons b r n Hst) in Hv.
  destruct (utf8_step_local b r r n Hst) as [Hle _]; [done|].
  eapply Hs; [done|cbn [length]; lia|done|]. apply IH; [|done]. rewrite length_drop. cbn [length]. lia.
Qed.

Lemma utf8_valid_app a b : utf8_valid a = true -> utf8_valid b = true -> utf8_valid (a ++ b) = true.
Proof.
  intros Ha Hb. revert a Ha. apply (utf8_valid_ind (fun a => utf8_valid (a ++ b) = true)); [done|].
  intros x r n Hst Hn _ IH. cbn [app].
  destruct (utf8_step_local x r (r ++ b) n Hst) as [_ Hst'].
  { intros i Hi. apply lookup_app_l. cbn [length] in Hn. lia. }
  rewrite (utf8_valid_cons _ _ _ Hst'). change (x :: r ++ b) with ((x :: r) ++ b). by rewrite drop_app_le by lia.
Qed.

Lemma utf8_valid_take b r n : utf8_step b r = (true, n) -> utf8_valid (take n (b :: r)) = true.
Proof.
  intros Hst. destruct (utf8_step_local b r r n Hst) as [Hle _]; [done|].
  destruct n as [|n]; [done|]. cbn [take].
  destruct (utf8_step_local b r (take n r) (S n) Hst) as [_ Hst'].
  { intros i Hi. apply lookup_take_lt. lia. }
  rewrite (utf8_valid_cons _ _ _ Hst'). rewrite drop_ge; [done|]. cbn [length]. rewrite length_take. lia.
Qed.

(** Lossy decoding always gives a string. *)
Lemma from_utf8_lossy_is_valid l : utf8_valid (from_utf8_lossy l) = true.
Proof.
  unfold from_utf8_lossy. generalize (length l) as fuel. intros fuel. revert l.
  induction fuel as [|fuel IH]; intros [|b r]; cbn [from_utf8_lossy_loop]; try done.
  destruct (utf8_step b r) as [[|] n] eqn:Hst; apply utf8_valid_app; auto. by eapply utf8_valid_take.
Qed.

Lemma utf8_valid_lower l : bytes_ok l -> utf8_valid l = true -> utf8_valid (lower_label l) = true.
Proof.
  intros Hl Hv. rewrite <- (from_utf8_lossy_valid l Hv), <- from_utf8_lossy_lower by done.
  apply from_utf8_lossy_is_valid.
Qed.

Lemma from_utf8_lossy_bytes l : bytes_ok l -> bytes_ok (from_utf8_lossy l).
Proof.
  unfold from_utf8_lossy. generalize (length l) as fuel. intros fuel. revert l.
  induction fuel as [|fuel IH]; intros [|b r] Hl; cbn [from_utf8_lossy_loop]; try by apply Forall_nil.
  destruct (utf8_step b r) as [[|] n]; apply Forall_app; (split; [|by apply IH, Forall_drop]);
    [by apply Forall_take|unfold replacement; bytes].
Qed.
