(* ===== verification/DnsQname.v ===== *)
(** * The routing name of a query (src/src/dns/query.rs, qname_from_question)

    The lazily built, lower-cased, dot-separated name that routing, the caches
    and the query log use.  It is shown to be defined on every question the
    parser accepts, to equal the joined labels, and to depend on the question
    only up to ASCII case. *)

From S2P Require Import Prelude Hasher DnsName DnsQuery Utf8.

Definition DOT : Z := 46.

(** The text pushed for one label: [label.is_ascii()] decides between the
    byte-wise loop and the lossy conversion. *)
Definition push_label (label : list Z) : list Z :=
  if is_ascii label then to_ascii_lowercase <$> label
  else lower_label (from_utf8_lossy label).

Fixpoint qname_loop (fuel : nat) (packet : list Z) (question_end pos : nat)
    (qname : list Z) : outcome (result query_error (list Z)) :=
  match fuel with
  | O => OutOfFuel
  | S fuel' =>
      if decide (pos < length packet /\ pos < question_end) then
        let! len := idx packet pos in
        let pos := pos + 1 in
        if decide (len = 0)%Z then Ret (Ok qname)
        else if decide (Z.land len 0xc0 <> 0)%Z then Ret (Err CompressedQname)
        else if decide ((63 < len)%Z \/ question_end < pos + Z.to_nat len) then
          Ret (Err InvalidQuestion)
        else
          let qname := if decide (qname <> []) then qname ++ [DOT] else qname in
          let! label := slice packet pos (pos + Z.to_nat len) in
          let qname := qname ++ push_label label in
          qname_loop fuel' packet question_end (pos + Z.to_nat len) qname
      else Ret (Ok qname)
  end.

Definition qname_from_question (packet : list Z) (question_end : nat)
  : outcome (result query_error (list Z)) :=
  let! q := is_query packet in
  if decide (q = false \/ length packet < question_end) then Ret (Err InvalidQuery)
  else qname_loop (S (length packet)) packet question_end 12 [].

(** ** Abstract name text *)

Fixpoint join_dots (ts : list (list Z)) : list Z :=
  match ts with
  | [] => []
  | [t] => t
  | t :: ts' => t ++ DOT :: join_dots ts'
  end.

Definition qname_text (ls : list (list Z)) : list Z := join_dots (push_label <$> ls).

(** ** Facts *)

Lemma push_label_eq l : push_label l = lower_label (from_utf8_lossy l).
Proof.
  unfold push_label. destruct (is_ascii l) eqn:Ha; [|done].
  by rewrite from_utf8_lossy_valid by by apply is_ascii_valid.
Qed.

Lemma push_label_lower l : bytes_ok l -> push_label (lower_label l) = push_label l.
Proof. intros. by rewrite !push_label_eq, from_utf8_lossy_lower, lower_label_idem. Qed.

Lemma push_label_nonempty l : l <> [] -> push_label l <> [].
Proof.
  rewrite push_label_eq. unfold from_utf8_lossy. destruct l as [|b r]; [done|]. intros _.
  simpl length. cbn [from_utf8_lossy_loop].
  pose proof (utf8_step_pos b r) as Hn. destruct (utf8_step b r) as [ok n]; simpl in Hn.
  destruct n as [|n]; [lia|]. destruct ok; done.
Qed.

Lemma qname_loop_total fuel p qe pos q :
  qe <= length p -> 0 < fuel -> length p < fuel + pos -> returns (qname_loop fuel p qe pos q).
Proof.
  intros Hqe. revert pos q. induction fuel as [|fuel IH]; intros pos q H0 Hf; simpl; [lia|].
  case_decide; auto with rust. in_range.
  case_decide; auto with rust. case_decide; auto with rust. case_decide; auto with rust.
  in_range. apply IH; lia.
Qed.

Lemma qname_from_question_total p qe : returns (qname_from_question p qe).
Proof.
  unfold qname_from_question. rewrite is_query_eq. cbn [obind].
  case_decide as H; auto with rust. apply qname_loop_total; lia.
Qed.

(** Appending the labels [ls] to an already built prefix. *)
Definition append_labels (q : list Z) (ls : list (list Z)) : list Z :=
  foldl (fun q l => (if decide (q <> []) then q ++ [DOT] else q) ++ push_label l) q ls.

Lemma append_labels_cons q ls :
  q <> [] -> Forall (fun l => l <> []) ls ->
  append_labels q ls = join_dots (q :: (push_label <$> ls)).
Proof.
  intros Hq Hls. revert q Hq. induction Hls as [|l ls Hl Hls IH]; intros q Hq; [done|].
  simpl. rewrite decide_True by done. rewrite IH.
  - destruct ls as [|l' ls]; simpl; by rewrite <- !app_assoc.
  - intros Hnil%app_eq_nil. destruct Hnil as [Hnil _]. apply app_eq_nil in Hnil as [_ ?]. done.
Qed.

Lemma append_labels_text ls :
  Forall label_ok ls -> append_labels [] ls = qname_text ls.
Proof.
  intros Hls. assert (Forall (fun l => l <> []) ls) as Hne.
  { eapply (list.Forall_impl _ _ _ Hls). intros [|] [? _]; simpl in *; [lia|done]. }
  destruct Hne as [|l ls Hl Hne]; [done|]. unfold append_labels. simpl.
  apply (append_labels_cons (push_label l) ls); [by apply push_label_nonempty|done].
Qed.

Lemma qname_loop_encoded ls fuel pre rest qe q :
  Forall label_ok ls -> 0 < fuel -> length (encode_name ls) <= fuel ->
  length pre + length (encode_name ls) <= qe ->
  qe <= length (pre ++ encode_name ls ++ rest) ->
  qname_loop fuel (pre ++ encode_name ls ++ rest) qe (length pre) q
  = Ret (Ok (append_labels q ls)).
Proof.
  intros Hls. revert fuel pre q.
  induction Hls as [|l ls [Hl Hb] Hls IH]; intros fuel pre q H0 Hf Hqe Hle;
    (destruct fuel as [|fuel]; [lia|]); cbn [qname_loop].
  - rewrite encode_name_nil in *. simpl in Hqe, Hle.
    rewrite decide_True by (rewrite length_app in *; simpl in *; lia).
    simpl. by rewrite (idx_lookup _ _ _ (list_lookup_middle _ _ _ _ eq_refl)).
  - assert (Hpos := length_encode_name_pos ls). rewrite encode_name_cons in *.
    assert (Hf' : S (length l + length (encode_name ls)) <= S fuel) by (revert Hf; len).
    assert (Hqe' : length pre + S (length l + length (encode_name ls)) <= qe) by (revert Hqe; len).
    rewrite decide_True by (split; [len | lia]).
    simpl. rewrite (idx_lookup _ _ _ (list_lookup_middle _ _ _ _ eq_refl)). cbn [obind].
    assert (Z.land (Z.of_nat (length l)) 0xc0 = 0)%Z as Hc by (apply land_c0_clear; unfold u_ok; lia).
    rewrite decide_False by lia. rewrite decide_False by tauto.
    rewrite Nat2Z.id, decide_False by lia.
    rewrite slice_Ret by len. cbn [obind].
    specialize (IH fuel (pre ++ Z.of_nat (length l) :: l)).
    rewrite <- !app_assoc in IH. simpl in IH. rewrite <- !app_assoc in *.
    replace (length (pre ++ Z.of_nat (length l) :: l)) with (length pre + 1 + length l) in IH by len.
    replace (length pre + 1 + length l - (length pre + 1)) with (length l) by lia.
    rewrite (drop_app_ge pre) by lia.
    replace (length pre + 1 - length pre) with 1 by lia. simpl drop.
    rewrite drop_0, take_app_length. apply IH; [lia|lia|lia|]. revert Hle. len.
Qed.

Lemma qname_from_question_of p ls tail :
  query_header p -> question_of p ls tail ->
  qname_from_question p (12 + length (encode_name ls) + 4) = Ret (Ok (qname_text ls)).
Proof.
  intros (Hqr & _ & _) (hdr & rest & Heq & Hh & Ht & Hls & Hlim).
  assert (length p = 16 + length (encode_name ls) + length rest) as Hlen by (rewrite Heq; len).
  unfold qname_from_question.
  rewrite is_query_eq, bool_decide_eq_true_2 by (split; [lia|done]). cbn [obind].
  rewrite decide_False by (intros [?|?]; [done|lia]).
  rewrite Heq at 2. rewrite <- Hh at 2.
  rewrite qname_loop_encoded by (done || rewrite <- ?Heq; lia).
  by rewrite append_labels_text.
Qed.

(** Questions equal up to ASCII case have the same text. *)
Lemma qname_text_case ls1 ls2 :
  Forall label_ok ls1 -> Forall label_ok ls2 -> lower_name ls1 = lower_name ls2 ->
  qname_text ls1 = qname_text ls2.
Proof.
  intros H1 H2 Heq. unfold qname_text. f_equal. revert ls2 H2 Heq.
  induction H1 as [|l1 ls1 [_ Hb1] H1 IH]; intros ls2 H2 Heq;
    destruct H2 as [|l2 ls2 [_ Hb2] H2]; try done.
  injection Heq as Hl Hls. simpl. f_equal; [|by apply IH].
  by rewrite <- (push_label_lower l1), <- (push_label_lower l2), Hl.
Qed.

(** The name of any packet is a string, whatever its labels hold. *)
Lemma push_label_valid l : bytes_ok l -> utf8_valid (push_label l) = true.
Proof.
  intros Hl. rewrite push_label_eq. apply utf8_valid_lower; [by apply from_utf8_lossy_bytes|].
  apply from_utf8_lossy_is_valid.
Qed.

Lemma qname_loop_valid fuel p qe pos q r :
  bytes_ok p -> utf8_valid q = true -> qname_loop fuel p qe pos q = Ret (Ok r) -> utf8_valid r = true.
Proof.
  intros Hp. revert pos q. induction fuel as [|fuel IH]; intros pos q Hq; cbn [qname_loop]; [done|].
  case_decide; [|intros [= <-]; done]. intros Hr. inv_ret. revert Hr. case_decide; [intros [= <-]; done|].
  do 2 (case_decide; [done|]). intros Hr. inv_ret. eapply IH, Hr. apply utf8_valid_app.
  - case_decide; [by apply utf8_valid_app|done].
  - apply push_label_valid. clear Hr. unfold slice in Ha0. case_decide; [|done]. injection Ha0 as <-.
    by apply Forall_take, Forall_drop.
Qed.

Lemma qname_from_question_valid p qe q :
  bytes_ok p -> qname_from_question p qe = Ret (Ok q) -> utf8_valid q = true.
Proof.
  intros Hp. unfold qname_from_question. intros H. inv_ret. revert H. case_decide; [done|].
  by apply qname_loop_valid.
Qed.
