(* ===== verification/DnsRecords.v ===== *)
(** * Resource records and TTLs (src/src/dns/ttl.rs, extract_answer_records of
      src/src/dns/mod.rs)

    The record walker, the answer extractors used by filters and set updates,
    the effective-TTL computation that drives the cache, and the TTL patching
    of served packets.  The single-pass [ttl_offsets_and_soa] is shown equal to
    a reference that parses the record list first and then selects from it. *)

From S2P Require Import Prelude Hasher DnsName DnsQuery.

(** [std::net::IpAddr], as octets. *)
Inductive IpAddr :=
| V4 (octets : list Z)
| V6 (octets : list Z).

#[export] Instance IpAddr_eq_dec : EqDecision IpAddr.
Proof. solve_decision. Defined.

(** ** Operations *)

Definition rcode (packet : list Z) : outcome Z :=
  if decide (length packet < 4) then Ret 0%Z
  else let! b := idx packet 3 in Ret (Z.land b 0x0f).

Definition is_good_reply (packet : list Z) : outcome bool :=
  let! r := is_reply packet in
  if decide (r = false \/ length packet < 12) then Ret false
  else let! rc := rcode packet in Ret (bool_decide (rc = 0 \/ rc = 3)%Z).

(** (type, class, ttl, rdata start, record end) *)
Abbreviation rr5 := (Z * Z * Z * nat * nat)%type.

Definition parse_rr (packet : list Z) (pos : nat) : outcome (option rr5) :=
  let? name_end := skip_name packet pos in
  if decide (length packet < name_end + 10) then Ret None
  else
    let! rr_type := u16_at packet name_end in
    let! class := u16_at packet (name_end + 2) in
    let! ttl := u32_at packet (name_end + 4) in
    let! rdlen := u16_at packet (name_end + 8) in
    let rdata_start := name_end + 10 in
    let rr_end := rdata_start + Z.to_nat rdlen in
    if decide (length packet < rr_end) then Ret None
    else Ret (Some (rr_type, class, ttl, rdata_start, rr_end)).

Fixpoint answer_ips_loop (n : nat) (packet : list Z) (pos : nat) (ips : list IpAddr)
  : outcome (list IpAddr) :=
  match n with
  | O => Ret ips
  | S n' =>
      let! r := parse_rr packet pos in
      match r with
      | None => Ret ips
      | Some (rr_type, _, _, rdata, rr_end) =>
          let! rdlen := usub rr_end rdata in
          let! ips :=
            if decide (rr_type = 1%Z /\ rdlen = 4) then
              let! a := idx packet rdata in
              let! b := idx packet (rdata + 1) in
              let! c := idx packet (rdata + 2) in
              let! d := idx packet (rdata + 3) in
              Ret (ips ++ [V4 [a; b; c; d]])
            else if decide (rr_type = 28%Z /\ rdlen = 16) then
              let! octets := slice packet rdata rr_end in
              Ret (ips ++ [V6 octets])
            else Ret ips in
          answer_ips_loop n' packet rr_end ips
      end
  end.

Definition answer_ips (packet : list Z) (question_end : nat) : outcome (list IpAddr) :=
  if decide (length packet < 12 \/ length packet < question_end) then Ret []
  else
    let! an := u16_at packet 6 in
    answer_ips_loop (Z.to_nat an) packet question_end [].

Fixpoint answer_rr_types_loop (n : nat) (packet : list Z) (pos : nat) (types : list Z)
  : outcome (list Z) :=
  match n with
  | O => Ret types
  | S n' =>
      let! r := parse_rr packet pos in
      match r with
      | None => Ret types
      | Some (rr_type, _, _, _, rr_end) =>
          let types := if decide (rr_type ∈ types) then types else types ++ [rr_type] in
          answer_rr_types_loop n' packet rr_end types
      end
  end.

Definition answer_rr_types (packet : list Z) (question_end : nat) : outcome (list Z) :=
  if decide (length packet < 12 \/ length packet < question_end) then Ret []
  else
    let! an := u16_at packet 6 in
    answer_rr_types_loop (Z.to_nat an) packet question_end [].

Definition question_qclass (packet : list Z) (question_end : nat) : outcome (option Z) :=
  if decide (question_end < 2 \/ length packet < question_end) then Ret None
  else let! c := u16_at packet (question_end - 2) in Ret (Some c).

Fixpoint extract_answer_records_loop (n : nat) (resp : list Z) (offset : nat)
    (results : list (Z * Z * list Z)) : outcome (list (Z * Z * list Z)) :=
  match n with
  | O => Ret results
  | S n' =>
      let! r := parse_rr resp offset in
      match r with
      | None => Ret results
      | Some (rtype, _, ttl, rdata_start, rr_end) =>
          let! rdata := slice resp rdata_start rr_end in
          extract_answer_records_loop n' resp rr_end (results ++ [(rtype, ttl, rdata)])
      end
  end.

Definition extract_answer_records (resp : list Z) (question_end : nat)
  : outcome (list (Z * Z * list Z)) :=
  if decide (length resp < 12 \/ length resp < question_end) then Ret []
  else
    let! an := u16_at resp 6 in
    extract_answer_records_loop (Z.to_nat an) resp question_end [].

Definition extract_soa_minimum (packet : list Z) (rdata rdata_end : nat) : outcome (option Z) :=
  let? p := skip_name packet rdata in
  let? p := skip_name packet p in
  if decide (rdata_end < p + 20) then Ret None
  else let! m := u32_at packet (p + 16) in Ret (Some m).

(** The pairs are [u32] offsets with [u32] TTLs. *)
Abbreviation TtlOffsets := (list (Z * Z)).

(** [for i in 0..total], with [n] iterations left. *)
Fixpoint ttl_offsets_loop (n : nat) (packet : list Z) (an ns i pos : nat)
    (offsets : TtlOffsets) (an_offsets : nat) (soa_ttl : option Z)
  : outcome (option (TtlOffsets * nat * option Z)) :=
  match n with
  | O => Ret (Some (offsets, an_offsets, soa_ttl))
  | S n' =>
      let? fixed := skip_name packet pos in
      if decide (length packet < fixed + 10) then Ret None
      else
        let! rr_type := u16_at packet fixed in
        let! rr_ttl := u32_at packet (fixed + 4) in
        let! rdlen := u16_at packet (fixed + 8) in
        let rdata := fixed + 10 in
        let rdata_end := rdata + Z.to_nat rdlen in
        if decide (length packet < rdata_end) then Ret None
        else
          let offsets' :=
            if decide (rr_type <> 41)%Z
            then offsets ++ [(wrap 32 (Z.of_nat (fixed + 4)), rr_ttl)] else offsets in
          let an_offsets' :=
            if decide (rr_type <> 41%Z /\ i < an) then an_offsets + 1 else an_offsets in
          let! soa_ttl' :=
            if decide (rr_type = 6%Z /\ soa_ttl = None /\ an <= i /\ i < an + ns) then
              let! m := extract_soa_minimum packet rdata rdata_end in
              Ret (match m with
                   | Some minimum => Some (Z.min rr_ttl minimum)
                   | None => soa_ttl
                   end)
            else Ret soa_ttl in
          ttl_offsets_loop n' packet an ns (i + 1) rdata_end offsets' an_offsets' soa_ttl'
  end.

Definition ttl_offsets_and_soa (packet : list Z) (question_end an ns ar : nat)
  : outcome (option (TtlOffsets * nat * option Z)) :=
  let total := an + ns + ar in
  if decide (length packet < 12 \/ length packet < question_end) then Ret None
  else ttl_offsets_loop total packet an ns 0 question_end [] 0 None.

Definition clamp_ttl (min_ttl max_ttl raw : Z) : Z :=
  let v := Z.max raw min_ttl in
  if decide (0 < max_ttl)%Z then Z.min v max_ttl else v.

(** [Iterator::min] *)
Definition list_min (l : list Z) : option Z :=
  match l with
  | [] => None
  | x :: l' => Some (foldl Z.min x l')
  end.

Definition effective_ttl_and_offsets (packet : list Z) (question_end : nat)
    (nodata_ttl min_ttl max_ttl : Z) : outcome (option (Z * TtlOffsets)) :=
  let! good := is_good_reply packet in
  if negb good then Ret None
  else
    let! an := u16_at packet 6 in
    let! ns := u16_at packet 8 in
    let! ar := u16_at packet 10 in
    let? (offset_ttl_pairs, an_offsets, soa_ttl) :=
      ttl_offsets_and_soa packet question_end (Z.to_nat an) (Z.to_nat ns) (Z.to_nat ar) in
    let clamp := clamp_ttl min_ttl max_ttl in
    if decide (an = 0)%Z then
      let soa := Z.min (default nodata_ttl soa_ttl) 10800 in
      let effective := clamp soa in
      let offsets := (fun '(off, _) => (off, effective)) <$> offset_ttl_pairs in
      Ret (Some (effective, offsets))
    else
      let offsets := (fun '(off, raw) => (off, clamp raw)) <$> offset_ttl_pairs in
      let! answers := slice offsets 0 an_offsets in
      let entry_ttl := default nodata_ttl (list_min (snd <$> answers)) in
      Ret (Some (entry_ttl, offsets)).

(** One [if offset + 4 <= packet.len()] write per pair. *)
Fixpoint patch_ttls_at (packet : list Z) (offsets : TtlOffsets) (elapsed : Z) : list Z :=
  match offsets with
  | [] => packet
  | (offset, original_ttl) :: offsets' =>
      let remaining := sat_sub original_ttl elapsed in
      let offset := Z.to_nat offset in
      let packet :=
        if decide (offset + 4 <= length packet)
        then splice packet offset (to_be 4 remaining) else packet in
      patch_ttls_at packet offsets' elapsed
  end.

(** ** Reference descriptions *)

(** [n] records parsed one after the other from [pos]. *)
Fixpoint parse_rrs (n : nat) (packet : list Z) (pos : nat) : outcome (option (list rr5)) :=
  match n with
  | O => Ret (Some [])
  | S n' =>
      let? rr := parse_rr packet pos in
      let? rrs := parse_rrs n' packet (snd rr) in
      Ret (Some (rr :: rrs))
  end.

(** The TTL fields of the non-OPT records: (offset of the field, value). *)
Definition ttl_pairs (rrs : list rr5) : TtlOffsets :=
  rrs ≫= (fun '(t, _, ttl, rdata, _) =>
    if decide (t <> 41)%Z then [(wrap 32 (Z.of_nat (rdata - 6)), ttl)] else []).

Definition soa_minimum_of (packet : list Z) (rdata rdata_end : nat) : option Z :=
  match extract_soa_minimum packet rdata rdata_end with Ret (Some m) => Some m | _ => None end.

(** The first SOA record of a section with a readable MINIMUM: RFC 2308's
    min(TTL, MINIMUM). *)
Fixpoint soa_ttl_of (packet : list Z) (rrs : list rr5) : option Z :=
  match rrs with
  | [] => None
  | (t, _, ttl, rdata, rend) :: rrs' =>
      match (if decide (t = 6)%Z then soa_minimum_of packet rdata rend else None) with
      | Some m => Some (Z.min ttl m)
      | None => soa_ttl_of packet rrs'
      end
  end.

(** ** Totality *)

Lemma rcode_eq p : rcode p = Ret (if decide (length p < 4) then 0%Z else Z.land (nthb p 3) 0x0f).
Proof. unfold rcode. case_decide; [done|]. by in_range. Qed.

Lemma is_good_reply_eq p :
  is_good_reply p = Ret (bool_decide (12 <= length p /\ Z.land (nthb p 2) 0x80 <> 0%Z /\
    (Z.land (nthb p 3) 0x0f = 0 \/ Z.land (nthb p 3) 0x0f = 3)%Z)).
Proof.
  unfold is_good_reply. rewrite is_reply_eq. cbn [obind]. rewrite rcode_eq.
  case_decide as H; cbn [obind].
  - rewrite bool_decide_eq_false_2; [done|]. destruct H as [H|H]; [|lia].
    apply bool_decide_eq_false in H. tauto.
  - apply Decidable.not_or in H as [H Hl]. apply not_false_is_true, bool_decide_eq_true in H.
    rewrite decide_False by lia. f_equal. apply bool_decide_ext. tauto.
Qed.

Lemma parse_rr_total p pos : returns (parse_rr p pos).
Proof.
  unfold parse_rr. apply returns_bind_opt; [apply skip_name_total|]. intros e He.
  case_decide; auto with rust. in_range. case_decide; auto with rust.
Qed.

Lemma parse_rr_inv p pos t c ttl rd re :
  parse_rr p pos = Ret (Some (t, c, ttl, rd, re)) ->
  exists ne, skip_name p pos = Ret (Some ne) /\ rd = ne + 10 /\ re <= length p /\ pos < ne /\
    t = be16 p ne /\ c = be16 p (ne + 2) /\ ttl = be32 p (ne + 4) /\
    re = rd + Z.to_nat (be16 p (ne + 8)).
Proof.
  unfold parse_rr. intros H. inv_ret. pose proof (skip_name_bounds _ _ _ Ha).
  case_decide; [done|]. revert H. in_range. case_decide; [done|]. intros [= <- <- <- <- <-].
  exists a. repeat split; (done || lia).
Qed.

#[export] Hint Resolve skip_name_total parse_rr_total question_end_total questions_match_total : rust.

Lemma extract_soa_minimum_eq p rd re :
  re <= length p -> extract_soa_minimum p rd re = Ret (soa_minimum_of p rd re).
Proof.
  intros Hre. unfold soa_minimum_of.
  assert (returns (extract_soa_minimum p rd re)) as [[m|] ->]; [|done..].
  unfold extract_soa_minimum.
  apply returns_bind_opt; [auto with rust|]. intros a Ha.
  apply returns_bind_opt; [auto with rust|]. intros b Hb.
  case_decide; auto with rust. in_range. auto with rust.
Qed.

Lemma parse_rrs_total n p pos : returns (parse_rrs n p pos).
Proof.
  revert pos. induction n as [|n IH]; intros pos; simpl; auto with rust.
  apply returns_bind_opt; [auto with rust|]. intros rr _.
  apply returns_bind_opt; [auto|]. auto with rust.
Qed.

Lemma parse_rrs_length n p pos rrs : parse_rrs n p pos = Ret (Some rrs) -> length rrs = n.
Proof.
  revert pos rrs. induction n as [|n IH]; intros pos rrs; simpl; intros H; inv_ret; [done|].
  simpl. f_equal. eauto.
Qed.

(** ** The single pass against the reference *)

Definition merge_soa (soa other : option Z) : option Z :=
  match soa with Some s => Some s | None => other end.

Lemma ttl_pairs_cons t c ttl rd re rrs :
  ttl_pairs ((t, c, ttl, rd, re) :: rrs)
  = (if decide (t <> 41)%Z then [(wrap 32 (Z.of_nat (rd - 6)), ttl)] else []) ++ ttl_pairs rrs.
Proof. done. Qed.

Lemma merge_soa_assoc a b c : merge_soa (merge_soa a b) c = merge_soa a (merge_soa b c).
Proof. by destruct a. Qed.

Lemma soa_ttl_of_cons p t c ttl rd re rrs :
  soa_ttl_of p ((t, c, ttl, rd, re) :: rrs)
  = merge_soa (if decide (t = 6%Z) then Z.min ttl <$> soa_minimum_of p rd re else None)
      (soa_ttl_of p rrs).
Proof. simpl. case_decide; [|done]. by destruct (soa_minimum_of p rd re). Qed.

(** The part of the remaining records that lies in the authority section. *)
Definition authority (an ns i : nat) {A} (l : list A) : list A :=
  take (an + ns - i - (an - i)) (drop (an - i) l).

Lemma authority_cons an ns i {A} (x : A) l :
  authority an ns i (x :: l)
  = (if decide (an <= i /\ i < an + ns) then [x] else []) ++ authority an ns (i + 1) l.
Proof.
  unfold authority. case_decide as H.
  - replace (an - i) with 0 by lia. replace (an - (i + 1)) with 0 by lia.
    replace (an + ns - i - 0) with (S (an + ns - (i + 1) - 0)) by lia. done.
  - destruct (decide (i < an)).
    + replace (an - i) with (S (an - (i + 1))) by lia. simpl. f_equal. lia.
    + replace (an + ns - i - (an - i)) with 0 by lia.
      by replace (an + ns - (i + 1) - (an - (i + 1))) with 0 by lia.
Qed.

Lemma ttl_offsets_loop_eq n p an ns i pos offs k soa :
  ttl_offsets_loop n p an ns i pos offs k soa
  = let? rrs := parse_rrs n p pos in
    Ret (Some (offs ++ ttl_pairs rrs, k + length (ttl_pairs (take (an - i) rrs)),
               merge_soa soa (soa_ttl_of p (authority an ns i rrs)))).
Proof.
  revert i pos offs k soa. induction n as [|n IH]; intros i pos offs k soa; simpl.
  - rewrite app_nil_r. unfold authority. rewrite take_nil, drop_nil, take_nil. simpl.
    rewrite Nat.add_0_r. by destruct soa.
  - unfold parse_rr.
    destruct (skip_name_total p pos) as [[ne|] Hne]; rewrite Hne; cbn [obind_opt]; [|done].
    case_decide as Hlen; [done|]. in_range. case_decide as Hend; [done|].
    cbn [obind_opt snd].
    match goal with |- obind ?m _ = _ =>
      assert (m = Ret (merge_soa soa (if decide (be16 p ne = 6%Z /\ an <= i /\ i < an + ns)
        then Z.min (be32 p (ne + 4)) <$> soa_minimum_of p (ne + 10)
               (ne + 10 + Z.to_nat (be16 p (ne + 8))) else None))) as -> end.
    { case_decide as Hs.
      - destruct Hs as (Ht & -> & Hr). rewrite extract_soa_minimum_eq by lia. cbn [obind].
        rewrite decide_True by tauto. simpl. by destruct (soa_minimum_of _ _ _).
      - destruct soa as [s|]; [done|]. rewrite decide_False by tauto. done. }
    cbn [obind]. rewrite IH.
    destruct (parse_rrs_total n p (ne + 10 + Z.to_nat (be16 p (ne + 8)))) as [[rrs|] ->];
      cbn [obind_opt]; [|done].
    do 3 f_equal; [f_equal|].
    + rewrite ttl_pairs_cons. replace (ne + 10 - 6) with (ne + 4) by lia.
      case_decide; by rewrite <- ?app_assoc.
    + destruct (decide (i < an)) as [Hi|Hi].
      * replace (an - i) with (S (an - (i + 1))) by lia. cbn [take]. rewrite ttl_pairs_cons.
        repeat case_decide; autorewrite with len; tauto || lia.
      * replace (an - (i + 1)) with 0 by lia. replace (an - i) with 0 by lia.
        rewrite decide_False by tauto. done.
    + rewrite authority_cons, merge_soa_assoc. f_equal.
      destruct (decide (an <= i /\ i < an + ns)) as [Hr|Hr]; cbn [app].
      * rewrite soa_ttl_of_cons. f_equal. repeat case_decide; tauto || done.
      * rewrite decide_False by tauto. done.
Qed.

Lemma authority_0 an ns {A} (l : list A) : authority an ns 0 l = take ns (drop an l).
Proof. unfold authority. rewrite !Nat.sub_0_r. f_equal. lia. Qed.

Lemma ttl_offsets_and_soa_eq p qe an ns ar :
  12 <= length p -> qe <= length p ->
  ttl_offsets_and_soa p qe an ns ar
  = let? rrs := parse_rrs (an + ns + ar) p qe in
    Ret (Some (ttl_pairs rrs, length (ttl_pairs (take an rrs)),
               soa_ttl_of p (take ns (drop an rrs)))).
Proof.
  intros H1 H2. unfold ttl_offsets_and_soa. rewrite decide_False by lia.
  rewrite ttl_offsets_loop_eq. rewrite Nat.sub_0_r.
  destruct (parse_rrs _ _ _) as [[rrs|]| |]; simpl; [|done..]. by rewrite authority_0.
Qed.

Lemma ttl_pairs_app l1 l2 : ttl_pairs (l1 ++ l2) = ttl_pairs l1 ++ ttl_pairs l2.
Proof. unfold ttl_pairs. by rewrite bind_app. Qed.

Lemma ttl_pairs_take an rrs :
  take (length (ttl_pairs (take an rrs))) (ttl_pairs rrs) = ttl_pairs (take an rrs).
Proof.
  rewrite <- (take_drop an rrs) at 2. by rewrite ttl_pairs_app, take_app_length.
Qed.

Lemma ttl_pairs_take_length an rrs :
  length (ttl_pairs (take an rrs)) <= length (ttl_pairs rrs).
Proof. rewrite <- (take_drop an rrs) at 2. rewrite ttl_pairs_app. len. Qed.

(** ** The effective TTL *)

(** What the cache is told about a response whose records are [rrs], of which
    the first [an] are answers and the next [ns] authority records. *)
Definition effective_ttl_ref (p : list Z) (nodata_ttl min_ttl max_ttl : Z) (an ns : nat)
    (rrs : list rr5) : Z * TtlOffsets :=
  let clamp := clamp_ttl min_ttl max_ttl in
  if decide (an = 0) then
    let e := clamp (Z.min (default nodata_ttl (soa_ttl_of p (take ns rrs))) 10800) in
    (e, (fun q => (fst q, e)) <$> ttl_pairs rrs)
  else
    (default nodata_ttl (list_min ((fun q => clamp (snd q)) <$> ttl_pairs (take an rrs))),
     (fun q => (fst q, clamp (snd q))) <$> ttl_pairs rrs).

Lemma fmap_pair_ext {A B C} (f : A * B -> C) (g : A -> B -> C) (l : list (A * B)) :
  (forall a b, f (a, b) = g a b) -> (fun '(a, b) => g a b) <$> l = f <$> l.
Proof. intros H. apply list_fmap_ext. intros i [a b] _. by rewrite H. Qed.

Lemma effective_ttl_eq p qe nd mn mx :
  bytes_ok p ->
  effective_ttl_and_offsets p qe nd mn mx
  = let! good := is_good_reply p in
    if decide (good = true /\ qe <= length p) then
      let? rrs := parse_rrs (Z.to_nat (be16 p 6) + Z.to_nat (be16 p 8) + Z.to_nat (be16 p 10)) p qe in
      Ret (Some (effective_ttl_ref p nd mn mx (Z.to_nat (be16 p 6)) (Z.to_nat (be16 p 8)) rrs))
    else Ret None.
Proof.
  intros Hp. unfold effective_ttl_and_offsets. rewrite is_good_reply_eq. cbn [obind].
  case_bool_decide as Hg; cbn [negb]; [|by rewrite decide_False by naive_solver].
  destruct Hg as [Hl _]. in_range.
  destruct (decide (qe <= length p)) as [Hqe|Hqe].
  2:{ rewrite decide_False by tauto. unfold ttl_offsets_and_soa. by rewrite decide_True by lia. }
  rewrite decide_True by done. rewrite ttl_offsets_and_soa_eq by lia.
  destruct (parse_rrs _ _ _) as [[rrs|]| |]; cbn [obind_opt]; [|done..].
  unfold effective_ttl_ref. pose proof (be16_bound p 6 Hp).
  destruct (decide (be16 p 6 = 0%Z)) as [H0|H0].
  - rewrite (decide_True (P := Z.to_nat (be16 p 6) = 0)) by lia.
    replace (Z.to_nat (be16 p 6)) with 0 by lia. rewrite drop_0.
    do 3 f_equal. by apply fmap_pair_ext.
  - rewrite (decide_False (P := Z.to_nat (be16 p 6) = 0)) by lia.
    rewrite slice_Ret by (autorewrite with len; apply ttl_pairs_take_length || lia).
    cbn [obind]. rewrite Nat.sub_0_r, drop_0, <- fmap_take, ttl_pairs_take.
    rewrite <- list_fmap_compose. do 3 f_equal.
    + do 2 f_equal. apply list_fmap_ext. by intros i [a b] _.
    + by apply fmap_pair_ext.
Qed.

(** Bounds of the clamp. *)
Lemma clamp_ttl_bounds mn mx raw :
  (0 <= mn)%Z -> (0 <= raw)%Z ->
  ((mx = 0 \/ mn <= mx) -> mn <= clamp_ttl mn mx raw)%Z /\
  (0 < mx -> clamp_ttl mn mx raw <= mx)%Z /\ (0 <= mx -> 0 <= clamp_ttl mn mx raw)%Z.
Proof. unfold clamp_ttl. intros. case_decide; lia. Qed.

Lemma foldl_min_le l x y : y ∈ x :: l -> (foldl Z.min x l <= y)%Z.
Proof.
  revert x y. induction l as [|z l IH]; intros x y; simpl.
  - intros ->%list_elem_of_singleton. lia.
  - intros Hy. assert (foldl Z.min (Z.min x z) l <= Z.min x z)%Z by (apply IH; constructor).
    apply elem_of_cons in Hy as [->|Hy]; [lia|].
    apply elem_of_cons in Hy as [->|Hy]; [lia|]. apply IH. by constructor.
Qed.

Lemma list_min_le l m y : list_min l = Some m -> y ∈ l -> (m <= y)%Z.
Proof. destruct l; simpl; [done|]. intros [= <-]. apply foldl_min_le. Qed.

Lemma list_min_In l m : list_min l = Some m -> m ∈ l.
Proof.
  destruct l as [|x l]; simpl; [done|]. intros [= <-]. revert x.
  induction l as [|z l IH]; intros x; simpl; [constructor|].
  destruct (Z.min_spec x z) as [[_ ->]|[_ ->]].
  - specialize (IH x). rewrite !elem_of_cons in *. tauto.
  - specialize (IH z). rewrite !elem_of_cons in *. tauto.
Qed.

(** ** TTL fields and their patching *)

(** Disjoint, increasing 4-byte fields inside the first [n] bytes, none before [lo]. *)
Definition fields_ok (lo n : nat) (offs : TtlOffsets) : Prop :=
  StronglySorted (fun a b => fst a + 4 <= fst b)%Z offs /\
  Forall (fun q => Z.of_nat lo <= fst q /\ fst q + 4 <= Z.of_nat n)%Z offs.

Lemma fields_ok_weaken lo lo' n offs : lo' <= lo -> fields_ok lo n offs -> fields_ok lo' n offs.
Proof.
  intros Hlo [Hs Hf]. split; [done|]. eapply (list.Forall_impl _ _ _ Hf). intros q. simpl. lia.
Qed.

Lemma parse_rrs_fields n p pos rrs :
  (Z.of_nat (length p) < 2 ^ 32)%Z -> parse_rrs n p pos = Ret (Some rrs) ->
  fields_ok pos (length p) (ttl_pairs rrs).
Proof.
  intros Hlen. revert pos rrs. induction n as [|n IH]; intros pos rrs; simpl; intros H; inv_ret.
  - split; constructor.
  - destruct a as [[[[t c] ttl] rd] re]. apply parse_rr_inv in Ha as (ne & _ & -> & Hre & Hpos & _ & _ & _ & ->).
    cbn [snd] in *. apply IH in Ha0. rewrite ttl_pairs_cons.
    destruct Ha0 as [Hs Hf]. case_decide; cbn [app];
      [|eapply (fields_ok_weaken (ne + 10 + Z.to_nat (be16 p (ne + 8)))); [lia|done]].
    assert (wrap 32 (Z.of_nat (ne + 10 - 6)) = Z.of_nat (ne + 4)) as ->
      by (unfold wrap; rewrite Z.mod_small by lia; lia).
    split; constructor; try done.
    + eapply (list.Forall_impl _ _ _ Hf). intros q. simpl. lia.
    + simpl. lia.
    + eapply (list.Forall_impl _ _ _ Hf). intros q. simpl. lia.
Qed.

Lemma length_patch_ttls_at p offs el : length (patch_ttls_at p offs el) = length p.
Proof.
  revert p. induction offs as [|[o t] offs IH]; intros p; [done|]. simpl. rewrite IH.
  case_decide; [|done]. apply length_splice. by rewrite length_to_be.
Qed.

Lemma lookup_patch_out p offs el j :
  (forall q, q ∈ offs -> j < Z.to_nat (fst q) \/ Z.to_nat (fst q) + 4 <= j) ->
  patch_ttls_at p offs el !! j = p !! j.
Proof.
  revert p. induction offs as [|[o t] offs IH]; intros p Hj; [done|]. simpl.
  rewrite IH by (intros; apply Hj; by constructor).
  case_decide; [|done]. apply lookup_splice_out; rewrite length_to_be; [done|].
  apply (Hj (o, t)). constructor.
Qed.

Lemma lookup_patch_in p offs el o t k :
  fields_ok 0 (length p) offs -> (o, t) ∈ offs -> k < 4 ->
  patch_ttls_at p offs el !! (Z.to_nat o + k) = to_be 4 (sat_sub t el) !! k.
Proof.
  revert p. induction offs as [|[o' t'] offs IH]; intros p [Hs Hf] Hin Hk; [by apply not_elem_of_nil in Hin|].
  apply StronglySorted_inv in Hs as [Hs Hlt]. inversion Hf as [|? ? Hb Hf']; subst.
  simpl in *. apply elem_of_cons in Hin as [[= -> ->]|Hin].
  - rewrite decide_True by lia. rewrite lookup_patch_out.
    + apply lookup_splice_in; rewrite length_to_be; lia.
    + intros q Hq. rewrite Forall_forall in Hlt. specialize (Hlt q Hq). simpl in Hlt. lia.
  - rewrite decide_True by lia. apply IH; [|done..].
    split; [done|]. by rewrite length_splice by (rewrite length_to_be; lia).
Qed.

(** Reading back a patched field. *)
Lemma be32_lookups l i (bs : list Z) :
  length bs = 4 -> (forall k, k < 4 -> l !! (i + k) = bs !! k) -> be32 l i = from_be bs.
Proof.
  intros Hl H. destruct bs as [|a [|b [|c [|d [|]]]]]; simpl in Hl; try lia.
  unfold be32. f_equal.
  rewrite (nthb_Some l i a) by (rewrite <- (Nat.add_0_r i); by apply (H 0); lia).
  rewrite (nthb_Some l (i + 1) b), (nthb_Some l (i + 2) c), (nthb_Some l (i + 3) d)
    by (apply H; lia). done.
Qed.

Lemma patch_ttls_read p offs el o t :
  fields_ok 0 (length p) offs -> (o, t) ∈ offs -> (0 <= el)%Z -> u_ok 32 t ->
  be32 (patch_ttls_at p offs el) (Z.to_nat o) = sat_sub t el.
Proof.
  intros Hok Hin Hel Ht. unfold u_ok in Ht.
  rewrite (be32_lookups _ _ (to_be 4 (sat_sub t el))).
  - apply from_be_to_be_small. unfold sat_sub. lia.
  - apply length_to_be.
  - intros k Hk. by apply lookup_patch_in.
Qed.

(** ** Answer extraction against the record list *)

(** The longest prefix of [n] records that parses. *)
Fixpoint rr_prefix (n : nat) (p : list Z) (pos : nat) : list rr5 :=
  match n with
  | O => []
  | S n' =>
      match parse_rr p pos with
      | Ret (Some rr) => rr :: rr_prefix n' p (snd rr)
      | _ => []
      end
  end.

Definition rr_ip (p : list Z) (rr : rr5) : list IpAddr :=
  let '(t, _, _, rd, re) := rr in
  if decide (t = 1%Z /\ re - rd = 4) then [V4 (take 4 (drop rd p))]
  else if decide (t = 28%Z /\ re - rd = 16) then [V6 (take 16 (drop rd p))]
  else [].

Definition rr_data (p : list Z) (rr : rr5) : Z * Z * list Z :=
  let '(t, _, ttl, rd, re) := rr in (t, ttl, take (re - rd) (drop rd p)).

Lemma take4_drop (p : list Z) rd :
  rd + 4 <= length p ->
  take 4 (drop rd p) = [nthb p rd; nthb p (rd + 1); nthb p (rd + 2); nthb p (rd + 3)].
Proof.
  intros H. apply list_eq_same_length with 4.
  - done.
  - len.
  - intros i x y Hi. rewrite lookup_take_lt, lookup_drop by done.
    rewrite nthb_lookup by lia. intros [= <-].
    destruct i as [|[|[|[|]]]]; try lia; simpl; intros [= <-]; f_equal; lia.
Qed.

Lemma answer_ips_loop_eq n p pos ips :
  answer_ips_loop n p pos ips = Ret (ips ++ (rr_prefix n p pos ≫= rr_ip p)).
Proof.
  revert pos ips. induction n as [|n IH]; intros pos ips; simpl; [by rewrite app_nil_r|].
  destruct (parse_rr_total p pos) as [[[[[[t c] ttl] rd] re]|] Hrr]; rewrite Hrr; cbn [obind];
    [|by rewrite app_nil_r].
  apply parse_rr_inv in Hrr as (ne & _ & -> & Hre & _ & _ & _ & _ & ->).
  rewrite usub_Ret by lia. cbn [obind]. simpl snd. cbn [mbind list_bind]. unfold rr_ip at 1.
  case_decide as H4; [|case_decide as H16].
  - in_range. rewrite IH, take4_drop by lia. by rewrite <- app_assoc.
  - in_range. rewrite IH. destruct H16 as [_ ->]. by rewrite <- app_assoc.
  - cbn [obind]. by rewrite IH.
Qed.

Lemma answer_ips_eq p qe :
  12 <= length p -> qe <= length p ->
  answer_ips p qe = Ret (rr_prefix (Z.to_nat (be16 p 6)) p qe ≫= rr_ip p).
Proof.
  intros. unfold answer_ips. rewrite decide_False by lia. in_range. apply answer_ips_loop_eq.
Qed.

Lemma extract_answer_records_loop_eq n p pos res :
  extract_answer_records_loop n p pos res = Ret (res ++ (rr_data p <$> rr_prefix n p pos)).
Proof.
  revert pos res. induction n as [|n IH]; intros pos res; simpl; [by rewrite app_nil_r|].
  destruct (parse_rr_total p pos) as [[[[[[t c] ttl] rd] re]|] Hrr]; rewrite Hrr; cbn [obind];
    [|by rewrite app_nil_r].
  apply parse_rr_inv in Hrr as (ne & _ & -> & Hre & _ & _ & _ & _ & ->).
  in_range. rewrite IH. simpl. by rewrite <- app_assoc.
Qed.

Lemma answer_rr_types_loop_eq n p pos types :
  exists ts, answer_rr_types_loop n p pos types = Ret ts /\
    (NoDup types -> NoDup ts) /\
    forall t, t ∈ ts <-> t ∈ types \/ exists rr, rr ∈ rr_prefix n p pos /\ (rr_data p rr).1.1 = t.
Proof.
  revert pos types. induction n as [|n IH]; intros pos types; simpl.
  - exists types. repeat split; [done|tauto|]. intros [?|(? & []%not_elem_of_nil & _)]; done.
  - destruct (parse_rr_total p pos) as [[[[[[t c] ttl] rd] re]|] Hrr]; rewrite Hrr; cbn [obind].
    2:{ exists types. repeat split; [done|tauto|]. intros [?|(? & []%not_elem_of_nil & _)]; done. }
    destruct (IH re (if decide (t ∈ types) then types else types ++ [t])) as (ts & -> & Hnd & Hin).
    exists ts. split; [done|]. split.
    + intros H. apply Hnd. case_decide; [done|]. apply NoDup_app. split_and!; [done| |by apply NoDup_singleton].
      intros x Hx ->%list_elem_of_singleton. done.
    + intros x. rewrite Hin. simpl snd. setoid_rewrite elem_of_cons.
      assert (x ∈ (if decide (t ∈ types) then types else types ++ [t]) <-> x ∈ types \/ x = t) as ->.
      { case_decide; [|by rewrite elem_of_app, list_elem_of_singleton].
        split; [tauto|]. intros [?| ->]; done. }
      split.
      * intros [[?| ->]|(rr & ? & ?)]; [tauto| |]; right; eexists; eauto.
      * intros [?|(rr & [-> |?] & <-)]; simpl; eauto.
Qed.
