(* ===== verification/DnsEdns.v ===== *)
(** * EDNS: query variants, payload sizes and UDP truncation (src/src/dns/mod.rs)

    The OPT-record lookup shared by every EDNS consumer of a query, the
    extraction of the cache-relevant [QueryVariant], the normalisation of the
    client-subnet option, the client's UDP payload limit, and the TC=1 stub that
    replaces a response over that limit. *)

From S2P Require Import Prelude Hasher DnsName DnsQuery DnsRecords.

(** RFC 7871 option code (src/src/dns/ecs.rs). *)
Definition ECS_OPTION_CODE : Z := 0x0008.

(** ** Operations *)

Definition no_edns (rd ad cd : bool) : QueryVariant :=
  {| has_opt := false; do_bit := false; edns_version := 0;
     rd := rd; ad := ad; cd := cd; ecs_src := None; extra_opts_hash := 0 |}.

Fixpoint find_opt_loop (n : nat) (packet : list Z) (pos : nat)
  : outcome (option (nat * nat * nat)) :=
  match n with
  | O => Ret None
  | S n' =>
      let? name_end := skip_name packet pos in
      if decide (length packet < name_end + 10) then Ret None
      else
        let! rr_type := u16_at packet name_end in
        let! rdlen := u16_at packet (name_end + 8) in
        let rdata_start := name_end + 10 in
        let rdata_end := rdata_start + Z.to_nat rdlen in
        if decide (length packet < rdata_end) then Ret None
        else if decide (rr_type = 41)%Z then Ret (Some (name_end, rdata_start, rdata_end))
        else find_opt_loop n' packet rdata_end
  end.

Definition find_opt_record (packet : list Z) (question_end : nat)
  : outcome (option (nat * nat * nat)) :=
  if decide (length packet < 12) then Ret None
  else
    let! arcount := u16_at packet 10 in
    if decide (arcount = 0%Z \/ length packet <= question_end) then Ret None
    else find_opt_loop (Z.to_nat arcount) packet question_end.

(** [uN & (!0 << (N - plen))], 0 for a zero prefix. *)
Definition mask_prefix (w plen v : Z) : Z :=
  Z.land v (if decide (plen = 0)%Z then 0%Z else wrap w (Z.shiftl (2 ^ w - 1) (w - plen))).

(** [raw[..n].copy_from_slice(&addr_data[..n])] on a zeroed [n]-byte buffer. *)
Definition pad_to (n : nat) (l : list Z) : list Z :=
  take n l ++ replicate (n - length l) 0%Z.

Definition parse_ecs_src (opt_data : list Z) : outcome (option EcsSrc) :=
  if decide (length opt_data < 4) then Ret None
  else
    let! family := u16_at opt_data 0 in
    let! prefix_len := idx opt_data 2 in
    let! addr_data := slice opt_data 4 (length opt_data) in
    if decide (family = 1)%Z then
      let raw := pad_to 4 addr_data in
      let plen := Z.min prefix_len 32 in
      let masked := mask_prefix 32 plen (from_be raw) in
      Ret (Some {| ecs_addr := replicate 12 0%Z ++ to_be 4 masked; ecs_prefix_len := plen |})
    else if decide (family = 2)%Z then
      let raw := pad_to 16 addr_data in
      let plen := Z.min prefix_len 128 in
      let masked := mask_prefix 128 plen (from_be raw) in
      Ret (Some {| ecs_addr := to_be 16 masked; ecs_prefix_len := plen |})
    else Ret None.

(** The [while pos + 4 <= rdata.len()] walk: last ECS source seen and the other
    option codes, in order. *)
Fixpoint opt_data_loop (fuel : nat) (rdata : list Z) (pos : nat) (ecs : option EcsSrc)
    (codes : list Z) : outcome (option EcsSrc * list Z) :=
  match fuel with
  | O => OutOfFuel
  | S fuel' =>
      if decide (pos + 4 <= length rdata) then
        let! code := u16_at rdata pos in
        let! opt_len := u16_at rdata (pos + 2) in
        let pos := pos + 4 in
        let end_ := pos + Z.to_nat opt_len in
        if decide (length rdata < end_) then Ret (ecs, codes)
        else if decide (code = ECS_OPTION_CODE /\ (4 <= opt_len)%Z) then
          let! data := slice rdata pos end_ in
          let! ecs := parse_ecs_src data in
          opt_data_loop fuel' rdata end_ ecs codes
        else
          let codes := if decide (code <> 12)%Z then codes ++ [code] else codes in
          opt_data_loop fuel' rdata end_ ecs codes
      else Ret (ecs, codes)
  end.

Definition hash_codes (codes : list Z) : Z :=
  if decide (codes = []) then 0%Z
  else
    let codes := merge_sort Z.le codes in
    Fnv1a.finish (foldl (fun h c => Fnv1a.write h (to_le 2 c)) Fnv1a.new codes).

Definition extract_opt_data (rdata : list Z) : outcome (option EcsSrc * Z) :=
  let! (ecs, codes) := opt_data_loop (S (length rdata)) rdata 0 None [] in
  Ret (ecs, hash_codes codes).

Definition extract_variant (packet : list Z) (question_end : nat) : outcome QueryVariant :=
  if decide (length packet < 12) then Ret (no_edns false false false)
  else
    let! b2 := idx packet 2 in
    let! b3 := idx packet 3 in
    let rd := bool_decide (Z.land b2 0x01 <> 0)%Z in
    let ad := bool_decide (Z.land b3 0x20 <> 0)%Z in
    let cd := bool_decide (Z.land b3 0x10 <> 0)%Z in
    let! o := find_opt_record packet question_end in
    match o with
    | None => Ret (no_edns rd ad cd)
    | Some (name_end, rdata_start, rdata_end) =>
        let! version := idx packet (name_end + 5) in
        let! flags := idx packet (name_end + 6) in
        let! (ecs, h) := extract_opt_data (default [] (get_slice packet rdata_start rdata_end)) in
        Ret {| has_opt := true;
               do_bit := bool_decide (Z.land flags 0x80 <> 0)%Z;
               edns_version := version;
               rd := rd; ad := ad; cd := cd;
               ecs_src := ecs; extra_opts_hash := h |}
    end.

Definition client_udp_payload_size (packet : list Z) (question_end : nat) : outcome Z :=
  let MIN := 512%Z in
  let! o := find_opt_record packet question_end in
  match o with
  | Some (name_end, _, _) =>
      let! c := u16_at packet (name_end + 2) in Ret (Z.max c MIN)
  | None => Ret MIN
  end.

Definition has_opt_record (packet : list Z) (question_end : nat) : outcome bool :=
  let! o := find_opt_record packet question_end in
  Ret (match o with Some _ => true | None => false end).

Definition TC_OPT_RR : list Z :=
  [0x00; 0x00; 0x29; 0x04; 0xD0; 0x00; 0x00; 0x00; 0x00; 0x00; 0x00]%Z.

Definition maybe_truncate_for_udp (resp query : list Z) : outcome (list Z) :=
  let! q := question_end query in
  match q with
  | None => Ret resp
  | Some qe =>
      let! max := client_udp_payload_size query qe in
      if decide (Z.of_nat (length resp) <= max)%Z then Ret resp
      else if decide (length resp < qe \/ qe < 12) then Ret resp
      else
        let! client_edns := has_opt_record query qe in
        let! stub := slice resp 0 qe in
        let! b2 := idx stub 2 in
        let! stub := store stub 2 (Z.lor b2 0x02) in
        let! stub := store stub 6 0%Z in
        let! stub := store stub 7 0%Z in
        let! stub := store stub 8 0%Z in
        let! stub := store stub 9 0%Z in
        if client_edns then
          let stub := stub ++ TC_OPT_RR in
          let! stub := store stub 10 0%Z in
          store stub 11 1%Z
        else
          let! stub := store stub 10 0%Z in
          store stub 11 0%Z
  end.

(** ** The OPT lookup *)

Lemma find_opt_loop_total n p pos : returns (find_opt_loop n p pos).
Proof.
  revert pos. induction n as [|n IH]; intros pos; simpl; auto with rust.
  apply returns_bind_opt; [auto with rust|]. intros e He.
  case_decide; auto with rust. in_range. repeat case_decide; auto with rust.
Qed.

Lemma find_opt_loop_bounds n p pos ne rs re :
  find_opt_loop n p pos = Ret (Some (ne, rs, re)) ->
  pos < ne /\ rs = ne + 10 /\ rs <= re <= length p /\ be16 p ne = 41%Z /\
  re = rs + Z.to_nat (be16 p (ne + 8)).
Proof.
  revert pos. induction n as [|n IH]; intros pos; simpl; [done|]. intros H.
  inv_ret. pose proof (skip_name_bounds _ _ _ Ha). revert H.
  case_decide; [done|]. in_range. case_decide; [done|]. case_decide as Ht.
  - intros [= <- <- <-]. lia.
  - intros ?%IH. lia.
Qed.

Lemma find_opt_record_total p qe : returns (find_opt_record p qe).
Proof.
  unfold find_opt_record. case_decide; auto with rust. in_range.
  case_decide; auto with rust. apply find_opt_loop_total.
Qed.

Lemma find_opt_record_bounds p qe ne rs re :
  find_opt_record p qe = Ret (Some (ne, rs, re)) ->
  12 <= length p /\ qe < ne /\ rs = ne + 10 /\ rs <= re <= length p /\
  be16 p ne = 41%Z /\ re = rs + Z.to_nat (be16 p (ne + 8)).
Proof.
  unfold find_opt_record. case_decide; [done|]. in_range. case_decide; [done|].
  intros ?%find_opt_loop_bounds. split; [lia|done].
Qed.

#[export] Hint Resolve find_opt_record_total : rust.

(** ** Totality of the EDNS readers *)

Lemma parse_ecs_src_total d : returns (parse_ecs_src d).
Proof.
  unfold parse_ecs_src. case_decide; auto with rust. in_range. repeat case_decide; auto with rust.
Qed.

Lemma opt_data_loop_total fuel r pos ecs codes :
  0 < fuel -> length r < fuel + pos -> returns (opt_data_loop fuel r pos ecs codes).
Proof.
  revert pos ecs codes. induction fuel as [|fuel IH]; intros pos ecs codes H0 Hf; simpl; [lia|].
  case_decide; auto with rust. in_range. case_decide; auto with rust.
  case_decide; [|apply IH; lia]. in_range.
  apply returns_bind; [apply parse_ecs_src_total|]. intros. apply IH; lia.
Qed.

Lemma extract_opt_data_total r : returns (extract_opt_data r).
Proof.
  unfold extract_opt_data.
  apply returns_bind; [apply opt_data_loop_total; lia|]. intros [? ?] _. auto with rust.
Qed.

Lemma extract_variant_total p qe : returns (extract_variant p qe).
Proof.
  unfold extract_variant. case_decide; auto with rust. in_range.
  apply returns_bind; [auto with rust|]. intros [[[ne rs] re]|] Ho; auto with rust.
  apply find_opt_record_bounds in Ho. in_range.
  apply returns_bind; [apply extract_opt_data_total|]. intros [? ?] _. auto with rust.
Qed.

Lemma client_udp_payload_size_spec p qe :
  exists m, client_udp_payload_size p qe = Ret m /\ (512 <= m)%Z.
Proof.
  unfold client_udp_payload_size. destruct (find_opt_record_total p qe) as [o Ho]. rewrite Ho.
  cbn [obind]. destruct o as [[[ne rs] re]|].
  - apply find_opt_record_bounds in Ho. in_range. eexists. split; [done|]. lia.
  - eexists. split; [done|]. lia.
Qed.

(** The walker and the parser agree on where the question ends. *)
Lemma question_end_of p ls tail :
  bytes_ok p -> question_of p ls tail ->
  question_end p = Ret (Some (12 + length (encode_name ls) + 4)).
Proof.
  intros Hp (hdr & rest & Heq & Hh & Ht & Hls & Hlim).
  assert (length p = 16 + length (encode_name ls) + length rest) as Hlen by (rewrite Heq; len).
  unfold question_end. rewrite decide_False by lia.
  assert (skip_name p 12 = Ret (Some (12 + length (encode_name ls)))) as ->.
  { apply skip_name_spec; [done|]. rewrite Heq, <- Hh. by apply wire_name_encode. }
  cbn [obind_opt]. by rewrite decide_False by lia.
Qed.

(** ** Truncation *)

(** The stub built from the first [qe] bytes of the response. *)
Definition tc_stub (resp : list Z) (qe : nat) (edns : bool) : list Z :=
  take 2 resp ++ [Z.lor (nthb resp 2) 0x02] ++ take 3 (drop 3 resp) ++
  [0; 0; 0; 0; 0; if edns then 1 else 0]%Z ++ take (qe - 12) (drop 12 resp) ++
  (if edns then TC_OPT_RR else []).

Lemma header_split (l : list Z) :
  12 <= length l ->
  exists a b c d e f g h i j k m r, l = a :: b :: c :: d :: e :: f :: g :: h :: i :: j :: k :: m :: r.
Proof.
  intros H. do 12 (destruct l as [|? l]; [simpl in H; lia|]). repeat eexists.
Qed.

Lemma maybe_truncate_eq resp query qe m edns :
  question_end query = Ret (Some qe) -> 12 <= qe ->
  client_udp_payload_size query qe = Ret m -> has_opt_record query qe = Ret edns ->
  maybe_truncate_for_udp resp query
  = Ret (if decide (Z.of_nat (length resp) <= m)%Z then resp
         else if decide (length resp < qe) then resp else tc_stub resp qe edns).
Proof.
  intros Hq H12 Hm He. unfold maybe_truncate_for_udp. rewrite Hq. cbn [obind].
  rewrite Hm. cbn [obind]. case_decide; [done|].
  case_decide as Hs; [by rewrite decide_True by lia|]. rewrite decide_False by lia.
  rewrite He. cbn [obind]. rewrite slice_Ret by lia. cbn [obind].
  rewrite Nat.sub_0_r, drop_0.
  destruct (header_split resp) as (a&b&c&d&e&f&g&h&i&j&k&l&r&->); [lia|].
  assert (take qe (a::b::c::d::e::f::g::h::i::j::k::l::r)
    = a::b::c::d::e::f::g::h::i::j::k::l::take (qe - 12) r) as ->
    by by (destruct qe as [|[|[|[|[|[|[|[|[|[|[|[|qe]]]]]]]]]]]]; [lia..|]; simpl; rewrite Nat.sub_0_r).
  unfold tc_stub. destruct edns; in_range; [done|]. by rewrite app_nil_r.
Qed.

(** Truncation returns on every pair of messages and keeps the ID. *)
Lemma maybe_truncate_returns resp query : exists out, maybe_truncate_for_udp resp query = Ret out /\ take 2 out = take 2 resp.
Proof.
  destruct (question_end_total query) as [[qe|] Hq].
  - pose proof (question_end_bounds _ _ Hq). destruct (find_opt_record_total query qe) as [o Ho].
    assert (exists m, client_udp_payload_size query qe = Ret m) as [m Hm].
    { unfold client_udp_payload_size. rewrite Ho. cbn [obind]. destruct o as [[[ne rs] re]|]; [|by eexists].
      apply find_opt_record_bounds in Ho. rewrite u16_at_be16 by lia. by eexists. }
    assert (exists e, has_opt_record query qe = Ret e) as [e He] by (unfold has_opt_record; rewrite Ho; cbn [obind]; by eexists).
    rewrite (maybe_truncate_eq resp query qe m e) by (done || lia). eexists. split; [done|].
    case_decide; [done|]. case_decide; [done|]. unfold tc_stub. destruct (header_split resp) as (?&?&?&?&?&?&?&?&?&?&?&?&?&->); [lia|]. done.
  - unfold maybe_truncate_for_udp. rewrite Hq. by eexists.
Qed.

Lemma length_tc_stub resp qe edns :
  12 <= qe <= length resp -> length (tc_stub resp qe edns) = qe + (if edns then 11 else 0).
Proof. intros. unfold tc_stub. assert (length TC_OPT_RR = 11) by done. destruct edns; len. Qed.
