(* ===== verification/Ecs.v ===== *)
(** * EDNS Client Subnet rewriting (src/src/dns/ecs.rs)

    Locating the OPT record of a message, clearing its option data in cached
    responses, stripping the client-subnet option from queries and injecting a
    configured subnet.  Option data is described by the list of its options
    ([encode_opts]); stripping is filtering that list, injecting is filtering
    and appending, and the cache variant of a rewritten query is what the
    filtered list says it is. *)

From S2P Require Import Prelude Hasher DnsName DnsQuery DnsRecords DnsEdns.

(** [config::EcsSubnet] *)
Record EcsSubnet := mkEcsSubnet {
  subnet_addr : IpAddr;
  subnet_prefix_len : Z
}.

Record OptLocation := mkOptLocation {
  name_end : nat;
  rdata_start : nat;
  rdata_end : nat
}.

(** ** Operations *)

Fixpoint skip_questions (n : nat) (packet : list Z) (pos : nat) : outcome (option nat) :=
  match n with
  | O => Ret (Some pos)
  | S n' =>
      let? pos := skip_name packet pos in
      if decide (pos + 4 <= length packet) then skip_questions n' packet (pos + 4)
      else Ret None
  end.

Fixpoint skip_records (n : nat) (packet : list Z) (pos : nat) : outcome (option nat) :=
  match n with
  | O => Ret (Some pos)
  | S n' =>
      let? fixed := skip_name packet pos in
      if decide (length packet < fixed + 10) then Ret None
      else
        let! rdlen := u16_at packet (fixed + 8) in
        let pos := fixed + (10 + Z.to_nat rdlen) in
        if decide (pos <= length packet) then skip_records n' packet pos else Ret None
  end.

Fixpoint locate_opt_loop (n : nat) (packet : list Z) (pos : nat)
  : outcome (option (option OptLocation)) :=
  match n with
  | O => Ret (Some None)
  | S n' =>
      let? name_end := skip_name packet pos in
      if decide (length packet < name_end + 10) then Ret None
      else
        let! rr_type := u16_at packet name_end in
        let! rdlen := u16_at packet (name_end + 8) in
        let rdata_start := name_end + 10 in
        let rdata_end := rdata_start + Z.to_nat rdlen in
        if decide (length packet < rdata_end) then Ret None
        else if decide (rr_type = 41)%Z then
          Ret (Some (Some (mkOptLocation name_end rdata_start rdata_end)))
        else locate_opt_loop n' packet rdata_end
  end.

Definition locate_opt (packet : list Z) : outcome (option (option OptLocation)) :=
  if decide (length packet < 12) then Ret None
  else
    let! ar := u16_at packet 10 in
    if decide (ar = 0)%Z then Ret (Some None)
    else
      let! qd := u16_at packet 4 in
      let! an := u16_at packet 6 in
      let! ns := u16_at packet 8 in
      let? pos := skip_questions (Z.to_nat qd) packet 12 in
      let? pos := skip_records (Z.to_nat an + Z.to_nat ns) packet pos in
      locate_opt_loop (Z.to_nat ar) packet pos.

Definition strip_opt_rdata (packet : list Z) : outcome (option (list Z)) :=
  let? o := locate_opt packet in
  match o with
  | None => Ret None
  | Some loc =>
      if decide (rdata_end loc = rdata_start loc) then Ret None
      else
        let rdlen_pos := name_end loc + 8 in
        let! before := slice packet 0 rdlen_pos in
        let! after := slice packet (rdata_end loc) (length packet) in
        Ret (Some (before ++ to_be 2 0 ++ after))
  end.

(** The option walk of [strip_ecs_from_opt]; [None] is malformed RDATA. *)
Fixpoint strip_loop (fuel : nat) (rdata : list Z) (pos : nat) (found_ecs : bool)
    (new_rdata : list Z) : outcome (option (bool * list Z)) :=
  match fuel with
  | O => OutOfFuel
  | S fuel' =>
      if decide (pos + 4 <= length rdata) then
        let! code := u16_at rdata pos in
        let! opt_len := u16_at rdata (pos + 2) in
        let end_ := pos + 4 + Z.to_nat opt_len in
        if decide (length rdata < end_) then Ret None
        else if decide (code = ECS_OPTION_CODE) then
          strip_loop fuel' rdata end_ true new_rdata
        else
          let! opt := slice rdata pos end_ in
          strip_loop fuel' rdata end_ found_ecs (new_rdata ++ opt)
      else Ret (Some (found_ecs, new_rdata))
  end.

(** [out] with [new_rdata] in place of the RDATA and RDLEN updated. *)
Definition rebuild_opt (packet : list Z) (rdata_start rdata_end : nat) (new_rdata : list Z)
  : outcome (list Z) :=
  let new_rdlen := wrap 16 (Z.of_nat (length new_rdata)) in
  let! rdlen_pos := usub rdata_start 2 in
  let! before := slice packet 0 rdata_start in
  let! after := slice packet rdata_end (length packet) in
  let out := before ++ new_rdata ++ after in
  let! out := store out rdlen_pos (Z.shiftr new_rdlen 8) in
  store out (rdlen_pos + 1) (Z.land new_rdlen 0xff).

Definition strip_ecs_from_opt (packet : list Z) (rdata_start rdata_end : nat)
  : outcome (option (list Z)) :=
  let! rdata := slice packet rdata_start rdata_end in
  let? (found_ecs, new_rdata) := strip_loop (S (length rdata)) rdata 0 false [] in
  if negb found_ecs then Ret None
  else
    let! out := rebuild_opt packet rdata_start rdata_end new_rdata in
    Ret (Some out).

Definition strip_edns_ecs (packet : list Z) : outcome (option (list Z)) :=
  let? o := locate_opt packet in
  match o with
  | None => Ret None
  | Some loc => strip_ecs_from_opt packet (rdata_start loc) (rdata_end loc)
  end.

Definition encode_ecs_option (subnet : EcsSubnet) : outcome (list Z) :=
  let '(family, full_addr) :=
    match subnet_addr subnet with
    | V4 octets => (1%Z, octets ++ replicate 12 0%Z)
    | V6 octets => (2%Z, octets)
    end in
  let prefix_len := subnet_prefix_len subnet in
  let! addr_bytes :=
    if decide (family = 1)%Z then slice full_addr 0 4 else Ret full_addr in
  let byte_count := min (Z.to_nat ((prefix_len + 7) / 8)) (length addr_bytes) in
  let! addr_truncated := slice addr_bytes 0 byte_count in
  let data_len := 4 + byte_count in
  Ret (to_be 2 ECS_OPTION_CODE ++ to_be 2 (Z.of_nat data_len) ++ to_be 2 family ++
       [prefix_len; 0%Z] ++ addr_truncated).

(** The option walk of [inject_or_replace_ecs]. *)
Fixpoint inject_loop (fuel : nat) (rdata : list Z) (p : nat) (new_rdata : list Z)
  : outcome (option (list Z)) :=
  match fuel with
  | O => OutOfFuel
  | S fuel' =>
      if decide (p + 4 <= length rdata) then
        let! code := u16_at rdata p in
        let! opt_len := u16_at rdata (p + 2) in
        let end_ := p + 4 + Z.to_nat opt_len in
        if decide (length rdata < end_) then Ret None
        else
          let! new_rdata :=
            if decide (code <> ECS_OPTION_CODE)
            then let! opt := slice rdata p end_ in Ret (new_rdata ++ opt)
            else Ret new_rdata in
          inject_loop fuel' rdata end_ new_rdata
      else Ret (Some new_rdata)
  end.

Definition inject_or_replace_ecs (packet : list Z) (subnet : EcsSubnet)
  : outcome (option (list Z)) :=
  if decide (length packet < 12) then Ret None
  else
    let! ecs_opt := encode_ecs_option subnet in
    let! ar := u16_at packet 10 in
    let? o := locate_opt packet in
    match o with
    | Some loc =>
        let! rdata := slice packet (rdata_start loc) (rdata_end loc) in
        let? new_rdata := inject_loop (S (length rdata)) rdata 0 [] in
        let new_rdata := new_rdata ++ ecs_opt in
        let! out := rebuild_opt packet (rdata_start loc) (rdata_end loc) new_rdata in
        Ret (Some out)
    | None =>
        let new_rdlen := wrap 16 (Z.of_nat (length ecs_opt)) in
        let out := packet ++ [0x00%Z] ++ to_be 2 41 ++ to_be 2 4096 ++ to_be 4 0 ++
                   to_be 2 new_rdlen ++ ecs_opt in
        let new_ar := wrap 16 (ar + 1) in
        let! out := store out 10 (Z.shiftr new_ar 8) in
        let! out := store out 11 (Z.land new_ar 0xff) in
        Ret (Some out)
    end.

(** ** Totality on arbitrary bytes *)

Lemma skip_questions_total n p pos : returns (skip_questions n p pos).
Proof.
  revert pos. induction n as [|n IH]; intros pos; cbn [skip_questions]; auto with rust.
  apply returns_bind_opt; [auto with rust|]. intros e _. case_decide; auto with rust.
Qed.

Lemma skip_records_total n p pos : returns (skip_records n p pos).
Proof.
  revert pos. induction n as [|n IH]; intros pos; cbn [skip_records]; auto with rust.
  apply returns_bind_opt; [auto with rust|]. intros e _. case_decide; auto with rust. in_range.
  case_decide; auto with rust.
Qed.

Lemma skip_records_ge n p pos e : skip_records n p pos = Ret (Some e) -> pos <= e.
Proof.
  revert pos. induction n as [|n IH]; intros pos; cbn [skip_records]; [intros; inv_ret; lia|].
  intros H. inv_ret. apply skip_name_bounds in Ha. revert H. case_decide; [done|]. in_range.
  case_decide; [|done]. intros ?%IH. lia.
Qed.

Lemma locate_opt_loop_total n p pos : returns (locate_opt_loop n p pos).
Proof.
  revert pos. induction n as [|n IH]; intros pos; cbn [locate_opt_loop]; auto with rust.
  apply returns_bind_opt; [auto with rust|]. intros e _. case_decide; auto with rust. in_range.
  repeat case_decide; auto with rust.
Qed.

Lemma locate_opt_loop_bounds n p pos loc :
  locate_opt_loop n p pos = Ret (Some (Some loc)) ->
  pos < name_end loc /\ rdata_start loc = name_end loc + 10 /\
  rdata_start loc <= rdata_end loc <= length p.
Proof.
  revert pos. induction n as [|n IH]; intros pos; cbn [locate_opt_loop]; [done|].
  intros H. inv_ret. apply skip_name_bounds in Ha. revert H. case_decide; [done|]. in_range.
  case_decide; [done|]. case_decide; [|intros ?%IH; lia].
  intros [= <-]. cbn [name_end rdata_start rdata_end]. lia.
Qed.

Lemma locate_opt_total p : returns (locate_opt p).
Proof.
  unfold locate_opt. case_decide; auto with rust. in_range. case_decide; auto with rust. in_range.
  apply returns_bind_opt; [apply skip_questions_total|]. intros e1 _.
  apply returns_bind_opt; [apply skip_records_total|]. intros e2 _. apply locate_opt_loop_total.
Qed.

Lemma locate_opt_bounds p loc :
  locate_opt p = Ret (Some (Some loc)) ->
  12 <= length p /\ 10 <= rdata_start loc /\ rdata_start loc = name_end loc + 10 /\
  rdata_start loc <= rdata_end loc <= length p.
Proof.
  unfold locate_opt. case_decide; [done|]. in_range. case_decide; [done|]. in_range. intros Hs. inv_ret.
  apply locate_opt_loop_bounds in Hs. lia.
Qed.

(** With one question the record lies behind it. *)
Lemma locate_opt_after_question p qe loc :
  be16 p 4 = 1%Z -> question_end p = Ret (Some qe) -> locate_opt p = Ret (Some (Some loc)) ->
  qe < name_end loc.
Proof.
  unfold question_end, locate_opt. intros Hqd. case_decide; [done|]. intros Hq.
  apply obind_opt_Some_inv in Hq as (e & He & Hq). revert Hq. case_decide; [done|]. intros [= <-].
  in_range. case_decide; [done|]. in_range. rewrite Hqd. change (Z.to_nat 1) with 1. cbn [skip_questions].
  rewrite He. cbn [obind_opt]. rewrite decide_True by lia. cbn [obind_opt]. intros Hs. inv_ret.
  apply skip_records_ge in Ha. apply locate_opt_loop_bounds in Hs. lia.
Qed.

(** Clearing the option data of any packet returns, changes no header or question
    byte and keeps bytes bytes. *)
Lemma strip_opt_rdata_spec p :
  exists o, strip_opt_rdata p = Ret o /\
    forall p', o = Some p' -> length p' <= length p /\ (bytes_ok p -> bytes_ok p').
Proof.
  unfold strip_opt_rdata. destruct (locate_opt_total p) as [[[loc|]|] Hl]; rewrite Hl; cbn [obind_opt];
    [|by eexists..]. apply locate_opt_bounds in Hl. case_decide; [by eexists|]. in_range.
  eexists. split; [done|]. intros p' <-%(inj Some). split; [len|]. intros Hp.
  apply Forall_app; split; [by apply Forall_take, Forall_drop|].
  apply Forall_app; split; [apply to_be_ok|by apply Forall_take, Forall_drop].
Qed.

Lemma strip_loop_spec fuel r pos found acc :
  0 < fuel -> length r < fuel + pos ->
  exists o, strip_loop fuel r pos found acc = Ret o /\
    forall f new, o = Some (f, new) -> bytes_ok r -> bytes_ok acc -> bytes_ok new.
Proof.
  revert pos found acc. induction fuel as [|fuel IH]; intros pos found acc H0 Hf; cbn [strip_loop]; [lia|].
  case_decide; [|eexists; split; [done|]; by intros ?? [= <- <-]]. in_range.
  case_decide; [by eexists|]. case_decide.
  - apply IH; lia.
  - in_range. set (opt := take _ _). destruct (IH (pos + 4 + Z.to_nat (be16 r (pos + 2))) found (acc ++ opt))
      as (o & -> & Ho); [lia..|].
    exists o. split; [done|]. intros f new -> Hr Ha. eapply Ho; [done..|]. apply Forall_app; split; [done|].
    by apply Forall_take, Forall_drop.
Qed.

(** The two bytes a 16-bit field is written as. *)
Lemma wrap16_bytes z : is_byte (Z.shiftr (wrap 16 z) 8) /\ is_byte (Z.land (wrap 16 z) 0xff).
Proof.
  assert (Hw : (0 <= wrap 16 z < 65536)%Z) by (unfold wrap; change (2 ^ 16)%Z with 65536%Z; apply Z.mod_pos_bound; lia).
  unfold u_ok. split.
  - rewrite Z.shiftr_div_pow2 by lia. change (2 ^ 8)%Z with 256%Z. split; [apply Z.div_pos; lia|apply Z.div_lt_upper_bound; lia].
  - change 0xff%Z with (Z.ones 8). rewrite Z.land_ones by lia. apply Z.mod_pos_bound. lia.
Qed.

Lemma rebuild_opt_spec p rs re new :
  2 <= rs <= re -> re <= length p -> bytes_ok new ->
  exists p', rebuild_opt p rs re new = Ret p' /\ rs <= length p' /\ take (rs - 2) p' = take (rs - 2) p /\
    (bytes_ok p -> bytes_ok p').
Proof.
  intros Hrs Hre Hn. unfold rebuild_opt. rewrite usub_Ret by lia. cbn [obind]. rewrite slice_Ret by lia. cbn [obind].
  rewrite slice_Ret by lia. cbn [obind]. rewrite store_Ret by len. cbn [obind]. rewrite store_Ret by len.
  eexists. split; [done|]. split; [len|]. split.
  - rewrite !take_insert_ge by lia. rewrite take_app_le by len. by rewrite drop_0, take_take, Nat.sub_0_r, Nat.min_l by lia.
  - intros Hp. apply Forall_insert; [apply Forall_insert|]; [|apply wrap16_bytes..].
    apply Forall_app; split; [by apply Forall_take, Forall_drop|].
    apply Forall_app; split; [done|by apply Forall_take, Forall_drop].
Qed.

Lemma strip_edns_ecs_spec p :
  exists o, strip_edns_ecs p = Ret o /\
    forall p', o = Some p' -> bytes_ok p ->
      bytes_ok p' /\
      forall qe, be16 p 4 = 1%Z -> question_end p = Ret (Some qe) -> qe <= length p' /\ take qe p' = take qe p.
Proof.
  unfold strip_edns_ecs. destruct (locate_opt_total p) as [[[loc|]|] Hl]; rewrite Hl; cbn [obind_opt];
    [|by eexists..]. pose proof (locate_opt_bounds _ _ Hl) as Hb. unfold strip_ecs_from_opt. in_range.
  set (r := take _ _). destruct (strip_loop_spec (S (length r)) r 0 false []) as (o & -> & Ho); [lia..|].
  destruct o as [[found new]|]; cbn [obind_opt]; [|by eexists].
  destruct found; cbn [negb]; [|by eexists].
  destruct (decide (bytes_ok new)) as [Hn|Hn].
  - destruct (rebuild_opt_spec p (rdata_start loc) (rdata_end loc) new) as (p' & -> & H1 & H2 & H3); [lia..|done|].
    cbn [obind]. eexists. split; [done|]. intros ? <-%(inj Some) Hp. split; [by apply H3|]. intros qe Hqd Hqe.
    pose proof (locate_opt_after_question p qe loc Hqd Hqe Hl). split; [lia|].
    apply take_eq_lookup. intros j Hj.
    rewrite <- (lookup_take_lt p' (rdata_start loc - 2)), H2, lookup_take_lt by lia. done.
  - unfold rebuild_opt. rewrite usub_Ret by lia. cbn [obind]. rewrite slice_Ret by lia. cbn [obind].
    rewrite slice_Ret by lia. cbn [obind]. rewrite store_Ret by len. cbn [obind]. rewrite store_Ret by len.
    cbn [obind]. eexists. split; [done|]. intros ? _ Hp. destruct Hn. eapply Ho; [done| |apply Forall_nil; exact I].
    by apply Forall_take, Forall_drop.
Qed.

(** ** Option lists *)

Definition opt := (Z * list Z)%type.

Definition opt_ok (o : opt) : Prop :=
  (u_ok 16 (fst o) /\ Z.of_nat (length (snd o)) < 65536)%Z.

Definition encode_opt (o : opt) : list Z :=
  to_be 2 (fst o) ++ to_be 2 (Z.of_nat (length (snd o))) ++ snd o.

Fixpoint encode_opts (os : list opt) : list Z :=
  match os with
  | [] => []
  | o :: os' => encode_opt o ++ encode_opts os'
  end.

Definition is_ecs (o : opt) : Prop := fst o = ECS_OPTION_CODE.

#[export] Instance is_ecs_dec o : Decision (is_ecs o).
Proof. unfold is_ecs. apply _. Defined.

Definition ecs_of (data : list Z) : option EcsSrc :=
  match parse_ecs_src data with Ret o => o | _ => None end.

(** The variant-relevant reading of an option list: last subnet, other codes. *)
Definition opts_step (acc : option EcsSrc * list Z) (o : opt) : option EcsSrc * list Z :=
  if decide (is_ecs o /\ 4 <= length (snd o)) then (ecs_of (snd o), snd acc)
  else (fst acc, if decide (fst o <> 12)%Z then snd acc ++ [fst o] else snd acc).

Definition read_opts (os : list opt) : option EcsSrc * list Z :=
  foldl opts_step (None, []) os.

(** ** Reading one option *)

Lemma length_encode_opt o : length (encode_opt o) = 4 + length (snd o).
Proof. unfold encode_opt. len. Qed.

Lemma be16_app pre z rest :
  u_ok 16 z -> be16 (pre ++ to_be 2 z ++ rest) (length pre) = z.
Proof.
  intros Hz. unfold be16.
  rewrite !(nthb_app_r pre) by lia. rewrite Nat.sub_diag.
  replace (length pre + 1 - length pre) with 1 by lia.
  rewrite !(nthb_app_l (to_be 2 z)) by (rewrite length_to_be; lia).
  transitivity (from_be (to_be 2 z)); [done|]. apply from_be_to_be_small. done.
Qed.

Lemma opt_header pre o rest :
  opt_ok o ->
  be16 (pre ++ encode_opt o ++ rest) (length pre) = fst o /\
  be16 (pre ++ encode_opt o ++ rest) (length pre + 2) = Z.of_nat (length (snd o)).
Proof.
  intros [H1 H2]. unfold encode_opt. rewrite <- !app_assoc. split; [by apply be16_app|].
  rewrite app_assoc. replace (length pre + 2) with (length (pre ++ to_be 2 (fst o))) by len.
  apply be16_app. unfold u_ok. lia.
Qed.

Lemma take_drop_mid {A} (pre m post : list A) n :
  n = length pre + length m -> take (n - length pre) (drop (length pre) (pre ++ m ++ post)) = m.
Proof.
  intros ->. rewrite drop_app_length. replace (_ - _) with (length m) by lia.
  apply take_app_length.
Qed.

(** ** The option walks *)

Definition keep (os : list opt) : list opt := filter (fun o => ~ is_ecs o) os.

Definition has_ecs (os : list opt) : bool := existsb (fun o => bool_decide (is_ecs o)) os.

Lemma encode_opts_app a b : encode_opts (a ++ b) = encode_opts a ++ encode_opts b.
Proof. induction a; simpl; [done|]. by rewrite IHa, app_assoc. Qed.

Lemma strip_loop_opts os fuel pre junk found acc :
  Forall opt_ok os -> length junk < 4 -> length (encode_opts os) < fuel ->
  strip_loop fuel (pre ++ encode_opts os ++ junk) (length pre) found acc
  = Ret (Some (found || has_ecs os, acc ++ encode_opts (keep os))).
Proof.
  intros Hos Hj. revert fuel pre found acc.
  induction Hos as [|o os Ho Hos IH]; intros fuel pre found acc Hf;
    (destruct fuel as [|fuel]; [lia|]); cbn [strip_loop].
  - rewrite decide_False by (simpl; len). simpl. by rewrite orb_false_r, app_nil_r.
  - cbn [encode_opts] in *. rewrite length_app, length_encode_opt in Hf.
    destruct (opt_header pre o (encode_opts os ++ junk) Ho) as [Hc Hl].
    rewrite <- !app_assoc. pose proof (length_encode_opt o) as Hlo.
    rewrite decide_True by len. rewrite !u16_at_be16 by len. cbn [obind]. rewrite Hc, Hl.
    rewrite Nat2Z.id, decide_False by len.
    replace (length pre + 4 + length (snd o)) with (length (pre ++ encode_opt o)) by len.
    assert (forall f a, strip_loop fuel (pre ++ encode_opt o ++ encode_opts os ++ junk)
        (length (pre ++ encode_opt o)) f a
      = Ret (Some (f || has_ecs os, a ++ encode_opts (keep os)))) as Hstep.
    { intros f a. rewrite app_assoc. apply IH. lia. }
    cbn [has_ecs existsb]. unfold keep in *. rewrite filter_cons. unfold is_ecs at 1 4.
    case_decide as Hd.
    + rewrite Hstep, bool_decide_true by done. rewrite decide_False by tauto.
      by rewrite orb_true_r.
    + rewrite slice_Ret by len. cbn [obind]. rewrite take_drop_mid by len.
      rewrite Hstep, bool_decide_false by done. rewrite decide_True by done.
      cbn [encode_opts]. by rewrite app_assoc.
Qed.

Lemma inject_loop_opts os fuel pre junk acc :
  Forall opt_ok os -> length junk < 4 -> length (encode_opts os) < fuel ->
  inject_loop fuel (pre ++ encode_opts os ++ junk) (length pre) acc
  = Ret (Some (acc ++ encode_opts (keep os))).
Proof.
  intros Hos Hj. revert fuel pre acc.
  induction Hos as [|o os Ho Hos IH]; intros fuel pre acc Hf;
    (destruct fuel as [|fuel]; [lia|]); cbn [inject_loop].
  - rewrite decide_False by (simpl; len). simpl. by rewrite app_nil_r.
  - cbn [encode_opts] in *. rewrite length_app, length_encode_opt in Hf.
    destruct (opt_header pre o (encode_opts os ++ junk) Ho) as [Hc Hl].
    rewrite <- !app_assoc. pose proof (length_encode_opt o) as Hlo.
    rewrite decide_True by len. rewrite !u16_at_be16 by len. cbn [obind]. rewrite Hc, Hl.
    rewrite Nat2Z.id, decide_False by len.
    replace (length pre + 4 + length (snd o)) with (length (pre ++ encode_opt o)) by len.
    unfold keep in *. rewrite filter_cons. unfold is_ecs at 2.
    assert (forall a, inject_loop fuel (pre ++ encode_opt o ++ encode_opts os ++ junk)
        (length (pre ++ encode_opt o)) a
      = Ret (Some (a ++ encode_opts (filter (fun o => ~ is_ecs o) os)))) as Hstep.
    { intros a. rewrite app_assoc. apply IH. lia. }
    case_decide as Hd.
    + rewrite slice_Ret by len. cbn [obind]. rewrite take_drop_mid by len.
      rewrite Hstep, decide_True by done. cbn [encode_opts]. by rewrite app_assoc.
    + cbn [obind]. by rewrite Hstep, decide_False by tauto.
Qed.

Lemma opt_data_loop_opts os fuel pre junk ecs codes :
  Forall opt_ok os -> length junk < 4 -> length (encode_opts os) < fuel ->
  opt_data_loop fuel (pre ++ encode_opts os ++ junk) (length pre) ecs codes
  = Ret (foldl opts_step (ecs, codes) os).
Proof.
  intros Hos Hj. revert fuel pre ecs codes.
  induction Hos as [|o os Ho Hos IH]; intros fuel pre ecs codes Hf;
    (destruct fuel as [|fuel]; [lia|]); cbn [opt_data_loop foldl].
  - rewrite decide_False by (simpl; len). done.
  - cbn [encode_opts] in *. rewrite length_app, length_encode_opt in Hf.
    destruct (opt_header pre o (encode_opts os ++ junk) Ho) as [Hc Hl].
    rewrite <- !app_assoc. pose proof (length_encode_opt o) as Hlo.
    rewrite decide_True by len. rewrite !u16_at_be16 by len. cbn [obind]. rewrite Hc, Hl.
    rewrite Nat2Z.id, decide_False by len.
    replace (length pre + 4 + length (snd o)) with (length (pre ++ encode_opt o)) by len.
    assert (forall e c, opt_data_loop fuel (pre ++ encode_opt o ++ encode_opts os ++ junk)
        (length (pre ++ encode_opt o)) e c
      = Ret (foldl opts_step (e, c) os)) as Hstep.
    { intros e c. rewrite app_assoc. apply IH. lia. }
    unfold opts_step at 2, is_ecs. cbn [fst snd].
    case_decide as Hd.
    + rewrite decide_True by lia. rewrite slice_Ret by len. cbn [obind].
      assert (take (length (pre ++ encode_opt o) - (length pre + 4))
        (drop (length pre + 4) (pre ++ encode_opt o ++ encode_opts os ++ junk)) = snd o) as ->.
      { unfold encode_opt at 2. rewrite <- !app_assoc.
        replace (pre ++ to_be 2 (fst o) ++ to_be 2 (Z.of_nat (length (snd o))) ++ snd o ++ encode_opts os ++ junk)
          with ((pre ++ to_be 2 (fst o) ++ to_be 2 (Z.of_nat (length (snd o)))) ++ snd o ++ encode_opts os ++ junk)
          by by rewrite <- !app_assoc.
        replace (length pre + 4) with (length (pre ++ to_be 2 (fst o) ++ to_be 2 (Z.of_nat (length (snd o))))) by len.
        apply take_drop_mid. len. }
      destruct (parse_ecs_src_total (snd o)) as [e He]. rewrite He. cbn [obind].
      rewrite Hstep. unfold ecs_of. by rewrite He.
    + rewrite Hstep. by rewrite (decide_False (P := _ /\ _)) by lia.
Qed.

(** ** Queries with an OPT record

    The shape the rewriting functions meet: a header with one question and empty
    answer and authority sections, and the OPT record first in the additional
    section.  [o_class] and [o_ttl] are the OPT's CLASS (payload size) and TTL
    (extended RCODE, version, flags) bytes. *)

Record edns_query := mkEdnsQuery {
  q_head : list Z;
  q_name : list (list Z);
  q_tail : list Z;
  o_fixed : list Z;
  o_rdata : list Z;
  q_after : list Z
}.

Definition edns_prefix (q : edns_query) : list Z := q_head q ++ encode_name (q_name q) ++ q_tail q.

Definition encode_edns (q : edns_query) : list Z :=
  (edns_prefix q ++ [0%Z] ++ to_be 2 41 ++ o_fixed q) ++
  to_be 2 (Z.of_nat (length (o_rdata q))) ++ o_rdata q ++ q_after q.

Definition with_rdata (q : edns_query) (rdata : list Z) : edns_query :=
  mkEdnsQuery (q_head q) (q_name q) (q_tail q) (o_fixed q) rdata (q_after q).

Definition edns_ok (q : edns_query) : Prop :=
  length (q_head q) = 12 /\ length (q_tail q) = 4 /\ length (o_fixed q) = 6 /\
  Forall label_ok (q_name q) /\ length (encode_name (q_name q)) <= 255 /\
  be16 (q_head q) 4 = 1%Z /\ be16 (q_head q) 6 = 0%Z /\ be16 (q_head q) 8 = 0%Z /\
  (be16 (q_head q) 10 <> 0)%Z /\
  (Z.of_nat (length (o_rdata q)) < 65536)%Z /\
  bytes_ok (q_head q) /\ bytes_ok (q_tail q) /\ bytes_ok (o_fixed q) /\
  bytes_ok (o_rdata q) /\ bytes_ok (q_after q).

Lemma edns_bytes_ok q : edns_ok q -> bytes_ok (encode_edns q).
Proof.
  intros (_ & _ & _ & Hn & _ & _ & _ & _ & _ & _ & Hh & Ht & Hf & Hr & Ha).
  unfold encode_edns, edns_prefix.
  bytes.
Qed.

Lemma skip_name_root p pos : p !! pos = Some 0%Z -> skip_name p pos = Ret (Some (pos + 1)).
Proof. intros H. unfold skip_name. cbn [skip_name_loop]. rewrite H. reflexivity. Qed.

Lemma be16_app_l l k i : i + 1 < length l -> be16 (l ++ k) i = be16 l i.
Proof. intros. unfold be16. by rewrite !nthb_app_l by lia. Qed.

Section edns_layout.
Context (q : edns_query) (Hq : edns_ok q).

Lemma edns_length :
  length (encode_edns q) = length (edns_prefix q) + 11 + length (o_rdata q) + length (q_after q).
Proof.
  destruct Hq as (? & ? & Hf & _). unfold encode_edns. rewrite !length_app, Hf. len.
Qed.

Lemma edns_prefix_length : length (edns_prefix q) = 16 + length (encode_name (q_name q)).
Proof. destruct Hq as (? & ? & _). unfold edns_prefix. len. Qed.

Lemma edns_header i : i + 1 < 12 -> be16 (encode_edns q) i = be16 (q_head q) i.
Proof.
  intros Hi. destruct Hq as (Hh & _). unfold encode_edns, edns_prefix.
  rewrite <- !app_assoc. apply be16_app_l. lia.
Qed.

Lemma edns_root : encode_edns q !! length (edns_prefix q) = Some 0%Z.
Proof. unfold encode_edns. rewrite <- !app_assoc, lookup_app_r, Nat.sub_diag by lia. done. Qed.

Lemma edns_type : be16 (encode_edns q) (length (edns_prefix q) + 1) = 41%Z.
Proof.
  unfold encode_edns. rewrite <- !app_assoc, (app_assoc (edns_prefix q) [0%Z]).
  replace (_ + 1) with (length (edns_prefix q ++ [0%Z])) by len.
  apply be16_app. unfold u_ok; lia.
Qed.

Lemma edns_rdlen :
  be16 (encode_edns q) (length (edns_prefix q) + 9) = Z.of_nat (length (o_rdata q)).
Proof.
  destruct Hq as (? & ? & Hf & _ & _ & _ & _ & _ & _ & Hr & _). unfold encode_edns.
  replace (_ + 9) with (length (edns_prefix q ++ [0%Z] ++ to_be 2 41 ++ o_fixed q)) by len.
  apply be16_app. unfold u_ok; lia.
Qed.

Lemma edns_name_skip : skip_name (encode_edns q) 12 = Ret (Some (12 + length (encode_name (q_name q)))).
Proof.
  apply skip_name_spec; [by apply edns_bytes_ok|]. destruct Hq as (Hh & _ & _ & Hn & _).
  unfold encode_edns, edns_prefix. rewrite <- !app_assoc, <- Hh. by apply wire_name_encode.
Qed.

Lemma edns_rdata :
  take (length (o_rdata q)) (drop (length (edns_prefix q) + 11) (encode_edns q)) = o_rdata q.
Proof.
  destruct Hq as (? & ? & Hf & _). unfold encode_edns. rewrite app_assoc.
  replace (_ + 11) with (length ((edns_prefix q ++ [0%Z] ++ to_be 2 41 ++ o_fixed q)
    ++ to_be 2 (Z.of_nat (length (o_rdata q))))) by len.
  rewrite drop_app_length. apply take_app_length.
Qed.

Lemma locate_opt_edns :
  locate_opt (encode_edns q)
  = Ret (Some (Some (mkOptLocation (length (edns_prefix q) + 1) (length (edns_prefix q) + 11)
      (length (edns_prefix q) + 11 + length (o_rdata q))))).
Proof.
  pose proof edns_length as Hlen. pose proof edns_prefix_length as Hpl.
  assert (Hq' := Hq). destruct Hq' as (Hh & Ht & Hf & Hn & Hl & H4 & H6 & H8 & H10 & Hr & Hb & _).
  unfold locate_opt. rewrite decide_False by lia. in_range. rewrite !edns_header by lia.
  rewrite decide_False by lia. rewrite H4, H6, H8. change (Z.to_nat 1) with 1.
  cbn [skip_questions]. rewrite edns_name_skip. cbn [obind_opt].
  rewrite decide_True by lia. cbn [obind_opt]. change (Z.to_nat 0 + Z.to_nat 0) with 0.
  cbn [skip_records obind_opt].
  pose proof (be16_bound (q_head q) 10 Hb).
  destruct (Z.to_nat (be16 (q_head q) 10)) as [|n] eqn:En; [lia|]. cbn [locate_opt_loop].
  replace (12 + length (encode_name (q_name q)) + 4) with (length (edns_prefix q)) by lia.
  rewrite (skip_name_root _ _ edns_root). cbn [obind_opt]. rewrite decide_False by lia.
  in_range. rewrite edns_type. replace (length (edns_prefix q) + 1 + 8) with (length (edns_prefix q) + 9) by lia.
  rewrite edns_rdlen, Nat2Z.id, decide_False by lia. rewrite decide_True by done.
  do 3 f_equal. f_equal; lia.
Qed.

Lemma find_opt_record_edns :
  find_opt_record (encode_edns q) (length (edns_prefix q))
  = Ret (Some (length (edns_prefix q) + 1, length (edns_prefix q) + 11,
      length (edns_prefix q) + 11 + length (o_rdata q))).
Proof.
  pose proof edns_length as Hlen. pose proof edns_prefix_length as Hpl.
  assert (Hq' := Hq). destruct Hq' as (Hh & Ht & Hf & Hn & Hl & H4 & H6 & H8 & H10 & Hr & Hb & _).
  unfold find_opt_record. rewrite decide_False by lia. in_range. rewrite !edns_header by lia.
  rewrite decide_False by lia. pose proof (be16_bound (q_head q) 10 Hb).
  destruct (Z.to_nat (be16 (q_head q) 10)) as [|n] eqn:En; [lia|]. cbn [find_opt_loop].
  rewrite (skip_name_root _ _ edns_root). cbn [obind_opt]. rewrite decide_False by lia.
  in_range. rewrite edns_type. replace (length (edns_prefix q) + 1 + 8) with (length (edns_prefix q) + 9) by lia.
  rewrite edns_rdlen, Nat2Z.id, decide_False by lia. rewrite decide_True by done.
  do 3 f_equal; [f_equal|]; lia.
Qed.

Lemma store_be16 (pre rest : list Z) a b z :
  u_ok 16 z ->
  (let! out := store (pre ++ a :: b :: rest) (length pre) (Z.shiftr z 8) in
   store out (length pre + 1) (Z.land z 0xff)) = Ret (pre ++ to_be 2 z ++ rest).
Proof.
  intros Hz. rewrite store_Ret by len. cbn [obind]. rewrite store_Ret by len. f_equal.
  rewrite insert_app_r_alt, Nat.sub_diag by lia. simpl.
  rewrite insert_app_r_alt by lia. replace (length pre + 1 - length pre) with 1 by lia.
  simpl. do 2 f_equal.
  - rewrite Z.shiftr_div_pow2 by lia. unfold to_be. simpl. unfold u_ok in Hz.
    change (2 ^ 8)%Z with 256%Z. rewrite Z.mod_small; [done|]. split; [apply Z.div_pos; lia|].
    apply Z.div_lt_upper_bound; lia.
  - f_equal. change 255%Z with (Z.ones 8). by rewrite Z.land_ones by lia.
Qed.

Lemma rebuild_opt_edns rdata :
  (Z.of_nat (length rdata) < 65536)%Z ->
  rebuild_opt (encode_edns q) (length (edns_prefix q) + 11)
    (length (edns_prefix q) + 11 + length (o_rdata q)) rdata
  = Ret (encode_edns (with_rdata q rdata)).
Proof.
  intros Hr. pose proof edns_length as Hlen. destruct Hq as (? & ? & Hf & _).
  unfold rebuild_opt. rewrite usub_Ret by lia. cbn [obind].
  rewrite !slice_Ret by lia. cbn [obind].
  set (fixed := edns_prefix q ++ [0%Z] ++ to_be 2 41 ++ o_fixed q).
  assert (length fixed = length (edns_prefix q) + 9) as Hfx by (unfold fixed; len).
  assert (encode_edns q = (fixed ++ to_be 2 (Z.of_nat (length (o_rdata q)))) ++ o_rdata q ++ q_after q)
    as -> by exact (app_assoc fixed _ _).
  rewrite Nat.sub_0_r, drop_0.
  rewrite take_app_length' by len.
  rewrite (app_assoc _ (o_rdata q)), drop_app_length' by len. rewrite take_ge by len.
  replace (length (edns_prefix q) + 11 - 2) with (length fixed) by lia.
  rewrite <- !app_assoc. unfold wrap. rewrite Z.mod_small by lia.
  unfold to_be at 1. cbn [to_le rev app].
  rewrite (store_be16 fixed (rdata ++ q_after q)) by (unfold u_ok; lia). done.
Qed.
End edns_layout.

(** ** Stripping and injecting *)

Lemma edns_with_rdata_ok q rdata :
  edns_ok q -> bytes_ok rdata -> (Z.of_nat (length rdata) < 65536)%Z ->
  edns_ok (with_rdata q rdata).
Proof. unfold edns_ok. cbn. tauto. Qed.

Lemma length_keep os : length (encode_opts (keep os)) <= length (encode_opts os).
Proof.
  induction os as [|o os IH]; [done|]. unfold keep in *. rewrite filter_cons.
  case_decide; cbn [encode_opts]; len.
Qed.

Lemma keep_ok os : bytes_ok (encode_opts os) -> bytes_ok (encode_opts (keep os)).
Proof.
  induction os as [|o os IH]; [done|]. unfold keep in *. rewrite filter_cons. cbn [encode_opts].
  rewrite Forall_app. intros [Ho Hos]. case_decide; [|auto]. apply Forall_app. auto.
Qed.

Lemma strip_edns_ecs_eq q os junk :
  edns_ok q -> Forall opt_ok os -> length junk < 4 -> o_rdata q = encode_opts os ++ junk ->
  strip_edns_ecs (encode_edns q)
  = Ret (if has_ecs os then Some (encode_edns (with_rdata q (encode_opts (keep os)))) else None).
Proof.
  intros Hq Hos Hj Hr. unfold strip_edns_ecs. rewrite (locate_opt_edns q Hq). cbn [obind_opt].
  unfold strip_ecs_from_opt. cbn [rdata_start rdata_end].
  pose proof (edns_length q Hq). rewrite slice_Ret by lia. cbn [obind].
  replace (_ + _ - _) with (length (o_rdata q)) by lia. rewrite edns_rdata by done.
  assert (Hlr : (Z.of_nat (length (o_rdata q)) < 65536)%Z) by apply Hq.
  pose proof (length_keep os).
  assert (length (encode_opts os) <= length (o_rdata q)) by (rewrite Hr; len). rewrite Hr.
  pose proof (strip_loop_opts os (S (length (encode_opts os ++ junk))) [] junk false [] Hos Hj) as Hs.
  cbn [app length] in Hs. rewrite Hs by len. cbn [obind_opt orb app]. rewrite <- Hr.
  destruct (has_ecs os); cbn [negb]; [|done].
  by rewrite (rebuild_opt_edns q Hq) by lia.
Qed.

Lemma inject_or_replace_ecs_eq q os junk subnet ecs_opt :
  edns_ok q -> Forall opt_ok os -> length junk < 4 -> o_rdata q = encode_opts os ++ junk ->
  encode_ecs_option subnet = Ret ecs_opt ->
  (Z.of_nat (length (encode_opts (keep os)) + length ecs_opt) < 65536)%Z ->
  inject_or_replace_ecs (encode_edns q) subnet
  = Ret (Some (encode_edns (with_rdata q (encode_opts (keep os) ++ ecs_opt)))).
Proof.
  intros Hq Hos Hj Hr He Hl. unfold inject_or_replace_ecs.
  pose proof (edns_length q Hq). pose proof (edns_prefix_length q Hq).
  rewrite decide_False by lia. rewrite He. cbn [obind]. rewrite u16_at_be16 by lia. cbn [obind].
  rewrite (locate_opt_edns q Hq). cbn [obind_opt rdata_start rdata_end].
  rewrite slice_Ret by lia. cbn [obind].
  replace (_ + _ - _) with (length (o_rdata q)) by lia. rewrite edns_rdata by done.
  rewrite Hr.
  pose proof (inject_loop_opts os (S (length (encode_opts os ++ junk))) [] junk [] Hos Hj) as Hs.
  cbn [app length] in Hs. rewrite Hs by len. cbn [obind_opt app]. rewrite <- Hr.
  by rewrite (rebuild_opt_edns q Hq) by len.
Qed.

(** The variant of such a query, in terms of its option list. *)
Definition flag (b m : Z) : bool := bool_decide (Z.land b m <> 0)%Z.

Definition edns_variant (q : edns_query) (os : list opt) : QueryVariant :=
  let '(ecs, codes) := read_opts os in
  {| has_opt := true; do_bit := flag (nthb (o_fixed q) 4) 0x80; edns_version := nthb (o_fixed q) 3;
     rd := flag (nthb (q_head q) 2) 0x01; ad := flag (nthb (q_head q) 3) 0x20;
     cd := flag (nthb (q_head q) 3) 0x10;
     ecs_src := ecs; extra_opts_hash := hash_codes codes |}.

Lemma edns_fixed q i :
  edns_ok q -> i < 6 -> nthb (encode_edns q) (length (edns_prefix q) + 3 + i) = nthb (o_fixed q) i.
Proof.
  intros (_ & _ & Hf & _) Hi. unfold encode_edns. rewrite <- !app_assoc.
  rewrite (app_assoc (edns_prefix q)), (app_assoc (_ ++ [_])).
  rewrite nthb_app_r by len. rewrite nthb_app_l by len. f_equal. len.
Qed.

Lemma extract_variant_edns q os junk :
  edns_ok q -> Forall opt_ok os -> length junk < 4 -> o_rdata q = encode_opts os ++ junk ->
  extract_variant (encode_edns q) (length (edns_prefix q)) = Ret (edns_variant q os).
Proof.
  intros Hq Hos Hj Hr. pose proof (edns_length q Hq). pose proof (edns_prefix_length q Hq).
  assert (Hhd : forall i, i < 12 -> nthb (encode_edns q) i = nthb (q_head q) i).
  { intros i Hi. destruct Hq as (Hh & _). unfold encode_edns, edns_prefix.
    rewrite <- !app_assoc. apply nthb_app_l. lia. }
  unfold extract_variant. rewrite decide_False by lia. in_range. rewrite !Hhd by lia.
  rewrite (find_opt_record_edns q Hq). cbn [obind]. in_range.
  replace (length (edns_prefix q) + 1 + 5) with (length (edns_prefix q) + 3 + 3) by lia.
  replace (length (edns_prefix q) + 1 + 6) with (length (edns_prefix q) + 3 + 4) by lia.
  rewrite !edns_fixed by (done || lia).
  unfold get_slice. rewrite decide_True by lia. unfold default, id.
  replace (_ + _ - _) with (length (o_rdata q)) by lia. rewrite edns_rdata by done.
  unfold extract_opt_data. rewrite Hr.
  pose proof (opt_data_loop_opts os (S (length (encode_opts os ++ junk))) [] junk None [] Hos Hj) as Hs.
  cbn [app length] in Hs. rewrite Hs by len. cbn [obind].
  unfold edns_variant, read_opts. by destruct (foldl opts_step _ os).
Qed.

(** ** What the rewritten options say *)

Lemma read_opts_keep os ecs codes :
  foldl opts_step (ecs, codes) (keep os)
  = (ecs, codes ++ filter (fun c => c <> 12%Z) (fst <$> keep os)).
Proof.
  revert ecs codes. induction os as [|o os IH]; intros ecs codes; [by rewrite app_nil_r|].
  unfold keep in *. rewrite filter_cons. case_decide as Hk; [|apply IH].
  cbn [foldl]. unfold opts_step at 2. rewrite decide_False by tauto. cbn [fst snd].
  rewrite IH. rewrite fmap_cons, filter_cons. case_decide; [|done]. by rewrite <- app_assoc.
Qed.

(** Every subnet option has the four fixed bytes RFC 7871 requires. *)
Definition ecs_complete (os : list opt) : Prop := Forall (fun o => is_ecs o -> 4 <= length (snd o)) os.

Lemma read_opts_codes os ecs codes :
  ecs_complete os ->
  snd (foldl opts_step (ecs, codes) os) = codes ++ filter (fun c => c <> 12%Z) (fst <$> keep os).
Proof.
  intros Hos. revert ecs codes. induction Hos as [|o os Ho Hos IH]; intros ecs codes.
  - symmetry. apply app_nil_r.
  - cbn [foldl]. unfold keep in *. rewrite filter_cons. unfold opts_step at 2.
    destruct (decide (is_ecs o)) as [He|He].
    + rewrite decide_True by auto. rewrite decide_False by tauto. apply IH.
    + rewrite (decide_False (P := _ /\ _)) by tauto.
      rewrite (decide_True (P := ~ is_ecs o)) by done. cbn [fst snd]. rewrite IH.
      rewrite fmap_cons, filter_cons. case_decide; [|done]. by rewrite <- app_assoc.
Qed.

Lemma keep_no_ecs os : has_ecs (keep os) = false.
Proof.
  induction os as [|o os IH]; [done|]. unfold keep in *. rewrite filter_cons.
  case_decide; [|done]. cbn [has_ecs existsb]. rewrite bool_decide_false by done. exact IH.
Qed.

Lemma keep_keep os : keep (keep os) = keep os.
Proof.
  induction os as [|o os IH]; [done|]. unfold keep in *. rewrite filter_cons.
  case_decide; [|done]. rewrite filter_cons, decide_True by done. by rewrite IH.
Qed.

Lemma keep_opt_ok os : Forall opt_ok os -> Forall opt_ok (keep os).
Proof.
  intros H. unfold keep. induction H; [done|]. rewrite filter_cons. case_decide; [by constructor|done].
Qed.

(** ** Prefix masks *)

Lemma mask_prefix_eq w p x :
  (0 <= p <= w)%Z -> (0 <= x < 2 ^ w)%Z ->
  mask_prefix w p x = (x / 2 ^ (w - p) * 2 ^ (w - p))%Z.
Proof.
  intros Hp Hx. unfold mask_prefix. case_decide as H0.
  - subst p. rewrite Z.land_0_r, Z.sub_0_r, Z.div_small by lia. done.
  - rewrite <- Z.shiftr_div_pow2, <- Z.shiftl_mul_pow2 by lia.
    unfold wrap. rewrite <- Z.land_ones by lia.
    assert (2 ^ w - 1 = Z.ones w)%Z as -> by (rewrite Z.ones_equiv; lia).
    apply Z.bits_inj'. intros i Hi.
    rewrite !Z.land_spec, !Z.shiftl_spec by lia.
    destruct (decide (i < w - p)%Z) as [Hlt|Hge].
    + rewrite (Z.testbit_neg_r (Z.ones w)), (Z.testbit_neg_r (Z.shiftr _ _)) by lia.
      by rewrite andb_false_l, andb_false_r.
    + rewrite Z.shiftr_spec by lia. replace (i - (w - p) + (w - p))%Z with i by lia.
      destruct (decide (i < w)%Z) as [Hw|Hw].
      * rewrite !Z.ones_spec_low by lia. by rewrite !andb_true_r.
      * rewrite (Z.ones_spec_high w i) by lia. rewrite !andb_false_r.
        symmetry. destruct (decide (x = 0)%Z) as [->|]; [apply Z.bits_0|].
        apply Z.bits_above_log2; [lia|]. apply Z.log2_lt_pow2; [lia|].
        assert (2 ^ w <= 2 ^ i)%Z by (apply Z.pow_le_mono_r; lia). lia.
Qed.

Lemma from_be_zeros n : from_be (replicate n 0%Z) = 0%Z.
Proof. induction n as [|n IH]; [done|]. rewrite replicate_S_end, from_be_snoc, IH. done. Qed.

(** Dropping address bytes past the prefix does not change the masked address. *)
Lemma mask_prefix_truncate n k p l :
  bytes_ok l -> length l = n -> k <= n -> (0 <= p <= 8 * Z.of_nat k)%Z ->
  mask_prefix (8 * Z.of_nat n) p (from_be (pad_to n (take k l)))
  = mask_prefix (8 * Z.of_nat n) p (from_be l).
Proof.
  intros Hl Hn Hk Hp.
  assert (256 = 2 ^ 8)%Z as E by done.
  assert (Hpad : pad_to n (take k l) = take k l ++ replicate (n - k) 0%Z).
  { unfold pad_to. rewrite (take_ge (take k l)) by len. f_equal. f_equal. len. }
  assert (Hb : forall m, bytes_ok m -> length m = n -> (0 <= from_be m < 2 ^ (8 * Z.of_nat n))%Z).
  { intros m Hm Hlen. pose proof (from_be_bound m Hm) as H. rewrite Hlen in H.
    by rewrite E, <- Z.pow_mul_r in H by lia. }
  assert (Hz : bytes_ok (replicate (n - k) 0%Z)).
  { apply Forall_replicate. unfold u_ok; lia. }
  assert (bytes_ok (take k l)) as Ht by by apply Forall_take.
  assert (bytes_ok (drop k l)) as Hd by by apply Forall_drop.
  rewrite !mask_prefix_eq; [|lia|by apply Hb|lia|].
  2: { apply Hb; [rewrite Hpad; by apply Forall_app|rewrite Hpad; len]. }
  rewrite Hpad. rewrite <- (take_drop k l) at 2. rewrite !from_be_app, from_be_zeros.
  rewrite length_replicate. replace (length (drop k l)) with (n - k) by len.
  set (r := Z.of_nat (n - k)).
  pose proof (from_be_bound _ Hd) as Hdb. replace (length (drop k l)) with (n - k) in Hdb by len.
  fold r in Hdb. rewrite E in *. rewrite <- Z.pow_mul_r in * by lia.
  assert (2 ^ (8 * Z.of_nat n - p) = 2 ^ (8 * r) * 2 ^ (8 * Z.of_nat k - p))%Z as ->.
  { rewrite <- Z.pow_add_r by lia. f_equal. lia. }
  assert (0 < 2 ^ (8 * r))%Z by (apply Z.pow_pos_nonneg; lia).
  assert (0 < 2 ^ (8 * Z.of_nat k - p))%Z by (apply Z.pow_pos_nonneg; lia).
  f_equal. rewrite <- !Z.div_div by lia. f_equal.
  rewrite Z.add_0_r, Z.div_mul by lia. rewrite Z.div_add_l by lia.
  rewrite (Z.div_small (from_be (drop k l))) by lia. lia.
Qed.

(** The subnet as the variant extraction normalises it. *)
Definition subnet_src (s : EcsSubnet) : EcsSrc :=
  let p := subnet_prefix_len s in
  match subnet_addr s with
  | V4 o => {| ecs_addr := replicate 12 0%Z ++ to_be 4 (mask_prefix 32 p (from_be o)); ecs_prefix_len := p |}
  | V6 o => {| ecs_addr := to_be 16 (mask_prefix 128 p (from_be o)); ecs_prefix_len := p |}
  end.

Definition addr_len (a : IpAddr) : nat := match a with V4 _ => 4 | V6 _ => 16 end.
Definition addr_octets (a : IpAddr) : list Z := match a with V4 o | V6 o => o end.

Definition subnet_ok (s : EcsSubnet) : Prop :=
  length (addr_octets (subnet_addr s)) = addr_len (subnet_addr s) /\
  bytes_ok (addr_octets (subnet_addr s)) /\
  (0 <= subnet_prefix_len s <= 8 * Z.of_nat (addr_len (subnet_addr s)))%Z.

Definition subnet_family (s : EcsSubnet) : Z :=
  match subnet_addr s with V4 _ => 1%Z | V6 _ => 2%Z end.

(** The option data [encode_ecs_option] produces. *)
Definition subnet_data (s : EcsSubnet) : list Z :=
  to_be 2 (subnet_family s) ++ [subnet_prefix_len s; 0%Z] ++
  take (Z.to_nat ((subnet_prefix_len s + 7) / 8)) (addr_octets (subnet_addr s)).

Lemma div_ceil8_le p n : (0 <= p <= 8 * Z.of_nat n)%Z -> Z.to_nat ((p + 7) / 8) <= n.
Proof.
  intros. assert ((p + 7) / 8 < Z.of_nat n + 1)%Z by (apply Z.div_lt_upper_bound; lia).
  pose proof (Z.div_pos (p + 7) 8). lia.
Qed.

Lemma encode_ecs_option_eq s :
  subnet_ok s -> encode_ecs_option s = Ret (encode_opt (ECS_OPTION_CODE, subnet_data s)).
Proof.
  intros (Hl & Hb & Hp). pose proof (div_ceil8_le _ _ Hp) as Hc. revert Hl Hb Hp Hc.
  unfold encode_ecs_option, subnet_data, subnet_family, encode_opt. cbn [fst snd].
  destruct s as [[o|o] p]; cbn [subnet_addr subnet_prefix_len addr_octets addr_len];
    intros Hl Hb Hp Hc.
  - rewrite decide_True by done. rewrite slice_Ret by len. cbn [obind].
    rewrite Nat.sub_0_r, drop_0, take_app_length' by lia. rewrite Nat.min_l by lia.
    rewrite slice_Ret by lia. cbn [obind]. rewrite Nat.sub_0_r, drop_0.
    f_equal. do 3 f_equal. len.
  - rewrite decide_False by done. cbn [obind]. rewrite Nat.min_l by lia.
    rewrite slice_Ret by lia. cbn [obind]. rewrite Nat.sub_0_r, drop_0.
    f_equal. do 3 f_equal. len.
Qed.

Lemma ecs_of_subnet s : subnet_ok s -> ecs_of (subnet_data s) = Some (subnet_src s).
Proof.
  intros (Hl & Hb & Hp). pose proof (div_ceil8_le _ _ Hp) as Hc. revert Hl Hb Hp Hc.
  unfold ecs_of, parse_ecs_src. assert (4 <= length (subnet_data s)) as H4 by (unfold subnet_data; len).
  rewrite decide_False by lia. in_range.
  set (k := Z.to_nat ((subnet_prefix_len s + 7) / 8)).
  assert (Hd : take (length (subnet_data s) - 4) (drop 4 (subnet_data s))
    = take k (addr_octets (subnet_addr s))).
  { rewrite take_ge by len. done. }
  rewrite Hd. unfold subnet_src.
  assert (H8 : (0 <= subnet_prefix_len s)%Z -> (subnet_prefix_len s <= 8 * Z.of_nat k)%Z).
  { intros. unfold k. rewrite Z2Nat.id by (apply Z.div_pos; lia).
    pose proof (Z.mul_succ_div_gt (subnet_prefix_len s + 7) 8). lia. }
  destruct s as [[o|o] p]; cbn [subnet_addr subnet_prefix_len addr_octets addr_len] in *;
    intros Hl Hb Hp Hc.
  - change (be16 _ 0) with 1%Z. change (nthb _ 2) with p. rewrite decide_True by done.
    rewrite Z.min_l by lia. do 2 f_equal. f_equal. f_equal.
    apply (mask_prefix_truncate 4 k p o); (done || lia).
  - change (be16 _ 0) with 2%Z. change (nthb _ 2) with p.
    rewrite decide_False, decide_True by done.
    rewrite Z.min_l by lia. do 2 f_equal. f_equal.
    apply (mask_prefix_truncate 16 k p o); (done || lia).
Qed.

Lemma length_subnet_data s : subnet_ok s -> 4 <= length (subnet_data s) <= 20.
Proof.
  intros (Hl & Hb & Hp). pose proof (div_ceil8_le _ _ Hp). unfold subnet_data.
  destruct (subnet_addr s); cbn [addr_len] in *; len.
Qed.

Lemma subnet_data_ok s : subnet_ok s -> bytes_ok (subnet_data s).
Proof.
  intros (Hl & Hb & Hp). unfold subnet_data. apply Forall_app; split; [apply to_be_ok|].
  apply Forall_app; split; [|by apply Forall_take].
  apply Forall_cons; split; [|bytes]. destruct (subnet_addr s); cbn [addr_len] in *; unfold u_ok; lia.
Qed.

Definition clear_ecs (v : QueryVariant) : QueryVariant :=
  {| has_opt := has_opt v; do_bit := do_bit v; edns_version := edns_version v;
     rd := rd v; ad := ad v; cd := cd v; ecs_src := None; extra_opts_hash := extra_opts_hash v |}.

Definition set_ecs (v : QueryVariant) (e : EcsSrc) : QueryVariant :=
  {| has_opt := has_opt v; do_bit := do_bit v; edns_version := edns_version v;
     rd := rd v; ad := ad v; cd := cd v; ecs_src := Some e; extra_opts_hash := extra_opts_hash v |}.

Lemma edns_variant_keep q os rdata :
  ecs_complete os ->
  edns_variant (with_rdata q rdata) (keep os) = clear_ecs (edns_variant q os).
Proof.
  intros Hc. unfold edns_variant, read_opts. rewrite read_opts_keep.
  pose proof (read_opts_codes os None [] Hc) as Hs.
  destruct (foldl opts_step _ os) as [e c]. cbn [snd] in Hs. by rewrite Hs.
Qed.

Lemma edns_variant_inject q os rdata s :
  ecs_complete os -> subnet_ok s ->
  edns_variant (with_rdata q rdata) (keep os ++ [(ECS_OPTION_CODE, subnet_data s)])
  = set_ecs (edns_variant q os) (subnet_src s).
Proof.
  intros Hc Hs. unfold edns_variant, read_opts. rewrite foldl_app, read_opts_keep.
  pose proof (read_opts_codes os None [] Hc) as Hcodes. pose proof (length_subnet_data s Hs).
  cbn [foldl]. unfold opts_step at 1.
  rewrite decide_True by (split; [done|cbn [snd]; lia]). cbn [fst snd].
  rewrite ecs_of_subnet by done.
  destruct (foldl opts_step _ os) as [e c]. cbn [snd] in Hcodes. by rewrite Hcodes.
Qed.

(** Stripping the client subnet.  For a query whose OPT record carries the
    options [os] (plus up to three stray bytes), [strip_edns_ecs] returns nothing
    when there is no subnet option; otherwise it returns the same query with exactly
    the other options, in order and byte for byte, and a correct RDLEN.  Stripping
    that query again changes nothing, and its cache variant is the original one with
    the subnet cleared and every other field kept. *)
Theorem strip_edns_ecs_correct q os junk :
  edns_ok q -> Forall opt_ok os -> length junk < 4 -> o_rdata q = encode_opts os ++ junk ->
  ecs_complete os ->
  let q' := with_rdata q (encode_opts (keep os)) in
  strip_edns_ecs (encode_edns q) = Ret (if has_ecs os then Some (encode_edns q') else None) /\
  strip_edns_ecs (encode_edns q') = Ret None /\
  extract_variant (encode_edns q) (length (edns_prefix q)) = Ret (edns_variant q os) /\
  extract_variant (encode_edns q') (length (edns_prefix q)) = Ret (clear_ecs (edns_variant q os)).
Proof.
  intros Hq Hos Hj Hr Hc q'. split; [by eapply strip_edns_ecs_eq|].
  assert (edns_ok q') as Hq'.
  { pose proof (length_keep os). assert (Hrl : (Z.of_nat (length (o_rdata q)) < 65536)%Z) by apply Hq.
    assert (Hrb : bytes_ok (o_rdata q)) by apply Hq. rewrite Hr in *.
    rewrite length_app in Hrl. apply Forall_app in Hrb as [? ?].
    apply edns_with_rdata_ok; [done|by apply keep_ok|lia]. }
  assert (o_rdata q' = encode_opts (keep os) ++ []) as Hr' by (by rewrite app_nil_r).
  split; [|split].
  - rewrite (strip_edns_ecs_eq q' (keep os) []); [|auto using keep_opt_ok..].
    by rewrite keep_no_ecs.
  - by eapply extract_variant_edns.
  - erewrite <- edns_variant_keep by done.
    apply (extract_variant_edns q' (keep os) []); auto using keep_opt_ok.
Qed.

(** Injecting a configured subnet.  On a query with an OPT record carrying
    the options [os], [inject_or_replace_ecs] keeps the other options, removes every
    client-supplied subnet and appends one option for the configured subnet; the
    result's cache variant is the original one with the subnet replaced by the
    configured prefix (masked to its length), whatever the client sent. *)
Theorem inject_or_replace_ecs_correct q os junk s :
  edns_ok q -> Forall opt_ok os -> length junk < 4 -> o_rdata q = encode_opts os ++ junk ->
  ecs_complete os -> subnet_ok s ->
  (Z.of_nat (length (encode_opts (keep os))) + 24 < 65536)%Z ->
  let q' := with_rdata q (encode_opts (keep os ++ [(ECS_OPTION_CODE, subnet_data s)])) in
  inject_or_replace_ecs (encode_edns q) s = Ret (Some (encode_edns q')) /\
  extract_variant (encode_edns q') (length (edns_prefix q))
  = Ret (set_ecs (edns_variant q os) (subnet_src s)).
Proof.
  intros Hq Hos Hj Hr Hc Hs Hl q'. pose proof (length_subnet_data s Hs) as Hd.
  pose proof (length_encode_opt (ECS_OPTION_CODE, subnet_data s)) as Hlo. cbn [snd] in Hlo.
  assert (encode_opts (keep os ++ [(ECS_OPTION_CODE, subnet_data s)])
    = encode_opts (keep os) ++ encode_opt (ECS_OPTION_CODE, subnet_data s)) as He.
  { rewrite encode_opts_app. cbn [encode_opts]. by rewrite app_nil_r. }
  split.
  - unfold q'. rewrite He.
    apply (inject_or_replace_ecs_eq q os junk); auto using encode_ecs_option_eq. lia.
  - rewrite <- (edns_variant_inject q os (o_rdata q')) by done.
    apply (extract_variant_edns q' _ []).
    + apply edns_with_rdata_ok; [done| |rewrite He; len]. rewrite He.
      assert (Hrb : bytes_ok (o_rdata q)) by apply Hq. rewrite Hr in Hrb.
      apply Forall_app in Hrb as [? ?]. apply Forall_app; split; [by apply keep_ok|].
      unfold encode_opt. pose proof (subnet_data_ok s Hs). bytes.
    + apply Forall_app; split; [by apply keep_opt_ok|]. apply Forall_singleton.
      split; [unfold u_ok, ECS_OPTION_CODE; cbn [fst]; lia|cbn [snd]; lia].
    + simpl; lia.
    + by rewrite app_nil_r.
Qed.

(** A query for [example.com] AAAA with a cookie and an IPv4 /24 client subnet. *)
Definition sample_query : edns_query :=
  mkEdnsQuery [0x12; 0x34; 0x01; 0x20; 0; 1; 0; 0; 0; 0; 0; 1]%Z
    [[101; 120; 97; 109; 112; 108; 101]; [99; 111; 109]]%Z [0; 28; 0; 1]%Z
    [0x10; 0; 0; 0; 0x80; 0]%Z
    [0; 10; 0; 8; 1; 2; 3; 4; 5; 6; 7; 8; 0; 8; 0; 7; 0; 1; 24; 0; 203; 0; 113]%Z [].

Definition sample_opts : list opt :=
  [(10, [1; 2; 3; 4; 5; 6; 7; 8]); (8, [0; 1; 24; 0; 203; 0; 113])]%Z.

Lemma sample_query_ok : edns_ok sample_query.
Proof.
  unfold edns_ok. split_and!; try (apply bytes_check; by vm_compute); try (by vm_compute).
  - apply labels_check. by vm_compute.
  - by apply Nat.leb_le.
Defined.

Lemma sample_opts_ok : Forall opt_ok sample_opts /\ ecs_complete sample_opts.
Proof.
  split; repeat constructor; unfold opt_ok, u_ok; simpl; try lia; by intros [=].
Defined.

Lemma strip_edns_ecs_witness :
  exists p v, strip_edns_ecs (encode_edns sample_query) = Ret (Some p) /\
    extract_variant p 29 = Ret v /\ ecs_src v = None /\ length p = 52.
Proof.
  destruct (strip_edns_ecs_correct sample_query sample_opts [] sample_query_ok
    (proj1 sample_opts_ok)) as (H & _ & _ & Hv); [simpl; lia|done|apply sample_opts_ok|].
  do 2 eexists. split; [exact H|]. split; [exact Hv|]. by vm_compute.
Defined.

Lemma inject_or_replace_ecs_witness :
  exists p v, inject_or_replace_ecs (encode_edns sample_query)
      (mkEcsSubnet (V4 [198; 51; 100; 77]%Z) 22) = Ret (Some p) /\
    extract_variant p 29 = Ret v /\
    ecs_src v = Some {| ecs_addr := replicate 12 0%Z ++ [198; 51; 100; 0]%Z; ecs_prefix_len := 22 |}.
Proof.
  destruct (inject_or_replace_ecs_correct sample_query sample_opts []
    (mkEcsSubnet (V4 [198; 51; 100; 77]%Z) 22) sample_query_ok
    (proj1 sample_opts_ok)) as (H & Hv); [simpl; lia|done|apply sample_opts_ok| |by vm_compute|].
  - split; [done|]. split; [apply bytes_check; by vm_compute|simpl; lia].
  - do 2 eexists. split; [exact H|]. split; [exact Hv|]. by vm_compute.
Defined.
