(* ===== verification/DnsMessage.v ===== *)
(** * Correctness of the message layer

    The properties of the DNS wire-format code as a whole: parsing of incoming
    queries, names, records, TTLs, truncation.  The proofs compose the
    component lemmas of the files this one requires. *)

From S2P Require Import Prelude Hasher DnsName DnsQuery Utf8 DnsQname DnsRecords DnsEdns Ecs.

(** ** Accepted queries *)

(** What [parse_query_fast] reports about the question [ls], [tail] of [p]. *)
Definition fast_info (p : list Z) (ls : list (list Z)) (tail : list Z) : FastQueryInfo :=
  {| fast_id := be16 p 0;
     fast_qtype := be16 tail 0;
     fast_question_end := 12 + length (encode_name ls) + 4;
     fast_qname_wire_hash := Fnv1a.write Fnv1a.new (encode_name (lower_name ls));
     fast_qname_wire_hash_end := length (encode_name ls) |}.

(** C10: query parsing is exact.  On any byte string [parse_query_fast]
    returns without panicking, and it returns [Ok] precisely on packets with QR=0,
    opcode QUERY and QDCOUNT=1 whose question is an uncompressed name of 1..63-byte
    labels, at most 255 bytes in all, followed by QTYPE and QCLASS; the reported
    id, type and offsets are those of the packet, and the reported hash is the
    FNV-1a hash of the case-folded wire name. *)
Theorem parse_query_fast_correct p :
  bytes_ok p ->
  returns (parse_query_fast p) /\
  forall fi, parse_query_fast p = Ret (Ok fi) <->
    query_header p /\ exists ls tail, question_of p ls tail /\ fi = fast_info p ls tail.
Proof.
  intros Hp. split; [apply parse_query_fast_total|]. intros fi. split.
  - apply parse_query_fast_sound, Hp.
  - intros (Hh & ls & tail & Hq & ->). by apply parse_query_fast_complete.
Qed.

(** The routing name.  For every accepted query [qname_from_question]
    succeeds and yields the lower-cased labels joined by dots; two accepted queries
    whose names agree up to ASCII case get the same routing name, wherever their
    questions end. *)
Theorem qname_from_question_correct p1 p2 ls1 ls2 t1 t2 :
  query_header p1 -> question_of p1 ls1 t1 -> query_header p2 -> question_of p2 ls2 t2 ->
  lower_name ls1 = lower_name ls2 ->
  qname_from_question p1 (12 + length (encode_name ls1) + 4) = Ret (Ok (qname_text ls1)) /\
  qname_from_question p2 (12 + length (encode_name ls2) + 4)
  = qname_from_question p1 (12 + length (encode_name ls1) + 4).
Proof.
  intros H1 Q1 H2 Q2 Hl. rewrite !(qname_from_question_of _ _ _ H1 Q1), (qname_from_question_of _ _ _ H2 Q2).
  split; [done|]. destruct Q1 as (? & ? & _ & _ & _ & Hl1 & _), Q2 as (? & ? & _ & _ & _ & Hl2 & _).
  by rewrite (qname_text_case ls1 ls2).
Qed.

(** Name skipping is exact.  [skip_name] returns on every input, and
    returns [Some e] precisely when a wire-format name (labels ended by the root
    label or by a compression pointer) starts at [pos] and ends just before [e]. *)
Theorem skip_name_correct p pos :
  bytes_ok p ->
  returns (skip_name p pos) /\
  forall e, skip_name p pos = Ret (Some e) <-> wire_name p pos e.
Proof. intros. split; [apply skip_name_total|]. intros e. by apply skip_name_spec. Qed.

(** Question comparison.  On two encoded questions
    [questions_match] returns true exactly when the names agree label by label up
    to ASCII case and QTYPE and QCLASS agree byte for byte. *)
Theorem questions_match_correct ls1 ls2 t1 t2 :
  Forall label_ok ls1 -> Forall label_ok ls2 -> length t1 = 4 -> length t2 = 4 ->
  questions_match (encode_name ls1 ++ t1) (encode_name ls2 ++ t2)
  = Ret (bool_decide (lower_name ls1 = lower_name ls2 /\ t1 = t2)).
Proof. apply questions_match_encoded. Qed.

(** ** Time to live *)

(** C38: the single TTL pass computes the reference result.  For every
    packet, [effective_ttl_and_offsets] answers [None] unless the packet is a
    NOERROR or NXDOMAIN reply all of whose records parse, and otherwise gives the
    minimum clamped answer TTL (or, without answers, RFC 2308's SOA-derived negative
    TTL capped at three hours) with the offset of every non-OPT TTL field. *)
Theorem effective_ttl_and_offsets_correct p qe nodata_ttl min_ttl max_ttl :
  bytes_ok p ->
  effective_ttl_and_offsets p qe nodata_ttl min_ttl max_ttl
  = let! good := is_good_reply p in
    if decide (good = true /\ qe <= length p) then
      let? rrs := parse_rrs (Z.to_nat (be16 p 6) + Z.to_nat (be16 p 8) + Z.to_nat (be16 p 10)) p qe in
      Ret (Some (effective_ttl_ref p nodata_ttl min_ttl max_ttl
        (Z.to_nat (be16 p 6)) (Z.to_nat (be16 p 8)) rrs))
    else Ret None.
Proof. apply effective_ttl_eq. Qed.

Lemma effective_ttl_inv p qe nd mn mx e offs :
  bytes_ok p -> effective_ttl_and_offsets p qe nd mn mx = Ret (Some (e, offs)) ->
  exists n rrs, parse_rrs n p qe = Ret (Some rrs) /\ qe <= length p /\
    (e, offs) = effective_ttl_ref p nd mn mx (Z.to_nat (be16 p 6)) (Z.to_nat (be16 p 8)) rrs.
Proof.
  intros Hp. rewrite effective_ttl_eq by done. rewrite is_good_reply_eq. cbn [obind].
  case_decide as H; [|done]. intros Hr. inv_ret. eexists _, _. split; [done|]. split; [tauto|done].
Qed.

Lemma fields_ok_fmap lo n (f : Z * Z -> Z) offs :
  fields_ok lo n offs -> fields_ok lo n ((fun q => (fst q, f q)) <$> offs).
Proof.
  intros [Hs Hf]. split.
  - clear Hf. induction Hs as [|q l Hs IH Hq]; constructor; [done|].
    apply Forall_fmap. eapply (list.Forall_impl _ _ _ Hq). done.
  - apply Forall_fmap. eapply (list.Forall_impl _ _ _ Hf). done.
Qed.

Lemma ttl_ref_fields p lo n nd mn mx an ns rrs :
  fields_ok lo n (ttl_pairs rrs) -> fields_ok lo n (snd (effective_ttl_ref p nd mn mx an ns rrs)).
Proof. intros H. unfold effective_ttl_ref. case_decide; by apply fields_ok_fmap. Qed.

Lemma soa_ttl_nonneg p rrs m :
  bytes_ok p -> Forall (fun rr : rr5 => 0 <= rr.1.1.2)%Z rrs -> soa_ttl_of p rrs = Some m -> (0 <= m)%Z.
Proof.
  intros Hp Hr. induction Hr as [|[[[[t c] ttl] rd] re] rrs Ht Hr IH]; [done|]. simpl in *.
  case_decide; [|done]. unfold soa_minimum_of.
  destruct (extract_soa_minimum p rd re) as [[v|]| |] eqn:He; try done.
  intros [= <-]. unfold extract_soa_minimum in He. inv_ret. case_decide; inv_ret.
  unfold u32_at in *. inv_ret.
  repeat match goal with H : idx _ _ = Ret _ |- _ => apply idx_Ret_inv in H end.
  assert (0 <= from_be [a1; a2; a3; a4])%Z; [|lia]. apply from_be_bound.
  rewrite Forall_lookup in Hp. repeat (apply Forall_cons; split); eauto.
Qed.

(** ** Re-parsing a patched packet *)

Lemma nthb_eq p p' j : p' !! j = p !! j -> nthb p' j = nthb p j.
Proof. intros H. unfold nthb. by rewrite !nth_lookup, H. Qed.

(** The record as read from [p'], whose TTL bytes may differ from the original's. *)
Definition retime (p' : list Z) (rr : rr5) : rr5 :=
  let '(t, c, ttl, rd, re) := rr in
  (t, c, if decide (t = 41)%Z then ttl else be32 p' (rd - 6), rd, re).

(** [j] lies in the TTL field of a non-OPT record. *)
Definition in_ttl_field (rrs : list rr5) (j : nat) : Prop :=
  Exists (fun rr : rr5 => let '(t, _, _, rd, _) := rr in t <> 41%Z /\ rd - 6 <= j < rd - 2) rrs.

Lemma parse_rrs_starts n p pos rrs :
  parse_rrs n p pos = Ret (Some rrs) ->
  Forall (fun rr : rr5 => pos + 10 < rr.1.2) rrs.
Proof.
  revert pos rrs. induction n as [|n IH]; intros pos rrs; simpl; intros H; inv_ret; [done|].
  destruct a as [[[[t c] ttl] rd] re]. apply parse_rr_inv in Ha as (ne & _ & -> & _ & ? & _ & _ & _ & ->).
  apply Forall_cons; split; [cbn; lia|]. cbn [snd] in *. apply IH in Ha0.
  eapply (list.Forall_impl _ _ _ Ha0). cbn. lia.
Qed.

Lemma parse_rr_retime p p' pos t c ttl rd re :
  bytes_ok p -> bytes_ok p' -> length p' = length p ->
  parse_rr p pos = Ret (Some (t, c, ttl, rd, re)) ->
  (forall j, pos <= j < rd -> rd - 6 <= j < rd - 2 \/ p' !! j = p !! j) ->
  (t = 41%Z -> forall j, rd - 6 <= j < rd - 2 -> p' !! j = p !! j) ->
  parse_rr p' pos = Ret (Some (retime p' (t, c, ttl, rd, re))).
Proof.
  intros Hp Hp' Hlen Hrr Hag H41.
  apply parse_rr_inv in Hrr as (ne & Hne & -> & Hre & Hlt & -> & -> & -> & ->).
  assert (skip_name p' pos = Ret (Some ne)) as Hne'.
  { apply skip_name_spec; [done|]. apply skip_name_spec in Hne; [|done].
    eapply wire_name_local; [done|]. intros j Hj. destruct (Hag j); [lia|lia|done]. }
  assert (forall j, pos <= j < ne + 4 \/ ne + 8 <= j < ne + 10 -> nthb p' j = nthb p j) as Hn.
  { intros j Hj. apply nthb_eq. destruct (Hag j); [lia|lia|done]. }
  unfold parse_rr. rewrite Hne'. cbn [obind_opt]. rewrite decide_False by lia. in_range.
  assert (be16 p' ne = be16 p ne) as -> by (unfold be16; by rewrite !Hn by lia).
  assert (be16 p' (ne + 2) = be16 p (ne + 2)) as -> by (unfold be16; by rewrite !Hn by lia).
  assert (be16 p' (ne + 8) = be16 p (ne + 8)) as -> by (unfold be16; by rewrite !Hn by lia).
  rewrite decide_False by lia. do 2 f_equal. unfold retime.
  replace (ne + 10 - 6) with (ne + 4) in * by lia. case_decide as Ht; [|done].
  do 3 f_equal. unfold be32.
  rewrite !(nthb_eq p p') by (apply H41; [done|lia]). done.
Qed.

Lemma parse_rrs_retime n p p' pos rrs :
  bytes_ok p -> bytes_ok p' -> length p' = length p ->
  parse_rrs n p pos = Ret (Some rrs) ->
  (forall j, pos <= j -> ~ in_ttl_field rrs j -> p' !! j = p !! j) ->
  parse_rrs n p' pos = Ret (Some (retime p' <$> rrs)).
Proof.
  intros Hp Hp' Hlen. revert pos rrs. induction n as [|n IH]; intros pos rrs; simpl; intros H Hag;
    inv_ret; [done|].
  destruct a as [[[[t c] ttl] rd] re]. cbn [snd] in *.
  pose proof (parse_rrs_starts _ _ _ _ Ha0) as Hst. rewrite Forall_forall in Hst.
  assert (forall j, j < re -> ~ in_ttl_field a0 j) as Hlate.
  { intros j Hj [x [Hx Hin]]%Exists_exists. specialize (Hst x Hx).
    destruct x as [[[[? ?] ?] ?] ?]. cbn in *. lia. }
  pose proof (parse_rr_inv _ _ _ _ _ _ _ Ha) as (ne & _ & Hrd & Hre & Hlt & _ & _ & _ & Hre').
  rewrite (parse_rr_retime p p' pos t c ttl rd re); [|done..| |].
  - cbn [obind_opt retime snd]. rewrite (IH re a0); [done|done|].
    intros j Hj Hn. apply Hag; [lia|]. intros [Hx|Hx]%Exists_cons; [cbn in Hx; lia|done].
  - intros j Hj. destruct (decide (rd - 6 <= j < rd - 2)); [by left|right].
    apply Hag; [lia|]. intros [Hx|Hx]%Exists_cons; [cbn in Hx; lia|].
    eapply Hlate; [|done]. lia.
  - intros Ht j Hj. apply Hag; [lia|]. intros [Hx|Hx]%Exists_cons; [cbn in Hx; tauto|].
    eapply Hlate; [|done]. lia.
Qed.

Lemma bytes_ok_patch p offs el : bytes_ok p -> bytes_ok (patch_ttls_at p offs el).
Proof.
  revert p. induction offs as [|[o t] offs IH]; intros p Hp; [done|].
  cbn [patch_ttls_at]. apply IH. case_decide; [|done]. unfold splice.
  apply Forall_app; split; [by apply Forall_take|].
  apply Forall_app; split; [apply to_be_ok|by apply Forall_drop].
Qed.

(** The record with its stored TTL reduced by [elapsed]; OPT records are untouched. *)
Definition age (stored : Z -> Z) (elapsed : Z) (rr : rr5) : rr5 :=
  let '(t, c, ttl, rd, re) := rr in
  (t, c, if decide (t = 41)%Z then ttl else sat_sub (stored ttl) elapsed, rd, re).

Lemma elem_of_ttl_pairs rrs t c ttl rd re :
  (t, c, ttl, rd, re) ∈ rrs -> t <> 41%Z -> (wrap 32 (Z.of_nat (rd - 6)), ttl) ∈ ttl_pairs rrs.
Proof.
  intros Hin Ht. unfold ttl_pairs. apply list_elem_of_bind.
  exists (t, c, ttl, rd, re). split; [|done]. rewrite decide_True by done. by apply list_elem_of_singleton.
Qed.

Lemma ttl_pairs_elem rrs o ttl :
  (o, ttl) ∈ ttl_pairs rrs -> exists t c rd re, (t, c, ttl, rd, re) ∈ rrs /\ t <> 41%Z /\
    o = wrap 32 (Z.of_nat (rd - 6)).
Proof.
  unfold ttl_pairs. intros ([[[[t c] ttl'] rd] re] & Hx & Hin)%list_elem_of_bind.
  case_decide; [|by apply not_elem_of_nil in Hx]. apply list_elem_of_singleton in Hx as [= -> ->].
  repeat eexists; eauto.
Qed.

Lemma parse_rrs_elem n p pos rrs t c ttl rd re :
  bytes_ok p -> parse_rrs n p pos = Ret (Some rrs) -> (t, c, ttl, rd, re) ∈ rrs ->
  u_ok 32 ttl /\ 10 <= rd <= length p.
Proof.
  intros Hp. revert pos rrs. induction n as [|n IH]; intros pos rrs; simpl; intros H Hin; inv_ret.
  - by apply not_elem_of_nil in Hin.
  - apply elem_of_cons in Hin as [<- |Hin]; [|by eapply IH].
    apply parse_rr_inv in Ha as (ne & _ & -> & ? & _ & _ & _ & -> & ->).
    split; [by apply be32_bound|lia].
Qed.

(** The TTL value stored for a record of TTL [ttl] in a response of entry TTL [e]. *)
Definition stored_ttl (p : list Z) (mn mx e ttl : Z) : Z :=
  if decide (be16 p 6 = 0)%Z then e else clamp_ttl mn mx ttl.

Lemma effective_ttl_stored p nd mn mx ns rrs e offs :
  bytes_ok p ->
  (e, offs) = effective_ttl_ref p nd mn mx (Z.to_nat (be16 p 6)) ns rrs ->
  offs = (fun q => (fst q, stored_ttl p mn mx e (snd q))) <$> ttl_pairs rrs.
Proof.
  intros Hp. unfold effective_ttl_ref, stored_ttl. pose proof (be16_bound p 6 Hp).
  destruct (decide (be16 p 6 = 0%Z)) as [H0|H0].
  - rewrite decide_True by lia. by intros [= -> ->].
  - rewrite decide_False by lia. by intros [= -> ->].
Qed.

Lemma clamp_u32 mn mx ttl : u_ok 32 mn -> u_ok 32 mx -> u_ok 32 ttl -> u_ok 32 (clamp_ttl mn mx ttl).
Proof. unfold u_ok, clamp_ttl. intros. case_decide; lia. Qed.

Lemma entry_ttl_u32 p nd mn mx ns rrs e offs qe n :
  bytes_ok p -> u_ok 32 nd -> u_ok 32 mn -> u_ok 32 mx ->
  parse_rrs n p qe = Ret (Some rrs) ->
  (e, offs) = effective_ttl_ref p nd mn mx (Z.to_nat (be16 p 6)) ns rrs -> u_ok 32 e.
Proof.
  intros Hp Hnd Hmn Hmx Hr. unfold effective_ttl_ref.
  assert (Hrr : Forall (fun rr : rr5 => u_ok 32 rr.1.1.2) rrs).
  { apply Forall_forall. intros [[[[t c] ttl] rd] re] Hin. cbn. by eapply parse_rrs_elem. }
  case_decide as H0; intros [= -> _].
  - apply clamp_u32; [done..|].
    destruct (soa_ttl_of p (take ns rrs)) as [m|] eqn:Hm; cbn [default]; unfold u_ok in *; [|lia].
    apply soa_ttl_nonneg in Hm; [unfold default, id; lia|done|]. apply Forall_take.
    eapply (list.Forall_impl _ _ _ Hrr). cbn. lia.
  - destruct (list_min _) as [m|] eqn:Hm; [|done]. cbn. apply list_min_In in Hm.
    apply list_elem_of_fmap in Hm as ([o ttl] & -> & Hin).
    apply ttl_pairs_elem in Hin as (t & c & rd & re & Hin & _ & _).
    apply clamp_u32; [done..|]. rewrite Forall_forall in Hrr.
    apply (Hrr (t, c, ttl, rd, re)), (subseteq_take (Z.to_nat (be16 p 6))), Hin.
Qed.

(** C37: serving a cached response.  If a response was stored with entry TTL
    [e] and offsets [offs], then after [elapsed] seconds [patch_ttls_at] yields a
    packet of the same length, identical outside the TTL fields, that parses to the
    same records, in which every non-OPT record's TTL is the stored (clamped) TTL
    minus [elapsed], stopping at zero. *)
Theorem served_ttls_correct p qe nodata_ttl min_ttl max_ttl e offs elapsed n :
  bytes_ok p -> (Z.of_nat (length p) < 2 ^ 32)%Z ->
  u_ok 32 nodata_ttl -> u_ok 32 min_ttl -> u_ok 32 max_ttl -> (0 <= elapsed)%Z ->
  n = Z.to_nat (be16 p 6) + Z.to_nat (be16 p 8) + Z.to_nat (be16 p 10) ->
  effective_ttl_and_offsets p qe nodata_ttl min_ttl max_ttl = Ret (Some (e, offs)) ->
  exists rrs, parse_rrs n p qe = Ret (Some rrs) /\
    let p' := patch_ttls_at p offs elapsed in
    length p' = length p /\
    (forall j, ~ in_ttl_field rrs j -> p' !! j = p !! j) /\
    parse_rrs n p' qe = Ret (Some (age (stored_ttl p min_ttl max_ttl e) elapsed <$> rrs)).
Proof.
  intros Hp Hlen Hnd Hmn Hmx Hel -> He. rewrite effective_ttl_eq in He by done.
  rewrite is_good_reply_eq in He. cbn [obind] in He. case_decide as Hg; [|done]. inv_ret.
  rename a into rrs, Ha into Hr, He into Href. symmetry in Href. exists rrs. split; [done|].
  assert (u_ok 32 e) as Hue 
    by (eapply (entry_ttl_u32 p nodata_ttl min_ttl max_ttl _ rrs e offs qe); done).
  pose proof (effective_ttl_stored _ _ _ _ _ _ _ _ Hp Href) as Hoffs.
  assert (Hf : fields_ok 0 (length p) offs).
  { rewrite Hoffs. apply fields_ok_fmap. eapply fields_ok_weaken; [|by eapply parse_rrs_fields]. lia. }
  set (p' := patch_ttls_at p offs elapsed).
  assert (Hout : forall j, ~ in_ttl_field rrs j -> p' !! j = p !! j).
  { intros j Hj. apply lookup_patch_out. rewrite Hoffs. intros q Hq.
    apply list_elem_of_fmap in Hq as ([o ttl] & -> & Hin).
    apply ttl_pairs_elem in Hin as (t & c & rd & re & Hin & Ht & ->). cbn [fst].
    destruct (parse_rrs_elem _ _ _ _ _ _ _ _ _ Hp Hr Hin) as [_ Hrd].
    unfold wrap. rewrite Z.mod_small, Nat2Z.id by lia.
    destruct (decide (rd - 6 <= j < rd - 2)); [|lia]. destruct Hj. apply Exists_exists.
    by exists (t, c, ttl, rd, re). }
  split; [apply length_patch_ttls_at|]. split; [done|].
  rewrite (parse_rrs_retime _ p p' qe rrs); [|done|by apply bytes_ok_patch|apply length_patch_ttls_at|done|by auto].
  do 2 f_equal. apply list_fmap_ext. intros i [[[[t c] ttl] rd] re] Hi%list_elem_of_lookup_2.
  unfold retime, age. destruct (decide (t = 41%Z)) as [Ht|Ht]; [reflexivity|]. do 3 f_equal.
  destruct (parse_rrs_elem _ _ _ _ _ _ _ _ _ Hp Hr Hi) as [Hut Hrd].
  assert (Hw : wrap 32 (Z.of_nat (rd - 6)) = Z.of_nat (rd - 6)) by (unfold wrap; apply Z.mod_small; lia).
  rewrite <- (Nat2Z.id (rd - 6)). apply patch_ttls_read; [done| |done|].
  - rewrite Hoffs. apply list_elem_of_fmap. exists (wrap 32 (Z.of_nat (rd - 6)), ttl).
    split; [cbn; by rewrite Hw|]. by eapply elem_of_ttl_pairs.
  - unfold stored_ttl. destruct (decide (be16 p 6 = 0%Z)); [exact Hue|]. by apply clamp_u32.
Qed.

(** Bounds of cached lifetimes.  With [min_ttl <= max_ttl] (or no
    maximum), every stored TTL of a response with answers lies in the configured
    range; an entry never outlives one of its answer records, and outlives none of
    its own stored answer TTLs; a negative entry lives at most three hours, or the
    configured minimum when that is longer. *)
Theorem entry_ttl_bounds p qe nodata_ttl min_ttl max_ttl e offs n rrs :
  bytes_ok p -> (0 <= min_ttl)%Z -> (max_ttl = 0 \/ min_ttl <= max_ttl)%Z ->
  effective_ttl_and_offsets p qe nodata_ttl min_ttl max_ttl = Ret (Some (e, offs)) ->
  n = Z.to_nat (be16 p 6) + Z.to_nat (be16 p 8) + Z.to_nat (be16 p 10) ->
  parse_rrs n p qe = Ret (Some rrs) ->
  (be16 p 6 = 0%Z -> (e <= Z.max 10800 min_ttl)%Z) /\
  (be16 p 6 <> 0%Z ->
    (forall o t, (o, t) ∈ offs -> (min_ttl <= t)%Z /\ (0 < max_ttl -> t <= max_ttl)%Z) /\
    forall t c ttl rd re, (t, c, ttl, rd, re) ∈ take (Z.to_nat (be16 p 6)) rrs -> t <> 41%Z ->
      (e <= Z.max min_ttl ttl)%Z /\ (0 < max_ttl -> e <= max_ttl)%Z).
Proof.
  intros Hp Hmn Hmx He -> Hr. rewrite effective_ttl_eq in He by done.
  rewrite is_good_reply_eq in He. cbn [obind] in He. case_decide as Hg; [|done]. clear Hg.
  rewrite Hr in He. cbn [obind_opt] in He. injection He as He. symmetry in He.
  pose proof (effective_ttl_stored _ _ _ _ _ _ _ _ Hp He) as Hoffs.
  pose proof (be16_bound p 6 Hp) as Hb. unfold effective_ttl_ref in He. split; intros H6.
  - rewrite decide_True in He by lia. injection He as -> _. unfold clamp_ttl. case_decide; lia.
  - rewrite decide_False in He by lia. injection He as He _. split.
    + intros o t Hin. rewrite Hoffs in Hin. apply list_elem_of_fmap in Hin as ([o' raw] & [= -> ->] & _).
      unfold stored_ttl. rewrite decide_False by done. unfold clamp_ttl. case_decide; lia.
    + intros t c ttl rd re Hin Ht. pose proof (elem_of_ttl_pairs _ _ _ _ _ _ Hin Ht) as Hp2.
      destruct (list_min _) as [m|] eqn:Hm.
      * cbn in He. subst m. assert (e <= clamp_ttl min_ttl max_ttl ttl)%Z as Hle.
        { eapply list_min_le; [done|]. apply list_elem_of_fmap. by eexists (_, ttl). }
        revert Hle. unfold clamp_ttl. case_decide; lia.
      * destruct (ttl_pairs _); [by apply not_elem_of_nil in Hp2|done].
Qed.

(** ** Truncation *)

Lemma nthb_tc_stub_2 resp qe edns : 12 <= length resp -> nthb (tc_stub resp qe edns) 2 = Z.lor (nthb resp 2) 2.
Proof.
  intros H. destruct (header_split resp) as (a&b&c&d&e&f&g&h&i&j&k&l&r&->); [lia|]. done.
Qed.

Lemma land_lor_2 b : Z.land (Z.lor b 2) 2 = 2%Z.
Proof.
  rewrite Z.land_lor_distr_l. change (Z.land 2 2) with 2%Z.
  apply Z.bits_inj'. intros i Hi. rewrite Z.lor_spec, Z.land_spec.
  destruct (Z.testbit 2 i); [apply orb_true_r|by rewrite andb_false_r].
Qed.

(** UDP truncation.  For every accepted query and every response at least
    as long as its question, [maybe_truncate_for_udp] returns a packet within the
    client's payload limit (never below 512).  A response within the limit is
    returned unchanged; a larger one becomes a stub with the same ID and the same
    question bytes, TC set, empty answer and authority sections, and an OPT record
    exactly when the client sent one. *)
Theorem maybe_truncate_correct resp query ls tail :
  bytes_ok query -> query_header query -> question_of query ls tail ->
  let qe := 12 + length (encode_name ls) + 4 in
  qe <= length resp ->
  exists limit edns out,
    client_udp_payload_size query qe = Ret limit /\ (512 <= limit)%Z /\
    has_opt_record query qe = Ret edns /\
    maybe_truncate_for_udp resp query = Ret out /\
    (Z.of_nat (length out) <= limit)%Z /\
    ((Z.of_nat (length resp) <= limit)%Z -> out = resp) /\
    ((limit < Z.of_nat (length resp))%Z ->
      is_truncated out = Ret true /\ take 2 out = take 2 resp /\
      be16 out 6 = 0%Z /\ be16 out 8 = 0%Z /\ be16 out 10 = (if edns then 1 else 0)%Z /\
      take (qe - 12) (drop 12 out) = take (qe - 12) (drop 12 resp) /\
      drop qe out = if edns then TC_OPT_RR else []).
Proof.
  intros Hq Hh Hqo qe Hlen. pose proof (question_end_of _ _ _ Hq Hqo) as Hqe.
  destruct Hqo as (? & ? & _ & _ & _ & _ & Hlim).
  destruct (client_udp_payload_size_spec query qe) as (limit & Hm & H512).
  destruct (find_opt_record_total query qe) as [o Ho].
  set (edns := match o with Some _ => true | None => false end).
  assert (has_opt_record query qe = Ret edns) as He by (unfold has_opt_record; by rewrite Ho).
  exists limit, edns. rewrite (maybe_truncate_eq resp query qe limit edns) by (done || lia).
  eexists. do 4 (split; [done|]). case_decide as Hfit.
  - split; [done|]. split; [done|lia].
  - rewrite (decide_False (P := length resp < qe)) by lia. split.
    { rewrite length_tc_stub by lia. destruct edns; lia. }
    split; [lia|]. intros _.
    rewrite is_truncated_eq, nthb_tc_stub_2, land_lor_2, length_tc_stub by lia.
    split; [by rewrite bool_decide_true by (split; [destruct edns; lia|done])|].
    assert (Hd : drop 12 (tc_stub resp qe edns)
      = take (qe - 12) (drop 12 resp) ++ (if edns then TC_OPT_RR else [])).
    { destruct (header_split resp) as (a&b&c&d&e&f&g&h&i&j&k&l&r&->); [lia|]. by destruct edns. }
    rewrite Hd. rewrite take_app_length' by len. split_and!.
    all: try by (destruct (header_split resp) as (a&b&c&d&e&f&g&h&i&j&k&l&r&->); [lia|]; destruct edns).
    replace qe with (12 + (qe - 12)) at 1 by lia. rewrite <- drop_drop, Hd.
    by rewrite drop_app_length' by len.
Qed.

(** ** Concrete instances *)

Definition sample_packet : list Z := encode_edns sample_query.

Lemma sample_packet_ok :
  bytes_ok sample_packet /\ query_header sample_packet /\
  question_of sample_packet (q_name sample_query) (q_tail sample_query).
Proof.
  split; [apply bytes_check; by vm_compute|]. split; [by vm_compute|].
  exists (q_head sample_query), (drop 29 sample_packet). split; [done|].
  pose proof sample_query_ok as (_ & _ & _ & H & _). do 3 (split; [done|]). by apply Nat.leb_le.
Defined.

Lemma parse_query_fast_witness :
  parse_query_fast sample_packet
  = Ret (Ok (fast_info sample_packet (q_name sample_query) (q_tail sample_query))).
Proof.
  destruct sample_packet_ok as (Hb & Hh & Hq).
  apply (proj2 (parse_query_fast_correct sample_packet Hb)). eauto.
Defined.

(** The same query asked as "EXAMPLE.com". *)
Definition shouted_packet : list Z :=
  encode_edns (mkEdnsQuery (q_head sample_query)
    [[69; 88; 65; 77; 80; 76; 69]; [99; 111; 109]]%Z (q_tail sample_query)
    (o_fixed sample_query) (o_rdata sample_query) []).

Lemma qname_from_question_witness :
  qname_from_question shouted_packet 29 = qname_from_question sample_packet 29.
Proof.
  destruct sample_packet_ok as (Hb & Hh & Hq).
  apply (qname_from_question_correct sample_packet shouted_packet (q_name sample_query)
    [[69; 88; 65; 77; 80; 76; 69]; [99; 111; 109]]%Z (q_tail sample_query) (q_tail sample_query));
    try done.
  exists (q_head sample_query), (drop 29 shouted_packet).
  do 3 (split; [done|]). split; [apply labels_check; by vm_compute|by apply Nat.leb_le].
Defined.

Lemma skip_name_witness : wire_name sample_packet 12 25.
Proof.
  destruct sample_packet_ok as (Hb & _).
  apply (proj2 (skip_name_correct sample_packet 12 Hb)). by vm_compute.
Defined.

Lemma questions_match_witness :
  questions_match (encode_name [[69; 88]; [99]] ++ [0; 1; 0; 1])%Z (encode_name [[101; 120]; [99]] ++ [0; 1; 0; 1])%Z
  = Ret true.
Proof.
  rewrite (questions_match_correct [[69; 88]; [99]]%Z [[101; 120]; [99]]%Z);
    [done|apply labels_check; by vm_compute..|done|done].
Defined.

(** A reply for "a." with a CNAME (TTL 300) and an A record (TTL 60), and an OPT. *)
Definition sample_reply : list Z :=
  [0; 7; 0x81; 0x80; 0; 1; 0; 2; 0; 0; 0; 1;
   1; 97; 0; 0; 1; 0; 1;
   0xc0; 12; 0; 5; 0; 1; 0; 0; 1; 44; 0; 2; 0xc0; 12;
   0xc0; 12; 0; 1; 0; 1; 0; 0; 0; 60; 0; 4; 192; 0; 2; 1;
   0; 0; 41; 16; 0; 0; 0; 0; 0; 0; 0]%Z.

Lemma effective_ttl_witness :
  effective_ttl_and_offsets sample_reply 19 300 0 100 = Ret (Some (60, [(25, 100); (39, 60)]))%Z.
Proof.
  rewrite effective_ttl_and_offsets_correct by (apply bytes_check; by vm_compute). by vm_compute.
Defined.

Lemma served_ttls_witness :
  exists rrs, parse_rrs 3 sample_reply 19 = Ret (Some rrs) /\
    parse_rrs 3 (patch_ttls_at sample_reply [(25, 100); (39, 60)] 45)%Z 19
    = Ret (Some (age (stored_ttl sample_reply 0 100 60) 45 <$> rrs)) /\
    (fun rr : rr5 => rr.1.1.2) <$> (age (stored_ttl sample_reply 0 100 60) 45 <$> rrs) = [55; 15; 0]%Z.
Proof.
  destruct (served_ttls_correct sample_reply 19 300 0 100 60 [(25, 100); (39, 60)]%Z 45 3)
    as (rrs & Hr & _ & _ & Hp);
    [apply bytes_check; by vm_compute|by vm_compute|by vm_compute|by vm_compute|by vm_compute|lia
    |by vm_compute|by vm_compute|].
  exists rrs. split; [exact Hr|]. split; [exact Hp|].
  revert Hr. vm_compute. intros [= <-]. reflexivity.
Defined.

Lemma entry_ttl_bounds_witness :
  Forall (fun q => 0 <= snd q <= 100)%Z [(25, 100); (39, 60)]%Z.
Proof.
  assert (exists rrs, parse_rrs 3 sample_reply 19 = Ret (Some rrs)) as [rrs Hr]
    by (eexists; by vm_compute).
  destruct (entry_ttl_bounds sample_reply 19 300 0 100 60 [(25, 100); (39, 60)]%Z 3 rrs)
    as [_ [H _]]; [apply bytes_check; by vm_compute|lia|lia|by vm_compute|done|exact Hr|by vm_compute|].
  apply Forall_forall. intros [o t] Hin. specialize (H o t Hin). cbn. lia.
Defined.

Lemma maybe_truncate_witness :
  exists out, maybe_truncate_for_udp (take 29 sample_packet ++ replicate 5000 0%Z) sample_packet = Ret out /\
    length out = 40.
Proof.
  destruct sample_packet_ok as (Hb & Hh & Hq).
  destruct (maybe_truncate_correct (take 29 sample_packet ++ replicate 5000 0%Z) sample_packet
    (q_name sample_query) (q_tail sample_query) Hb Hh Hq) as (limit & edns & out & Hl & _ & _ & Ho & _).
  - by apply Nat.leb_le.
  - exists out. split; [exact Ho|].
    assert (maybe_truncate_for_udp (take 29 sample_packet ++ replicate 5000 0%Z) sample_packet
      = Ret out) as Ho' by exact Ho.
    clear -Ho'. vm_compute in Ho'. by injection Ho' as <-.
Defined.
