(* ===== verification/DnsBuilder.v ===== *)
(** * Locally built messages (src/src/dns/builder.rs)

    The replies PathDNS answers itself (rule actions, SERVFAIL, NOTIMP, static A
    and AAAA answers) and the synthetic queries it sends to resolve names of its
    own.  Round trips: a synthetic query parses back to the name it was built
    from, and a built answer yields its address and TTL to the readers of
    ttl.rs. *)

From S2P Require Import Prelude Hasher DnsName DnsQuery Utf8 DnsQname DnsRecords DnsEdns Ecs.

(** The [anyhow!] error sites of builder.rs. *)
Inductive builder_error :=
| InvalidDnsQuery
| EmptyLabel
| LabelTooLong
| NameTooLong.

(** ** [ResponseBuilder] *)

Module ResponseBuilder.

(** [struct ResponseBuilder { buf }] *)
Record t := mk { buf : list Z }.

(** Consecutive [buf[i] = b] writes. *)
Fixpoint store_all (l : list Z) (writes : list (nat * Z)) : outcome (list Z) :=
  match writes with
  | [] => Ret l
  | (i, b) :: writes' => let! l := store l i b in store_all l writes'
  end.

Definition from_query (query : list Z) (question_end : nat) : outcome (result builder_error t) :=
  if decide (length query < 12 \/ question_end < 12 \/ length query < question_end)
  then Ret (Err InvalidDnsQuery)
  else
    let! b := slice query 0 question_end in
    let! q2 := idx query 2 in
    let! b := store_all b
      [(2, Z.lor 0x80 (Z.land q2 0x01)); (3, 0x00%Z); (4, 0x00%Z); (5, 0x01%Z); (6, 0x00%Z);
       (7, 0x00%Z); (8, 0x00%Z); (9, 0x00%Z); (10, 0x00%Z); (11, 0x00%Z)] in
    Ret (Ok (mk b)).

Definition set_ra (self : t) : outcome t :=
  let! b3 := idx (buf self) 3 in
  let! b := store (buf self) 3 (Z.lor b3 0x80) in
  Ret (mk b).

Definition set_rcode (self : t) (rcode : Z) : outcome t :=
  let! b3 := idx (buf self) 3 in
  let! b := store (buf self) 3 (Z.lor (Z.land b3 0xf0) (Z.land rcode 0x0f)) in
  Ret (mk b).

Definition finish (self : t) : list Z := buf self.

End ResponseBuilder.

Import ResponseBuilder.

Definition empty_reply (query : list Z) (question_end : nat) : outcome (result builder_error (list Z)) :=
  let* b := from_query query question_end in
  let! b := set_ra b in
  Ret (Ok (finish b)).

Definition rcode_reply (query : list Z) (question_end : nat) (rcode : Z)
  : outcome (result builder_error (list Z)) :=
  let* b := from_query query question_end in
  let! b := set_ra b in
  let! b := set_rcode b rcode in
  Ret (Ok (finish b)).

Definition servfail_reply (query : list Z) (question_end : nat)
  : outcome (result builder_error (list Z)) :=
  let* b := from_query query question_end in
  let! b := set_ra b in
  let! b := set_rcode b 2 in
  Ret (Ok (finish b)).

Definition notimp_reply (query : list Z) (question_end : nat)
  : outcome (result builder_error (list Z)) :=
  let* b := from_query query question_end in
  let! b := set_ra b in
  let! b := set_rcode b 4 in
  Ret (Ok (finish b)).

Definition notimp_opcode_reply (query : list Z) : outcome (list Z) :=
  if decide (length query < 12) then Ret []
  else
    let! q0 := idx query 0 in
    let! q1 := idx query 1 in
    let! q2 := idx query 2 in
    store_all (replicate 12 0%Z)
      [(0, q0); (1, q1); (2, Z.lor 0x80 (Z.land q2 0x79)); (3, 0x84%Z)].

Definition a_reply (query : list Z) (question_end : nat) (addr : list Z) (ttl : Z)
  : outcome (result builder_error (list Z)) :=
  let* b := from_query query question_end in
  let! b := set_ra b in
  let! b := store (buf b) 7 1%Z in
  Ret (Ok (finish (mk (b ++ [0xC0; 0x0C]%Z ++ [0x00; 0x01]%Z ++ [0x00; 0x01]%Z ++
    to_be 4 ttl ++ [0x00; 0x04]%Z ++ addr)))).

Definition aaaa_reply (query : list Z) (question_end : nat) (addr : list Z) (ttl : Z)
  : outcome (result builder_error (list Z)) :=
  let* b := from_query query question_end in
  let! b := set_ra b in
  let! b := store (buf b) 7 1%Z in
  Ret (Ok (finish (mk (b ++ [0xC0; 0x0C]%Z ++ [0x00; 0x1C]%Z ++ [0x00; 0x01]%Z ++
    to_be 4 ttl ++ [0x00; 0x10]%Z ++ addr)))).

(** ** Names and synthetic queries *)

(** [str::trim_end_matches('.')] *)
Fixpoint trim_start_dots (s : list Z) : list Z :=
  match s with
  | b :: s' => if decide (b = DOT) then trim_start_dots s' else s
  | [] => []
  end.

Definition trim_end_dots (s : list Z) : list Z := rev (trim_start_dots (rev s)).

(** [str::split('.')] *)
Fixpoint split_dots (s : list Z) : list (list Z) :=
  match s with
  | [] => [[]]
  | b :: s' =>
      if decide (b = DOT) then [] :: split_dots s'
      else match split_dots s' with
           | [] => [[b]]
           | l :: ls => (b :: l) :: ls
           end
  end.

(** The [for label in name.split('.')] loop. *)
Fixpoint encode_labels (labels : list (list Z)) (total : nat) (out : list Z)
  : result builder_error (list Z) :=
  match labels with
  | [] => Ok out
  | label :: labels' =>
      let len := length label in
      if decide (len = 0) then Err EmptyLabel
      else if decide (63 < len) then Err LabelTooLong
      else
        let total := total + (1 + len) in
        if decide (255 < total) then Err NameTooLong
        else encode_labels labels' total (out ++ Z.of_nat len :: label)
  end.

Definition encode_dns_name (name : list Z) : result builder_error (list Z) :=
  let name := trim_end_dots name in
  if decide (name = []) then Ok [0%Z]
  else
    match encode_labels (split_dots name) 1 [] with
    | Ok out => Ok (out ++ [0%Z])
    | Err e => Err e
    end.

Definition synthetic_query (name : list Z) (qtype : Z) : result builder_error (list Z * nat) :=
  let buf := [0x00; 0x00; 0x01; 0x00; 0x00; 0x01; 0x00; 0x00; 0x00; 0x00; 0x00; 0x00]%Z in
  match encode_dns_name name with
  | Err e => Err e
  | Ok w =>
      let buf := buf ++ w ++ to_be 2 qtype ++ [0x00; 0x01]%Z in
      let question_end := length buf in
      Ok (buf, question_end)
  end.

(** ** The shape of built replies *)

(** ID and question of the query with the given flag bytes and answer count. *)
Definition reply_to (query : list Z) (question_end : nat) (b3 an : Z) : list Z :=
  take 2 query ++ [Z.lor 0x80 (Z.land (nthb query 2) 0x01); b3; 0x00; 0x01; 0x00; an;
                   0x00; 0x00; 0x00; 0x00]%Z ++ take (question_end - 12) (drop 12 query).

Section replies.
Context (query : list Z) (qe : nat) (Hqe : 12 <= qe <= length query).

Lemma from_query_eq : from_query query qe = Ret (Ok (mk (reply_to query qe 0 0))).
Proof.
  unfold from_query. rewrite decide_False by lia. in_range. rewrite Nat.sub_0_r, drop_0.
  destruct (header_split query) as (a&b&c&d&e&f&g&h&i&j&k&l&r&->); [lia|].
  assert (take qe (a::b::c::d::e::f::g::h::i::j::k::l::r)
    = a::b::c::d::e::f::g::h::i::j::k::l::take (qe - 12) r) as ->
    by by (destruct qe as [|[|[|[|[|[|[|[|[|[|[|[|?]]]]]]]]]]]]; [lia..|]; simpl; rewrite Nat.sub_0_r).
  reflexivity.
Qed.

Lemma empty_reply_eq : empty_reply query qe = Ret (Ok (reply_to query qe 0x80 0)).
Proof.
  unfold empty_reply. rewrite from_query_eq. cbn [obind_res].
  destruct (header_split query) as (a&b&c&d&e&f&g&h&i&j&k&l&r&->); [lia|]. reflexivity.
Qed.

Lemma rcode_reply_eq rc :
  (0 <= rc < 16)%Z -> rcode_reply query qe rc = Ret (Ok (reply_to query qe (Z.lor 0x80 rc) 0)).
Proof.
  intros Hrc. unfold rcode_reply. rewrite from_query_eq. cbn [obind_res].
  destruct (header_split query) as (a&b&c&d&e&f&g&h&i&j&k&l&r&->); [lia|].
  assert (Z.land rc 0x0f = rc) as Hl.
  { change 0x0f%Z with (Z.ones 4). rewrite Z.land_ones by lia. by apply Z.mod_small. }
  unfold set_ra, set_rcode. cbn -[Z.land Z.lor]. by rewrite Hl.
Qed.

Lemma answer_reply_eq (reply : outcome (result builder_error (list Z))) rr :
  reply = (let* b := from_query query qe in
           let! b := set_ra b in
           let! b := store (buf b) 7 1%Z in
           Ret (Ok (finish (mk (b ++ rr))))) ->
  reply = Ret (Ok (reply_to query qe 0x80 1 ++ rr)).
Proof.
  intros ->. rewrite from_query_eq. cbn [obind_res].
  destruct (header_split query) as (a&b&c&d&e&f&g&h&i&j&k&l&r&->); [lia|]. reflexivity.
Qed.

Lemma length_reply_to b3 an : length (reply_to query qe b3 an) = qe.
Proof. unfold reply_to. len. Qed.
End replies.

(** ** Names *)

(** The labels of a textual name, the trailing dots ignored. *)
Definition labels_of (name : list Z) : list (list Z) :=
  let name := trim_end_dots name in
  if decide (name = []) then [] else split_dots name.

Lemma encode_labels_spec ls total out w :
  1 <= total ->
  encode_labels ls total out = Ok w <->
  Forall (fun l => 1 <= length l <= 63) ls /\ total + length (encode_name ls) - 1 <= Nat.max 255 total /\
  w ++ [0%Z] = out ++ encode_name ls.
Proof.
  revert total out. induction ls as [|l ls IH]; intros total out Ht; cbn [encode_labels].
  - rewrite encode_name_nil. cbn [length]. split.
    + intros [= ->]. split; [done|]. split; [lia|done].
    + intros (_ & _ & H). f_equal. by apply app_inv_tail in H.
  - pose proof (length_encode_name_pos ls). rewrite Forall_cons, encode_name_cons.
    cbn [length]. rewrite length_app.
    case_decide; [split; [done|lia]|]. case_decide; [split; [done|lia]|].
    case_decide; [split; [done|lia]|]. rewrite IH by lia. rewrite <- app_assoc. cbn [app].
    split; intros (? & ? & ?); repeat split; try tauto; lia.
Qed.

(** [encode_dns_name] succeeds exactly on names whose labels fit, with their wire form. *)
Lemma encode_dns_name_spec name w :
  encode_dns_name name = Ok w <->
  Forall (fun l => 1 <= length l <= 63) (labels_of name) /\
  length (encode_name (labels_of name)) <= 255 /\ w = encode_name (labels_of name).
Proof.
  unfold encode_dns_name, labels_of. case_decide as Hn.
  - rewrite encode_name_nil. split; [intros [= <-]|intros (_ & _ & ->)]; repeat split; simpl; try lia; done.
  - pose proof (length_encode_name_pos (split_dots (trim_end_dots name))).
    destruct (encode_labels _ 1 []) as [out|e] eqn:He.
    + apply encode_labels_spec in He; [|lia]. destruct He as (Hf & Hl & ->). cbn [app].
      split; [intros [= <-]|intros (_ & _ & ->)]; repeat split; (done || lia).
    + split; [done|]. intros (Hf & Hl & ->).
      assert (encode_labels (split_dots (trim_end_dots name)) 1 [] =
        Ok (removelast (encode_name (split_dots (trim_end_dots name))))) as Hc.
      { apply encode_labels_spec; [lia|]. repeat split; [done|lia|]. cbn [app].
        assert (forall ls, exists w, encode_name ls = w ++ [0%Z]) as Hx.
        { clear. induction ls as [|l ls [w IH]]; [by exists []|]. rewrite encode_name_cons, IH.
          exists (Z.of_nat (length l) :: l ++ w). cbn [app]. by rewrite <- app_assoc. }
        destruct (Hx (split_dots (trim_end_dots name))) as [w ->]. by rewrite removelast_last. }
      congruence.
Qed.

Lemma split_dots_nonempty s : split_dots s <> [].
Proof. destruct s; simpl; [done|]. case_decide; [done|]. by destruct (split_dots s). Qed.

Lemma join_split_dots s : join_dots (split_dots s) = s.
Proof.
  induction s as [|b s IH]; [done|]. simpl. pose proof (split_dots_nonempty s) as Hne.
  case_decide as Hb.
  - subst b. destruct (split_dots s) eqn:E; [done|]. simpl in *. by rewrite IH.
  - destruct (split_dots s) as [|l [|l' ls]]; [done|..]; simpl in *; by rewrite <- IH.
Qed.

Lemma split_dots_forall (P : Z -> Prop) s : Forall P s -> Forall (Forall P) (split_dots s).
Proof.
  induction 1 as [|b s Hb Hs IH]; simpl; [repeat constructor|].
  case_decide; [by constructor|].
  destruct (split_dots s) as [|l ls]; [by repeat constructor|].
  inversion IH; subst. by repeat constructor.
Qed.

Lemma trim_start_forall (P : Z -> Prop) s : Forall P s -> Forall P (trim_start_dots s).
Proof. induction 1; simpl; [done|]. case_decide; [done|]. by constructor. Qed.

Lemma trim_end_forall (P : Z -> Prop) s : Forall P s -> Forall P (trim_end_dots s).
Proof. intros. by apply Forall_rev, trim_start_forall, Forall_rev. Qed.

Lemma labels_of_forall (P : Z -> Prop) name : Forall P name -> Forall (Forall P) (labels_of name).
Proof.
  intros. unfold labels_of. case_decide; [done|]. by apply split_dots_forall, trim_end_forall.
Qed.

Lemma is_ascii_forall l : is_ascii l = true <-> Forall (fun b => b < 128)%Z l.
Proof.
  unfold is_ascii, is_ascii_byte. rewrite forallb_forall, Forall_forall.
  split; intros H x Hx.
  - apply (bool_decide_eq_true_1 (x < 128)%Z), H. by apply list_elem_of_In.
  - apply bool_decide_eq_true_2, H. by apply list_elem_of_In.
Qed.

Lemma qname_text_labels name :
  is_ascii name = true -> qname_text (labels_of name) = lower_label (trim_end_dots name).
Proof.
  intros Ha%is_ascii_forall. unfold qname_text, labels_of. case_decide as Hn; [by rewrite Hn|].
  apply trim_end_forall in Ha. rewrite <- (join_split_dots (trim_end_dots name)) at 2.
  apply split_dots_forall in Ha. clear Hn.
  induction Ha as [|l ls Hl Hls IH]; [done|].
  assert (push_label l = lower_label l) as Hp by (unfold push_label; by rewrite (proj2 (is_ascii_forall l))).
  destruct ls as [|l' ls]; cbn [fmap list_fmap join_dots] in *; [done|].
  rewrite Hp. unfold lower_label in *. rewrite fmap_app, fmap_cons. f_equal.
  change (to_ascii_lowercase DOT) with DOT. f_equal. apply IH.
Qed.

(** Synthetic queries round-trip.  For an ASCII name,
    [synthetic_query] succeeds exactly when the labels (trailing dots aside) are
    1..63 bytes and the wire form is at most 255; the packet it builds is accepted
    by [parse_query_fast] with the requested type and the returned question end, and
    [qname_from_question] gives the lower-cased name back. *)
Theorem synthetic_query_roundtrip name qtype p qe :
  bytes_ok name -> is_ascii name = true -> u_ok 16 qtype ->
  synthetic_query name qtype = Ok (p, qe) ->
  exists fi, parse_query_fast p = Ret (Ok fi) /\ fast_qtype fi = qtype /\ fast_question_end fi = qe /\
    qname_from_question p qe = Ret (Ok (lower_label (trim_end_dots name))).
Proof.
  intros Hb Ha Ht. unfold synthetic_query.
  destruct (encode_dns_name name) as [w|e] eqn:He; [|done].
  apply encode_dns_name_spec in He as (Hl & Hlen & ->).
  set (hdr := [0; 0; 1; 0; 0; 1; 0; 0; 0; 0; 0; 0]%Z). set (tail := to_be 2 qtype ++ [0; 1]%Z).
  intros [= <- <-].
  assert (Hls : Forall label_ok (labels_of name)).
  { apply Forall_and; split; [done|]. by apply labels_of_forall. }
  set (p := hdr ++ encode_name (labels_of name) ++ tail).
  assert (Hp : bytes_ok p) by (unfold p, hdr, tail; bytes).
  assert (Hq : question_of p (labels_of name) tail).
  { exists hdr, []. rewrite app_nil_r. by repeat split. }
  assert (Hh : query_header p) by done.
  assert (length p = 12 + length (encode_name (labels_of name)) + 4) as Hlp
    by (unfold p, tail, hdr; len).
  eexists. split; [by apply parse_query_fast_complete|]. cbn [fast_qtype fast_question_end].
  split; [by apply (be16_app [] qtype [0; 1]%Z)|]. split; [done|].
  change (qname_from_question p (length p) = Ret (Ok (lower_label (trim_end_dots name)))).
  rewrite Hlp, (qname_from_question_of _ _ _ Hh Hq). by rewrite qname_text_labels.
Qed.

(** ** Built answers *)

(** The answer record as the walkers see it. *)
Lemma parse_rr_built pre ty class ttl rdata :
  bytes_ok pre -> bytes_ok rdata -> u_ok 16 ty -> u_ok 16 class -> u_ok 32 ttl ->
  (Z.of_nat (length rdata) < 65536)%Z ->
  parse_rr (pre ++ [0xC0; 0x0C]%Z ++ to_be 2 ty ++ to_be 2 class ++ to_be 4 ttl ++
      to_be 2 (Z.of_nat (length rdata)) ++ rdata) (length pre)
  = Ret (Some (ty, class, ttl, length pre + 12, length pre + 12 + length rdata)).
Proof.
  intros Hpre Hrd Hty Hcl Httl Hlen.
  set (p := pre ++ _).
  assert (Hp : bytes_ok p) by (unfold p; bytes).
  assert (Hlp : length p = length pre + 12 + length rdata) by (unfold p; len).
  assert (Hne : skip_name p (length pre) = Ret (Some (length pre + 2))).
  { apply skip_name_spec; [done|]. eapply wn_pointer; [| |].
    - unfold p. rewrite lookup_app_r, Nat.sub_diag by lia. reflexivity.
    - lia.
    - unfold p. rewrite lookup_app_r by lia. replace (_ - _) with 1 by lia. reflexivity. }
  assert (Hat : forall a b z k, p = a ++ to_be 2 z ++ b -> u_ok 16 z -> k = length a -> be16 p k = z).
  { intros a b z k -> Hz ->. by apply be16_app. }
  assert (Httl' : be32 p (length pre + 2 + 4) = ttl).
  { rewrite (be32_lookups p _ (to_be 4 ttl)); [by apply from_be_to_be_small|apply length_to_be|].
    intros k Hk. unfold p. do 4 (rewrite lookup_app_r by len). rewrite lookup_app_l by len.
    f_equal. len. }
  unfold parse_rr. rewrite Hne. cbn [obind_opt]. rewrite decide_False by lia. in_range.
  assert (be16 p (length pre + 2) = ty) as ->.
  { eapply (Hat (pre ++ [0xC0; 0x0C]%Z)); [unfold p; by rewrite <- app_assoc|done|len]. }
  assert (be16 p (length pre + 2 + 2) = class) as ->.
  { eapply (Hat (pre ++ [0xC0; 0x0C]%Z ++ to_be 2 ty)); [unfold p; by rewrite <- !app_assoc|done|len]. }
  assert (be16 p (length pre + 2 + 8) = Z.of_nat (length rdata)) as ->.
  { eapply (Hat (pre ++ [0xC0; 0x0C]%Z ++ to_be 2 ty ++ to_be 2 class ++ to_be 4 ttl));
      [unfold p; by rewrite <- !app_assoc|unfold u_ok; lia|len]. }
  rewrite Httl', Nat2Z.id, decide_False by lia. do 2 f_equal. f_equal; [f_equal|]; lia.
Qed.

(** A static answer for an address. *)
Definition static_reply (query : list Z) (qe : nat) (addr : IpAddr) (ttl : Z) :=
  match addr with
  | V4 o => a_reply query qe o ttl
  | V6 o => aaaa_reply query qe o ttl
  end.

Definition addr_type (a : IpAddr) : Z := match a with V4 _ => 1 | V6 _ => 28 end.

Lemma static_reply_eq query qe addr ttl :
  12 <= qe <= length query -> length (addr_octets addr) = addr_len addr ->
  static_reply query qe addr ttl
  = Ret (Ok (reply_to query qe 0x80 1 ++ [0xC0; 0x0C]%Z ++ to_be 2 (addr_type addr) ++ to_be 2 1 ++
      to_be 4 ttl ++ to_be 2 (Z.of_nat (length (addr_octets addr))) ++ addr_octets addr)).
Proof.
  intros Hqe Ho. destruct addr as [o|o]; cbn [addr_octets addr_len] in Ho;
    cbn [static_reply addr_octets addr_type]; rewrite Ho; by apply answer_reply_eq.
Qed.

Lemma reply_to_header query qe b3 an :
  12 <= qe <= length query ->
  nthb (reply_to query qe b3 an) 2 = Z.lor 0x80 (Z.land (nthb query 2) 0x01) /\
  nthb (reply_to query qe b3 an) 3 = b3 /\
  be16 (reply_to query qe b3 an) 4 = 1%Z /\ be16 (reply_to query qe b3 an) 6 = an /\
  be16 (reply_to query qe b3 an) 8 = 0%Z /\ be16 (reply_to query qe b3 an) 10 = 0%Z /\
  take 2 (reply_to query qe b3 an) = take 2 query /\
  drop 12 (reply_to query qe b3 an) = take (qe - 12) (drop 12 query).
Proof.
  intros Hqe. destruct (header_split query) as (a&b&c&d&e&f&g&h&i&j&k&l&r&->); [lia|]. by repeat split.
Qed.

Lemma reply_to_bytes query qe b3 an :
  bytes_ok query -> is_byte b3 -> is_byte an -> bytes_ok (reply_to query qe b3 an).
Proof.
  intros Hq H3 Han. unfold reply_to. apply Forall_app; split; [by apply Forall_take|].
  apply Forall_app; split; [|by apply Forall_take, Forall_drop].
  apply Forall_cons; split; [|repeat (apply Forall_cons; split; [done||unfold u_ok; lia|]); done].
  pose proof (nthb_ok query 2 Hq) as H2.
  apply (byte_forall (fun b => bool_decide (0 <= Z.lor 0x80 (Z.land b 0x01) < 256)%Z)) in H2; [|by vm_compute].
  apply bool_decide_eq_true in H2. unfold u_ok. lia.
Qed.

Lemma reply_qr b : is_byte b -> Z.land (Z.lor 0x80 (Z.land b 0x01)) 0x80 <> 0%Z.
Proof.
  intros Hb. apply (byte_forall (fun b => bool_decide (Z.land (Z.lor 0x80 (Z.land b 0x01)) 0x80 <> 0)%Z)) in Hb;
    [|by vm_compute]. by apply bool_decide_eq_true in Hb.
Qed.

(** Static answers round-trip.  For an accepted query, a static A or
    AAAA answer is a good reply with the query's ID and question, from which the
    readers recover exactly the address, and whose entry TTL is the clamped TTL at
    the offset of its single record. *)
Theorem static_reply_roundtrip query qe addr ttl nodata_ttl min_ttl max_ttl :
  bytes_ok query -> 12 <= qe <= length query -> (Z.of_nat qe < 2 ^ 31)%Z ->
  length (addr_octets addr) = addr_len addr -> bytes_ok (addr_octets addr) -> u_ok 32 ttl ->
  exists r, static_reply query qe addr ttl = Ret (Ok r) /\
    is_good_reply r = Ret true /\ take 2 r = take 2 query /\
    take (qe - 12) (drop 12 r) = take (qe - 12) (drop 12 query) /\
    answer_ips r qe = Ret [addr] /\
    effective_ttl_and_offsets r qe nodata_ttl min_ttl max_ttl
    = Ret (Some (clamp_ttl min_ttl max_ttl ttl,
                 [(Z.of_nat (qe + 6), clamp_ttl min_ttl max_ttl ttl)])).
Proof.
  intros Hq Hqe Hq31 Ho Hb Httl. rewrite static_reply_eq by done.
  set (base := reply_to query qe 128 1). set (rr := [0xC0; 0x0C]%Z ++ _). set (p := base ++ rr).
  exists p. split; [done|].
  destruct (reply_to_header query qe 128 1 Hqe) as (H2 & H3 & H4 & H6 & H8 & H10 & Ht & Hd).
  pose proof (length_reply_to query qe Hqe 128 1) as Hlb. fold base in H2, H3, H4, H6, H8, H10, Ht, Hd, Hlb.
  assert (Hal : 0 < length (addr_octets addr) <= 16) by (rewrite Ho; destruct addr; cbn; lia).
  assert (Hbb : bytes_ok base) by (apply reply_to_bytes; (done || unfold u_ok; lia)).
  assert (Hty : u_ok 16 (addr_type addr)) by (destruct addr; unfold u_ok; cbn [addr_type]; lia).
  assert (Hpb : bytes_ok p) by (unfold p, rr; bytes).
  assert (Hlp : length p = qe + 12 + length (addr_octets addr)) by (unfold p, rr; len).
  assert (Hrr : parse_rr p qe = Ret (Some (addr_type addr, 1%Z, ttl, qe + 12, qe + 12 + length (addr_octets addr)))).
  { rewrite <- Hlb. apply parse_rr_built; (done || unfold u_ok; lia). }
  assert (Hh : forall i, i < 12 -> nthb p i = nthb base i) by (intros; apply nthb_app_l; lia).
  assert (Hh16 : forall i, i < 11 -> be16 p i = be16 base i) by (intros; apply be16_app_l; lia).
  assert (Hgood : is_good_reply p = Ret true).
  { rewrite is_good_reply_eq, !Hh, H2, H3 by lia. rewrite bool_decide_true; [done|].
    split; [lia|]. split; [by apply reply_qr, nthb_ok|by left]. }
  split; [done|]. split; [unfold p; rewrite take_app_le by lia; done|].
  split; [unfold p; rewrite drop_app_le, take_app_le by len; by rewrite Hd, take_take, Nat.min_id|].
  split.
  - rewrite answer_ips_eq by lia. rewrite Hh16, H6 by lia. change (Z.to_nat 1) with 1.
    cbn [rr_prefix]. rewrite Hrr. cbn [mbind list_bind]. rewrite app_nil_r. unfold rr_ip.
    assert (take (length (addr_octets addr)) (drop (qe + 12) p) = addr_octets addr) as Haddr.
    { unfold p, rr. rewrite !app_assoc, drop_app_length' by len. apply take_ge. done. }
    replace (qe + 12 + length (addr_octets addr) - (qe + 12)) with (length (addr_octets addr)) by lia.
    destruct addr as [o|o]; cbn [addr_type addr_octets addr_len] in *; rewrite Ho in *.
    + rewrite decide_True by done. by rewrite Haddr.
    + rewrite decide_False by lia. rewrite decide_True by done. by rewrite Haddr.
  - rewrite effective_ttl_eq, Hgood by done. cbn [obind]. rewrite decide_True by (split; [done|lia]).
    rewrite !Hh16, H6, H8, H10 by lia. change (Z.to_nat 1 + Z.to_nat 0 + Z.to_nat 0) with 1.
    cbn [parse_rrs]. rewrite Hrr. cbn [obind_opt]. do 2 f_equal.
    unfold effective_ttl_ref. change (Z.to_nat 1) with 1. rewrite decide_False by done.
    cbn [take]. rewrite ttl_pairs_cons.
    rewrite decide_True by (destruct addr; done). cbn [ttl_pairs mbind list_bind app fmap list_fmap].
    replace (qe + 12 - 6) with (qe + 6) by lia.
    assert (wrap 32 (Z.of_nat (qe + 6)) = Z.of_nat (qe + 6)) as -> by (apply Z.mod_small; lia).
    done.
Qed.

(** Error replies.  For an accepted query, [rcode_reply] (and so the
    SERVFAIL and NOTIMP replies) is a reply with the query's ID and question, RA
    set, the requested RCODE and no records. *)
Theorem rcode_reply_correct query qe rc :
  bytes_ok query -> 12 <= qe <= length query -> (0 <= rc < 16)%Z ->
  exists r, rcode_reply query qe rc = Ret (Ok r) /\
    length r = qe /\ take 2 r = take 2 query /\
    drop 12 r = take (qe - 12) (drop 12 query) /\
    is_reply r = Ret true /\ rcode r = Ret rc /\
    be16 r 6 = 0%Z /\ be16 r 8 = 0%Z /\ be16 r 10 = 0%Z.
Proof.
  intros Hq Hqe Hrc. rewrite rcode_reply_eq by done. eexists. split; [done|].
  destruct (reply_to_header query qe (Z.lor 128 rc) 0 Hqe) as (H2 & H3 & H4 & H6 & H8 & H10 & Ht & Hd).
  pose proof (length_reply_to query qe Hqe (Z.lor 128 rc) 0) as Hl.
  split; [done|]. split; [done|]. split; [done|]. split.
  - rewrite is_reply_eq, H2. rewrite bool_decide_true; [done|]. split; [lia|by apply reply_qr, nthb_ok].
  - split; [|done]. rewrite rcode_eq, decide_False, H3 by lia. f_equal.
    rewrite Z.land_lor_distr_l. change (Z.land 128 15) with 0%Z. rewrite Z.lor_0_l.
    change 15%Z with (Z.ones 4). rewrite Z.land_ones by lia. by apply Z.mod_small.
Qed.

(** ** Concrete instances *)

(** "www.Example.com." *)
Definition sample_name : list Z :=
  [119; 119; 119; 46; 69; 120; 97; 109; 112; 108; 101; 46; 99; 111; 109; 46]%Z.

Lemma synthetic_query_witness :
  exists p fi, synthetic_query sample_name 28 = Ok (p, 33) /\ parse_query_fast p = Ret (Ok fi) /\
    fast_qtype fi = 28%Z.
Proof.
  assert (exists p, synthetic_query sample_name 28 = Ok (p, 33)) as [p Hp] by (eexists; by vm_compute).
  destruct (synthetic_query_roundtrip sample_name 28 p 33) as (fi & Hfi & Ht & _);
    [apply bytes_check; by vm_compute|by vm_compute|by vm_compute|exact Hp|].
  by exists p, fi.
Defined.

Lemma static_reply_witness :
  exists r, static_reply (encode_edns sample_query) 29 (V4 [192; 0; 2; 7]%Z) 300 = Ret (Ok r) /\
    answer_ips r 29 = Ret [V4 [192; 0; 2; 7]%Z].
Proof.
  destruct (static_reply_roundtrip (encode_edns sample_query) 29 (V4 [192; 0; 2; 7]%Z) 300 60 0 0)
    as (r & Hr & _ & _ & _ & Ha & _);
    [apply bytes_check; by vm_compute|split; by apply Nat.leb_le|lia|done
    |apply bytes_check; by vm_compute|by vm_compute|].
  by exists r.
Defined.

Lemma rcode_reply_witness :
  exists r, rcode_reply (encode_edns sample_query) 29 3 = Ret (Ok r) /\ rcode r = Ret 3%Z.
Proof.
  destruct (rcode_reply_correct (encode_edns sample_query) 29 3) as (r & Hr & _ & _ & _ & _ & Hc & _);
    [apply bytes_check; by vm_compute|split; by apply Nat.leb_le|lia|].
  by exists r.
Defined.
