(* ===== verification/Persist.v ===== *)
(** * Persisted files (src/src/persist.rs)

    The reader and writer of the persisted caches: little-endian integers,
    length-prefixed byte fields with their size cap, the common header, and the
    write-to-temporary-then-rename protocol.  A reader is a function from the
    remaining bytes of the file to a result and the rest. *)

From S2P Require Import Prelude.

(** The error sites of persist.rs and of the two [load_from_file] functions. *)
Inductive persist_error :=
| UnexpectedEof
| MagicMismatch
| FingerprintMismatch
| FieldTooLarge
| TooManyOffsets
| BadKind.

(** ** Readers *)

Definition reader_of (E A : Type) : Type := list Z -> result E (A * list Z).

Abbreviation reader := (reader_of persist_error).

Definition rret {E A} (a : A) : reader_of E A := fun r => Ok (a, r).

Definition rbind {E A B} (m : reader_of E A) (k : A -> reader_of E B) : reader_of E B := fun r =>
  match m r with
  | Ok (a, r') => k a r'
  | Err e => Err e
  end.

Definition rfail {E A} (e : E) : reader_of E A := fun _ => Err e.

Notation "'let%' x ':=' m 'in' k" := (rbind m (fun x => k))
  (at level 10, x pattern, m at level 100, k at level 200) : rust_scope.

(** [r.read_exact(&mut buf)] with an [n]-byte buffer, failing with [e]. *)
Definition read_exact_or {E} (e : E) (n : nat) : reader_of E (list Z) := fun r =>
  if decide (n <= length r) then Ok (take n r, drop n r) else Err e.

Definition read_exact : nat -> reader (list Z) := read_exact_or UnexpectedEof.

Definition read_u16 : reader Z := let% buf := read_exact 2 in rret (from_le buf).
Definition read_u32 : reader Z := let% buf := read_exact 4 in rret (from_le buf).
Definition read_u64 : reader Z := let% buf := read_exact 8 in rret (from_le buf).

Definition MAX_PERSISTED_BYTES : Z := 65536.

Definition read_bytes : reader (list Z) :=
  let% len := read_u32 in
  if decide (len <= MAX_PERSISTED_BYTES)%Z then read_exact (Z.to_nat len) else rfail FieldTooLarge.

Definition write_header (magic : list Z) (fingerprint count : Z) : list Z :=
  magic ++ to_le 8 fingerprint ++ to_le 4 count.

Definition read_and_check_header (magic : list Z) (fingerprint : Z) : reader Z :=
  let% stored_magic := read_exact 8 in
  if decide (stored_magic = magic) then
    let% stored_fp := read_u64 in
    if decide (stored_fp = fingerprint) then read_u32 else rfail FingerprintMismatch
  else rfail MagicMismatch.

(** [(bytes.len() as u32).to_le_bytes()] followed by [bytes]. *)
Definition write_bytes (bytes : list Z) : list Z :=
  to_le 4 (wrap 32 (Z.of_nat (length bytes))) ++ bytes.

(** [n] consecutive items ([for _ in 0..count]). *)
Fixpoint read_many {E A} (n : nat) (item : reader_of E A) : reader_of E (list A) :=
  match n with
  | O => rret []
  | S n' =>
      let% a := item in
      let% l := read_many n' item in
      rret (a :: l)
  end.

(** ** Round trips *)

Lemma rbind_Ok {E A B} (m : reader_of E A) (k : A -> reader_of E B) r a r' :
  m r = Ok (a, r') -> rbind m k r = k a r'.
Proof. unfold rbind. by intros ->. Qed.

Lemma read_exact_or_app {E} (e : E) n l rest :
  length l = n -> read_exact_or e n (l ++ rest) = Ok (l, rest).
Proof.
  intros <-. unfold read_exact_or. rewrite decide_True by len. by rewrite take_app_length, drop_app_length.
Qed.

Lemma read_exact_app l rest : read_exact (length l) (l ++ rest) = Ok (l, rest).
Proof. by apply read_exact_or_app. Qed.

Lemma read_exact_app' n l rest : length l = n -> read_exact n (l ++ rest) = Ok (l, rest).
Proof. intros <-. apply read_exact_app. Qed.

Lemma read_le_app n z rest :
  (0 <= z < 256 ^ Z.of_nat n)%Z ->
  (let% buf := read_exact n in rret (from_le buf)) (to_le n z ++ rest) = Ok (z, rest).
Proof.
  intros Hz. unfold rbind. rewrite <- (length_to_le n z) at 1. rewrite read_exact_app.
  unfold rret. by rewrite from_le_to_le_small.
Qed.

Lemma read_u16_app z rest : u_ok 16 z -> read_u16 (to_le 2 z ++ rest) = Ok (z, rest).
Proof. intros. by apply read_le_app. Qed.

Lemma read_u32_app z rest : u_ok 32 z -> read_u32 (to_le 4 z ++ rest) = Ok (z, rest).
Proof. intros. by apply read_le_app. Qed.

Lemma read_u64_app z rest : u_ok 64 z -> read_u64 (to_le 8 z ++ rest) = Ok (z, rest).
Proof. intros. by apply read_le_app. Qed.

Lemma read_bytes_app l rest :
  (Z.of_nat (length l) <= MAX_PERSISTED_BYTES)%Z -> read_bytes (write_bytes l ++ rest) = Ok (l, rest).
Proof.
  intros Hl. unfold MAX_PERSISTED_BYTES in Hl. unfold read_bytes, write_bytes, rbind.
  assert (wrap 32 (Z.of_nat (length l)) = Z.of_nat (length l)) as -> by (apply Z.mod_small; lia).
  rewrite <- app_assoc, read_u32_app by (unfold u_ok; lia).
  rewrite decide_True by done. rewrite Nat2Z.id. apply read_exact_app.
Qed.

Lemma read_header_app magic fp count rest :
  length magic = 8 -> u_ok 64 fp -> u_ok 32 count ->
  read_and_check_header magic fp (write_header magic fp count ++ rest) = Ok (count, rest).
Proof.
  intros Hm Hf Hc. unfold read_and_check_header, write_header, rbind.
  rewrite <- !app_assoc, (read_exact_app' 8 magic), decide_True by done.
  rewrite read_u64_app by done. rewrite decide_True by done. by apply read_u32_app.
Qed.

(** A header written for another configuration is rejected. *)
Lemma read_header_mismatch magic fp fp' count rest :
  length magic = 8 -> u_ok 64 fp -> fp <> fp' ->
  read_and_check_header magic fp' (write_header magic fp count ++ rest) = Err FingerprintMismatch.
Proof.
  intros Hm Hf Hne. unfold read_and_check_header, write_header, rbind.
  rewrite <- !app_assoc, (read_exact_app' 8 magic), decide_True by done.
  rewrite read_u64_app by done. by rewrite decide_False.
Qed.

Lemma read_many_app {E A} (item : reader_of E A) (enc : A -> list Z) (l : list A) rest :
  (forall a rest', a ∈ l -> item (enc a ++ rest') = Ok (a, rest')) ->
  read_many (length l) item (concat (enc <$> l) ++ rest) = Ok (l, rest).
Proof.
  induction l as [|a l IH]; intros H; [done|]. cbn [length read_many]. unfold rbind.
  rewrite fmap_cons. cbn [concat]. rewrite <- app_assoc, H by constructor.
  rewrite IH by (intros; apply H; by constructor). done.
Qed.

(** ** [atomic_write] against crashes

    The file operations [atomic_write] issues, in order.  [live] is what running
    processes see, [durable] the directory as of the last directory sync; a crash
    may expose either.  A file's contents carry whether they are synced: contents
    that are not may read as anything after a crash. *)

Module AtomicWrite.

Abbreviation path := (list Z).

Inductive fs_op :=
| Create (p : path)
| WriteAll (p : path) (bytes : list Z)
| SyncFile (p : path)
| Rename (from to : path)
| SyncParent.

Abbreviation dir := (gmap path (list Z * bool)).

Record fs := mkFs { live : dir; durable : dir }.

Definition live_step (d : dir) (op : fs_op) : dir :=
  match op with
  | Create p => <[p := ([], false)]> d
  | WriteAll p b => match d !! p with Some (c, _) => <[p := (c ++ b, false)]> d | None => d end
  | SyncFile p => match d !! p with Some (c, _) => <[p := (c, true)]> d | None => d end
  | Rename a b => match d !! a with Some f => <[b := f]> (delete a d) | None => d end
  | SyncParent => d
  end.

Definition fs_step (s : fs) (op : fs_op) : fs :=
  let d := live_step (live s) op in
  mkFs d (match op with SyncParent => d | _ => durable s end).

Definition run (s : fs) (ops : list fs_op) : fs := foldl fs_step s ops.

(** [tmp_name.push(".tmp")] *)
Definition TMP : list Z := [46; 116; 109; 112]%Z.

(** The operations of a call whose [write_fn] writes [chunks]. *)
Definition atomic_write (p : path) (chunks : list (list Z)) : list fs_op :=
  let tmp := p ++ TMP in
  [Create tmp] ++ (WriteAll tmp <$> chunks) ++ [SyncFile tmp; Rename tmp p; SyncParent].

(** What reading [p] may give after a crash in state [s]; [None] is "no such file". *)
Definition reads (d : dir) (p : path) (c : option (list Z)) : Prop :=
  match d !! p with
  | Some (c', true) => c = Some c'
  | Some (_, false) => True
  | None => c = None
  end.

Definition crash_reads (s : fs) (p : path) (c : option (list Z)) : Prop :=
  reads (live s) p c \/ reads (durable s) p c.

Lemma path_tmp_ne p : p ++ TMP <> p.
Proof. intros H%(f_equal length). rewrite length_app in H. cbn in H. lia. Qed.

(** Writing chunks to the temporary file, stopped anywhere. *)
Lemma run_writes p tmp chunks s c b :
  tmp <> p -> live s !! tmp = Some (c, b) ->
  exists b', live (run s (WriteAll tmp <$> chunks)) !! tmp = Some (c ++ concat chunks, b') /\
    live (run s (WriteAll tmp <$> chunks)) !! p = live s !! p /\
    durable (run s (WriteAll tmp <$> chunks)) = durable s.
Proof.
  intros Hne. revert s c b. induction chunks as [|x chunks IH]; intros s c b Ht.
  - cbn. rewrite app_nil_r. by exists b.
  - change (run s (WriteAll tmp <$> x :: chunks))
      with (run (fs_step s (WriteAll tmp x)) (WriteAll tmp <$> chunks)).
    destruct (IH (fs_step s (WriteAll tmp x)) (c ++ x) false) as (b' & H1 & H2 & H3).
    + cbn. rewrite Ht. by rewrite lookup_insert_eq.
    + exists b'. rewrite H1, H2, H3. cbn. rewrite Ht, lookup_insert_ne by done.
      cbn [concat]. by rewrite app_assoc.
Qed.

Lemma run_app s a b : run s (a ++ b) = run (run s a) b.
Proof. apply foldl_app. Qed.

(** The state after each phase of the call. *)
Lemma run_created p chunks s :
  let s1 := run s (Create (p ++ TMP) :: (WriteAll (p ++ TMP) <$> chunks)) in
  exists b, live s1 !! (p ++ TMP) = Some (concat chunks, b) /\
    live s1 !! p = live s !! p /\ durable s1 = durable s.
Proof.
  destruct (run_writes p (p ++ TMP) chunks (fs_step s (Create (p ++ TMP))) [] false)
    as (b & H1 & H2 & H3); [apply path_tmp_ne|cbn; by rewrite lookup_insert_eq|].
  exists b. split; [done|]. split; [|done]. etransitivity; [exact H2|].
  cbn. by rewrite lookup_insert_ne by apply path_tmp_ne.
Qed.

(** The first [k] operations end in one of the call's phases. *)
Lemma atomic_write_phases p chunks k :
  let writes c := Create (p ++ TMP) :: (WriteAll (p ++ TMP) <$> c) in
  take k (atomic_write p chunks) = [] \/
  (exists chunks', take k (atomic_write p chunks) = writes chunks') \/
  exists j, take k (atomic_write p chunks)
    = writes chunks ++ take j [SyncFile (p ++ TMP); Rename (p ++ TMP) p; SyncParent].
Proof.
  intros writes. destruct k as [|k]; [by left|]. right.
  unfold atomic_write. cbn [app take].
  rewrite take_app. rewrite length_fmap. destruct (decide (k <= length chunks)) as [Hk|Hk].
  - left. exists (take k chunks). replace (k - length chunks) with 0 by lia.
    rewrite <- fmap_take. cbn [take]. by rewrite app_nil_r.
  - right. exists (k - length chunks). rewrite take_ge by len. done.
Qed.

(** The contents of [p] during the last phase. *)
Lemma run_last_phase p new s1 b j :
  live s1 !! (p ++ TMP) = Some (new, b) ->
  let s := run s1 (take j [SyncFile (p ++ TMP); Rename (p ++ TMP) p; SyncParent]) in
  (live s !! p = live s1 !! p \/ live s !! p = Some (new, true)) /\
  (durable s !! p = durable s1 !! p \/ durable s !! p = Some (new, true)) /\
  (3 <= j -> live s !! p = Some (new, true) /\ durable s !! p = Some (new, true)).
Proof.
  intros Ht s. pose proof (path_tmp_ne p) as Hne.
  assert (Hs : live_step (live s1) (SyncFile (p ++ TMP)) = <[p ++ TMP := (new, true)]> (live s1))
    by (cbn; by rewrite Ht).
  assert (Hr : live_step (<[p ++ TMP := (new, true)]> (live s1)) (Rename (p ++ TMP) p) !! p
    = Some (new, true)) by (cbn; by rewrite lookup_insert_eq, lookup_insert_eq).
  assert (Hsame : live_step (live s1) (SyncFile (p ++ TMP)) !! p = live s1 !! p)
    by (rewrite Hs; by rewrite lookup_insert_ne).
  assert (take j [SyncFile (p ++ TMP); Rename (p ++ TMP) p; SyncParent]
    = take (min j 3) [SyncFile (p ++ TMP); Rename (p ++ TMP) p; SyncParent]) as E
    by (destruct j as [|[|[|[|j]]]]; done).
  unfold s. rewrite E. destruct j as [|[|[|j]]]; cbn [Nat.min take run foldl].
  - split; [by left|]. split; [by left|lia].
  - cbn [fs_step live durable]. split; [by left|]. split; [by left|lia].
  - cbn [fs_step live durable]. rewrite Hs. split; [by right|]. split; [by left|lia].
  - replace (Nat.min j 0) with 0 by lia. cbn [take foldl fs_step live durable].
    change (live_step ?d SyncParent) with d. rewrite Hs. auto.
Qed.

End AtomicWrite.

Import AtomicWrite.

(** Crash safety of persisted files.  If [path] holds a synced file or
    does not exist, then stopping [atomic_write] after any number of its file
    operations and crashing leaves [path] reading as before or as the complete new
    contents, never as a partial file; the finished call leaves the new contents. *)
Theorem atomic_write_crash_safe p chunks s old k c :
  live s !! p = old -> durable s !! p = old -> (forall d, old <> Some (d, false)) ->
  crash_reads (run s (take k (atomic_write p chunks))) p c ->
  (c = fst <$> old \/ c = Some (concat chunks)) /\
  (length (atomic_write p chunks) <= k -> c = Some (concat chunks)).
Proof.
  intros Hl Hd Hsync Hc.
  assert (Hread : forall d, d !! p = old -> reads d p c -> c = fst <$> old).
  { intros d Hdp. unfold reads. rewrite Hdp. destruct old as [[o [|]]|]; [done| |done].
    by destruct (Hsync o). }
  assert (Hnew : forall d, d !! p = Some (concat chunks, true) -> reads d p c -> c = Some (concat chunks)).
  { intros d Hdp. unfold reads. by rewrite Hdp. }
  assert (Hlen : length (atomic_write p chunks) = length chunks + 4) by (unfold atomic_write; len).
  assert (Htk : length (take k (atomic_write p chunks)) = min k (length chunks + 4)) by (rewrite <- Hlen; len).
  destruct (atomic_write_phases p chunks k) as [Hk|[[chunks' Hk]|[j Hk]]]; rewrite Hk in Hc, Htk.
  - cbn in Hc, Htk. split; [left; destruct Hc; eauto|lia].
  - destruct (run_created p chunks' s) as (b & Ht & Hp & Hdur). unfold crash_reads in Hc.
    rewrite Hdur in Hc. cbn [length] in Htk. rewrite length_fmap in Htk.
    split; [left; destruct Hc as [Hc|Hc]; eapply Hread; [|exact Hc| |exact Hc]; congruence|].
    intros. assert (length (take k (atomic_write p chunks)) = length (atomic_write p chunks)) as Hx
      by (rewrite length_take; lia).
    rewrite take_ge in Hk by lia. exfalso. revert Hk. unfold atomic_write. cbn [app].
    intros [= Hk]. apply (f_equal last) in Hk. rewrite last_app in Hk. cbn in Hk.
    rewrite fmap_last in Hk. by destruct (last chunks').
  - rewrite run_app in Hc.
    destruct (run_created p chunks s) as (b & Ht & Hp & Hdur).
    set (s1 := run s (Create (p ++ TMP) :: (WriteAll (p ++ TMP) <$> chunks))) in *.
    destruct (run_last_phase p _ s1 b j Ht) as (H1 & H2 & H3). split.
    + destruct Hc as [Hc|Hc].
      * destruct H1 as [H1|H1]; [left; eapply Hread; [|exact Hc]; congruence|right; eauto].
      * destruct H2 as [H2|H2]; [left; eapply Hread; [|exact Hc]; congruence|right; eauto].
    + intros Hge. destruct H3 as [H3 H4].
      { revert Htk. rewrite length_app, length_take. cbn [length]. rewrite length_fmap. lia. }
      destruct Hc; eauto.
Qed.

Lemma atomic_write_witness :
  crash_reads (run (mkFs {[ [99]%Z := ([1]%Z, true) ]} {[ [99]%Z := ([1]%Z, true) ]})
    (take 4 (atomic_write [99]%Z [[7; 8]; [9]]%Z))) [99]%Z (Some [1]%Z) /\
  ((Some [1] : option (list Z)) = Some [1] \/ Some [1] = Some [7; 8; 9])%Z.
Proof.
  assert (crash_reads (run (mkFs {[ [99]%Z := ([1]%Z, true) ]} {[ [99]%Z := ([1]%Z, true) ]})
    (take 4 (atomic_write [99]%Z [[7; 8]; [9]]%Z))) [99]%Z (Some [1]%Z)) as H
    by (left; by vm_compute).
  split; [exact H|].
  apply (atomic_write_crash_safe [99]%Z [[7; 8]; [9]]%Z
    (mkFs {[ [99]%Z := ([1]%Z, true) ]} {[ [99]%Z := ([1]%Z, true) ]}) (Some ([1]%Z, true)) 4 _);
    [by vm_compute|by vm_compute|done|exact H].
Defined.
