(* ===== verification/CacheMap.v ===== *)
(** * The concurrent cache interface

    PathDNS keeps its response and verdict caches in [quick_cache::sync::Cache]
    (a third-party crate).  [CacheMap] states what the code relies on: a lookup
    returns the value last stored under the key unless it was evicted or removed,
    an insertion may evict anything, iteration visits each present entry once.
    The theorems about the caches are proved against these laws; [gmap] is an
    instance. *)

From S2P Require Import Prelude.

(** Operations, with the observable contents [cm_view]. *)
Class CacheMap (S K V : Type) `{Countable K} := {
  cm_view : S -> gmap K V;
  cm_new : Z -> S;
  cm_get : S -> K -> option V * S;
  cm_insert : S -> K -> V -> S;
  cm_remove : S -> K -> S;
  cm_clear : S -> S;
  cm_iter : S -> list (K * V)
}.

Class CacheMapLaws (S K V : Type) `{CacheMap S K V} := {
  cm_new_view cap : cm_view (cm_new cap) = ∅;
  cm_get_value s k : fst (cm_get s k) = cm_view s !! k;
  cm_get_view s k : cm_view (snd (cm_get s k)) = cm_view s;
  cm_insert_view s k v : cm_view (cm_insert s k v) ⊆ <[k := v]> (cm_view s);
  cm_remove_view s k : cm_view (cm_remove s k) ⊆ delete k (cm_view s);
  cm_clear_view s : cm_view (cm_clear s) = ∅;
  cm_iter_view s : NoDup (fst <$> cm_iter s) /\
    forall k v, (k, v) ∈ cm_iter s <-> cm_view s !! k = Some v
}.

(** The unbounded map as an instance. *)
#[export] Instance gmap_CacheMap {K V} `{Countable K} : CacheMap (gmap K V) K V := {|
  cm_view := id;
  cm_new := fun _ => ∅;
  cm_get := fun s k => (s !! k, s);
  cm_insert := fun s k v => <[k := v]> s;
  cm_remove := fun s k => delete k s;
  cm_clear := fun _ => ∅;
  cm_iter := map_to_list
|}.

#[export] Instance gmap_CacheMapLaws {K V} `{Countable K} : CacheMapLaws (gmap K V) K V.
Proof.
  constructor; try done.
  intros s. split; [apply NoDup_fst_map_to_list|]. intros. apply elem_of_map_to_list.
Qed.

(** A map that holds one entry: every insertion evicts what was there. *)
#[export] Instance single_CacheMap {K V} `{Countable K} : CacheMap (option (K * V)) K V := {|
  cm_view := fun s => match s with Some (k, v) => {[ k := v ]} | None => ∅ end;
  cm_new := fun _ => None;
  cm_get := fun s k =>
    (match s with Some (k', v) => if decide (k' = k) then Some v else None | None => None end, s);
  cm_insert := fun _ k v => Some (k, v);
  cm_remove := fun s k =>
    match s with Some (k', v) => if decide (k' = k) then None else s | None => None end;
  cm_clear := fun _ => None;
  cm_iter := fun s => match s with Some kv => [kv] | None => [] end
|}.

#[export] Instance single_CacheMapLaws {K V} `{Countable K} : CacheMapLaws (option (K * V)) K V.
Proof.
  constructor; try done.
  - intros [[k' v]|] k; cbn; [|by rewrite lookup_empty].
    case_decide as Hk; [subst; by rewrite lookup_singleton_eq|by rewrite lookup_singleton_ne].
  - intros s k v. cbn. apply insert_mono, map_empty_subseteq.
  - intros [[k' v]|] k; cbn; [|apply map_empty_subseteq].
    case_decide as Hk; [apply map_empty_subseteq|].
    rewrite delete_singleton_ne by done. done.
  - intros [[k' v]|]; cbn.
    + split; [apply NoDup_singleton|]. intros k w.
      rewrite list_elem_of_singleton, lookup_singleton_Some. naive_solver.
    + split; [apply NoDup_nil; exact I|]. intros k w.
      rewrite lookup_empty. split; [by intros ?%not_elem_of_nil|done].
Qed.

(** An invariant of all stored values is kept by every operation. *)
Section preservation.
Context {S K V : Type} `{CacheMapLaws S K V} (P : K -> V -> Prop).

Definition cm_all (s : S) : Prop := map_Forall P (cm_view s).

Lemma cm_all_new cap : cm_all (cm_new cap).
Proof. unfold cm_all. rewrite cm_new_view. apply map_Forall_empty. Qed.

Lemma cm_all_get s k : cm_all s -> cm_all (snd (cm_get s k)).
Proof. unfold cm_all. by rewrite cm_get_view. Qed.

Lemma cm_all_insert s k v : P k v -> cm_all s -> cm_all (cm_insert s k v).
Proof.
  unfold cm_all. intros Hv Hs i x Hx. pose proof (cm_insert_view s k v) as Hsub.
  apply (lookup_weaken _ _ _ _ Hx) in Hsub.
  apply lookup_insert_Some in Hsub as [[-> ->]|[_ Hi]]; [done|by apply Hs].
Qed.

Lemma cm_all_remove s k : cm_all s -> cm_all (cm_remove s k).
Proof.
  unfold cm_all. intros Hs i x Hx. pose proof (cm_remove_view s k) as Hsub.
  apply (lookup_weaken _ _ _ _ Hx), lookup_delete_Some in Hsub as [_ Hi]. by apply Hs.
Qed.

Lemma cm_all_clear s : cm_all (cm_clear s).
Proof. unfold cm_all. rewrite cm_clear_view. apply map_Forall_empty. Qed.

Lemma cm_all_get_value s k v : cm_all s -> fst (cm_get s k) = Some v -> P k v.
Proof. rewrite cm_get_value. intros Hs Hv. by apply Hs. Qed.
End preservation.
