(* ===== verification/Cache.v ===== *)
(** * The DNS response cache (src/src/cache.rs)

    Cache keys, entries, insertion, lookup with the ECS fallback, and the on-disk
    format.  The store itself is any [CacheMap].  Instants are nanoseconds since
    an arbitrary origin; every clock reading is an argument. *)

From S2P Require Import Prelude Hasher DnsName DnsQuery Utf8 DnsQname DnsRecords DnsEdns Persist CacheMap.

(** ** Keys *)

Definition b2z (b : bool) : Z := if b then 1 else 0.

Definition write_ecs (h : Fnv1a.t) (o : option EcsSrc) : Fnv1a.t :=
  match o with
  | None => Fnv1a.write_byte h 0
  | Some ecs =>
      let h := Fnv1a.write_byte h 1 in
      let h := Fnv1a.write h (ecs_addr ecs) in
      Fnv1a.write_byte h (ecs_prefix_len ecs)
  end.

Definition finish_cache_key (h : Fnv1a.t) (question : list Z) (pos_after_qname : nat)
    (v : QueryVariant) (strip_ecs : bool) : Z :=
  let h := Fnv1a.write h (default [] (get_slice question pos_after_qname (length question))) in
  let h := Fnv1a.write_byte h (b2z (has_opt v)) in
  let h := Fnv1a.write_byte h (b2z (do_bit v)) in
  let h := Fnv1a.write_byte h (edns_version v) in
  let h := Fnv1a.write_byte h (b2z (rd v)) in
  let h := Fnv1a.write_byte h (b2z (ad v)) in
  let h := Fnv1a.write_byte h (b2z (cd v)) in
  let h := if strip_ecs then Fnv1a.write_byte h 0 else write_ecs h (ecs_src v) in
  let h := Fnv1a.write h (to_le 8 (extra_opts_hash v)) in
  Fnv1a.finish h.

(** Release builds: [debug_assert!] is compiled out. *)
Definition invalid_shape_key (query : list Z) (question_end : nat) : Z :=
  let h := Fnv1a.write Fnv1a.new query in
  let h := Fnv1a.write_sep h in
  let h := Fnv1a.write h (to_le 8 (wrap 64 (Z.of_nat question_end))) in
  Fnv1a.finish h.

Definition cache_key_with_variant (query : list Z) (question_end : nat) (v : QueryVariant)
    (strip_ecs : bool) : outcome Z :=
  if decide (length query < 12 \/ question_end < 16 \/ length query < question_end)
  then Ret (invalid_shape_key query question_end)
  else
    let! question := slice query 12 question_end in
    let! (h, pos) := Fnv1a.write_qname_wire Fnv1a.new question in
    Ret (finish_cache_key h question pos v strip_ecs).

Definition cache_key_with_variant_from_qname_hash (query : list Z) (question_end : nat)
    (qname_hash : Fnv1a.t) (qname_hash_end : nat) (v : QueryVariant) (strip_ecs : bool) : outcome Z :=
  if decide (length query < 12 \/ question_end < 16 \/ length query < question_end)
  then Ret (invalid_shape_key query question_end)
  else
    let! question := slice query 12 question_end in
    Ret (finish_cache_key qname_hash question qname_hash_end v strip_ecs).

(** ** Entries and lookups *)

Record Entry := mkEntry {
  e_packet : list Z;
  e_query : list Z;
  e_qname : list Z;
  e_question_end : nat;
  e_variant : QueryVariant;
  e_inserted : Z;
  e_ttl : Z;
  e_ttl_offsets : TtlOffsets;
  e_rule_id : Z
}.

Record CacheLookupMeta := mkCacheLookupMeta {
  meta_qname : option (list Z);
  meta_rule_id : Z
}.

Record KeyedLookup := mkKeyedLookup {
  kl_key : Z;
  kl_query : list Z;
  kl_question_end : nat;
  kl_client_id : Z;
  kl_strip_ecs : bool;
  kl_variant : QueryVariant;
  kl_collect_qname : bool
}.

Record CacheProbe := mkCacheProbe {
  probe_variant : QueryVariant;
  probe_regular_key : Z;
  probe_stripped_key : option Z
}.

Record ResolvedCachePolicy := mkResolvedCachePolicy {
  pol_skip : bool;
  pol_nodata_ttl : Z;
  pol_min_ttl : Z;
  pol_max_ttl : Z
}.

(** [config::RuleCachePolicy] *)
Record RuleCachePolicy := mkRuleCachePolicy {
  rule_skip : bool;
  rule_min_ttl : option Z;
  rule_max_ttl : option Z
}.

(** [config::CacheConfig] *)
Record CacheConfig := mkCacheConfig {
  cfg_capacity : Z;
  cfg_min_ttl : Z;
  cfg_max_ttl : Z
}.

Record CacheInsert := mkCacheInsert {
  ins_key : Z;
  ins_qname : list Z;
  ins_question_end : nat;
  ins_query : list Z;
  ins_variant : QueryVariant;
  ins_packet : list Z
}.

Definition queries_match_v (stored_v live_v : QueryVariant) (stored_question_end : nat)
    (stored query : list Z) (question_end : nat) (strip_ecs : bool) : outcome bool :=
  if decide (length query < question_end \/ stored_question_end <> question_end \/
             length query < 12 \/ length stored < 12)
  then Ret false
  else
    let! a := slice stored 12 question_end in
    let! b := slice query 12 question_end in
    let! m := questions_match a b in
    if negb m then Ret false
    else if strip_ecs then
      Ret (bool_decide (has_opt stored_v = has_opt live_v) &&
           bool_decide (do_bit stored_v = do_bit live_v) &&
           bool_decide (edns_version stored_v = edns_version live_v) &&
           bool_decide (rd stored_v = rd live_v) &&
           bool_decide (ad stored_v = ad live_v) &&
           bool_decide (cd stored_v = cd live_v))
    else Ret (bool_decide (stored_v = live_v)).

(** [now.saturating_duration_since(inserted).as_secs()] *)
Definition NANOS : Z := 1000000000.
Definition secs_since (now inserted : Z) : Z := (sat_sub now inserted / NANOS)%Z.

(** [let _ = dns::set_id(buf, id)] *)
Definition set_id_or_keep (buf : list Z) (id : Z) : outcome (list Z) :=
  let! r := set_id buf id in
  Ret (match r with Ok b => b | Err _ => buf end).

Definition U16_MAX : Z := 65535.
Definition U32_MAX : Z := 4294967295.

Section cache.
Context {S : Type} `{!CacheMap S Z Entry}.

Record DnsCache := mkDnsCache {
  dc_cache : option S;
  dc_min_ttl : Z;
  dc_max_ttl : Z
}.

Definition cache_new (cfg : CacheConfig) : DnsCache :=
  mkDnsCache (if decide (0 < cfg_capacity cfg)%Z then Some (cm_new (cfg_capacity cfg)) else None)
    (cfg_min_ttl cfg) (cfg_max_ttl cfg).

Definition is_enabled (self : DnsCache) : bool :=
  match dc_cache self with Some _ => true | None => false end.

Definition entry_count (self : DnsCache) : Z :=
  match dc_cache self with Some c => Z.of_nat (length (cm_iter c)) | None => 0 end.

Definition with_cache (self : DnsCache) (c : S) : DnsCache :=
  mkDnsCache (Some c) (dc_min_ttl self) (dc_max_ttl self).

Definition resolve_policy (self : DnsCache) (policy : option RuleCachePolicy) : ResolvedCachePolicy :=
  {| pol_skip := match policy with Some p => rule_skip p | None => false end;
     pol_nodata_ttl := 0;
     pol_min_ttl := default (dc_min_ttl self) (policy ≫= rule_min_ttl);
     pol_max_ttl := default (dc_max_ttl self) (policy ≫= rule_max_ttl) |}.

Definition add (self : DnsCache) (ins : CacheInsert) (policy : ResolvedCachePolicy)
    (rule_id now : Z) : outcome DnsCache :=
  match dc_cache self with
  | None => Ret self
  | Some cache =>
      let! truncated := is_truncated (ins_packet ins) in
      if (truncated : bool) then Ret self
      else
        let! r := effective_ttl_and_offsets (ins_packet ins) (ins_question_end ins)
          (pol_nodata_ttl policy) (pol_min_ttl policy) (pol_max_ttl policy) in
        match r with
        | None => Ret self
        | Some (raw_ttl, ttl_offsets) =>
            let! packet := set_id_or_keep (ins_packet ins) 0 in
            let entry := {| e_packet := packet; e_query := ins_query ins; e_qname := ins_qname ins;
                            e_question_end := ins_question_end ins; e_variant := ins_variant ins;
                            e_inserted := now; e_ttl := raw_ttl; e_ttl_offsets := ttl_offsets;
                            e_rule_id := rule_id |} in
            Ret (with_cache self (cm_insert cache (ins_key ins) entry))
        end
  end.

Definition invalidate_all (self : DnsCache) : DnsCache :=
  match dc_cache self with
  | Some cache => with_cache self (cm_clear cache)
  | None => self
  end.

(** The result, the caller's buffer and the cache afterwards. *)
Definition lookup_into_keyed (self : DnsCache) (l : KeyedLookup) (out : list Z) (now : Z)
  : outcome (option CacheLookupMeta * list Z * DnsCache) :=
  match dc_cache self with
  | None => Ret (None, out, self)
  | Some cache =>
      match get_slice (kl_query l) 12 (kl_question_end l) with
      | None => Ret (None, out, self)
      | Some question =>
          let '(found, cache) := cm_get cache (kl_key l) in
          match found with
          | None => Ret (None, out, with_cache self cache)
          | Some entry =>
              let! matched := queries_match_v (e_variant entry) (kl_variant l)
                (e_question_end entry) (e_query entry) (kl_query l) (kl_question_end l)
                (kl_strip_ecs l) in
              if negb matched then Ret (None, out, with_cache self cache)
              else
                let age := secs_since now (e_inserted entry) in
                if decide (e_ttl entry <= age)%Z then
                  Ret (None, out, with_cache self (cm_remove cache (kl_key l)))
                else
                  let elapsed := Z.min age U32_MAX in
                  let! out := set_id_or_keep (e_packet entry) (kl_client_id l) in
                  let! out :=
                    if decide (kl_question_end l <= length out) then copy_at out 12 question
                    else Ret out in
                  let out := patch_ttls_at out (e_ttl_offsets entry) elapsed in
                  Ret (Some {| meta_qname := if kl_collect_qname l then Some (e_qname entry) else None;
                               meta_rule_id := e_rule_id entry |},
                       out, with_cache self cache)
          end
      end
  end.

Definition get_into_with_ecs_fallback (self : DnsCache) (query : list Z) (fast : FastQueryInfo)
    (out : list Z) (collect_qname : bool) (now1 now2 : Z)
  : outcome (option CacheLookupMeta * CacheProbe * list Z * DnsCache) :=
  let question_end := fast_question_end fast in
  let! live_v := extract_variant query question_end in
  let! regular_key := cache_key_with_variant_from_qname_hash query question_end
    (fast_qname_wire_hash fast) (fast_qname_wire_hash_end fast) live_v false in
  let! (hit, out, self) := lookup_into_keyed self
    (mkKeyedLookup regular_key query question_end (fast_id fast) false live_v collect_qname) out now1 in
  match hit with
  | Some hit => Ret (Some hit, mkCacheProbe live_v regular_key None, out, self)
  | None =>
      match ecs_src live_v with
      | Some _ =>
          let! sk := cache_key_with_variant_from_qname_hash query question_end
            (fast_qname_wire_hash fast) (fast_qname_wire_hash_end fast) live_v true in
          let! (hit, out, self) := lookup_into_keyed self
            (mkKeyedLookup sk query question_end (fast_id fast) true live_v collect_qname) out now2 in
          Ret (hit, mkCacheProbe live_v regular_key (Some sk), out, self)
      | None => Ret (None, mkCacheProbe live_v regular_key None, out, self)
      end
  end.

(** The calls [f(rule_id, packet, question_end)] made, in iteration order. *)
Definition for_each_rule_entry (self : DnsCache) (now : Z) : list (Z * list Z * nat) :=
  match dc_cache self with
  | None => []
  | Some cache =>
      (fun kv => (e_rule_id (snd kv), e_packet (snd kv), e_question_end (snd kv))) <$>
      filter (fun kv => e_rule_id (snd kv) <> U16_MAX /\
                        (secs_since now (e_inserted (snd kv)) < e_ttl (snd kv))%Z) (cm_iter cache)
  end.
End cache.
Arguments DnsCache S : clear implicits.
