(* ===== verification/CacheKey.v ===== *)
(** * Cache keys

    The key of a query is the FNV-1a hash of its key material: the case-folded
    wire name, QTYPE and QCLASS, and the variant.  The key resumed from the
    parser's hash equals the key computed afresh, equal material gives equal
    keys, and changing any single byte of the material changes the key. *)

From S2P Require Import Prelude Hasher DnsName DnsQuery DnsRecords DnsEdns Ecs DnsMessage Persist CacheMap Cache.

Definition ecs_bytes (o : option EcsSrc) : list Z :=
  match o with
  | None => [0%Z]
  | Some e => 1%Z :: ecs_addr e ++ [ecs_prefix_len e]
  end.

Definition variant_flags (v : QueryVariant) : list Z :=
  [b2z (has_opt v); b2z (do_bit v); edns_version v; b2z (rd v); b2z (ad v); b2z (cd v)].

Definition key_material (ls : list (list Z)) (tail : list Z) (v : QueryVariant) (strip_ecs : bool)
  : list Z :=
  encode_name (lower_name ls) ++ tail ++ variant_flags v ++
  ecs_bytes (if strip_ecs then None else ecs_src v) ++ to_le 8 (extra_opts_hash v).

Definition variant_ok (v : QueryVariant) : Prop :=
  is_byte (edns_version v) /\
  match ecs_src v with Some e => bytes_ok (ecs_addr e) /\ is_byte (ecs_prefix_len e) | None => True end.

(** ** The wire-name writer on an encoded name *)

Lemma write_qname_wire_loop_encoded ls fuel pre rest h :
  Forall label_ok ls -> length (encode_name ls) <= fuel ->
  Fnv1a.write_qname_wire_loop fuel h (pre ++ encode_name ls ++ rest) (length pre)
  = Ret (Fnv1a.write h (encode_name (lower_name ls)), length pre + length (encode_name ls)).
Proof.
  intros Hls. revert fuel pre h.
  induction Hls as [|l ls [Hl Hb] Hls IH]; intros fuel pre h Hf;
    (destruct fuel as [|fuel]; [pose proof (length_encode_name_pos []); simpl in Hf; lia|]);
    cbn [Fnv1a.write_qname_wire_loop].
  - rewrite encode_name_nil. cbn [app]. rewrite list_lookup_middle by done. done.
  - rewrite encode_name_cons in *. cbn [app length] in *. rewrite length_app in Hf.
    rewrite <- !app_assoc.
    rewrite list_lookup_middle by done. rewrite decide_False by lia. rewrite Nat2Z.id.
    pose proof (length_encode_name_pos ls).
    replace (min _ _) with (length pre + 1 + length l) by (autorewrite with len; cbn; len).
    rewrite slice_Ret by len. cbn [obind].
    replace (length pre + 1 + length l - (length pre + 1)) with (length l) by lia.
    rewrite (drop_app_ge pre) by lia. replace (length pre + 1 - length pre) with 1 by lia.
    cbn [drop]. rewrite drop_0, take_app_length, write_lower_foldl.
    specialize (IH fuel (pre ++ Z.of_nat (length l) :: l)). rewrite <- app_assoc in IH.
    cbn [app] in IH.
    replace (length (pre ++ Z.of_nat (length l) :: l)) with (length pre + 1 + length l) in IH by len.
    rewrite IH by lia. do 2 f_equal; [|len].
    cbn [lower_name fmap list_fmap]. rewrite encode_name_cons, length_lower_label. cbn [Fnv1a.write foldl].
    symmetry. apply write_app.
Qed.

Lemma write_qname_wire_encoded ls rest :
  Forall label_ok ls ->
  Fnv1a.write_qname_wire Fnv1a.new (encode_name ls ++ rest)
  = Ret (Fnv1a.write Fnv1a.new (encode_name (lower_name ls)), length (encode_name ls)).
Proof.
  intros Hls. apply (write_qname_wire_loop_encoded ls (S (length (encode_name ls ++ rest))) [] rest); [done|len].
Qed.

(** ** Keys as hashes of the material *)

Lemma write_cons h a l : Fnv1a.write h (a :: l) = Fnv1a.write (Fnv1a.write_byte h a) l.
Proof. reflexivity. Qed.

Lemma write_nil h : Fnv1a.write h [] = h.
Proof. reflexivity. Qed.

Lemma write_ecs_eq h o : write_ecs h o = Fnv1a.write h (ecs_bytes o).
Proof.
  destruct o as [e|]; [|done]. cbn [write_ecs ecs_bytes].
  by rewrite write_cons, write_app, write_cons, write_nil.
Qed.

Lemma finish_cache_key_eq h ls tail v strip :
  h = Fnv1a.write Fnv1a.new (encode_name (lower_name ls)) ->
  finish_cache_key h (encode_name ls ++ tail) (length (encode_name ls)) v strip
  = Fnv1a.write Fnv1a.new (key_material ls tail v strip).
Proof.
  intros ->. unfold finish_cache_key, key_material, Fnv1a.finish.
  assert (get_slice (encode_name ls ++ tail) (length (encode_name ls)) (length (encode_name ls ++ tail))
    = Some tail) as ->.
  { unfold get_slice. rewrite decide_True by len. by rewrite drop_app_length, take_ge by len. }
  cbn [default]. unfold id. rewrite !write_app. unfold variant_flags.
  rewrite !write_cons, write_nil. destruct strip; [|by rewrite write_ecs_eq].
  cbn [ecs_bytes]. rewrite write_cons, write_nil. reflexivity.
Qed.

Lemma slice_inv {A} (l : list A) i j x : slice l i j = Ret x -> take (j - i) (drop i l) = x.
Proof. unfold slice. case_decide; congruence. Qed.

Lemma question_slice p ls tail :
  question_of p ls tail ->
  slice p 12 (12 + length (encode_name ls) + 4) = Ret (encode_name ls ++ tail) /\
  16 <= 12 + length (encode_name ls) + 4 <= length p.
Proof.
  intros (hdr & rest & -> & Hh & Ht & _). pose proof (length_encode_name_pos ls).
  split; [|len]. rewrite slice_Ret by len. f_equal.
  rewrite drop_app_length' by lia. rewrite app_assoc. by rewrite take_app_length' by len.
Qed.

Lemma fused_key_eq p ls tail v strip :
  question_of p ls tail ->
  cache_key_with_variant_from_qname_hash p (12 + length (encode_name ls) + 4)
    (Fnv1a.write Fnv1a.new (encode_name (lower_name ls))) (length (encode_name ls)) v strip
  = Ret (Fnv1a.write Fnv1a.new (key_material ls tail v strip)).
Proof.
  intros Hq. destruct (question_slice _ _ _ Hq) as [Hs Hl].
  unfold cache_key_with_variant_from_qname_hash. rewrite decide_False by lia. rewrite Hs.
  cbn [obind]. by rewrite finish_cache_key_eq.
Qed.

(** The fused cache key.  For every query the parser accepts, the key
    resumed from the hash and offset that [parse_query_fast] reported equals the key
    [cache_key_with_variant] computes from the raw bytes, for every variant and both
    ECS modes; both are the FNV-1a hash of the key material, so queries that agree on
    the name up to ASCII case, on QTYPE, QCLASS and variant share one key, whatever
    their IDs and additional bytes. *)
Theorem cache_key_fused p fi v strip :
  bytes_ok p -> parse_query_fast p = Ret (Ok fi) ->
  exists ls tail, question_of p ls tail /\
    cache_key_with_variant_from_qname_hash p (fast_question_end fi) (fast_qname_wire_hash fi)
      (fast_qname_wire_hash_end fi) v strip
    = Ret (Fnv1a.write Fnv1a.new (key_material ls tail v strip)) /\
    cache_key_with_variant p (fast_question_end fi) v strip
    = Ret (Fnv1a.write Fnv1a.new (key_material ls tail v strip)).
Proof.
  intros Hp Hf. apply parse_query_fast_sound in Hf as (_ & ls & tail & Hq & ->); [|done].
  exists ls, tail. split; [done|]. cbn [fast_question_end fast_qname_wire_hash fast_qname_wire_hash_end].
  split; [by apply fused_key_eq|].
  destruct (question_slice _ _ _ Hq) as [Hs Hl]. destruct Hq as (? & ? & _ & _ & _ & Hls & _).
  unfold cache_key_with_variant. rewrite decide_False by lia. rewrite Hs. cbn [obind].
  rewrite write_qname_wire_encoded by done. cbn [obind]. by rewrite finish_cache_key_eq.
Qed.

(** One changed byte changes the key.  If the key materials of two
    queries have the same length and differ in exactly one byte (one flag, the EDNS
    version, one byte of the type, the class, the name or the subnet), the keys
    differ, so such queries never meet in one cache slot. *)
Theorem cache_key_separates ls1 t1 v1 s1 ls2 t2 v2 s2 i b :
  Forall label_ok ls1 -> bytes_ok t1 -> variant_ok v1 ->
  i < length (key_material ls1 t1 v1 s1) -> is_byte b -> nthb (key_material ls1 t1 v1 s1) i <> b ->
  key_material ls2 t2 v2 s2 = <[i := b]> (key_material ls1 t1 v1 s1) ->
  Fnv1a.write Fnv1a.new (key_material ls2 t2 v2 s2) <> Fnv1a.write Fnv1a.new (key_material ls1 t1 v1 s1).
Proof.
  intros Hls Ht [Hv1 Hv2] Hi Hb Hne ->.
  assert (Hm : bytes_ok (key_material ls1 t1 v1 s1)).
  { unfold key_material, variant_flags. assert (Forall label_ok (lower_name ls1)) as Hl by by apply lower_name_ok.
    assert (forall x, is_byte (b2z x)) as Hbz by (intros []; unfold u_ok; cbn; lia).
    repeat (apply Forall_app; split); auto with bytes; [repeat (apply Forall_cons; split; [auto|]); done|].
    destruct s1; cbn; [bytes|]. destruct (ecs_src v1) as [e|]; cbn; [|bytes].
    destruct Hv2. apply Forall_cons; split; [unfold u_ok; lia|]. apply Forall_app. split; [done|].
    by apply Forall_singleton. }
  set (m := key_material ls1 t1 v1 s1) in *.
  rewrite insert_take_drop by done. rewrite <- (take_drop_middle m i (nthb m i)) at 3 by by apply nthb_lookup.
  apply not_eq_sym. apply write_differ_once; [by apply bytes_symbols, Forall_drop|by apply byte_symbol, nthb_ok|by apply byte_symbol|done|apply new_ok].
Qed.
