(* ===== verification/CacheCorrect.v ===== *)
(** * Correctness of the response cache

    The invariant of stored entries, its preservation by every operation, and what
    a hit means: the stored answer to the same question (up to case) and variant,
    still fresh, with the client's ID and question bytes and aged TTLs. *)

From S2P Require Import Prelude Hasher DnsName DnsQuery Utf8 DnsQname DnsRecords DnsEdns Ecs DnsMessage DnsBuilder Persist CacheMap Cache CacheKey.

(** ** The entry invariant *)

Definition entry_ok (_ : Z) (e : Entry) : Prop :=
  bytes_ok (e_packet e) /\ bytes_ok (e_query e) /\
  12 <= length (e_packet e) /\ 12 <= e_question_end e <= length (e_query e) /\
  fields_ok (e_question_end e) (length (e_packet e)) (e_ttl_offsets e) /\
  Forall (fun q => u_ok 32 (snd q)) (e_ttl_offsets e) /\ u_ok 32 (e_ttl e).

(** What callers of [add] guarantee. *)
Definition insert_ok (ins : CacheInsert) : Prop :=
  bytes_ok (ins_packet ins) /\ bytes_ok (ins_query ins) /\
  (Z.of_nat (length (ins_packet ins)) < 65536)%Z /\
  12 <= ins_question_end ins <= length (ins_query ins).

Definition policy_ok (p : ResolvedCachePolicy) : Prop :=
  u_ok 32 (pol_nodata_ttl p) /\ u_ok 32 (pol_min_ttl p) /\ u_ok 32 (pol_max_ttl p).

(** The bytes served for [entry] to a client asking [question] with [id]. *)
Definition served (entry : Entry) (id : Z) (question : list Z) (elapsed : Z) : list Z :=
  let p := to_be 2 id ++ drop 2 (e_packet entry) in
  patch_ttls_at
    (if decide (12 + length question <= length p) then splice p 12 question else p)
    (e_ttl_offsets entry) elapsed.

(** Agreement of variants as [queries_match_v] tests it. *)
Definition variants_match (a b : QueryVariant) (strip : bool) : Prop :=
  if strip then
    has_opt a = has_opt b /\ do_bit a = do_bit b /\ edns_version a = edns_version b /\
    rd a = rd b /\ ad a = ad b /\ cd a = cd b
  else a = b.

#[export] Instance variants_match_dec a b s : Decision (variants_match a b s).
Proof. destruct s; cbn; apply _. Defined.

Lemma queries_match_v_eq k e query qe v strip :
  entry_ok k e -> 12 <= qe <= length query ->
  exists m, questions_match (take (qe - 12) (drop 12 (e_query e))) (take (qe - 12) (drop 12 query)) = Ret m /\
  queries_match_v (e_variant e) v (e_question_end e) (e_query e) query qe strip
  = Ret (bool_decide (e_question_end e = qe /\ m = true /\ variants_match (e_variant e) v strip)).
Proof.
  intros (_ & _ & _ & Hqe & _) Hq.
  destruct (questions_match_total (take (qe - 12) (drop 12 (e_query e))) (take (qe - 12) (drop 12 query)))
    as [m Hm]. exists m. split; [done|].
  unfold queries_match_v. case_decide as Hd.
  - rewrite bool_decide_eq_false_2; [done|]. intros (? & _). lia.
  - assert (e_question_end e = qe) as He by (destruct (decide (e_question_end e = qe)); [done|lia]).
    rewrite !slice_Ret by lia. cbn [obind]. rewrite Hm. cbn [obind].
    destruct m; cbn [negb].
    + destruct strip; cbn [variants_match]; f_equal.
      * rewrite <- !bool_decide_and. apply bool_decide_ext. tauto.
      * apply bool_decide_ext. tauto.
    + rewrite bool_decide_eq_false_2; [done|]. intros (_ & ? & _). done.
Qed.

Section correct.
Context {S : Type} `{!CacheMap S Z Entry, !CacheMapLaws S Z Entry}.
Implicit Types (c : DnsCache S) (l : KeyedLookup).

Definition cache_ok c : Prop :=
  match dc_cache c with Some s => cm_all entry_ok s | None => True end.

(** The entry a lookup finds under its key. *)
Definition stored_entry c (k : Z) : option Entry :=
  match dc_cache c with Some s => cm_view s !! k | None => None end.

Definition lookup_ok l : Prop := bytes_ok (kl_query l) /\ u_ok 16 (kl_client_id l).

(** The question bytes of the live query. *)
Definition live_question l : list Z := take (kl_question_end l - 12) (drop 12 (kl_query l)).

(** [entry] answers the lookup [l] at time [now]. *)
Definition answers (entry : Entry) l (now : Z) : Prop :=
  12 <= kl_question_end l <= length (kl_query l) /\
  e_question_end entry = kl_question_end l /\
  questions_match (take (kl_question_end l - 12) (drop 12 (e_query entry))) (live_question l) = Ret true /\
  variants_match (e_variant entry) (kl_variant l) (kl_strip_ecs l) /\
  (secs_since now (e_inserted entry) < e_ttl entry)%Z.

Lemma set_id_or_keep_eq p id : 2 <= length p -> set_id_or_keep p id = Ret (to_be 2 id ++ drop 2 p).
Proof. intros. unfold set_id_or_keep. by rewrite set_id_eq. Qed.

#[local] Instance answers_dec e l now : Decision (answers e l now).
Proof. unfold answers. apply _. Defined.

Lemma cache_ok_with c s : cm_all entry_ok s -> cache_ok (with_cache c s).
Proof. done. Qed.

(** The complete behaviour of a lookup on a well-formed cache: it returns, serves
    the entry under the key when that entry answers, and otherwise leaves the
    caller's buffer alone; the cache only loses entries. *)
Lemma lookup_into_keyed_eq c l out now :
  cache_ok c ->
  exists c', cache_ok c' /\ (forall k e, stored_entry c' k = Some e -> stored_entry c k = Some e) /\
  lookup_into_keyed c l out now
  = Ret (match stored_entry c (kl_key l) with
         | Some e =>
             if decide (answers e l now)
             then (Some (mkCacheLookupMeta (if kl_collect_qname l then Some (e_qname e) else None) (e_rule_id e)),
                   served e (kl_client_id l) (live_question l) (Z.min (secs_since now (e_inserted e)) U32_MAX), c')
             else (None, out, c')
         | None => (None, out, c')
         end).
Proof.
  intros Hc. unfold lookup_into_keyed, stored_entry. destruct (dc_cache c) as [s|] eqn:Ec.
  2:{ exists c. rewrite Ec. done. }
  unfold cache_ok in Hc. rewrite Ec in Hc.
  unfold get_slice. case_decide as Hqe.
  2:{ exists c. split; [unfold cache_ok; by rewrite Ec|]. rewrite Ec. split; [done|].
      destruct (cm_view s !! kl_key l); [|done]. rewrite decide_False; [done|]. unfold answers. tauto. }
  destruct (cm_get s (kl_key l)) as [found s'] eqn:Eg.
  pose proof (cm_get_value s (kl_key l)) as Hv. pose proof (cm_get_view s (kl_key l)) as Hw.
  rewrite Eg in Hv, Hw. cbn [fst snd] in Hv, Hw. rewrite <- Hv.
  assert (Hs' : cm_all entry_ok s') by (unfold cm_all; by rewrite Hw).
  destruct found as [e|].
  2:{ exists (with_cache c s'). split; [done|]. cbn [dc_cache with_cache]. rewrite Hw. done. }
  assert (He : entry_ok (kl_key l) e) by by apply Hc.
  destruct (queries_match_v_eq (kl_key l) e (kl_query l) (kl_question_end l) (kl_variant l)
    (kl_strip_ecs l) He Hqe) as (m & Hm & ->). cbn [obind].
  fold (live_question l) in *.
  destruct (bool_decide (e_question_end e = kl_question_end l /\ m = true /\
      variants_match (e_variant e) (kl_variant l) (kl_strip_ecs l))) eqn:Eb; cbn [negb].
  2:{ exists (with_cache c s'). split; [done|]. cbn [dc_cache with_cache]. rewrite Hw. split; [done|].
      rewrite decide_False; [done|]. apply bool_decide_eq_false in Eb. unfold answers. rewrite Hm.
      intros (_ & ? & [= ->] & ? & _). tauto. }
  apply bool_decide_eq_true in Eb as (Hq & -> & Hvm). case_decide as Hage.
  - exists (with_cache c (cm_remove s' (kl_key l))). split; [by apply cm_all_remove|].
    cbn [dc_cache with_cache]. split.
    + intros k e' Hk. pose proof (cm_remove_view s' (kl_key l)) as Hsub.
      apply (lookup_weaken _ _ _ _ Hk), lookup_delete_Some in Hsub as [_ Hsub]. by rewrite Hw in Hsub.
    + rewrite decide_False; [done|]. unfold answers. lia.
  - exists (with_cache c s'). split; [done|]. cbn [dc_cache with_cache]. rewrite Hw. split; [done|].
    rewrite decide_True; [|unfold answers; repeat split; (done || lia)].
    pose proof He as (_ & _ & Hp12 & _). rewrite set_id_or_keep_eq by lia. cbn [obind].
    unfold served. set (p := to_be 2 (kl_client_id l) ++ drop 2 (e_packet e)).
    assert (Hlq : length (live_question l) = kl_question_end l - 12) by (unfold live_question; len).
    case_decide as Hfit.
    + rewrite copy_at_Ret by lia. cbn [obind]. rewrite decide_True by lia. done.
    + cbn [obind]. by rewrite decide_False by lia.
Qed.

(** ** Preservation *)

Lemma fields_ok_length lo n n' offs : n <= n' -> fields_ok lo n offs -> fields_ok lo n' offs.
Proof.
  intros Hn [Hs Hf]. split; [done|]. eapply (list.Forall_impl _ _ _ Hf). cbn. lia.
Qed.

Lemma effective_ttl_entry p qe nd mn mx e offs :
  bytes_ok p -> (Z.of_nat (length p) < 65536)%Z -> u_ok 32 nd -> u_ok 32 mn -> u_ok 32 mx ->
  effective_ttl_and_offsets p qe nd mn mx = Ret (Some (e, offs)) ->
  12 <= length p /\ fields_ok qe (length p) offs /\ Forall (fun q => u_ok 32 (snd q)) offs /\ u_ok 32 e.
Proof.
  intros Hp Hlen Hnd Hmn Hmx He.
  assert (H12 : 12 <= length p).
  { rewrite effective_ttl_eq, is_good_reply_eq in He by done. cbn [obind] in He.
    case_bool_decide as Hb; [tauto|]. by rewrite decide_False in He by naive_solver. }
  apply effective_ttl_inv in He as (n & rrs & Hr & Hqe & Href); [|done].
  assert (Hue : u_ok 32 e) by (eapply (entry_ttl_u32 p nd mn mx _ rrs e offs qe n); done).
  pose proof (effective_ttl_stored _ _ _ _ _ _ _ _ Hp Href) as ->.
  split; [done|]. split; [|split; [|done]].
  - apply fields_ok_fmap. eapply parse_rrs_fields; [lia|done].
  - apply Forall_fmap, Forall_forall. intros [o ttl] Hin. cbn.
    apply ttl_pairs_elem in Hin as (t & cl & rdt & re & Hin & _ & _).
    destruct (parse_rrs_elem _ _ _ _ _ _ _ _ _ Hp Hr Hin) as [Hu _].
    unfold stored_ttl. case_decide; [done|]. by apply clamp_u32.
Qed.

(** The entry [add] builds. *)
Definition new_entry (ins : CacheInsert) (ttl : Z) (offs : TtlOffsets) (rule_id now : Z) : Entry :=
  mkEntry (to_be 2 0 ++ drop 2 (ins_packet ins)) (ins_query ins) (ins_qname ins) (ins_question_end ins)
    (ins_variant ins) now ttl offs rule_id.

Lemma new_entry_ok k ins policy rule_id now ttl offs :
  insert_ok ins -> policy_ok policy ->
  effective_ttl_and_offsets (ins_packet ins) (ins_question_end ins)
    (pol_nodata_ttl policy) (pol_min_ttl policy) (pol_max_ttl policy) = Ret (Some (ttl, offs)) ->
  entry_ok k (new_entry ins ttl offs rule_id now).
Proof.
  intros (Hp & Hq & Hl & Hqe) (H1 & H2 & H3) He.
  apply effective_ttl_entry in He as (H12 & Hf & Hu & Ht); try done.
  unfold entry_ok. cbn [e_packet e_query e_question_end e_ttl_offsets e_ttl new_entry].
  assert (length (to_be 2 0 ++ drop 2 (ins_packet ins)) = length (ins_packet ins)) as -> by len.
  split_and!; try done; try lia.
  apply Forall_app; split; [apply to_be_ok|by apply Forall_drop].
Qed.

(** [add] returns, and either leaves the cache alone or inserts [new_entry]. *)
Lemma add_eq c ins policy rule_id now :
  bytes_ok (ins_packet ins) ->
  exists r, effective_ttl_and_offsets (ins_packet ins) (ins_question_end ins)
      (pol_nodata_ttl policy) (pol_min_ttl policy) (pol_max_ttl policy) = Ret r /\
  add c ins policy rule_id now
  = Ret (match dc_cache c, is_truncated (ins_packet ins), r with
         | Some s, Ret false, Some (ttl, offs) =>
             with_cache c (cm_insert s (ins_key ins) (new_entry ins ttl offs rule_id now))
         | _, _, _ => c
         end).
Proof.
  intros Hp.
  assert (exists r, effective_ttl_and_offsets (ins_packet ins) (ins_question_end ins)
      (pol_nodata_ttl policy) (pol_min_ttl policy) (pol_max_ttl policy) = Ret r) as [r Hr].
  { rewrite effective_ttl_eq, is_good_reply_eq by done. cbn [obind]. case_decide; [|by eexists].
    apply returns_bind_opt; [apply parse_rrs_total|]. auto with rust. }
  exists r. split; [done|]. unfold add. destruct (dc_cache c) as [s|]; [|done].
  rewrite is_truncated_eq. cbn [obind]. destruct (bool_decide (4 <= length (ins_packet ins) /\ _)); [done|].
  rewrite Hr. cbn [obind]. destruct r as [[ttl offs]|]; [|done].
  rewrite set_id_or_keep_eq; [done|].
  rewrite effective_ttl_eq, is_good_reply_eq in Hr by done. cbn [obind] in Hr.
  case_bool_decide as Hb; [lia|]. by rewrite decide_False in Hr by naive_solver.
Qed.

Lemma add_ok c ins policy rule_id now :
  cache_ok c -> insert_ok ins -> policy_ok policy ->
  exists c', add c ins policy rule_id now = Ret c' /\ cache_ok c'.
Proof.
  intros Hc Hi Hp. destruct (add_eq c ins policy rule_id now (proj1 Hi)) as (r & Hr & ->).
  eexists. split; [done|]. unfold cache_ok in *.
  destruct (dc_cache c) as [s|] eqn:Ec; [|by rewrite Ec].
  destruct (is_truncated _) as [[|]| |]; [by rewrite Ec| |by rewrite Ec..].
  destruct r as [[ttl offs]|]; [|by rewrite Ec]. cbn [dc_cache with_cache].
  apply cm_all_insert; [|done]. by eapply new_entry_ok.
Qed.

(** ** Reachable caches *)

Inductive reachable (cfg : CacheConfig) : DnsCache S -> Prop :=
| reach_new : reachable cfg (cache_new cfg)
| reach_add c ins policy rule_id now c' :
    reachable cfg c -> insert_ok ins -> policy_ok policy ->
    add c ins policy rule_id now = Ret c' -> reachable cfg c'
| reach_lookup c l out now r out' c' :
    reachable cfg c -> lookup_into_keyed c l out now = Ret (r, out', c') -> reachable cfg c'
| reach_invalidate c : reachable cfg c -> reachable cfg (invalidate_all c).

Lemma reachable_ok cfg c : reachable cfg c -> cache_ok c.
Proof.
  induction 1 as [|c ins policy rule_id now c' _ IH Hi Hp Ha|c l out now r out' c' _ IH Hl|c _ IH].
  - unfold cache_new, cache_ok. cbn. case_decide; [apply cm_all_new|done].
  - destruct (add_ok c ins policy rule_id now IH Hi Hp) as (c'' & Hc'' & ?). congruence.
  - destruct (lookup_into_keyed_eq c l out now IH) as (c'' & Hok & _ & Heq).
    rewrite Heq in Hl. destruct (stored_entry c (kl_key l)) as [e|]; [case_decide|]; by simplify_eq.
  - unfold cache_ok, invalidate_all in *. destruct (dc_cache c) as [s|] eqn:Ec; [|by rewrite Ec].
    apply cm_all_clear.
Qed.
End correct.

(** ** The served bytes *)

Section served.
Context (e : Entry) (k : Z) (He : entry_ok k e).
Context (id : Z) (question : list Z) (Hq : 12 + length question = e_question_end e).

Lemma length_served elapsed : length (served e id question elapsed) = length (e_packet e).
Proof.
  destruct He as (_ & _ & H12 & _). unfold served. rewrite length_patch_ttls_at.
  case_decide; [rewrite length_splice by lia|]; len.
Qed.

Lemma served_outside elapsed j :
  j < e_question_end e ->
  served e id question elapsed !! j
  = (let p := to_be 2 id ++ drop 2 (e_packet e) in
     if decide (12 + length question <= length p) then splice p 12 question else p) !! j.
Proof.
  intros Hj. destruct He as (_ & _ & _ & _ & [_ Hf] & _). unfold served. apply lookup_patch_out.
  intros q Hin. rewrite Forall_forall in Hf. specialize (Hf q Hin). cbn in Hf. lia.
Qed.

Lemma served_id elapsed : take 2 (served e id question elapsed) = to_be 2 id.
Proof.
  destruct He as (_ & _ & H12 & Hqe & _).
  rewrite (take_eq_lookup _ (to_be 2 id ++ drop 2 (e_packet e)) 2).
  - by rewrite take_app_length' by len.
  - intros j Hj. rewrite served_outside by lia. cbn zeta. case_decide; [|done].
    apply lookup_splice_out; lia.
Qed.

Lemma served_question elapsed :
  e_question_end e <= length (e_packet e) ->
  take (e_question_end e - 12) (drop 12 (served e id question elapsed)) = question.
Proof.
  intros Hfit. pose proof He as (_ & _ & H12 & Hqe & _).
  transitivity (take (e_question_end e - 12) question); [|apply take_ge; lia].
  apply take_eq_lookup. intros j Hj. rewrite lookup_drop, served_outside by lia. cbn zeta.
  rewrite decide_True by len. apply lookup_splice_in; len.
Qed.

Lemma served_ttl elapsed o t :
  (0 <= elapsed)%Z -> (o, t) ∈ e_ttl_offsets e ->
  be32 (served e id question elapsed) (Z.to_nat o) = sat_sub t elapsed.
Proof.
  intros Hel Hin. destruct He as (_ & _ & H12 & Hqe & Hf & Hu & _). unfold served.
  rewrite Forall_forall in Hu. apply patch_ttls_read; [|done|done|by apply (Hu (o, t))].
  apply (fields_ok_weaken (e_question_end e)); [lia|].
  eapply fields_ok_length; [|exact Hf]. case_decide; [rewrite length_splice by lia|]; len.
Qed.
End served.

Section theorems.
Context {S : Type} `{!CacheMap S Z Entry, !CacheMapLaws S Z Entry}.


Lemma fast_info_of p fi ls tail :
  bytes_ok p -> parse_query_fast p = Ret (Ok fi) -> question_of p ls tail -> fi = fast_info p ls tail.
Proof.
  intros Hp Hf Hq. pose proof (parse_query_fast_sound _ _ Hp Hf) as [Hh _].
  rewrite (parse_query_fast_complete _ _ _ Hp Hh Hq) in Hf. by injection Hf.
Qed.

(** The lookup [get_into_with_ecs_fallback] makes under the regular key. *)
Lemma regular_lookup_hit (c : DnsCache S) p fi v key e out collect now1 now2 :
  cache_ok c -> extract_variant p (fast_question_end fi) = Ret v ->
  cache_key_with_variant_from_qname_hash p (fast_question_end fi) (fast_qname_wire_hash fi)
    (fast_qname_wire_hash_end fi) v false = Ret key ->
  stored_entry c key = Some e ->
  let l := mkKeyedLookup key p (fast_question_end fi) (fast_id fi) false v collect in
  answers e l now1 ->
  exists c', get_into_with_ecs_fallback c p fi out collect now1 now2
  = Ret (Some (mkCacheLookupMeta (if collect then Some (e_qname e) else None) (e_rule_id e)),
         mkCacheProbe v key None,
         served e (fast_id fi) (live_question l) (Z.min (secs_since now1 (e_inserted e)) U32_MAX), c').
Proof.
  intros Hok Hv Hk He l Ha. unfold get_into_with_ecs_fallback. rewrite Hv. cbn [obind].
  rewrite Hk. cbn [obind].
  destruct (lookup_into_keyed_eq c l out now1 Hok) as (c' & _ & _ & Heq). fold l. rewrite Heq.
  cbn [kl_key l]. rewrite He, decide_True by done. cbn [obind]. by exists c'.
Qed.

(** A stored answer is found again.  Insert the response to a query
    under the key its parse determines; as long as the entry is not evicted and its TTL
    has not run out, every later query for the same name (in any case), type, class and
    variant is answered from it, with the new client's ID and question bytes, the
    insertion's rule id and TTLs reduced by the age. *)
Theorem cached_answer_found (c c1 : DnsCache S) p1 p2 fi1 fi2 ls1 ls2 tail v ins policy rule_id
    out collect t0 t1 t2 ttl offs :
  cache_ok c -> insert_ok ins -> policy_ok policy ->
  bytes_ok p1 -> parse_query_fast p1 = Ret (Ok fi1) -> question_of p1 ls1 tail ->
  bytes_ok p2 -> parse_query_fast p2 = Ret (Ok fi2) -> question_of p2 ls2 tail ->
  lower_name ls1 = lower_name ls2 ->
  extract_variant p1 (fast_question_end fi1) = Ret v ->
  extract_variant p2 (fast_question_end fi2) = Ret v ->
  cache_key_with_variant_from_qname_hash p1 (fast_question_end fi1) (fast_qname_wire_hash fi1)
    (fast_qname_wire_hash_end fi1) v false = Ret (ins_key ins) ->
  ins_query ins = p1 -> ins_question_end ins = fast_question_end fi1 -> ins_variant ins = v ->
  add c ins policy rule_id t0 = Ret c1 ->
  stored_entry c1 (ins_key ins) = Some (new_entry ins ttl offs rule_id t0) ->
  (secs_since t1 t0 < ttl)%Z ->
  exists c2, get_into_with_ecs_fallback c1 p2 fi2 out collect t1 t2
  = Ret (Some (mkCacheLookupMeta (if collect then Some (ins_qname ins) else None) rule_id),
         mkCacheProbe v (ins_key ins) None,
         served (new_entry ins ttl offs rule_id t0) (fast_id fi2)
           (take (fast_question_end fi2 - 12) (drop 12 p2)) (Z.min (secs_since t1 t0) U32_MAX), c2).
Proof.
  intros Hok Hi Hpol Hp1 Hf1 Hq1 Hp2 Hf2 Hq2 Hlow Hv1 Hv2 Hkey Hiq Hie Hiv Hadd Hst Hfresh.
  assert (cache_ok c1) as Hok1.
  { destruct (add_ok c ins policy rule_id t0 Hok Hi Hpol) as (c' & Hc' & ?). congruence. }
  pose proof (fast_info_of _ _ _ _ Hp1 Hf1 Hq1) as E1.
  pose proof (fast_info_of _ _ _ _ Hp2 Hf2 Hq2) as E2.
  assert (Hqe1 : fast_question_end fi1 = 12 + length (encode_name ls1) + 4) by (by rewrite E1).
  assert (Hqe2 : fast_question_end fi2 = 12 + length (encode_name ls2) + 4) by (by rewrite E2).
  assert (Hlen : length (encode_name ls1) = length (encode_name ls2)).
  { by rewrite <- (length_encode_lower ls1), Hlow, length_encode_lower. }
  assert (Hkey2 : cache_key_with_variant_from_qname_hash p2 (fast_question_end fi2) (fast_qname_wire_hash fi2)
    (fast_qname_wire_hash_end fi2) v false = Ret (ins_key ins)).
  { rewrite <- Hkey, E1, E2.
    etransitivity; [apply (fused_key_eq p2 ls2 tail v false Hq2)|].
    symmetry. etransitivity; [apply (fused_key_eq p1 ls1 tail v false Hq1)|].
    unfold key_material. by rewrite Hlow. }
  apply (regular_lookup_hit c1 p2 fi2 v (ins_key ins) (new_entry ins ttl offs rule_id t0)
    out collect t1 t2 Hok1 Hv2 Hkey2 Hst).
  destruct (question_slice _ _ _ Hq1) as [Hs1 Hl1]. destruct (question_slice _ _ _ Hq2) as [Hs2 Hl2].
  apply slice_inv in Hs1, Hs2.
  unfold answers, live_question. cbn [kl_question_end kl_query kl_variant kl_strip_ecs e_question_end e_query
    e_variant e_inserted e_ttl new_entry]. rewrite Hiq, Hie, Hiv, Hqe1, Hqe2.
  split; [lia|]. split; [lia|]. rewrite Hs2. rewrite <- Hlen, Hs1. split; [|done].
  destruct Hq1 as (? & ? & _ & _ & Ht & Hls1 & _), Hq2 as (? & ? & _ & _ & _ & Hls2 & _).
  rewrite questions_match_encoded by done. by rewrite bool_decide_true.
Qed.

(** invalidation.  After [invalidate_all] no lookup hits, whatever was
    cached before and whatever the clock says, until something is inserted again. *)
Theorem invalidate_all_misses (c : DnsCache S) l out now :
  exists c', lookup_into_keyed (invalidate_all c) l out now = Ret (None, out, c').
Proof.
  assert (Hok : cache_ok (invalidate_all c)).
  { unfold cache_ok, invalidate_all. destruct (dc_cache c) as [s|] eqn:Ec; [|by rewrite Ec].
    apply cm_all_clear. }
  destruct (lookup_into_keyed_eq (invalidate_all c) l out now Hok) as (c' & _ & _ & ->).
  exists c'. assert (stored_entry (invalidate_all c) (kl_key l) = None) as ->; [|done].
  unfold stored_entry, invalidate_all. destruct (dc_cache c) as [s|] eqn:Ec; [|by rewrite Ec].
  cbn. by rewrite cm_clear_view.
Qed.

(** policy resolution.  The effective policy of a rule takes each of the
    rule's own TTL limits when it has one and the configured default otherwise; it is
    skipped exactly when the rule says so, and TTL limits stay 32-bit. *)
Theorem resolve_policy_correct (c : DnsCache S) policy :
  u_ok 32 (dc_min_ttl c) -> u_ok 32 (dc_max_ttl c) ->
  match policy with
  | Some p => (forall m, rule_min_ttl p = Some m -> u_ok 32 m) /\ (forall m, rule_max_ttl p = Some m -> u_ok 32 m)
  | None => True
  end ->
  policy_ok (resolve_policy c policy) /\
  (pol_skip (resolve_policy c policy) = true <-> exists p, policy = Some p /\ rule_skip p = true) /\
  (forall p m, policy = Some p -> rule_min_ttl p = Some m -> pol_min_ttl (resolve_policy c policy) = m) /\
  (forall p m, policy = Some p -> rule_max_ttl p = Some m -> pol_max_ttl (resolve_policy c policy) = m) /\
  (policy = None -> pol_min_ttl (resolve_policy c policy) = dc_min_ttl c /\
                    pol_max_ttl (resolve_policy c policy) = dc_max_ttl c).
Proof.
  intros Hmn Hmx Hp. unfold resolve_policy, policy_ok. cbn.
  destruct policy as [[sk [mn|] [mx|]]|]; cbn in *; naive_solver (unfold u_ok; lia).
Qed.
End theorems.

(** ** Concrete instances *)

Lemma cache_key_fused_witness :
  exists fi, parse_query_fast sample_packet = Ret (Ok fi) /\
    cache_key_with_variant sample_packet 29 (no_edns true false false) false
    = cache_key_with_variant_from_qname_hash sample_packet 29 (fast_qname_wire_hash fi)
        (fast_qname_wire_hash_end fi) (no_edns true false false) false.
Proof.
  destruct sample_packet_ok as (Hb & Hh & Hq).
  pose proof (parse_query_fast_complete _ _ _ Hb Hh Hq) as Hf. eexists. split; [exact Hf|].
  destruct (cache_key_fused sample_packet _ (no_edns true false false) false Hb Hf) as (ls & tail & _ & H1 & H2).
  transitivity (Ret (Fnv1a.write Fnv1a.new (key_material ls tail (no_edns true false false) false)));
    [exact H2|symmetry; exact H1].
Defined.

Lemma cache_key_separates_witness :
  Fnv1a.write Fnv1a.new (key_material [[97]]%Z [0; 1; 0; 1]%Z (no_edns false false false) false)
  <> Fnv1a.write Fnv1a.new (key_material [[97]]%Z [0; 1; 0; 1]%Z (no_edns true false false) false).
Proof.
  apply (cache_key_separates [[97]]%Z [0; 1; 0; 1]%Z (no_edns true false false) false
    [[97]]%Z [0; 1; 0; 1]%Z (no_edns false false false) false 10 0%Z);
    [apply labels_check; by vm_compute|apply bytes_check; by vm_compute
    |split; [by vm_compute|exact I]|by apply Nat.ltb_lt|by vm_compute|by vm_compute|by vm_compute].
Defined.

(** An answer (one AAAA record, TTL 120) to the sample query. *)
Definition sample_answer : list Z :=
  match aaaa_reply sample_packet 29 (replicate 16 1%Z) 120 with Ret (Ok r) => r | _ => [] end.

Definition sample_variant : QueryVariant :=
  match extract_variant sample_packet 29 with Ret v => v | _ => no_edns false false false end.

Definition sample_insert : CacheInsert :=
  mkCacheInsert (Fnv1a.write Fnv1a.new (key_material (q_name sample_query) (q_tail sample_query) sample_variant false))
    [97]%Z 29 sample_packet sample_variant sample_answer.

Definition sample_policy : ResolvedCachePolicy := mkResolvedCachePolicy false 0 10 3600.

Definition empty_cache : DnsCache (gmap Z Entry) := cache_new (mkCacheConfig 100 10 3600).

Definition filled_cache : DnsCache (gmap Z Entry) :=
  match add empty_cache sample_insert sample_policy 3 1000 with Ret c => c | _ => empty_cache end.

Lemma sample_insert_ok : insert_ok sample_insert /\ policy_ok sample_policy.
Proof.
  split; [|by vm_compute]. split; [apply bytes_check; by vm_compute|].
  split; [apply bytes_check; by vm_compute|]. split; [by vm_compute|].
  split; by apply Nat.leb_le.
Defined.

Lemma filled_cache_added : add empty_cache sample_insert sample_policy 3 1000 = Ret filled_cache.
Proof. by vm_compute. Defined.

Definition sample_lookup : KeyedLookup :=
  mkKeyedLookup (ins_key sample_insert) sample_packet 29 0x4242 false sample_variant true.


Lemma cached_answer_found_witness :
  exists out c2, get_into_with_ecs_fallback filled_cache shouted_packet
      (fast_info shouted_packet [[69; 88; 65; 77; 80; 76; 69]; [99; 111; 109]]%Z (q_tail sample_query))
      [] true (100 * NANOS + 1000) 0
    = Ret (Some (mkCacheLookupMeta (Some [97]%Z) 3),
           mkCacheProbe sample_variant (ins_key sample_insert) None, out, c2).
Proof.
  destruct sample_packet_ok as (Hb & Hh & Hq). destruct sample_insert_ok as [Hi Hp].
  assert (Hb2 : bytes_ok shouted_packet) by (apply bytes_check; by vm_compute).
  assert (Hq2 : question_of shouted_packet [[69; 88; 65; 77; 80; 76; 69]; [99; 111; 109]]%Z (q_tail sample_query)).
  { exists (q_head sample_query), (drop 29 shouted_packet).
    do 3 (split; [done|]). split; [apply labels_check; by vm_compute|by apply Nat.leb_le]. }
  destruct (cached_answer_found empty_cache filled_cache sample_packet shouted_packet
    (fast_info sample_packet (q_name sample_query) (q_tail sample_query))
    (fast_info shouted_packet [[69; 88; 65; 77; 80; 76; 69]; [99; 111; 109]]%Z (q_tail sample_query))
    (q_name sample_query) [[69; 88; 65; 77; 80; 76; 69]; [99; 111; 109]]%Z (q_tail sample_query)
    sample_variant sample_insert sample_policy 3 [] true 1000 (100 * NANOS + 1000) 0 120 [(35, 120)]%Z)
    as [c2 H2]; [|exact Hi|exact Hp|exact Hb|by apply parse_query_fast_complete|exact Hq|exact Hb2
    |by apply parse_query_fast_complete|exact Hq2|by vm_compute..|].
  - apply (reachable_ok (mkCacheConfig 100 10 3600)), reach_new.
  - eexists _, c2. exact H2.
Defined.

Lemma resolve_policy_witness :
  pol_min_ttl (resolve_policy filled_cache (Some (mkRuleCachePolicy false (Some 5%Z) None))) = 5%Z.
Proof.
  refine (proj1 (proj2 (proj2 (resolve_policy_correct filled_cache
    (Some (mkRuleCachePolicy false (Some 5%Z) None)) _ _ _))) _ 5%Z eq_refl eq_refl);
    [by vm_compute|by vm_compute|split; [by intros m [= <-]|by intros m]].
Defined.
