(* ===== verification/CachePersist.v ===== *)
(** * Saving and loading the response cache (src/src/cache.rs)

    The on-disk entry format, [save_to_file] and [load_from_file].  Every clock
    reading is an argument: [now_unix] in seconds, instants in nanoseconds since
    boot.  A file written by [save_to_file] reads back to the same entries with
    their remaining lifetimes. *)

From S2P Require Import Prelude Hasher DnsName DnsQuery Utf8 DnsQname DnsRecords DnsEdns Ecs DnsMessage DnsBuilder Persist CacheMap Cache CacheKey CacheCorrect.

(** ** The file format *)

(** "PDNSC009" *)
Definition CACHE_MAGIC : list Z := [80; 68; 78; 83; 67; 48; 48; 57]%Z.

Definition write_offset (q : Z * Z) : list Z := to_le 4 (fst q) ++ to_le 4 (snd q).

(** The body of the write loop for one entry. *)
Definition write_entry (now_unix : Z) (x : Z * Entry * Z) : list Z :=
  let '(key, entry, remaining) := x in
  let expire_unix := (now_unix + remaining)%Z in
  to_le 8 key ++ to_le 8 expire_unix ++ to_le 4 (e_ttl entry) ++
  write_bytes (default [] (get_slice (e_query entry) 12 (e_question_end entry))) ++
  write_bytes (e_packet entry) ++
  write_bytes (e_query entry) ++
  write_bytes (e_qname entry) ++
  to_le 4 (wrap 32 (Z.of_nat (length (e_ttl_offsets entry)))) ++
  concat (write_offset <$> e_ttl_offsets entry) ++
  to_le 2 (e_rule_id entry).

(** Live entries with their remaining TTL; [clock i] is the reading of
    [Instant::now] behind the [i]-th [elapsed()]. *)
Fixpoint collect_live (i : nat) (clock : nat -> Z) (l : list (Z * Entry)) : list (Z * Entry * Z) :=
  match l with
  | [] => []
  | (key, entry) :: l' =>
      let elapsed := secs_since (clock i) (e_inserted entry) in
      let remaining := sat_sub (e_ttl entry) elapsed in
      if decide (remaining = 0)%Z then collect_live (S i) clock l'
      else (key, entry, remaining) :: collect_live (S i) clock l'
  end.

(** One entry as it stands in the file. *)
Record RawEntry := mkRawEntry {
  raw_key : Z;
  raw_expire_unix : Z;
  raw_raw_ttl : Z;
  raw_question : list Z;
  raw_packet : list Z;
  raw_query : list Z;
  raw_qname_bytes : list Z;
  raw_offsets : TtlOffsets;
  raw_rule_id : Z
}.

Definition read_offset : reader (Z * Z) :=
  let% off := read_u32 in
  let% original_ttl := read_u32 in
  rret (off, original_ttl).

(** The reads of one iteration of the load loop. *)
Definition read_entry : reader RawEntry :=
  let% key := read_u64 in
  let% expire_unix := read_u64 in
  let% raw_ttl := read_u32 in
  let% question := read_bytes in
  let% packet := read_bytes in
  let% query := read_bytes in
  let% qname_bytes := read_bytes in
  let% offsets_count := read_u32 in
  if decide (U16_MAX < offsets_count)%Z then rfail TooManyOffsets
  else
    let% offsets := read_many (Z.to_nat offsets_count) read_offset in
    let% entry_rule_id := read_u16 in
    rret (mkRawEntry key expire_unix raw_ttl question packet query qname_bytes offsets entry_rule_id).

(** [now_instant.checked_sub(Duration::from_secs(age_secs))] *)
Definition instant_checked_sub (now_instant age_secs : Z) : option Z :=
  let t := (now_instant - age_secs * NANOS)%Z in
  if decide (0 <= t)%Z then Some t else None.

(** The rest of the iteration: [None] is [continue]. *)
Definition load_entry (raw : RawEntry) (now_unix now_instant : Z) : outcome (option Entry) :=
  if decide (raw_expire_unix raw <= now_unix)%Z then Ret None
  else
    let remaining := sat_sub (raw_expire_unix raw) now_unix in
    let age_secs := sat_sub (raw_raw_ttl raw) remaining in
    let '(inserted, ttl_for_entry) :=
      match instant_checked_sub now_instant age_secs with
      | Some t => (t, raw_raw_ttl raw)
      | None => (now_instant, Z.min remaining (raw_raw_ttl raw))
      end in
    match from_utf8 (raw_qname_bytes raw) with
    | None => Ret None
    | Some qname =>
        let question_end := 12 + length (raw_question raw) in
        let! variant := extract_variant (raw_query raw) question_end in
        Ret (Some {| e_packet := raw_packet raw; e_query := raw_query raw; e_qname := qname;
                     e_question_end := question_end; e_variant := variant; e_inserted := inserted;
                     e_ttl := ttl_for_entry; e_ttl_offsets := raw_offsets raw;
                     e_rule_id := raw_rule_id raw |})
    end.

Section persist.
Context {S : Type} `{!CacheMap S Z Entry}.

(** The file contents and the count returned; [None] when there is no cache. *)
Definition save_to_file (self : DnsCache S) (now_unix : Z) (clock : nat -> Z) (fingerprint : Z)
  : option (list Z * nat) :=
  match dc_cache self with
  | None => None
  | Some cache =>
      let entries := collect_live 0 clock (cm_iter cache) in
      let count := length entries in
      Some (write_header CACHE_MAGIC fingerprint (wrap 32 (Z.of_nat count)) ++
            concat (write_entry now_unix <$> entries), count)
  end.

(** [for _ in 0..count]: the store as modified and the count or the error. *)
Fixpoint load_loop (n : nat) (r : list Z) (now_unix now_instant : Z) (cache : S) (loaded : nat)
  : outcome (S * result persist_error nat) :=
  match n with
  | O => Ret (cache, Ok loaded)
  | Datatypes.S n' =>
      match read_entry r with
      | Err e => Ret (cache, Err e)
      | Ok (raw, r) =>
          let! o := load_entry raw now_unix now_instant in
          match o with
          | None => load_loop n' r now_unix now_instant cache loaded
          | Some entry =>
              load_loop n' r now_unix now_instant (cm_insert cache (raw_key raw) entry) (loaded + 1)
          end
      end
  end.

Definition load_from_file (self : DnsCache S) (file : list Z) (fingerprint now_unix now_instant : Z)
  : outcome (DnsCache S * result persist_error nat) :=
  match dc_cache self with
  | None => Ret (self, Ok 0)
  | Some cache =>
      match read_and_check_header CACHE_MAGIC fingerprint file with
      | Err e => Ret (self, Err e)
      | Ok (count, r) =>
          let! (cache, res) := load_loop (Z.to_nat count) r now_unix now_instant cache 0 in
          Ret (with_cache self cache, res)
      end
  end.
End persist.

(** ** Reading back one entry *)

(** The fields fit their on-disk widths. *)
Definition saveable (key : Z) (e : Entry) : Prop :=
  u_ok 64 key /\ u_ok 32 (e_ttl e) /\ u_ok 16 (e_rule_id e) /\
  12 <= e_question_end e <= length (e_query e) /\
  (Z.of_nat (length (e_packet e)) <= 65536)%Z /\ (Z.of_nat (length (e_query e)) <= 65536)%Z /\
  (Z.of_nat (length (e_qname e)) <= 65536)%Z /\ (Z.of_nat (length (e_ttl_offsets e)) <= 65535)%Z /\
  Forall (fun q => u_ok 32 (fst q) /\ u_ok 32 (snd q)) (e_ttl_offsets e) /\
  from_utf8 (e_qname e) = Some (e_qname e) /\
  extract_variant (e_query e) (e_question_end e) = Ret (e_variant e).

Definition raw_of (now_unix : Z) (x : Z * Entry * Z) : RawEntry :=
  let '(key, e, remaining) := x in
  mkRawEntry key (now_unix + remaining) (e_ttl e) (take (e_question_end e - 12) (drop 12 (e_query e)))
    (e_packet e) (e_query e) (e_qname e) (e_ttl_offsets e) (e_rule_id e).

Lemma read_entry_write now_unix key e remaining rest :
  saveable key e -> u_ok 64 (now_unix + remaining) ->
  read_entry (write_entry now_unix (key, e, remaining) ++ rest)
  = Ok (raw_of now_unix (key, e, remaining), rest).
Proof.
  intros (Hk & Ht & Hr & Hqe & Hp & Hq & Hn & Ho & Hof & _) He.
  unfold write_entry, read_entry. rewrite <- !app_assoc.
  assert (get_slice (e_query e) 12 (e_question_end e)
    = Some (take (e_question_end e - 12) (drop 12 (e_query e)))) as ->
    by (unfold get_slice; by rewrite decide_True by lia).
  assert (wrap 32 (Z.of_nat (length (e_ttl_offsets e))) = Z.of_nat (length (e_ttl_offsets e))) as ->
    by (apply Z.mod_small; lia).
  cbn [default]. unfold id.
  rewrite (rbind_Ok _ _ _ _ _ (read_u64_app key _ Hk)).
  rewrite (rbind_Ok _ _ _ _ _ (read_u64_app _ _ He)).
  rewrite (rbind_Ok _ _ _ _ _ (read_u32_app _ _ Ht)).
  assert (Hql : (Z.of_nat (length (take (e_question_end e - 12) (drop 12 (e_query e)))) <= MAX_PERSISTED_BYTES)%Z)
    by (unfold MAX_PERSISTED_BYTES; len).
  rewrite (rbind_Ok _ _ _ _ _ (read_bytes_app _ _ Hql)).
  rewrite (rbind_Ok _ _ _ _ _ (read_bytes_app _ _ Hp)).
  rewrite (rbind_Ok _ _ _ _ _ (read_bytes_app _ _ Hq)).
  rewrite (rbind_Ok _ _ _ _ _ (read_bytes_app _ _ Hn)).
  assert (Hou : u_ok 32 (Z.of_nat (length (e_ttl_offsets e)))) by (unfold u_ok; lia).
  rewrite (rbind_Ok _ _ _ _ _ (read_u32_app _ _ Hou)).
  rewrite decide_False by (unfold U16_MAX; lia). rewrite Nat2Z.id.
  assert (Hmany : read_many (length (e_ttl_offsets e)) read_offset
    (concat (write_offset <$> e_ttl_offsets e) ++ to_le 2 (e_rule_id e) ++ rest)
    = Ok (e_ttl_offsets e, to_le 2 (e_rule_id e) ++ rest)).
  { apply read_many_app. intros [o t] rest' Hin. rewrite Forall_forall in Hof.
    destruct (Hof _ Hin) as [Ho1 Ho2]. cbn [fst snd] in *. unfold read_offset, write_offset.
    cbn [fst snd]. rewrite <- app_assoc.
    rewrite (rbind_Ok _ _ _ _ _ (read_u32_app o _ Ho1)).
    by rewrite (rbind_Ok _ _ _ _ _ (read_u32_app t _ Ho2)). }
  rewrite (rbind_Ok _ _ _ _ _ Hmany).
  by rewrite (rbind_Ok _ _ _ _ _ (read_u16_app _ _ Hr)).
Qed.

(** The entry as reconstructed at load time. *)
Definition reanchored (e : Entry) (expire_unix now_unix now_instant : Z) : Entry :=
  let remaining := (expire_unix - now_unix)%Z in
  let age := sat_sub (e_ttl e) remaining in
  let '(inserted, ttl) :=
    match instant_checked_sub now_instant age with
    | Some t => (t, e_ttl e)
    | None => (now_instant, Z.min remaining (e_ttl e))
    end in
  mkEntry (e_packet e) (e_query e) (e_qname e) (e_question_end e) (e_variant e)
    inserted ttl (e_ttl_offsets e) (e_rule_id e).

Lemma load_entry_raw now_unix key e remaining now_unix' now' :
  saveable key e ->
  load_entry (raw_of now_unix (key, e, remaining)) now_unix' now'
  = Ret (if decide (now_unix + remaining <= now_unix')%Z then None
         else Some (reanchored e (now_unix + remaining) now_unix' now')).
Proof.
  intros (_ & _ & _ & Hqe & _ & _ & _ & _ & _ & Hu & Hv).
  unfold load_entry. cbn [raw_of raw_expire_unix raw_raw_ttl raw_qname_bytes raw_question raw_query
    raw_packet raw_offsets raw_rule_id].
  case_decide as Hx; [done|]. rewrite Hu.
  assert (12 + length (take (e_question_end e - 12) (drop 12 (e_query e))) = e_question_end e) as -> by len.
  rewrite Hv. unfold reanchored.
  assert (sat_sub (now_unix + remaining) now_unix' = now_unix + remaining - now_unix')%Z as ->
    by (unfold sat_sub; lia).
  by destruct (instant_checked_sub _ _).
Qed.

(** ** Whole files *)

(** What is loaded from the saved entries: key and reconstructed entry of those still alive. *)
Definition reloaded (now_unix now_unix' now' : Z) (entries : list (Z * Entry * Z)) : list (Z * Entry) :=
  omap (fun '(key, e, remaining) =>
    if decide (now_unix + remaining <= now_unix')%Z then None
    else Some (key, reanchored e (now_unix + remaining) now_unix' now')) entries.

Lemma collect_live_elem i clock l key e remaining :
  (key, e, remaining) ∈ collect_live i clock l ->
  (key, e) ∈ l /\ (0 < remaining <= Z.max 0 (e_ttl e))%Z /\
  exists j, remaining = sat_sub (e_ttl e) (secs_since (clock j) (e_inserted e)).
Proof.
  revert i. induction l as [|[k x] l IH]; intros i; cbn [collect_live]; [by intros ?%not_elem_of_nil|].
  case_decide as Hz.
  - intros (? & ? & ?)%IH. split; [by constructor|done].
  - intros [[= -> -> ->]|Hin]%elem_of_cons.
    + split; [constructor|]. split; [|by eexists].
      unfold sat_sub in *. assert (0 <= secs_since (clock i) (e_inserted x))%Z; [|lia].
      unfold secs_since, sat_sub, NANOS. apply Z.div_pos; lia.
    + destruct (IH _ Hin) as (? & ? & ?). split; [by constructor|done].
Qed.

Section roundtrip.
Context {S : Type} `{!CacheMap S Z Entry, !CacheMapLaws S Z Entry}.

Definition insert_all (s : S) (l : list (Z * Entry)) : S :=
  foldl (fun s kv => cm_insert s (fst kv) (snd kv)) s l.

Lemma load_loop_saved entries now_unix now_unix' now' (s : S) loaded rest :
  (forall key e remaining, (key, e, remaining) ∈ entries ->
    saveable key e /\ u_ok 64 (now_unix + remaining)) ->
  load_loop (length entries) (concat (write_entry now_unix <$> entries) ++ rest) now_unix' now' s loaded
  = Ret (insert_all s (reloaded now_unix now_unix' now' entries),
         Ok (loaded + length (reloaded now_unix now_unix' now' entries))).
Proof.
  revert s loaded. induction entries as [|[[key e] remaining] entries IH]; intros s loaded Hs.
  - cbn. by rewrite Nat.add_0_r.
  - cbn [length load_loop fmap list_fmap concat]. rewrite <- app_assoc.
    destruct (Hs key e remaining) as [Hsv Hu]; [constructor|].
    rewrite read_entry_write by done. rewrite load_entry_raw by done. cbn [obind].
    assert (Hs' : forall key e remaining, (key, e, remaining) ∈ entries ->
      saveable key e /\ u_ok 64 (now_unix + remaining)) by (intros; apply Hs; by constructor).
    unfold reloaded. cbn [omap list_omap]. case_decide as Hx.
    + rewrite IH by done. done.
    + rewrite IH by done. cbn [insert_all foldl fst snd length raw_of raw_key].
      change (omap _ entries) with (reloaded now_unix now_unix' now' entries).
      replace (loaded + 1 + _) with (loaded + Datatypes.S (length (reloaded now_unix now_unix' now' entries)))
        by lia. done.
Qed.

Lemma cache_save_load_spec (c c0 : DnsCache S) s s0 now_unix clock fp file n now_unix' now' :
  dc_cache c = Some s -> dc_cache c0 = Some s0 ->
  map_Forall saveable (cm_view s) -> u_ok 64 fp ->
  (0 <= now_unix)%Z -> (now_unix + 2 ^ 32 < 2 ^ 64)%Z -> (now_unix <= now_unix')%Z ->
  save_to_file c now_unix clock fp = Some (file, n) -> (Z.of_nat n < 2 ^ 32)%Z ->
  let l := reloaded now_unix now_unix' now' (collect_live 0 clock (cm_iter s)) in
  load_from_file c0 file fp now_unix' now' = Ret (with_cache c0 (insert_all s0 l), Ok (length l)) /\
  Forall (fun kv => exists e, cm_view s !! fst kv = Some e /\
    e_packet (snd kv) = e_packet e /\ e_query (snd kv) = e_query e /\ e_qname (snd kv) = e_qname e /\
    e_question_end (snd kv) = e_question_end e /\ e_variant (snd kv) = e_variant e /\
    e_ttl_offsets (snd kv) = e_ttl_offsets e /\ e_rule_id (snd kv) = e_rule_id e) l.
Proof.
  intros Hc Hc0 Hsv Hfp Hnu Hmax Hle Hsave Hn l.
  unfold save_to_file in Hsave. rewrite Hc in Hsave.
  apply (inj Some), pair_equal_spec in Hsave as [Hfile Hcount]. subst file n.
  set (entries := collect_live 0 clock (cm_iter s)) in *.
  assert (Hin : forall key e remaining, (key, e, remaining) ∈ entries ->
    cm_view s !! key = Some e /\ saveable key e /\ u_ok 64 (now_unix + remaining)).
  { intros key e remaining (Hi & Hr & _)%collect_live_elem.
    apply cm_iter_view in Hi. split; [done|]. pose proof (Hsv _ _ Hi) as Hse. split; [done|].
    destruct Hse as (_ & Ht & _). unfold u_ok in *. lia. }
  split.
  - unfold load_from_file. rewrite Hc0.
    assert (wrap 32 (Z.of_nat (length entries)) = Z.of_nat (length entries)) as -> by (apply Z.mod_small; lia).
    rewrite read_header_app by (done || unfold u_ok; lia). rewrite Nat2Z.id.
    pose proof (load_loop_saved entries now_unix now_unix' now' s0 0 []) as Hl.
    rewrite app_nil_r in Hl. rewrite Hl; [done|]. intros. by apply Hin.
  - apply Forall_forall. intros [key e'] Hl. unfold l, reloaded in Hl.
    apply list_elem_of_omap in Hl as ([[k e] remaining] & Hi & Hx). case_decide; [done|].
    injection Hx as <- <-. destruct (Hin _ _ _ Hi) as (Hv & _). exists e. cbn [fst snd].
    unfold reanchored. by destruct (instant_checked_sub _ _).
Qed.

(** Persistence round-trips.  A file written by [save_to_file] and read
    by [load_from_file] under the same fingerprint loads, without error, exactly the
    saved entries that have not yet expired by wall-clock time: the same key, packet,
    query, name, variant, TTL offsets and rule, re-anchored so that each entry is fresh
    exactly while its wall-clock expiry has not passed. *)
Theorem cache_save_load (c c0 : DnsCache S) s s0 now_unix clock fp file n now_unix' now' :
  dc_cache c = Some s -> dc_cache c0 = Some s0 ->
  map_Forall saveable (cm_view s) -> u_ok 64 fp ->
  (0 <= now_unix)%Z -> (now_unix + 2 ^ 32 < 2 ^ 64)%Z -> (now_unix <= now_unix')%Z ->
  save_to_file c now_unix clock fp = Some (file, n) -> (Z.of_nat n < 2 ^ 32)%Z ->
  let l := reloaded now_unix now_unix' now' (collect_live 0 clock (cm_iter s)) in
  load_from_file c0 file fp now_unix' now' = Ret (with_cache c0 (insert_all s0 l), Ok (length l)) /\
  Forall (fun kv => exists e, cm_view s !! fst kv = Some e /\
    e_packet (snd kv) = e_packet e /\ e_query (snd kv) = e_query e /\ e_qname (snd kv) = e_qname e /\
    e_question_end (snd kv) = e_question_end e /\ e_variant (snd kv) = e_variant e /\
    e_ttl_offsets (snd kv) = e_ttl_offsets e /\ e_rule_id (snd kv) = e_rule_id e) l.
Proof. apply cache_save_load_spec. Qed.
End roundtrip.

Lemma secs_since_shift t now k :
  (now <= t)%Z -> (0 <= k)%Z -> secs_since t (now - k * NANOS) = (k + secs_since t now)%Z.
Proof.
  intros Ht Hk. unfold secs_since, sat_sub, NANOS. rewrite !Z.max_r by lia.
  replace (t - (now - k * 1000000000))%Z with (k * 1000000000 + (t - now))%Z by lia.
  by rewrite Z.div_add_l by lia.
Qed.

(** Lifetimes survive a restart.  An entry reloaded [r] seconds before
    its wall-clock expiry is fresh for exactly [r] more seconds, whether or not the
    machine has been up long enough to place its insertion in the past. *)
Theorem reload_lifetime e expire_unix now_unix' now' t :
  (now_unix' < expire_unix)%Z -> (expire_unix - now_unix' <= e_ttl e)%Z -> (now' <= t)%Z ->
  let e' := reanchored e expire_unix now_unix' now' in
  (secs_since t (e_inserted e') < e_ttl e')%Z <-> (secs_since t now' < expire_unix - now_unix')%Z.
Proof.
  intros Hx Hr Ht. unfold reanchored, instant_checked_sub.
  set (age := sat_sub (e_ttl e) (expire_unix - now_unix')).
  assert (Ha : (age = e_ttl e - (expire_unix - now_unix'))%Z) by (unfold age, sat_sub; lia).
  case_decide as Hd; cbn [e_inserted e_ttl].
  - rewrite secs_since_shift by lia. lia.
  - rewrite Z.min_l by lia. done.
Qed.

(** TTLs after a reboot.  When the machine has been up for less time
    than an entry's age, the reloaded entry keeps its original TTL offsets while being
    re-inserted at load time: a record is then served with its original TTL minus the
    time since the load, overstating it by the age the entry had accumulated. *)
Theorem reload_reboot_ttl e k expire_unix now_unix' now' id question t o ttl :
  entry_ok k e -> 12 + length question = e_question_end e ->
  (now_unix' < expire_unix)%Z -> (now' <= t)%Z ->
  let age := sat_sub (e_ttl e) (expire_unix - now_unix') in
  (now' < age * NANOS)%Z -> (o, ttl) ∈ e_ttl_offsets e ->
  let e' := reanchored e expire_unix now_unix' now' in
  be32 (served e' id question (secs_since t (e_inserted e'))) (Z.to_nat o)
  = sat_sub ttl (secs_since t now').
Proof.
  intros He Hq Hx Ht age Hage Hin e'.
  assert (Hi : e_inserted e' = now' /\ e_ttl_offsets e' = e_ttl_offsets e /\ entry_ok k e' /\
    e_question_end e' = e_question_end e).
  { unfold e', reanchored, instant_checked_sub. fold age. rewrite decide_False by lia. cbn.
    split_and!; try done. destruct He as (H1 & H2 & H3 & H4 & H5 & H6 & H7).
    unfold entry_ok. cbn. split_and!; try done; unfold u_ok in *; lia. }
  destruct Hi as (-> & Ho & He' & Hqe). apply (served_ttl e' k He'); [congruence| |by rewrite Ho].
  unfold secs_since, sat_sub, NANOS. apply Z.div_pos; lia.
Qed.

(** ** Concrete instances *)

Definition sample_entry : Entry := new_entry sample_insert 120 [(35, 120)]%Z 3 1000.

Definition sample_store : gmap Z Entry := {[ ins_key sample_insert := sample_entry ]}.

Lemma sample_saveable : saveable (ins_key sample_insert) sample_entry.
Proof.
  do 3 (split; [by vm_compute|]). split; [split; by apply Nat.leb_le|].
  do 4 (split; [by vm_compute|]). split; [apply Forall_singleton; by vm_compute|].
  split; by vm_compute.
Defined.

Lemma sample_store_saveable : map_Forall saveable (cm_view sample_store).
Proof.
  change (map_Forall saveable sample_store). unfold sample_store.
  apply map_Forall_singleton. exact sample_saveable.
Qed.

(** A clock reading of 20 seconds after the sample insertion. *)
Definition sample_clock (_ : nat) : Z := 20 * NANOS + 1000.

Lemma cache_save_load_witness :
  exists file l, save_to_file filled_cache 5000 sample_clock 77 = Some (file, 1) /\
    load_from_file empty_cache file 77 5030 (10 ^ 12)
    = Ret (with_cache empty_cache (insert_all ∅ l), Ok 1).
Proof.
  assert (exists file, save_to_file filled_cache 5000 sample_clock 77 = Some (file, 1)) as [file Hf]
    by (eexists; by vm_compute).
  destruct (cache_save_load filled_cache empty_cache sample_store ∅ 5000 sample_clock 77 file 1 5030 (10 ^ 12))
    as [Hl _]; [vm_compute; reflexivity|vm_compute; reflexivity|exact sample_store_saveable|unfold u_ok; lia
    |lia|lia|lia|exact Hf|lia|].
  eexists file, _. split; [exact Hf|exact Hl].
Defined.

Lemma reload_lifetime_witness :
  let e' := reanchored sample_entry 5100 5030 (10 ^ 12) in
  (secs_since (10 ^ 12 + 69 * NANOS) (e_inserted e') < e_ttl e')%Z.
Proof.
  apply (reload_lifetime sample_entry 5100 5030 (10 ^ 12) (10 ^ 12 + 69 * NANOS));
    [lia|by vm_compute|by vm_compute|by vm_compute].
Defined.

Lemma reload_reboot_ttl_witness :
  let e' := reanchored sample_entry 5100 5030 (5 * NANOS) in
  be32 (served e' 7 (take 17 (drop 12 sample_packet)) (secs_since (6 * NANOS) (e_inserted e'))) 35 = 119%Z.
Proof.
  refine (reload_reboot_ttl sample_entry 0 5100 5030 (5 * NANOS) 7 (take 17 (drop 12 sample_packet))
    (6 * NANOS) 35 120 _ _ _ _ _ _); [|by vm_compute..|].
  - eapply new_entry_ok; [apply sample_insert_ok|apply (proj2 sample_insert_ok)|by vm_compute].
  - apply list_elem_of_singleton. reflexivity.
Defined.

(** A file whose only entry has a 17-byte question and a 12-byte query. *)
Definition corrupt_file : list Z :=
  write_header CACHE_MAGIC 77 1 ++
  to_le 8 (ins_key sample_insert) ++ to_le 8 6000 ++ to_le 4 120 ++
  write_bytes (take 17 (drop 12 sample_packet)) ++ write_bytes sample_answer ++
  write_bytes (take 12 sample_packet) ++ write_bytes [97]%Z ++
  to_le 4 0 ++ to_le 2 3.

Definition corrupted_cache : DnsCache (gmap Z Entry) :=
  match load_from_file empty_cache corrupt_file 77 5000 (10 ^ 12) with
  | Ret (c, _) => c
  | _ => empty_cache
  end.

