(* ===== verification/VerdictCache.v ===== *)
(** * The verdict cache (src/src/verdict_cache.rs)

    Primary/secondary routing verdicts per domain name, expired lazily against
    their original insertion time, and their persistence.  The store is any
    [CacheMap] keyed by the name's bytes. *)

From S2P Require Import Prelude Utf8 Persist CacheMap.

Record VerdictEntry := mkVerdictEntry {
  is_primary : bool;
  inserted_unix : Z
}.

(** [config::VerdictCacheConfig], the TTL in whole seconds. *)
Record VerdictCacheConfig := mkVerdictCacheConfig {
  vcfg_capacity : Z;
  vcfg_ttl_secs : Z
}.

(** "PDNSV001" *)
Definition PERSIST_MAGIC : list Z := [80; 68; 78; 83; 86; 48; 48; 49]%Z.

(** ".verdict" appended to the cache path. *)
Definition persist_path_for (cache_path : list Z) : list Z :=
  cache_path ++ [46; 118; 101; 114; 100; 105; 99; 116]%Z.

Definition write_verdict (kv : list Z * VerdictEntry) : list Z :=
  let '(qname, entry) := kv in
  to_le 8 (inserted_unix entry) ++ [if is_primary entry then 1%Z else 0%Z] ++
  to_le 2 (wrap 16 (Z.of_nat (length qname))) ++ qname.

(** The reads of one iteration of the load loop. *)
Definition read_verdict : reader (Z * Z * list Z) :=
  let% inserted_unix := read_u64 in
  let% flag := read_exact 1 in
  let% qname_len := read_u16 in
  let% qname_bytes := read_exact (Z.to_nat qname_len) in
  rret (inserted_unix, nthb flag 0, qname_bytes).

Section verdict.
Context {S : Type} `{!CacheMap S (list Z) VerdictEntry}.

Record VerdictCache := mkVerdictCache {
  vc_inner : option S;
  vc_ttl_secs : Z
}.

Definition verdict_new (cfg : option VerdictCacheConfig) : VerdictCache :=
  match cfg with
  | None => mkVerdictCache None 0
  | Some cfg =>
      if decide (vcfg_capacity cfg = 0)%Z then mkVerdictCache None 0
      else mkVerdictCache (Some (cm_new (vcfg_capacity cfg))) (vcfg_ttl_secs cfg)
  end.

Definition verdict_enabled (self : VerdictCache) : bool :=
  match vc_inner self with Some _ => true | None => false end.

Definition is_expired (self : VerdictCache) (inserted_unix now : Z) : bool :=
  bool_decide (0 < vc_ttl_secs self /\ sat_add 64 inserted_unix (vc_ttl_secs self) <= now)%Z.

Definition with_inner (self : VerdictCache) (s : S) : VerdictCache :=
  mkVerdictCache (Some s) (vc_ttl_secs self).

Definition verdict_get (self : VerdictCache) (qname : list Z) (now : Z) : option bool * VerdictCache :=
  match vc_inner self with
  | None => (None, self)
  | Some s =>
      let '(found, s) := cm_get s qname in
      let self := with_inner self s in
      match found with
      | None => (None, self)
      | Some entry =>
          if is_expired self (inserted_unix entry) now then (None, self)
          else (Some (is_primary entry), self)
      end
  end.

Definition verdict_invalidate_all (self : VerdictCache) : VerdictCache :=
  match vc_inner self with Some s => with_inner self (cm_clear s) | None => self end.

Definition verdict_add (self : VerdictCache) (qname : list Z) (is_primary_domain : bool) (now : Z)
  : VerdictCache :=
  match vc_inner self with
  | None => self
  | Some s => with_inner self (cm_insert s qname (mkVerdictEntry is_primary_domain now))
  end.

Definition verdict_save (self : VerdictCache) (now fingerprint : Z) : option (list Z * nat) :=
  match vc_inner self with
  | None => None
  | Some s =>
      let entries := filter (fun kv => is_expired self (inserted_unix (snd kv)) now = false) (cm_iter s) in
      let count := length entries in
      Some (write_header PERSIST_MAGIC fingerprint (wrap 32 (Z.of_nat count)) ++
            concat (write_verdict <$> entries), count)
  end.

Fixpoint verdict_load_loop (n : nat) (r : list Z) (self : VerdictCache) (now : Z) (s : S) (loaded : nat)
  : S * result persist_error nat :=
  match n with
  | O => (s, Ok loaded)
  | Datatypes.S n' =>
      match read_verdict r with
      | Err e => (s, Err e)
      | Ok ((inserted_unix, flag, qname_bytes), r) =>
          if is_expired self inserted_unix now then verdict_load_loop n' r self now s loaded
          else
            match from_utf8 qname_bytes with
            | None => verdict_load_loop n' r self now s loaded
            | Some qname =>
                verdict_load_loop n' r self now
                  (cm_insert s qname (mkVerdictEntry (bool_decide (flag <> 0)%Z) inserted_unix)) (loaded + 1)
            end
      end
  end.

Definition verdict_load (self : VerdictCache) (file : list Z) (fingerprint now : Z)
  : VerdictCache * result persist_error nat :=
  match vc_inner self with
  | None => (self, Ok 0)
  | Some s =>
      match read_and_check_header PERSIST_MAGIC fingerprint file with
      | Err e => (self, Err e)
      | Ok (count, r) =>
          let '(s, res) := verdict_load_loop (Z.to_nat count) r self now s 0 in
          (with_inner self s, res)
      end
  end.
End verdict.
Arguments VerdictCache S : clear implicits.

(** ** Lookup *)

Section correct.
Context {S : Type} `{!CacheMap S (list Z) VerdictEntry, !CacheMapLaws S (list Z) VerdictEntry}.
Implicit Types (c : VerdictCache S).

Definition stored_verdict c (qname : list Z) : option VerdictEntry :=
  match vc_inner c with Some s => cm_view s !! qname | None => None end.

(** The verdict in force for a name at [now]. *)
Definition verdict_at c (qname : list Z) (now : Z) : option bool :=
  match stored_verdict c qname with
  | Some e => if is_expired c (inserted_unix e) now then None else Some (is_primary e)
  | None => None
  end.

Lemma verdict_get_eq c qname now :
  fst (verdict_get c qname now) = verdict_at c qname now /\
  (forall q t, verdict_at (snd (verdict_get c qname now)) q t = verdict_at c q t).
Proof.
  unfold verdict_get, verdict_at, stored_verdict. destruct (vc_inner c) as [s|] eqn:E;
    [|split; [done|]; intros; cbn [snd]; by rewrite E].
  pose proof (cm_get_value s qname) as Hv. pose proof (cm_get_view s qname) as Hw.
  destruct (cm_get s qname) as [found s']. cbn [fst snd] in Hv, Hw. rewrite <- Hv.
  destruct found as [e|]; [|split; [done|]; intros q t; cbn; by rewrite Hw].
  change (is_expired (with_inner c s') (inserted_unix e) now) with (is_expired c (inserted_unix e) now).
  destruct (is_expired c (inserted_unix e) now); (split; [done|]); intros q t; cbn; by rewrite Hw.
Qed.

(** Verdict lifetimes.  A verdict that is still stored is returned
    exactly until its deadline: with a TTL of [ttl] seconds it is returned at every time
    before insertion plus [ttl] and never after; with TTL zero it is always returned. *)
Theorem verdict_expiry c qname primary t0 now :
  vc_inner c <> None -> u_ok 64 t0 -> (0 <= vc_ttl_secs c)%Z -> (t0 + vc_ttl_secs c < 2 ^ 64)%Z ->
  let c1 := verdict_add c qname primary t0 in
  stored_verdict c1 qname = Some (mkVerdictEntry primary t0) ->
  fst (verdict_get c1 qname now)
  = if decide (vc_ttl_secs c = 0 \/ now < t0 + vc_ttl_secs c)%Z then Some primary else None.
Proof.
  intros Hi Ht Httl Hmax c1 Hst. rewrite (proj1 (verdict_get_eq c1 qname now)).
  unfold verdict_at. rewrite Hst. cbn [inserted_unix is_primary].
  assert (vc_ttl_secs c1 = vc_ttl_secs c) as Ets by (unfold c1, verdict_add; by destruct (vc_inner c)).
  unfold is_expired. rewrite Ets. unfold u_ok in Ht.
  assert (sat_add 64 t0 (vc_ttl_secs c) = t0 + vc_ttl_secs c)%Z as -> by (unfold sat_add; lia).
  case_decide as Hd; [rewrite bool_decide_false by lia|rewrite bool_decide_true by lia]; done.
Qed.

(** ** Persistence *)

Definition verdict_saveable (qname : list Z) (e : VerdictEntry) : Prop :=
  u_ok 64 (inserted_unix e) /\ (Z.of_nat (length qname) < 65536)%Z /\ utf8_valid qname = true.

Lemma read_verdict_write qname e rest :
  verdict_saveable qname e ->
  read_verdict (write_verdict (qname, e) ++ rest)
  = Ok ((inserted_unix e, if is_primary e then 1%Z else 0%Z, qname), rest).
Proof.
  intros (Hi & Hl & _). unfold read_verdict, write_verdict, rbind. rewrite <- !app_assoc.
  rewrite read_u64_app by done.
  rewrite (read_exact_app' 1 [_]) by done. unfold wrap. rewrite Z.mod_small by lia.
  rewrite read_u16_app by (unfold u_ok; lia). rewrite Nat2Z.id, read_exact_app. done.
Qed.

Definition insert_verdicts (s : S) (l : list (list Z * VerdictEntry)) : S :=
  foldl (fun s kv => cm_insert s (fst kv) (snd kv)) s l.

Lemma verdict_load_loop_saved entries c now (s : S) loaded rest :
  (forall kv, kv ∈ entries -> verdict_saveable (fst kv) (snd kv)) ->
  let live := filter (fun kv => is_expired c (inserted_unix (snd kv)) now = false) entries in
  verdict_load_loop (length entries) (concat (write_verdict <$> entries) ++ rest) c now s loaded
  = (insert_verdicts s live, Ok (loaded + length live)).
Proof.
  cbn zeta. revert s loaded. induction entries as [|[q e] entries IH]; intros s loaded Hs.
  - cbn. by rewrite Nat.add_0_r.
  - cbn [length verdict_load_loop fmap list_fmap concat]. rewrite <- app_assoc.
    pose proof (Hs (q, e)) as He. cbn [fst snd] in He.
    assert (verdict_saveable q e) as Hsv by (apply He; constructor).
    rewrite read_verdict_write by done. rewrite filter_cons. cbn [snd].
    assert (Hs' : forall kv, kv ∈ entries -> verdict_saveable (fst kv) (snd kv))
      by (intros; apply Hs; by constructor).
    destruct (is_expired c (inserted_unix e) now); [rewrite decide_False by done; by apply IH|].
    rewrite decide_True by done. destruct Hsv as (_ & _ & Hu). unfold from_utf8. rewrite Hu.
    rewrite IH by done. cbn [insert_verdicts foldl fst snd length].
    replace (loaded + 1 + _) with
      (loaded + Datatypes.S (length (filter (fun kv => is_expired c (inserted_unix (snd kv)) now = false) entries)))
      by lia.
    do 3 f_equal. destruct e as [[|] t]; done.
Qed.

(** Verdict persistence round-trips.  Loading a saved verdict file
    under the same fingerprint restores exactly the saved verdicts that are not past
    their original deadline, with their original insertion times; under another
    fingerprint nothing is loaded. *)
Theorem verdict_save_load c c0 s s0 now now' fp fp' file n :
  vc_inner c = Some s -> vc_inner c0 = Some s0 -> map_Forall verdict_saveable (cm_view s) ->
  u_ok 64 fp -> verdict_save c now fp = Some (file, n) -> (Z.of_nat n < 2 ^ 32)%Z ->
  let live := filter (fun kv => is_expired c0 (inserted_unix (snd kv)) now' = false)
    (filter (fun kv => is_expired c (inserted_unix (snd kv)) now = false) (cm_iter s)) in
  verdict_load c0 file fp now' = (with_inner c0 (insert_verdicts s0 live), Ok (length live)) /\
  (fp' <> fp -> verdict_load c0 file fp' now' = (c0, Err FingerprintMismatch)).
Proof.
  intros Hc Hc0 Hsv Hfp Hsave Hn live. unfold verdict_save in Hsave. rewrite Hc in Hsave.
  apply (inj Some), pair_equal_spec in Hsave as [Hfile Hcount]. subst file n.
  set (entries := filter (fun kv => is_expired c (inserted_unix (snd kv)) now = false) (cm_iter s)) in *.
  unfold verdict_load. rewrite Hc0. split.
  - assert (wrap 32 (Z.of_nat (length entries)) = Z.of_nat (length entries)) as -> by (apply Z.mod_small; lia).
    rewrite read_header_app by (done || unfold u_ok; lia). rewrite Nat2Z.id.
    pose proof (verdict_load_loop_saved entries c0 now' s0 0 []) as Hl.
    rewrite app_nil_r in Hl. cbn zeta in Hl. rewrite Hl; [done|].
    intros [q e] Hin. apply list_elem_of_filter in Hin as [_ Hin]. apply cm_iter_view in Hin. by apply Hsv.
  - intros Hne. by rewrite read_header_mismatch by done.
Qed.

(** after [invalidate_all] no verdict is in force. *)
Theorem verdict_invalidate_none c qname now :
  fst (verdict_get (verdict_invalidate_all c) qname now) = None.
Proof.
  rewrite (proj1 (verdict_get_eq _ _ _)). unfold verdict_at, stored_verdict, verdict_invalidate_all.
  destruct (vc_inner c) as [s|] eqn:E; cbn; [by rewrite cm_clear_view, lookup_empty|by rewrite E].
Qed.
End correct.

(** ** Concrete instances *)

Definition sample_verdicts : VerdictCache (gmap (list Z) VerdictEntry) :=
  verdict_new (Some (mkVerdictCacheConfig 10 60)).

Lemma verdict_expiry_witness :
  fst (verdict_get (verdict_add sample_verdicts [97]%Z true 1000) [97]%Z 1059) = Some true /\
  fst (verdict_get (verdict_add sample_verdicts [97]%Z true 1000) [97]%Z 1060) = None.
Proof.
  split.
  - apply (verdict_expiry sample_verdicts [97]%Z true 1000 1059);
      [done|unfold u_ok; lia|by vm_compute|by vm_compute|vm_compute; reflexivity].
  - apply (verdict_expiry sample_verdicts [97]%Z true 1000 1060);
      [done|unfold u_ok; lia|by vm_compute|by vm_compute|vm_compute; reflexivity].
Defined.

Definition verdict_store : gmap (list Z) VerdictEntry := {[ [97]%Z := mkVerdictEntry true 1000 ]}.

Lemma verdict_save_load_witness :
  exists file live, verdict_save (verdict_add sample_verdicts [97]%Z true 1000) 1010 5 = Some (file, 1) /\
    verdict_load sample_verdicts file 5 1050 = (with_inner sample_verdicts (insert_verdicts ∅ live), Ok 1) /\
    verdict_load sample_verdicts file 6 1050 = (sample_verdicts, Err FingerprintMismatch).
Proof.
  assert (exists file, verdict_save (verdict_add sample_verdicts [97]%Z true 1000) 1010 5 = Some (file, 1))
    as [file Hf] by (eexists; vm_compute; reflexivity).
  destruct (verdict_save_load (verdict_add sample_verdicts [97]%Z true 1000) sample_verdicts verdict_store ∅
    1010 1050 5 6 file 1) as [H1 H2]; [vm_compute; reflexivity|vm_compute; reflexivity| |unfold u_ok; lia|exact Hf|lia|].
  - change (map_Forall verdict_saveable verdict_store). unfold verdict_store. apply map_Forall_singleton.
    split; [unfold u_ok; cbn [inserted_unix]; lia|]. split; [cbn; lia|by vm_compute].
  - eexists file, _. split; [exact Hf|]. split; [exact H1|apply H2; lia].
Defined.
