(* ===== verification/Singleflight.v ===== *)
(** * Singleflight deduplication (src/src/singleflight.rs)

    The sharded table of in-flight cache keys.  The operations are the code's; a
    [oneshot] channel is a number with a state.  Shard mutexes make each table
    access atomic, while the sends of a publication happen after the lock is
    released, so the step relation interleaves them freely with everything else.
    Locks are never poisoned: release builds abort on panic. *)

From S2P Require Import Prelude.

Definition SHARDS : nat := 64.

(** Senders are identified by their channel. *)
Abbreviation waiters := (list nat).
Abbreviation shard_map := (gmap Z waiters).

Record InflightTable := mkInflightTable { shards : list shard_map }.

Definition table_new : InflightTable := mkInflightTable (replicate SHARDS ∅).

(** [(key as usize) & (SHARDS - 1)] *)
Definition shard_of (key : Z) : nat := Z.to_nat (Z.land key 63).

(** [register] under the shard lock: the new table, and the receiver's channel for
    a follower ([next] is the channel [oneshot::channel()] creates). *)
Definition register (t : InflightTable) (key : Z) (next : nat) : outcome (InflightTable * option nat) :=
  let! inflight := idx (shards t) (shard_of key) in
  match inflight !! key with
  | Some ws =>
      let! l := store (shards t) (shard_of key) (<[key := ws ++ [next]]> inflight) in
      Ret (mkInflightTable l, Some next)
  | None =>
      let! l := store (shards t) (shard_of key) (<[key := []]> inflight) in
      Ret (mkInflightTable l, None)
  end.

Definition take_waiters (t : InflightTable) (key : Z) : outcome (InflightTable * waiters) :=
  let! inflight := idx (shards t) (shard_of key) in
  let! l := store (shards t) (shard_of key) (delete key inflight) in
  Ret (mkInflightTable l, default [] (inflight !! key)).

(** What happens to a taken sender: [publish_bytes] and [publish_drop] send a
    message, [remove] drops the sender. *)
Inductive sender_fate :=
| Send (msg : option (list Z))
| DropSender.

Definition publish (t : InflightTable) (key : Z) (fate : sender_fate)
  : outcome (InflightTable * list (nat * sender_fate)) :=
  let! (t, ws) := take_waiters t key in
  Ret (t, (fun w => (w, fate)) <$> ws).

Definition publish_bytes (t : InflightTable) (key : Z) (resp : list Z) := publish t key (Send (Some resp)).
Definition publish_drop (t : InflightTable) (key : Z) := publish t key (Send None).
Definition remove (t : InflightTable) (key : Z) := publish t key DropSender.

(** ** The sharded table as one map *)

Definition tlookup (t : InflightTable) (key : Z) : option waiters :=
  shards t !! shard_of key ≫= (.!! key).

Definition table_ok (t : InflightTable) : Prop := length (shards t) = SHARDS.

Lemma shard_of_lt key : shard_of key < SHARDS.
Proof.
  unfold shard_of, SHARDS. change 63%Z with (Z.ones 6). rewrite Z.land_ones by lia.
  pose proof (Z.mod_pos_bound key (2 ^ 6)). lia.
Qed.

Lemma shard_lookup t key : table_ok t -> exists m, shards t !! shard_of key = Some m.
Proof. intros Ht. apply lookup_lt_is_Some_2. rewrite Ht. apply shard_of_lt. Qed.

(** Updating the shard of [key] at [key] changes the table at [key] only. *)
Lemma tlookup_update t key m v k :
  table_ok t -> shards t !! shard_of key = Some m ->
  tlookup (mkInflightTable (<[shard_of key := partial_alter (fun _ => v) key m]> (shards t))) k
  = if decide (k = key) then v else tlookup t k.
Proof.
  intros Ht Hm. unfold tlookup. cbn [shards].
  destruct (decide (shard_of k = shard_of key)) as [Hs|Hs].
  - rewrite Hs, list_lookup_insert_eq by (rewrite Ht; apply shard_of_lt). rewrite Hm. cbn.
    case_decide as Hk; [subst; by rewrite lookup_partial_alter_eq|by rewrite lookup_partial_alter_ne].
  - rewrite list_lookup_insert_ne by done. rewrite decide_False by congruence. done.
Qed.

Lemma register_eq t key next :
  table_ok t ->
  exists t', register t key next = Ret (t', match tlookup t key with Some _ => Some next | None => None end) /\
    table_ok t' /\
    forall k, tlookup t' k = if decide (k = key)
      then Some (match tlookup t key with Some ws => ws ++ [next] | None => [] end) else tlookup t k.
Proof.
  intros Ht. destruct (shard_lookup t key Ht) as [m Hm]. unfold register.
  rewrite (idx_lookup _ _ _ Hm). cbn [obind].
  assert (tlookup t key = m !! key) as -> by (unfold tlookup; by rewrite Hm).
  destruct (m !! key) as [ws|] eqn:Ek.
  - rewrite store_Ret by (rewrite Ht; apply shard_of_lt). eexists. split; [done|].
    split; [unfold table_ok; cbn; by rewrite length_insert|]. intros k. by apply tlookup_update.
  - rewrite store_Ret by (rewrite Ht; apply shard_of_lt). eexists. split; [done|].
    split; [unfold table_ok; cbn; by rewrite length_insert|]. intros k. by apply tlookup_update.
Qed.

Lemma publish_eq t key fate :
  table_ok t ->
  exists t', publish t key fate = Ret (t', (fun w => (w, fate)) <$> default [] (tlookup t key)) /\
    table_ok t' /\ forall k, tlookup t' k = if decide (k = key) then None else tlookup t k.
Proof.
  intros Ht. destruct (shard_lookup t key Ht) as [m Hm]. unfold publish, take_waiters.
  rewrite (idx_lookup _ _ _ Hm). cbn [obind]. rewrite store_Ret by (rewrite Ht; apply shard_of_lt).
  cbn [obind]. assert (tlookup t key = m !! key) as -> by (unfold tlookup; by rewrite Hm).
  eexists. split; [done|]. split; [unfold table_ok; cbn; by rewrite length_insert|].
  intros k. by apply (tlookup_update t key m None).
Qed.

(** ** Threads, channels and the step relation *)

Inductive chan :=
| Pending
| Delivered (msg : option (list Z))
| Closed
| Cancelled.

(** [sending] holds the senders that were taken from the table and not yet used,
    [leaders] the keys whose leader has not yet published. *)
Record world := mkWorld {
  w_table : InflightTable;
  w_chans : gmap nat chan;
  w_next : nat;
  w_sending : list (nat * sender_fate);
  w_leaders : gset Z
}.

Definition world_new : world := mkWorld table_new ∅ 0 [] ∅.

(** Using one sender; a cancelled receiver ignores the message. *)
Definition resolve (c : chan) (fate : sender_fate) : chan :=
  match c, fate with
  | Cancelled, _ => Cancelled
  | _, Send msg => Delivered msg
  | _, DropSender => Closed
  end.

Inductive step : world -> world -> Prop :=
| step_lead w key t :
    register (w_table w) key (w_next w) = Ret (t, None) ->
    step w (mkWorld t (w_chans w) (w_next w) (w_sending w) ({[key]} ∪ w_leaders w))
| step_follow w key t rx :
    register (w_table w) key (w_next w) = Ret (t, Some rx) ->
    step w (mkWorld t (<[rx := Pending]> (w_chans w)) (S (w_next w)) (w_sending w) (w_leaders w))
| step_publish w key fate t out :
    key ∈ w_leaders w ->
    publish (w_table w) key fate = Ret (t, out) ->
    step w (mkWorld t (w_chans w) (w_next w) (w_sending w ++ out) (w_leaders w ∖ {[key]}))
| step_send w pre rx fate post c :
    w_sending w = pre ++ (rx, fate) :: post -> w_chans w !! rx = Some c ->
    step w (mkWorld (w_table w) (<[rx := resolve c fate]> (w_chans w)) (w_next w) (pre ++ post) (w_leaders w))
| step_cancel w rx :
    w_chans w !! rx = Some Pending ->
    step w (mkWorld (w_table w) (<[rx := Cancelled]> (w_chans w)) (w_next w) (w_sending w) (w_leaders w)).

Definition reachable_world (w : world) : Prop := rtc step world_new w.

(** ** The invariant *)

Definition waiting (w : world) (rx : nat) : Prop :=
  exists key ws, tlookup (w_table w) key = Some ws /\ rx ∈ ws.

Record world_ok (w : world) : Prop := mkWorldOk {
  wo_table : table_ok (w_table w);
  wo_leaders : forall key, key ∈ w_leaders w <-> is_Some (tlookup (w_table w) key);
  wo_nodup : forall key ws, tlookup (w_table w) key = Some ws -> NoDup ws;
  wo_disjoint : forall k1 k2 w1 w2 rx, tlookup (w_table w) k1 = Some w1 -> tlookup (w_table w) k2 = Some w2 ->
    rx ∈ w1 -> rx ∈ w2 -> k1 = k2;
  wo_sending : NoDup (fst <$> w_sending w);
  wo_apart : forall rx, waiting w rx -> rx ∉ fst <$> w_sending w;
  wo_fresh : forall rx, w_next w <= rx -> w_chans w !! rx = None;
  wo_open : forall rx, waiting w rx \/ rx ∈ fst <$> w_sending w ->
    w_chans w !! rx = Some Pending \/ w_chans w !! rx = Some Cancelled;
  wo_held : forall rx, w_chans w !! rx = Some Pending -> waiting w rx \/ rx ∈ fst <$> w_sending w
}.

Lemma tlookup_new key : tlookup table_new key = None.
Proof.
  unfold tlookup, table_new. cbn [shards].
  rewrite lookup_replicate_2 by apply shard_of_lt. cbn. apply lookup_empty.
Qed.

Lemma waiting_lt w rx : world_ok w -> waiting w rx \/ rx ∈ fst <$> w_sending w -> rx < w_next w.
Proof.
  intros Hw Hx. destruct (decide (w_next w <= rx)) as [Hge|]; [|lia].
  pose proof (wo_fresh w Hw rx Hge). destruct (wo_open w Hw rx Hx); congruence.
Qed.

Lemma world_new_ok : world_ok world_new.
Proof.
  assert (forall rx, ~ waiting world_new rx) as Hnw.
  { intros rx (key & ws & H & _). cbn in H. by rewrite tlookup_new in H. }
  constructor; cbn.
  - apply length_replicate.
  - intros key. rewrite tlookup_new. split; [set_solver|intros [? ?]; done].
  - intros key ws. by rewrite tlookup_new.
  - intros k1 k2 w1 w2 rx H. by rewrite tlookup_new in H.
  - constructor.
  - intros rx H. by apply Hnw in H.
  - intros. apply lookup_empty.
  - intros rx [H|H]; [by apply Hnw in H|by apply not_elem_of_nil in H].
  - intros rx H. by rewrite lookup_empty in H.
Qed.

(** Registration as a leader adds an empty waiter list. *)
Lemma lead_ok w key t :
  world_ok w -> register (w_table w) key (w_next w) = Ret (t, None) ->
  world_ok (mkWorld t (w_chans w) (w_next w) (w_sending w) ({[key]} ∪ w_leaders w)).
Proof.
  intros Hw Hr. destruct (register_eq (w_table w) key (w_next w) (wo_table w Hw)) as (t' & Hr' & Ht & Hl).
  rewrite Hr in Hr'. destruct (tlookup (w_table w) key) as [ws|] eqn:Ek; [done|].
  injection Hr' as <-.
  assert (Hwait : forall rx, waiting (mkWorld t (w_chans w) (w_next w) (w_sending w) ({[key]} ∪ w_leaders w)) rx <-> waiting w rx).
  { intros rx. unfold waiting. cbn [w_table]. split.
    - intros (k & ws & H & Hin). rewrite Hl in H. case_decide; [injection H as <-; by apply not_elem_of_nil in Hin|eauto].
    - intros (k & ws & H & Hin). exists k, ws. rewrite Hl. rewrite decide_False by congruence. done. }
  constructor; cbn [w_table w_chans w_next w_sending w_leaders].
  - done.
  - intros k. rewrite Hl, elem_of_union, elem_of_singleton, (wo_leaders w Hw).
    case_decide as Hk; [subst; split; [by eexists|by left]|]. split; [intros [?|?]; done|by right].
  - intros k ws. rewrite Hl. case_decide; [intros [= <-]; constructor|by apply (wo_nodup w Hw)].
  - intros k1 k2 w1 w2 rx. rewrite !Hl. intros H1 H2 Hx1 Hx2.
    destruct (decide (k1 = key)); [injection H1 as <-; by apply not_elem_of_nil in Hx1|].
    destruct (decide (k2 = key)); [injection H2 as <-; by apply not_elem_of_nil in Hx2|].
    by eapply (wo_disjoint w Hw).
  - apply (wo_sending w Hw).
  - intros rx. rewrite Hwait. apply (wo_apart w Hw).
  - apply (wo_fresh w Hw).
  - intros rx. rewrite Hwait. apply (wo_open w Hw).
  - intros rx. rewrite Hwait. apply (wo_held w Hw).
Qed.

(** Registration as a follower appends a fresh channel to the key's waiters. *)
Lemma follow_ok w key t rx0 :
  world_ok w -> register (w_table w) key (w_next w) = Ret (t, Some rx0) ->
  world_ok (mkWorld t (<[rx0 := Pending]> (w_chans w)) (S (w_next w)) (w_sending w) (w_leaders w)).
Proof.
  intros Hw Hr. destruct (register_eq (w_table w) key (w_next w) (wo_table w Hw)) as (t' & Hr' & Ht & Hl).
  rewrite Hr in Hr'. destruct (tlookup (w_table w) key) as [ws0|] eqn:Ek; [|done].
  injection Hr' as <- ->. set (w' := mkWorld _ _ _ _ _).
  assert (Hwait : forall rx, waiting w' rx <-> waiting w rx \/ rx = w_next w).
  { intros rx. unfold waiting. cbn [w_table w']. split.
    - intros (k & ws & H & Hin). rewrite Hl in H. case_decide; [|by eauto].
      injection H as <-. apply elem_of_app in Hin as [Hin|Hin]; [by eauto|].
      right. by apply list_elem_of_singleton in Hin.
    - intros [(k & ws & H & Hin)| ->].
      + destruct (decide (k = key)) as [->|Hk].
        * exists key, (ws0 ++ [w_next w]). rewrite Hl, decide_True by done. split; [done|].
          rewrite Ek in H. injection H as ->. apply elem_of_app. by left.
        * exists k, ws. by rewrite Hl, decide_False.
      + exists key, (ws0 ++ [w_next w]). rewrite Hl, decide_True by done. split; [done|].
        apply elem_of_app. right. by apply list_elem_of_singleton. }
  assert (Hold : forall k ws rx, tlookup (w_table w) k = Some ws -> rx ∈ ws -> rx <> w_next w).
  { intros k ws rx H Hin. assert (rx < w_next w); [|lia].
    apply (waiting_lt w rx Hw). left. by exists k, ws. }
  assert (Hsend : forall rx, rx ∈ fst <$> w_sending w -> rx <> w_next w).
  { intros rx H. assert (rx < w_next w); [|lia]. apply (waiting_lt w rx Hw). by right. }
  constructor; cbn [w_table w_chans w_next w_sending w_leaders w'].
  - done.
  - intros k. rewrite Hl, (wo_leaders w Hw). case_decide as Hk; [|done]. subst. rewrite Ek.
    split; by eexists.
  - intros k ws. rewrite Hl. case_decide; [|by apply (wo_nodup w Hw)]. intros [= <-].
    apply NoDup_app. split; [by eapply (wo_nodup w Hw)|]. split; [|apply NoDup_singleton].
    intros rx Hin ->%list_elem_of_singleton. by eapply Hold.
  - intros k1 k2 w1 w2 rx H1 H2 Hx1 Hx2.
    assert (forall k ws, tlookup t k = Some ws -> rx ∈ ws -> rx <> w_next w ->
      exists ws', tlookup (w_table w) k = Some ws' /\ rx ∈ ws') as Hback.
    { intros k ws H Hin Hne. rewrite Hl in H. case_decide; [|by eauto]. injection H as <-. subst.
      apply elem_of_app in Hin as [Hin|Hin%list_elem_of_singleton]; [by eauto|done]. }
    destruct (decide (rx = w_next w)) as [->|Hne].
    + assert (forall k ws, tlookup t k = Some ws -> w_next w ∈ ws -> k = key) as Hkey.
      { intros k ws H Hin. rewrite Hl in H. case_decide; [done|]. by apply (Hold k ws) in Hin. }
      by rewrite (Hkey _ _ H1 Hx1), (Hkey _ _ H2 Hx2).
    + destruct (Hback _ _ H1 Hx1 Hne) as (? & ? & ?), (Hback _ _ H2 Hx2 Hne) as (? & ? & ?).
      by eapply (wo_disjoint w Hw).
  - apply (wo_sending w Hw).
  - intros rx [Hx| ->]%Hwait; [by apply (wo_apart w Hw)|]. intros Hin. by apply (Hsend (w_next w)).
  - intros rx Hge. rewrite lookup_insert_ne by lia. apply (wo_fresh w Hw). lia.
  - intros rx. rewrite Hwait. destruct (decide (rx = w_next w)) as [->|Hne].
    + intros _. left. apply lookup_insert_eq.
    + rewrite lookup_insert_ne by done. intros [[?|?]|?]; [|done|]; apply (wo_open w Hw); tauto.
  - intros rx. rewrite Hwait. destruct (decide (rx = w_next w)) as [->|Hne]; [tauto|].
    rewrite lookup_insert_ne by done. intros ?%(wo_held w Hw). tauto.
Qed.

Lemma fst_fates (fate : sender_fate) (ws : waiters) : fst <$> ((fun w => (w, fate)) <$> ws) = ws.
Proof. rewrite <- list_fmap_compose. apply list_fmap_id. Qed.

(** Publishing moves the key's waiters to the sending list. *)
Lemma publish_ok w key fate t out :
  world_ok w -> publish (w_table w) key fate = Ret (t, out) ->
  world_ok (mkWorld t (w_chans w) (w_next w) (w_sending w ++ out) (w_leaders w ∖ {[key]})).
Proof.
  intros Hw Hp. destruct (publish_eq (w_table w) key fate (wo_table w Hw)) as (t' & Hp' & Ht & Hl).
  rewrite Hp in Hp'. injection Hp' as <- ->.
  set (ws0 := default [] (tlookup (w_table w) key)). set (w' := mkWorld _ _ _ _ _).
  assert (Hin0 : forall rx, rx ∈ ws0 <-> exists ws, tlookup (w_table w) key = Some ws /\ rx ∈ ws).
  { intros rx. unfold ws0. destruct (tlookup (w_table w) key) as [ws|]; cbn; [naive_solver|].
    split; [by intros ?%not_elem_of_nil|naive_solver]. }
  assert (Hwait : forall rx, waiting w' rx <-> waiting w rx /\ rx ∉ ws0).
  { intros rx. unfold waiting. cbn [w_table w']. rewrite Hin0. split.
    - intros (k & ws & H & Hin). rewrite Hl in H. case_decide as Hk; [done|]. split; [by eauto|].
      intros (ws' & H' & Hin'). apply Hk. by eapply (wo_disjoint w Hw).
    - intros [(k & ws & H & Hin) Hn]. exists k, ws. rewrite Hl. case_decide; [|done]. subst. naive_solver. }
  assert (Hfst : fst <$> (w_sending w ++ ((fun w => (w, fate)) <$> ws0)) = (fst <$> w_sending w) ++ ws0)
    by by rewrite fmap_app, fst_fates.
  assert (Hsend : forall rx, rx ∈ fst <$> w_sending w' <-> rx ∈ fst <$> w_sending w \/ rx ∈ ws0).
  { intros rx. cbn [w_sending w']. rewrite Hfst. apply elem_of_app. }
  assert (Hw0 : forall rx, rx ∈ ws0 -> waiting w rx).
  { intros rx (ws & H & Hin)%Hin0. by exists key, ws. }
  constructor; cbn [w_table w_chans w_next w_leaders w'].
  - done.
  - intros k. rewrite Hl, elem_of_difference, elem_of_singleton, (wo_leaders w Hw).
    case_decide; [|tauto]. split; [tauto|intros [? ?]; done].
  - intros k ws. rewrite Hl. case_decide; [done|]. by apply (wo_nodup w Hw).
  - intros k1 k2 w1 w2 rx. rewrite !Hl. destruct (decide (k1 = key)), (decide (k2 = key)); try done.
    by apply (wo_disjoint w Hw).
  - cbn [w_sending w']. rewrite Hfst. apply NoDup_app. split; [apply (wo_sending w Hw)|]. split.
    + intros rx Hs Hx. by apply (wo_apart w Hw rx); [apply Hw0|].
    + unfold ws0. destruct (tlookup (w_table w) key) eqn:Ek; [by eapply (wo_nodup w Hw)|constructor].
  - intros rx [Hx Hn]%Hwait. rewrite Hsend. intros [Hs|Hs]; [by apply (wo_apart w Hw rx)|done].
  - apply (wo_fresh w Hw).
  - intros rx. rewrite Hwait, Hsend. intros Hx. apply (wo_open w Hw). naive_solver.
  - intros rx Hp0. rewrite Hwait, Hsend. apply (wo_held w Hw) in Hp0.
    destruct (decide (rx ∈ ws0)); tauto.
Qed.

Lemma resolve_not_pending c fate : resolve c fate <> Pending.
Proof. by destruct c, fate. Qed.

Lemma send_ok w pre rx0 fate post c :
  world_ok w -> w_sending w = pre ++ (rx0, fate) :: post -> w_chans w !! rx0 = Some c ->
  world_ok (mkWorld (w_table w) (<[rx0 := resolve c fate]> (w_chans w)) (w_next w) (pre ++ post) (w_leaders w)).
Proof.
  intros Hw Hs Hc. pose proof (wo_sending w Hw) as Hnd. rewrite Hs, fmap_app, fmap_cons in Hnd.
  cbn [fst] in Hnd. apply NoDup_app in Hnd as (Hn1 & Hd & Hn2%NoDup_cons). destruct Hn2 as [Hn0 Hn2].
  assert (Hsend : forall rx, rx ∈ fst <$> pre ++ post <-> rx ∈ fst <$> w_sending w /\ rx <> rx0).
  { intros rx. rewrite Hs, !fmap_app, fmap_cons, !elem_of_app, elem_of_cons. cbn [fst]. split.
    - intros [Hx|Hx]; (split; [tauto|]); intros ->; [|done]. apply (Hd rx0); [done|]. constructor.
    - intros [[Hx|[Hx|Hx]] Hne]; tauto. }
  assert (H0 : rx0 ∈ fst <$> w_sending w).
  { rewrite Hs, fmap_app, fmap_cons. apply elem_of_app. right. constructor. }
  constructor; cbn [w_table w_chans w_next w_leaders w_sending].
  - apply (wo_table w Hw).
  - apply (wo_leaders w Hw).
  - apply (wo_nodup w Hw).
  - apply (wo_disjoint w Hw).
  - rewrite fmap_app. apply NoDup_app. split; [done|]. split; [|done]. intros rx Hx Hy.
    apply (Hd rx Hx). by constructor.
  - intros rx Hx [Hy _]%Hsend. by apply (wo_apart w Hw rx).
  - intros rx Hge. rewrite lookup_insert_ne; [by apply (wo_fresh w Hw)|]. intros <-.
    pose proof (wo_fresh w Hw rx0 Hge). congruence.
  - intros rx Hx. rewrite lookup_insert_ne.
    + apply (wo_open w Hw). rewrite Hsend in Hx. destruct Hx as [?|[? ?]]; [by left|by right].
    + intros <-. rewrite Hsend in Hx. destruct Hx as [Hx|[_ ?]]; [by apply (wo_apart w Hw rx0) in Hx|done].
  - intros rx. rewrite Hsend. destruct (decide (rx = rx0)) as [->|Hne].
    + rewrite lookup_insert_eq. intros [= Hx]. by apply resolve_not_pending in Hx.
    + rewrite lookup_insert_ne by done. intros ?%(wo_held w Hw). tauto.
Qed.

Lemma cancel_ok w rx0 :
  world_ok w -> w_chans w !! rx0 = Some Pending ->
  world_ok (mkWorld (w_table w) (<[rx0 := Cancelled]> (w_chans w)) (w_next w) (w_sending w) (w_leaders w)).
Proof.
  intros Hw Hc. constructor; cbn [w_table w_chans w_next w_leaders w_sending]; try apply Hw.
  - intros rx Hge. rewrite lookup_insert_ne; [by apply (wo_fresh w Hw)|]. intros <-.
    pose proof (wo_fresh w Hw rx0 Hge). congruence.
  - intros rx Hx. destruct (decide (rx = rx0)) as [->|Hne]; [right; apply lookup_insert_eq|].
    rewrite lookup_insert_ne by done. by apply (wo_open w Hw).
  - intros rx. destruct (decide (rx = rx0)) as [->|Hne]; [by rewrite lookup_insert_eq|].
    rewrite lookup_insert_ne by done. apply (wo_held w Hw).
Qed.

Lemma step_ok w w' : world_ok w -> step w w' -> world_ok w'.
Proof.
  intros Hw Hs. destruct Hs; [by eapply lead_ok|by eapply follow_ok|by eapply publish_ok|by eapply send_ok|by apply cancel_ok].
Qed.

Lemma reachable_world_ok w : reachable_world w -> world_ok w.
Proof.
  intros H. assert (forall a b, rtc step a b -> world_ok a -> world_ok b) as Hr.
  { intros a b Hab. induction Hab as [|a b c Hs Hr IH]; [done|]. intros Ha. apply IH. by eapply step_ok. }
  eapply Hr; [exact H|]. apply world_new_ok.
Qed.

(** C11: no caller is forgotten and no key has two leaders.  In
    every reachable state of the singleflight table, under any interleaving of
    registrations, publications, sends and cancellations: a caller of [register] becomes
    leader exactly when no leader is in flight for its key; every follower still pending
    is either in the waiter list of a key whose leader is in flight, or among the senders
    of a publication under way. *)
Theorem singleflight_no_lost_waiter w key :
  reachable_world w ->
  (exists t rx, register (w_table w) key (w_next w) = Ret (t, rx) /\ (rx = None <-> key ∉ w_leaders w)) /\
  forall rx, w_chans w !! rx = Some Pending ->
    (exists k ws, k ∈ w_leaders w /\ tlookup (w_table w) k = Some ws /\ rx ∈ ws) \/
    rx ∈ fst <$> w_sending w.
Proof.
  intros Hw%reachable_world_ok. split.
  - destruct (register_eq (w_table w) key (w_next w) (wo_table w Hw)) as (t & Hr & _).
    eexists t, _. split; [exact Hr|]. rewrite (wo_leaders w Hw).
    destruct (tlookup (w_table w) key) as [ws|].
    + split; [done|]. intros Hn. destruct Hn. by eexists.
    + split; [|done]. intros _ [? ?]. done.
  - intros rx Hp. destruct (wo_held w Hw rx Hp) as [(k & ws & Hk & Hin)|?]; [|by right].
    left. exists k, ws. split; [|done]. apply (wo_leaders w Hw). by eexists.
Qed.

(** Sending everything in [l], in order. *)
Fixpoint send_all (l : list (nat * sender_fate)) (chans : gmap nat chan) : gmap nat chan :=
  match l with
  | [] => chans
  | (rx, fate) :: l' =>
      send_all l' (match chans !! rx with Some c => <[rx := resolve c fate]> chans | None => chans end)
  end.

Lemma send_all_other l chans rx : rx ∉ fst <$> l -> send_all l chans !! rx = chans !! rx.
Proof.
  revert chans. induction l as [|[r f] l IH]; intros chans Hn; [done|]. cbn in Hn.
  apply not_elem_of_cons in Hn as [Hne Hn]. cbn [send_all]. rewrite IH by done.
  destruct (chans !! r); [|done]. by rewrite lookup_insert_ne.
Qed.

Lemma send_all_in l chans rx fate :
  NoDup (fst <$> l) -> (rx, fate) ∈ l -> chans !! rx = Some Pending ->
  send_all l chans !! rx = Some (resolve Pending fate).
Proof.
  revert chans. induction l as [|[r f] l IH]; intros chans Hnd Hin Hp; [by apply not_elem_of_nil in Hin|].
  cbn in Hnd. apply NoDup_cons in Hnd as [Hn Hnd]. cbn [send_all].
  apply elem_of_cons in Hin as [[= <- <-]|Hin].
  - rewrite Hp, send_all_other by done. apply lookup_insert_eq.
  - apply IH; [done..|]. assert (rx <> r).
    { intros ->. apply Hn. apply list_elem_of_fmap. by exists (r, fate). }
    destruct (chans !! r); [by rewrite lookup_insert_ne|done].
Qed.

(** Publication reaches every follower.  When the leader of [key]
    publishes (or drops, or removes on error) in a reachable state, the key is free
    again, other keys are untouched, and once the taken senders are used every follower
    of the key still waiting holds the leader's outcome: the response bytes, "no reply",
    or a closed channel. *)
Theorem singleflight_publish_delivers w key fate ws :
  reachable_world w -> tlookup (w_table w) key = Some ws ->
  exists t out, publish (w_table w) key fate = Ret (t, out) /\
    tlookup t key = None /\ (forall k, k <> key -> tlookup t k = tlookup (w_table w) k) /\
    forall rx, rx ∈ ws -> w_chans w !! rx = Some Pending ->
      send_all out (w_chans w) !! rx
      = Some (match fate with Send msg => Delivered msg | DropSender => Closed end).
Proof.
  intros Hw%reachable_world_ok Hk.
  destruct (publish_eq (w_table w) key fate (wo_table w Hw)) as (t & Hp & _ & Hl).
  rewrite Hk in Hp. cbn [default] in Hp. exists t. eexists. split; [exact Hp|].
  split; [by rewrite Hl, decide_True|]. split; [intros k Hne; by rewrite Hl, decide_False|].
  intros rx Hin Hpend. rewrite (send_all_in _ _ _ fate); [by destruct fate| | |done].
  - unfold id. rewrite fst_fates. by eapply (wo_nodup w Hw).
  - apply list_elem_of_fmap. by exists rx.
Qed.

(** ** Concrete instances *)

(** A leader and two followers for key 7. *)
Definition sample_world : world :=
  match register table_new 7 0 with
  | Ret (t, _) =>
      match register t 7 0 with
      | Ret (t, _) =>
          match register t 7 1 with
          | Ret (t, _) => mkWorld t (<[1 := Pending]> (<[0 := Pending]> ∅)) 2 [] ({[7%Z]} ∪ ∅)
          | _ => world_new
          end
      | _ => world_new
      end
  | _ => world_new
  end.

Lemma sample_world_reachable : reachable_world sample_world.
Proof.
  eapply rtc_l; [apply (step_lead world_new 7); vm_compute; reflexivity|].
  eapply rtc_l; [eapply (step_follow _ 7); vm_compute; reflexivity|].
  eapply rtc_l; [eapply (step_follow _ 7); vm_compute; reflexivity|].
  replace sample_world with (mkWorld (w_table sample_world) (<[1 := Pending]> (<[0 := Pending]> ∅)) 2 [] ({[7%Z]} ∪ ∅))
    by reflexivity.
  apply rtc_refl.
Qed.

Lemma singleflight_no_lost_waiter_witness :
  exists t, register (w_table sample_world) 9 2 = Ret (t, None).
Proof.
  destruct (singleflight_no_lost_waiter sample_world 9 sample_world_reachable) as [(t & rx & Hr & Hn) _].
  exists t. assert (rx = None) as -> by (apply Hn; by vm_compute). exact Hr.
Defined.

Lemma singleflight_publish_witness :
  exists t out, publish_bytes (w_table sample_world) 7 [1; 2]%Z = Ret (t, out) /\
    send_all out (w_chans sample_world) !! 1 = Some (Delivered (Some [1; 2]%Z)).
Proof.
  destruct (singleflight_publish_delivers sample_world 7 (Send (Some [1; 2]%Z)) [0; 1] sample_world_reachable)
    as (t & out & Hp & _ & _ & Hd); [vm_compute; reflexivity|].
  exists t, out. split; [exact Hp|]. apply Hd; [by right; left|vm_compute; reflexivity].
Defined.
