(* ===== verification/IpRange.v ===== *)
(** * IP range sets (src/src/iprange.rs)

    Address ranges in one 128-bit space, the merging of a sorted range list and
    the binary-search containment test.  [sort_unstable_by_key] may return any
    sorted permutation; the results hold for all of them. *)

From S2P Require Import Prelude Hasher DnsName DnsQuery DnsRecords DnsEdns Ecs.

Abbreviation range := (Z * Z)%type.

Definition U128_MAX : Z := 2 ^ 128 - 1.

Record IpRangeSet := mkIpRangeSet { set_ranges : list range }.

(** [slice::partition_point] on a slice partitioned by [p]: the length of the
    prefix on which [p] holds. *)
Fixpoint partition_point {A} (p : A -> bool) (l : list A) : nat :=
  match l with
  | [] => 0
  | x :: l' => if p x then S (partition_point p l') else 0
  end.

(** [u128::from(v4.to_ipv6_mapped())] and [u128::from(v6)] *)
Definition to_u128 (ip : IpAddr) : Z :=
  match ip with
  | V4 o => from_be (replicate 10 0%Z ++ [255; 255]%Z ++ o)
  | V6 o => from_be o
  end.

Definition contains_u128 (self : IpRangeSet) (v : Z) : outcome bool :=
  let i := partition_point (fun r : range => bool_decide (fst r <= v)%Z) (set_ranges self) in
  if decide (0 < i) then
    let! r := idx (set_ranges self) (i - 1) in Ret (bool_decide (v <= snd r)%Z)
  else Ret false.

Definition contains (self : IpRangeSet) (ip : IpAddr) : outcome bool := contains_u128 self (to_u128 ip).

Definition push_range (ranges : list range) (from to : Z) : list range :=
  if decide (from <= to)%Z then ranges ++ [(from, to)] else ranges.

(** The merge loop: [merged] is kept in reverse, its head is [merged.last_mut()]. *)
Fixpoint merge_loop (ranges merged : list range) : list range :=
  match ranges with
  | [] => merged
  | (from, to) :: ranges' =>
      match merged with
      | last :: merged' =>
          if decide (from <= sat_add 128 (snd last) 1)%Z then
            merge_loop ranges' ((if decide (snd last < to)%Z then (fst last, to) else last) :: merged')
          else merge_loop ranges' ((from, to) :: merged)
      | [] => merge_loop ranges' [(from, to)]
      end
  end.

(** [build] after its sort. *)
Definition build_sorted (ranges : list range) : IpRangeSet := mkIpRangeSet (rev (merge_loop ranges [])).

Definition by_from (a b : range) : Prop := (fst a <= fst b)%Z.

#[export] Instance by_from_dec a b : Decision (by_from a b).
Proof. unfold by_from. apply _. Defined.

Definition build (ranges : list range) : IpRangeSet := build_sorted (merge_sort by_from ranges).

(** [parse_cidr_range] from the parsed address and prefix length on; [None] is the
    out-of-range prefix. *)
Definition cidr_range (ip : IpAddr) (prefix : option Z) : option range :=
  let family_bits := match ip with V4 _ => 32%Z | V6 _ => 128%Z end in
  let prefix_len := default family_bits prefix in
  if decide (family_bits < prefix_len)%Z then None
  else
    let base := to_u128 ip in
    let host_bits := (family_bits - prefix_len)%Z in
    let mask := if decide (128 <= host_bits)%Z then 0%Z
                else wrap 128 (Z.shiftl U128_MAX host_bits) in
    let from := Z.land base mask in
    let to := Z.lor base (Z.lxor mask U128_MAX) in
    Some (from, to).

(** ** Merging *)

Definition in_range_of (v : Z) (r : range) : Prop := (fst r <= v <= snd r)%Z.

Definition in_some (v : Z) (rs : list range) : Prop := Exists (in_range_of v) rs.

(** Ranges in reverse order, each strictly below and apart from the one before it. *)
Definition separated (rs : list range) : Prop :=
  Sorted (fun a b => snd b + 1 < fst a)%Z rs /\ Forall (fun r => fst r <= snd r)%Z rs.

Definition ranges_ok (rs : list range) : Prop :=
  Forall (fun r => 0 <= fst r <= snd r /\ snd r <= U128_MAX)%Z rs.

Lemma merge_loop_spec rs merged v :
  Sorted by_from rs -> ranges_ok rs -> ranges_ok merged -> separated merged ->
  (forall r m, head rs = Some r -> head merged = Some m -> (fst m <= fst r)%Z) ->
  (in_some v (merge_loop rs merged) <-> in_some v rs \/ in_some v merged) /\
  separated (merge_loop rs merged) /\ ranges_ok (merge_loop rs merged).
Proof.
  revert merged. induction rs as [|[f t] rs IH]; intros merged Hs Hok Hmok Hsep Hhd; cbn [merge_loop].
  - split; [|done]. unfold in_some at 2. rewrite Exists_nil. tauto.
  - apply Sorted_inv in Hs as [Hs Hrel]. apply Forall_cons in Hok as [Hr Hok]. cbn in Hr.
    assert (Hnext : forall r, head rs = Some r -> (f <= fst r)%Z).
    { intros r Hr'. destruct rs; [done|]. injection Hr' as ->. by inversion Hrel. }
    unfold in_some in *. rewrite (Exists_cons (in_range_of v) (f, t) rs).
    destruct merged as [|[lf lt] merged].
    + destruct (IH [(f, t)]) as (H1 & H2 & H3); [done|done|by apply Forall_singleton| |  |].
      { split; [repeat constructor|apply Forall_singleton; cbn; lia]. }
      { intros r m Hr' [= <-]. cbn. by apply Hnext. }
      split; [|done]. rewrite H1, Exists_cons, Exists_nil. cbn. tauto.
    + pose proof Hmok as Hmok'. apply Forall_cons in Hmok as [Hm Hmok]. cbn in Hm.
      destruct Hsep as [Hso Hsf]. pose proof Hso as Hso'. apply Sorted_inv in Hso as [Hso Hsr].
      apply Forall_cons in Hsf as Hsf'. destruct Hsf' as [Hlast Hsf']. cbn in Hlast.
      pose proof (Hhd (f, t) (lf, lt) eq_refl eq_refl) as Hlf. cbn in Hlf. cbn [snd fst].
      assert (Hsat : sat_add 128 lt 1 = Z.min U128_MAX (lt + 1)) by done.
      case_decide as Hov.
      * set (m := if decide (lt < t)%Z then (lf, t) else (lf, lt)).
        assert (Hm1 : fst m = lf /\ snd m = Z.max lt t) by (unfold m; case_decide; cbn; lia).
        destruct Hm1 as [Hmf Hmt].
        destruct (IH (m :: merged)) as (H1 & H2 & H3); [done|done| | | |].
        { constructor; [lia|done]. }
        { split; [|constructor; [lia|done]]. constructor; [done|].
          destruct Hsr; constructor. cbn in *. lia. }
        { intros r m' Hr' [= <-]. rewrite Hmf. pose proof (Hnext r Hr'). lia. }
        split; [|done]. rewrite H1, !Exists_cons.
        assert (in_range_of v m <-> in_range_of v (f, t) \/ in_range_of v (lf, lt)) as ->; [|tauto].
        unfold in_range_of. rewrite Hmf, Hmt. cbn. unfold U128_MAX in *. lia.
      * destruct (IH ((f, t) :: (lf, lt) :: merged)) as (H1 & H2 & H3); [done|done| | | |].
        { constructor; [cbn; lia|done]. }
        { split; [|constructor; [cbn; lia|done]]. constructor; [done|]. constructor. cbn.
          unfold U128_MAX in *. lia. }
        { intros r m' Hr' [= <-]. cbn. by apply Hnext. }
        split; [|done]. rewrite H1, !Exists_cons. tauto.
Qed.

(** ** Containment *)

(** Ranges in increasing order, apart from each other. *)
Definition increasing (rs : list range) : Prop :=
  StronglySorted (fun a b => snd a + 1 < fst b)%Z rs /\ Forall (fun r => fst r <= snd r)%Z rs.

Lemma separated_lt rs r x : separated (r :: rs) -> x ∈ rs -> (snd x + 1 < fst r)%Z.
Proof.
  revert r. induction rs as [|y rs IH]; intros r [Hs Hf] Hx; [by apply not_elem_of_nil in Hx|].
  apply Sorted_inv in Hs as [Hs Hr]. inversion Hr as [|? ? Hyr]; subst.
  apply Forall_cons in Hf as [Hfr Hf]. apply elem_of_cons in Hx as [->|Hx]; [done|].
  assert (snd x + 1 < fst y)%Z by (apply IH; [by split|done]).
  apply Forall_cons in Hf as [Hfy _]. cbn in *. lia.
Qed.

Lemma increasing_rev rs : separated rs -> increasing (rev rs).
Proof.
  induction rs as [|r rs IH]; intros Hs; [split; constructor|]. cbn [rev].
  pose proof Hs as [Hs1 Hs2]. apply Sorted_inv in Hs1 as [Hs1 _]. apply Forall_cons in Hs2 as [Hr Hs2].
  destruct IH as [Hi Hf]; [by split|]. split.
  - apply StronglySorted_app_2; [|done|repeat constructor].
    intros x y Hx Hy. apply list_elem_of_singleton in Hy as ->.
    eapply separated_lt; [done|]. by apply list_elem_of_In, in_rev, list_elem_of_In.
  - apply Forall_app. split; [done|]. by apply Forall_singleton.
Qed.

Lemma contains_increasing rs v :
  increasing rs -> contains_u128 (mkIpRangeSet rs) v = Ret (bool_decide (in_some v rs)).
Proof.
  intros [Hs Hf]. unfold contains_u128. cbn [set_ranges].
  set (p := fun r : range => bool_decide (fst r <= v)%Z).
  induction Hs as [|r rs Hs IH Hlt]; cbn [partition_point].
  - rewrite decide_False by lia. rewrite bool_decide_false; [done|]. intros Hx. by apply Exists_nil in Hx.
  - apply Forall_cons in Hf as [Hr Hf]. specialize (IH Hf).
    destruct (p r) eqn:Hp; [apply bool_decide_eq_true in Hp|apply bool_decide_eq_false in Hp].
    + rewrite decide_True by lia. replace (S (partition_point p rs) - 1) with (partition_point p rs) by lia.
      destruct (partition_point p rs) as [|i] eqn:Ei.
      * cbn [idx lookup list_lookup]. cbn. f_equal. apply bool_decide_ext. unfold in_some.
        rewrite Exists_cons. unfold in_range_of at 1. split; [lia|]. intros [?|Hx]; [lia|].
        exfalso. assert (bool_decide (in_some v rs) = true) as Hb by (apply bool_decide_eq_true_2; exact Hx).
        rewrite Hb in IH. by rewrite decide_False in IH by lia.
      * rewrite decide_True in IH by lia. replace (S i - 1) with i in IH by lia.
        assert (idx (r :: rs) (S i) = idx rs i) as -> by done. rewrite IH. f_equal.
        apply bool_decide_ext. unfold in_some. rewrite Exists_cons. split; [by right|].
        intros [Hx|?]; [|done]. exfalso. destruct rs as [|r' rs]; [done|].
        cbn [partition_point] in Ei. destruct (p r') eqn:Hp'; [apply bool_decide_eq_true in Hp'|done].
        apply Forall_cons in Hlt as [Hlt _]. unfold in_range_of in Hx. lia.
    + rewrite decide_False by lia. f_equal. symmetry. apply bool_decide_eq_false.
      unfold in_some. rewrite Exists_exists. intros (x & Hx & Hv). unfold in_range_of in Hv.
      apply elem_of_cons in Hx as [->|Hx]; [lia|].
      rewrite Forall_forall in Hlt. specialize (Hlt x Hx). cbn in Hlt. lia.
Qed.

Lemma in_some_elem v rs : in_some v rs <-> exists r, r ∈ rs /\ in_range_of v r.
Proof. apply Exists_exists. Qed.

Lemma iprange_contains_spec rs sorted v :
  ranges_ok rs -> sorted ≡ₚ rs -> Sorted by_from sorted ->
  increasing (set_ranges (build_sorted sorted)) /\
  contains_u128 (build_sorted sorted) v = Ret (bool_decide (in_some v rs)).
Proof.
  intros Hok Hp Hs.
  assert (Hoks : ranges_ok sorted) by (unfold ranges_ok; by rewrite Hp).
  destruct (merge_loop_spec sorted [] v) as (Hin & Hsep & _);
    [done|done|by apply Forall_nil|split; [constructor|by apply Forall_nil]|done|].
  apply increasing_rev in Hsep. split; [done|]. unfold build_sorted.
  rewrite contains_increasing by done. f_equal. apply bool_decide_ext.
  assert (Hnil : ~ in_some v []) by (intros H; by apply Exists_nil in H).
  assert (Hin' : in_some v (merge_loop sorted []) <-> in_some v sorted) by tauto.
  rewrite !in_some_elem in Hin'. rewrite !in_some_elem. split.
  - intros (r & Hr & Hv). apply list_elem_of_In, in_rev, list_elem_of_In in Hr.
    destruct (proj1 Hin') as (r' & Hr' & ?); [by exists r|]. exists r'. by rewrite <- Hp.
  - intros (r & Hr & Hv). rewrite <- Hp in Hr.
    destruct (proj2 Hin') as (r' & Hr' & ?); [by exists r|]. exists r'. split; [|done].
    by apply list_elem_of_In, in_rev; rewrite rev_involutive; apply list_elem_of_In.
Qed.

Lemma contains_build rs v :
  ranges_ok rs -> contains_u128 (build rs) v = Ret (bool_decide (in_some v rs)).
Proof.
  intros Hok. apply (iprange_contains_spec rs); [done|apply merge_sort_Permutation|].
  apply Sorted_merge_sort. intros a b. unfold by_from. lia.
Qed.

(** Range sets are correct.  Whatever order the unstable sort gives
    equal keys, [build] merges the pushed ranges into sorted, non-adjacent ranges, and
    [contains] answers true exactly for the addresses inside some pushed range. *)
Theorem iprange_contains_correct rs sorted v :
  ranges_ok rs -> sorted ≡ₚ rs -> Sorted by_from sorted ->
  increasing (set_ranges (build_sorted sorted)) /\
  contains_u128 (build_sorted sorted) v = Ret (bool_decide (in_some v rs)).
Proof. apply iprange_contains_spec. Qed.

(** ** Prefixes *)

Lemma u_ok_to_u128 ip :
  length (addr_octets ip) = addr_len ip -> bytes_ok (addr_octets ip) -> u_ok 128 (to_u128 ip).
Proof.
  intros Hl Hb. destruct ip as [o|o]; cbn [addr_octets addr_len to_u128] in *.
  - assert (bytes_ok (replicate 10 0%Z ++ [255; 255]%Z ++ o)) as Hok.
    { apply Forall_app; split; [apply Forall_replicate; unfold u_ok; lia|]. bytes. }
    apply from_be_bound in Hok. rewrite !length_app, length_replicate, Hl in Hok. exact Hok.
  - apply from_be_bound in Hb. rewrite Hl in Hb. exact Hb.
Qed.

Lemma lor_not_mask base h :
  u_ok 128 base -> (0 <= h < 128)%Z ->
  Z.land base (wrap 128 (Z.shiftl U128_MAX h)) = (base / 2 ^ h * 2 ^ h)%Z /\
  Z.lor base (Z.lxor (wrap 128 (Z.shiftl U128_MAX h)) U128_MAX) = (base / 2 ^ h * 2 ^ h + (2 ^ h - 1))%Z.
Proof.
  intros Hb Hh. unfold u_ok in Hb. unfold U128_MAX.
  assert (2 ^ 128 - 1 = Z.ones 128)%Z as -> by (rewrite Z.ones_equiv; lia).
  unfold wrap. rewrite <- Z.land_ones by lia.
  assert (Hbit : forall i, (0 <= i)%Z -> Z.testbit base i = true -> (i < 128)%Z).
  { intros i Hi Ht. destruct (decide (i < 128)%Z); [done|]. exfalso.
    rewrite Z.testbit_true in Ht by lia. rewrite Z.div_small in Ht; [done|].
    assert (2 ^ 128 <= 2 ^ i)%Z by (apply Z.pow_le_mono_r; lia). lia. }
  assert (Hm : forall i, (0 <= i)%Z ->
    Z.testbit (Z.land (Z.shiftl (Z.ones 128) h) (Z.ones 128)) i = (bool_decide (h <= i < 128))%Z).
  { intros i Hi. rewrite Z.land_spec, Z.shiftl_spec by lia. case_bool_decide as Hc.
    - rewrite !Z.ones_spec_low by lia. done.
    - destruct (decide (i < h)%Z); [by rewrite (Z.testbit_neg_r _ (i - h)) by lia|].
      rewrite (Z.ones_spec_high 128 i) by lia. apply andb_false_r. }
  split.
  - rewrite <- Z.shiftr_div_pow2, <- Z.shiftl_mul_pow2 by lia. apply Z.bits_inj'. intros i Hi.
    rewrite Z.land_spec, Hm, Z.shiftl_spec by lia. case_bool_decide as Hc.
    + rewrite Z.shiftr_spec by lia. replace (i - h + h)%Z with i by lia. apply andb_true_r.
    + rewrite andb_false_r. destruct (decide (i < h)%Z); [by rewrite Z.testbit_neg_r by lia|].
      rewrite Z.shiftr_spec by lia. replace (i - h + h)%Z with i by lia.
      destruct (Z.testbit base i) eqn:Et; [|done]. apply Hbit in Et; lia.
  - replace (base / 2 ^ h * 2 ^ h + (2 ^ h - 1))%Z with (Z.lor (Z.shiftl (Z.shiftr base h) h) (Z.ones h)).
    + apply Z.bits_inj'. intros i Hi. rewrite !Z.lor_spec, Z.lxor_spec, Hm, Z.shiftl_spec by lia.
      destruct (decide (i < h)%Z) as [Hlt|Hge].
      * rewrite bool_decide_false by lia. rewrite !Z.ones_spec_low by lia. by rewrite !orb_true_r.
      * rewrite Z.shiftr_spec by lia. replace (i - h + h)%Z with i by lia.
        rewrite (Z.ones_spec_high h i), orb_false_r by lia. case_bool_decide as Hc.
        -- rewrite Z.ones_spec_low by lia. apply orb_false_r.
        -- rewrite Z.ones_spec_high by lia. apply orb_false_r.
    + rewrite Z.shiftl_mul_pow2, Z.shiftr_div_pow2 by lia.
      rewrite Z.ones_equiv. rewrite <- Z.lxor_lor, <- Z.add_nocarry_lxor; [lia| |].
      * apply Z.bits_inj'. intros i Hi. rewrite Z.land_spec, Z.bits_0.
        rewrite <- Z.shiftl_mul_pow2, Z.shiftl_spec by lia. replace (Z.pred (2 ^ h)) with (Z.ones h) by (rewrite Z.ones_equiv; lia).
        destruct (decide (i < h)%Z); [by rewrite Z.testbit_neg_r by lia|].
        rewrite (Z.ones_spec_high h i) by lia. apply andb_false_r.
      * apply Z.bits_inj'. intros i Hi. rewrite Z.land_spec, Z.bits_0.
        rewrite <- Z.shiftl_mul_pow2, Z.shiftl_spec by lia. replace (Z.pred (2 ^ h)) with (Z.ones h) by (rewrite Z.ones_equiv; lia).
        destruct (decide (i < h)%Z); [by rewrite Z.testbit_neg_r by lia|].
        rewrite (Z.ones_spec_high h i) by lia. apply andb_false_r.
Qed.

Lemma cidr_range_spec ip plen v :
  length (addr_octets ip) = addr_len ip -> bytes_ok (addr_octets ip) -> (0 <= plen)%Z -> u_ok 128 v ->
  let bits := (8 * Z.of_nat (addr_len ip))%Z in
  match cidr_range ip (Some plen) with
  | None => (bits < plen)%Z
  | Some r => (plen <= bits)%Z /\
      (in_range_of v r <-> (v / 2 ^ (bits - plen) = to_u128 ip / 2 ^ (bits - plen))%Z)
  end.
Proof.
  intros Hl Hb Hp Hv bits. pose proof (u_ok_to_u128 ip Hl Hb) as Hbase.
  assert (Hfam : match ip with V4 _ => 32%Z | V6 _ => 128%Z end = bits) by by destruct ip.
  assert (Hbits : (0 < bits <= 128)%Z) by (destruct ip; cbn in Hfam; lia).
  unfold cidr_range. rewrite Hfam. cbn [default]. unfold id. case_decide as Hd; [done|]. split; [lia|].
  unfold in_range_of. cbn [fst snd]. set (h := (bits - plen)%Z). set (b := to_u128 ip) in *.
  unfold u_ok in *. case_decide as Hh.
  - assert (h = 128)%Z as -> by lia. rewrite Z.land_0_r, Z.lxor_0_l.
    assert (Z.lor b U128_MAX = U128_MAX) as ->.
    { unfold U128_MAX. replace (2 ^ 128 - 1)%Z with (Z.ones 128) by (rewrite Z.ones_equiv; lia).
      apply Z.lor_ones_low; [lia|]. destruct (decide (b = 0)%Z) as [->|]; [cbn; lia|].
      apply Z.log2_lt_pow2; lia. }
    rewrite !Z.div_small by lia. unfold U128_MAX. lia.
  - destruct (lor_not_mask b h) as [-> ->]; [done|lia|].
    assert (0 < 2 ^ h)%Z by (apply Z.pow_pos_nonneg; lia).
    pose proof (Z.div_mod v (2 ^ h)). pose proof (Z.mod_pos_bound v (2 ^ h)). split; intros Hx.
    + assert (2 ^ h * (v / 2 ^ h) < 2 ^ h * (b / 2 ^ h + 1))%Z by lia.
      assert (2 ^ h * (b / 2 ^ h) < 2 ^ h * (v / 2 ^ h + 1))%Z by lia. nia.
    + rewrite <- Hx. lia.
Qed.

(** prefixes.  For an address of either family and a prefix length that fits
    it, the range computed for the CIDR contains exactly the 128-bit addresses that agree
    with the base address on the prefix bits (all of them for an IPv6 /0); a longer
    prefix length is rejected. *)
Theorem cidr_range_correct ip plen v :
  length (addr_octets ip) = addr_len ip -> bytes_ok (addr_octets ip) -> (0 <= plen)%Z -> u_ok 128 v ->
  let bits := (8 * Z.of_nat (addr_len ip))%Z in
  match cidr_range ip (Some plen) with
  | None => (bits < plen)%Z
  | Some r => (plen <= bits)%Z /\
      (in_range_of v r <-> (v / 2 ^ (bits - plen) = to_u128 ip / 2 ^ (bits - plen))%Z)
  end.
Proof. apply cidr_range_spec. Qed.

(** ** Concrete instances *)

Lemma iprange_contains_witness :
  contains_u128 (build [(10, 20); (1, 7); (21, 30)]%Z) 25 = Ret true /\
  set_ranges (build [(10, 20); (1, 7); (21, 30)]%Z) = [(1, 7); (10, 30)]%Z.
Proof.
  split; [|vm_compute; reflexivity].
  destruct (iprange_contains_correct [(10, 20); (1, 7); (21, 30)]%Z [(1, 7); (10, 20); (21, 30)]%Z 25) as [_ H].
  - repeat (apply Forall_cons; split; [cbn; unfold U128_MAX; lia|]). by apply Forall_nil.
  - apply perm_swap.
  - repeat constructor; unfold by_from; cbn; lia.
  - transitivity (contains_u128 (build_sorted [(1, 7); (10, 20); (21, 30)]%Z) 25); [reflexivity|].
    rewrite H. reflexivity.
Defined.

Lemma cidr_range_witness :
  exists r, cidr_range (V4 [192; 0; 2; 9]%Z) (Some 24%Z) = Some r /\
    in_range_of (to_u128 (V4 [192; 0; 2; 200]%Z)) r.
Proof.
  pose proof (cidr_range_correct (V4 [192; 0; 2; 9]%Z) 24 (to_u128 (V4 [192; 0; 2; 200]%Z)) eq_refl) as H.
  destruct (cidr_range (V4 [192; 0; 2; 9]%Z) (Some 24%Z)) as [r|] eqn:Er.
  - exists r. split; [done|]. apply H; [apply bytes_check; by vm_compute|lia|by vm_compute|by vm_compute].
  - exfalso. vm_compute in Er. done.
Defined.
