(* ===== verification/Inflight.v ===== *)
(** * The upstream in-flight registry (src/src/upstream/inflight.rs, mix16 of
      src/src/upstream/mod.rs)

    Allocation of 16-bit upstream IDs, response validation and delivery, the
    token-checked removal of guards and the inflight cap.  Each call is one step;
    the per-shard mutex makes the table accesses atomic in the code.  A [oneshot]
    sender is the number of its channel; delivered messages are returned by
    [complete]. *)

From S2P Require Import Prelude Hasher DnsName DnsQuery DnsRecords DnsEdns.

Definition INFLIGHT_SHARDS : nat := 64.

Record InflightEntry := mkInflightEntry {
  ie_tx : nat;
  ie_client_id : Z;
  ie_question : list Z;
  ie_token : Z
}.

Record InflightRegistry := mkInflightRegistry {
  ir_shards : list (gmap Z InflightEntry);
  ir_next_id : Z;
  ir_next_token : Z;
  (** permits left, [None] when unlimited *)
  ir_cap : option nat
}.

Record InflightGuard := mkInflightGuard {
  guard_id : Z;
  guard_token : Z;
  guard_permit : bool
}.

Inductive inflight_error :=
| InflightCapReached
| TableFull.

Inductive Completion :=
| CDelivered
| CNoWaiter
| CMismatch (id : Z).

Definition mix16 (x : Z) : Z :=
  let x := wrap 32 (x * 0x45d9f3b) in
  let x := Z.lxor x (Z.shiftr x 16) in
  let id := wrap 16 x in
  if decide (id = 0)%Z then 1%Z else id.

Definition inflight_new (max_inflight : nat) (seed : Z) : InflightRegistry :=
  mkInflightRegistry (replicate INFLIGHT_SHARDS ∅) seed 0
    (if decide (0 < max_inflight) then Some max_inflight else None).

Definition inflight_shard_of (id : Z) : nat := Z.to_nat (Z.land id 63).

Definition with_shards (r : InflightRegistry) (l : list (gmap Z InflightEntry)) : InflightRegistry :=
  mkInflightRegistry l (ir_next_id r) (ir_next_token r) (ir_cap r).

(** The [for _ in 0..u16::MAX] loop of [register]: the ID used, or [None] when
    every candidate was taken. *)
Fixpoint register_loop (n : nat) (r : InflightRegistry) (entry : InflightEntry)
  : outcome (InflightRegistry * option Z) :=
  match n with
  | O => Ret (r, None)
  | S n' =>
      let id := mix16 (ir_next_id r) in
      let r := mkInflightRegistry (ir_shards r) (wrap 32 (ir_next_id r + 1)) (ir_next_token r) (ir_cap r) in
      let! shard := idx (ir_shards r) (inflight_shard_of id) in
      match shard !! id with
      | None =>
          let! l := store (ir_shards r) (inflight_shard_of id) (<[id := entry]> shard) in
          Ret (with_shards r l, Some id)
      | Some _ => register_loop n' r entry
      end
  end.

(** [tx] is the channel the call creates. *)
Definition inflight_register (r : InflightRegistry) (tx : nat) (client_id : Z) (question : list Z)
  : outcome (InflightRegistry * result inflight_error (Z * InflightGuard)) :=
  let acquire :=
    match ir_cap r with
    | Some O => None
    | Some (S k) => Some (mkInflightRegistry (ir_shards r) (ir_next_id r) (ir_next_token r) (Some k), true)
    | None => Some (r, false)
    end in
  match acquire with
  | None => Ret (r, Err InflightCapReached)
  | Some (r, permit) =>
      let token := ir_next_token r in
      let r := mkInflightRegistry (ir_shards r) (ir_next_id r) (wrap 64 (token + 1)) (ir_cap r) in
      let! (r, o) := register_loop (Z.to_nat 65535) r (mkInflightEntry tx client_id question token) in
      match o with
      | Some id => Ret (r, Ok (id, mkInflightGuard id token permit))
      | None =>
          (* the permit acquired above is dropped with the error return *)
          Ret (mkInflightRegistry (ir_shards r) (ir_next_id r) (ir_next_token r)
                 (if permit then S <$> ir_cap r else ir_cap r), Err TableFull)
      end
  end.

(** The registry afterwards, the packet buffer as rewritten, the message sent (channel
    and bytes) and the outcome. *)
Definition complete (r : InflightRegistry) (packet : list Z)
  : outcome (InflightRegistry * list Z * option (nat * list Z) * Completion) :=
  let! reply := is_reply packet in
  if negb reply then Ret (r, packet, None, CNoWaiter)
  else
    let! b2 := idx packet 2 in
    if decide (Z.land (Z.shiftr b2 3) 0x0f <> 0)%Z then Ret (r, packet, None, CNoWaiter)
    else
      let! qd := u16_at packet 4 in
      if decide (qd <> 1)%Z then Ret (r, packet, None, CNoWaiter)
      else
        let! gid := get_id packet in
        match gid with
        | Err _ => Ret (r, packet, None, CNoWaiter)
        | Ok id =>
            let! shard := idx (ir_shards r) (inflight_shard_of id) in
            match shard !! id with
            | None => Ret (r, packet, None, CNoWaiter)
            | Some entry =>
                let! qend := question_end packet in
                let resp_question := default [] (qend ≫= fun end_ => get_slice packet 12 end_) in
                let! matches := questions_match resp_question (ie_question entry) in
                if negb matches then Ret (r, packet, None, CMismatch id)
                else
                  let! l := store (ir_shards r) (inflight_shard_of id) (delete id shard) in
                  let! sid := set_id packet (ie_client_id entry) in
                  let packet := match sid with Ok p => p | Err _ => packet end in
                  Ret (with_shards r l, packet, Some (ie_tx entry, packet), CDelivered)
            end
        end.

Definition inflight_is_empty (r : InflightRegistry) : bool :=
  forallb (fun m => bool_decide (m = ∅)) (ir_shards r).

Definition inflight_clear (r : InflightRegistry) : InflightRegistry :=
  with_shards r ((fun _ => ∅) <$> ir_shards r).

(** [Drop for InflightGuard] *)
Definition guard_drop (r : InflightRegistry) (g : InflightGuard) : outcome InflightRegistry :=
  let! shard := idx (ir_shards r) (inflight_shard_of (guard_id g)) in
  let! l :=
    match shard !! guard_id g with
    | Some e =>
        if decide (ie_token e = guard_token g)
        then store (ir_shards r) (inflight_shard_of (guard_id g)) (delete (guard_id g) shard)
        else Ret (ir_shards r)
    | None => Ret (ir_shards r)
    end in
  Ret (mkInflightRegistry l (ir_next_id r) (ir_next_token r)
         (if guard_permit g then S <$> ir_cap r else ir_cap r)).

(** ** The sharded table as one map *)

Definition ilookup (r : InflightRegistry) (id : Z) : option InflightEntry :=
  ir_shards r !! inflight_shard_of id ≫= (.!! id).

Definition shards_ok (l : list (gmap Z InflightEntry)) : Prop := length l = INFLIGHT_SHARDS.

Lemma inflight_shard_lt id : inflight_shard_of id < INFLIGHT_SHARDS.
Proof.
  unfold inflight_shard_of, INFLIGHT_SHARDS. change 63%Z with (Z.ones 6). rewrite Z.land_ones by lia.
  pose proof (Z.mod_pos_bound id (2 ^ 6)). lia.
Qed.

Lemma ishard_lookup l id : shards_ok l -> exists m, l !! inflight_shard_of id = Some m.
Proof. intros Hl. apply lookup_lt_is_Some_2. rewrite Hl. apply inflight_shard_lt. Qed.

Lemma ilookup_update l id m v ni nt cap k :
  shards_ok l -> l !! inflight_shard_of id = Some m ->
  ilookup (mkInflightRegistry (<[inflight_shard_of id := partial_alter (fun _ => v) id m]> l) ni nt cap) k
  = if decide (k = id) then v else (l !! inflight_shard_of k ≫= (.!! k)).
Proof.
  intros Hl Hm. unfold ilookup. cbn [ir_shards].
  destruct (decide (inflight_shard_of k = inflight_shard_of id)) as [Hs|Hs].
  - rewrite Hs, list_lookup_insert_eq by (rewrite Hl; apply inflight_shard_lt). rewrite Hm. cbn.
    case_decide as Hk; [subst; by rewrite lookup_partial_alter_eq|by rewrite lookup_partial_alter_ne].
  - rewrite list_lookup_insert_ne by done. rewrite decide_False by congruence. done.
Qed.

Lemma mix16_range x : (1 <= mix16 x <= 65535)%Z.
Proof.
  unfold mix16. set (y := Z.lxor _ _). pose proof (Z.mod_pos_bound y (2 ^ 16)). unfold wrap.
  case_decide; lia.
Qed.

Lemma register_loop_spec n r e :
  shards_ok (ir_shards r) ->
  exists r' o, register_loop n r e = Ret (r', o) /\ shards_ok (ir_shards r') /\
    ir_next_token r' = ir_next_token r /\ ir_cap r' = ir_cap r /\
    match o with
    | Some id => (1 <= id <= 65535)%Z /\ ilookup r id = None /\
        forall k, ilookup r' k = if decide (k = id) then Some e else ilookup r k
    | None => ir_shards r' = ir_shards r
    end.
Proof.
  revert r. induction n as [|n IH]; intros r Hr; cbn [register_loop].
  - exists r, None. done.
  - cbn [ir_shards ir_next_id ir_next_token ir_cap]. set (id := mix16 (ir_next_id r)).
    destruct (ishard_lookup (ir_shards r) id Hr) as [m Hm]. rewrite (idx_lookup _ _ _ Hm). cbn [obind].
    destruct (m !! id) as [e0|] eqn:Em.
    + destruct (IH (mkInflightRegistry (ir_shards r) (wrap 32 (ir_next_id r + 1)) (ir_next_token r) (ir_cap r)))
        as (r' & o & H1 & H2 & H3 & H4 & H5); [done|]. exists r', o. done.
    + rewrite store_Ret by (rewrite Hr; apply inflight_shard_lt). cbn [obind].
      eexists _, (Some id). split; [done|]. unfold with_shards. cbn [ir_shards ir_next_token ir_cap ir_next_id].
      split; [unfold shards_ok; by rewrite length_insert|]. do 2 (split; [done|]).
      split; [apply mix16_range|]. split; [unfold ilookup; by rewrite Hm|].
      intros k. by apply (ilookup_update (ir_shards r) id m (Some e)).
Qed.

(** [complete] on the table seen as one map. *)
Definition response_question (packet : list Z) : list Z :=
  match question_end packet with
  | Ret (Some e) => default [] (get_slice packet 12 e)
  | _ => []
  end.

Definition acceptable (packet : list Z) : Prop :=
  12 <= length packet /\ Z.land (nthb packet 2) 0x80 <> 0%Z /\
  Z.land (Z.shiftr (nthb packet 2) 3) 0x0f = 0%Z /\ be16 packet 4 = 1%Z.

Lemma complete_eq r packet :
  shards_ok (ir_shards r) ->
  match ilookup r (be16 packet 0) with
  | Some e =>
      exists m, questions_match (response_question packet) (ie_question e) = Ret m /\
      if decide (acceptable packet) then
        if (m : bool) then
          exists r', complete r packet
            = Ret (r', to_be 2 (ie_client_id e) ++ drop 2 packet,
                   Some (ie_tx e, to_be 2 (ie_client_id e) ++ drop 2 packet), CDelivered) /\
            shards_ok (ir_shards r') /\ ir_next_token r' = ir_next_token r /\ ir_cap r' = ir_cap r /\
            forall k, ilookup r' k = if decide (k = be16 packet 0) then None else ilookup r k
        else complete r packet = Ret (r, packet, None, CMismatch (be16 packet 0))
      else complete r packet = Ret (r, packet, None, CNoWaiter)
  | None => complete r packet = Ret (r, packet, None, CNoWaiter)
  end.
Proof.
  intros Hr. unfold complete. rewrite is_reply_eq. cbn [obind].
  destruct (ishard_lookup (ir_shards r) (be16 packet 0) Hr) as [sh Hsh].
  assert (Hil : ilookup r (be16 packet 0) = sh !! be16 packet 0) by (unfold ilookup; by rewrite Hsh).
  destruct (decide (acceptable packet)) as [(Hl & Hqr & Hop & Hqd)|Hna].
  - rewrite bool_decide_true by done. cbn [negb]. in_range. rewrite decide_False by tauto. in_range.
    rewrite decide_False by tauto. rewrite get_id_eq by lia. cbn [obind].
    rewrite (idx_lookup _ _ _ Hsh). cbn [obind]. rewrite Hil.
    destruct (sh !! be16 packet 0) as [e|] eqn:Ee; [|done].
    destruct (question_end_total packet) as [qe Hqe]. rewrite Hqe. cbn [obind].
    assert (default [] (qe ≫= fun end_ => get_slice packet 12 end_) = response_question packet) as ->
      by (unfold response_question; rewrite Hqe; by destruct qe).
    destruct (questions_match_total (response_question packet) (ie_question e)) as [m Hm].
    exists m. split; [done|]. rewrite Hm. cbn [obind]. destruct m; cbn [negb]; [|done].
    rewrite store_Ret by (rewrite Hr; apply inflight_shard_lt). cbn [obind].
    rewrite set_id_eq by lia. cbn [obind]. eexists. split; [done|]. unfold with_shards. cbn [ir_shards ir_next_token ir_cap].
    split; [unfold shards_ok; by rewrite length_insert|]. do 2 (split; [done|]).
    intros k. by apply (ilookup_update (ir_shards r) (be16 packet 0) sh None).
  - destruct (ilookup r (be16 packet 0)) as [e|].
    1: destruct (questions_match_total (response_question packet) (ie_question e)) as [m Hm];
       exists m; (split; [done|]).
    all: case_bool_decide as Hb; cbn [negb]; [|done]; destruct Hb as [Hl Hqr]; in_range;
      case_decide as Hop; [done|]; in_range; case_decide as Hqd; [done|]; destruct Hna; done.
Qed.

Lemma guard_drop_eq r g :
  shards_ok (ir_shards r) ->
  exists r', guard_drop r g = Ret r' /\ shards_ok (ir_shards r') /\
    ir_next_token r' = ir_next_token r /\
    ir_cap r' = (if guard_permit g then S <$> ir_cap r else ir_cap r) /\
    forall k, ilookup r' k
      = if decide (k = guard_id g /\ ie_token <$> ilookup r k = Some (guard_token g)) then None
        else ilookup r k.
Proof.
  intros Hr. destruct (ishard_lookup (ir_shards r) (guard_id g) Hr) as [sh Hsh].
  unfold guard_drop. rewrite (idx_lookup _ _ _ Hsh). cbn [obind].
  assert (Hil : ilookup r (guard_id g) = sh !! guard_id g) by (unfold ilookup; by rewrite Hsh).
  destruct (sh !! guard_id g) as [e|] eqn:Ee; [case_decide as Ht|].
  - rewrite store_Ret by (rewrite Hr; apply inflight_shard_lt). cbn [obind]. eexists. split; [done|].
    cbn [ir_shards ir_next_token ir_cap]. split; [unfold shards_ok; by rewrite length_insert|].
    do 2 (split; [done|]). intros k. etransitivity; [by apply (ilookup_update (ir_shards r) (guard_id g) sh None)|].
    destruct (decide (k = guard_id g)) as [->|Hk].
    + rewrite decide_True; [done|]. split; [done|]. rewrite Hil. cbn. by rewrite Ht.
    + by rewrite decide_False by tauto.
  - cbn [obind]. eexists. split; [done|]. do 3 (split; [done|]). intros k.
    rewrite decide_False; [done|]. intros [-> Hk]. rewrite Hil in Hk. cbn in Hk. congruence.
  - cbn [obind]. eexists. split; [done|]. do 3 (split; [done|]). intros k.
    rewrite decide_False; [done|]. intros [-> Hk]. by rewrite Hil in Hk.
Qed.

(** ** Registrations, responses and guards over time *)

Record iworld := mkIworld {
  iw_reg : InflightRegistry;
  iw_guards : list InflightGuard;
  iw_next_tx : nat
}.

Inductive istep : iworld -> iworld -> Prop :=
| istep_register w client_id question r id g :
    (ir_next_token (iw_reg w) + 1 < 2 ^ 64)%Z ->
    inflight_register (iw_reg w) (iw_next_tx w) client_id question = Ret (r, Ok (id, g)) ->
    istep w (mkIworld r (g :: iw_guards w) (S (iw_next_tx w)))
| istep_register_err w client_id question r e :
    (ir_next_token (iw_reg w) + 1 < 2 ^ 64)%Z ->
    inflight_register (iw_reg w) (iw_next_tx w) client_id question = Ret (r, Err e) ->
    istep w (mkIworld r (iw_guards w) (S (iw_next_tx w)))
| istep_complete w packet r packet' sent outcome :
    complete (iw_reg w) packet = Ret (r, packet', sent, outcome) ->
    istep w (mkIworld r (iw_guards w) (iw_next_tx w))
| istep_drop w pre g post r :
    iw_guards w = pre ++ g :: post -> guard_drop (iw_reg w) g = Ret r ->
    istep w (mkIworld r (pre ++ post) (iw_next_tx w))
| istep_clear w : istep w (mkIworld (inflight_clear (iw_reg w)) (iw_guards w) (iw_next_tx w)).

Definition ireachable (max : nat) (w : iworld) : Prop :=
  exists seed, rtc istep (mkIworld (inflight_new max seed) [] 0) w.

(** Every entry belongs to a live guard, tokens are unique, permits are conserved. *)
Record iworld_ok (max : nat) (w : iworld) : Prop := mkIworldOk {
  io_shards : shards_ok (ir_shards (iw_reg w));
  io_token : (0 <= ir_next_token (iw_reg w))%Z;
  io_owned : forall id e, ilookup (iw_reg w) id = Some e ->
    Exists (fun g => guard_id g = id /\ guard_token g = ie_token e) (iw_guards w);
  io_tokens : NoDup (guard_token <$> iw_guards w);
  io_fresh : Forall (fun g => guard_token g < ir_next_token (iw_reg w))%Z (iw_guards w);
  io_permits : match ir_cap (iw_reg w) with
    | Some k => 0 < max /\ k + length (iw_guards w) = max /\ Forall (fun g => guard_permit g = true) (iw_guards w)
    | None => max = 0 /\ Forall (fun g => guard_permit g = false) (iw_guards w)
    end
}.

Lemma ilookup_new max seed id : ilookup (inflight_new max seed) id = None.
Proof.
  unfold ilookup, inflight_new. cbn [ir_shards]. rewrite lookup_replicate_2 by apply inflight_shard_lt.
  cbn. apply lookup_empty.
Qed.

Lemma iworld_new_ok max seed : iworld_ok max (mkIworld (inflight_new max seed) [] 0).
Proof.
  constructor; cbn [iw_reg iw_guards].
  - apply length_replicate.
  - cbn. lia.
  - intros id e H. by rewrite ilookup_new in H.
  - constructor.
  - by apply Forall_nil.
  - cbn. case_decide; [|split; [lia|by apply Forall_nil]]. split; [done|]. split; [cbn; lia|by apply Forall_nil].
Qed.

(** What [inflight_register] does, in terms of the table. *)
Lemma inflight_register_eq r tx client_id question :
  shards_ok (ir_shards r) -> (0 <= ir_next_token r)%Z -> (ir_next_token r + 1 < 2 ^ 64)%Z ->
  exists r' res, inflight_register r tx client_id question = Ret (r', res) /\ shards_ok (ir_shards r') /\
  match res with
  | Ok (id, g) =>
      g = mkInflightGuard id (ir_next_token r) (bool_decide (ir_cap r <> None)) /\
      (1 <= id <= 65535)%Z /\ ilookup r id = None /\
      ir_next_token r' = (ir_next_token r + 1)%Z /\
      ir_cap r = (if ir_cap r' then S <$> ir_cap r' else None) /\
      forall k, ilookup r' k = if decide (k = id)
        then Some (mkInflightEntry tx client_id question (ir_next_token r)) else ilookup r k
  | Err e => (ir_next_token r <= ir_next_token r' <= ir_next_token r + 1)%Z /\ ir_cap r' = ir_cap r /\
      (forall k, ilookup r' k = ilookup r k) /\ (e = InflightCapReached <-> ir_cap r = Some 0)
  end.
Proof.
  intros Hs H0 Ht. unfold inflight_register.
  assert (Hw : wrap 64 (ir_next_token r + 1) = (ir_next_token r + 1)%Z) by (apply Z.mod_small; lia).
  assert (Hgen : forall cap, exists r' o,
    register_loop (Z.to_nat 65535) (mkInflightRegistry (ir_shards r) (ir_next_id r) (ir_next_token r + 1) cap)
      (mkInflightEntry tx client_id question (ir_next_token r)) = Ret (r', o) /\
    shards_ok (ir_shards r') /\ ir_next_token r' = (ir_next_token r + 1)%Z /\ ir_cap r' = cap /\
    match o with
    | Some id => (1 <= id <= 65535)%Z /\ ilookup r id = None /\
        forall k, ilookup r' k = if decide (k = id)
          then Some (mkInflightEntry tx client_id question (ir_next_token r)) else ilookup r k
    | None => ir_shards r' = ir_shards r
    end).
  { intros cap. destruct (register_loop_spec (Z.to_nat 65535)
      (mkInflightRegistry (ir_shards r) (ir_next_id r) (ir_next_token r + 1) cap)
      (mkInflightEntry tx client_id question (ir_next_token r)) Hs) as (r' & o & H1 & H2 & H3 & H4 & H5).
    exists r', o. cbn [ir_next_token ir_cap] in *. done. }
  destruct (ir_cap r) as [[|k]|] eqn:Ec.
  - exists r, (Err InflightCapReached). split; [done|]. split; [done|]. split; [lia|]. rewrite Ec. done.
  - cbn [ir_shards ir_next_id ir_next_token ir_cap]. rewrite Hw.
    destruct (Hgen (Some k)) as (r' & o & -> & H2 & H3 & H4 & H5). cbn [obind].
    destruct o as [id|].
    + eexists _, (Ok _). split; [done|]. split; [done|]. rewrite H4. cbn. tauto.
    + eexists _, (Err TableFull). split; [done|]. cbn [ir_shards ir_next_token ir_cap].
      split; [done|]. split; [lia|]. split; [by rewrite H4|]. split; [|done]. intros id. unfold ilookup. cbn [ir_shards]. by rewrite H5.
  - rewrite Hw, Ec. destruct (Hgen None) as (r' & o & -> & H2 & H3 & H4 & H5). cbn [obind].
    destruct o as [id|].
    + eexists _, (Ok _). split; [done|]. split; [done|]. rewrite H4. cbn. tauto.
    + eexists _, (Err TableFull). split; [done|]. cbn [ir_shards ir_next_token ir_cap].
      split; [done|]. split; [lia|]. split; [by rewrite H4|]. split; [|done]. intros id. unfold ilookup. cbn [ir_shards]. by rewrite H5.
Qed.

Lemma iregister_ok max w client_id question r id g :
  iworld_ok max w -> (ir_next_token (iw_reg w) + 1 < 2 ^ 64)%Z ->
  inflight_register (iw_reg w) (iw_next_tx w) client_id question = Ret (r, Ok (id, g)) ->
  iworld_ok max (mkIworld r (g :: iw_guards w) (S (iw_next_tx w))).
Proof.
  intros Hw Ht Hr.
  destruct (inflight_register_eq (iw_reg w) (iw_next_tx w) client_id question (io_shards _ _ Hw)
    (io_token _ _ Hw) Ht) as (r' & res & Hr' & Hs & Hres).
  rewrite Hr in Hr'. injection Hr' as <- <-.
  destruct Hres as (-> & Hid & Hnone & Htok & Hcap & Hl). pose proof (io_token _ _ Hw).
  constructor; cbn [iw_reg iw_guards guard_token guard_permit].
  - done.
  - lia.
  - intros k e. rewrite Hl. case_decide as Hk.
    + intros [= <-]. apply Exists_cons. left. cbn. done.
    + intros He. apply Exists_cons. right. by apply (io_owned _ _ Hw).
  - rewrite fmap_cons. apply NoDup_cons. split; [|apply Hw]. cbn [guard_token]. intros Hin.
    apply list_elem_of_fmap in Hin as (g & Hg & Hin). pose proof (io_fresh _ _ Hw) as Hf.
    rewrite Forall_forall in Hf. specialize (Hf g Hin). cbn in Hf. lia.
  - apply Forall_cons. split; [cbn; lia|]. eapply (list.Forall_impl _ _ _ (io_fresh _ _ Hw)). cbn. lia.
  - pose proof (io_permits _ _ Hw) as Hp. destruct (ir_cap (iw_reg w)) as [k|].
    + destruct (ir_cap r) as [k'|]; [|done]. cbn in Hcap. injection Hcap as ->.
      destruct Hp as (? & Hk & Hf). split; [done|]. split; [cbn [length]; lia|]. apply Forall_cons. done.
    + destruct (ir_cap r) as [k'|]; [done|]. destruct Hp as [? Hf]. split; [done|]. apply Forall_cons. done.
Qed.

Lemma icomplete_ok max w packet r packet' sent oc :
  iworld_ok max w -> complete (iw_reg w) packet = Ret (r, packet', sent, oc) ->
  iworld_ok max (mkIworld r (iw_guards w) (iw_next_tx w)).
Proof.
  intros Hw Hc.
  assert (r = iw_reg w \/ (shards_ok (ir_shards r) /\ ir_next_token r = ir_next_token (iw_reg w) /\
    ir_cap r = ir_cap (iw_reg w) /\ forall k, ilookup r k = None \/ ilookup r k = ilookup (iw_reg w) k)) as Hr.
  { pose proof (complete_eq (iw_reg w) packet (io_shards _ _ Hw)) as He.
    destruct (ilookup (iw_reg w) (be16 packet 0)) as [e|]; [|left; congruence].
    destruct He as (m & _ & He). destruct (decide (acceptable packet)); [|left; congruence].
    destruct m; [|left; congruence]. destruct He as (r' & He & H1 & H2 & H3 & H4).
    right. assert (r = r') as -> by congruence. do 3 (split; [done|]).
    intros k. rewrite H4. case_decide; auto. }
  destruct Hr as [->|(H1 & H2 & H3 & H4)]; [by destruct Hw|].
  constructor; cbn [iw_reg iw_guards]; rewrite ?H2, ?H3; try apply Hw; [done|].
  intros id e He. destruct (H4 id) as [H5|H5]; [congruence|]. apply (io_owned _ _ Hw). congruence.
Qed.

Lemma guard_unique (guards : list InflightGuard) g g' :
  NoDup (guard_token <$> guards) -> g ∈ guards -> g' ∈ guards -> guard_token g = guard_token g' -> g = g'.
Proof.
  induction guards as [|x guards IH]; [by intros _ ?%not_elem_of_nil|]. rewrite fmap_cons.
  intros [Hn Hnd]%NoDup_cons Hg Hg' Ht.
  apply elem_of_cons in Hg as [->|Hg]; apply elem_of_cons in Hg' as [->|Hg']; auto.
  - destruct Hn. rewrite Ht. apply list_elem_of_fmap. by exists g'.
  - destruct Hn. rewrite <- Ht. apply list_elem_of_fmap. by exists g.
Qed.

Lemma idrop_ok max w pre g post r :
  iworld_ok max w -> iw_guards w = pre ++ g :: post -> guard_drop (iw_reg w) g = Ret r ->
  iworld_ok max (mkIworld r (pre ++ post) (iw_next_tx w)).
Proof.
  intros Hw Hg Hd. destruct (guard_drop_eq (iw_reg w) g (io_shards _ _ Hw)) as (r' & Hd' & H1 & H2 & H3 & H4).
  assert (r' = r) as -> by congruence.
  pose proof (io_tokens _ _ Hw) as Hnd. pose proof (io_fresh _ _ Hw) as Hf.
  pose proof (io_permits _ _ Hw) as Hp. pose proof (io_owned _ _ Hw) as Ho. rewrite Hg in Hnd, Hf, Hp, Ho.
  assert (Hin : g ∈ pre ++ g :: post) by (apply elem_of_app; right; constructor).
  constructor; cbn [iw_reg iw_guards]; rewrite ?H2.
  - done.
  - apply Hw.
  - intros id e. rewrite H4. case_decide as Hx; [done|]. intros He.
    destruct (proj1 (Exists_exists _ _) (Ho id e He)) as (g' & Hg' & Hid & Htok).
    apply Exists_exists. exists g'. split; [|done].
    apply elem_of_app in Hg'. rewrite elem_of_cons in Hg'. apply elem_of_app.
    destruct Hg' as [?|[->|?]]; [by left| |by right]. destruct Hx. split; [done|].
    subst id. rewrite He. cbn. by rewrite Htok.
  - rewrite fmap_app, fmap_cons in Hnd. rewrite fmap_app.
    apply NoDup_app in Hnd as (Hn1 & Hn2 & Hn3). apply NoDup_cons in Hn3 as [_ Hn3].
    apply NoDup_app. split; [done|]. split; [|done]. intros x Hx Hy. apply (Hn2 x Hx). by constructor.
  - apply Forall_app in Hf as [Hf1 Hf2]. apply Forall_cons in Hf2 as [_ Hf2]. by apply Forall_app.
  - rewrite H3. destruct (ir_cap (iw_reg w)) as [k|].
    + destruct Hp as (Hm & Hk & Hf'). apply Forall_app in Hf' as [Hf1 Hf2]. apply Forall_cons in Hf2 as [Hgp Hf2].
      rewrite Hgp. cbn. split; [done|]. rewrite length_app in *. cbn [length] in Hk.
      split; [lia|]. by apply Forall_app.
    + destruct Hp as (Hm & Hf'). apply Forall_app in Hf' as [Hf1 Hf2]. apply Forall_cons in Hf2 as [Hgp Hf2].
      rewrite Hgp. cbn. split; [done|]. by apply Forall_app.
Qed.

Lemma ilookup_clear r id : shards_ok (ir_shards r) -> ilookup (inflight_clear r) id = None.
Proof.
  intros Hs. unfold ilookup, inflight_clear, with_shards. cbn [ir_shards]. rewrite list_lookup_fmap.
  destruct (ir_shards r !! inflight_shard_of id); [|done]. cbn. apply lookup_empty.
Qed.

Lemma istep_ok max w w' : iworld_ok max w -> istep w w' -> iworld_ok max w'.
Proof.
  intros Hw Hs. destruct Hs as [w cid q r id g Ht Hr|w cid q r e Ht Hr|w p r p' sent oc Hc|w pre g post r Hg Hd|w].
  - by eapply iregister_ok.
  - destruct (inflight_register_eq (iw_reg w) (iw_next_tx w) cid q (io_shards _ _ Hw)
      (io_token _ _ Hw) Ht) as (r' & res & Hr' & Hs & Hres).
    rewrite Hr in Hr'. injection Hr' as <- <-. destruct Hres as (H1 & H2 & H3 & _).
    constructor; cbn [iw_reg iw_guards]; rewrite ?H2; try apply Hw; [done| | |].
    + pose proof (io_token _ _ Hw). lia.
    + intros id e' He. rewrite H3 in He. by apply (io_owned _ _ Hw).
    + eapply (list.Forall_impl _ _ _ (io_fresh _ _ Hw)). cbn. lia.
  - by eapply icomplete_ok.
  - by eapply idrop_ok.
  - constructor; cbn [iw_reg iw_guards]; try apply Hw.
    + unfold shards_ok, inflight_clear. cbn. rewrite length_fmap. apply Hw.
    + intros id e He. rewrite ilookup_clear in He by apply Hw. done.
Qed.

Lemma ireachable_ok max w : ireachable max w -> iworld_ok max w.
Proof.
  intros [seed H]. assert (forall a b, rtc istep a b -> iworld_ok max a -> iworld_ok max b) as Hr.
  { intros a b Hab. induction Hab as [|a b c Hs Hr IH]; [done|]. intros Ha. apply IH. by eapply istep_ok. }
  eapply Hr; [exact H|]. apply iworld_new_ok.
Qed.

(** The inflight cap holds.  After any sequence of registrations, responses,
    guard drops and connection resets on a registry with cap [max > 0], at most [max]
    queries are in flight, every in-flight entry belongs to a live guard, and the permits
    left plus the live guards always make up the cap, so capacity is never lost;
    [register] reports the cap exactly when [max] guards are alive. *)
Theorem inflight_cap_holds max w ids :
  ireachable max w -> 0 < max -> NoDup ids -> (forall id, id ∈ ids -> is_Some (ilookup (iw_reg w) id)) ->
  length ids <= length (iw_guards w) <= max /\
  exists k, ir_cap (iw_reg w) = Some k /\ k + length (iw_guards w) = max.
Proof.
  intros Hw%ireachable_ok Hmax Hnd Hids. pose proof (io_permits _ _ Hw) as Hp.
  destruct (ir_cap (iw_reg w)) as [k|]; [|lia]. destruct Hp as (_ & Hk & _).
  split; [|by exists k]. split; [|lia].
  assert (length ids <= length (guard_id <$> iw_guards w)); [|by rewrite length_fmap in *].
  apply submseteq_length, NoDup_submseteq; [done|]. intros id Hin.
  destruct (Hids id Hin) as [e He]. apply (io_owned _ _ Hw), Exists_exists in He as (g & Hg & Hid & _).
  apply list_elem_of_fmap. by exists g.
Qed.

(** A guard removes only its own query.  In every reachable state,
    dropping a live guard removes the entry registered with that guard, if it is still
    there, and leaves every other entry, also one that has since reused the same 16-bit
    ID. *)
Theorem guard_drop_removes_own max w g r :
  ireachable max w -> g ∈ iw_guards w -> guard_drop (iw_reg w) g = Ret r ->
  forall id e, (ilookup r id = Some e <-> ilookup (iw_reg w) id = Some e /\ ie_token e <> guard_token g).
Proof.
  intros Hw%ireachable_ok Hg Hd id e.
  destruct (guard_drop_eq (iw_reg w) g (io_shards _ _ Hw)) as (r' & Hd' & _ & _ & _ & H4).
  assert (r' = r) as -> by congruence. rewrite H4. case_decide as Hx.
  - destruct Hx as [-> Hx]. split; [done|]. intros [He Hne]. rewrite He in Hx. cbn in Hx. congruence.
  - split; [|tauto]. intros He. split; [done|]. intros Ht. apply Hx.
    destruct (proj1 (Exists_exists _ _) (io_owned _ _ Hw id e He)) as (g' & Hg' & Hid & Htok).
    assert (g' = g) as -> by (eapply guard_unique; [apply Hw|done|done|congruence]).
    split; [done|]. rewrite He. cbn. by rewrite Ht.
Qed.

(** C5: only the matching response is delivered.  [complete] returns on
    every packet.  It delivers exactly when the packet is a standard one-question reply
    whose ID is registered and whose question matches the registered one (up to case):
    then that entry alone is removed and its waiter gets the packet with the client's
    ID.  Anything else, in particular a reply with a live ID and a wrong question,
    changes nothing and delivers nothing. *)
Theorem complete_delivers_only_matching max w packet :
  ireachable max w ->
  exists r packet' sent oc, complete (iw_reg w) packet = Ret (r, packet', sent, oc) /\
    (oc = CDelivered <-> exists e, acceptable packet /\ ilookup (iw_reg w) (be16 packet 0) = Some e /\
        questions_match (response_question packet) (ie_question e) = Ret true) /\
    (oc = CDelivered -> exists e, ilookup (iw_reg w) (be16 packet 0) = Some e /\
        sent = Some (ie_tx e, to_be 2 (ie_client_id e) ++ drop 2 packet) /\
        forall k, ilookup r k = if decide (k = be16 packet 0) then None else ilookup (iw_reg w) k) /\
    (oc <> CDelivered -> r = iw_reg w /\ packet' = packet /\ sent = None).
Proof.
  intros Hw%ireachable_ok. pose proof (complete_eq (iw_reg w) packet (io_shards _ _ Hw)) as He.
  destruct (ilookup (iw_reg w) (be16 packet 0)) as [e|] eqn:El.
  2:{ do 4 eexists. split; [exact He|]. split; [|done]. split; [done|]. intros (e & _ & ? & _). done. }
  destruct He as (m & Hm & He). destruct (decide (acceptable packet)) as [Ha|Ha].
  2:{ do 4 eexists. split; [exact He|]. split; [|done]. split; [done|]. intros (e' & ? & _). done. }
  destruct m.
  - destruct He as (r & He & _ & _ & _ & Hl). do 4 eexists. split; [exact He|]. split; [|split; [|done]].
    + split; [by exists e|done].
    + intros _. exists e. done.
  - do 4 eexists. split; [exact He|]. split; [|done]. split; [done|].
    intros (e' & _ & [= <-] & Hm'). congruence.
Qed.

(** Registration.  A successful [register] uses an ID in 1..65535 that was
    free, stores the caller's question and client ID under it with a token no live guard
    has, and leaves every other entry; a failed one changes no entry, and fails with the
    cap error exactly when no permit is left. *)
Theorem register_uses_fresh_id max w client_id question :
  ireachable max w -> (ir_next_token (iw_reg w) + 1 < 2 ^ 64)%Z ->
  exists r res, inflight_register (iw_reg w) (iw_next_tx w) client_id question = Ret (r, res) /\
  match res with
  | Ok (id, g) => (1 <= id <= 65535)%Z /\ ilookup (iw_reg w) id = None /\
      (guard_token g ∉ (guard_token <$> iw_guards w)) /\
      forall k, ilookup r k = if decide (k = id)
        then Some (mkInflightEntry (iw_next_tx w) client_id question (guard_token g)) else ilookup (iw_reg w) k
  | Err e => (forall k, ilookup r k = ilookup (iw_reg w) k) /\
      (e = InflightCapReached <-> ir_cap (iw_reg w) = Some 0)
  end.
Proof.
  intros Hw%ireachable_ok Ht.
  destruct (inflight_register_eq (iw_reg w) (iw_next_tx w) client_id question (io_shards _ _ Hw)
    (io_token _ _ Hw) Ht) as (r & res & Hr & _ & Hres).
  exists r, res. split; [done|]. destruct res as [[id g]|e].
  - destruct Hres as (-> & Hid & Hn & _ & _ & Hl). split; [done|]. split; [done|]. split; [|done].
    cbn [guard_token]. intros Hin. apply list_elem_of_fmap in Hin as (g & Hg & Hin).
    pose proof (io_fresh _ _ Hw) as Hf. rewrite Forall_forall in Hf. specialize (Hf g Hin). cbn in Hf. lia.
  - destruct Hres as (_ & _ & Hl & Hc). done.
Qed.

(** ** Concrete instances *)

(** The question "a." A IN. *)
Definition inflight_question : list Z := [1; 97; 0; 0; 1; 0; 1]%Z.

Definition sample_registration : InflightRegistry * result inflight_error (Z * InflightGuard) :=
  match inflight_register (inflight_new 2 5) 0 0x1234 inflight_question with
  | Ret x => x
  | _ => (inflight_new 2 5, Err TableFull)
  end.

Definition sample_guard : InflightGuard :=
  match snd sample_registration with Ok (_, g) => g | Err _ => mkInflightGuard 0 0 false end.

Definition sample_iworld : iworld := mkIworld (fst sample_registration) [sample_guard] 1.

Lemma sample_iworld_reachable : ireachable 2 sample_iworld.
Proof.
  exists 5%Z. apply rtc_once.
  apply (istep_register (mkIworld (inflight_new 2 5) [] 0) 0x1234 inflight_question
    (fst sample_registration) (guard_id sample_guard) sample_guard); [cbn [iw_reg ir_next_token inflight_new]; lia|].
  vm_compute. reflexivity.
Qed.

Lemma inflight_cap_witness :
  exists k, ir_cap (iw_reg sample_iworld) = Some k /\ k + 1 = 2.
Proof.
  refine (proj2 (inflight_cap_holds 2 sample_iworld [guard_id sample_guard] sample_iworld_reachable _ _ _)).
  - lia.
  - apply NoDup_singleton.
  - intros id ->%list_elem_of_singleton. vm_compute. by eexists.
Defined.

Lemma guard_drop_witness :
  exists r, guard_drop (iw_reg sample_iworld) sample_guard = Ret r /\ ilookup r (guard_id sample_guard) = None.
Proof.
  assert (exists r, guard_drop (iw_reg sample_iworld) sample_guard = Ret r) as [r Hr]
    by (eexists; vm_compute; reflexivity).
  exists r. split; [exact Hr|].
  destruct (ilookup r (guard_id sample_guard)) as [e|] eqn:El; [|done]. exfalso.
  apply (guard_drop_removes_own 2 sample_iworld sample_guard r sample_iworld_reachable) in El as [Hl Hne];
    [|by left|exact Hr].
  apply Hne. clear -Hl. vm_compute in Hl. injection Hl as <-. vm_compute. reflexivity.
Defined.

(** The upstream's reply to the registered query, with the question in upper case. *)
Definition inflight_reply : list Z :=
  to_be 2 (guard_id sample_guard) ++ [0x81; 0x80; 0; 1; 0; 0; 0; 0; 0; 0; 1; 65; 0; 0; 1; 0; 1]%Z.

Lemma complete_antispoof_witness :
  exists r packet' sent, complete (iw_reg sample_iworld) inflight_reply = Ret (r, packet', sent, CDelivered).
Proof.
  destruct (complete_delivers_only_matching 2 sample_iworld inflight_reply sample_iworld_reachable)
    as (r & p & sent & oc & Hc & Hd & _).
  exists r, p, sent. assert (oc = CDelivered) as ->; [|exact Hc].
  apply Hd. eexists. split; [|split; [vm_compute; reflexivity|vm_compute; reflexivity]].
  split; [by apply Nat.leb_le|by vm_compute].
Defined.

Lemma register_fresh_witness :
  exists r res, inflight_register (iw_reg sample_iworld) 1 7 inflight_question = Ret (r, res).
Proof.
  destruct (register_uses_fresh_id 2 sample_iworld 7 inflight_question sample_iworld_reachable)
    as (r & res & Hr & _); [vm_compute; reflexivity|].
  by exists r, res.
Defined.
