(* ===== verification/RustStr.v ===== *)
(** * Rust strings

    The operations of [str] and [String] the configuration, rule-set and domain
    code uses, on the UTF-8 bytes of a string: [split], [split_once], [find],
    [strip_prefix], [trim], [trim_end_matches], [lines] and [to_ascii_lowercase].
    Splitting on an ASCII character is shown to be inverse to joining. *)

From stdpp Require Import strings.
From S2P Require Import Prelude Hasher DnsName Utf8 DnsQname.

(** An ASCII literal of the source. *)
Definition lit (s : string) : list Z :=
  (fun a => Z.of_N (Ascii.N_of_ascii a)) <$> String.list_ascii_of_string s.

(** [s.split(c)]: always at least one piece. *)
Fixpoint str_split (c : Z) (s : list Z) : list (list Z) :=
  match s with
  | [] => [[]]
  | b :: s' =>
      if decide (b = c) then [] :: str_split c s'
      else match str_split c s' with
           | p :: ps => (b :: p) :: ps
           | [] => [[b]]
           end
  end.

(** [s.find(c)] *)
Fixpoint str_find (c : Z) (s : list Z) : option nat :=
  match s with
  | [] => None
  | b :: s' => if decide (b = c) then Some 0 else S <$> str_find c s'
  end.

(** [s.split_once(c)] *)
Definition split_once (c : Z) (s : list Z) : option (list Z * list Z) :=
  match str_find c s with
  | Some i => Some (take i s, drop (S i) s)
  | None => None
  end.

(** [s.strip_prefix(p)] *)
Fixpoint strip_prefix (p s : list Z) : option (list Z) :=
  match p, s with
  | [], _ => Some s
  | a :: p', b :: s' => if decide (a = b) then strip_prefix p' s' else None
  | _ :: _, [] => None
  end.

Definition starts_with (p s : list Z) : bool :=
  match strip_prefix p s with Some _ => true | None => false end.

(** [s.contains(c)] *)
Definition str_contains (c : Z) (s : list Z) : bool := bool_decide (c ∈ s).

(** [s.contains(p)] for a string [p]. *)
Fixpoint contains_str (p s : list Z) : bool :=
  starts_with p s || match s with [] => false | _ :: s' => contains_str p s' end.

(** [s.trim_end_matches(c)] *)
Definition trim_end_matches (c : Z) (s : list Z) : list Z :=
  rev ((fix go (r : list Z) := match r with
                               | b :: r' => if decide (b = c) then go r' else r
                               | [] => []
                               end) (rev s)).

(** The encodings of the characters with the Unicode property White_Space, which
    [trim] removes. *)
Definition WHITESPACE : list (list Z) :=
  ([[9]; [10]; [11]; [12]; [13]; [32]; [0xC2; 0x85]; [0xC2; 0xA0]; [0xE1; 0x9A; 0x80];
    [0xE2; 0x80; 0x80]; [0xE2; 0x80; 0x81]; [0xE2; 0x80; 0x82]; [0xE2; 0x80; 0x83];
    [0xE2; 0x80; 0x84]; [0xE2; 0x80; 0x85]; [0xE2; 0x80; 0x86]; [0xE2; 0x80; 0x87];
    [0xE2; 0x80; 0x88]; [0xE2; 0x80; 0x89]; [0xE2; 0x80; 0x8A]; [0xE2; 0x80; 0xA8];
    [0xE2; 0x80; 0xA9]; [0xE2; 0x80; 0xAF]; [0xE2; 0x81; 0x9F]; [0xE3; 0x80; 0x80]])%Z.

(** Removes encodings of [ws] from the front; [fuel] is the length of the string. *)
Fixpoint strip_front (ws : list (list Z)) (fuel : nat) (s : list Z) : list Z :=
  match fuel with
  | O => s
  | S fuel' =>
      match list_find (fun w => starts_with w s) ws with
      | Some (_, w) => strip_front ws fuel' (drop (length w) s)
      | None => s
      end
  end.

Definition trim_start (s : list Z) : list Z := strip_front WHITESPACE (length s) s.
Definition trim_end (s : list Z) : list Z :=
  rev (strip_front (@rev Z <$> WHITESPACE) (length s) (rev s)).
Definition trim (s : list Z) : list Z := trim_end (trim_start s).

(** [s.lines()]: the pieces between line feeds, without a carriage return before
    the line feed and without an empty last piece; an unterminated last line keeps
    its carriage return. *)
Definition strip_cr (l : list Z) : list Z :=
  match rev l with 13%Z :: r => rev r | _ => l end.

Definition lines (s : list Z) : list (list Z) :=
  match rev (str_split 10 s) with
  | [] :: r => strip_cr <$> rev r
  | last :: r => (strip_cr <$> rev r) ++ [last]
  | [] => []
  end.

(** [s.rsplit_once(c)] *)
Definition rsplit_once (c : Z) (s : list Z) : option (list Z * list Z) :=
  match split_once c (rev s) with Some (a, b) => Some (rev b, rev a) | None => None end.

(** [s.split_once(p)] for a string [p]. *)
Fixpoint split_once_str (p s : list Z) : option (list Z * list Z) :=
  match strip_prefix p s with
  | Some r => Some ([], r)
  | None =>
      match s with
      | [] => None
      | b :: s' => match split_once_str p s' with Some (a, r) => Some (b :: a, r) | None => None end
      end
  end.

(** [s.strip_suffix(p)] *)
Definition strip_suffix (p s : list Z) : option (list Z) :=
  match strip_prefix (rev p) (rev s) with Some r => Some (rev r) | None => None end.

(** [u8::to_ascii_uppercase] *)
Definition ascii_upper (b : Z) : Z := if decide (97 <= b <= 122)%Z then (b - 32)%Z else b.

(** [s.parse::<uN>()] for an unsigned type of [w] bits: an optional plus sign, at least
    one digit, no overflow. *)
Fixpoint parse_uint_digits (w acc : Z) (s : list Z) : option Z :=
  match s with
  | [] => Some acc
  | c :: s =>
      if decide (48 <= c <= 57)%Z then
        let acc := (acc * 10 + (c - 48))%Z in
        if decide (acc < 2 ^ w)%Z then parse_uint_digits w acc s else None
      else None
  end.

Definition parse_uint (w : Z) (s : list Z) : option Z :=
  match s with
  | [] => None
  | [43%Z] => None
  | 43%Z :: s' => parse_uint_digits w 0 s'
  | _ => parse_uint_digits w 0 s
  end.

Lemma parse_uint_digits_app w acc a b : parse_uint_digits w acc (a ++ b)
  = match parse_uint_digits w acc a with Some v => parse_uint_digits w v b | None => None end.
Proof.
  revert acc. induction a as [|c a IH]; intros acc; [done|]. cbn [app parse_uint_digits]. repeat case_decide; done || apply IH.
Qed.

(** ** Splitting and joining *)

Fixpoint join_with (c : Z) (ts : list (list Z)) : list Z :=
  match ts with
  | [] => []
  | [t] => t
  | t :: ts' => t ++ c :: join_with c ts'
  end.

Lemma str_split_nonempty c s : str_split c s <> [].
Proof. destruct s as [|b s]; simpl; [done|]. case_decide; [done|]. by destruct (str_split c s). Qed.

Lemma join_with_cons c t ts : ts <> [] -> join_with c (t :: ts) = t ++ c :: join_with c ts.
Proof. by destruct ts. Qed.

Lemma join_split c s : join_with c (str_split c s) = s.
Proof.
  induction s as [|b s IH]; [done|]. cbn [str_split]. pose proof (str_split_nonempty c s) as Hne.
  case_decide as Hb.
  - rewrite join_with_cons by done. cbn. by rewrite IH, Hb.
  - destruct (str_split c s) as [|p ps]; [done|]. destruct ps; cbn in *; by rewrite IH.
Qed.

Lemma split_pieces c s : Forall (fun p => c ∉ p) (str_split c s).
Proof.
  induction s as [|b s IH]; cbn [str_split].
  - apply Forall_singleton, not_elem_of_nil.
  - case_decide as Hb; [constructor; [apply not_elem_of_nil|done]|].
    destruct (str_split c s) as [|p ps].
    + apply Forall_singleton. by rewrite list_elem_of_singleton.
    + apply Forall_cons in IH as [Hp IH]. constructor; [|done].
      rewrite elem_of_cons. intros [->|?]; done.
Qed.

Lemma split_app c p s : c ∉ p -> str_split c (p ++ c :: s) = p :: str_split c s.
Proof.
  induction p as [|b p IH]; intros Hp; cbn [app str_split].
  - by rewrite decide_True.
  - apply not_elem_of_cons in Hp as [Hb Hp]. rewrite decide_False by congruence. by rewrite IH.
Qed.

Lemma split_single c p : c ∉ p -> str_split c p = [p].
Proof.
  induction p as [|b p IH]; intros Hp; cbn [str_split]; [done|].
  apply not_elem_of_cons in Hp as [Hb Hp]. rewrite decide_False by congruence. by rewrite IH.
Qed.

Lemma split_join c ps : ps <> [] -> Forall (fun p => c ∉ p) ps -> str_split c (join_with c ps) = ps.
Proof.
  intros Hne Hps. induction Hps as [|p ps Hp Hps IH]; [done|].
  destruct ps as [|p' ps]; [by apply split_single|].
  rewrite join_with_cons by done. by rewrite split_app, IH.
Qed.

Lemma str_find_Some c s i :
  str_find c s = Some i <-> exists p r, s = p ++ c :: r /\ length p = i /\ c ∉ p.
Proof.
  revert i. induction s as [|b s IH]; intros i; cbn [str_find].
  - split; [done|]. by intros ([|? ?] & r & ? & _).
  - case_decide as Hb.
    + split.
      * intros [= <-]. exists [], s. subst. split; [done|]. split; [done|apply not_elem_of_nil].
      * intros ([|b' p] & r & [= -> ->] & <- & Hp); [done|].
        apply not_elem_of_cons in Hp as [? _]. congruence.
    + rewrite fmap_Some. split.
      * intros (j & (p & r & -> & <- & Hp)%IH & ->). exists (b :: p), r.
        split; [done|]. split; [done|]. apply not_elem_of_cons. done.
      * intros ([|b' p] & r & [= -> ->] & <- & Hp); [done|].
        apply not_elem_of_cons in Hp as [_ Hp]. exists (length p). split; [|done].
        apply IH. eauto.
Qed.

Lemma str_find_None c s : str_find c s = None <-> c ∉ s.
Proof.
  destruct (str_find c s) as [i|] eqn:Hf.
  - apply str_find_Some in Hf as (p & r & -> & _). split; [done|]. set_solver.
  - split; [|done]. intros _ Hin. apply list_elem_of_split in Hin as (p & r & ->).
    assert (exists j, str_find c (p ++ c :: r) = Some j) as [j Hj]; [|congruence].
    clear Hf. induction p as [|b p [j IH]]; cbn [app str_find]; [rewrite decide_True by done; eauto|].
    case_decide; [eauto|]. rewrite IH. cbn. eauto.
Qed.

Lemma split_once_app c a b : c ∉ a -> split_once c (a ++ c :: b) = Some (a, b).
Proof.
  intros Ha. unfold split_once.
  assert (str_find c (a ++ c :: b) = Some (length a)) as -> by (apply str_find_Some; eauto).
  rewrite take_app_length. do 2 f_equal. rewrite drop_app_ge by lia.
  replace (S (length a) - length a) with 1 by lia. done.
Qed.


Lemma split_once_none c a : c ∉ a -> split_once c a = None.
Proof. intros Ha. unfold split_once. by rewrite (proj2 (str_find_None c a) Ha). Qed.


Lemma strip_prefix_Some p s r : strip_prefix p s = Some r <-> s = p ++ r.
Proof.
  revert s. induction p as [|a p IH]; intros s; cbn [strip_prefix app].
  - split; [by intros [= ->]|by intros ->].
  - destruct s as [|b s]; [done|]. case_decide as Hab.
    + rewrite IH. subst. split; [by intros ->|by intros [= ->]].
    + split; [done|]. intros [= ? ?]. congruence.
Qed.

Lemma starts_with_true p s : starts_with p s = true <-> exists r, s = p ++ r.
Proof.
  unfold starts_with. destruct (strip_prefix p s) as [r|] eqn:Hr.
  - apply strip_prefix_Some in Hr. split; [eauto|done].
  - split; [done|]. intros [r Hr']. apply strip_prefix_Some in Hr'. congruence.
Qed.

Lemma split_once_str_app c p a b : c ∉ a -> split_once_str (c :: p) (a ++ c :: p ++ b) = Some (a, b).
Proof.
  induction a as [|d a IH]; intros Hc; cbn [app split_once_str strip_prefix].
  - rewrite decide_True by done. by rewrite (proj2 (strip_prefix_Some p (p ++ b) b) eq_refl).
  - apply not_elem_of_cons in Hc as [Hd Ha]. rewrite decide_False by done. by rewrite IH.
Qed.

Lemma split_once_str_none c p s : c ∉ s -> split_once_str (c :: p) s = None.
Proof.
  induction s as [|d s IH]; intros Hc; [done|]. apply not_elem_of_cons in Hc as [Hd Hs]. cbn [split_once_str strip_prefix].
  rewrite decide_False by done. by rewrite IH.
Qed.

Lemma rsplit_once_app c a b : c ∉ b -> rsplit_once c (a ++ c :: b) = Some (a, b).
Proof.
  intros Hb. unfold rsplit_once. rewrite rev_app_distr. cbn [rev]. rewrite <- app_assoc. cbn [app].
  rewrite split_once_app by (rewrite list_elem_of_In, <- in_rev, <- list_elem_of_In; done). by rewrite !rev_involutive.
Qed.

Lemma rsplit_once_none c a : c ∉ a -> rsplit_once c a = None.
Proof. intros Ha. unfold rsplit_once. rewrite split_once_none; [done|]. rewrite list_elem_of_In, <- in_rev, <- list_elem_of_In. done. Qed.

(** ** Trimming *)

Lemma contains_str_true p s : contains_str p s = true <-> exists a b, s = a ++ p ++ b.
Proof.
  induction s as [|c s IH]; cbn [contains_str]; rewrite orb_true_iff, starts_with_true.
  - split; [intros [[r Hr]|?]; [by exists [], r|done]|].
    intros ([|] & b & Hs); [|done]. left. by exists b.
  - rewrite IH. split.
    + intros [[r Hr]|(a & b & ->)]; [by exists [], r|by exists (c :: a), b].
    + intros ([|x a] & b & Hs); [left; by exists b|right]. injection Hs as -> ->. by exists a, b.
Qed.

Lemma strip_front_suffix ws fuel s : exists p, s = p ++ strip_front ws fuel s.
Proof.
  revert s. induction fuel as [|fuel IH]; intros s; cbn [strip_front]; [by exists []|].
  destruct (list_find _ _) as [[i w]|] eqn:Hf; [|by exists []].
  destruct (IH (drop (length w) s)) as [p Hp]. exists (take (length w) s ++ p).
  rewrite <- app_assoc, <- Hp. by rewrite take_drop.
Qed.

Lemma strip_front_done ws fuel s :
  Forall (fun w => w <> []) ws -> length s <= fuel ->
  Forall (fun w => starts_with w (strip_front ws fuel s) = false) ws.
Proof.
  intros Hws. revert s. induction fuel as [|fuel IH]; intros s Hs; cbn [strip_front].
  - destruct s; [|simpl in Hs; lia]. eapply (list.Forall_impl _ _ _ Hws). by intros [|].
  - destruct (list_find _ _) as [[i w]|] eqn:Hf.
    + apply list_find_Some in Hf as (Hw & Hsw & _). apply IH.
      assert (w <> []) as Hne by by eapply (Forall_lookup_1 _ _ _ _ Hws).
      apply Is_true_true, starts_with_true in Hsw as [r ->].
      destruct w; [done|]. revert Hs. simpl. rewrite drop_app_length, length_app. lia.
    + apply list_find_None in Hf. eapply (list.Forall_impl _ _ _ Hf).
      intros w Hw. by apply Is_true_false.
Qed.

(** [trim] removes a prefix and a suffix and leaves no white space at either end. *)
Lemma trim_spec s :
  (exists p q, s = p ++ trim s ++ q) /\
  Forall (fun w => starts_with (rev w) (rev (trim s)) = false) WHITESPACE.
Proof.
  split.
  - destruct (strip_front_suffix WHITESPACE (length s) s) as [p Hp].
    set (m := trim_start s) in *. fold (trim_start s) in Hp.
    destruct (strip_front_suffix (@rev Z <$> WHITESPACE) (length m) (rev m)) as [q Hq].
    exists p, (rev q). unfold trim, trim_end. fold m.
    rewrite Hp at 1. fold m. f_equal. rewrite <- rev_app_distr, <- Hq. by rewrite rev_involutive.
  - unfold trim, trim_end. rewrite rev_involutive.
    pose proof (strip_front_done (@rev Z <$> WHITESPACE) (length (trim_start s)) (rev (trim_start s))) as H.
    apply Forall_fmap in H; [exact H|by apply (bool_decide_unpack _)|by rewrite length_rev].
Qed.

(** A printable ASCII character, which no white space begins or ends with. *)
Abbreviation graphic := (fun c : Z => (33 <= c <= 126)%Z).

Lemma strip_front_graphic ws fuel c s : Forall (fun w => match w with b :: _ => bool_decide (graphic b) | [] => true end = false) ws -> graphic c ->
  strip_front ws fuel (c :: s) = c :: s.
Proof.
  intros Hws Hc. destruct fuel; [done|]. cbn [strip_front]. destruct (list_find _ _) as [[i w]|] eqn:Hf; [|done].
  apply list_find_Some in Hf as (Hw & Hs & _). apply (Forall_lookup_1 _ _ _ _ Hws) in Hw. destruct w as [|b w]; [done|].
  apply Is_true_true, starts_with_true in Hs as [r Hr]. injection Hr as -> _. apply bool_decide_eq_false in Hw. done.
Qed.

(** Text without white space at either end is kept by [trim]. *)
Lemma trim_graphic c s : Forall graphic (c :: s) -> trim (c :: s) = c :: s.
Proof.
  intros Hg. unfold trim, trim_start. rewrite strip_front_graphic; [|by apply (bool_decide_unpack _); vm_compute|by apply Forall_cons in Hg as [? _]].
  unfold trim_end. apply Forall_rev in Hg. destruct (rev (c :: s)) as [|d r] eqn:Hr.
  { apply (f_equal length) in Hr. by rewrite length_rev in Hr. }
  apply Forall_cons in Hg as [Hd _]. rewrite strip_front_graphic; [|by apply (bool_decide_unpack _); vm_compute|done].
  by rewrite <- Hr, rev_involutive.
Qed.
