(* ===== verification/Domain.v ===== *)
(** * Domain patterns and their matcher (src/src/domain.rs)

    Normalisation of domain names, the classification of a pattern string, and
    the three-tier [DomainMatcher].  The regular-expression engine is the [regex]
    crate: a parameter, with the documented meaning of the anchored patterns the
    code builds as its law. *)

From stdpp Require Import strings.
From S2P Require Import Prelude Hasher DnsName Utf8 DnsQname RustStr.

(** ** The regex engine *)

Class RegexEngine (Regex : Type) := {
  regex_new : list Z -> option Regex;
  regex_escape : list Z -> list Z;
  is_match : Regex -> list Z -> bool
}.

(** The pieces [wildcard_domain_regex] concatenates: an escaped literal, an escaped
    dot, and a non-empty run of characters other than the dot. *)
Inductive atom :=
| Literal (l : list Z)
| EscapedDot
| NonDots.

Definition render_atom {Regex} `{!RegexEngine Regex} (a : atom) : list Z :=
  match a with
  | Literal l => regex_escape l
  | EscapedDot => lit "\."
  | NonDots => lit "[^.]+"
  end.

Definition atom_matches (a : atom) (s : list Z) : Prop :=
  match a with
  | Literal l => s = l
  | EscapedDot => s = [DOT]
  | NonDots => s <> [] /\ DOT ∉ s
  end.

Fixpoint atoms_match (l : list atom) (s : list Z) : Prop :=
  match l with
  | [] => s = []
  | a :: l' => exists s1 s2, s = s1 ++ s2 /\ atom_matches a s1 /\ atoms_match l' s2
  end.

(** The documented meaning of [^], [$], concatenation, [regex::escape], a negated
    class and [+] on the strings the code compiles; a compilation may be refused
    (the crate limits the size of the program). *)
Class RegexLaws (Regex : Type) `{!RegexEngine Regex} :=
  regex_anchored l re s :
    utf8_valid s = true ->
    regex_new (lit "^" ++ mjoin (render_atom <$> l) ++ lit "$") = Some re ->
    is_match re s = true <-> atoms_match l s.

(** ** Definitions *)

(** [normalize_domain] *)
Definition normalize_domain (name : list Z) : option (list Z) :=
  let name := lower_label (trim_end_matches DOT (trim name)) in
  if decide (name = [] \/ 253 < length name \/
             Exists (fun label => label = [] \/ 63 < length label) (str_split DOT name))
  then None
  else Some name.

Definition split_csv (s : list Z) : list (list Z) :=
  filter (fun t => t <> []) (trim <$> str_split 44 s).

Section matcher.
Context {Regex : Type} `{!RegexEngine Regex}.

Record DomainMatcher (V : Type) := mkMatcher {
  dm_full : gmap (list Z) V;
  dm_suffix : gmap (list Z) V;
  dm_regex : list (Regex * V)
}.

Definition matcher_default {V} : DomainMatcher V := mkMatcher V ∅ ∅ [].

Definition insert_full {V} (self : DomainMatcher V) (name : list Z) (v : V) : DomainMatcher V :=
  mkMatcher V (<[name := v]> (dm_full _ self)) (dm_suffix _ self) (dm_regex _ self).

Definition insert_suffix {V} (self : DomainMatcher V) (name : list Z) (v : V) : DomainMatcher V :=
  mkMatcher V (dm_full _ self) (<[name := v]> (dm_suffix _ self)) (dm_regex _ self).

Definition insert_regex {V} (self : DomainMatcher V) (re : Regex) (v : V) : DomainMatcher V :=
  mkMatcher V (dm_full _ self) (dm_suffix _ self) (dm_regex _ self ++ [(re, v)]).

Definition matcher_is_empty {V} (self : DomainMatcher V) : bool :=
  bool_decide (dm_full _ self = ∅) && bool_decide (dm_suffix _ self = ∅) &&
  match dm_regex _ self with [] => true | _ => false end.

Definition matcher_len {V} (self : DomainMatcher V) : nat :=
  size (dm_full _ self) + size (dm_suffix _ self) + length (dm_regex _ self).

(** The loop over the label-aligned right-hand segments; one turn per label. *)
Fixpoint suffix_loop {V} (fuel : nat) (suffix : gmap (list Z) V) (qname : list Z) (i : nat)
  : outcome (option V) :=
  match fuel with
  | O => OutOfFuel
  | S fuel' =>
      let! tail := slice qname i (length qname) in
      match suffix !! tail with
      | Some v => Ret (Some v)
      | None =>
          match str_find DOT tail with
          | None => Ret None
          | Some p => suffix_loop fuel' suffix qname (i + (p + 1))
          end
      end
  end.

Definition lookup_specific {V} (self : DomainMatcher V) (qname : list Z) : outcome (option V) :=
  match dm_full _ self !! qname with
  | Some v => Ret (Some v)
  | None =>
      if decide (dm_suffix _ self = ∅) then Ret None
      else suffix_loop (S (length qname)) (dm_suffix _ self) qname 0
  end.

Definition lookup_fuzzy {V} (self : DomainMatcher V) (qname : list Z) : option V :=
  match list_find (fun p : Regex * V => is_match p.1 qname) (dm_regex _ self) with
  | Some (_, (_, v)) => Some v
  | None => None
  end.

(** The string [wildcard_domain_regex] builds, and the function. *)
Definition wildcard_re (pattern : list Z) : list Z :=
  lit "^" ++
  mjoin (imap (fun i part =>
           (if decide (0 < i) then lit "\." else []) ++
           (if decide (part = lit "*") then lit "[^.]+" else regex_escape (lower_label part)))
         (str_split DOT pattern)) ++
  lit "$".

Definition wildcard_domain_regex (pattern : list Z) : option Regex :=
  if negb (str_contains 42 pattern) then None else regex_new (wildcard_re pattern).

Inductive PatternKind :=
| Suffix (n : list Z)
| Full (n : list Z)
| Wildcard (re : Regex)
| Invalid.

Definition classify_pattern (pattern : list Z) : PatternKind :=
  match strip_prefix (lit "+.") pattern with
  | Some rest => match normalize_domain rest with Some n => Suffix n | None => Invalid end
  | None =>
      match strip_prefix (lit ".") pattern with
      | Some rest => match normalize_domain rest with Some n => Suffix n | None => Invalid end
      | None =>
          match wildcard_domain_regex pattern with
          | Some re => Wildcard re
          | None => match normalize_domain pattern with Some n => Full n | None => Invalid end
          end
      end
  end.
End matcher.

Arguments DomainMatcher Regex V : clear implicits.
Arguments PatternKind Regex : clear implicits.
Arguments mkMatcher {Regex V} _ _ _.
Arguments dm_full {Regex V} _.
Arguments dm_suffix {Regex V} _.
Arguments dm_regex {Regex V} _.

(** ** Suffix tier *)

(** The name [p] or one of its dot-delimited subdomains. *)
Definition covers (p q : list Z) : Prop := q = p \/ exists pre, q = pre ++ DOT :: p.

(** The value under the longest covering name, when there is one. *)
Definition longest_cover {V} (m : gmap (list Z) V) (q : list Z) (r : option V) : Prop :=
  match r with
  | Some v => exists p, covers p q /\ m !! p = Some v /\
                forall p', covers p' q -> is_Some (m !! p') -> length p' <= length p
  | None => forall p, covers p q -> m !! p = None
  end.

Lemma covers_length p q : covers p q -> length p <= length q.
Proof. intros [->|[pre ->]]; [done|]. len. Qed.

Lemma covers_dot pre rest p :
  DOT ∉ pre -> covers p (pre ++ DOT :: rest) <-> p = pre ++ DOT :: rest \/ covers p rest.
Proof.
  intros Hpre. split.
  - intros [Heq|[pre' Heq]]; [by left|right]. revert pre' Heq Hpre.
    induction pre as [|b pre IH]; intros [|b' pre'] Heq Hpre.
    + injection Heq as ->. by left.
    + injection Heq as <- ->. right. by exists pre'.
    + injection Heq as -> _. by apply not_elem_of_cons in Hpre as [? _].
    + injection Heq as -> Heq. apply not_elem_of_cons in Hpre as [_ Hpre]. eauto.
  - intros [->|[->|[pre' ->]]]; [by left|by right; exists pre|].
    right. exists (pre ++ DOT :: pre'). by rewrite <- app_assoc.
Qed.

Lemma covers_no_dot p q : DOT ∉ q -> covers p q <-> p = q.
Proof.
  intros Hq. split; [|by left]. intros [->|[pre ->]]; [done|].
  apply not_elem_of_app in Hq as [_ Hq]. by apply not_elem_of_cons in Hq as [? _].
Qed.

Lemma suffix_loop_spec {V} (fuel : nat) (m : gmap (list Z) V) (pre tail : list Z) :
  length tail < fuel ->
  exists r, suffix_loop fuel m (pre ++ tail) (length pre) = Ret r /\ longest_cover m tail r.
Proof.
  revert pre tail. induction fuel as [|fuel IH]; intros pre tail Hf; [lia|]. cbn [suffix_loop].
  rewrite slice_Ret by len. cbn [obind].
  rewrite drop_app_length, length_app, Nat.add_sub', firstn_all.
  destruct (m !! tail) as [v|] eqn:Hv.
  { exists (Some v). split; [done|]. exists tail. split; [by left|]. split; [done|].
    intros p' Hp' _. by apply covers_length. }
  destruct (str_find DOT tail) as [i|] eqn:Hi.
  - apply str_find_Some in Hi as (lab & rest & -> & <- & Hlab).
    destruct (IH (pre ++ lab ++ [DOT]) rest) as (r & Hr & Hspec); [revert Hf; len|].
    exists r. split.
    { rewrite <- Hr. rewrite <- !app_assoc. cbn [app]. f_equal. len. }
    destruct r as [v|]; cbn in *.
    + destruct Hspec as (p & Hp & Hmp & Hmax). exists p. rewrite covers_dot by done.
      split; [by right|]. split; [done|]. intros p' [->|Hp']%covers_dot [w Hw]; [congruence| |done].
      eauto.
    + intros p [->|Hp]%covers_dot; [done|eauto|done].
  - exists None. split; [done|]. apply str_find_None in Hi. intros p Hp.
    apply covers_no_dot in Hp; [|done]. by subst.
Qed.

(** [lookup_specific] always returns (its walk over the name's right-hand
    segments terminates and slices in range), and what it returns is the value of
    the exact entry when there is one, otherwise the value under the longest stored
    name that equals the query name or is a dot-aligned suffix of it, and nothing
    exactly when no stored name covers it. *)
Theorem lookup_specific_correct {Regex V} (m : DomainMatcher Regex V) q :
  exists r, lookup_specific m q = Ret r /\
    match dm_full m !! q with
    | Some v => r = Some v
    | None => longest_cover (dm_suffix m) q r
    end.
Proof.
  unfold lookup_specific. destruct (dm_full m !! q) as [v|]; [eauto|].
  case_decide as He.
  - exists None. split; [done|]. rewrite He. intros p _. apply lookup_empty.
  - apply (suffix_loop_spec _ _ [] q). lia.
Qed.

(** ** Wildcards *)

(** Label by label: a [*] segment stands for one non-empty label, any other
    segment for itself in lower case. *)
Definition segment_matches (seg lab : list Z) : Prop :=
  if decide (seg = lit "*") then lab <> [] else lab = lower_label seg.

Definition wildcard_matches (pattern q : list Z) : Prop :=
  Forall2 segment_matches (str_split DOT pattern) (str_split DOT q).

Definition segment_atom (seg : list Z) : atom :=
  if decide (seg = lit "*") then NonDots else Literal (lower_label seg).

Fixpoint segment_atoms (segs : list (list Z)) : list atom :=
  match segs with
  | [] => []
  | [s] => [segment_atom s]
  | s :: segs' => segment_atom s :: EscapedDot :: segment_atoms segs'
  end.

Lemma lower_no_dot l : DOT ∉ l -> DOT ∉ lower_label l.
Proof.
  intros Hl [b [Hb Hin]]%list_elem_of_fmap. revert Hb. unfold to_ascii_lowercase, DOT in *.
  case_decide; intros; subst; [lia|done].
Qed.

Lemma segment_atom_spec seg lab :
  DOT ∉ seg -> atom_matches (segment_atom seg) lab <-> segment_matches seg lab /\ DOT ∉ lab.
Proof.
  intros Hs. unfold segment_atom, segment_matches. case_decide; cbn; [done|].
  split; [|by intros [? _]]. intros ->. split; [done|by apply lower_no_dot].
Qed.

Lemma segment_atoms_spec segs q :
  segs <> [] -> Forall (fun s => DOT ∉ s) segs ->
  atoms_match (segment_atoms segs) q <-> Forall2 segment_matches segs (str_split DOT q).
Proof.
  intros Hne Hsegs. revert q. induction Hsegs as [|s segs Hs Hsegs IH]; intros q; [done|].
  destruct segs as [|s' segs].
  - cbn [segment_atoms atoms_match]. split.
    + intros (s1 & s2 & -> & [Hm Hd]%segment_atom_spec & ->); [|done].
      rewrite app_nil_r, split_single by done. by repeat constructor.
    + intros Hf. inversion Hf as [|? p ? ps Hp Hps Heq1 Heq2]; subst. inversion Hps; subst.
      pose proof (join_split DOT q) as Hj. pose proof (split_pieces DOT q) as Hd.
      rewrite <- Heq2 in Hj, Hd. cbn in Hj. subst. rewrite Forall_singleton in Hd.
      exists q, []. rewrite app_nil_r. split; [done|]. split; [|done]. by apply segment_atom_spec.
  - cbn [segment_atoms]. fold (segment_atoms (s' :: segs)). cbn [atoms_match].
    fold (atoms_match (segment_atoms (s' :: segs))). split.
    + intros (s1 & r & -> & [Hm Hd]%segment_atom_spec & s2 & s3 & -> & -> & Hr); [|done].
      cbn [app]. rewrite split_app by done. constructor; [done|]. by apply IH.
    + intros Hf. inversion Hf as [|? p ? ps Hp Hps Heq1 Heq2]; subst.
      pose proof (join_split DOT q) as Hj. pose proof (split_pieces DOT q) as Hd.
      rewrite <- Heq2 in Hj, Hd. apply Forall_cons in Hd as [Hdp Hd].
      assert (ps <> []) as Hps0 by (by inversion Hps). rewrite join_with_cons in Hj by done.
      exists p, (DOT :: join_with DOT ps). split; [done|]. split; [by apply segment_atom_spec|].
      exists [DOT], (join_with DOT ps). split; [done|]. split; [done|].
      apply IH; [done|]. by rewrite split_join.
Qed.

Section pattern_theory.
Context {Regex : Type} `{!RegexEngine Regex, !RegexLaws Regex}.

Lemma wildcard_re_atoms pattern :
  wildcard_re pattern
  = lit "^" ++ mjoin (render_atom <$> segment_atoms (str_split DOT pattern)) ++ lit "$".
Proof.
  unfold wildcard_re. f_equal. f_equal.
  assert (forall segs, mjoin (imap (fun (i : nat) part => lit "\." ++
      (if decide (part = lit "*") then lit "[^.]+" else regex_escape (lower_label part))) segs)
    = match segs with [] => [] | _ => lit "\." ++ mjoin (render_atom <$> segment_atoms segs) end)
    as Htail.
  { induction segs as [|s segs IH]; [done|]. rewrite imap_cons. cbn [mjoin list_join].
    etrans; [exact (f_equal _ IH)|]. destruct segs as [|s' segs].
    - cbn [segment_atoms]. rewrite fmap_cons. cbn [fmap list_fmap mjoin list_join].
      rewrite !app_nil_r. f_equal. unfold segment_atom. by case_decide.
    - cbn [segment_atoms]. fold (segment_atoms (s' :: segs)). rewrite !fmap_cons.
      cbn [mjoin list_join]. rewrite <- app_assoc. f_equal. f_equal.
      unfold segment_atom. by case_decide. }
  destruct (str_split DOT pattern) as [|s segs]; [done|].
  rewrite imap_cons. cbn [mjoin list_join]. etrans; [exact (f_equal _ (Htail segs))|].
  destruct segs as [|s' segs].
  - cbn [segment_atoms]. rewrite fmap_cons. cbn [fmap list_fmap mjoin list_join].
    rewrite decide_False by lia. cbn [app]. f_equal. unfold segment_atom. by case_decide.
  - cbn [segment_atoms]. fold (segment_atoms (s' :: segs)). rewrite !fmap_cons.
    cbn [mjoin list_join]. rewrite decide_False by lia. cbn [app]. f_equal.
    unfold segment_atom. by case_decide.
Qed.

Lemma wildcard_regex_spec pattern re q :
  wildcard_domain_regex pattern = Some re -> utf8_valid q = true ->
  is_match re q = true <-> wildcard_matches pattern q.
Proof.
  unfold wildcard_domain_regex. destruct (negb _); [done|]. intros Hre Hq.
  rewrite wildcard_re_atoms in Hre. rewrite (regex_anchored _ _ _ Hq Hre).
  apply segment_atoms_spec; [apply str_split_nonempty|apply split_pieces].
Qed.

(** The regular expression [wildcard_domain_regex] builds accepts a name exactly
    when the name has the pattern's number of labels and each label is the
    pattern's segment in lower case or, for a [*] segment, any non-empty label. *)
Theorem wildcard_domain_regex_correct pattern re q :
  wildcard_domain_regex pattern = Some re -> utf8_valid q = true ->
  is_match re q = true <-> wildcard_matches pattern q.
Proof. apply wildcard_regex_spec. Qed.
End pattern_theory.

(** ** What a matcher accepts *)

Section hits.
Context {Regex : Type} `{!RegexEngine Regex}.

Definition matcher_hits {V} (m : DomainMatcher Regex V) (q : list Z) : Prop :=
  is_Some (dm_full m !! q) \/ (exists p, covers p q /\ is_Some (dm_suffix m !! p)) \/
  Exists (fun r : Regex * V => is_match r.1 q = true) (dm_regex m).

(** [lookup_specific(q).is_some() || lookup_fuzzy(q).is_some()] *)
Definition domain_hit {V} (m : DomainMatcher Regex V) (q : list Z) : outcome bool :=
  let! a := lookup_specific m q in
  Ret (match a with
       | Some _ => true
       | None => match lookup_fuzzy m q with Some _ => true | None => false end
       end).

Lemma lookup_fuzzy_hit {V} (m : DomainMatcher Regex V) q :
  is_Some (lookup_fuzzy m q) <-> Exists (fun r : Regex * V => is_match r.1 q = true) (dm_regex m).
Proof.
  unfold lookup_fuzzy. rewrite Exists_exists.
  destruct (list_find _ _) as [[i [re v]]|] eqn:Hf.
  - apply list_find_Some in Hf as (Hi & Hm & _). apply Is_true_true in Hm. split; [|by eexists].
    intros _. exists (re, v). split; [by eapply list_elem_of_lookup_2|done].
  - apply list_find_None in Hf. rewrite Forall_forall in Hf. split; [by intros []|].
    intros (x & Hx & Hm). destruct (Hf x Hx). by rewrite Hm.
Qed.

Lemma lookup_specific_hit {V} (m : DomainMatcher Regex V) q :
  exists r, lookup_specific m q = Ret r /\
    (is_Some r <-> is_Some (dm_full m !! q) \/ exists p, covers p q /\ is_Some (dm_suffix m !! p)).
Proof.
  unfold lookup_specific. destruct (dm_full m !! q) as [v|].
  { exists (Some v). split; [done|]. split; [by left; eexists|by eexists]. }
  case_decide as He.
  - exists None. split; [done|]. rewrite He. split; [by intros []|].
    intros [[]|(p & _ & [v Hv])]; [done|]. by rewrite lookup_empty in Hv.
  - destruct (suffix_loop_spec (S (length q)) (dm_suffix m) [] q) as (r & Hr & Hs); [lia|].
    exists r. split; [exact Hr|]. destruct r as [v|]; cbn in Hs.
    + destruct Hs as (p & Hp & Hv & _). split; [|by eexists]. intros _. right. exists p. by eauto.
    + split; [by intros []|]. intros [[]|(p & Hp & [v Hv])]; [done|]. by rewrite Hs in Hv.
Qed.

Lemma domain_hit_spec {V} (m : DomainMatcher Regex V) q :
  exists b, domain_hit m q = Ret b /\ (b = true <-> matcher_hits m q).
Proof.
  unfold domain_hit, matcher_hits.
  destruct (lookup_specific_hit m q) as (r & -> & Hr). cbn [obind]. eexists. split; [done|].
  rewrite <- (lookup_fuzzy_hit m q).
  transitivity (is_Some r \/ is_Some (lookup_fuzzy m q)); [clear Hr|rewrite Hr; tauto].
  destruct r; [split; [by left; eexists|done]|].
  destruct (lookup_fuzzy m q); split; try done; [by right; eexists|by intros [[]|[]]].
Qed.

Definition kind_hits (k : PatternKind Regex) (q : list Z) : Prop :=
  match k with
  | Suffix n => covers n q
  | Full n => q = n
  | Wildcard re => is_match re q = true
  | Invalid => False
  end.

Lemma hits_default {V} q : ~ matcher_hits (matcher_default : DomainMatcher Regex V) q.
Proof.
  unfold matcher_hits. cbn. setoid_rewrite lookup_empty. rewrite Exists_nil.
  intros [[]|[(? & _ & [])|[]]]; done.
Qed.

Lemma hits_insert_full {V} (m : DomainMatcher Regex V) n v q :
  matcher_hits (insert_full m n v) q <-> matcher_hits m q \/ q = n.
Proof.
  unfold matcher_hits, insert_full. cbn. rewrite lookup_insert_is_Some'. naive_solver.
Qed.

Lemma hits_insert_suffix {V} (m : DomainMatcher Regex V) n v q :
  matcher_hits (insert_suffix m n v) q <-> matcher_hits m q \/ covers n q.
Proof.
  unfold matcher_hits, insert_suffix. cbn. setoid_rewrite lookup_insert_is_Some'. naive_solver.
Qed.

Lemma hits_insert_regex {V} (m : DomainMatcher Regex V) re v q :
  matcher_hits (insert_regex m re v) q <-> matcher_hits m q \/ is_match re q = true.
Proof.
  unfold matcher_hits, insert_regex. cbn. rewrite Exists_app, Exists_cons, Exists_nil. cbn. tauto.
Qed.

(** The declared meaning of a pattern: [+.host] and [.host] cover the host and its
    subdomains, a pattern with a [*] the engine accepts matches label by label,
    anything else is an exact name. *)
Definition pattern_matches (p q : list Z) : Prop :=
  match strip_prefix (lit "+.") p, strip_prefix (lit ".") p with
  | Some rest, _ | None, Some rest => exists n, normalize_domain rest = Some n /\ covers n q
  | None, None =>
      if decide (42%Z ∈ p /\ is_Some (regex_new (wildcard_re p))) then wildcard_matches p q
      else normalize_domain p = Some q
  end.

Lemma classify_pattern_hits `{!RegexLaws Regex} p q :
  utf8_valid q = true -> kind_hits (classify_pattern p) q <-> pattern_matches p q.
Proof.
  intros Hq. unfold classify_pattern, pattern_matches.
  destruct (strip_prefix (lit "+.") p) as [rest|];
    [|destruct (strip_prefix (lit ".") p) as [rest|]].
  1, 2: destruct (normalize_domain rest) as [n|]; cbn; naive_solver.
  destruct (wildcard_domain_regex p) as [re|] eqn:Hre.
  - cbn. rewrite (wildcard_regex_spec _ _ _ Hre Hq).
    unfold wildcard_domain_regex, str_contains in Hre.
    destruct (bool_decide (42%Z ∈ p)) eqn:Hc; [|done]. apply bool_decide_eq_true in Hc.
    cbn in Hre. rewrite decide_True; [done|]. split; [done|]. by eexists.
  - rewrite decide_False; [destruct (normalize_domain p) as [n|]; cbn; naive_solver|].
    intros [Hc [re' Hre']]. unfold wildcard_domain_regex, str_contains in Hre.
    rewrite bool_decide_true in Hre by done. cbn [negb] in Hre. congruence.
Qed.
End hits.

(** ** Normalised names *)

Definition normal_name (n : list Z) : Prop :=
  n <> [] /\ length n <= 253 /\ lower_label n = n /\
  Forall (fun l => 1 <= length l <= 63) (str_split DOT n).

Lemma trim_end_matches_id c s : last s <> Some c -> trim_end_matches c s = s.
Proof.
  unfold trim_end_matches. destruct s as [|b s _] using rev_ind; [done|].
  rewrite last_snoc, rev_app_distr. cbn [rev app]. intros Hb.
  rewrite decide_False by congruence. cbn [rev]. by rewrite rev_involutive.
Qed.

Lemma split_snoc c s : str_split c (s ++ [c]) = str_split c s ++ [[]].
Proof.
  induction s as [|b s IH]; cbn [app str_split]; [by rewrite decide_True|].
  case_decide; rewrite IH; [done|].
  pose proof (str_split_nonempty c s). by destruct (str_split c s).
Qed.

Lemma normal_name_last n : normal_name n -> last n <> Some DOT.
Proof.
  intros (_ & _ & _ & Hl) Hlast. apply last_Some in Hlast as [n' ->].
  rewrite split_snoc, Forall_app, Forall_singleton in Hl. simpl in Hl. lia.
Qed.

Lemma normalize_domain_sound name n : normalize_domain name = Some n -> normal_name n.
Proof.
  unfold normalize_domain. intros Hn. case_decide as Hd; [done|]. apply (inj Some) in Hn.
  assert (lower_label n = n) as Hlow by (subst n; apply lower_label_idem).
  rewrite Hn in Hd. split; [tauto|]. split; [lia|]. split; [done|].
  assert (Hx : ~ Exists (fun l => l = [] \/ 63 < length l) (str_split DOT n)) by tauto.
  clear Hd. rename Hx into Hd. apply not_Exists_Forall in Hd; [|intros; apply _]. eapply (list.Forall_impl _ _ _ Hd).
  intros [|] Hx; simpl in *; [tauto|lia].
Qed.

(** [normalize_domain] either rejects or returns a lower-case name of at most 253
    bytes, with no empty label (so no leading or trailing dot) and no label over 63
    bytes; a name already in that form and without surrounding white space is
    returned unchanged. *)
Theorem normalize_domain_correct name :
  (forall n, normalize_domain name = Some n -> normal_name n) /\
  (normal_name name -> trim name = name -> normalize_domain name = Some name).
Proof.
  split; [apply normalize_domain_sound|]. intros Hn Htrim.
  pose proof (normal_name_last _ Hn) as Hlast. destruct Hn as (Hne & Hlen & Hlow & Hl).
  unfold normalize_domain. rewrite Htrim, trim_end_matches_id, Hlow by done.
  rewrite decide_False; [done|]. intros [?|[?|He]]; [done|lia|].
  apply Exists_exists in He as (l & Hin & Hbad). rewrite Forall_forall in Hl.
  apply Hl in Hin. destruct Hbad as [->|?]; simpl in *; lia.
Qed.

Lemma normalize_domain_witness :
  normalize_domain (lit " Example.COM. ") = Some (lit "example.com") /\
  normal_name (lit "example.com") /\ normalize_domain (lit "a..b") = None.
Proof.
  split; [vm_compute; reflexivity|]. split; [|vm_compute; reflexivity].
  apply (normalize_domain_correct (lit " Example.COM. ")). vm_compute; reflexivity.
Defined.

(** ** An engine for the patterns the code builds

    Escaping every byte, parsing the escapes and the class, and matching with
    backtracking over the class. *)

Module LabelRegex.
Definition item : Type := option Z.

Fixpoint parse (p : list Z) : option (list item) :=
  match p with
  | [36%Z] => Some []
  | 92%Z :: c :: p' => (fun r => Some c :: r) <$> parse p'
  | 91%Z :: 94%Z :: 46%Z :: 93%Z :: 43%Z :: p' => (fun r => None :: r) <$> parse p'
  | _ => None
  end.

Fixpoint items_match (l : list item) (s : list Z) : bool :=
  match l with
  | [] => match s with [] => true | _ => false end
  | Some c :: l' => match s with b :: s' => bool_decide (b = c) && items_match l' s' | [] => false end
  | None :: l' =>
      existsb (fun k => bool_decide (DOT ∉ take k s) && items_match l' (drop k s)) (seq 1 (length s))
  end.

#[export] Instance engine : RegexEngine (list item) := {|
  regex_new p := match p with 94%Z :: p' => parse p' | _ => None end;
  regex_escape l := mjoin ((fun c => [92%Z; c]) <$> l);
  is_match := items_match
|}.

Definition atom_items (a : atom) : list item :=
  match a with
  | Literal l => Some <$> l
  | EscapedDot => [Some DOT]
  | NonDots => [None]
  end.

Lemma parse_literal l p r :
  parse p = Some r -> parse (mjoin ((fun c => [92%Z; c]) <$> l) ++ p) = Some ((Some <$> l) ++ r).
Proof. intros Hp. induction l as [|c l IH]; [done|]. exact (f_equal (fmap (fun r => Some c :: r)) IH). Qed.

Lemma parse_atoms l :
  parse (mjoin (render_atom <$> l) ++ lit "$") = Some (mjoin (atom_items <$> l)).
Proof.
  induction l as [|a l IH]; [done|]. rewrite !fmap_cons. cbn [mjoin list_join].
  rewrite <- app_assoc. destruct a; cbn [render_atom atom_items].
  - by apply parse_literal.
  - exact (f_equal (fmap (fun r => Some DOT :: r)) IH).
  - exact (f_equal (fmap (fun r => None :: r)) IH).
Qed.

Lemma items_match_literal l r s :
  items_match ((Some <$> l) ++ r) s = true <-> exists s2, s = l ++ s2 /\ items_match r s2 = true.
Proof.
  revert s. induction l as [|c l IH]; intros s; cbn.
  - split; [eauto|]. by intros (? & -> & ?).
  - destruct s as [|b s]; [split; [done|by intros (? & ? & _)]|].
    rewrite andb_true_iff, bool_decide_eq_true, IH. naive_solver.
Qed.

Lemma items_match_dots r s :
  items_match (None :: r) s = true <->
  exists s1 s2, s = s1 ++ s2 /\ (s1 <> [] /\ DOT ∉ s1) /\ items_match r s2 = true.
Proof.
  cbn [items_match]. rewrite existsb_exists. split.
  - intros (k & Hk%in_seq & [Hd%bool_decide_eq_true Hm]%andb_true_iff).
    exists (take k s), (drop k s). rewrite take_drop. split; [done|]. split; [|done].
    split; [|done]. intros Hnil%(f_equal length). revert Hnil. len.
  - intros (s1 & s2 & -> & [Hne Hd] & Hm). exists (length s1).
    rewrite take_app_length, drop_app_length, bool_decide_true by done. split; [|done].
    apply in_seq. destruct s1; [done|]. simpl. rewrite length_app. lia.
Qed.

#[export] Instance engine_laws : RegexLaws (list item).
Proof.
  intros l re s _. cbn [regex_new engine is_match app lit]. change (lit "^") with [94%Z]. cbn [app].
  rewrite parse_atoms. intros [= <-]. revert s.
  induction l as [|a l IH]; intros s; [by destruct s|].
  rewrite fmap_cons. cbn [mjoin list_join atoms_match].
  destruct a; cbn [atom_items atom_matches].
  - rewrite items_match_literal. setoid_rewrite <- IH. naive_solver.
  - change [Some DOT] with (Some <$> [DOT]). rewrite items_match_literal. setoid_rewrite <- IH.
    naive_solver.
  - change ([None] ++ ?r) with (None :: r). rewrite items_match_dots. by setoid_rewrite <- IH.
Qed.
End LabelRegex.
Import LabelRegex.

Lemma wildcard_domain_regex_witness :
  exists re : list LabelRegex.item,
    wildcard_domain_regex (lit "*.Example.com") = Some re /\
    wildcard_matches (lit "*.Example.com") (lit "sub.example.com") /\
    ~ wildcard_matches (lit "*.Example.com") (lit "a.sub.example.com").
Proof.
  eexists. split; [vm_compute; reflexivity|]. split.
  - eapply wildcard_domain_regex_correct; vm_compute; reflexivity.
  - intros H. eapply wildcard_domain_regex_correct in H; [|vm_compute; reflexivity..].
    vm_compute in H. discriminate.
Defined.
