(* ===== verification/IpParse.v ===== *)
(** * Textual addresses

    [str::parse::<IpAddr>()] and [str::parse::<u32>()] of the Rust standard library
    and [parse_cidr_range] / [push_cidr_line] of src/src/iprange.rs on top of them.
    A parser takes the remaining text and returns the value read and the rest, or
    [None] with the position restored ([read_atomically]). *)

From stdpp Require Import strings.
From S2P Require Import Prelude Hasher DnsName DnsQuery Utf8 DnsQname DnsRecords DnsEdns Ecs IpRange RustStr.

Definition parser (A : Type) : Type := list Z -> option (A * list Z).

(** [char::to_digit(radix)] *)
Definition to_digit (radix : Z) (c : Z) : option Z :=
  let d := (if decide (48 <= c <= 57) then c - 48
            else if decide (97 <= c <= 122) then c - 87
            else if decide (65 <= c <= 90) then c - 55
            else 36)%Z in
  if decide (d < radix)%Z then Some d else None.

(** The digits of [read_number]: [checked_mul] and [checked_add] at [max], at most
    [max_digits] of them. *)
Fixpoint read_digits (radix max : Z) (max_digits count : nat) (acc : Z) (s : list Z)
  : option (Z * nat * list Z) :=
  match s with
  | [] => Some (acc, count, [])
  | c :: s' =>
      match to_digit radix c with
      | None => Some (acc, count, s)
      | Some d =>
          let acc := (acc * radix + d)%Z in
          if decide (max < acc)%Z then None
          else if decide (max_digits < S count) then None
          else read_digits radix max max_digits (S count) acc s'
      end
  end.

Definition read_number (radix max : Z) (max_digits : nat) (allow_zero_prefix : bool) : parser Z := fun s =>
  let has_leading_zero := match s with 48%Z :: _ => true | _ => false end in
  match read_digits radix max max_digits 0 0 s with
  | None => None
  | Some (acc, count, s') =>
      if decide (count = 0) then None
      else if negb allow_zero_prefix && has_leading_zero && bool_decide (1 < count) then None
      else Some (acc, s')
  end.

Definition read_given_char (c : Z) : parser unit := fun s =>
  match s with b :: s' => if decide (b = c) then Some (tt, s') else None | [] => None end.

Definition read_separator {A} (sep : Z) (i : nat) (p : parser A) : parser A := fun s =>
  if decide (0 < i) then
    match read_given_char sep s with
    | Some (_, s') => p s'
    | None => None
    end
  else p s.

Fixpoint read_octets (n i : nat) : parser (list Z) := fun s =>
  match n with
  | O => Some ([], s)
  | S n' =>
      match read_separator DOT i (read_number 10 255 3 false) s with
      | None => None
      | Some (b, s') =>
          match read_octets n' (S i) s' with
          | None => None
          | Some (l, s'') => Some (b :: l, s'')
          end
      end
  end.

Definition read_ipv4_addr : parser (list Z) := read_octets 4 0.

Definition COLON : Z := 58.

(** [read_groups] with [n] slots left of [limit]: the octets read and whether they
    end in an embedded IPv4 address. *)
Fixpoint read_groups (limit n i : nat) (s : list Z) : list Z * bool * list Z :=
  match n with
  | O => ([], false, s)
  | S n' =>
      match (if decide (i < limit - 1) then read_separator COLON i read_ipv4_addr s else None) with
      | Some (o, s') => (o, true, s')
      | None =>
          match read_separator COLON i (read_number 16 65535 4 true) s with
          | None => ([], false, s)
          | Some (g, s') =>
              let '(l, v4, s'') := read_groups limit n' (S i) s' in
              (to_be 2 g ++ l, v4, s'')
          end
      end
  end.

Definition read_ipv6_addr : parser (list Z) := fun s =>
  let '(head, head_ipv4, s1) := read_groups 8 8 0 s in
  if decide (length head = 16) then Some (head, s1)
  else if head_ipv4 : bool then None
  else
    match read_given_char COLON s1 with
    | None => None
    | Some (_, s2) =>
        match read_given_char COLON s2 with
        | None => None
        | Some (_, s3) =>
            let limit := 8 - (length head / 2 + 1) in
            let '(tail, _, s4) := read_groups limit limit 0 s3 in
            Some (head ++ replicate (16 - length head - length tail) 0%Z ++ tail, s4)
        end
    end.

(** [s.parse::<IpAddr>()]: the whole text must be consumed. *)
Definition parse_ip (s : list Z) : option IpAddr :=
  let r := match read_ipv4_addr s with
           | Some (o, s') => Some (V4 o, s')
           | None => match read_ipv6_addr s with
                     | Some (o, s') => Some (V6 o, s')
                     | None => None
                     end
           end in
  match r with Some (ip, []) => Some ip | _ => None end.

(** [s.parse::<u32>()]: an optional plus sign, at least one digit, no overflow. *)
Fixpoint parse_digits (acc : Z) (s : list Z) : option Z :=
  match s with
  | [] => Some acc
  | c :: s' =>
      match to_digit 10 c with
      | None => None
      | Some d =>
          let acc := (acc * 10 + d)%Z in
          if decide (2 ^ 32 <= acc)%Z then None else parse_digits acc s'
      end
  end.

Definition parse_u32 (s : list Z) : option Z :=
  match s with
  | [] => None
  | [43%Z] => None
  | 43%Z :: s' => parse_digits 0 s'
  | _ => parse_digits 0 s
  end.

(** ** [parse_cidr_range] *)

Inductive cidr_error := NotAnIp | BadPrefix | PrefixTooLong.

Definition parse_cidr_range (line : list Z) : result cidr_error range :=
  let '(addr, prefix) := match split_once 47 line with
                         | Some (a, p) => (a, Some p)
                         | None => (line, None)
                         end in
  match parse_ip addr with
  | None => Err NotAnIp
  | Some ip =>
      match (match prefix with
             | Some p => match parse_u32 p with Some n => Ok (Some n) | None => Err BadPrefix end
             | None => Ok None
             end) with
      | Err e => Err e
      | Ok n =>
          match cidr_range ip n with
          | Some r => Ok r
          | None => Err PrefixTooLong
          end
      end
  end.

Definition push_cidr_line (ranges : list range) (line : list Z) : result cidr_error (list range) :=
  match parse_cidr_range line with
  | Ok (from, to) => Ok (push_range ranges from to)
  | Err e => Err e
  end.

Example parse_v4 : parse_ip (lit "192.168.0.1") = Some (V4 [192; 168; 0; 1]%Z).
Proof. vm_compute. reflexivity. Qed.

Example parse_v4_zero : parse_ip (lit "192.168.00.1") = None.
Proof. vm_compute. reflexivity. Qed.

Example parse_v6 : parse_ip (lit "2001:db8::1:1.2.3.4")
  = Some (V6 [0x20; 0x01; 0x0d; 0xb8; 0; 0; 0; 0; 0; 0; 0; 1; 1; 2; 3; 4]%Z).
Proof. vm_compute. reflexivity. Qed.

Example parse_v6_any : parse_ip (lit "::") = Some (V6 (replicate 16 0%Z)).
Proof. vm_compute. reflexivity. Qed.

Example parse_v6_bad : parse_ip (lit "1:2:3:4:5:6:7") = None.
Proof. vm_compute. reflexivity. Qed.

(** ** Reading back decimal text *)

(** Decimal text of a number below 1000, without leading zeros. *)
Definition dec (n : Z) : list Z :=
  (if decide (n < 10) then [48 + n]
   else if decide (n < 100) then [48 + n / 10; 48 + n mod 10]
   else [48 + n / 100; 48 + n / 10 mod 10; 48 + n mod 10])%Z.

Definition show_v4 (o : list Z) : list Z := join_with DOT (dec <$> o).

Definition not_digit (s : list Z) : Prop :=
  match s with [] => True | c :: _ => to_digit 10 c = None end.

Lemma to_digit_dec d : (0 <= d < 10)%Z -> to_digit 10 (48 + d) = Some d.
Proof.
  intros Hd. unfold to_digit. rewrite (decide_True (P := 48 <= 48 + d <= 57)%Z) by lia.
  replace (48 + d - 48)%Z with d by lia. by rewrite decide_True by lia.
Qed.

Lemma read_digits_stop radix max md count acc s :
  match s with [] => True | c :: _ => to_digit radix c = None end ->
  read_digits radix max md count acc s = Some (acc, count, s).
Proof. destruct s as [|c s]; cbn [read_digits]; [done|]. by intros ->. Qed.

Lemma dec_digits n :
  (0 <= n < 1000)%Z -> exists ds, dec n = (fun d => 48 + d)%Z <$> ds /\ Forall (fun d => 0 <= d < 10)%Z ds /\
    foldl (fun a d => a * 10 + d)%Z 0%Z ds = n /\ 1 <= length ds <= 3 /\ (head ds = Some 0%Z -> length ds = 1).
Proof.
  intros Hn. unfold dec. case_decide; [|case_decide].
  - exists [n]. repeat split; try (simpl; lia). apply Forall_singleton. lia.
  - exists [n / 10; n mod 10]%Z.
    assert (n = 10 * (n / 10) + n mod 10 /\ 0 <= n mod 10 < 10)%Z by (Z.to_euclidean_division_equations; lia).
    repeat split; try (simpl; lia).
    + repeat (apply Forall_cons; split; [lia|]). by apply Forall_nil.
    + intros [= Hz]. lia.
  - exists [n / 100; n / 10 mod 10; n mod 10]%Z.
    assert (n = 100 * (n / 100) + 10 * (n / 10 mod 10) + n mod 10 /\ 0 <= n mod 10 < 10 /\
      0 <= n / 10 mod 10 < 10)%Z by (Z.to_euclidean_division_equations; lia).
    repeat split; try (simpl; lia).
    + repeat (apply Forall_cons; split; [lia|]). by apply Forall_nil.
    + intros [= Hz]. lia.
Qed.

Lemma foldl_dec_mono ds a : (0 <= a)%Z -> Forall (fun d => 0 <= d < 10)%Z ds ->
  (a <= foldl (fun a d => a * 10 + d) a ds)%Z.
Proof.
  intros Ha Hds. revert a Ha. induction Hds as [|d ds Hd Hds IH]; intros a Ha; simpl; [lia|].
  specialize (IH (a * 10 + d)%Z ltac:(lia)). lia.
Qed.

Lemma read_digits_dec max md ds count acc rest :
  Forall (fun d => 0 <= d < 10)%Z ds -> (0 <= acc)%Z -> not_digit rest ->
  (foldl (fun a d => a * 10 + d) acc ds <= max)%Z -> count + length ds <= md ->
  read_digits 10 max md count acc (((fun d => 48 + d)%Z <$> ds) ++ rest)
  = Some (foldl (fun a d => a * 10 + d)%Z acc ds, count + length ds, rest).
Proof.
  intros Hds. revert count acc. induction Hds as [|d ds Hd Hds IH]; intros count acc Ha Hr Hmax Hmd.
  - simpl. rewrite read_digits_stop by done. by rewrite Nat.add_0_r.
  - simpl in Hmd. rewrite fmap_cons. cbn [app read_digits]. rewrite to_digit_dec by done.
    cbn [foldl] in *. pose proof (foldl_dec_mono ds (acc * 10 + d) ltac:(lia) Hds).
    rewrite decide_False by lia. rewrite decide_False by lia.
    rewrite IH; [|lia|done|lia|lia]. simpl. by rewrite Nat.add_succ_r.
Qed.

Lemma read_number_dec n rest :
  (0 <= n <= 255)%Z -> not_digit rest -> read_number 10 255 3 false (dec n ++ rest) = Some (n, rest).
Proof.
  intros Hn Hr. destruct (dec_digits n) as (ds & Hd & Hds & Hval & Hlen & Hz); [lia|].
  unfold read_number. rewrite Hd. rewrite read_digits_dec; [|done|lia|done|lia|lia].
  rewrite Hval. cbn [Nat.add]. rewrite decide_False by lia.
  destruct ds as [|d ds]; [simpl in Hlen; lia|]. apply Forall_cons in Hds as [Hd0 _].
  destruct (decide (1 < length (d :: ds))) as [H1|H1].
  - rewrite (bool_decide_true _ H1). assert (d <> 0)%Z by (intros ->; specialize (Hz eq_refl); lia).
    rewrite fmap_cons. cbn [app].
    assert (match (48 + d)%Z with 48%Z => true | _ => false end = false) as Hm.
    { assert (d = 1 \/ d = 2 \/ d = 3 \/ d = 4 \/ d = 5 \/ d = 6 \/ d = 7 \/ d = 8 \/ d = 9)%Z as Hc by lia.
      destruct_or! Hc; by subst. }
    rewrite Hm. done.
  - rewrite bool_decide_false by done. by rewrite andb_false_r.
Qed.

Lemma read_octets_show o i rest :
  o <> [] -> Forall (u_ok 8) o -> not_digit rest ->
  read_octets (length o) i ((if decide (0 < i) then [DOT] else []) ++ show_v4 o ++ rest) = Some (o, rest).
Proof.
  intros Hne Ho. revert i. induction Ho as [|b o Hb Ho IH]; intros i Hr; [done|].
  unfold u_ok in Hb. cbn [length read_octets]. unfold read_separator.
  assert (Hstep : forall tl, not_digit tl ->
    (if decide (0 < i) then
       match read_given_char DOT ((if decide (0 < i) then [DOT] else []) ++ dec b ++ tl) with
       | Some (_, s') => read_number 10 255 3 false s' | None => None end
     else read_number 10 255 3 false ((if decide (0 < i) then [DOT] else []) ++ dec b ++ tl)) = Some (b, tl)).
  { intros tl Htl. destruct (decide (0 < i)); cbn [app].
    - cbn [read_given_char]. rewrite decide_True by done. apply read_number_dec; [lia|done].
    - apply read_number_dec; [lia|done]. }
  destruct o as [|b' o].
  - unfold show_v4. cbn [fmap list_fmap join_with]. by rewrite Hstep.
  - unfold show_v4. rewrite !fmap_cons. rewrite join_with_cons by done. rewrite <- app_assoc. cbn [app].
    rewrite Hstep by done. specialize (IH ltac:(done) (S i) Hr).
    rewrite decide_True in IH by lia. cbn [app] in IH. unfold show_v4 in IH. rewrite fmap_cons in IH.
    rewrite IH. done.
Qed.

Lemma parse_ip_v4 o : length o = 4 -> bytes_ok o -> parse_ip (show_v4 o) = Some (V4 o).
Proof.
  intros Hl Ho. unfold parse_ip, read_ipv4_addr.
  pose proof (read_octets_show o 0 []) as H. rewrite app_nil_r, Hl in H. cbn [decide] in H.
  rewrite decide_False in H by lia. cbn [app] in H. rewrite H; [done| |done|done]. by destruct o.
Qed.

Lemma parse_u32_dec n : (0 <= n < 1000)%Z -> parse_u32 (dec n) = Some n.
Proof.
  intros Hn. destruct (dec_digits n) as (ds & Hd & Hds & Hval & Hlen & _); [done|].
  assert (Hp : forall ds acc, Forall (fun d => 0 <= d < 10)%Z ds -> (0 <= acc)%Z ->
    (foldl (fun a d => a * 10 + d) acc ds < 2 ^ 32)%Z ->
    parse_digits acc ((fun d => 48 + d)%Z <$> ds) = Some (foldl (fun a d => a * 10 + d)%Z acc ds)).
  { clear. induction ds as [|d ds IH]; intros acc Hds Ha Hlt; [done|].
    apply Forall_cons in Hds as [Hd Hds]. rewrite fmap_cons. cbn [parse_digits foldl] in *.
    rewrite to_digit_dec by done. pose proof (foldl_dec_mono ds (acc * 10 + d) ltac:(lia) Hds).
    rewrite decide_False by lia. apply IH; [done|lia|done]. }
  assert (Hpd : parse_digits 0 (dec n) = Some n) by (rewrite Hd, Hp; [by rewrite Hval|done|lia|lia]).
  rewrite <- Hpd. rewrite Hd. destruct ds as [|d ds]; [simpl in Hlen; lia|].
  apply Forall_cons in Hds as [Hd0 _]. rewrite fmap_cons.
  assert (d = 0 \/ d = 1 \/ d = 2 \/ d = 3 \/ d = 4 \/ d = 5 \/ d = 6 \/ d = 7 \/ d = 8 \/ d = 9)%Z as Hc by lia.
  destruct_or! Hc; by subst.
Qed.

(** ** CIDR text *)

Lemma dec_no_slash n : (0 <= n < 1000)%Z -> 47%Z ∉ dec n.
Proof.
  intros Hn. destruct (dec_digits n Hn) as (ds & -> & Hds & _). rewrite list_elem_of_fmap.
  intros (d & Hd & Hin). rewrite Forall_forall in Hds. apply Hds in Hin. lia.
Qed.

Lemma show_v4_no_slash o : bytes_ok o -> 47%Z ∉ show_v4 o.
Proof.
  unfold show_v4. induction 1 as [|b o Hb Ho IH]; [apply not_elem_of_nil|]. unfold u_ok in Hb.
  assert (47%Z ∉ dec b) by (apply dec_no_slash; lia).
  destruct o as [|b' o]; [done|]. rewrite fmap_cons, join_with_cons by done.
  rewrite not_elem_of_app, not_elem_of_cons. done.
Qed.

(** The text [a.b.c.d/p] parses to the range of exactly the addresses that share
    the first [p] bits with [a.b.c.d] when [p] is at most 32, and to an error
    otherwise; the bare text [a.b.c.d] parses to the single-address range; both for
    every address and every prefix length written in decimal. *)
Theorem parse_cidr_range_v4 o p v :
  length o = 4 -> bytes_ok o -> (0 <= p < 1000)%Z -> u_ok 128 v ->
  (exists r, parse_cidr_range (show_v4 o) = Ok r /\ (in_range_of v r <-> v = to_u128 (V4 o))) /\
  (if decide (p <= 32)%Z then
     exists r, parse_cidr_range (show_v4 o ++ 47%Z :: dec p) = Ok r /\
       (in_range_of v r <-> (v / 2 ^ (32 - p) = to_u128 (V4 o) / 2 ^ (32 - p))%Z)
   else parse_cidr_range (show_v4 o ++ 47%Z :: dec p) = Err PrefixTooLong).
Proof.
  intros Hl Ho Hp Hv. unfold parse_cidr_range.
  rewrite split_once_none, split_once_app by by apply show_v4_no_slash.
  rewrite parse_ip_v4, parse_u32_dec by done.
  assert (Hb : (8 * Z.of_nat (addr_len (V4 o)) = 32)%Z) by done. split.
  - change (cidr_range (V4 o) None) with (cidr_range (V4 o) (Some 32%Z)).
    pose proof (cidr_range_spec (V4 o) 32 v Hl Ho ltac:(lia) Hv) as H. cbv zeta in H. rewrite Hb in H.
    destruct (cidr_range (V4 o) (Some 32%Z)) as [r|]; [|lia]. exists r. split; [done|].
    destruct H as [_ ->]. by rewrite Z.sub_diag, Z.pow_0_r, !Z.div_1_r.
  - pose proof (cidr_range_spec (V4 o) p v Hl Ho ltac:(lia) Hv) as H. cbv zeta in H. rewrite Hb in H.
    destruct (cidr_range (V4 o) (Some p)) as [r|]; case_decide; [|lia|lia|done].
    exists r. split; [done|]. apply H.
Qed.

Lemma parse_cidr_range_v4_witness :
  show_v4 [10; 0; 0; 128]%Z ++ 47%Z :: dec 24 = lit "10.0.0.128/24" /\
  exists r, parse_cidr_range (lit "10.0.0.128/24") = Ok r /\ in_range_of (to_u128 (V4 [10; 0; 0; 7]%Z)) r.
Proof.
  split; [vm_compute; reflexivity|].
  destruct (parse_cidr_range_v4 [10; 0; 0; 128]%Z 24 (to_u128 (V4 [10; 0; 0; 7]%Z)) eq_refl) as [_ H];
    [apply bytes_check; vm_compute; reflexivity|lia|vm_compute; split; [discriminate|reflexivity]|].
  rewrite decide_True in H by lia. destruct H as (r & Hr & Hin). exists r. split; [exact Hr|].
  apply Hin. vm_compute. reflexivity.
Defined.

(** ** Parsed values are in range *)

Lemma to_digit_nonneg radix c d : to_digit radix c = Some d -> (0 <= d)%Z.
Proof.
  unfold to_digit. intros Hd. repeat case_decide; simplify_eq; lia.
Qed.

Lemma read_digits_bound radix max md count acc s r n s' :
  (0 <= radix)%Z -> (0 <= acc <= max)%Z ->
  read_digits radix max md count acc s = Some (r, n, s') -> (0 <= r <= max)%Z.
Proof.
  intros Hradix. revert count acc. induction s as [|c s IH]; intros count acc Hacc; cbn [read_digits].
  - by intros [= <- <- <-].
  - destruct (to_digit radix c) as [d|] eqn:Hd; [|by intros [= <- <- <-]].
    apply to_digit_nonneg in Hd. case_decide; [done|]. case_decide; [done|]. apply IH. nia.
Qed.

Lemma read_number_bound radix max md z s r s' :
  (0 <= radix)%Z -> (0 <= max)%Z -> read_number radix max md z s = Some (r, s') -> (0 <= r <= max)%Z.
Proof.
  intros Hr Hm. unfold read_number.
  destruct (read_digits radix max md 0 0 s) as [[[a n] s1]|] eqn:Hd; [|done].
  apply read_digits_bound in Hd; [|lia|lia]. case_decide; [done|]. destruct (_ && _ && _); [done|].
  by intros [= <- <-].
Qed.

Lemma read_separator_some {A} sep i (p : parser A) s r :
  read_separator sep i p s = Some r -> exists s0, p s0 = Some r.
Proof.
  unfold read_separator. case_decide; [|by eexists].
  destruct (read_given_char sep s) as [[[] s1]|]; [by eexists|done].
Qed.

Lemma read_octets_ok n i s o s' : read_octets n i s = Some (o, s') -> length o = n /\ bytes_ok o.
Proof.
  revert i s o s'. induction n as [|n IH]; intros i s o s'; cbn [read_octets].
  - intros [= <- <-]. split; [done|by apply Forall_nil].
  - destruct (read_separator DOT i _ s) as [[b s1]|] eqn:Hb; [|done].
    apply read_separator_some in Hb as [s0 Hb]. apply read_number_bound in Hb; [|lia|lia].
    destruct (read_octets n (S i) s1) as [[l s2]|] eqn:Hl; [|done]. intros [= <- <-].
    apply IH in Hl as [<- Hl]. split; [done|]. constructor; [unfold u_ok; lia|done].
Qed.

Lemma read_groups_ok limit n i s l v4 s' :
  n + i = limit -> read_groups limit n i s = (l, v4, s') ->
  length l <= 2 * n /\ bytes_ok l /\ (exists k, length l = 2 * k).
Proof.
  revert i s l v4 s'. induction n as [|n IH]; intros i s l v4 s' Hn; cbn [read_groups].
  - intros [= <- <- <-]. split; [done|]. split; [by apply Forall_nil|by exists 0].
  - destruct (if decide (i < limit - 1) then _ else _) as [[o s1]|] eqn:Ho.
    + case_decide; [|done]. apply read_separator_some in Ho as [s0 Ho].
      apply read_octets_ok in Ho as [Hlen Hok]. intros [= <- <- <-].
      split; [lia|]. split; [done|]. exists 2. lia.
    + clear Ho. destruct (read_separator COLON i (read_number 16 65535 4 true) s) as [[g s1]|].
      2: { intros [= <- <- <-]. split; [simpl; lia|]. split; [by apply Forall_nil|by exists 0]. }
      destruct (read_groups limit n (S i) s1) as [[l1 v1] s2] eqn:Hg. intros [[<- <-]%pair_equal_spec <-]%pair_equal_spec.
      apply IH in Hg as (H1 & H2 & [k H3]); [|lia]. rewrite length_app, length_to_be. split; [lia|].
      split; [bytes|]. exists (S k). lia.
Qed.

Lemma read_ipv6_addr_ok s o s' : read_ipv6_addr s = Some (o, s') -> length o = 16 /\ bytes_ok o.
Proof.
  unfold read_ipv6_addr. intros H6. destruct (read_groups 8 8 0 s) as [[h v] s2] eqn:Hh.
  apply read_groups_ok in Hh as (Hl & Hok & [k Hk]); [|done].
  case_decide as H16; [injection H6 as <- _; done|]. destruct v; [done|].
  destruct (read_given_char COLON s2) as [[[] s3]|]; [|done].
  destruct (read_given_char COLON s3) as [[[] s4]|]; [|done].
  set (limit := 8 - (length h / 2 + 1)) in *. destruct (read_groups limit limit 0 s4) as [[t vt] s5] eqn:Ht.
  apply read_groups_ok in Ht as (Htl & Htok & _); [|lia]. injection H6 as <- _.
  assert (length h / 2 = k) as Hdiv by (rewrite Hk, Nat.mul_comm; by apply Nat.div_mul).
  split.
  - rewrite !length_app, length_replicate. lia.
  - apply Forall_app; split; [done|]. apply Forall_app; split; [|done].
    apply Forall_replicate. unfold u_ok. lia.
Qed.

Lemma parse_ip_ok s ip : parse_ip s = Some ip -> length (addr_octets ip) = addr_len ip /\ bytes_ok (addr_octets ip).
Proof.
  unfold parse_ip. destruct (read_ipv4_addr s) as [[o s1]|] eqn:H4.
  { destruct s1; [|done]. intros [= <-]. by apply read_octets_ok in H4. }
  destruct (read_ipv6_addr s) as [[o s1]|] eqn:H6; [|done]. destruct s1; [|done]. intros [= <-]. by apply read_ipv6_addr_ok in H6.
Qed.

Lemma parse_digits_nonneg acc s n : (0 <= acc)%Z -> parse_digits acc s = Some n -> (0 <= n)%Z.
Proof.
  revert acc. induction s as [|c s IH]; intros acc Ha; cbn [parse_digits]; [by intros [= <-]|].
  destruct (to_digit 10 c) as [d|] eqn:Hd; [|done]. apply to_digit_nonneg in Hd.
  case_decide; [done|]. apply IH. lia.
Qed.

Lemma parse_u32_nonneg s n : parse_u32 s = Some n -> (0 <= n)%Z.
Proof.
  unfold parse_u32. intros Hn.
  repeat case_match; simplify_eq; (eapply parse_digits_nonneg; [|exact Hn]; lia).
Qed.

Lemma cidr_range_bounds ip n r :
  length (addr_octets ip) = addr_len ip -> bytes_ok (addr_octets ip) ->
  match n with Some p => (0 <= p)%Z | None => True end ->
  cidr_range ip n = Some r -> (0 <= fst r <= snd r /\ snd r <= U128_MAX)%Z.
Proof.
  intros Hl Ho Hn. pose proof (u_ok_to_u128 ip Hl Ho) as Hb. unfold u_ok in Hb. unfold cidr_range.
  set (fb := match ip with V4 _ => 32%Z | V6 _ => 128%Z end).
  assert (Hfb : (0 < fb <= 128)%Z) by (unfold fb; destruct ip; lia).
  assert (Hp : (0 <= default fb n)%Z) by (destruct n; cbn; unfold id; lia). set (p := default fb n) in *.
  case_decide; [done|]. intros [= <-]. cbn [fst snd]. set (b := to_u128 ip) in *.
  case_decide as Hh.
  - rewrite Z.land_0_r, Z.lxor_0_l.
    assert (Z.lor b U128_MAX = U128_MAX) as ->; [|unfold U128_MAX; lia].
    unfold U128_MAX. replace (2 ^ 128 - 1)%Z with (Z.ones 128) by (rewrite Z.ones_equiv; lia).
    apply Z.lor_ones_low; [lia|]. destruct (decide (b = 0)%Z) as [->|]; [cbn; lia|].
    apply Z.log2_lt_pow2; lia.
  - destruct (lor_not_mask b (fb - p)) as [-> ->]; [done|lia|].
    set (h := (fb - p)%Z) in *. assert (0 < 2 ^ h)%Z by (apply Z.pow_pos_nonneg; lia).
    assert (Hpow : (2 ^ 128 = 2 ^ (128 - h) * 2 ^ h)%Z) by (rewrite <- Z.pow_add_r by lia; f_equal; lia).
    assert (b / 2 ^ h < 2 ^ (128 - h))%Z by (apply Z.div_lt_upper_bound; lia).
    assert (0 <= b / 2 ^ h)%Z by (apply Z.div_pos; lia). unfold U128_MAX. nia.
Qed.

Lemma push_cidr_line_ok ranges line ranges' :
  ranges_ok ranges -> push_cidr_line ranges line = Ok ranges' -> ranges_ok ranges'.
Proof.
  intros Hr. unfold push_cidr_line, parse_cidr_range.
  destruct (split_once 47 line) as [[a p]|]; (destruct (parse_ip _) as [ip|] eqn:Hip; [|done]);
    apply parse_ip_ok in Hip as [Hl Ho].
  - destruct (parse_u32 p) as [n|] eqn:Hn; [|done]. apply parse_u32_nonneg in Hn.
    destruct (cidr_range ip (Some n)) as [[f t]|] eqn:Hc; [|done]. apply cidr_range_bounds in Hc; [|done..].
    intros [= <-]. unfold push_range. case_decide; [|done]. apply Forall_app. split; [done|]. by apply Forall_singleton.
  - destruct (cidr_range ip None) as [[f t]|] eqn:Hc; [|done]. apply cidr_range_bounds in Hc; [|done..].
    intros [= <-]. unfold push_range. case_decide; [|done]. apply Forall_app. split; [done|]. by apply Forall_singleton.
Qed.
