(* ===== verification/RankBitmap.v ===== *)
(** * The rank/select bitmap of the rule-set decoder (src/src/mrs.rs, RankBitmap)

    A bitmap of 64-bit words with prefix popcounts.  [get], [rank1], [rank0] and
    [select1] are shown to read, count and find bits of the flattened bit list,
    and to stay in range on every argument. *)

From S2P Require Import Prelude IpRange.

(** ** Bits of a word *)

Definition word_bits (w : Z) : list bool := (fun i => Z.testbit w (Z.of_nat i)) <$> seq 0 64.

Fixpoint ctrue (l : list bool) : nat :=
  match l with
  | [] => 0
  | b :: l' => (if b then 1 else 0) + ctrue l'
  end.

(** [w.count_ones()] and [w.trailing_zeros()] *)
Definition count_ones (w : Z) : Z := Z.of_nat (ctrue (word_bits w)).

Fixpoint leading_false (l : list bool) : nat :=
  match l with
  | false :: l' => S (leading_false l')
  | _ => 0
  end.

Definition trailing_zeros (w : Z) : nat := leading_false (word_bits w).

(** ** Definitions *)

Record RankBitmap := mkRankBitmap {
  words : list Z;
  prefix : list Z
}.

(** The accumulation loop of [RankBitmap::new]. *)
Fixpoint prefix_loop (ws : list Z) (acc : Z) : list Z :=
  match ws with
  | [] => []
  | w :: ws' => let acc := (acc + count_ones w)%Z in acc :: prefix_loop ws' acc
  end.

Definition bitmap_new (ws : list Z) : RankBitmap := mkRankBitmap ws (0%Z :: prefix_loop ws 0).

Definition total_bits (self : RankBitmap) : nat := length (words self) * 64.

Definition bm_get (self : RankBitmap) (i : nat) : outcome (option bool) :=
  if decide (total_bits self <= i) then Ret None
  else
    let! w := idx (words self) (Nat.shiftr i 6) in
    Ret (Some (bool_decide (Z.land (Z.shiftr w (Z.of_nat (Nat.land i 63))) 1 <> 0)%Z)).

Definition rank1 (self : RankBitmap) (i : nat) : outcome (option nat) :=
  if decide (total_bits self < i) then Ret None
  else
    let word_idx := Nat.shiftr i 6 in
    let bit := Nat.land i 63 in
    let mask := if decide (bit = 0) then 0%Z
                else Z.shiftr (2 ^ 64 - 1) (64 - Z.of_nat bit) in
    let word := default 0%Z (words self !! word_idx) in
    let! p := idx (prefix self) word_idx in
    Ret (Some (Z.to_nat p + Z.to_nat (count_ones (Z.land word mask)))).

Definition rank0 (self : RankBitmap) (i : nat) : outcome (option nat) :=
  let? r := rank1 self i in
  let! d := usub i r in
  Ret (Some d).

(** One turn per set bit of the word, at most 64, and one that finds zero. *)
Fixpoint select1_loop (fuel : nat) (word : Z) (remaining : nat) : outcome (option nat) :=
  match fuel with
  | O => OutOfFuel
  | S fuel' =>
      if decide (word = 0)%Z then Ret None
      else
        let tz := trailing_zeros word in
        if decide (remaining = 0) then Ret (Some tz)
        else
          let! remaining := usub remaining 1 in
          select1_loop fuel' (Z.land word (word - 1)) remaining
  end.

Definition select1_in_word (word : Z) (k : nat) : outcome (option nat) := select1_loop 65 word k.

Definition select1 (self : RankBitmap) (k : nat) : outcome (option nat) :=
  let k := Z.of_nat k in
  let pp := partition_point (fun c => bool_decide (c <= k)%Z) (prefix self) in
  if decide (pp = 0) then Ret None
  else
    let word_idx := pp - 1 in
    match words self !! word_idx with
    | None => Ret None
    | Some word =>
        let! p := idx (prefix self) word_idx in
        if decide (k < p)%Z then Panic
        else
          let? s := select1_in_word word (Z.to_nat (k - p)) in
          Ret (Some (word_idx * 64 + s))
    end.

(** ** The bit list *)

Fixpoint flat_bits (ws : list Z) : list bool :=
  match ws with
  | [] => []
  | w :: ws' => word_bits w ++ flat_bits ws'
  end.

Definition bm_bits (self : RankBitmap) : list bool := flat_bits (words self).

Fixpoint select_true (k : nat) (l : list bool) : option nat :=
  match l with
  | [] => None
  | true :: l' => match k with O => Some 0 | S k' => S <$> select_true k' l' end
  | false :: l' => S <$> select_true k l'
  end.

Lemma length_word_bits w : length (word_bits w) = 64.
Proof. unfold word_bits. by rewrite length_fmap, length_seq. Qed.

Lemma lookup_word_bits w i : i < 64 -> word_bits w !! i = Some (Z.testbit w (Z.of_nat i)).
Proof. intros. unfold word_bits. rewrite list_lookup_fmap, lookup_seq_lt by done. done. Qed.

Lemma ctrue_app l k : ctrue (l ++ k) = ctrue l + ctrue k.
Proof. induction l as [|[] l IH]; simpl; lia. Qed.

Lemma ctrue_le l : ctrue l <= length l.
Proof. induction l as [|[] l IH]; simpl; lia. Qed.

Lemma ctrue_replicate_false n : ctrue (replicate n false) = 0.
Proof. by induction n. Qed.

Lemma select_true_Some k l p :
  select_true k l = Some p <-> l !! p = Some true /\ ctrue (take p l) = k.
Proof.
  revert k p. induction l as [|b l IH]; intros k p; simpl.
  - rewrite lookup_nil. split; [done|by intros []].
  - destruct b; [destruct k as [|k]|]; simpl; rewrite ?fmap_Some; try setoid_rewrite IH;
      destruct p as [|p]; simpl; split; try (by intros []); try done.
    + intros (x & _ & ?). lia.
    + intros (x & [? ?] & [= ->]). split; [done|lia].
    + intros [? ?]. exists p. split; [split; [done|lia]|done].
    + intros (x & _ & ?). lia.
    + intros (x & [? ?] & [= ->]). done.
    + intros [? ?]. exists p. done.
Qed.

Lemma select_true_None k l : ctrue l <= k -> select_true k l = None.
Proof.
  revert k. induction l as [|[] l IH]; intros k Hk; simpl in *; [done| |].
  - destruct k; [lia|]. rewrite IH by lia. done.
  - rewrite IH by lia. done.
Qed.

Lemma select_true_app k l m :
  select_true k (l ++ m)
  = if decide (k < ctrue l) then select_true k l
    else (fun p => length l + p) <$> select_true (k - ctrue l) m.
Proof.
  revert k. induction l as [|[] l IH]; intros k; simpl.
  - rewrite Nat.sub_0_r. by destruct (select_true k m).
  - destruct k as [|k]; [by rewrite decide_True by lia|]. rewrite IH. simpl.
    destruct (decide (k < ctrue l)); [rewrite decide_True by lia; done|].
    rewrite decide_False by lia. by destruct (select_true _ m).
  - rewrite IH. destruct (decide _); [done|]. by destruct (select_true _ m).
Qed.

(** ** Clearing the lowest set bit *)

Lemma word_bits_zero w : (0 <= w < 2 ^ 64)%Z -> ctrue (word_bits w) = 0 -> w = 0%Z.
Proof.
  intros Hw Hc. apply Z.bits_inj'. intros i Hi. rewrite Z.bits_0.
  destruct (decide (i < 64)%Z) as [Hlt|Hge].
  - destruct (Z.testbit w i) eqn:Hb; [|done]. exfalso.
    assert (word_bits w !! Z.to_nat i = Some true) as Hl
      by (rewrite lookup_word_bits by lia; rewrite Z2Nat.id by lia; by rewrite Hb).
    apply take_drop_middle in Hl. rewrite <- Hl, ctrue_app in Hc. simpl in Hc. lia.
  - destruct (decide (w = 0)%Z) as [->|]; [apply Z.bits_0|].
    apply Z.bits_above_log2; [lia|]. apply Z.log2_lt_pow2; [lia|].
    eapply Z.lt_le_trans; [apply Hw|]. apply Z.pow_le_mono_r; lia.
Qed.

Lemma leading_false_split l :
  0 < ctrue l -> exists r, l = replicate (leading_false l) false ++ true :: r.
Proof.
  induction l as [|[] l IH]; simpl; intros Hc; [lia|by eexists|].
  destruct IH as [r Hr]; [done|]. exists r. by rewrite <- Hr.
Qed.

(** Clearing the lowest set bit [t]: the bits above are kept. *)
Lemma lowest_bit_clear w t i :
  (0 <= t)%Z -> (forall j, 0 <= j < t -> Z.testbit w j = false)%Z -> Z.testbit w t = true ->
  (0 <= i)%Z ->
  Z.testbit (Z.land w (w - 1)) i = if decide (i = t) then false else Z.testbit w i.
Proof.
  intros Ht Hlow Hbit Hi. rewrite Z.land_spec.
  destruct (decide (i < t)%Z) as [Hlt|Hge].
  { rewrite Hlow by lia. by case_decide. }
  assert (w mod 2 ^ t = 0)%Z as Hmod.
  { apply Z.bits_inj'. intros j Hj. rewrite Z.bits_0.
    destruct (decide (j < t)%Z); [rewrite Z.mod_pow2_bits_low by lia; apply Hlow; lia|].
    by rewrite Z.mod_pow2_bits_high by lia. }
  set (u := (w / 2 ^ t)%Z).
  assert (w = 2 ^ t * u)%Z as Hw by (unfold u; apply Z_div_exact_full_2; [lia|done]).
  assert (Z.testbit u 0 = true) as Hu0.
  { unfold u. rewrite Z.div_pow2_bits by lia. by replace (0 + t)%Z with t by lia. }
  rewrite Z.bit0_odd in Hu0. apply Z.odd_spec in Hu0 as [v Hv].
  assert ((w - 1) / 2 ^ t = 2 * v)%Z as Hdiv.
  { rewrite Hw, Hv. symmetry. apply (Z.div_unique _ _ _ (2 ^ t - 1)); [|lia].
    left. pose proof (Z.pow_pos_nonneg 2 t). lia. }
  replace i with ((i - t) + t)%Z at 1 2 by lia.
  rewrite <- !Z.div_pow2_bits by lia. rewrite Hdiv. fold u. rewrite Hv.
  case_decide as Heq.
  - subst i. rewrite Z.sub_diag, Z.testbit_even_0. apply andb_false_r.
  - replace i with ((i - t) + t)%Z at 3 by lia. rewrite <- Z.div_pow2_bits by lia. fold u.
    rewrite Hv. replace (i - t)%Z with (Z.succ (i - t - 1)) by lia.
    rewrite Z.testbit_odd_succ, Z.testbit_even_succ by lia. apply andb_diag.
Qed.

Lemma word_bits_clear_lowest w r :
  word_bits w = replicate (trailing_zeros w) false ++ true :: r ->
  word_bits (Z.land w (w - 1)) = replicate (trailing_zeros w) false ++ false :: r.
Proof.
  set (t := trailing_zeros w). intros Hw.
  assert (Hlen : t + S (length r) = 64).
  { pose proof (length_word_bits w) as H. rewrite Hw in H. revert H. len. }
  assert (Hbit : forall i, i < 64 -> Some (Z.testbit w (Z.of_nat i))
                         = (replicate t false ++ true :: r) !! i).
  { intros i Hi. by rewrite <- Hw, lookup_word_bits. }
  apply list_eq_same_length with 64; [len|apply length_word_bits|].
  intros i x y Hi. rewrite lookup_word_bits by done. intros [= <-].
  rewrite (lowest_bit_clear w (Z.of_nat t)); [|lia| | |lia].
  - specialize (Hbit i Hi). destruct (decide (i < t)).
    + rewrite decide_False by lia. rewrite lookup_app_l in * by len.
      rewrite lookup_replicate_2 in * by done. congruence.
    + rewrite lookup_app_r in * by len. rewrite length_replicate in *.
      destruct (decide (i = t)) as [->|].
      * rewrite decide_True by done. rewrite Nat.sub_diag. simpl. congruence.
      * rewrite decide_False by lia. replace (i - t) with (S (i - t - 1)) in * by lia.
        simpl in *. congruence.
  - intros j Hj. specialize (Hbit (Z.to_nat j)). rewrite Z2Nat.id in Hbit by lia.
    rewrite lookup_app_l in Hbit by len. rewrite lookup_replicate_2 in Hbit by lia.
    injection (Hbit ltac:(lia)). done.
  - specialize (Hbit t ltac:(lia)). rewrite list_lookup_middle in Hbit by len. congruence.
Qed.

Lemma select_true_skip t k l : select_true k (replicate t false ++ l) = Nat.add t <$> select_true k l.
Proof.
  rewrite select_true_app, ctrue_replicate_false, length_replicate.
  rewrite decide_False by lia. by rewrite Nat.sub_0_r.
Qed.

Lemma land_pred_range w : (0 <= w < 2 ^ 64)%Z -> (0 <= Z.land w (w - 1) < 2 ^ 64)%Z.
Proof.
  intros Hw. assert (0 <= Z.land w (w - 1))%Z as Hn by (apply Z.land_nonneg; lia).
  split; [done|]. apply Z.bounded_iff_bits_nonneg; [lia|done|]. intros l Hl.
  rewrite Z.land_spec. by rewrite (proj1 (Z.bounded_iff_bits_nonneg 64 w ltac:(lia) ltac:(lia))) by lia.
Qed.

Lemma select1_loop_spec fuel w k :
  (0 <= w < 2 ^ 64)%Z -> ctrue (word_bits w) < fuel ->
  select1_loop fuel w k = Ret (select_true k (word_bits w)).
Proof.
  revert w k. induction fuel as [|fuel IH]; intros w k Hw Hf; [lia|]. cbn [select1_loop].
  destruct (decide (w = 0)%Z) as [->|Hnz]; [by rewrite select_true_None by (vm_compute; lia)|].
  destruct (leading_false_split (word_bits w)) as [r Hr].
  { destruct (ctrue (word_bits w)) eqn:Hc; [|lia]. by apply word_bits_zero in Hc. }
  fold (trailing_zeros w) in Hr. rewrite Hr, select_true_skip.
  destruct (decide (k = 0)) as [->|Hk]; [simpl; by rewrite Nat.add_0_r|].
  rewrite usub_Ret by lia. cbn [obind]. pose proof (word_bits_clear_lowest _ _ Hr) as Hcl.
  rewrite IH; [| by apply land_pred_range |].
  - rewrite Hcl, select_true_skip. destruct k as [|k]; [lia|]. simpl. by rewrite Nat.sub_0_r.
  - revert Hf. rewrite Hr, Hcl, !ctrue_app. simpl. lia.
Qed.

Lemma select1_in_word_spec w k :
  (0 <= w < 2 ^ 64)%Z -> select1_in_word w k = Ret (select_true k (word_bits w)).
Proof.
  intros Hw. apply select1_loop_spec; [done|].
  pose proof (ctrue_le (word_bits w)). rewrite length_word_bits in *. lia.
Qed.

(** ** Blocks of 64 bits *)

Lemma flat_bits_app ws vs : flat_bits (ws ++ vs) = flat_bits ws ++ flat_bits vs.
Proof. induction ws as [|w ws IH]; [done|]. cbn [app flat_bits]. by rewrite IH, app_assoc. Qed.

Lemma length_flat ws : length (flat_bits ws) = length ws * 64.
Proof.
  induction ws as [|w ws IH]; [done|]. cbn [flat_bits length].
  rewrite length_app, length_word_bits, IH. lia.
Qed.

Lemma flat_split ws n w :
  ws !! n = Some w ->
  flat_bits ws
  = flat_bits (take n ws) ++ word_bits w ++ flat_bits (drop (S n) ws).
Proof.
  intros Hn. rewrite <- (take_drop_middle _ _ _ Hn) at 1.
  by rewrite flat_bits_app.
Qed.

Lemma prefix_loop_lookup ws acc n :
  n < length ws -> (0 <= acc)%Z ->
  prefix_loop ws acc !! n = Some (acc + Z.of_nat (ctrue (flat_bits (take (S n) ws))))%Z.
Proof.
  revert acc n. induction ws as [|w ws IH]; intros acc n Hn Hacc; [simpl in Hn; lia|].
  cbn [prefix_loop take flat_bits]. rewrite ctrue_app.
  destruct n as [|n].
  - cbn [lookup list_lookup]. rewrite take_0. cbn [flat_bits ctrue]. f_equal. unfold count_ones. lia.
  - cbn [lookup list_lookup]. etrans; [apply IH; [simpl in Hn; lia|unfold count_ones; lia]|].
    f_equal. unfold count_ones. lia.
Qed.

Definition bitmap_ok (self : RankBitmap) : Prop :=
  Forall (fun w => 0 <= w < 2 ^ 64)%Z (words self) /\ self = bitmap_new (words self).

Lemma prefix_lookup self n :
  bitmap_ok self -> n <= length (words self) ->
  prefix self !! n = Some (Z.of_nat (ctrue (flat_bits (take n (words self))))).
Proof.
  intros [_ ->] Hn. cbn [words prefix bitmap_new] in *. destruct n as [|n]; [by rewrite take_0|].
  cbn [lookup list_lookup]. etrans; [apply prefix_loop_lookup; lia|]. f_equal.
Qed.

Lemma length_prefix self : bitmap_ok self -> length (prefix self) = S (length (words self)).
Proof.
  intros [_ ->]. cbn. f_equal. generalize 0%Z. induction (words self) as [|w ws IH]; [done|].
  intros acc. simpl. by rewrite IH.
Qed.

Lemma shiftr6 i : Nat.shiftr i 6 = i / 64.
Proof. by rewrite Nat.shiftr_div_pow2. Qed.

Lemma land63 i : Nat.land i 63 = i mod 64.
Proof. exact (Nat.land_ones i 6). Qed.

Lemma take_flat ws n w r :
  ws !! n = Some w -> r <= 64 -> take (n * 64 + r) (flat_bits ws) = flat_bits (take n ws) ++ take r (word_bits w).
Proof.
  intros Hn Hr. assert (n < length ws) as Hlt by (by apply lookup_lt_is_Some_1; eexists).
  assert (Hl : length (flat_bits (take n ws)) = n * 64) by (rewrite length_flat, length_take; lia).
  rewrite (flat_split _ _ _ Hn). rewrite take_app, Hl.
  rewrite take_ge by lia. f_equal. replace (n * 64 + r - n * 64) with r by lia.
  rewrite take_app_le; [done|]. rewrite length_word_bits. lia.
Qed.

Lemma mask_eq bit : 0 < bit < 64 -> Z.shiftr (2 ^ 64 - 1) (64 - Z.of_nat bit) = Z.ones (Z.of_nat bit).
Proof.
  intros Hb. rewrite Z.shiftr_div_pow2 by lia. rewrite Z.ones_equiv.
  symmetry. apply (Z.div_unique _ _ _ (2 ^ (64 - Z.of_nat bit) - 1)).
  - left. pose proof (Z.pow_pos_nonneg 2 (64 - Z.of_nat bit)). lia.
  - assert (2 ^ 64 = 2 ^ (64 - Z.of_nat bit) * 2 ^ Z.of_nat bit)%Z as ->; [|lia].
    rewrite <- Z.pow_add_r by lia. f_equal. lia.
Qed.

Lemma word_bits_mask w bit :
  bit <= 64 -> word_bits (Z.land w (Z.ones (Z.of_nat bit))) = take bit (word_bits w) ++ replicate (64 - bit) false.
Proof.
  intros Hb. apply list_eq_same_length with 64; [|apply length_word_bits|].
  { rewrite length_app, length_take, length_word_bits, length_replicate. lia. }
  intros i x y Hi. rewrite lookup_word_bits by done. intros [= <-].
  rewrite Z.land_spec. destruct (decide (i < bit)).
  - rewrite Z.ones_spec_low by lia. rewrite andb_true_r.
    rewrite lookup_app_l by (rewrite length_take, length_word_bits; lia).
    rewrite lookup_take_lt, lookup_word_bits by lia. congruence.
  - rewrite Z.ones_spec_high by lia. rewrite andb_false_r.
    rewrite lookup_app_r by (rewrite length_take, length_word_bits; lia).
    rewrite length_take, length_word_bits. rewrite lookup_replicate_2 by lia. congruence.
Qed.

Lemma bm_get_spec self i : bm_get self i = Ret (bm_bits self !! i).
Proof.
  unfold bm_get, bm_bits, total_bits. case_decide as Hi.
  { rewrite lookup_ge_None_2; [done|]. by rewrite length_flat. }
  rewrite shiftr6, land63. pose proof (Nat.div_mod_eq i 64) as Hdm.
  pose proof (Nat.mod_upper_bound i 64) as Hr.
  destruct (lookup_lt_is_Some_2 (words self) (i / 64)) as [w Hw].
  { apply Nat.Div0.div_lt_upper_bound. lia. }
  rewrite (idx_lookup _ _ _ Hw). cbn [obind]. f_equal.
  assert (n : i / 64 < length (words self)) by (by apply lookup_lt_is_Some_1; eexists).
  rewrite (flat_split _ _ _ Hw).
  assert (Hl : length (flat_bits (take (i / 64) (words self))) = i / 64 * 64)
    by (rewrite length_flat, length_take; lia).
  rewrite lookup_app_r, Hl by lia. replace (i - i / 64 * 64) with (i mod 64) by lia.
  rewrite lookup_app_l by (rewrite length_word_bits; lia). rewrite lookup_word_bits by lia.
  f_equal. change 1%Z with (Z.ones 1). rewrite Z.land_ones by lia. change (2 ^ 1)%Z with 2%Z.
  rewrite <- Z.bit0_mod, Z.shiftr_spec, Z.add_0_l by lia.
  by destruct (Z.testbit w _).
Qed.

Lemma rank1_spec self i :
  bitmap_ok self ->
  rank1 self i = Ret (if decide (i <= total_bits self) then Some (ctrue (take i (bm_bits self))) else None).
Proof.
  intros Hok. unfold rank1, total_bits, bm_bits. case_decide as Hi; [by rewrite decide_False by lia|].
  rewrite (decide_True (P := i <= length (words self) * 64)) by lia. rewrite shiftr6, land63.
  pose proof (Nat.div_mod_eq i 64) as Hdm. pose proof (Nat.mod_upper_bound i 64) as Hr.
  assert (Hq : i / 64 <= length (words self)) by (apply Nat.Div0.div_le_upper_bound; lia).
  rewrite (idx_lookup _ _ _ (prefix_lookup _ _ Hok Hq)). cbn [obind]. rewrite Nat2Z.id. do 2 f_equal.
  set (n := i / 64) in *. set (r := i mod 64) in *. clearbody n r. subst i.
  destruct (decide (r = 0)) as [->|Hr0].
  - rewrite Z.land_0_r. change (Z.to_nat (count_ones 0)) with 0. rewrite !Nat.add_0_r. f_equal.
    rewrite Nat.mul_comm. rewrite <- (take_drop n (words self)) at 2.
    rewrite flat_bits_app, take_app_length'; [done|]. rewrite length_flat, length_take. lia.
  - destruct (lookup_lt_is_Some_2 (words self) n) as [w Hw]; [lia|]. rewrite Hw. cbn [default].
    rewrite (Nat.mul_comm 64 n), (take_flat _ _ _ _ Hw) by lia.
    rewrite ctrue_app, mask_eq by lia. unfold count_ones. rewrite Nat2Z.id.
    rewrite word_bits_mask by lia. rewrite ctrue_app, ctrue_replicate_false. simpl. lia.
Qed.

Lemma ctrue_take_le n l : ctrue (take n l) <= n.
Proof. etrans; [apply ctrue_le|]. rewrite length_take. lia. Qed.

Lemma rank0_spec self i :
  bitmap_ok self ->
  rank0 self i = Ret (if decide (i <= total_bits self) then Some (i - ctrue (take i (bm_bits self))) else None).
Proof.
  intros Hok. unfold rank0. rewrite rank1_spec by done. case_decide; [|done].
  cbn [obind_opt]. by rewrite usub_Ret by apply ctrue_take_le.
Qed.

Lemma partition_point_spec {A} (p : A -> bool) l :
  partition_point p l <= length l /\
  (forall i x, i < partition_point p l -> l !! i = Some x -> p x = true) /\
  (forall x, l !! partition_point p l = Some x -> p x = false).
Proof.
  induction l as [|y l (H1 & H2 & H3)]; simpl.
  - split; [done|]. split; [lia|done].
  - destruct (p y) eqn:Hy.
    + split; [lia|]. split; [|done]. intros [|i] x Hi; simpl; [congruence|]. apply H2. lia.
    + split; [lia|]. split; [lia|]. simpl. congruence.
Qed.

Lemma select1_spec self k :
  bitmap_ok self -> select1 self k = Ret (select_true k (bm_bits self)).
Proof.
  intros Hok. unfold select1, bm_bits.
  destruct (partition_point_spec (fun c => bool_decide (c <= Z.of_nat k)%Z) (prefix self)) as (H1 & H2 & H3).
  set (pp := partition_point _ (prefix self)) in *. clearbody pp. rewrite length_prefix in H1 by done.
  assert (Hp0 := prefix_lookup _ 0 Hok ltac:(lia)). rewrite take_0 in Hp0.
  destruct (decide (pp = 0)) as [->|Hpp].
  { exfalso. apply H3, bool_decide_eq_false in Hp0. cbn [flat_bits ctrue] in Hp0. lia. }
  assert (Hple := prefix_lookup _ (pp - 1) Hok ltac:(lia)).
  pose proof (H2 (pp - 1) _ ltac:(lia) Hple) as Hk. apply bool_decide_eq_true in Hk.
  destruct (words self !! (pp - 1)) as [w|] eqn:Hw.
  - rewrite (idx_lookup _ _ _ Hple). cbn [obind]. rewrite decide_False by lia.
    assert (Hlt : pp - 1 < length (words self)) by (by apply lookup_lt_is_Some_1; eexists).
    assert (Hwok : (0 <= w < 2 ^ 64)%Z) by (destruct Hok as [Hf _]; by eapply (Forall_lookup_1 _ _ _ _ Hf)).
    assert (Hgt := prefix_lookup _ pp Hok ltac:(lia)).
    pose proof (H3 _ Hgt) as Hk'. apply bool_decide_eq_false in Hk'.
    replace pp with (S (pp - 1)) in Hk' by lia.
    rewrite (take_S_r _ _ _ Hw), flat_bits_app, ctrue_app in Hk'. cbn [flat_bits] in Hk'.
    rewrite app_nil_r in Hk'. set (a := ctrue (flat_bits (take (pp - 1) (words self)))) in *.
    rewrite select1_in_word_spec by done.
    rewrite (flat_split _ _ _ Hw), select_true_app. fold a. rewrite decide_False by lia.
    rewrite select_true_app. rewrite decide_True by lia.
    replace (Z.to_nat (Z.of_nat k - Z.of_nat a)) with (k - a) by lia.
    rewrite length_flat, length_take, Nat.min_l by lia. by destruct (select_true (k - a) _).
  - apply lookup_ge_None in Hw. rewrite take_ge in Hk by lia. by rewrite select_true_None by lia.
Qed.

(** On a bitmap built by [RankBitmap::new] from 64-bit words, no operation
    panics; [get(i)] is bit [i] of the flattened bit list, [rank1(i)] and [rank0(i)]
    are the numbers of set and clear bits before [i] (for [i] up to the total
    number of bits), and [select1(k)] is the position [p] of a set bit with exactly
    [k] set bits before it, or nothing when fewer than [k + 1] bits are set. *)
Theorem rank_select_correct ws i k :
  Forall (fun w => 0 <= w < 2 ^ 64)%Z ws ->
  let bm := bitmap_new ws in
  let bits := flat_bits ws in
  bm_get bm i = Ret (bits !! i) /\
  rank1 bm i = Ret (if decide (i <= length bits) then Some (ctrue (take i bits)) else None) /\
  rank0 bm i = Ret (if decide (i <= length bits) then Some (i - ctrue (take i bits)) else None) /\
  exists r, select1 bm k = Ret r /\
    match r with
    | Some p => bits !! p = Some true /\ ctrue (take p bits) = k
    | None => ctrue bits <= k
    end.
Proof.
  intros Hws bm bits. assert (Hok : bitmap_ok bm) by done.
  assert (total_bits bm = length bits) as Ht by (symmetry; apply length_flat).
  split; [apply bm_get_spec|]. rewrite <- Ht.
  split; [by apply rank1_spec|]. split; [by apply rank0_spec|].
  exists (select_true k bits). split; [by apply select1_spec|].
  destruct (select_true k bits) as [p|] eqn:Hs; [by apply select_true_Some|].
  destruct (decide (k < ctrue bits)) as [Hk|]; [|lia]. exfalso. clear - Hs Hk.
  revert k Hs Hk. induction bits as [|[] l IH]; intros k Hs Hk; simpl in *; [lia| |].
  - destruct k; [done|]. destruct (select_true k l) eqn:E; [done|]. apply (IH k E). lia.
  - destruct (select_true k l) eqn:E; [done|]. apply (IH k E). lia.
Qed.

Lemma rank_select_witness :
  select1 (bitmap_new [5; 2 ^ 63]%Z) 2 = Ret (Some 127) /\
  rank1 (bitmap_new [5; 2 ^ 63]%Z) 128 = Ret (Some 3) /\
  rank0 (bitmap_new [5; 2 ^ 63]%Z) 3 = Ret (Some 1) /\ bm_get (bitmap_new [5; 2 ^ 63]%Z) 128 = Ret None.
Proof.
  split; [vm_compute; reflexivity|]. split; [vm_compute; reflexivity|].
  split; [vm_compute; reflexivity|].
  refine (proj1 (rank_select_correct [5; 2 ^ 63]%Z 128 0 _)).
  repeat (apply Forall_cons; split; [lia|]). by apply Forall_nil.
Defined.
