(* ===== verification/Mrs.v ===== *)
(** * Mihomo rule-set files (src/src/mrs.rs)

    The container header, the IP-range body, and the succinct trie of the domain
    body with its explicit-stack walk.  Decompression ([ruzstd]) is a parameter:
    [zstd raw] is [None] when the stream is not a zstd frame, otherwise the bytes
    that can be read from it before it ends or fails. *)

From S2P Require Import Prelude Hasher DnsName Utf8 Persist IpRange RankBitmap.

(** The error sites. *)
Inductive mrs_error :=
| BadZstd | TruncatedHeader | BadMagic | ExtraTooLarge | WrongBehavior | BadVersion
| TruncatedBody | TooManyRanges | ArrayTooLarge | EmptyArrays
| TooManySteps | BitmapOutOfRange | LabelUnderflow | LabelOutOfRange
| RankOutOfRange | SelectFailed | LeafOutOfRange | NotUtf8 | TooDeep
| ChunkFuel.

Definition MRS_MAGIC : list Z := [77; 82; 83; 1]%Z.
Definition BEHAVIOR_DOMAIN : Z := 0.
Definition BEHAVIOR_IPCIDR : Z := 1.
Definition MAX_ARRAY_BYTES : Z := 256 * 1024 * 1024.
Definition MAX_DOMAIN_SET_STEPS : positive := 536870912.
Definition MAX_DOMAIN_SET_DEPTH : nat := Z.to_nat 4096.
Definition MAX_IPCIDR_RANGES : Z := 64 * 1024 * 1024.

Abbreviation mreader := (reader_of mrs_error).

(** ** Header and arrays *)

Definition read_u64_be (e : mrs_error) : mreader Z :=
  let% buf := read_exact_or e 8 in rret (from_be buf).

(** [io::copy] of [r.take(len)] to a sink: what there is, up to [len] bytes. *)
Definition skip_exact (len : Z) : mreader unit := fun r =>
  let copied := Z.min len (Z.of_nat (length r)) in
  if decide (copied <> len) then Err TruncatedHeader else Ok (tt, drop (Z.to_nat len) r).

Definition read_header : mreader (Z * Z) :=
  let% magic := read_exact_or TruncatedHeader 4 in
  if decide (magic <> MRS_MAGIC) then rfail BadMagic
  else
    let% behavior := read_exact_or TruncatedHeader 1 in
    let% count := read_u64_be TruncatedHeader in
    let% extra_len := read_u64_be TruncatedHeader in
    if decide (MAX_ARRAY_BYTES < extra_len)%Z then rfail ExtraTooLarge
    else
      let% _ := skip_exact extra_len in
      rret (nthb behavior 0, count).

Definition read_u64_be_vec (len : Z) : mreader (list Z) :=
  if decide (2 ^ 64 <= len * 8 \/ MAX_ARRAY_BYTES < len * 8)%Z then rfail ArrayTooLarge
  else read_many (Z.to_nat len) (read_u64_be TruncatedBody).

(** The 8192-byte chunks of [read_byte_vec]. *)
Fixpoint read_chunks (fuel : nat) (remaining : Z) : mreader (list Z) :=
  match fuel with
  | O => rfail ChunkFuel
  | S fuel' =>
      if decide (0 < remaining)%Z then
        let n := Z.min remaining 8192 in
        let% chunk := read_exact_or TruncatedBody (Z.to_nat n) in
        let% rest := read_chunks fuel' (remaining - n) in
        rret (chunk ++ rest)
      else rret []
  end.

Definition read_byte_vec (len : Z) : mreader (list Z) :=
  if decide (MAX_ARRAY_BYTES < len)%Z then rfail ArrayTooLarge
  else read_chunks (Z.to_nat (len / 8192 + 2)) len.

(** ** IP ranges *)

Definition read_range : mreader (Z * Z) :=
  let% from_buf := read_exact_or TruncatedBody 16 in
  let% to_buf := read_exact_or TruncatedBody 16 in
  rret (from_be from_buf, from_be to_buf).

Definition ipcidr_body : mreader (list (Z * Z)) :=
  let% hdr := read_header in
  if decide (fst hdr <> BEHAVIOR_IPCIDR) then rfail WrongBehavior
  else
    let% version := read_exact_or TruncatedBody 1 in
    if decide (nthb version 0 <> 1)%Z then rfail BadVersion
    else
      let% ranges_len := read_u64_be TruncatedBody in
      if decide (MAX_IPCIDR_RANGES < ranges_len)%Z then rfail TooManyRanges
      else read_many (Z.to_nat ranges_len) read_range.

Definition decode_ipcidr_ranges (zstd : list Z -> option (list Z)) (raw : list Z)
  : result mrs_error (list (Z * Z)) :=
  match zstd raw with
  | None => Err BadZstd
  | Some stream =>
      match ipcidr_body stream with
      | Ok (ranges, _) => Ok ranges
      | Err e => Err e
      end
  end.

(** ** The domain trie *)

Record DomainSet := mkDomainSet {
  leaves : RankBitmap;
  label_bitmap : RankBitmap;
  labels : list Z
}.

Definition domain_set_read : mreader DomainSet :=
  let% version := read_exact_or TruncatedBody 1 in
  if decide (nthb version 0 <> 1)%Z then rfail BadVersion
  else
    let% leaves_len := read_u64_be TruncatedBody in
    let% lv := read_u64_be_vec leaves_len in
    let% label_bitmap_len := read_u64_be TruncatedBody in
    let% lb := read_u64_be_vec label_bitmap_len in
    let% labels_len := read_u64_be TruncatedBody in
    let% ls := read_byte_vec labels_len in
    if decide (lv = [] \/ lb = [] \/ ls = []) then rfail EmptyArrays
    else rret (mkDomainSet (bitmap_new lv) (bitmap_new lb) ls).

Definition is_leaf (self : DomainSet) (node_id : nat) : outcome (result mrs_error bool) :=
  let! o := bm_get (leaves self) node_id in
  Ret (match o with Some b => Ok b | None => Err LeafOutOfRange end).

Record Frame := mkFrame { node_id : nat; bm_idx : nat; restore_len : nat }.

(** The walk's variables; the stack with its top first, and the strings handed to
    the callback. *)
Record Walk := mkWalk { current : list Z; stack : list Frame; emitted : list (list Z) }.

Definition ok_or {A} (e : mrs_error) (o : option A) : outcome (result mrs_error A) :=
  Ret (match o with Some a => Ok a | None => Err e end).

Definition emit (out : list (list Z)) (reversed : list Z) : outcome (result mrs_error (list (list Z))) :=
  let* text := ok_or NotUtf8 (from_utf8 (rev reversed)) in
  Ret (Ok (out ++ [text])).

(** One iteration of the [while] loop; [inr] when the stack is empty. *)
Definition domain_step (self : DomainSet) (w : Walk)
  : outcome (result mrs_error (Walk + list (list Z))) :=
  match stack w with
  | [] => Ret (Ok (inr (emitted w)))
  | top :: rest =>
      let i := bm_idx top in
      let! bit := bm_get (label_bitmap self) i in
      let* is_end := ok_or BitmapOutOfRange bit in
      if is_end : bool then
        Ret (Ok (inl (mkWalk (take (restore_len top) (current w)) rest (emitted w))))
      else
        let node := node_id top in
        let top := mkFrame node (i + 1) (restore_len top) in
        if decide (i < node) then Ret (Err LabelUnderflow)
        else
          let* label := ok_or LabelOutOfRange (labels self !! (i - node)) in
          let restore := length (current w) in
          let cur := current w ++ [label] in
          let! r0 := rank0 (label_bitmap self) (i + 1) in
          let* next_node_id := ok_or RankOutOfRange r0 in
          let! sel := (if decide (1 <= next_node_id) then select1 (label_bitmap self) (next_node_id - 1)
                       else Ret None) in
          let* s := ok_or SelectFailed sel in
          let next_bm_idx := s + 1 in
          let* leaf := is_leaf self next_node_id in
          let* out := (if leaf : bool then emit (emitted w) cur else Ret (Ok (emitted w))) in
          if decide (MAX_DOMAIN_SET_DEPTH <= length (top :: rest)) then Ret (Err TooDeep)
          else Ret (Ok (inl (mkWalk cur (mkFrame next_node_id next_bm_idx restore :: top :: rest) out)))
  end.

(** At most [p] iterations, stopping at an error or a final value. *)
Fixpoint run_pos {E A R} (p : positive) (f : A -> outcome (result E (A + R))) (a : A)
  : outcome (result E (A + R)) :=
  let again q r := match r with inl a' => run_pos q f a' | inr v => Ret (Ok (inr v)) end in
  match p with
  | xH => f a
  | xO q => let* r := run_pos q f a in again q r
  | xI q =>
      let* r := f a in
      match r with
      | inl a' => let* r := run_pos q f a' in again q r
      | inr v => Ret (Ok (inr v))
      end
  end.

(** [for_each_domain] with a callback that collects the strings: the step counter
    allows [MAX_DOMAIN_SET_STEPS] iterations before the error. *)
Definition for_each_domain (self : DomainSet) : outcome (result mrs_error (list (list Z))) :=
  let* r := run_pos MAX_DOMAIN_SET_STEPS (domain_step self) (mkWalk [] [mkFrame 0 0 0] []) in
  Ret (match r with
       | inr out => Ok out
       | inl w => match stack w with [] => Ok (emitted w) | _ => Err TooManySteps end
       end).

Definition domain_body : mreader DomainSet :=
  let% hdr := read_header in
  if decide (fst hdr <> BEHAVIOR_DOMAIN) then rfail WrongBehavior else domain_set_read.

Definition decode_domain_patterns (zstd : list Z -> option (list Z)) (raw : list Z)
  : outcome (result mrs_error (list (list Z))) :=
  match zstd raw with
  | None => Ret (Err BadZstd)
  | Some stream =>
      match domain_body stream with
      | Ok (domain_set, _) => for_each_domain domain_set
      | Err e => Ret (Err e)
      end
  end.

(** ** What the readers deliver *)

Definition delivers {A} (P : A -> Prop) (m : mreader A) : Prop :=
  forall r a r', bytes_ok r -> m r = Ok (a, r') -> P a /\ bytes_ok r'.

Lemma delivers_ret {A} (P : A -> Prop) a : P a -> delivers P (rret a).
Proof. intros Ha r a' r' Hr [= <- <-]. done. Qed.

Lemma delivers_fail {A} (P : A -> Prop) e : delivers P (rfail e).
Proof. done. Qed.

Lemma delivers_bind {A B} (P : A -> Prop) (Q : B -> Prop) m k :
  delivers P m -> (forall a, P a -> delivers Q (k a)) -> delivers Q (rbind m k).
Proof.
  intros Hm Hk r b r' Hr. unfold rbind. destruct (m r) as [[a r1]|] eqn:Ha; [|done].
  apply Hm in Ha as [Hpa Hr1]; [|done]. by apply Hk.
Qed.

Lemma delivers_exact e n : delivers (fun l => bytes_ok l /\ length l = n) (read_exact_or e n).
Proof.
  intros r l r' Hr. unfold read_exact_or. case_decide as Hn; [|done]. intros [= <- <-].
  split; [split|].
  - by apply Forall_take.
  - rewrite length_take. lia.
  - by apply Forall_drop.
Qed.

Lemma delivers_u64 e : delivers (fun z => 0 <= z < 2 ^ 64)%Z (read_u64_be e).
Proof.
  eapply delivers_bind; [apply delivers_exact|]. intros l [Hl Hn]. apply delivers_ret.
  apply from_be_bound in Hl. rewrite Hn in Hl. exact Hl.
Qed.

Lemma delivers_many {A} (P : A -> Prop) m n : delivers P m -> delivers (Forall P) (read_many n m).
Proof.
  intros Hm. induction n as [|n IH]; cbn [read_many]; [by apply delivers_ret, Forall_nil|].
  eapply delivers_bind; [apply Hm|]. intros a Ha.
  eapply delivers_bind; [apply IH|]. intros l Hl. apply delivers_ret. by constructor.
Qed.

Lemma delivers_u64_vec len : delivers (Forall (fun z => 0 <= z < 2 ^ 64)%Z) (read_u64_be_vec len).
Proof. unfold read_u64_be_vec. case_decide; [done|]. apply delivers_many, delivers_u64. Qed.

Lemma delivers_chunks fuel n : delivers (fun _ => True) (read_chunks fuel n).
Proof.
  revert n. induction fuel as [|fuel IH]; intros n; cbn [read_chunks]; [done|].
  case_decide; [|by apply delivers_ret].
  eapply delivers_bind; [apply delivers_exact|]. intros l _.
  eapply delivers_bind; [apply IH|]. intros; by apply delivers_ret.
Qed.

Lemma delivers_header : delivers (fun _ => True) read_header.
Proof.
  unfold read_header. eapply delivers_bind; [apply delivers_exact|]. intros magic _.
  case_decide; [done|].
  eapply delivers_bind; [apply delivers_exact|]. intros b _.
  eapply delivers_bind; [apply delivers_u64|]. intros c _.
  eapply delivers_bind; [apply delivers_u64|]. intros x _. case_decide; [done|].
  apply delivers_bind with (P := fun _ => True).
  - intros r a r' Hr. unfold skip_exact. case_decide; [done|]. intros [= <- <-].
    split; [done|by apply Forall_drop].
  - intros; by apply delivers_ret.
Qed.

Definition set_ok (ds : DomainSet) : Prop := bitmap_ok (leaves ds) /\ bitmap_ok (label_bitmap ds).

Lemma delivers_domain_set : delivers set_ok domain_body.
Proof.
  unfold domain_body, domain_set_read. eapply delivers_bind; [apply delivers_header|]. intros hdr _.
  case_decide; [done|].
  eapply delivers_bind; [apply delivers_exact|]. intros v _. case_decide; [done|].
  eapply delivers_bind; [apply delivers_u64|]. intros n1 _.
  eapply delivers_bind; [apply delivers_u64_vec|]. intros lv Hlv.
  eapply delivers_bind; [apply delivers_u64|]. intros n2 _.
  eapply delivers_bind; [apply delivers_u64_vec|]. intros lb Hlb.
  eapply delivers_bind; [apply delivers_u64|]. intros n3 _.
  apply delivers_bind with (P := fun _ => True).
  - unfold read_byte_vec. case_decide; [done|]. apply delivers_chunks.
  - intros ls _. case_decide; [done|]. by apply delivers_ret.
Qed.

(** ** The walk never panics *)

Lemma domain_step_returns ds w : set_ok ds -> returns (domain_step ds w).
Proof.
  intros [Hlv Hlb]. unfold domain_step. destruct (stack w) as [|top rest]; [auto with rust|].
  rewrite bm_get_spec. cbn [obind].
  apply returns_bind_res; [apply returns_Ret|]. intros [] _; [apply returns_Ret|].
  case_decide; [apply returns_Ret|]. apply returns_bind_res; [apply returns_Ret|]. intros label _.
  rewrite rank0_spec by done. cbn [obind].
  apply returns_bind_res; [apply returns_Ret|]. intros nid _.
  apply returns_bind; [case_decide; [rewrite select1_spec by done|]; apply returns_Ret|]. intros sel _.
  apply returns_bind_res; [apply returns_Ret|]. intros s _.
  apply returns_bind_res; [unfold is_leaf; rewrite bm_get_spec; apply returns_Ret|]. intros leaf _.
  apply returns_bind_res.
  - destruct leaf; [|apply returns_Ret]. apply returns_bind_res; [apply returns_Ret|].
    intros; apply returns_Ret.
  - intros out _. case_decide; apply returns_Ret.
Qed.

Lemma run_pos_returns {E A R} p (f : A -> outcome (result E (A + R))) a :
  (forall a, returns (f a)) -> returns (run_pos p f a).
Proof.
  intros Hf. revert a. induction p as [q IH|q IH|]; intros a; cbn [run_pos]; [| |apply Hf].
  - apply returns_bind_res; [apply Hf|]. intros [a'|v] _; [|apply returns_Ret].
    apply returns_bind_res; [apply IH|]. intros [b|v] _; [apply IH|apply returns_Ret].
  - apply returns_bind_res; [apply IH|]. intros [b|v] _; [apply IH|apply returns_Ret].
Qed.

Lemma decode_domain_patterns_returns zstd raw :
  (forall stream, zstd raw = Some stream -> bytes_ok stream) ->
  returns (decode_domain_patterns zstd raw).
Proof.
  intros Hz. unfold decode_domain_patterns. destruct (zstd raw) as [stream|]; [|apply returns_Ret].
  destruct (domain_body stream) as [[ds r]|e] eqn:Hd; [|apply returns_Ret].
  apply delivers_domain_set in Hd as [Hok _]; [|by apply Hz].
  unfold for_each_domain. apply returns_bind_res; [|intros; apply returns_Ret].
  apply run_pos_returns. intros. by apply domain_step_returns.
Qed.

(** Whatever bytes a rule-set file decompresses to, decoding it as a domain set
    ends with patterns or an error: no index is out of range, no subtraction
    underflows, and the walk stops (its step and depth caps bound a bitmap that
    encodes no tree). *)
Theorem decode_domain_patterns_total zstd raw :
  (forall stream, zstd raw = Some stream -> bytes_ok stream) ->
  returns (decode_domain_patterns zstd raw).
Proof. apply decode_domain_patterns_returns. Qed.

(** ** The layout of a file *)

Definition mrs_header (behavior count : Z) (extra : list Z) : list Z :=
  MRS_MAGIC ++ [behavior] ++ to_be 8 count ++ to_be 8 (Z.of_nat (length extra)) ++ extra.

Definition range_record (r : Z * Z) : list Z := to_be 16 (fst r) ++ to_be 16 (snd r).

Definition ipcidr_file (count : Z) (extra : list Z) (ranges : list (Z * Z)) : list Z :=
  mrs_header BEHAVIOR_IPCIDR count extra ++ [1%Z] ++ to_be 8 (Z.of_nat (length ranges)) ++
  concat (range_record <$> ranges).

Lemma read_u64_be_app e z rest :
  (0 <= z < 2 ^ 64)%Z -> read_u64_be e (to_be 8 z ++ rest) = Ok (z, rest).
Proof.
  intros Hz. unfold read_u64_be. erewrite rbind_Ok by (apply read_exact_or_app, length_to_be).
  unfold rret. by rewrite from_be_to_be_small.
Qed.

Lemma read_header_of behavior count extra rest :
  (0 <= count < 2 ^ 64)%Z -> (Z.of_nat (length extra) <= MAX_ARRAY_BYTES)%Z ->
  read_header (mrs_header behavior count extra ++ rest) = Ok ((behavior, count), rest).
Proof.
  intros Hc He. assert (H64 : (MAX_ARRAY_BYTES < 2 ^ 64)%Z) by done.
  unfold read_header, mrs_header. rewrite <- !app_assoc.
  erewrite rbind_Ok by by apply read_exact_or_app. rewrite decide_False by tauto.
  erewrite rbind_Ok by by apply read_exact_or_app.
  erewrite rbind_Ok by by apply read_u64_be_app.
  erewrite rbind_Ok by (apply read_u64_be_app; lia). rewrite decide_False by lia.
  erewrite rbind_Ok; [reflexivity|]. unfold skip_exact. rewrite Z.min_l by len.
  rewrite decide_False by tauto. rewrite Nat2Z.id, drop_app_length. done.
Qed.

Lemma read_range_of r rest :
  (0 <= fst r < 2 ^ 128)%Z -> (0 <= snd r < 2 ^ 128)%Z ->
  read_range (range_record r ++ rest) = Ok (r, rest).
Proof.
  intros H1 H2. unfold read_range, range_record. rewrite <- app_assoc.
  erewrite rbind_Ok by (apply read_exact_or_app, length_to_be).
  erewrite rbind_Ok by (apply read_exact_or_app, length_to_be).
  unfold rret. rewrite !from_be_to_be_small by done. by destruct r.
Qed.

(** A file whose decompressed bytes are the documented layout (magic, behaviour
    byte, count, extra field, version, range count, 32-byte big-endian records) is
    decoded to exactly its list of ranges, whatever follows the body. *)
Theorem decode_ipcidr_ranges_correct zstd raw count extra ranges rest :
  zstd raw = Some (ipcidr_file count extra ranges ++ rest) ->
  (0 <= count < 2 ^ 64)%Z -> (Z.of_nat (length extra) <= MAX_ARRAY_BYTES)%Z ->
  (Z.of_nat (length ranges) <= MAX_IPCIDR_RANGES)%Z ->
  Forall (fun r => 0 <= fst r < 2 ^ 128 /\ 0 <= snd r < 2 ^ 128)%Z ranges ->
  decode_ipcidr_ranges zstd raw = Ok ranges.
Proof.
  intros Hz Hc He Hn Hr. unfold decode_ipcidr_ranges. rewrite Hz. unfold ipcidr_file, ipcidr_body.
  assert (H64 : (MAX_IPCIDR_RANGES < 2 ^ 64)%Z) by done. rewrite <- !app_assoc.
  erewrite rbind_Ok by by apply read_header_of. rewrite decide_False by tauto.
  erewrite rbind_Ok by by apply read_exact_or_app. rewrite decide_False by (cbn; lia).
  erewrite rbind_Ok by (apply read_u64_be_app; lia). rewrite decide_False by lia.
  rewrite Nat2Z.id, read_many_app; [done|]. intros r rest' Hin.
  rewrite Forall_forall in Hr. apply Hr in Hin as [? ?]. by apply read_range_of.
Qed.

Definition demo_ranges : list (Z * Z) := [(1, 255); (0xffff01020300, 0xffff010203ff)]%Z.

Lemma decode_ipcidr_ranges_witness :
  decode_ipcidr_ranges Some (ipcidr_file 2 [7%Z] demo_ranges ++ [9%Z]) = Ok demo_ranges.
Proof.
  apply (decode_ipcidr_ranges_correct Some _ 2 [7%Z] demo_ranges [9%Z]);
    [reflexivity|lia|cbn; unfold MAX_ARRAY_BYTES; lia|cbn; unfold MAX_IPCIDR_RANGES; lia|].
  repeat (apply Forall_cons; split; [cbn; lia|]). by apply Forall_nil.
Defined.
