(* ===== verification/MrsTrie.v ===== *)
(** * The succinct domain trie, written and read back

    A trie over reversed pattern bytes, its breadth-first succinct encoding (the
    documented layout of src/src/mrs.rs), and the proof that the explicit-stack
    walk of [DomainSet::for_each_domain] on that encoding visits the trie in
    depth-first order and reports exactly its stored patterns. *)

From S2P Require Import Prelude Hasher DnsName Utf8 Persist IpRange RankBitmap Mrs.

(** ** Tries

    [FCons l leaf sub rest]: a child under byte [l], marked as the end of a stored
    pattern or not, with the children [sub] below it, and its younger siblings. *)

Inductive forest :=
| FNil
| FCons (l : Z) (leaf : bool) (sub rest : forest).

Fixpoint children (f : forest) : list (Z * bool * forest) :=
  match f with
  | FNil => []
  | FCons l leaf sub rest => (l, leaf, sub) :: children rest
  end.

Definition flen (f : forest) : nat := length (children f).
Definition subs (f : forest) : list forest := snd <$> children f.

Fixpoint fsize (f : forest) : nat :=
  match f with
  | FNil => 0
  | FCons _ _ sub rest => S (fsize sub + fsize rest)
  end.

Fixpoint height (f : forest) : nat :=
  match f with
  | FNil => 0
  | FCons _ _ sub rest => Nat.max (S (height sub)) (height rest)
  end.

(** The stored patterns below a node reached by the (reversed) bytes [cur]. *)
Fixpoint patterns (cur : list Z) (f : forest) : list (list Z) :=
  match f with
  | FNil => []
  | FCons l leaf sub rest =>
      (if leaf then [rev (cur ++ [l])] else []) ++ patterns (cur ++ [l]) sub ++ patterns cur rest
  end.

(** ** The encoding *)

(** Nodes in breadth-first order, from a queue. *)
Fixpoint bfs (fuel : nat) (queue : list forest) : list forest :=
  match fuel, queue with
  | S fuel', x :: queue' => x :: bfs fuel' (queue' ++ subs x)
  | _, _ => []
  end.

Definition trie_nodes (f : forest) : list forest := bfs (S (fsize f)) [f].

(** A clear bit per child and a set bit at the end. *)
Definition block_bits (x : forest) : list bool := replicate (flen x) false ++ [true].

Definition trie_bits (xs : list forest) : list bool := concat (block_bits <$> xs).
Definition trie_children (xs : list forest) : list (Z * bool * forest) := concat (children <$> xs).
Definition trie_labels (xs : list forest) : list Z := (fun c => fst (fst c)) <$> trie_children xs.
Definition trie_leaves (xs : list forest) : list bool := false :: ((fun c => snd (fst c)) <$> trie_children xs).

(** ** Breadth-first numbering *)

Lemma bfs_cons fuel x q : bfs (S fuel) (x :: q) = x :: bfs fuel (q ++ subs x).
Proof. done. Qed.

Definition qsize (q : list forest) : nat := sum_list_with (fun x => S (fsize x)) q.

Lemma qsize_app q p : qsize (q ++ p) = qsize q + qsize p.
Proof. unfold qsize. apply sum_list_with_app. Qed.

Lemma qsize_subs x : qsize (subs x) = fsize x.
Proof.
  induction x as [|l leaf sub IH1 rest IH2]; [done|].
  change (S (fsize sub) + qsize (subs rest) = S (fsize sub + fsize rest)). lia.
Qed.

Lemma length_subs x : length (subs x) = flen x.
Proof. unfold subs, flen. by rewrite length_fmap. Qed.

Lemma bfs_prefix fuel q i x : qsize q <= fuel -> q !! i = Some x -> bfs fuel q !! i = Some x.
Proof.
  revert q i. induction fuel as [|fuel IH]; intros [|y q] i Hf Hi; [done|cbn in Hf; lia|done|].
  rewrite bfs_cons. destruct i as [|i]; [done|]. simpl in *. apply IH.
  - rewrite qsize_app, qsize_subs. unfold qsize in *. simpl in Hf. lia.
  - rewrite lookup_app_l; [done|]. by apply lookup_lt_is_Some_1; eexists.
Qed.

Definition children_before (xs : list forest) (n : nat) : nat := length (trie_children (take n xs)).

Lemma children_before_S x xs n : children_before (x :: xs) (S n) = flen x + children_before xs n.
Proof. unfold children_before, trie_children. simpl. by rewrite length_app. Qed.

Lemma bfs_child fuel q n x i c :
  qsize q <= fuel -> bfs fuel q !! n = Some x -> children x !! i = Some c ->
  bfs fuel q !! (length q + children_before (bfs fuel q) n + i) = Some (snd c).
Proof.
  revert q n. induction fuel as [|fuel IH]; intros [|y q] n Hf Hn Hc; [done|cbn in Hf; lia|done|].
  rewrite bfs_cons in *.
  assert (Hf' : qsize (q ++ subs y) <= fuel).
  { rewrite qsize_app, qsize_subs. unfold qsize in *. simpl in Hf. lia. }
  destruct n as [|n]; simpl in Hn.
  - injection Hn as ->. unfold children_before, trie_children. rewrite take_0. simpl.
    rewrite Nat.add_0_r. apply bfs_prefix; [done|]. rewrite lookup_app_r by lia.
    unfold subs. rewrite list_lookup_fmap. replace (length q + i - length q) with i by lia.
    by rewrite Hc.
  - specialize (IH _ _ Hf' Hn Hc). rewrite children_before_S. simpl. rewrite <- IH. f_equal.
    rewrite length_app, length_subs. lia.
Qed.

Lemma trie_nodes_root f : trie_nodes f !! 0 = Some f.
Proof. done. Qed.

(** Child [i] of node [n] is the node numbered after all earlier children. *)
Lemma trie_nodes_child f n x i c :
  trie_nodes f !! n = Some x -> children x !! i = Some c ->
  trie_nodes f !! S (children_before (trie_nodes f) n + i) = Some (snd c).
Proof.
  intros Hn Hc. refine (bfs_child (S (fsize f)) [f] n x i c _ Hn Hc). unfold qsize. simpl. lia.
Qed.

(** ** Navigation in the bit list *)

Definition start (xs : list forest) (n : nat) : nat := length (trie_bits (take n xs)).

Lemma trie_bits_app xs ys : trie_bits (xs ++ ys) = trie_bits xs ++ trie_bits ys.
Proof. unfold trie_bits. by rewrite fmap_app, concat_app. Qed.

Lemma trie_children_app xs ys : trie_children (xs ++ ys) = trie_children xs ++ trie_children ys.
Proof. unfold trie_children. by rewrite fmap_app, concat_app. Qed.

Lemma trie_bits_cons x xs : trie_bits (x :: xs) = block_bits x ++ trie_bits xs.
Proof. done. Qed.

Lemma trie_children_cons x xs : trie_children (x :: xs) = children x ++ trie_children xs.
Proof. done. Qed.

Lemma length_block x : length (block_bits x) = S (flen x).
Proof. unfold block_bits. rewrite length_app, length_replicate. simpl. lia. Qed.

Lemma ctrue_trie_bits xs : ctrue (trie_bits xs) = length xs.
Proof.
  induction xs as [|x xs IH]; [done|]. rewrite trie_bits_cons, ctrue_app, IH.
  unfold block_bits. rewrite ctrue_app, ctrue_replicate_false. done.
Qed.

Lemma length_trie_bits xs : length (trie_bits xs) = length (trie_children xs) + length xs.
Proof.
  induction xs as [|x xs IH]; [done|].
  rewrite trie_bits_cons, trie_children_cons, !length_app, length_block, IH. unfold flen. simpl. lia.
Qed.

Lemma start_eq xs n : n <= length xs -> start xs n = children_before xs n + n.
Proof.
  intros Hn. unfold start, children_before. rewrite length_trie_bits, length_take. lia.
Qed.

Lemma trie_bits_at xs n x pad :
  xs !! n = Some x ->
  trie_bits xs ++ pad = trie_bits (take n xs) ++ block_bits x ++ trie_bits (drop (S n) xs) ++ pad.
Proof.
  intros Hn. rewrite <- (take_drop_middle _ _ _ Hn) at 1.
  by rewrite trie_bits_app, trie_bits_cons, <- !app_assoc.
Qed.

Lemma trie_bit_lookup xs n x pad i :
  xs !! n = Some x -> i <= flen x ->
  (trie_bits xs ++ pad) !! (start xs n + i) = Some (bool_decide (i = flen x)).
Proof.
  intros Hn Hi. rewrite (trie_bits_at _ _ _ _ Hn). unfold start.
  rewrite lookup_app_r by lia. rewrite Nat.add_sub'.
  rewrite lookup_app_l by (rewrite length_block; lia). unfold block_bits.
  destruct (decide (i = flen x)) as [->|].
  - rewrite bool_decide_true by done. by rewrite list_lookup_middle by len.
  - rewrite bool_decide_false by done. rewrite lookup_app_l by len. by apply lookup_replicate_2; lia.
Qed.

Lemma trie_bit_rank xs n x pad i :
  xs !! n = Some x -> i <= flen x -> ctrue (take (start xs n + i) (trie_bits xs ++ pad)) = n.
Proof.
  intros Hn Hi. assert (n < length xs) by (by apply lookup_lt_is_Some_1; eexists).
  rewrite (trie_bits_at _ _ _ _ Hn). unfold start.
  rewrite take_app_add, take_app_le by (rewrite length_block; lia).
  unfold block_bits. rewrite take_app_le by len. rewrite take_replicate.
  rewrite ctrue_app, ctrue_trie_bits, ctrue_replicate_false, length_take. lia.
Qed.

Lemma start_S xs n x : xs !! n = Some x -> start xs (S n) = start xs n + flen x + 1.
Proof.
  intros Hn. unfold start. rewrite (take_S_r _ _ _ Hn), trie_bits_app, length_app.
  rewrite trie_bits_cons, length_app, length_block. simpl. lia.
Qed.

Lemma trie_select xs n pad :
  n < length xs -> select_true n (trie_bits xs ++ pad) = Some (start xs (S n) - 1).
Proof.
  intros Hn. destruct (lookup_lt_is_Some_2 xs n Hn) as [x Hx]. apply select_true_Some.
  rewrite (start_S _ _ _ Hx). replace (start xs n + flen x + 1 - 1) with (start xs n + flen x) by lia.
  split; [|by eapply trie_bit_rank]. by rewrite (trie_bit_lookup _ _ _ _ _ Hx), bool_decide_true.
Qed.

Lemma trie_child_lookup xs n x i c :
  xs !! n = Some x -> children x !! i = Some c -> trie_children xs !! (children_before xs n + i) = Some c.
Proof.
  intros Hn Hc. unfold children_before.
  assert (trie_children xs = trie_children (take n xs) ++ children x ++ trie_children (drop (S n) xs)) as ->
    by (rewrite <- (take_drop_middle _ _ _ Hn) at 1; by rewrite trie_children_app, trie_children_cons).
  rewrite lookup_app_r by lia. rewrite Nat.add_sub'. rewrite lookup_app_l; [done|].
  by apply lookup_lt_is_Some_1; eexists.
Qed.

(** ** Words *)

Fixpoint word_of (l : list bool) : Z :=
  match l with
  | [] => 0
  | b :: l' => (2 * word_of l' + Z.b2z b)%Z
  end.

Fixpoint pack (fuel : nat) (l : list bool) : list Z :=
  match fuel with
  | O => []
  | S fuel' => match l with [] => [] | _ => word_of (take 64 l) :: pack fuel' (drop 64 l) end
  end.

Definition pack_bits (l : list bool) : list Z := pack (length l) l.

Lemma word_of_bit l i : Z.testbit (word_of l) (Z.of_nat i) = default false (l !! i).
Proof.
  revert i. induction l as [|b l IH]; intros i; [by rewrite Z.testbit_0_l|]. cbn [word_of].
  destruct i as [|i]; [by rewrite Z.testbit_0_r|].
  rewrite Nat2Z.inj_succ, Z.testbit_succ_r by lia. apply IH.
Qed.

Lemma word_of_range l n : length l <= n -> (0 <= word_of l < 2 ^ Z.of_nat n)%Z.
Proof.
  revert n. induction l as [|b l IH]; intros n Hn; cbn [word_of].
  - split; [lia|]. apply Z.pow_pos_nonneg; lia.
  - destruct n as [|n]; [simpl in Hn; lia|]. simpl in Hn. specialize (IH n ltac:(lia)).
    rewrite Nat2Z.inj_succ, Z.pow_succ_r by lia. destruct b; cbn [Z.b2z]; lia.
Qed.

Lemma word_bits_of l : length l <= 64 -> word_bits (word_of l) = l ++ replicate (64 - length l) false.
Proof.
  intros Hl. apply list_eq_same_length with 64; [len|apply length_word_bits|].
  intros i x y Hi. rewrite lookup_word_bits, word_of_bit by done. intros [= <-].
  destruct (decide (i < length l)) as [Hlt|].
  - rewrite lookup_app_l by done. by intros ->.
  - rewrite lookup_app_r, lookup_replicate_2 by lia. rewrite (lookup_ge_None_2 l) by lia. by intros [= <-].
Qed.

Lemma pack_spec fuel l :
  length l <= fuel ->
  Forall (fun w => 0 <= w < 2 ^ 64)%Z (pack fuel l) /\
  exists pad, flat_bits (pack fuel l) = l ++ replicate pad false.
Proof.
  revert l. induction fuel as [|fuel IH]; intros l Hl; cbn [pack].
  - destruct l; [|simpl in Hl; lia]. split; [by apply Forall_nil|]. by exists 0.
  - destruct l as [|b l]; [split; [by apply Forall_nil|by exists 0]|].
    set (m := b :: l) in *. assert (Hm : 0 < length m) by (unfold m; simpl; lia). clearbody m.
    destruct (IH (drop 64 m)) as [H1 [pad Hpad]]; [len|]. split.
    + constructor; [|done]. apply (word_of_range _ 64). rewrite length_take. lia.
    + cbn [flat_bits]. rewrite Hpad. rewrite word_bits_of by (rewrite length_take; lia).
      destruct (decide (64 <= length m)).
      * exists pad. rewrite length_take, Nat.min_l by lia. simpl replicate. rewrite app_nil_r, app_assoc.
        by rewrite take_drop.
      * exists (64 - length m + pad). rewrite take_ge, drop_ge by lia. cbn [app].
        by rewrite <- app_assoc, <- replicate_add.
Qed.

(** ** Iteration *)

Fixpoint iter_res {E A R} (n : nat) (f : A -> outcome (result E (A + R))) (a : A)
  : outcome (result E (A + R)) :=
  match n with
  | O => Ret (Ok (inl a))
  | S n' =>
      let* r := f a in
      match r with inl a' => iter_res n' f a' | inr v => Ret (Ok (inr v)) end
  end.

Lemma iter_res_add {E A R} n m (f : A -> outcome (result E (A + R))) a :
  iter_res (n + m) f a
  = (let* r := iter_res n f a in match r with inl a' => iter_res m f a' | inr v => Ret (Ok (inr v)) end).
Proof.
  revert a. induction n as [|n IH]; intros a; [done|]. cbn [Nat.add iter_res].
  destruct (f a) as [[[a'|v]|]| |]; cbn [obind_res]; [apply IH|done..].
Qed.

Lemma run_pos_iter {E A R} p (f : A -> outcome (result E (A + R))) a :
  run_pos p f a = iter_res (Pos.to_nat p) f a.
Proof.
  revert a. induction p as [q IH|q IH|]; intros a; cbn [run_pos].
  - rewrite Pos2Nat.inj_xI. cbn [iter_res]. destruct (f a) as [[[a'|v]|]| |]; cbn [obind_res]; try done.
    replace (2 * Pos.to_nat q) with (Pos.to_nat q + Pos.to_nat q) by lia.
    rewrite iter_res_add, <- IH. destruct (run_pos q f a') as [[[b|v]|]| |]; cbn [obind_res]; auto.
  - rewrite Pos2Nat.inj_xO. replace (2 * Pos.to_nat q) with (Pos.to_nat q + Pos.to_nat q) by lia.
    rewrite iter_res_add, <- IH. destruct (run_pos q f a) as [[[b|v]|]| |]; cbn [obind_res]; auto.
  - rewrite Pos2Nat.inj_1. cbn [iter_res]. by destruct (f a) as [[[b|v]|]| |].
Qed.

(** ** The walk on an encoded trie *)

Definition domain_set_of (f : forest) : DomainSet :=
  mkDomainSet (bitmap_new (pack_bits (trie_leaves (trie_nodes f))))
              (bitmap_new (pack_bits (trie_bits (trie_nodes f))))
              (trie_labels (trie_nodes f)).

(** Iterations the walk makes below a node. *)
Fixpoint wsteps (f : forest) : nat :=
  match f with
  | FNil => 1
  | FCons _ _ sub rest => S (wsteps sub + wsteps rest)
  end.

Section walk.
Variable f : forest.
Let xs := trie_nodes f.
Let ds := domain_set_of f.

Lemma label_bits : exists pad, bm_bits (label_bitmap ds) = trie_bits xs ++ pad /\ bitmap_ok (label_bitmap ds).
Proof.
  destruct (pack_spec (length (trie_bits xs)) (trie_bits xs)) as [H1 [pad H2]]; [done|].
  exists (replicate pad false). split; [exact H2|]. by split.
Qed.

Lemma leaf_bits : exists pad, bm_bits (leaves ds) = trie_leaves xs ++ pad.
Proof.
  destruct (pack_spec (length (trie_leaves xs)) (trie_leaves xs)) as [_ [pad H2]]; [done|].
  exists (replicate pad false). exact H2.
Qed.

Lemma step_end n x cur r st out :
  xs !! n = Some x ->
  domain_step ds (mkWalk cur (mkFrame n (start xs n + flen x) r :: st) out)
  = Ret (Ok (inl (mkWalk (take r cur) st out))).
Proof.
  intros Hn. destruct label_bits as (pad & Hb & _). unfold domain_step. cbn [stack bm_idx].
  rewrite bm_get_spec, Hb, (trie_bit_lookup _ _ _ _ _ Hn), bool_decide_true by done. done.
Qed.

Lemma step_child n x i l leaf sub cur r st out :
  xs !! n = Some x -> children x !! i = Some (l, leaf, sub) ->
  (leaf = true -> utf8_valid (rev (cur ++ [l])) = true) ->
  S (length st) < MAX_DOMAIN_SET_DEPTH ->
  let c := S (children_before xs n + i) in
  domain_step ds (mkWalk cur (mkFrame n (start xs n + i) r :: st) out)
  = Ret (Ok (inl (mkWalk (cur ++ [l])
      (mkFrame c (start xs c) (length cur) :: mkFrame n (start xs n + S i) r :: st)
      (out ++ (if leaf then [rev (cur ++ [l])] else []))))).
Proof.
  intros Hn Hc Hu Hd c. destruct label_bits as (pad & Hb & Hok). destruct leaf_bits as [padl Hl].
  assert (Hi : i < flen x) by (by apply lookup_lt_is_Some_1; eexists).
  assert (Hnl : n < length xs) by (by apply lookup_lt_is_Some_1; eexists).
  assert (Hxc : xs !! c = Some sub) by exact (trie_nodes_child _ _ _ _ _ Hn Hc).
  assert (Hcl : c < length xs) by (by apply lookup_lt_is_Some_1; eexists).
  assert (Hst : start xs n = children_before xs n + n) by (apply start_eq; lia).
  assert (Hsc : start xs c = children_before xs c + c) by (apply start_eq; lia).
  assert (Hbit : bm_bits (label_bitmap ds) !! (start xs n + i) = Some false).
  { rewrite Hb, (trie_bit_lookup _ _ _ _ _ Hn) by lia. by rewrite bool_decide_false by lia. }
  unfold domain_step. cbn [stack bm_idx node_id restore_len current emitted].
  rewrite bm_get_spec, Hbit. cbn [obind obind_res ok_or].
  rewrite decide_False by lia. replace (start xs n + i - n) with (children_before xs n + i) by lia.
  assert (labels ds !! (children_before xs n + i) = Some l) as ->.
  { unfold ds, domain_set_of, trie_labels. cbn [labels]. fold xs.
    by rewrite list_lookup_fmap, (trie_child_lookup _ _ _ _ _ Hn Hc). }
  cbn [obind_res ok_or]. rewrite rank0_spec by done.
  rewrite decide_True.
  2: { unfold total_bits. rewrite <- length_flat. apply lookup_lt_Some in Hbit. unfold bm_bits in Hbit. lia. }
  rewrite Hb. replace (start xs n + i + 1) with (start xs n + S i) by lia.
  rewrite (trie_bit_rank _ _ _ _ _ Hn) by lia. cbn [obind obind_res ok_or].
  replace (start xs n + S i - n) with c by (unfold c; lia).
  rewrite decide_True by (unfold c; lia). rewrite select1_spec, Hb by done.
  rewrite trie_select by (unfold c in *; lia). cbn [obind obind_res ok_or].
  replace (S (c - 1)) with c by (unfold c; lia). replace (start xs c - 1 + 1) with (start xs c) by (unfold c in *; lia).
  unfold is_leaf. rewrite bm_get_spec, Hl.
  assert ((trie_leaves xs ++ padl) !! c = Some leaf) as ->.
  { apply lookup_app_l_Some. unfold trie_leaves, c.
    change ((false :: ?l) !! S ?k) with (l !! k). by rewrite list_lookup_fmap, (trie_child_lookup _ _ _ _ _ Hn Hc). }
  cbn [obind obind_res].
  assert ((if leaf then emit out (cur ++ [l]) else Ret (Ok out))
          = Ret (Ok (out ++ (if leaf then [rev (cur ++ [l])] else [])))) as ->.
  { destruct leaf; [|by rewrite app_nil_r]. unfold emit, from_utf8. by rewrite Hu. }
  cbn [obind_res length]. by rewrite decide_False by lia.
Qed.

Lemma walk_children g n x i cur r st out :
  xs !! n = Some x -> i <= flen x -> drop i (children x) = children g ->
  Forall (fun p => utf8_valid p = true) (patterns cur g) ->
  S (length st) + height g <= MAX_DOMAIN_SET_DEPTH ->
  iter_res (wsteps g) (domain_step ds) (mkWalk cur (mkFrame n (start xs n + i) r :: st) out)
  = Ret (Ok (inl (mkWalk (take r cur) st (out ++ patterns cur g)))).
Proof.
  revert n x i cur r st out. induction g as [|l leaf sub IHs rest IHr];
    intros n x i cur r st out Hn Hi Hg Hu Hd; cbn [wsteps iter_res].
  - assert (i = flen x) as ->.
    { apply (f_equal length) in Hg. rewrite length_drop in Hg. unfold flen in *. simpl in Hg. lia. }
    rewrite step_end by done. cbn [obind_res iter_res patterns]. by rewrite app_nil_r.
  - assert (Hc : children x !! i = Some (l, leaf, sub)).
    { replace i with (i + 0) by lia. rewrite <- lookup_drop, Hg. done. }
    assert (Hi' : i < flen x) by (by apply lookup_lt_is_Some_1; eexists).
    assert (Hg' : drop (S i) (children x) = children rest).
    { replace (S i) with (i + 1) by lia. rewrite <- drop_drop, Hg. done. }
    cbn [patterns] in Hu. apply Forall_app in Hu as [Hu1 Hu]. apply Forall_app in Hu as [Hu2 Hu3].
    cbn [height] in Hd.
    rewrite (step_child _ _ _ _ _ _ _ _ _ _ Hn Hc); [|destruct leaf; [by inversion Hu1|done]|lia].
    cbn [obind_res]. rewrite iter_res_add. set (c := S (children_before xs n + i)).
    assert (Hxc : xs !! c = Some sub) by exact (trie_nodes_child _ _ _ _ _ Hn Hc).
    replace (start xs c) with (start xs c + 0) by lia.
    rewrite (IHs c sub); [|done|lia|by rewrite drop_0|done|cbn [length]; lia].
    cbn [obind_res]. rewrite take_app_length.
    rewrite (IHr n x (S i)); [|done|lia|done|done|lia]. cbn [patterns]. by rewrite <- !app_assoc.
Qed.
End walk.

Lemma for_each_domain_of f :
  (Z.of_nat (wsteps f) <= Z.pos MAX_DOMAIN_SET_STEPS)%Z -> S (height f) <= MAX_DOMAIN_SET_DEPTH ->
  Forall (fun p => utf8_valid p = true) (patterns [] f) ->
  for_each_domain (domain_set_of f) = Ret (Ok (patterns [] f)).
Proof.
  intros Hs Hh Hu. unfold for_each_domain. rewrite run_pos_iter.
  replace (Pos.to_nat MAX_DOMAIN_SET_STEPS)
    with (wsteps f + (Pos.to_nat MAX_DOMAIN_SET_STEPS - wsteps f)) by lia.
  rewrite iter_res_add.
  pose proof (walk_children f f 0 f 0 [] 0 [] []) as Hw.
  change (start (trie_nodes f) 0 + 0) with 0 in Hw.
  rewrite Hw; [|done|lia|by rewrite drop_0|done|cbn [length]; lia]. cbn [obind_res app]. destruct (_ - wsteps f) as [|k]; done.
Qed.

(** ** Sizes *)

Lemma length_bfs fuel q :
  qsize q <= fuel -> length (bfs fuel q) = qsize q /\
  length (trie_children (bfs fuel q)) + length q = qsize q.
Proof.
  revert q. induction fuel as [|fuel IH]; intros [|x q] Hf; [done|cbn in Hf; lia|done|].
  rewrite bfs_cons, trie_children_cons, length_app. fold (flen x).
  assert (Hq : qsize (x :: q) = S (fsize x) + qsize q) by done.
  destruct (IH (q ++ subs x)) as [H1 H2]; rewrite qsize_app, qsize_subs in *; [lia|].
  rewrite length_app, length_subs in H2. simpl length. lia.
Qed.

Lemma trie_sizes f :
  length (trie_nodes f) = S (fsize f) /\ length (trie_children (trie_nodes f)) = fsize f /\
  wsteps f = 2 * fsize f + 1.
Proof.
  destruct (length_bfs (S (fsize f)) [f]) as [H1 H2]; [unfold qsize; simpl; lia|].
  unfold qsize in *. simpl sum_list_with in *. change (length [f]) with 1 in H2. split; [|split].
  - unfold trie_nodes. lia.
  - unfold trie_nodes. lia.
  - clear. induction f as [|l leaf sub IH1 rest IH2]; [done|]. simpl. lia.
Qed.

Lemma length_pack fuel l : length (pack fuel l) <= length l.
Proof.
  revert l. induction fuel as [|fuel IH]; intros l; cbn [pack]; [simpl; lia|].
  destruct l as [|b l]; [done|]. set (m := b :: l). cbn [length]. specialize (IH (drop 64 m)).
  rewrite length_drop in IH. unfold m in *. simpl length in *. lia.
Qed.

Lemma pack_nonempty l : l <> [] -> pack_bits l <> [].
Proof. by destruct l. Qed.

(** ** The file *)

Definition word_array (ws : list Z) : list Z :=
  to_be 8 (Z.of_nat (length ws)) ++ concat (to_be 8 <$> ws).

Definition domain_file (count : Z) (extra : list Z) (f : forest) : list Z :=
  mrs_header BEHAVIOR_DOMAIN count extra ++ [1%Z] ++
  word_array (pack_bits (trie_leaves (trie_nodes f))) ++
  word_array (pack_bits (trie_bits (trie_nodes f))) ++
  to_be 8 (Z.of_nat (length (trie_labels (trie_nodes f)))) ++ trie_labels (trie_nodes f).

Lemma read_word_array {B} ws rest (k : list Z -> mreader B) :
  Forall (fun w => 0 <= w < 2 ^ 64)%Z ws -> (Z.of_nat (length ws) * 8 <= MAX_ARRAY_BYTES)%Z ->
  (let% n := read_u64_be TruncatedBody in let% l := read_u64_be_vec n in k l) (word_array ws ++ rest)
  = k ws rest.
Proof.
  intros Hws Hn. assert (H64 : (MAX_ARRAY_BYTES < 2 ^ 64)%Z) by done. unfold word_array.
  rewrite <- app_assoc. erewrite rbind_Ok by (apply read_u64_be_app; lia).
  apply rbind_Ok. unfold read_u64_be_vec. rewrite decide_False by lia. rewrite Nat2Z.id.
  apply read_many_app. intros w rest' Hin. rewrite Forall_forall in Hws. by apply read_u64_be_app, Hws.
Qed.

Lemma read_chunks_app fuel l rest :
  (Z.of_nat (length l) <= Z.of_nat fuel * 8192)%Z ->
  read_chunks (S fuel) (Z.of_nat (length l)) (l ++ rest) = Ok (l, rest).
Proof.
  revert l. induction fuel as [|fuel IH]; intros l Hl; [by destruct l; [|simpl in *; lia]|]. cbn [read_chunks].
  destruct (decide (0 < Z.of_nat (length l))%Z) as [Hpos|]; [|by destruct l; [|simpl in *; lia]].
  set (n := Z.min (Z.of_nat (length l)) 8192).
  assert (Hn : Z.to_nat n <= length l) by lia.
  assert (l ++ rest = take (Z.to_nat n) l ++ drop (Z.to_nat n) l ++ rest) as ->
    by (by rewrite app_assoc, take_drop).
  erewrite rbind_Ok by (apply read_exact_or_app; rewrite length_take; lia).
  replace (Z.of_nat (length l) - n)%Z with (Z.of_nat (length (drop (Z.to_nat n) l))) by (rewrite length_drop; lia).
  erewrite rbind_Ok by (apply IH; rewrite length_drop; lia).
  unfold rret. by rewrite take_drop.
Qed.

Lemma read_byte_vec_app l rest :
  (Z.of_nat (length l) <= MAX_ARRAY_BYTES)%Z ->
  read_byte_vec (Z.of_nat (length l)) (l ++ rest) = Ok (l, rest).
Proof.
  intros Hl. unfold read_byte_vec. rewrite decide_False by lia.
  set (q := (Z.of_nat (length l) / 8192)%Z).
  replace (Z.to_nat (q + 2)) with (S (Z.to_nat (q + 1))) by (unfold q; Z.to_euclidean_division_equations; lia).
  apply read_chunks_app. unfold q. Z.to_euclidean_division_equations. lia.
Qed.

(** C36: a domain rule-set file in the documented layout, holding the breadth-first
    succinct encoding of a pattern trie (fewer than 2^24 edges, height below 4096,
    patterns in UTF-8), is decoded to exactly the trie's stored patterns, each
    reversed back to reading order, in depth-first order; trailing bytes are
    ignored. *)
Theorem decode_domain_patterns_correct zstd raw count extra f rest :
  zstd raw = Some (domain_file count extra f ++ rest) ->
  (0 <= count < 2 ^ 64)%Z -> (Z.of_nat (length extra) <= MAX_ARRAY_BYTES)%Z ->
  f <> FNil -> (Z.of_nat (fsize f) < 2 ^ 24)%Z -> S (height f) <= MAX_DOMAIN_SET_DEPTH ->
  Forall (fun p => utf8_valid p = true) (patterns [] f) ->
  decode_domain_patterns zstd raw = Ret (Ok (patterns [] f)).
Proof.
  intros Hz Hc He Hne Hsize Hh Hu. destruct (trie_sizes f) as (Hn & Hch & Hw).
  assert (HM : MAX_ARRAY_BYTES = (2 ^ 28)%Z) by done.
  unfold decode_domain_patterns. rewrite Hz. unfold domain_file, domain_body, domain_set_read.
  rewrite <- !app_assoc. erewrite rbind_Ok by by apply read_header_of. rewrite decide_False by tauto.
  erewrite rbind_Ok by by apply read_exact_or_app. rewrite decide_False by (cbn; lia).
  rewrite read_word_array; [|by apply pack_spec|].
  2: { pose proof (length_pack (length (trie_leaves (trie_nodes f))) (trie_leaves (trie_nodes f))) as Hp.
       unfold pack_bits, trie_leaves in *. simpl length in *. rewrite length_fmap, Hch in Hp.
       rewrite length_fmap, Hch. lia. }
  rewrite read_word_array; [|by apply pack_spec|].
  2: { pose proof (length_pack (length (trie_bits (trie_nodes f))) (trie_bits (trie_nodes f))) as Hp.
       fold (pack_bits (trie_bits (trie_nodes f))) in Hp. rewrite length_trie_bits, Hch, Hn in Hp. lia. }
  assert (Hlab : length (trie_labels (trie_nodes f)) = fsize f) by (unfold trie_labels; by rewrite length_fmap).
  erewrite rbind_Ok by (apply read_u64_be_app; rewrite Hlab; lia).
  erewrite rbind_Ok by (apply read_byte_vec_app; rewrite Hlab; lia).
  rewrite decide_False.
  - unfold rret. fold (domain_set_of f). apply for_each_domain_of; [|done|done].
    rewrite Hw. change (Z.pos MAX_DOMAIN_SET_STEPS) with (2 ^ 29)%Z. lia.
  - intros [H|[H|H]]; revert H; [by apply pack_nonempty| |].
    + apply pack_nonempty. intros H%(f_equal length). rewrite length_trie_bits, Hn in H. simpl in H. lia.
    + intros H%(f_equal length). rewrite Hlab in H. by destruct f.
Qed.

(** The trie of [com] and [b.com] over reversed bytes. *)
Definition demo_trie : forest :=
  FCons 109 false (FCons 111 false (FCons 99 true (FCons 46 false (FCons 98 true FNil FNil) FNil) FNil) FNil) FNil.

Lemma decode_domain_patterns_witness :
  decode_domain_patterns Some (domain_file 2 [] demo_trie ++ [0%Z]) = Ret (Ok [[99; 111; 109]; [98; 46; 99; 111; 109]])%Z.
Proof.
  apply (decode_domain_patterns_correct Some _ 2 [] demo_trie [0%Z]);
    [reflexivity|lia|by apply Z.leb_le|done|by apply Z.ltb_lt|by apply Nat.leb_le|].
  by apply (bool_decide_unpack _).
Defined.

Lemma decode_domain_patterns_total_witness :
  returns (decode_domain_patterns Some (domain_file 2 [] demo_trie ++ [0%Z])).
Proof.
  apply decode_domain_patterns_total. intros stream [= <-]. apply bytes_check. vm_compute. reflexivity.
Defined.
