(* ===== verification/Ruleset.v ===== *)
(** * The rule-set database (src/src/ruleset.rs)

    Loading of the configured rule-set files (text or mrs, domain or ipcidr
    behaviour), the partial reload that reuses unchanged entries, and the matching
    queries.  The file system at load time ([fs_read]), the zstd decoder, the
    regex engine and the path normalisation of the file watcher (which asks the
    operating system for canonical paths) are parameters. *)

From stdpp Require Import strings.
From S2P Require Import Prelude Hasher DnsName DnsQuery Utf8 DnsQname DnsRecords DnsEdns Ecs IpRange RustStr Domain IpParse RankBitmap Persist Mrs.

Inductive RuleSetFormat := FormatText | FormatMrs.
Inductive RuleSetBehavior := BehaviorDomain | BehaviorIpCidr.

Record RuleSetSpec := mkSpec {
  spec_tag : list Z;
  spec_format : RuleSetFormat;
  spec_behavior : RuleSetBehavior;
  spec_path : list Z
}.

(** The error sites of [load]. *)
Inductive load_error :=
| ReadFailed
| TextNotUtf8
| MrsInvalid (e : mrs_error)
| InvalidCidr (lineno : nat) (e : cidr_error)
| TagNotFound (tag : list Z)
| TagIsIpCidr (tag : list Z)
| TagIsDomain (tag : list Z).

(** [config::AnswerIpMatcher] *)
Record AnswerIpMatcher := mkAnswerIp { ai_include : list (list Z); ai_exclude : list (list Z) }.

(** [parse_text_lines], and the line filter [build_ipcidr_set] shares with it. *)
Definition content_line (line : list Z) : bool :=
  negb (bool_decide (line = [])) && negb (starts_with (lit "#") line) && negb (starts_with (lit "//") line).

Definition parse_text_lines (text : list Z) : list (list Z) :=
  filter (fun l => content_line l = true) (trim <$> lines text).

(** The text branch of [build_ipcidr_set]: the line loop. *)
Fixpoint cidr_lines (lineno : nat) (ls : list (list Z)) (builder : list range)
  : result load_error (list range) :=
  match ls with
  | [] => Ok builder
  | line :: ls' =>
      let line := trim line in
      if negb (content_line line) then cidr_lines (S lineno) ls' builder
      else
        match push_cidr_line builder line with
        | Ok builder => cidr_lines (S lineno) ls' builder
        | Err e => Err (InvalidCidr (lineno + 1) e)
        end
  end.

Section ruleset.
Context {Regex : Type} `{!RegexEngine Regex}.

Inductive TagEntry :=
| TagDomain (m : DomainMatcher Regex unit)
| TagIpCidr (set : IpRangeSet).

Record RuleSetDb := mkDb { db_tags : gmap (list Z) TagEntry }.

Definition apply_domain_pattern (m : DomainMatcher Regex unit) (pattern : list Z)
  : DomainMatcher Regex unit * bool :=
  match classify_pattern pattern with
  | Suffix n => (insert_suffix m n (), true)
  | Full n => (insert_full m n (), true)
  | Wildcard re => (insert_regex m re (), true)
  | Invalid => (m, false)
  end.

Section load.
Variable zstd : list Z -> option (list Z).
Variable watch_path : list Z -> list Z.
Variable fs_read : list Z -> option (list Z).

Definition read_domain_patterns (spec : RuleSetSpec) : outcome (result load_error (list (list Z))) :=
  match fs_read (spec_path spec) with
  | None => Ret (Err ReadFailed)
  | Some raw =>
      match spec_format spec with
      | FormatMrs =>
          let! r := decode_domain_patterns zstd raw in
          Ret (match r with Ok ps => Ok ps | Err e => Err (MrsInvalid e) end)
      | FormatText =>
          Ret (match from_utf8 raw with
               | Some text => Ok (parse_text_lines text)
               | None => Err TextNotUtf8
               end)
      end
  end.

Definition build_ipcidr_set (spec : RuleSetSpec) : result load_error IpRangeSet :=
  match fs_read (spec_path spec) with
  | None => Err ReadFailed
  | Some raw =>
      match spec_format spec with
      | FormatMrs =>
          match decode_ipcidr_ranges zstd raw with
          | Err e => Err (MrsInvalid e)
          | Ok ranges => Ok (build (foldl (fun b r => push_range b (fst r) (snd r)) [] ranges))
          end
      | FormatText =>
          match from_utf8 raw with
          | None => Err TextNotUtf8
          | Some text =>
              match cidr_lines 0 (lines text) [] with
              | Ok ranges => Ok (build ranges)
              | Err e => Err e
              end
          end
      end
  end.

(** The [match spec.behavior] of the loading loop. *)
Definition load_entry (spec : RuleSetSpec) : outcome (result load_error TagEntry) :=
  match spec_behavior spec with
  | BehaviorDomain =>
      let* patterns := read_domain_patterns spec in
      Ret (Ok (TagDomain (foldl (fun m p => fst (apply_domain_pattern m p)) matcher_default patterns)))
  | BehaviorIpCidr =>
      Ret (match build_ipcidr_set spec with Ok set => Ok (TagIpCidr set) | Err e => Err e end)
  end.

(** The entry reused for [spec], when there is one. *)
Definition reusable (reuse : option (RuleSetDb * gset (list Z))) (spec : RuleSetSpec) : option TagEntry :=
  match reuse with
  | Some (prev, changed_paths) =>
      if decide (watch_path (spec_path spec) ∈ changed_paths) then None
      else db_tags prev !! spec_tag spec
  | None => None
  end.

Fixpoint load_specs (specs : list RuleSetSpec) (domain_tags ipcidr_tags : gset (list Z))
    (reuse : option (RuleSetDb * gset (list Z))) (db : RuleSetDb) : outcome (result load_error RuleSetDb) :=
  match specs with
  | [] => Ret (Ok db)
  | spec :: specs' =>
      if decide ((spec_tag spec ∉ domain_tags) /\ (spec_tag spec ∉ ipcidr_tags)) then
        load_specs specs' domain_tags ipcidr_tags reuse db
      else
        match reusable reuse spec with
        | Some entry =>
            load_specs specs' domain_tags ipcidr_tags reuse (mkDb (<[spec_tag spec := entry]> (db_tags db)))
        | None =>
            let* entry := load_entry spec in
            load_specs specs' domain_tags ipcidr_tags reuse (mkDb (<[spec_tag spec := entry]> (db_tags db)))
        end
  end.

Fixpoint check_domain_tags (db : RuleSetDb) (tags : list (list Z)) : result load_error unit :=
  match tags with
  | [] => Ok tt
  | tag :: tags' =>
      match db_tags db !! tag with
      | None => Err (TagNotFound tag)
      | Some (TagIpCidr _) => Err (TagIsIpCidr tag)
      | Some (TagDomain _) => check_domain_tags db tags'
      end
  end.

Fixpoint check_ipcidr_tags (db : RuleSetDb) (tags : list (list Z)) : result load_error unit :=
  match tags with
  | [] => Ok tt
  | tag :: tags' =>
      match db_tags db !! tag with
      | None => Err (TagNotFound tag)
      | Some (TagDomain _) => Err (TagIsDomain tag)
      | Some (TagIpCidr _) => check_ipcidr_tags db tags'
      end
  end.

(** [RuleSetDb::load]; the hash sets are iterated in the order of [elements]. *)
Definition load (specs : list RuleSetSpec) (domain_tags ipcidr_tags : gset (list Z))
    (reuse : option (RuleSetDb * gset (list Z))) : outcome (result load_error RuleSetDb) :=
  let* db := load_specs specs domain_tags ipcidr_tags reuse (mkDb ∅) in
  let* _ := Ret (check_domain_tags db (elements domain_tags)) in
  let* _ := Ret (check_ipcidr_tags db (elements ipcidr_tags)) in
  Ret (Ok db).
End load.

Definition matches (self : RuleSetDb) (tag domain : list Z) : outcome bool :=
  match db_tags self !! tag with
  | Some (TagDomain m) => domain_hit m domain
  | _ => Ret false
  end.

Definition matches_ip (self : RuleSetDb) (tag : list Z) (ip : IpAddr) : outcome bool :=
  match db_tags self !! tag with
  | Some (TagIpCidr set) => contains set ip
  | _ => Ret false
  end.

Definition matches_any_ip (self : RuleSetDb) (tag : list Z) (ips : list IpAddr) : outcome bool :=
  oany (matches_ip self tag) ips.

Definition matches_answer_ip (self : RuleSetDb) (m : AnswerIpMatcher) (ips : list IpAddr) : outcome bool :=
  let! include_ok := (if decide (ai_include m = []) then Ret true
                      else oany (fun tag => matches_any_ip self tag ips) (ai_include m)) in
  let! excluded := oany (fun tag => matches_any_ip self tag ips) (ai_exclude m) in
  Ret (include_ok && negb excluded).

Definition tag_counts (self : RuleSetDb) : list (list Z * nat) :=
  (fun kv => (fst kv, match snd kv with
                      | TagDomain m => matcher_len m
                      | TagIpCidr set => length (set_ranges set)
                      end)) <$> map_to_list (db_tags self).
End ruleset.

Arguments TagEntry Regex : clear implicits.
Arguments RuleSetDb Regex : clear implicits.

(** ** Domain entries *)

Section theory.
Context {Regex : Type} `{!RegexEngine Regex, !RegexLaws Regex}.

Lemma hits_apply_pattern (m : DomainMatcher Regex unit) p q :
  utf8_valid q = true ->
  matcher_hits (fst (apply_domain_pattern m p)) q <-> matcher_hits m q \/ pattern_matches p q.
Proof.
  intros Hq. rewrite <- (classify_pattern_hits p q Hq). unfold apply_domain_pattern.
  destruct (classify_pattern p); cbn [fst kind_hits].
  - apply hits_insert_suffix.
  - apply hits_insert_full.
  - apply hits_insert_regex.
  - tauto.
Qed.

Lemma hits_patterns (m : DomainMatcher Regex unit) ps q :
  utf8_valid q = true ->
  matcher_hits (foldl (fun m p => fst (apply_domain_pattern m p)) m ps) q <->
  matcher_hits m q \/ Exists (fun p => pattern_matches p q) ps.
Proof.
  intros Hq. revert m. induction ps as [|p ps IH]; intros m; cbn [foldl].
  - rewrite Exists_nil. tauto.
  - rewrite IH, hits_apply_pattern, Exists_cons by done. tauto.
Qed.

(** ** Loading *)

Section loading.
Variable zstd : list Z -> option (list Z).
Variable watch_path : list Z -> list Z.

(** Entries come from the specs' files or from the database before. *)
Lemma load_specs_origin fs specs D I (db db' : RuleSetDb Regex) t e :
  load_specs zstd watch_path fs specs D I None db = Ret (Ok db') -> db_tags db' !! t = Some e ->
  (exists spec, spec ∈ specs /\ spec_tag spec = t /\ load_entry zstd fs spec = Ret (Ok e)) \/
  db_tags db !! t = Some e.
Proof.
  revert db. induction specs as [|spec specs IH]; intros db; cbn [load_specs].
  - intros [= ->]. by right.
  - intros Hl He. case_decide.
    { destruct (IH _ Hl He) as [(s & Hs & Ht & Hs')|]; [left|by right]. exists s. split; [by right|done]. }
    cbn [reusable] in Hl. apply obind_res_Ok_inv in Hl as (e' & He' & Hl).
    destruct (IH _ Hl He) as [(s & Hs & Ht & Hs')|Hdb]; [left; exists s; split; [by right|done]|].
    cbn [db_tags] in Hdb. apply lookup_insert_Some in Hdb as [[<- <-]|[_ ?]]; [|by right].
    left. exists spec. split; [by left|done].
Qed.

Lemma check_domain_Ok (db : RuleSetDb Regex) tags t :
  check_domain_tags db tags = Ok tt -> t ∈ tags -> exists m, db_tags db !! t = Some (TagDomain m).
Proof.
  induction tags as [|t' tags IH]; intros Hc Ht; [by apply not_elem_of_nil in Ht|]. cbn in Hc.
  apply elem_of_cons in Ht as [->|Ht]; destruct (db_tags db !! t') as [[m|s]|]; [by exists m|done..|by apply IH| |]; done.
Qed.

Lemma check_ipcidr_Ok (db : RuleSetDb Regex) tags t :
  check_ipcidr_tags db tags = Ok tt -> t ∈ tags -> exists s, db_tags db !! t = Some (TagIpCidr s).
Proof.
  induction tags as [|t' tags IH]; intros Hc Ht; [by apply not_elem_of_nil in Ht|]. cbn in Hc.
  apply elem_of_cons in Ht as [->|Ht]; destruct (db_tags db !! t') as [[m|s]|]; [done|by exists s|done..|by apply IH|]; done.
Qed.

Lemma load_Ok_inv fs specs D I reuse (db : RuleSetDb Regex) :
  load zstd watch_path fs specs D I reuse = Ret (Ok db) ->
  load_specs zstd watch_path fs specs D I reuse (mkDb ∅) = Ret (Ok db) /\
  (forall t, t ∈ D -> exists m, db_tags db !! t = Some (TagDomain m)) /\
  (forall t, t ∈ I -> exists s, db_tags db !! t = Some (TagIpCidr s)).
Proof.
  unfold load. intros Hl. apply obind_res_Ok_inv in Hl as (db' & Hs & Hl).
  apply obind_res_Ok_inv in Hl as ([] & Hd & Hl). apply obind_res_Ok_inv in Hl as ([] & Hi & Hl).
  injection Hd as Hd. injection Hi as Hi. injection Hl as ->. split; [done|]. split; intros t Ht.
  - eapply check_domain_Ok; [done|]. by apply elem_of_elements.
  - eapply check_ipcidr_Ok; [done|]. by apply elem_of_elements.
Qed.

(** C33: when [load] succeeds, every requested domain tag is bound to a configured
    file of domain behaviour whose patterns were read, and [matches] answers true
    exactly when one of those patterns matches the name; every requested ipcidr tag
    is bound to a configured file of ipcidr behaviour and [matches_ip] is
    containment in the set built from it.  (So a missing tag, a tag of the wrong
    behaviour and an unreadable file all make [load] fail.) *)
Theorem ruleset_load_correct fs specs D I (db : RuleSetDb Regex) :
  load zstd watch_path fs specs D I None = Ret (Ok db) ->
  (forall t, t ∈ D -> exists spec ps, spec ∈ specs /\ spec_tag spec = t /\
     spec_behavior spec = BehaviorDomain /\ read_domain_patterns zstd fs spec = Ret (Ok ps) /\
     forall q, utf8_valid q = true ->
       exists b, matches db t q = Ret b /\ (b = true <-> Exists (fun p => pattern_matches p q) ps)) /\
  (forall t, t ∈ I -> exists spec set, spec ∈ specs /\ spec_tag spec = t /\
     spec_behavior spec = BehaviorIpCidr /\ build_ipcidr_set zstd fs spec = Ok set /\
     forall ip, matches_ip db t ip = contains set ip).
Proof.
  intros Hl. apply load_Ok_inv in Hl as (Hs & HD & HI). split; intros t Ht.
  - apply HD in Ht as [m Hm].
    destruct (load_specs_origin _ _ _ _ _ _ _ _ Hs Hm) as [(spec & Hin & Htag & He)|Hno];
      [|cbn [db_tags] in Hno; by rewrite lookup_empty in Hno].
    exists spec. unfold load_entry in He. destruct (spec_behavior spec).
    + apply obind_res_Ok_inv in He as (ps & Hps & He). injection He as <-. exists ps.
      repeat (split; [done|]). intros q Hq. unfold matches. rewrite Hm.
      destruct (domain_hit_spec (foldl (fun m p => fst (apply_domain_pattern m p)) matcher_default ps) q) as (b & Hb & Hiff).
      exists b. split; [exact Hb|]. rewrite Hiff, hits_patterns by done.
      split; [|by right]. intros [Hd|?]; [|done]. by apply hits_default in Hd.
    + destruct (build_ipcidr_set zstd fs spec); discriminate He.
  - apply HI in Ht as [s Hm].
    destruct (load_specs_origin _ _ _ _ _ _ _ _ Hs Hm) as [(spec & Hin & Htag & He)|Hno];
      [|cbn [db_tags] in Hno; by rewrite lookup_empty in Hno].
    exists spec. unfold load_entry in He. destruct (spec_behavior spec).
    + apply obind_res_Ok_inv in He as (ps & Hps & He). discriminate He.
    + destruct (build_ipcidr_set zstd fs spec) as [set|]; [|discriminate He]. injection He as ->.
      exists s. repeat (split; [done|]). intros ip. unfold matches_ip. by rewrite Hm.
Qed.

(** ** Partial reload *)

(** Every entry of [db] is what its file gives now. *)
Definition fresh (fs : list Z -> option (list Z)) (specs : list RuleSetSpec) (db : RuleSetDb Regex) : Prop :=
  forall spec e, spec ∈ specs -> db_tags db !! spec_tag spec = Some e -> load_entry zstd fs spec = Ret (Ok e).

Lemma load_entry_ext fs fs' spec :
  fs (spec_path spec) = fs' (spec_path spec) ->
  load_entry zstd fs spec = (load_entry zstd fs' spec : outcome (result load_error (TagEntry Regex))).
Proof. intros Hfs. unfold load_entry, read_domain_patterns, build_ipcidr_set. by rewrite Hfs. Qed.

Lemma load_specs_reuse fs specs D I prev changed (db : RuleSetDb Regex) :
  (forall spec e, spec ∈ specs -> watch_path (spec_path spec) ∉ changed ->
     db_tags prev !! spec_tag spec = Some e -> load_entry zstd fs spec = Ret (Ok e)) ->
  load_specs zstd watch_path fs specs D I (Some (prev, changed)) db
  = load_specs zstd watch_path fs specs D I None db.
Proof.
  revert db. induction specs as [|spec specs IH]; intros db Hf; [done|]. cbn [load_specs].
  assert (Hf' : forall spec e, spec ∈ specs -> watch_path (spec_path spec) ∉ changed ->
     db_tags prev !! spec_tag spec = Some e -> load_entry zstd fs spec = Ret (Ok e)).
  { intros s e Hs. apply Hf. by right. }
  destruct (decide (_ /\ _)); [by apply IH|]. cbn [reusable].
  destruct (decide (watch_path (spec_path spec) ∈ changed)) as [Hc|Hc].
  - destruct (load_entry zstd fs spec) as [[e|e]| |]; cbn [obind_res]; [by apply IH|done..].
  - destruct (db_tags prev !! spec_tag spec) as [e|] eqn:He.
    + rewrite (Hf spec e) by (done || by left). cbn [obind_res]. by apply IH.
    + destruct (load_entry zstd fs spec) as [[e|e]| |]; cbn [obind_res]; [by apply IH|done..].
Qed.

Lemma load_specs_fresh fs specs D I (db db' : RuleSetDb Regex) all :
  NoDup (spec_tag <$> all) -> specs ⊆ all -> fresh fs all db ->
  load_specs zstd watch_path fs specs D I None db = Ret (Ok db') -> fresh fs all db'.
Proof.
  intros Hnd. revert db. induction specs as [|spec specs IH]; intros db Hsub Hf Hl; cbn [load_specs] in Hl.
  - by injection Hl as <-.
  - assert (specs ⊆ all) by (intros s Hs; apply Hsub; by right).
    case_decide; [by eapply IH|]. cbn [reusable] in Hl.
    apply obind_res_Ok_inv in Hl as (e & He & Hl). eapply IH; [done| |exact Hl].
    intros s e' Hs. cbn [db_tags]. intros [[Heq <-]|[_ Hold]]%lookup_insert_Some; [|by apply Hf].
    assert (s = spec) as ->; [|done].
    assert (spec ∈ all) as Hsp by (apply Hsub; by left).
    apply list_elem_of_lookup_1 in Hs as [i Hi]. apply list_elem_of_lookup_1 in Hsp as [j Hj].
    assert (i = j) as ->; [|congruence].
    eapply (NoDup_lookup _ i j (spec_tag spec) Hnd); rewrite list_lookup_fmap; [rewrite Hi|rewrite Hj]; cbn; congruence.
Qed.

(** A partial reload equals a full one.  If the previous database was loaded
    from the same specs (unique tags) while the files had the contents [fs0], and
    every file whose contents differ now has its watch path among the changed
    paths, then [load] with reuse returns exactly what [load] without reuse
    returns, whatever tags each of the two loads requested. *)
Theorem ruleset_reuse_correct fs0 fs specs D0 I0 D I changed (prev : RuleSetDb Regex) :
  NoDup (spec_tag <$> specs) ->
  load zstd watch_path fs0 specs D0 I0 None = Ret (Ok prev) ->
  (forall spec, spec ∈ specs -> watch_path (spec_path spec) ∉ changed ->
     fs (spec_path spec) = fs0 (spec_path spec)) ->
  load zstd watch_path fs specs D I (Some (prev, changed))
  = (load zstd watch_path fs specs D I None : outcome (result load_error (RuleSetDb Regex))).
Proof.
  intros Hnd Hprev Hfs. apply load_Ok_inv in Hprev as (Hs & _).
  assert (Hfresh : fresh fs0 specs prev).
  { eapply (load_specs_fresh fs0 specs D0 I0 (mkDb ∅)); [done|done| |done].
    intros spec e _ He. cbn [db_tags] in He. by rewrite lookup_empty in He. }
  unfold load. rewrite load_specs_reuse; [done|]. intros spec e Hin Hch He.
  rewrite (load_entry_ext fs fs0) by by apply Hfs. by apply Hfresh.
Qed.
End loading.

(** ** Answer addresses *)

Definition db_ok (db : RuleSetDb Regex) : Prop :=
  forall t s, db_tags db !! t = Some (TagIpCidr s) -> exists rs, ranges_ok rs /\ s = build rs.

(** The address lies in a range of the tag. *)
Definition tag_covers (db : RuleSetDb Regex) (t : list Z) (ip : IpAddr) : Prop :=
  exists rs, db_tags db !! t = Some (TagIpCidr (build rs)) /\ ranges_ok rs /\ in_some (to_u128 ip) rs.

Lemma matches_ip_spec db t ip :
  db_ok db -> exists b, matches_ip db t ip = Ret b /\ (b = true <-> tag_covers db t ip).
Proof.
  intros Hdb. unfold matches_ip, tag_covers. destruct (db_tags db !! t) as [[m|s]|] eqn:Ht.
  - exists false. split; [done|]. split; [done|]. by intros (? & ? & _).
  - destruct (Hdb _ _ Ht) as (rs & Hrs & ->). unfold contains. rewrite contains_build by done.
    eexists. split; [done|]. rewrite bool_decide_eq_true. split; [intros; by exists rs|].
    intros (rs' & Heq & Hrs' & Hin). assert (Heq' : build rs = build rs') by congruence.
    assert (Hb := contains_build rs' (to_u128 ip) Hrs'). rewrite bool_decide_true in Hb by done.
    assert (Hb' := contains_build rs (to_u128 ip) Hrs). rewrite Heq' in Hb'.
    rewrite Hb in Hb'. injection Hb' as Hb'. symmetry in Hb'. by apply bool_decide_eq_true in Hb'.
  - exists false. split; [done|]. split; [done|]. by intros (? & ? & _).
Qed.

Lemma push_ranges_ok ranges acc :
  ranges_ok acc -> Forall (fun r => 0 <= fst r <= U128_MAX /\ 0 <= snd r <= U128_MAX)%Z ranges ->
  ranges_ok (foldl (fun b r => push_range b (fst r) (snd r)) acc ranges).
Proof.
  intros Hacc Hr. revert acc Hacc. induction Hr as [|r ranges Hr Hrs IH]; intros acc Hacc; [done|].
  cbn [foldl]. apply IH. unfold push_range. case_decide; [|done]. apply Forall_app. split; [done|].
  apply Forall_singleton. cbn. lia.
Qed.

Lemma cidr_lines_ok n ls acc ranges :
  ranges_ok acc -> cidr_lines n ls acc = Ok ranges -> ranges_ok ranges.
Proof.
  revert n acc. induction ls as [|l ls IH]; intros n acc Hacc; cbn [cidr_lines].
  - by intros [= <-].
  - destruct (negb _); [by apply IH|]. destruct (push_cidr_line acc (trim l)) as [b|] eqn:Hb; [|done].
    apply IH. by eapply push_cidr_line_ok.
Qed.

Lemma delivers_range :
  delivers (fun r => 0 <= fst r <= U128_MAX /\ 0 <= snd r <= U128_MAX)%Z read_range.
Proof.
  unfold read_range. eapply delivers_bind; [apply delivers_exact|]. intros l1 [H1 Hl1].
  eapply delivers_bind; [apply delivers_exact|]. intros l2 [H2 Hl2]. apply delivers_ret. cbn [fst snd].
  apply from_be_bound in H1, H2. rewrite Hl1 in H1. rewrite Hl2 in H2. unfold U128_MAX.
  change (256 ^ Z.of_nat 16)%Z with (2 ^ 128)%Z in *. lia.
Qed.

Lemma ipcidr_body_ok stream ranges rest :
  bytes_ok stream -> ipcidr_body stream = Ok (ranges, rest) ->
  Forall (fun r => 0 <= fst r <= U128_MAX /\ 0 <= snd r <= U128_MAX)%Z ranges.
Proof.
  intros Hs Hb.
  assert (delivers (Forall (fun r => 0 <= fst r <= U128_MAX /\ 0 <= snd r <= U128_MAX)%Z) ipcidr_body) as Hd.
  { unfold ipcidr_body. eapply delivers_bind; [apply delivers_header|]. intros hdr _. case_decide; [done|].
    eapply delivers_bind; [apply delivers_exact|]. intros v _. case_decide; [done|].
    eapply delivers_bind; [apply delivers_u64|]. intros n _. case_decide; [done|].
    apply delivers_many, delivers_range. }
  by apply Hd in Hb as [? _].
Qed.

(** An entry of [load] has its range set built from well-formed ranges. *)
Definition entry_ok (e : TagEntry Regex) : Prop :=
  match e with TagDomain _ => True | TagIpCidr s => exists rs, ranges_ok rs /\ s = build rs end.

Lemma load_entry_ok zstd fs spec (e : TagEntry Regex) :
  (forall raw stream, zstd raw = Some stream -> bytes_ok stream) -> load_entry zstd fs spec = Ret (Ok e) -> entry_ok e.
Proof.
  intros Hz He. unfold load_entry in He. destruct (spec_behavior spec).
  { apply obind_res_Ok_inv in He as (ps & Hps & He). by injection He as <-. }
  unfold build_ipcidr_set in He. destruct (fs (spec_path spec)) as [raw|]; [|done].
  destruct (spec_format spec).
  - destruct (from_utf8 raw) as [text|]; [|done]. destruct (cidr_lines 0 (lines text) []) as [rs|] eqn:Hc; [|done].
    assert (e = TagIpCidr (build rs)) as -> by congruence. exists rs. split; [|done]. eapply cidr_lines_ok; [|done]. by apply Forall_nil.
  - unfold decode_ipcidr_ranges in He. destruct (zstd raw) as [stream|] eqn:Hraw; [|done].
    destruct (ipcidr_body stream) as [[ranges rest]|] eqn:Hb; [|done].
    assert (e = TagIpCidr (build (foldl (fun b r => push_range b (fst r) (snd r)) [] ranges))) as -> by congruence.
    eexists. split; [|done]. apply push_ranges_ok; [by apply Forall_nil|].
    eapply ipcidr_body_ok; [|done]. by eapply Hz.
Qed.

Lemma db_ok_entries (db : RuleSetDb Regex) : db_ok db <-> map_Forall (fun _ => entry_ok) (db_tags db).
Proof.
  split.
  - intros H t [m|s] He; [done|]. by apply (H t).
  - intros H t s He. by apply (H _ _ He).
Qed.

Lemma load_specs_ok zstd watch_path fs specs D I reuse (db db' : RuleSetDb Regex) :
  (forall raw stream, zstd raw = Some stream -> bytes_ok stream) ->
  (forall prev changed, reuse = Some (prev, changed) -> db_ok prev) -> db_ok db ->
  load_specs zstd watch_path fs specs D I reuse db = Ret (Ok db') -> db_ok db'.
Proof.
  intros Hz Hprev. revert db. induction specs as [|spec specs IH]; intros db Hdb; cbn [load_specs]; [by intros [= <-]|].
  case_decide; [by apply IH|].
  assert (Hins : forall e, entry_ok e -> db_ok (mkDb (<[spec_tag spec := e]> (db_tags db)))).
  { intros e He. apply db_ok_entries. cbn [db_tags]. apply map_Forall_insert_2; [done|]. by apply db_ok_entries. }
  destruct (reusable watch_path reuse spec) as [e|] eqn:Hr.
  - apply IH, Hins. unfold reusable in Hr. destruct reuse as [[prev changed]|]; [|done].
    case_decide; [done|]. specialize (Hprev _ _ eq_refl). apply db_ok_entries in Hprev. by apply (Hprev _ _ Hr).
  - intros Hl. apply obind_res_Ok_inv in Hl as (e & He & Hl). eapply IH; [|exact Hl]. apply Hins. by eapply load_entry_ok.
Qed.

(** A database from [load] has built its range sets from well-formed ranges, also when
    entries of a well-formed database are reused. *)
Lemma load_reuse_ok zstd watch_path fs specs D I reuse (db : RuleSetDb Regex) :
  (forall raw stream, zstd raw = Some stream -> bytes_ok stream) ->
  (forall prev changed, reuse = Some (prev, changed) -> db_ok prev) ->
  load zstd watch_path fs specs D I reuse = Ret (Ok db) -> db_ok db.
Proof.
  intros Hz Hprev Hl. apply load_Ok_inv in Hl as (Hs & _). eapply load_specs_ok; [done|done| |done].
  intros t s He. cbn [db_tags] in He. by rewrite lookup_empty in He.
Qed.

Lemma load_db_ok zstd watch_path fs specs D I (db : RuleSetDb Regex) :
  (forall raw stream, zstd raw = Some stream -> bytes_ok stream) ->
  load zstd watch_path fs specs D I None = Ret (Ok db) -> db_ok db.
Proof. intros Hz. by apply load_reuse_ok. Qed.

Lemma load_entry_returns zstd fs spec :
  (forall raw stream, zstd raw = Some stream -> bytes_ok stream) ->
  returns (load_entry zstd fs spec : outcome (result load_error (TagEntry Regex))).
Proof.
  intros Hz. unfold load_entry. destruct (spec_behavior spec); [|apply returns_Ret].
  apply returns_bind_res; [|intros; apply returns_Ret]. unfold read_domain_patterns.
  destruct (fs (spec_path spec)) as [raw|]; [|apply returns_Ret]. destruct (spec_format spec); [apply returns_Ret|].
  destruct (decode_domain_patterns_returns zstd raw) as [r ->]; [by apply Hz|]. apply returns_Ret.
Qed.

(** Loading ends with a database or an error, whatever the files hold. *)
Lemma load_returns (zstd : list Z -> option (list Z)) (watch_path : list Z -> list Z) (fs : list Z -> option (list Z)) (specs : list RuleSetSpec) (D I : gset (list Z)) (reuse : option (RuleSetDb Regex * gset (list Z))) :
  (forall raw stream, zstd raw = Some stream -> bytes_ok stream) -> returns (load zstd watch_path fs specs D I reuse).
Proof.
  intros Hz. unfold load. apply returns_bind_res; [|intros db _; apply returns_bind_res; [apply returns_Ret|intros _ _];
    apply returns_bind_res; [apply returns_Ret|intros; apply returns_Ret]].
  generalize (mkDb ∅ : RuleSetDb Regex). induction specs as [|spec specs IH]; intros db; cbn [load_specs]; [apply returns_Ret|].
  case_decide; [apply IH|]. destruct (reusable watch_path reuse spec); [apply IH|].
  apply returns_bind_res; [by apply load_entry_returns|intros; apply IH].
Qed.

Lemma matches_answer_ip_spec db m ips :
  db_ok db ->
  exists b, matches_answer_ip db m ips = Ret b /\
    (b = true <->
     (ai_include m = [] \/ Exists (fun t => Exists (tag_covers db t) ips) (ai_include m)) /\
     ~ Exists (fun t => Exists (tag_covers db t) ips) (ai_exclude m)).
Proof.
  intros Hdb. unfold matches_answer_ip.
  assert (Hany : forall l, exists b, oany (fun t => matches_any_ip db t ips) l = Ret b /\
    (b = true <-> Exists (fun t => Exists (tag_covers db t) ips) l)).
  { intros l. apply oany_spec. intros t. apply oany_spec. intros ip. by apply matches_ip_spec. }
  destruct (Hany (ai_include m)) as (bi & Hi & Hbi). destruct (Hany (ai_exclude m)) as (be & He & Hbe).
  rewrite Hi, He. case_decide as Hn; cbn [obind]; eexists; (split; [done|]);
    rewrite ?andb_true_l, ?andb_true_iff, negb_true_iff, <- not_true_iff_false, Hbe; rewrite ?Hbi; tauto.
Qed.

(** An [answer-ip] matcher accepts a set of answer addresses exactly when some
    address lies in a range of some include tag (or there is no include tag) and no
    address lies in a range of any exclude tag; evaluation never panics. *)
Theorem matches_answer_ip_correct db m ips :
  db_ok db ->
  exists b, matches_answer_ip db m ips = Ret b /\
    (b = true <->
     (ai_include m = [] \/ Exists (fun t => Exists (tag_covers db t) ips) (ai_include m)) /\
     ~ Exists (fun t => Exists (tag_covers db t) ips) (ai_exclude m)).
Proof. apply matches_answer_ip_spec. Qed.
End theory.

(** ** A concrete configuration *)

Module RulesetDemo.
Definition nl : list Z := [10%Z].
Definition text0 : list Z := lit "# proxied" ++ nl ++ lit "+.example.com" ++ nl ++ lit "*.foo.org " ++ nl.
Definition text1 : list Z := lit "10.0.0.0/8" ++ nl ++ lit "192.168.1.1" ++ nl.
Definition text1' : list Z := lit "172.16.0.0/12" ++ nl.
Definition specs : list RuleSetSpec :=
  [mkSpec (lit "gfw") FormatText BehaviorDomain (lit "/a.list");
   mkSpec (lit "lan") FormatText BehaviorIpCidr (lit "/b.list")].
Definition fs0 (p : list Z) : option (list Z) :=
  if decide (p = lit "/a.list") then Some text0 else if decide (p = lit "/b.list") then Some text1 else None.
Definition fs1 (p : list Z) : option (list Z) :=
  if decide (p = lit "/a.list") then Some text0 else if decide (p = lit "/b.list") then Some text1' else None.
Definition the_load (fs : list Z -> option (list Z)) := load (Regex := list LabelRegex.item) (RegexEngine0 := LabelRegex.engine)
  (fun _ => None) id fs specs {[lit "gfw"]} {[lit "lan"]} None.
Definition the_db : RuleSetDb (list LabelRegex.item) :=
  match the_load fs0 with Ret (Ok db) => db | _ => mkDb ∅ end.

Lemma the_db_loaded : the_load fs0 = Ret (Ok the_db).
Proof. vm_compute. reflexivity. Qed.
End RulesetDemo.
Import LabelRegex RulesetDemo.

Lemma ruleset_load_witness :
  (exists b, matches the_db (lit "gfw") (lit "www.example.com") = Ret b) /\
  matches the_db (lit "gfw") (lit "x.foo.org") = Ret true /\
  matches the_db (lit "gfw") (lit "x.y.foo.org") = Ret false /\
  matches_ip the_db (lit "lan") (V4 [10; 1; 2; 3]%Z) = Ret true.
Proof.
  destruct (ruleset_load_correct (fun _ => None) id fs0 specs {[lit "gfw"]} {[lit "lan"]} the_db the_db_loaded)
    as [H _].
  split; [|vm_compute; done].
  destruct (H (lit "gfw")) as (spec & ps & _ & _ & _ & _ & Hq); [set_solver|].
  destruct (Hq (lit "www.example.com")) as (b & Hb & _); [vm_compute; reflexivity|]. by exists b.
Defined.

Lemma ruleset_reuse_witness :
  load (fun _ => None) id fs1 specs {[lit "gfw"]} {[lit "lan"]} (Some (the_db, {[lit "/b.list"]})) = the_load fs1.
Proof.
  apply (ruleset_reuse_correct (fun _ => None) id fs0 fs1 specs {[lit "gfw"]} {[lit "lan"]}).
  - apply (bool_decide_unpack _). vm_compute. exact I.
  - exact the_db_loaded.
  - intros spec Hs Hp. apply elem_of_cons in Hs as [->|Hs]; [reflexivity|].
    apply list_elem_of_singleton in Hs as ->. exfalso. apply Hp. set_solver.
Defined.

Lemma matches_answer_ip_witness :
  exists b, matches_answer_ip the_db (mkAnswerIp [lit "lan"] []) [V4 [8; 8; 8; 8]%Z; V4 [10; 0; 0; 1]%Z] = Ret b /\ b = true.
Proof.
  destruct (matches_answer_ip_correct the_db (mkAnswerIp [lit "lan"] []) [V4 [8; 8; 8; 8]%Z; V4 [10; 0; 0; 1]%Z])
    as (b & Hb & _).
  - eapply load_db_ok; [|exact the_db_loaded]. done.
  - exists b. split; [exact Hb|]. assert (Ret b = Ret true) as [= ->]; [|done].
    rewrite <- Hb. vm_compute. reflexivity.
Defined.
