(* ===== verification/RouteIndex.v ===== *)
(** * The routing index (src/src/route_index.rs)

    Compilation of the rule list into match entries, a catch-all and interned
    tags; the per-query tag memo; the scan and the cached [route].  A rule is any
    type with a [matcher] list: routing reads no other field. *)

From stdpp Require Import strings.
From S2P Require Import Prelude Hasher DnsName Utf8 DnsQname CacheMap IpRange RustStr Domain Ruleset.

(** [config::RuleMatcher] *)
Inductive RuleMatcher :=
| MDomain (pattern : list Z)
| MTag (include exclude : list (list Z)).

Definition USIZE_MAX : Z := 2 ^ 64 - 1.
Definition ROUTE_CACHE_MIN_CAPACITY : Z := 4096.

(** ** Interning *)

Record Interner := mkInterner { tag_ids : gmap (list Z) Z; tag_names : list (list Z) }.

Definition intern (st : Interner) (name : list Z) : Z * Interner :=
  match tag_ids st !! name with
  | Some id => (id, st)
  | None =>
      let id := wrap 16 (Z.of_nat (length (tag_names st))) in
      (id, mkInterner (<[name := id]> (tag_ids st)) (tag_names st ++ [name]))
  end.

Fixpoint intern_all (st : Interner) (names : list (list Z)) : list Z * Interner :=
  match names with
  | [] => ([], st)
  | n :: names' =>
      let '(id, st) := intern st n in
      let '(ids, st) := intern_all st names' in
      (id :: ids, st)
  end.

(** ** The tag memo *)

Record TagMemoChunk := mkChunk { seen : Z; matched : Z }.
Abbreviation TagMemo := (list TagMemoChunk).

Definition memo_new (num_tags : nat) : TagMemo := replicate ((num_tags + 63) / 64) (mkChunk 0 0).

Record TagGroup := mkGroup { include_ids : list Z; exclude_ids : list Z }.

Section route.
Context {Regex : Type} `{!RegexEngine Regex}.

Definition memo_check (memo : TagMemo) (rs : RuleSetDb Regex) (tag_id : Z) (tag_name qname : list Z)
  : outcome (bool * TagMemo) :=
  let i := Z.to_nat tag_id in
  let chunk_idx := i / 64 in
  let bit := Z.shiftl 1 (Z.of_nat (i mod 64)) in
  let miss :=
    let! v := matches rs tag_name qname in
    Ret (v, match memo !! chunk_idx with
            | Some chunk =>
                <[chunk_idx := mkChunk (Z.lor (seen chunk) bit)
                                 (if v then Z.lor (matched chunk) bit else matched chunk)]> memo
            | None => memo
            end) in
  match memo !! chunk_idx with
  | Some chunk =>
      if decide (Z.land (seen chunk) bit <> 0)%Z
      then Ret (bool_decide (Z.land (matched chunk) bit <> 0)%Z, memo)
      else miss
  | None => miss
  end.

(** [ids.iter().any(|&id| memo.check(rs, id, &tag_names[id as usize], qname))] *)
Fixpoint memo_any (memo : TagMemo) (rs : RuleSetDb Regex) (ids : list Z) (names : list (list Z))
    (qname : list Z) : outcome (bool * TagMemo) :=
  match ids with
  | [] => Ret (false, memo)
  | id :: ids' =>
      let! name := idx names (Z.to_nat id) in
      let! r := memo_check memo rs id name qname in
      if fst r : bool then Ret r else memo_any (snd r) rs ids' names qname
  end.

Definition tag_group_matches (group : TagGroup) (qname : list Z) (rs : RuleSetDb Regex) (memo : TagMemo)
    (names : list (list Z)) : outcome (bool * TagMemo) :=
  let! r := (if decide (include_ids group <> []) then memo_any memo rs (include_ids group) names qname
             else Ret (true, memo)) in
  if negb (fst r) then Ret (false, snd r)
  else
    let! e := memo_any (snd r) rs (exclude_ids group) names qname in
    Ret (negb (fst e), snd e).

Record MatchEntry := mkEntry {
  rule_idx : nat;
  domains : DomainMatcher Regex unit;
  tags : list TagGroup
}.

Fixpoint any_group (groups : list TagGroup) (qname : list Z) (rs : RuleSetDb Regex) (memo : TagMemo)
    (names : list (list Z)) : outcome (bool * TagMemo) :=
  match groups with
  | [] => Ret (false, memo)
  | g :: groups' =>
      let! r := tag_group_matches g qname rs memo names in
      if fst r : bool then Ret r else any_group groups' qname rs (snd r) names
  end.

Definition match_entry_matches (entry : MatchEntry) (qname : list Z) (ruleset : option (RuleSetDb Regex))
    (memo : TagMemo) (names : list (list Z)) : outcome (bool * TagMemo) :=
  let! hit := domain_hit (domains entry) qname in
  if hit : bool then Ret (true, memo)
  else
    match ruleset with
    | None => Ret (false, memo)
    | Some rs => any_group (tags entry) qname rs memo names
    end.

(** ** The index *)

Record RouteIndex := mkRouteIndex {
  match_entries : list MatchEntry;
  catch_all_idx : option nat;
  needs_ruleset : bool;
  constant_route : option (option nat);
  ri_tag_names : list (list Z);
  num_tags : nat
}.

(** The loop over [rule.matcher]. *)
Fixpoint compile_matchers (ms : list RuleMatcher) (d : DomainMatcher Regex unit) (gs : list TagGroup)
    (st : Interner) : DomainMatcher Regex unit * list TagGroup * Interner :=
  match ms with
  | [] => (d, gs, st)
  | MDomain pattern :: ms' =>
      let d := match classify_pattern pattern with
               | Suffix n => insert_suffix d n ()
               | Full n => insert_full d n ()
               | Wildcard re => insert_regex d re ()
               | Invalid => d
               end in
      compile_matchers ms' d gs st
  | MTag include exclude :: ms' =>
      let '(inc, st) := intern_all st include in
      let '(exc, st) := intern_all st exclude in
      compile_matchers ms' d (gs ++ [mkGroup inc exc]) st
  end.

Section rules.
Context {Rule : Type} (matcher : Rule -> list RuleMatcher).

(** The loop over the rules. *)
Fixpoint build_loop (i : nat) (rules : list Rule) (entries : list MatchEntry) (catch_all : option nat)
    (st : Interner) : list MatchEntry * option nat * Interner :=
  match rules with
  | [] => (entries, catch_all, st)
  | rule :: rules' =>
      match matcher rule with
      | [] => build_loop (S i) rules' entries (match catch_all with None => Some i | c => c end) st
      | ms =>
          let '(d, gs, st) := compile_matchers ms matcher_default [] st in
          build_loop (S i) rules' (entries ++ [mkEntry i d gs]) catch_all st
      end
  end.

Definition build_index (rules : list Rule) : RouteIndex :=
  let '(entries, catch_all, st) := build_loop 0 rules [] None (mkInterner ∅ []) in
  mkRouteIndex entries catch_all
    (existsb (fun e => match tags e with [] => false | _ => true end) entries)
    (if decide (catch_all = Some 0 \/ length entries = 0) then Some catch_all else None)
    (tag_names st) (length (tag_names st)).

(** The scan over the match entries; [catch_all] is [usize::MAX] when absent. *)
Fixpoint scan_entries (catch_all : Z) (entries : list MatchEntry) (qname : list Z)
    (ruleset : option (RuleSetDb Regex)) (memo : TagMemo) (names : list (list Z)) : outcome Z :=
  match entries with
  | [] => Ret catch_all
  | entry :: entries' =>
      if decide (catch_all < Z.of_nat (rule_idx entry))%Z then Ret catch_all
      else
        let! r := match_entry_matches entry qname ruleset memo names in
        if fst r : bool then Ret (Z.of_nat (rule_idx entry))
        else scan_entries catch_all entries' qname ruleset (snd r) names
  end.

Definition route_index_uncached (self : RouteIndex) (qname : list Z) (ruleset : option (RuleSetDb Regex))
    (memo : TagMemo) : outcome Z :=
  let catch_all := match catch_all_idx self with Some i => Z.of_nat i | None => USIZE_MAX end in
  match match_entries self with
  | [] => Ret catch_all
  | entries => scan_entries catch_all entries qname ruleset memo (ri_tag_names self)
  end.

(** [rules.get(idx)] *)
Definition rules_get (rules : list Rule) (i : Z) : option Rule :=
  if decide (i < Z.of_nat (length rules))%Z then rules !! Z.to_nat i else None.

Definition constant_target (self : RouteIndex) : option (option nat) := constant_route self.

Context {S : Type} `{!CacheMap S (list Z) Z}.

Definition route_cache_new (dns_cache_capacity : Z) : S :=
  cm_new (Z.max dns_cache_capacity ROUTE_CACHE_MIN_CAPACITY).

Definition route (self : RouteIndex) (cache : S) (rules : list Rule) (qname : list Z)
    (ruleset : option (RuleSetDb Regex)) : outcome (option Rule * S) :=
  match constant_route self with
  | Some constant => Ret (match constant with Some i => rules !! i | None => None end, cache)
  | None =>
      let use_cache := bool_decide (is_Some ruleset) || negb (needs_ruleset self) in
      let '(hit, cache) := if use_cache then cm_get cache qname else (None, cache) in
      match hit with
      | Some i => Ret (if decide (i = USIZE_MAX) then None else rules_get rules i, cache)
      | None =>
          let! i := route_index_uncached self qname ruleset (memo_new (num_tags self)) in
          Ret (rules_get rules i, if use_cache then cm_insert cache qname i else cache)
      end
  end.

(** A sequence of queries against one index. *)
Fixpoint route_all (self : RouteIndex) (cache : S) (rules : list Rule)
    (calls : list (list Z * option (RuleSetDb Regex))) : outcome (list (option Rule)) :=
  match calls with
  | [] => Ret []
  | (qname, ruleset) :: calls' =>
      let! r := route self cache rules qname ruleset in
      let! rest := route_all self (snd r) rules calls' in
      Ret (fst r :: rest)
  end.
End rules.
End route.

Arguments MatchEntry Regex : clear implicits.
Arguments RouteIndex Regex : clear implicits.
