(* ===== verification/RouteCorrect.v ===== *)
(** * Routing is a first-match scan

    The compiled index, with its interned tags, tag memo, constant-route shortcut
    and route cache, is shown to answer every query of any history exactly as a
    top-to-bottom scan of the rules would. *)

From stdpp Require Import strings.
From S2P Require Import Prelude Hasher DnsName Utf8 DnsQname CacheMap IpRange RustStr Domain Ruleset RouteIndex.

(** ** The specification *)

Section spec.
Context {Regex : Type} `{!RegexEngine Regex}.

(** The tag holds the name. *)
Definition tag_matches (rs : RuleSetDb Regex) (tag q : list Z) : Prop := matches rs tag q = Ret true.

(** One entry of a rule's [matcher] list: a [tag:] expression needs the database. *)
Definition item_matches (ruleset : option (RuleSetDb Regex)) (q : list Z) (m : RuleMatcher) : Prop :=
  match m with
  | MDomain p => pattern_matches p q
  | MTag include exclude =>
      match ruleset with
      | None => False
      | Some rs =>
          (include = [] \/ Exists (fun t => tag_matches rs t q) include) /\
          ~ Exists (fun t => tag_matches rs t q) exclude
      end
  end.

Definition rule_matches (ruleset : option (RuleSetDb Regex)) (q : list Z) (ms : list RuleMatcher) : Prop :=
  ms = [] \/ Exists (item_matches ruleset q) ms.

(** The first rule that matches, by position. *)
Definition first_match {Rule} (matcher : Rule -> list RuleMatcher) (rules : list Rule)
    (ruleset : option (RuleSetDb Regex)) (q : list Z) (r : option nat) : Prop :=
  match r with
  | Some i => (exists rule, rules !! i = Some rule /\ rule_matches ruleset q (matcher rule)) /\
      forall j rule, j < i -> rules !! j = Some rule -> ~ rule_matches ruleset q (matcher rule)
  | None => forall j rule, rules !! j = Some rule -> ~ rule_matches ruleset q (matcher rule)
  end.
End spec.

(** ** Interning *)

(** The ids are positions, each name once. *)
Definition interner_ok (st : Interner) : Prop :=
  forall name id, tag_ids st !! name = Some id -> (0 <= id)%Z /\ tag_names st !! Z.to_nat id = Some name.

(** The id stands for the name. *)
Definition id_of (names : list (list Z)) (id : Z) (name : list Z) : Prop := names !! Z.to_nat id = Some name.

Lemma id_of_app names names' id name : id_of names id name -> id_of (names ++ names') id name.
Proof. apply lookup_app_l_Some. Qed.

Lemma intern_spec st name id st' :
  interner_ok st -> intern st name = (id, st') -> length (tag_names st') <= Z.to_nat 65536 ->
  interner_ok st' /\ id_of (tag_names st') id name /\ exists l, tag_names st' = tag_names st ++ l.
Proof.
  intros Hok. unfold intern. destruct (tag_ids st !! name) as [i|] eqn:Hi.
  - intros [= <- <-] _. split; [done|]. split; [by apply Hok|]. exists []. by rewrite app_nil_r.
  - intros [= <- <-]. cbn [tag_names]. rewrite length_app. cbn [length]. intros Hlen.
    assert (wrap 16 (Z.of_nat (length (tag_names st))) = Z.of_nat (length (tag_names st))) as ->.
    { unfold wrap. change (2 ^ 16)%Z with 65536%Z. apply Z.mod_small. lia. }
    split; [|split; [|by exists [name]]].
    + intros n i. cbn [tag_ids tag_names]. intros [[<- <-]|[Hne Hn]]%lookup_insert_Some.
      * split; [lia|]. rewrite Nat2Z.id. by apply list_lookup_middle.
      * apply Hok in Hn as [? ?]. split; [done|]. by apply lookup_app_l_Some.
    + unfold id_of. rewrite Nat2Z.id. by apply list_lookup_middle.
Qed.

Lemma intern_mono st name id st' : intern st name = (id, st') -> exists l, tag_names st' = tag_names st ++ l.
Proof.
  unfold intern. destruct (tag_ids st !! name); intros [= <- <-]; [exists []; by rewrite app_nil_r|by eexists].
Qed.

Lemma intern_all_mono st names ids st' :
  intern_all st names = (ids, st') -> exists l, tag_names st' = tag_names st ++ l.
Proof.
  revert st ids st'. induction names as [|n names IH]; intros st ids st'; cbn [intern_all].
  - intros [= <- <-]. exists []. by rewrite app_nil_r.
  - destruct (intern st n) as [id st1] eqn:H1. destruct (intern_all st1 names) as [ids' st2] eqn:H2.
    intros [= <- <-]. apply intern_mono in H1 as [l1 H1]. apply IH in H2 as [l2 H2].
    exists (l1 ++ l2). by rewrite H2, H1, app_assoc.
Qed.

Lemma intern_all_spec st names ids st' :
  interner_ok st -> intern_all st names = (ids, st') -> length (tag_names st') <= Z.to_nat 65536 ->
  interner_ok st' /\ Forall2 (id_of (tag_names st')) ids names.
Proof.
  revert st ids st'. induction names as [|n names IH]; intros st ids st' Hok; cbn [intern_all].
  - intros [= <- <-] _. split; [done|constructor].
  - destruct (intern st n) as [id st1] eqn:H1. destruct (intern_all st1 names) as [ids' st2] eqn:H2.
    intros [= <- <-] Hlen. pose proof (intern_all_mono _ _ _ _ H2) as [l Hl].
    apply intern_spec in H1 as (Hok1 & Hid & _); [|done|rewrite Hl, length_app in Hlen; lia].
    apply IH in H2 as [Hok2 Hids]; [|done|done]. split; [done|]. constructor; [|done].
    rewrite Hl. by apply id_of_app.
Qed.

(** ** The memo *)

Section memo.
Context {Regex : Type} `{!RegexEngine Regex} (rs : RuleSetDb Regex) (q : list Z) (names : list (list Z)).

Lemma matches_total tag : exists b, matches rs tag q = Ret b.
Proof.
  unfold matches. destruct (db_tags rs !! tag) as [[m|s]|]; [|by eexists..].
  destruct (domain_hit_spec m q) as (b & Hb & _). by exists b.
Qed.

Definition memo_lookup (memo : TagMemo) (i : nat) : option bool :=
  match memo !! (i / 64) with
  | Some c => if Z.testbit (seen c) (Z.of_nat (i mod 64)) then Some (Z.testbit (matched c) (Z.of_nat (i mod 64)))
              else None
  | None => None
  end.

(** What the memo holds is what the database answers; matched bits are seen bits. *)
Definition memo_ok (memo : TagMemo) : Prop :=
  (forall i v, memo_lookup memo i = Some v -> exists name, names !! i = Some name /\ matches rs name q = Ret v) /\
  (forall k c b, memo !! k = Some c -> (0 <= b)%Z -> Z.testbit (matched c) b = true -> Z.testbit (seen c) b = true).

Lemma memo_new_ok n : memo_ok (memo_new n).
Proof.
  split; unfold memo_lookup, memo_new.
  - intros i v. destruct (replicate ((n + 63) / 64) (mkChunk 0 0) !! (i / 64)) as [c|] eqn:Hc; [|done].
    apply lookup_replicate in Hc as [-> _]. cbn [seen]. by rewrite Z.testbit_0_l.
  - intros k c b Hc Hb. apply lookup_replicate in Hc as [-> _]. cbn [matched]. by rewrite Z.testbit_0_l.
Qed.

Lemma land_bit x n : (0 <= n)%Z -> (Z.land x (Z.shiftl 1 n) <> 0 <-> Z.testbit x n = true)%Z.
Proof.
  intros Hn. rewrite Z.shiftl_1_l. split.
  - intros Hne. destruct (Z.testbit x n) eqn:Hb; [done|]. exfalso. apply Hne.
    apply Z.bits_inj'. intros i Hi. rewrite Z.land_spec, Z.bits_0, Z.pow2_bits_eqb by lia.
    destruct (Z.eqb_spec n i) as [<-|]; [by rewrite Hb|apply andb_false_r].
  - intros Hb H0. assert (Z.testbit (Z.land x (2 ^ n)) n = false) as Hf by (rewrite H0; apply Z.bits_0).
    rewrite Z.land_spec, Hb, Z.pow2_bits_true in Hf by lia. done.
Qed.

Lemma lor_bit x n i : (0 <= n)%Z -> (0 <= i)%Z ->
  Z.testbit (Z.lor x (Z.shiftl 1 n)) i = (Z.testbit x i || (n =? i)%Z).
Proof. intros Hn Hi. by rewrite Z.lor_spec, Z.shiftl_1_l, Z.pow2_bits_eqb. Qed.

Lemma memo_insert_ok memo i c name v :
  memo_ok memo -> memo !! (i / 64) = Some c -> Z.testbit (seen c) (Z.of_nat (i mod 64)) = false ->
  names !! i = Some name -> matches rs name q = Ret v ->
  memo_ok (<[i / 64 := mkChunk (Z.lor (seen c) (Z.shiftl 1 (Z.of_nat (i mod 64))))
     (if v then Z.lor (matched c) (Z.shiftl 1 (Z.of_nat (i mod 64))) else matched c)]> memo).
Proof.
  intros [Hok Hsub] Hc Hns Hname Hv. apply lookup_lt_Some in Hc as Hlt.
  assert (Hnm : Z.testbit (matched c) (Z.of_nat (i mod 64)) = false).
  { destruct (Z.testbit (matched c) _) eqn:Hm; [|done]. apply (Hsub _ _ _ Hc) in Hm; [congruence|lia]. }
  split.
  - intros j w. unfold memo_lookup. destruct (decide (j / 64 = i / 64)) as [Heq|Hne].
    + rewrite Heq, list_lookup_insert_eq by done. cbn [seen matched]. rewrite lor_bit by lia.
      destruct (decide (j mod 64 = i mod 64)) as [Hm|Hm].
      * assert (j = i) as -> by (rewrite (Nat.div_mod_eq j 64), (Nat.div_mod_eq i 64); lia).
        rewrite Z.eqb_refl, orb_true_r. intros <-%(inj Some). exists name. split; [done|]. rewrite Hv. f_equal.
        destruct v; cbv iota; [by rewrite lor_bit, Z.eqb_refl, orb_true_r by lia|by rewrite Hnm].
      * rewrite (proj2 (Z.eqb_neq _ _)), orb_false_r by lia. intros Hl. apply Hok.
        unfold memo_lookup. rewrite Heq, Hc. revert Hl.
        destruct (Z.testbit (seen c) (Z.of_nat (j mod 64))); [|done]. intros Hl. destruct v; [|done]. rewrite lor_bit in Hl by lia.
        by rewrite (proj2 (Z.eqb_neq _ _)), orb_false_r in Hl by lia.
    + rewrite list_lookup_insert_ne by done. apply Hok.
  - intros k c' b Hk Hb. destruct (decide (k = i / 64)) as [->|Hne].
    + rewrite list_lookup_insert_eq in Hk by done. injection Hk as <-. cbn [seen matched].
      rewrite lor_bit by lia. destruct v; [rewrite lor_bit by lia|]; rewrite ?orb_true_iff.
      * intros [Hm|Hm]; [left; by eapply Hsub|by right].
      * intros Hm. left. by eapply Hsub.
    + rewrite list_lookup_insert_ne in Hk by done. by apply (Hsub k).
Qed.

Lemma memo_check_spec memo id name :
  memo_ok memo -> id_of names id name ->
  exists b memo', memo_check memo rs id name q = Ret (b, memo') /\ memo_ok memo' /\ matches rs name q = Ret b.
Proof.
  intros [Hok Hsub] Hid. unfold memo_check. set (i := Z.to_nat id) in *. cbv zeta.
  destruct (matches_total name) as [v Hv].
  assert (Hr : (0 <= Z.of_nat (i mod 64))%Z) by lia.
  destruct (memo !! (i / 64)) as [c|] eqn:Hc.
  - case_decide as Hseen.
    + apply land_bit in Hseen; [|done].
      exists (Z.testbit (matched c) (Z.of_nat (i mod 64))), memo. split; [|split; [by split|]].
      * do 2 f_equal. destruct (Z.testbit (matched c) _) eqn:Hm.
        -- apply bool_decide_eq_true_2. by apply land_bit.
        -- apply bool_decide_eq_false_2. rewrite land_bit by done. congruence.
      * destruct (Hok i (Z.testbit (matched c) (Z.of_nat (i mod 64)))) as (name' & Hn & Hm).
        { unfold memo_lookup. by rewrite Hc, Hseen. }
        unfold id_of in Hid. fold i in Hid. congruence.
    + rewrite Hv. cbn [obind]. eexists v, _. split; [done|]. split; [|done].
      assert (Hns : Z.testbit (seen c) (Z.of_nat (i mod 64)) = false).
      { destruct (Z.testbit (seen c) _) eqn:Hb; [|done]. exfalso. by apply (land_bit _ _ Hr) in Hb. }
      by apply (memo_insert_ok memo i c name v).
  - rewrite Hv. cbn [obind]. by exists v, memo.
Qed.
End memo.

(** ** Groups and entries *)

Section entries.
Context {Regex : Type} `{!RegexEngine Regex, !RegexLaws Regex}.
Variables (q : list Z) (names : list (list Z)).

Lemma memo_any_spec rs memo ids ns :
  memo_ok rs q names memo -> Forall2 (id_of names) ids ns ->
  exists b memo', memo_any memo rs ids names q = Ret (b, memo') /\ memo_ok rs q names memo' /\
    (b = true <-> Exists (fun t => tag_matches rs t q) ns).
Proof.
  intros Hm Hids. revert memo Hm. induction Hids as [|id n ids ns Hid Hids IH]; intros memo Hm; cbn [memo_any].
  - exists false, memo. split; [done|]. split; [done|]. by rewrite Exists_nil.
  - rewrite (idx_lookup _ _ _ Hid). cbn [obind].
    destruct (memo_check_spec rs q names memo id n Hm Hid) as (b & memo1 & -> & Hm1 & Hb). cbn [obind fst snd].
    destruct b.
    + exists true, memo1. split; [done|]. split; [done|]. split; [by left|done].
    + destruct (IH memo1 Hm1) as (b & memo2 & Ha & Hm2 & Hiff). exists b, memo2.
      split; [done|]. split; [done|]. rewrite Exists_cons, Hiff. split; [by right|].
      intros [Ht|?]; [|done]. unfold tag_matches in Ht. congruence.
Qed.

Definition group_ok (g : TagGroup) (ie : list (list Z) * list (list Z)) : Prop :=
  Forall2 (id_of names) (include_ids g) (fst ie) /\ Forall2 (id_of names) (exclude_ids g) (snd ie).

Lemma tag_group_spec rs memo g ie :
  memo_ok rs q names memo -> group_ok g ie ->
  exists b memo', tag_group_matches g q rs memo names = Ret (b, memo') /\ memo_ok rs q names memo' /\
    (b = true <-> item_matches (Some rs) q (MTag (fst ie) (snd ie))).
Proof.
  intros Hm [Hi He]. unfold tag_group_matches. cbn [item_matches].
  assert (Hinc : exists b memo1,
    (if decide (include_ids g <> []) then memo_any memo rs (include_ids g) names q else Ret (true, memo))
      = Ret (b, memo1) /\ memo_ok rs q names memo1 /\
    (b = true <-> fst ie = [] \/ Exists (fun t => tag_matches rs t q) (fst ie))).
  { destruct (decide (include_ids g <> [])) as [Hne|Hnil].
    - destruct (memo_any_spec rs memo _ _ Hm Hi) as (b & memo1 & H1 & H2 & H3).
      exists b, memo1. split; [done|]. split; [done|]. rewrite H3. split; [by right|].
      intros [H0|?]; [|done]. rewrite H0 in Hi. by inversion Hi.
    - apply dec_stable in Hnil. rewrite Hnil in Hi. inversion Hi as [Heq|]. exists true, memo.
      split; [done|]. split; [done|]. split; [by left|done]. }
  destruct Hinc as (b & memo1 & -> & Hm1 & Hb). cbn [obind fst snd]. destruct b; cbn [negb].
  - destruct (memo_any_spec rs memo1 _ _ Hm1 He) as (e & memo2 & -> & Hm2 & Heb). cbn [obind fst snd].
    exists (negb e), memo2. split; [done|]. split; [done|].
    rewrite negb_true_iff, <- not_true_iff_false, Heb. tauto.
  - exists false, memo1. split; [done|]. split; [done|]. split; [done|]. intros [H _]. by apply Hb in H.
Qed.

Lemma any_group_spec rs memo gs ies :
  memo_ok rs q names memo -> Forall2 group_ok gs ies ->
  exists b memo', any_group gs q rs memo names = Ret (b, memo') /\ memo_ok rs q names memo' /\
    (b = true <-> Exists (fun ie => item_matches (Some rs) q (MTag (fst ie) (snd ie))) ies).
Proof.
  intros Hm Hgs. revert memo Hm. induction Hgs as [|g ie gs ies Hg Hgs IH]; intros memo Hm; cbn [any_group].
  - exists false, memo. split; [done|]. split; [done|]. by rewrite Exists_nil.
  - destruct (tag_group_spec rs memo g ie Hm Hg) as (b & memo1 & -> & Hm1 & Hb). cbn [obind fst snd].
    destruct b.
    + exists true, memo1. split; [done|]. split; [done|]. rewrite Exists_cons. tauto.
    + destruct (IH memo1 Hm1) as (b & memo2 & Ha & Hm2 & Hiff). exists b, memo2.
      split; [done|]. split; [done|]. rewrite Exists_cons, Hiff. split; [by right|].
      intros [H%Hb|?]; done.
Qed.

(** The patterns and the tag expressions of a matcher list. *)
Definition domains_of (ms : list RuleMatcher) : list (list Z) :=
  omap (fun m => match m with MDomain p => Some p | _ => None end) ms.
Definition groups_of (ms : list RuleMatcher) : list (list (list Z) * list (list Z)) :=
  omap (fun m => match m with MTag i e => Some (i, e) | _ => None end) ms.

Lemma rule_matches_split ruleset ms :
  Exists (item_matches ruleset q) ms <->
  Exists (fun p => pattern_matches p q) (domains_of ms) \/
  Exists (fun ie => item_matches ruleset q (MTag (fst ie) (snd ie))) (groups_of ms).
Proof.
  induction ms as [|[p|i e] ms IH]; cbn [domains_of groups_of omap list_omap].
  - rewrite !Exists_nil. tauto.
  - fold (domains_of ms) (groups_of ms). rewrite !Exists_cons, IH. cbn. tauto.
  - fold (domains_of ms) (groups_of ms). rewrite !Exists_cons, IH. cbn. tauto.
Qed.

Definition entry_ok (k : nat) (ms : list RuleMatcher) (e : MatchEntry Regex) : Prop :=
  rule_idx e = k /\
  (matcher_hits (domains e) q <-> Exists (fun p => pattern_matches p q) (domains_of ms)) /\
  Forall2 group_ok (tags e) (groups_of ms).

(** The memo speaks about the database the query is routed with. *)
Definition memo_for (ruleset : option (RuleSetDb Regex)) (memo : TagMemo) : Prop :=
  match ruleset with Some rs => memo_ok rs q names memo | None => True end.

Lemma match_entry_spec ruleset memo k ms e :
  memo_for ruleset memo -> entry_ok k ms e -> ms <> [] ->
  exists b memo', match_entry_matches e q ruleset memo names = Ret (b, memo') /\ memo_for ruleset memo' /\
    (b = true <-> rule_matches ruleset q ms).
Proof.
  intros Hm (_ & Hd & Hg) Hne. unfold match_entry_matches, rule_matches.
  destruct (domain_hit_spec (domains e) q) as (h & -> & Hh). cbn [obind].
  destruct h.
  - exists true, memo. split; [done|]. split; [done|]. rewrite rule_matches_split. tauto.
  - destruct ruleset as [rs|].
    + destruct (any_group_spec rs memo _ _ Hm Hg) as (b & memo1 & -> & Hm1 & Hb).
      exists b, memo1. split; [done|]. split; [done|]. rewrite rule_matches_split, Hb.
      split; [by right; right|]. intros [?|[Hx|?]]; [done| |done]. by apply Hd, Hh in Hx.
    + exists false, memo. split; [done|]. split; [done|]. split; [done|].
      rewrite rule_matches_split. intros [?|[Hx|Hx]]; [done|by apply Hd, Hh in Hx|].
      apply Exists_exists in Hx as (x & _ & []).
Qed.
End entries.

(** ** Compilation *)

Section compile.
Context {Regex : Type} `{!RegexEngine Regex, !RegexLaws Regex}.

Lemma group_ok_app names names' g ie : group_ok names g ie -> group_ok (names ++ names') g ie.
Proof. intros [H1 H2]. split; (eapply Forall2_impl; [eassumption|]); intros; by apply id_of_app. Qed.

Lemma compile_mono ms (d : DomainMatcher Regex unit) gs st d' gs' st' :
  compile_matchers ms d gs st = (d', gs', st') -> exists l, tag_names st' = tag_names st ++ l.
Proof.
  revert d gs st. induction ms as [|[p|i e] ms IH]; intros d gs st; cbn [compile_matchers].
  - intros [= <- <- <-]. exists []. by rewrite app_nil_r.
  - apply IH.
  - destruct (intern_all st i) as [inc st1] eqn:H1. destruct (intern_all st1 e) as [exc st2] eqn:H2.
    intros H3. apply intern_all_mono in H1 as [l1 H1]. apply intern_all_mono in H2 as [l2 H2].
    apply IH in H3 as [l3 H3]. exists (l1 ++ l2 ++ l3). by rewrite H3, H2, H1, <- !app_assoc.
Qed.

Lemma compile_spec q ms (d : DomainMatcher Regex unit) gs ies st d' gs' st' :
  utf8_valid q = true -> interner_ok st -> Forall2 (group_ok (tag_names st)) gs ies ->
  compile_matchers ms d gs st = (d', gs', st') -> length (tag_names st') <= Z.to_nat 65536 ->
  interner_ok st' /\
  (matcher_hits d' q <-> matcher_hits d q \/ Exists (fun p => pattern_matches p q) (domains_of ms)) /\
  Forall2 (group_ok (tag_names st')) gs' (ies ++ groups_of ms).
Proof.
  intros Hq. revert d gs ies st. induction ms as [|[p|i e] ms IH]; intros d gs ies st Hok Hgs; cbn [compile_matchers].
  - intros [= <- <- <-] _. cbn. rewrite Exists_nil, app_nil_r. tauto.
  - intros Hc Hlen. destruct (IH _ _ _ _ Hok Hgs Hc Hlen) as (H1 & H2 & H3). split; [done|]. split; [|exact H3].
    rewrite H2. cbn [domains_of omap list_omap]. fold (domains_of ms).
    rewrite Exists_cons, <- (classify_pattern_hits p q Hq).
    destruct (classify_pattern p); cbn [kind_hits];
      rewrite ?hits_insert_suffix, ?hits_insert_full, ?hits_insert_regex; tauto.
  - destruct (intern_all st i) as [inc st1] eqn:H1. destruct (intern_all st1 e) as [exc st2] eqn:H2.
    intros Hc Hlen. pose proof (compile_mono _ _ _ _ _ _ _ Hc) as [l3 Hl3].
    pose proof (intern_all_mono _ _ _ _ H1) as [l1 Hl1]. pose proof (intern_all_mono _ _ _ _ H2) as [l2 Hl2].
    assert (length (tag_names st2) <= Z.to_nat 65536) by (rewrite Hl3, length_app in Hlen; lia).
    assert (length (tag_names st1) <= Z.to_nat 65536) by (rewrite Hl3, Hl2, !length_app in Hlen; lia).
    apply intern_all_spec in H1 as [Hok1 Hi]; [|done|done].
    apply intern_all_spec in H2 as [Hok2 He]; [|done|done].
    destruct (IH d (gs ++ [mkGroup inc exc]) (ies ++ [(i, e)]) st2 Hok2) as (R1 & R2 & R3); [|done|done|].
    + apply Forall2_app.
      * eapply Forall2_impl; [exact Hgs|]. intros g ie Hg. rewrite Hl2, Hl1, <- app_assoc. by apply group_ok_app.
      * constructor; [|constructor]. split; cbn; [|done].
        eapply Forall2_impl; [exact Hi|]. intros. rewrite Hl2. by apply id_of_app.
    + split; [done|]. split; [exact R2|]. rewrite <- app_assoc in R3. exact R3.
Qed.

Section rules.
Context {Rule : Type} (matcher : Rule -> list RuleMatcher) (q : list Z).

(** The match entries of the rules from position [k] on. *)
Inductive entries_for (names : list (list Z)) : nat -> list Rule -> list (MatchEntry Regex) -> Prop :=
| entries_nil k : entries_for names k [] []
| entries_catch k r rules es :
    matcher r = [] -> entries_for names (S k) rules es -> entries_for names k (r :: rules) es
| entries_match k r rules e es :
    matcher r <> [] -> entry_ok q names k (matcher r) e -> entries_for names (S k) rules es ->
    entries_for names k (r :: rules) (e :: es).

Fixpoint first_empty (k : nat) (rules : list Rule) : option nat :=
  match rules with
  | [] => None
  | r :: rules' => match matcher r with [] => Some k | _ => first_empty (S k) rules' end
  end.

Lemma build_loop_mono k rules (es : list (MatchEntry Regex)) c st es' c' st' :
  build_loop matcher k rules es c st = (es', c', st') -> exists l, tag_names st' = tag_names st ++ l.
Proof.
  revert k es c st. induction rules as [|r rules IH]; intros k es c st; cbn [build_loop].
  - intros [= <- <- <-]. exists []. by rewrite app_nil_r.
  - destruct (matcher r) as [|m ms]; [apply IH|].
    destruct (compile_matchers (m :: ms) matcher_default [] st) as [[d gs] st1] eqn:Hc. intros Hb.
    apply compile_mono in Hc as [l1 H1]. apply IH in Hb as [l2 H2]. exists (l1 ++ l2).
    by rewrite H2, H1, app_assoc.
Qed.

Lemma build_loop_spec k rules (es : list (MatchEntry Regex)) c st es' c' st' :
  utf8_valid q = true -> interner_ok st ->
  build_loop matcher k rules es c st = (es', c', st') -> length (tag_names st') <= Z.to_nat 65536 ->
  c' = (match c with Some i => Some i | None => first_empty k rules end) /\
  exists es1, es' = es ++ es1 /\ entries_for (tag_names st') k rules es1.
Proof.
  intros Hq. revert k es c st. induction rules as [|r rules IH]; intros k es c st Hok; cbn [build_loop].
  - intros [= <- <- <-] _. split; [by destruct c|]. exists []. split; [by rewrite app_nil_r|constructor].
  - cbn [first_empty]. destruct (matcher r) as [|m ms] eqn:Hr.
    + intros Hb Hlen. destruct (IH _ _ _ _ Hok Hb Hlen) as (-> & es1 & -> & He). split; [by destruct c|].
      exists es1. split; [done|]. by constructor.
    + destruct (compile_matchers (m :: ms) matcher_default [] st) as [[d gs] st1] eqn:Hc. intros Hb Hlen.
      pose proof (build_loop_mono _ _ _ _ _ _ _ _ Hb) as [l Hl].
      assert (length (tag_names st1) <= Z.to_nat 65536) by (rewrite Hl, length_app in Hlen; lia).
      destruct (compile_spec q _ _ _ [] _ _ _ _ Hq Hok (List.Forall2_nil _) Hc) as (Hok1 & Hd & Hg); [done|].
      destruct (IH _ _ _ _ Hok1 Hb Hlen) as (-> & es1 & -> & He). split; [done|].
      exists (mkEntry k d gs :: es1). split; [by rewrite <- app_assoc|].
      constructor; [by rewrite Hr| |done]. rewrite Hr. split; [done|]. cbn [domains tags]. split.
      * rewrite Hd. split; [|by right]. intros [Hx|?]; [|done]. by apply hits_default in Hx.
      * rewrite Hl. eapply Forall2_impl; [exact Hg|]. intros. by apply group_ok_app.
Qed.

(** ** The scan *)

Definition encode_idx (r : option nat) : Z := match r with Some i => Z.of_nat i | None => USIZE_MAX end.

(** [first_match] from position [k] on. *)
Definition first_from (k : nat) (rules : list Rule) (ruleset : option (RuleSetDb Regex)) (r : option nat) : Prop :=
  match r with
  | Some i => k <= i /\ first_match matcher rules ruleset q (Some (i - k))
  | None => first_match matcher rules ruleset q None
  end.

Lemma first_from_here k r rules ruleset :
  rule_matches ruleset q (matcher r) -> first_from k (r :: rules) ruleset (Some k).
Proof.
  intros Hm. split; [done|]. rewrite Nat.sub_diag. split; [by exists r|]. intros j rule Hj. lia.
Qed.

Lemma first_from_next k r rules ruleset o :
  ~ rule_matches ruleset q (matcher r) -> first_from (S k) rules ruleset o -> first_from k (r :: rules) ruleset o.
Proof.
  intros Hm. destruct o as [i|]; cbn [first_from].
  - intros [Hk [H1 H2]]. split; [lia|]. replace (i - k) with (S (i - S k)) by lia. split; [exact H1|].
    intros [|j] rule Hj Hl; cbn in Hl; [by injection Hl as <-|]. eapply H2; [|exact Hl]. lia.
  - intros H [|j] rule Hl; cbn in Hl; [by injection Hl as <-|]. by eapply H.
Qed.

Lemma first_empty_ge k rules i : first_empty k rules = Some i -> k <= i < k + length rules.
Proof.
  revert k. induction rules as [|r rules IH]; intros k; cbn [first_empty length]; [done|].
  destruct (matcher r); [intros [= <-]; lia|]. intros H%IH. lia.
Qed.

Lemma entries_ge names k rules es e : entries_for names k rules es -> e ∈ es -> k <= rule_idx e.
Proof.
  induction 1 as [|k r rules es _ _ IH|k r rules e' es _ (Hk & _) _ IH]; intros He.
  - by apply not_elem_of_nil in He.
  - apply IH in He. lia.
  - apply elem_of_cons in He as [->|He]; [lia|]. apply IH in He. lia.
Qed.

Lemma scan_spec names k rules es ruleset memo :
  entries_for names k rules es -> (Z.of_nat (k + length rules) < USIZE_MAX)%Z -> memo_for q names ruleset memo ->
  exists r, scan_entries (encode_idx (first_empty k rules)) es q ruleset memo names = Ret (encode_idx r) /\
    first_from k rules ruleset r.
Proof.
  intros He. revert memo. induction He as [k|k r rules es Hr He IH|k r rules e es Hr Hok He IH]; intros memo Hlen Hm.
  - exists None. split; [done|]. intros j rule Hj. by rewrite lookup_nil in Hj.
  - cbn [first_empty]. rewrite Hr. exists (Some k).
    split; [|apply first_from_here; left; done]. destruct es as [|e es]; [done|]. cbn [scan_entries].
    rewrite decide_True; [done|]. assert (S k <= rule_idx e) by (eapply entries_ge; [done|by left]).
    cbn [encode_idx]. lia.
  - cbn [first_empty length] in *. destruct (matcher r) as [|m ms] eqn:Hmr; [done|]. cbn [scan_entries].
    destruct Hok as (Hidx & Hok'). rewrite Hidx.
    rewrite decide_False.
    2: { destruct (first_empty (S k) rules) as [i|] eqn:Hf; cbn [encode_idx]; [apply first_empty_ge in Hf; lia|lia]. }
    destruct (match_entry_spec q names ruleset memo k (matcher r) e) as (b & memo' & -> & Hm' & Hb);
      [done|by rewrite Hmr|by rewrite Hmr|]. cbn [obind fst snd]. destruct b.
    + exists (Some k). split; [done|]. apply first_from_here. by apply Hb.
    + destruct (IH memo') as (o & Ho & Hfm); [lia|done|]. exists o. split; [done|].
      apply first_from_next; [|done]. by intros ?%Hb.
Qed.
End rules.
End compile.

(** ** Routing *)

Section routing.
Context {Regex : Type} `{!RegexEngine Regex, !RegexLaws Regex}.
Context {Rule : Type} (matcher : Rule -> list RuleMatcher).
Variable rules : list Rule.
Let self := build_index matcher rules : RouteIndex Regex.

Hypothesis Htags : num_tags self <= Z.to_nat 65536.
Hypothesis Hrules : (Z.of_nat (length rules) < USIZE_MAX)%Z.

Lemma index_spec q :
  utf8_valid q = true ->
  catch_all_idx self = first_empty matcher 0 rules /\
  entries_for matcher q (ri_tag_names self) 0 rules (match_entries self) /\
  needs_ruleset self = existsb (fun e => match tags e with [] => false | _ => true end) (match_entries self) /\
  constant_route self = (if decide (catch_all_idx self = Some 0 \/ length (match_entries self) = 0)
                         then Some (catch_all_idx self) else None).
Proof.
  intros Hq. revert Htags. unfold self, build_index.
  destruct (build_loop matcher 0 rules [] None (mkInterner ∅ [])) as [[es c] st] eqn:Hb.
  cbn [num_tags catch_all_idx ri_tag_names match_entries needs_ruleset constant_route]. intros Hn.
  assert (Hok : interner_ok (mkInterner ∅ [])) by (intros n i; cbn [tag_ids]; by rewrite lookup_empty).
  by destruct (build_loop_spec matcher q _ _ _ _ _ _ _ _ Hq Hok Hb Hn) as (-> & es1 & -> & He).
Qed.

Lemma encode_idx_inj r1 r2 :
  (forall i, r1 = Some i -> i < length rules) -> (forall i, r2 = Some i -> i < length rules) ->
  encode_idx r1 = encode_idx r2 -> r1 = r2.
Proof.
  intros H1 H2. destruct r1 as [i|], r2 as [j|]; cbn [encode_idx]; intros Heq; [f_equal; lia| | |done].
  - specialize (H1 i eq_refl). lia.
  - specialize (H2 j eq_refl). lia.
Qed.

Lemma first_match_lt ruleset q r i : first_match matcher rules ruleset q r -> r = Some i -> i < length rules.
Proof. intros Hf ->. destruct Hf as [(rule & Hl & _) _]. by apply lookup_lt_Some in Hl. Qed.

Lemma rules_get_encode r :
  (forall i, r = Some i -> i < length rules) ->
  rules_get rules (encode_idx r) = match r with Some i => rules !! i | None => None end.
Proof.
  intros Hr. unfold rules_get. destruct r as [i|]; cbn [encode_idx].
  - rewrite decide_True, Nat2Z.id by (specialize (Hr i eq_refl); lia). done.
  - by rewrite decide_False by lia.
Qed.

Lemma uncached_spec q ruleset memo :
  utf8_valid q = true -> memo_for q (ri_tag_names self) ruleset memo ->
  exists r, route_index_uncached self q ruleset memo = Ret (encode_idx r) /\ first_match matcher rules ruleset q r.
Proof.
  intros Hq Hm. destruct (index_spec q Hq) as (Hc & He & _).
  destruct (scan_spec matcher q _ 0 rules _ ruleset memo He) as (r & Hs & Hf); [cbn [Nat.add]; lia|done|].
  exists r. split.
  - rewrite <- Hs. unfold route_index_uncached. rewrite Hc. by destruct (match_entries self).
  - destruct r as [i|]; cbn [first_from] in Hf; [|done]. rewrite Nat.sub_0_r in Hf. by destruct Hf.
Qed.

Lemma constant_spec q ruleset c :
  utf8_valid q = true -> constant_route self = Some c -> first_match matcher rules ruleset q c.
Proof.
  intros Hq. destruct (index_spec q Hq) as (Hc & He & _ & ->). case_decide as Hd; [|done]. intros [= <-].
  destruct Hd as [H0|H0].
  - rewrite H0. rewrite H0 in Hc. destruct rules as [|r rs]; [done|]. cbn [first_empty] in Hc.
    destruct (matcher r) eqn:Hr; [|symmetry in Hc; apply first_empty_ge in Hc; lia].
    split; [|intros; lia]. exists r. split; [done|]. by left.
  - assert (Hm : memo_for q (ri_tag_names self) ruleset []).
    { destruct ruleset; [|done]. split; [intros i v|intros k c0 b]; by rewrite ?lookup_nil. }
    destruct (uncached_spec q ruleset [] Hq Hm) as (r & Hu & Hf).
    unfold route_index_uncached in Hu. destruct (match_entries self); [|done]. injection Hu as Hu.
    assert (catch_all_idx self = r) as ->; [|done]. apply encode_idx_inj; [|by intros; eapply first_match_lt|].
    + rewrite Hc. intros i Hi. apply first_empty_ge in Hi. lia.
    + destruct (catch_all_idx self); exact Hu.
Qed.

(** Without tag expressions the database does not matter. *)
Lemma no_tags q k rs es r ruleset ruleset' :
  entries_for matcher q (ri_tag_names self) k rs es ->
  existsb (fun e : MatchEntry Regex => match tags e with [] => false | _ => true end) es = false ->
  r ∈ rs -> rule_matches ruleset q (matcher r) <-> rule_matches ruleset' q (matcher r).
Proof.
  induction 1 as [|k r' rs es Hr He IH|k r' rs e es Hr Hok He IH]; intros Hn Hin.
  - by apply not_elem_of_nil in Hin.
  - apply elem_of_cons in Hin as [->|Hin]; [rewrite Hr; unfold rule_matches; tauto|by apply IH].
  - cbn [existsb] in Hn. apply orb_false_iff in Hn as [Hn1 Hn2].
    apply elem_of_cons in Hin as [->|Hin]; [|by apply IH]. destruct Hok as (_ & _ & Hg).
    destruct (tags e); [|done]. apply Forall2_nil_inv_l in Hg. unfold rule_matches.
    rewrite !rule_matches_split, Hg, !Exists_nil. tauto.
Qed.

Lemma first_match_no_tags q r ruleset ruleset' :
  utf8_valid q = true -> needs_ruleset self = false ->
  first_match matcher rules ruleset q r -> first_match matcher rules ruleset' q r.
Proof.
  intros Hq Hn. destruct (index_spec q Hq) as (_ & He & Hns & _). rewrite Hn in Hns. symmetry in Hns.
  assert (H : forall rule, rule ∈ rules ->
    rule_matches ruleset q (matcher rule) <-> rule_matches ruleset' q (matcher rule))
    by (intros; by eapply no_tags).
  destruct r as [i|]; cbn [first_match].
  - intros [(rule & Hl & Hm) Hb]. split.
    + exists rule. split; [done|]. apply H; [by eapply list_elem_of_lookup_2|done].
    + intros j rule' Hj Hl' Hm'. eapply (Hb j); [done..|]. apply H; [by eapply list_elem_of_lookup_2|done].
  - intros Hb j rule' Hl' Hm'. eapply (Hb j); [done..|]. apply H; [by eapply list_elem_of_lookup_2|done].
Qed.

Section cached.
Context {S : Type} `{!CacheMap S (list Z) Z, !CacheMapLaws S (list Z) Z}.
Variable db : RuleSetDb Regex.

(** Every cached decision is the decision with the database loaded. *)
Definition decision_ok (q : list Z) (i : Z) : Prop :=
  utf8_valid q = true -> exists r, i = encode_idx r /\ first_match matcher rules (Some db) q r.

Lemma route_step cache q ruleset :
  cm_all decision_ok cache -> utf8_valid q = true -> ruleset = None \/ ruleset = Some db ->
  exists r cache', route self cache rules q ruleset
      = Ret (match r with Some i => rules !! i | None => None end, cache') /\
    first_match matcher rules ruleset q r /\ cm_all decision_ok cache'.
Proof.
  intros Hcache Hq Hrs. unfold route. destruct (constant_route self) as [c|] eqn:Hcr.
  { exists c, cache. split; [done|]. split; [by apply constant_spec|done]. }
  assert (Hu : exists r, route_index_uncached self q ruleset (memo_new (num_tags self)) = Ret (encode_idx r) /\
    first_match matcher rules ruleset q r).
  { apply uncached_spec; [done|]. destruct ruleset; [apply memo_new_ok|done]. }
  destruct Hu as (r & Hu & Hf).
  assert (Hget : rules_get rules (encode_idx r) = match r with Some i => rules !! i | None => None end).
  { apply rules_get_encode. intros i. by apply (first_match_lt ruleset q). }
  destruct (bool_decide (is_Some ruleset) || negb (needs_ruleset self)) eqn:Huse; cbv zeta.
  - assert (Hswap : forall o ru ru', ru = None \/ ru = Some db -> ru' = None \/ ru' = Some db ->
      (ru = Some db <-> ru' = Some db) \/ needs_ruleset self = false ->
      first_match matcher rules ru q o -> first_match matcher rules ru' q o).
    { intros o ru ru' H1 H2 H3 Hfm. destruct H3 as [H3|H3]; [|by eapply first_match_no_tags].
      destruct H1 as [->| ->], H2 as [->| ->]; try done; [by destruct (proj2 H3 eq_refl)|].
      specialize (proj1 H3 eq_refl). done. }
    assert (Hside : (ruleset = Some db <-> Some db = Some db) \/ needs_ruleset self = false).
    { destruct Hrs as [->| ->]; [right|by left]. by destruct (needs_ruleset self). }
    destruct (cm_get cache q) as [hit cache1] eqn:Hg.
    assert (Hc1 : cm_all decision_ok cache1) by (pose proof (cm_all_get decision_ok cache q Hcache) as H; by rewrite Hg in H).
    destruct hit as [i|].
    + destruct (cm_all_get_value decision_ok cache q i Hcache) as (o & -> & Ho); [by rewrite Hg|done|].
      exists o, cache1. split; [|split; [|done]].
      * do 2 f_equal. assert (Hlt : forall i, o = Some i -> i < length rules)
          by (intros i; by apply (first_match_lt (Some db) q)).
        rewrite rules_get_encode by done. destruct o as [i|]; cbn [encode_idx]; [|by rewrite decide_True].
        specialize (Hlt i eq_refl). by rewrite decide_False by lia.
      * eapply (Hswap o (Some db) ruleset); [by right|done|tauto|done].
    + rewrite Hu. cbn [obind]. rewrite Hget. exists r. eexists. split; [done|]. split; [done|].
      apply cm_all_insert; [|done]. intros _. exists r. split; [done|].
      by eapply (Hswap r ruleset (Some db)); [|right| |].
  - rewrite Hu. cbn [obind]. rewrite Hget. by exists r, cache.
Qed.

Lemma route_all_spec cache calls :
  cm_all decision_ok cache ->
  Forall (fun c => utf8_valid (fst c) = true /\ (snd c = None \/ snd c = Some db)) calls ->
  exists answers, route_all self cache rules calls = Ret answers /\
    Forall2 (fun c a => exists r, first_match matcher rules (snd c) (fst c) r /\
               a = match r with Some i => rules !! i | None => None end) calls answers.
Proof.
  intros Hc Hcalls. revert cache Hc. induction Hcalls as [|[q ru] calls [Hq Hru] Hcalls IH]; intros cache Hc.
  - exists []. split; [done|constructor].
  - cbn [route_all]. destruct (route_step cache q ru) as (r & cache' & -> & Hf & Hc'); [done..|].
    cbn [obind fst snd]. destruct (IH cache' Hc') as (answers & -> & Hall). cbn [obind].
    eexists. split; [done|]. constructor; [by exists r|done].
Qed.
End cached.
End routing.

(** C1: routing equals a linear first-match scan.  For an index built from at most 65536
    distinct tags, and any history of queries (valid UTF-8 names) each made with
    the rule-set database [db] or without one, every answer of [route], whether
    it comes from the constant shortcut, the route cache (whatever it evicts) or
    the compiled scan with its tag memo, is the first rule whose matcher list is
    empty or has a matching entry; no lookup panics. *)
Theorem route_first_match {Regex} `{!RegexEngine Regex, !RegexLaws Regex} {Rule}
    (matcher : Rule -> list RuleMatcher) {S} `{!CacheMap S (list Z) Z, !CacheMapLaws S (list Z) Z}
    (rules : list Rule) (db : RuleSetDb Regex) (cap : Z)
    (calls : list (list Z * option (RuleSetDb Regex))) :
  num_tags (build_index matcher rules : RouteIndex Regex) <= Z.to_nat 65536 ->
  (Z.of_nat (length rules) < USIZE_MAX)%Z ->
  Forall (fun c => utf8_valid (fst c) = true /\ (snd c = None \/ snd c = Some db)) calls ->
  exists answers, route_all (build_index matcher rules) (route_cache_new cap : S) rules calls = Ret answers /\
    Forall2 (fun c a => exists r, first_match matcher rules (snd c) (fst c) r /\
               a = match r with Some i => rules !! i | None => None end) calls answers.
Proof.
  intros Ht Hr Hc. apply (route_all_spec matcher rules Ht Hr db); [apply cm_all_new|done].
Qed.

(** ** A concrete rule list *)

Import LabelRegex.

Module RouteDemo.
Definition rules : list (list RuleMatcher) :=
  [[MDomain (lit "+.lan"); MTag [] [lit "gfw"]]; [MTag [lit "gfw"] []]; []].
Definition calls : list (list Z * option (RuleSetDb (list LabelRegex.item))) :=
  [(lit "www.example.com", Some RulesetDemo.the_db); (lit "printer.lan", None);
   (lit "www.example.com", None); (lit "www.example.com", Some RulesetDemo.the_db);
   (lit "b.org", Some RulesetDemo.the_db)].
End RouteDemo.

Lemma route_first_match_witness :
  exists answers,
    route_all (RegexEngine0 := LabelRegex.engine) (build_index id RouteDemo.rules)
      (route_cache_new 0 : gmap (list Z) Z) RouteDemo.rules RouteDemo.calls = Ret answers /\
    answers = [RouteDemo.rules !! 1; RouteDemo.rules !! 0; RouteDemo.rules !! 2; RouteDemo.rules !! 1; RouteDemo.rules !! 0].
Proof.
  destruct (route_first_match (RegexEngine0 := LabelRegex.engine) (RegexLaws0 := LabelRegex.engine_laws)
    (S := gmap (list Z) Z) id RouteDemo.rules RulesetDemo.the_db 0 RouteDemo.calls) as (answers & Ha & _).
  - apply Nat.leb_le. vm_compute. reflexivity.
  - reflexivity.
  - repeat (apply Forall_cons; split; [split; [vm_compute; reflexivity|auto]|]). by apply Forall_nil.
  - exists answers. split; [exact Ha|].
    assert (Ret answers = Ret [RouteDemo.rules !! 1; RouteDemo.rules !! 0; RouteDemo.rules !! 2; RouteDemo.rules !! 1; RouteDemo.rules !! 0]) as [= ->].
    + rewrite <- Ha. vm_compute. reflexivity.
    + reflexivity.
Defined.
