(* ===== verification/Router.v ===== *)
(** * Route targets and response filters

    src/src/response_filter.rs (the per-rule filter list evaluated on a resolved
    response), src/src/router.rs (the targets of a query and the fallback
    classification) and the packed attribution of src/src/resolver.rs. *)

From stdpp Require Import strings.
From S2P Require Import Prelude Hasher DnsName DnsQuery Utf8 DnsQname DnsRecords DnsEdns Ecs DnsBuilder CacheMap Cache IpRange RustStr Domain IpParse Ruleset RouteIndex.

(** ** Response filters *)

Inductive FilterAction :=
| Accept
| DropReply
| Forward (target : nat).

Record ResponseFilter := mkFilter {
  rf_answer_ip : AnswerIpMatcher;
  rf_response_type : gset Z;
  rf_response_rcode : gset Z;
  rf_response_qclass : gset Z;
  rf_action : FilterAction
}.

(** [AnswerIpMatcher::is_empty] *)
Definition answer_ip_is_empty (m : AnswerIpMatcher) : bool :=
  bool_decide (ai_include m = []) && bool_decide (ai_exclude m = []).

Section filters.
Context {Regex : Type} `{!RegexEngine Regex}.

Definition filter_matches (self : ResponseFilter) (ruleset : option (RuleSetDb Regex)) (resp : list Z)
    (question_end : nat) : outcome bool :=
  let! ip_ok := (if negb (answer_ip_is_empty (rf_answer_ip self)) then
                   let! ips := answer_ips resp question_end in
                   match ruleset with
                   | Some rs => matches_answer_ip rs (rf_answer_ip self) ips
                   | None => Ret false
                   end
                 else Ret true) in
  if negb ip_ok then Ret false
  else
    let! type_ok := (if decide (rf_response_type self <> ∅) then
                       let! types := answer_rr_types resp question_end in
                       Ret (existsb (fun t => bool_decide (t ∈ rf_response_type self)) types)
                     else Ret true) in
    if negb type_ok then Ret false
    else
      let! rc := rcode resp in
      if decide (rf_response_rcode self <> ∅ /\ (rc ∉ rf_response_rcode self)) then Ret false
      else if decide (rf_response_qclass self <> ∅) then
        let! qc := question_qclass resp question_end in
        Ret (bool_decide (default 0%Z qc ∈ rf_response_qclass self))
      else Ret true.

(** [first_match]: [enumerate().find(...)] *)
Fixpoint first_filter (i : nat) (filters : list ResponseFilter) (ruleset : option (RuleSetDb Regex))
    (resp : list Z) (question_end : nat) : outcome (option (nat * ResponseFilter)) :=
  match filters with
  | [] => Ret None
  | f :: filters' =>
      let! b := filter_matches f ruleset resp question_end in
      if b : bool then Ret (Some (i, f)) else first_filter (S i) filters' ruleset resp question_end
  end.
End filters.

(** ** Servers, rules and targets *)

Inductive FixedAnswer :=
| FixedA (addr : list Z) (ttl : Z)
| FixedAaaa (addr : list Z) (ttl : Z).

Record FixedAnswerSet := mkFixed {
  fs_rcode : option Z;
  fs_rcode_ttl : Z;
  fs_answers : list FixedAnswer
}.

(** A pool is known by an identifier: its connections are outside the model. *)
Inductive ServerKind :=
| Upstream (pool : nat)
| Fixed (set : FixedAnswerSet).

Record Server := mkServer {
  sv_name : list Z;
  sv_final_name : list Z;
  sv_index : nat;
  sv_kind : ServerKind;
  sv_strip_ecs : bool
}.

Record Rule := mkRule {
  r_index : nat;
  r_server : list Z;
  r_kind : ServerKind;
  r_cache_policy : ResolvedCachePolicy;
  r_filters : list ResponseFilter;
  r_matcher : list RuleMatcher;
  r_strip_ecs : bool
}.

Inductive RouteTarget :=
| TRule (rule : Rule) (index : nat)
| TServer (server : Server) (index : nat)
| TRace (primary secondary : Server)
| TCidrTest (primary secondary : Server).

Inductive ResolvedFallback :=
| FbRule (index : nat)
| FbServer (index : nat)
| FbRace (primary secondary : nat)
| FbCidrTest (primary secondary : nat).

(** [Rule::target] *)
Definition rule_target (r : Rule) : RouteTarget := TRule r (r_index r).

Definition upstream_name (t : RouteTarget) : list Z :=
  match t with
  | TRule rule _ => r_server rule
  | TServer s _ => sv_name s
  | TRace _ _ | TCidrTest _ _ => lit "final"
  end.

Definition upstream_name_arc (t : RouteTarget) : list Z :=
  match t with
  | TRule rule _ => r_server rule
  | TServer s _ => sv_final_name s
  | TRace _ _ | TCidrTest _ _ => lit "final"
  end.

Definition skip_cache (t : RouteTarget) : bool :=
  match t with
  | TRule rule _ => pol_skip (r_cache_policy rule)
  | _ => false
  end.

Definition resolved_kind (t : RouteTarget) (winner : option Server) : option ServerKind :=
  match t with
  | TRule rule _ => Some (r_kind rule)
  | TServer s _ => Some (sv_kind s)
  | TRace _ _ | TCidrTest _ _ => sv_kind <$> winner
  end.

Definition target_strip_ecs (t : RouteTarget) : bool :=
  match t with
  | TRule rule _ => r_strip_ecs rule
  | TServer s _ => sv_strip_ecs s
  | TRace p s | TCidrTest p s => sv_strip_ecs p && sv_strip_ecs s
  end.

Definition classify_target (fallback : ResolvedFallback) (rules : list Rule) (servers : list Server)
    (qtype : Z) : outcome RouteTarget :=
  match fallback with
  | FbRule i => let! r := idx rules i in Ret (TRule r i)
  | FbServer i => let! s := idx servers i in Ret (TServer s i)
  | FbRace p s =>
      let! sp := idx servers p in
      let! ss := idx servers s in
      Ret (TRace sp ss)
  | FbCidrTest p s =>
      let! sp := idx servers p in
      let! ss := idx servers s in
      if decide (qtype = 1 \/ qtype = 28)%Z then Ret (TCidrTest sp ss) else Ret (TRace sp ss)
  end.

(** ** Attribution of cache entries (resolver.rs) *)

Inductive RuleAttribution :=
| AttrRule (i : nat)
| AttrFinal (i : nat)
| AttrFinalUnknown
| AttrNone.

Definition FINAL_UNKNOWN_WIRE : Z := 65534.
Definition FINAL_FLAG : Z := 0x8000.

Definition to_wire (a : RuleAttribution) : Z :=
  match a with
  | AttrRule i => wrap 16 (Z.of_nat i)
  | AttrFinal i => Z.lor FINAL_FLAG (wrap 16 (Z.of_nat i))
  | AttrFinalUnknown => FINAL_UNKNOWN_WIRE
  | AttrNone => 65535
  end.

Definition from_wire (rule_id : Z) : RuleAttribution :=
  if decide (rule_id = 65535)%Z then AttrNone
  else if decide (rule_id = FINAL_UNKNOWN_WIRE) then AttrFinalUnknown
  else if decide (Z.land rule_id FINAL_FLAG <> 0)%Z then
    AttrFinal (Z.to_nat (Z.land rule_id (Z.lxor FINAL_FLAG 0xffff)))
  else AttrRule (Z.to_nat rule_id).

Definition upstream_name_for_rule_id (rule_id : Z) (rules : list Rule) (servers : list Server)
  : option (list Z) :=
  match from_wire rule_id with
  | AttrNone => None
  | AttrFinalUnknown => Some (lit "final")
  | AttrFinal i => Some (match servers !! i with Some s => sv_final_name s | None => lit "final" end)
  | AttrRule i => r_server <$> rules !! i
  end.

(** ** Filters decide what they declare *)

Section filter_theory.
Context {Regex : Type} `{!RegexEngine Regex, !RegexLaws Regex}.

Lemma answer_ips_total p qe : returns (answer_ips p qe).
Proof.
  unfold answer_ips. case_decide; [apply returns_Ret|]. in_range. eexists. apply answer_ips_loop_eq.
Qed.

Lemma answer_rr_types_total p qe : returns (answer_rr_types p qe).
Proof.
  unfold answer_rr_types. case_decide; [apply returns_Ret|]. in_range.
  destruct (answer_rr_types_loop_eq (Z.to_nat (be16 p 6)) p qe []) as (ts & -> & _). apply returns_Ret.
Qed.

Lemma rcode_total p : returns (rcode p).
Proof. rewrite rcode_eq. apply returns_Ret. Qed.

Lemma question_qclass_total p qe : returns (question_qclass p qe).
Proof.
  unfold question_qclass. case_decide; [apply returns_Ret|]. in_range. apply returns_Ret.
Qed.

(** The declared criteria: each dimension unconstrained or satisfied. *)
Definition filter_accepts (f : ResponseFilter) (ruleset : option (RuleSetDb Regex)) (ips : list IpAddr)
    (types : list Z) (rc qclass : Z) : Prop :=
  ((ai_include (rf_answer_ip f) = [] /\ ai_exclude (rf_answer_ip f) = []) \/
   exists rs, ruleset = Some rs /\
     (ai_include (rf_answer_ip f) = [] \/
      Exists (fun t => Exists (tag_covers rs t) ips) (ai_include (rf_answer_ip f))) /\
     ~ Exists (fun t => Exists (tag_covers rs t) ips) (ai_exclude (rf_answer_ip f))) /\
  (rf_response_type f = ∅ \/ exists t, t ∈ types /\ t ∈ rf_response_type f) /\
  (rf_response_rcode f = ∅ \/ rc ∈ rf_response_rcode f) /\
  (rf_response_qclass f = ∅ \/ qclass ∈ rf_response_qclass f).

Lemma filter_matches_spec f ruleset resp qe ips types qc :
  (forall rs, ruleset = Some rs -> db_ok rs) ->
  answer_ips resp qe = Ret ips -> answer_rr_types resp qe = Ret types -> question_qclass resp qe = Ret qc ->
  exists rc b, rcode resp = Ret rc /\ filter_matches f ruleset resp qe = Ret b /\
    (b = true <-> filter_accepts f ruleset ips types rc (default 0%Z qc)).
Proof.
  intros Hdb Hips Htypes Hqc. unfold filter_matches, filter_accepts. rewrite Hips, Htypes, Hqc. cbn [obind].
  assert (Hip : exists b, (if negb (answer_ip_is_empty (rf_answer_ip f)) then
      match ruleset with Some rs => matches_answer_ip rs (rf_answer_ip f) ips | None => Ret false end
      else Ret true) = Ret b /\
    (b = true <-> (ai_include (rf_answer_ip f) = [] /\ ai_exclude (rf_answer_ip f) = []) \/
       exists rs, ruleset = Some rs /\
       (ai_include (rf_answer_ip f) = [] \/
        Exists (fun t => Exists (tag_covers rs t) ips) (ai_include (rf_answer_ip f))) /\
       ~ Exists (fun t => Exists (tag_covers rs t) ips) (ai_exclude (rf_answer_ip f)))).
  { unfold answer_ip_is_empty. destruct (decide (ai_include (rf_answer_ip f) = [])) as [Hi|Hi];
      [rewrite (bool_decide_true (ai_include _ = [])) by done|rewrite (bool_decide_false (ai_include _ = [])) by done];
      (destruct (decide (ai_exclude (rf_answer_ip f) = [])) as [He|He];
      [rewrite (bool_decide_true (ai_exclude _ = [])) by done|rewrite (bool_decide_false (ai_exclude _ = [])) by done]); cbn.
    1: exists true; split; [done|tauto].
    all: destruct ruleset as [rs|]; [|exists false; split; [done|]; split; [done|]; intros [[? ?]|(? & ? & _)]; done].
    all: destruct (matches_answer_ip_spec rs (rf_answer_ip f) ips) as (b & -> & Hb); [by apply Hdb|];
      exists b; split; [done|]; rewrite Hb; split; [by intros; right; exists rs|];
      intros [[? ?]|(rs' & Heq & H)]; [done|]; by injection Heq as <-. }
  destruct Hip as (b1 & Hb1 & Hiff1). rewrite Hb1. cbn [obind].
  destruct (rcode_total resp) as [rc Hrc]. rewrite Hrc. exists rc. destruct b1; cbn [negb obind].
  2: { exists false. split; [done|]. split; [done|]. split; [done|]. intros [H _]. by apply Hiff1 in H. }
  assert (Hty : exists b, (if decide (rf_response_type f <> ∅) then
      Ret (existsb (fun t => bool_decide (t ∈ rf_response_type f)) types) else Ret true) = Ret b /\
    (b = true <-> rf_response_type f = ∅ \/ exists t, t ∈ types /\ t ∈ rf_response_type f)).
  { destruct (decide (rf_response_type f <> ∅)) as [Hne|He]; eexists; (split; [done|]).
    - rewrite existsb_exists. setoid_rewrite bool_decide_eq_true. setoid_rewrite <- list_elem_of_In.
      split; [by right|]. by intros [?|?].
    - apply dec_stable in He. split; [by left|done]. }
  destruct Hty as (b2 & Hb2 & Hiff2). rewrite Hb2. cbn [obind]. destruct b2; cbn [negb].
  2: { exists false. split; [done|]. split; [done|]. split; [done|]. intros (_ & H & _). by apply Hiff2 in H. }
  destruct (decide (rf_response_rcode f <> ∅ /\ (rc ∉ rf_response_rcode f))) as [[Hr1 Hr2]|Hr].
  { exists false. split; [done|]. split; [done|]. split; [done|]. intros (_ & _ & [?|?] & _); done. }
  assert (Hrc' : rf_response_rcode f = ∅ \/ rc ∈ rf_response_rcode f).
  { destruct (decide (rf_response_rcode f = ∅)); [by left|]. destruct (decide (rc ∈ rf_response_rcode f)); tauto. }
  destruct (decide (rf_response_qclass f <> ∅)) as [Hq|Hq].
  - exists (bool_decide (default 0%Z qc ∈ rf_response_qclass f)). split; [done|]. split; [done|].
    rewrite bool_decide_eq_true. tauto.
  - apply dec_stable in Hq. exists true. split; [done|]. split; [done|]. tauto.
Qed.

Lemma first_filter_spec i filters ruleset resp qe ips types qc rc :
  (forall rs, ruleset = Some rs -> db_ok rs) ->
  answer_ips resp qe = Ret ips -> answer_rr_types resp qe = Ret types -> question_qclass resp qe = Ret qc ->
  rcode resp = Ret rc ->
  exists r, first_filter i filters ruleset resp qe = Ret r /\
    match r with
    | Some (j, f) => i <= j /\ filters !! (j - i) = Some f /\
        filter_accepts f ruleset ips types rc (default 0%Z qc) /\
        forall k g, k < j - i -> filters !! k = Some g -> ~ filter_accepts g ruleset ips types rc (default 0%Z qc)
    | None => forall g, g ∈ filters -> ~ filter_accepts g ruleset ips types rc (default 0%Z qc)
    end.
Proof.
  intros Hdb Hips Htypes Hqc Hrc. revert i. induction filters as [|f filters IH]; intros i; cbn [first_filter].
  - exists None. split; [done|]. intros g Hg. by apply not_elem_of_nil in Hg.
  - destruct (filter_matches_spec f ruleset resp qe ips types qc Hdb Hips Htypes Hqc) as (rc' & b & Hrc' & -> & Hb).
    assert (rc' = rc) as -> by congruence. cbn [obind]. destruct b.
    + exists (Some (i, f)). split; [done|]. rewrite Nat.sub_diag. split; [done|]. split; [done|].
      split; [by apply Hb|]. intros; lia.
    + destruct (IH (S i)) as (r & -> & Hr). exists r. split; [done|]. destruct r as [[j g]|].
      * destruct Hr as (Hij & Hl & Hacc & Hbefore). split; [lia|].
        replace (j - i) with (S (j - S i)) by lia. split; [exact Hl|]. split; [done|].
        intros [|k] h Hk Hh; cbn in Hh; [injection Hh as <-; intros Ha; by apply Hb in Ha|].
        eapply Hbefore; [|exact Hh]. lia.
      * intros g Hg. apply elem_of_cons in Hg as [->|Hg]; [|by apply Hr]. intros Ha. by apply Hb in Ha.
Qed.

(** The filter chosen for a response is the first of the rule's list whose
    declared criteria all hold: the answer addresses satisfy its [answer-ip]
    expression (a loaded database is required), an answer record has one of its
    types, and the RCODE and QCLASS are among its values, an empty dimension being
    no constraint; none is chosen exactly when no filter accepts.  Evaluation
    returns on every byte string. *)
Theorem first_filter_correct filters (ruleset : option (RuleSetDb Regex)) resp qe :
  (forall rs, ruleset = Some rs -> db_ok rs) ->
  exists ips types rc qc r,
    answer_ips resp qe = Ret ips /\ answer_rr_types resp qe = Ret types /\ rcode resp = Ret rc /\
    question_qclass resp qe = Ret qc /\ first_filter 0 filters ruleset resp qe = Ret r /\
    match r with
    | Some (j, f) => filters !! j = Some f /\ filter_accepts f ruleset ips types rc (default 0%Z qc) /\
        forall k g, k < j -> filters !! k = Some g -> ~ filter_accepts g ruleset ips types rc (default 0%Z qc)
    | None => forall g, g ∈ filters -> ~ filter_accepts g ruleset ips types rc (default 0%Z qc)
    end.
Proof.
  intros Hdb. destruct (answer_ips_total resp qe) as [ips Hips].
  destruct (answer_rr_types_total resp qe) as [types Htypes].
  destruct (question_qclass_total resp qe) as [qc Hqc]. destruct (rcode_total resp) as [rc Hrc].
  destruct (first_filter_spec 0 filters ruleset resp qe ips types qc rc Hdb Hips Htypes Hqc Hrc) as (r & Hr & H).
  exists ips, types, rc, qc, r. repeat (split; [done|]). destruct r as [[j f]|]; [|done].
  rewrite Nat.sub_0_r in H. tauto.
Qed.
End filter_theory.

(** ** Attribution round trip *)

Lemma land_final_flag i : (0 <= i < 32768)%Z -> Z.land i FINAL_FLAG = 0%Z.
Proof.
  intros Hi. apply Z.bits_inj'. intros n Hn. rewrite Z.land_spec, Z.bits_0.
  destruct (decide (n = 15)%Z) as [->|].
  - assert (Z.testbit i 15 = false) as ->; [|done].
    apply Z.testbit_false; [lia|]. by rewrite Z.div_small by (change (2 ^ 15)%Z with 32768%Z; lia).
  - change FINAL_FLAG with (2 ^ 15)%Z. rewrite Z.pow2_bits_false by lia. apply andb_false_r.
Qed.

(** Rule indices below 2^15 and server indices below 32766 decode from the 16-bit
    identifier stored with a cache entry to what was encoded, and so do the two
    sentinels; the identifier always fits 16 bits. *)
Lemma rule_attribution_roundtrip a :
  match a with AttrRule i => i < Z.to_nat 32768 | AttrFinal i => i < Z.to_nat 32766 | _ => True end ->
  from_wire (to_wire a) = a /\ u_ok 16 (to_wire a).
Proof.
  assert (Hlor : forall z, (0 <= z < 32768)%Z -> Z.lor FINAL_FLAG z = (32768 + z)%Z).
  { intros z Hz. rewrite <- Z.lxor_lor by (rewrite Z.land_comm; by apply land_final_flag).
    rewrite <- Z.add_nocarry_lxor by (rewrite Z.land_comm; by apply land_final_flag). done. }
  intros Ha. destruct a as [i|i| |]; cbn [to_wire]; [| |done..].
  - assert (wrap 16 (Z.of_nat i) = Z.of_nat i) as -> by (unfold wrap; change (2 ^ 16)%Z with 65536%Z; apply Z.mod_small; lia).
    unfold from_wire. rewrite !decide_False by (unfold FINAL_UNKNOWN_WIRE; lia).
    rewrite decide_False by (rewrite land_final_flag by lia; tauto). rewrite Nat2Z.id. split; [done|]. unfold u_ok. lia.
  - assert (wrap 16 (Z.of_nat i) = Z.of_nat i) as -> by (unfold wrap; change (2 ^ 16)%Z with 65536%Z; apply Z.mod_small; lia).
    rewrite Hlor by lia. unfold from_wire. rewrite !decide_False by (unfold FINAL_UNKNOWN_WIRE; lia).
    assert (Z.land (32768 + Z.of_nat i) FINAL_FLAG = FINAL_FLAG) as Hf.
    { rewrite <- Hlor, Z.land_lor_distr_l, Z.land_diag, land_final_flag by lia. apply Z.lor_0_r. }
    assert (Z.land (32768 + Z.of_nat i) (Z.lxor FINAL_FLAG 0xffff) = Z.of_nat i) as ->.
    { rewrite <- Hlor, Z.land_lor_distr_l by lia. change (Z.land FINAL_FLAG (Z.lxor FINAL_FLAG 0xffff)) with 0%Z.
      rewrite Z.lor_0_l. change (Z.lxor FINAL_FLAG 0xffff) with (Z.ones 15). rewrite Z.land_ones by lia.
      change (2 ^ 15)%Z with 32768%Z. apply Z.mod_small. lia. }
    rewrite decide_True by (by rewrite Hf). rewrite Nat2Z.id. split; [done|]. unfold u_ok. lia.
Qed.

(** ** A concrete filter list *)

Import LabelRegex.

Module FilterDemo.
Definition query : list Z :=
  ([0; 7; 1; 0; 0; 1; 0; 0; 0; 0; 0; 0; 1; 97; 0; 0; 1; 0; 1])%Z.
Definition resp : list Z :=
  match a_reply query 19 [10; 0; 0; 1]%Z 60 with Ret (Ok p) => p | _ => [] end.
Definition forward_lan : ResponseFilter := mkFilter (mkAnswerIp [lit "lan"] []) {[1%Z]} {[0%Z]} ∅ (Forward 1).
Definition filters : list ResponseFilter :=
  [mkFilter (mkAnswerIp [] []) {[28%Z]} ∅ ∅ DropReply; forward_lan].
End FilterDemo.

Lemma first_filter_witness :
  first_filter 0 FilterDemo.filters (Some RulesetDemo.the_db) FilterDemo.resp 19
    = Ret (Some (1, FilterDemo.forward_lan)) /\
  exists ips types rc qc,
    filter_accepts FilterDemo.forward_lan (Some RulesetDemo.the_db) ips types rc qc.
Proof.
  assert (H : first_filter 0 FilterDemo.filters (Some RulesetDemo.the_db) FilterDemo.resp 19
    = Ret (Some (1, FilterDemo.forward_lan))) by (vm_compute; reflexivity).
  split; [exact H|].
  destruct (first_filter_correct FilterDemo.filters (Some RulesetDemo.the_db) FilterDemo.resp 19)
    as (ips & types & rc & qc & r & _ & _ & _ & _ & Hr & Hspec).
  - intros rs Hrs. apply (inj Some) in Hrs. rewrite <- Hrs.
    eapply load_db_ok; [|exact RulesetDemo.the_db_loaded]. done.
  - rewrite H in Hr. apply (inj Ret) in Hr. rewrite <- Hr in Hspec.
    exists ips, types, rc, (default 0%Z qc). exact (proj1 (proj2 Hspec)).
Defined.
