(* ===== verification/Resolver.v ===== *)
(** * The query pipeline (src/src/resolver.rs)

    The synchronous fast path, the choice of a target, the upstream exchange of a
    target (fixed answers, primary/secondary race, address test), the rule's filter
    chain, and the leader's and followers' ends of a deduplicated exchange.

    What an upstream pool returns for a query is a parameter ([exch]); of an await
    the model keeps what can differ afterwards: the state at completion, the order
    in which two exchanges finish, and the routing generation.  Query-log events are
    left out; the counters the handlers bump are kept. *)

From stdpp Require Import strings.
From S2P Require Import Prelude Hasher DnsName DnsQuery Utf8 DnsQname DnsRecords DnsEdns Ecs DnsBuilder CacheMap Cache Singleflight VerdictCache IpRange RustStr Domain IpParse Ruleset RouteIndex Router.

(** The error values: a failed exchange, or a packet no reply can be built for. *)
Inductive resolve_error :=
| ExchangeFailed (inflight_cap : bool)
| BuilderFailed (e : builder_error)
| RaceFailed
| BothUpstreamsFailed.

(** The counters of [QueryLogCounters] the pipeline updates. *)
Inductive Counter :=
| queries_udp | queries_tcp | cache_hits | singleflight_hits | rtt_sum_us | rtt_count
| upstream_ok | upstream_err | upstream_inflight_drops | filtered | inflight_queued | inflight_drops.

#[export] Instance Counter_eq_dec : EqDecision Counter.
Proof. solve_decision. Defined.

Definition Counters : Type := Counter -> Z.

Definition fetch_add (k : Counter) (n : Z) (c : Counters) : Counters :=
  fun k' => if decide (k' = k) then wrap 64 (c k + n) else c k'.

Inductive ClientProto := Udp | Tcp.

Definition record_query_received (c : Counters) (proto : ClientProto) : Counters :=
  match proto with
  | Udp => fetch_add queries_udp 1 c
  | Tcp => fetch_add queries_tcp 1 c
  end.

Definition record_client_latency (elapsed_us : Z) (c : Counters) : Counters :=
  fetch_add rtt_count 1 (fetch_add rtt_sum_us elapsed_us c).

Definition record_singleflight_hit (c : Counters) : Counters := fetch_add singleflight_hits 1 c.

(** ** The fast path *)

Inductive FastPathOutcome :=
| FpResponse (resp : list Z)
| FpMiss (info : FastQueryInfo) (probe : CacheProbe)
| FpDrop.

Section fast.
Context {CS : Type} `{!CacheMap CS Z Entry}.

(** [arena] is empty between responses, so the response is the buffer's contents. *)
Definition try_fast_path_into (packet : list Z) (proto : ClientProto) (cache : DnsCache CS)
    (counters : Counters) (collecting : bool) (now1 now2 : Z)
  : outcome (FastPathOutcome * DnsCache CS * Counters) :=
  let! non_query := (if decide (12 <= length packet) then
                       let! b := idx packet 2 in
                       Ret (bool_decide (Z.land b 0x80 = 0 /\ Z.land (Z.shiftr b 3) 0x0f <> 0)%Z)
                     else Ret false) in
  if non_query : bool then
    let! resp := notimp_opcode_reply packet in
    Ret (FpResponse resp, cache, record_query_received counters proto)
  else
    let! parsed := parse_query_fast packet in
    match parsed with
    | Err _ => Ret (FpDrop, cache, counters)
    | Ok fast =>
        let counters := record_query_received counters proto in
        let i := fast_question_end fast - 2 in
        let! qclass := u16_at packet i in
        if decide (qclass <> 1 /\ qclass <> 255)%Z then
          let! r := notimp_reply packet (fast_question_end fast) in
          Ret (FpResponse (match r with Ok p => p | Err _ => [] end), cache, counters)
        else
          let! (hit, probe, out, cache) := get_into_with_ecs_fallback cache packet fast [] collecting now1 now2 in
          match hit with
          | Some _ => Ret (FpResponse out, cache, fetch_add cache_hits 1 counters)
          | None => Ret (FpMiss fast probe, cache, counters)
          end
    end.
End fast.

(** ** Upstream exchanges *)

(** [synth_fixed_answer]: the last A and the last AAAA of the set count. *)
Definition last_a (answers : list FixedAnswer) : option (list Z * Z) :=
  foldl (fun acc fa => match fa with FixedA addr ttl => Some (addr, ttl) | _ => acc end) None answers.
Definition last_aaaa (answers : list FixedAnswer) : option (list Z * Z) :=
  foldl (fun acc fa => match fa with FixedAaaa addr ttl => Some (addr, ttl) | _ => acc end) None answers.

Definition synth_fixed_answer (packet : list Z) (question_end : nat) (qtype : Z) (set : FixedAnswerSet)
  : outcome (result builder_error (list Z)) :=
  match fs_answers set with
  | _ :: _ =>
      match decide (qtype = 1)%Z, last_a (fs_answers set), decide (qtype = 28)%Z, last_aaaa (fs_answers set) with
      | left _, Some (addr, ttl), _, _ => a_reply packet question_end addr ttl
      | _, _, left _, Some (addr, ttl) => aaaa_reply packet question_end addr ttl
      | _, _, _, _ => empty_reply packet question_end
      end
  | [] =>
      let rc := default 0%Z (fs_rcode set) in
      if decide (rc = 0)%Z then empty_reply packet question_end else rcode_reply packet question_end rc
  end.

(** The query's context and what each pool answers to it. *)
Record QueryContext := mkContext { ctx_packet : list Z; ctx_info : QueryInfo }.

Definition exchanges : Type := nat -> list Z -> Z -> result resolve_error (list Z).

Definition exchange_kind (exch : exchanges) (ctx : QueryContext) (kind : ServerKind)
  : outcome (result resolve_error (list Z)) :=
  match kind with
  | Upstream pool => Ret (exch pool (ctx_packet ctx) (info_id (ctx_info ctx)))
  | Fixed set =>
      let! r := synth_fixed_answer (ctx_packet ctx) (info_question_end (ctx_info ctx)) (info_qtype (ctx_info ctx)) set in
      Ret (match r with Ok p => Ok p | Err e => Err (BuilderFailed e) end)
  end.

(** [matches!(&result, Ok(r) if dns::rcode(r) != 2)] *)
Definition clean (r : result resolve_error (list Z)) : outcome bool :=
  match r with
  | Ok p => let! rc := rcode p in Ret (bool_decide (rc <> 2)%Z)
  | Err _ => Ret false
  end.

Definition tag_index (i : nat) (r : result resolve_error (list Z)) : result resolve_error (list Z * nat) :=
  match r with Ok b => Ok (b, i) | Err e => Err e end.

Definition pick_race_winner (first : result resolve_error (list Z)) (first_idx : nat)
    (second : result resolve_error (list Z)) (second_idx : nat)
  : outcome (result resolve_error (list Z * nat)) :=
  let! c := clean second in
  if c : bool then Ret (tag_index second_idx second)
  else
    Ret (match first, second with
         | Ok sf, _ => Ok (sf, first_idx)
         | Err _, Ok sf => Ok (sf, second_idx)
         | Err _, Err _ => Err RaceFailed
         end).

(** [tokio::select!] takes the side that finishes first. *)
Definition race (primary_first : bool) (rp rs : result resolve_error (list Z)) (primary secondary : Server)
  : outcome (result resolve_error (list Z * nat)) :=
  let '(r1, i1, r2, i2) :=
    if primary_first then (rp, sv_index primary, rs, sv_index secondary)
    else (rs, sv_index secondary, rp, sv_index primary) in
  let! c := clean r1 in
  if c : bool then Ret (tag_index i1 r1) else pick_race_winner r1 i1 r2 i2.

(** [qname_owned] and [ensure_qname] *)
Definition qname_owned (ctx : QueryContext) : outcome (list Z) :=
  match info_qname (ctx_info ctx) with
  | Some q => Ret q
  | None =>
      let! r := qname_from_question (ctx_packet ctx) (info_question_end (ctx_info ctx)) in
      Ret (match r with Ok q => q | Err _ => [] end)
  end.

Definition ensure_qname (ctx : QueryContext) : outcome QueryContext :=
  let! q := qname_owned ctx in
  let i := ctx_info ctx in
  Ret (mkContext (ctx_packet ctx)
    (mkQueryInfo (info_id i) (Some q) (info_qtype i) (info_question_end i) (info_qname_wire_hash i)
       (info_qname_wire_hash_end i) (info_variant i) (info_precomputed_cache_keys i))).

Section hot.
Context {Regex : Type} `{!RegexEngine Regex}.

(** The routing snapshot a query works with; [hs_answer_ip] is the [answer_ip] of a
    [Dual] fallback target (empty matcher when there is none). *)
Record HotState := mkHot {
  hs_servers : list Server;
  hs_rules : list Rule;
  hs_needs_ruleset : bool;
  hs_fallback : ResolvedFallback;
  hs_ruleset : option (RuleSetDb Regex);
  hs_index : RouteIndex Regex;
  hs_generation : Z;
  hs_answer_ip : option AnswerIpMatcher;
  hs_noip_as_primary : bool
}.

Context {VS : Type} `{!CacheMap VS (list Z) VerdictEntry}.

Definition resolve_none_rule_with_cidr (exch : exchanges) (primary_first : bool) (ctx : QueryContext)
    (primary secondary : Server) (verdicts : VerdictCache VS) (hot : HotState) (generation now1 now2 : Z)
  : outcome (result resolve_error (list Z * nat) * VerdictCache VS) :=
  match (match hs_answer_ip hot with
         | Some m => if answer_ip_is_empty m then None else Some m
         | None => None
         end), hs_ruleset hot with
  | Some answer_ip, Some ruleset =>
      let! qname := qname_owned ctx in
      let '(verdict, verdicts) := verdict_get verdicts qname now1 in
      match verdict with
      | Some true =>
          let! r := exchange_kind exch ctx (sv_kind primary) in
          Ret (tag_index (sv_index primary) r, verdicts)
      | Some false =>
          let! r := exchange_kind exch ctx (sv_kind secondary) in
          Ret (tag_index (sv_index secondary) r, verdicts)
      | None =>
          let! rp := exchange_kind exch ctx (sv_kind primary) in
          let! rs := exchange_kind exch ctx (sv_kind secondary) in
          match rp with
          | Ok resp =>
              let! ips := answer_ips resp (info_question_end (ctx_info ctx)) in
              let! is_primary_ip := matches_answer_ip ruleset answer_ip ips in
              let routing_unchanged := bool_decide (generation = hs_generation hot) in
              let use_secondary :=
                match rs with
                | Ok b => Ok (b, sv_index secondary)
                | Err _ => Ok (resp, sv_index primary)
                end in
              if decide (ips = []) then
                Ret (if hs_noip_as_primary hot then Ok (resp, sv_index primary) else use_secondary, verdicts)
              else if is_primary_ip : bool then
                Ret (Ok (resp, sv_index primary),
                     if routing_unchanged then verdict_add verdicts qname true now2 else verdicts)
              else
                Ret (use_secondary,
                     if routing_unchanged then verdict_add verdicts qname false now2 else verdicts)
          | Err _ =>
              Ret (match rs with
                   | Ok b => Ok (b, sv_index secondary)
                   | Err _ => Err BothUpstreamsFailed
                   end, verdicts)
          end
      end
  | _, _ =>
      let! rp := exchange_kind exch ctx (sv_kind primary) in
      let! rs := exchange_kind exch ctx (sv_kind secondary) in
      let! r := race primary_first rp rs primary secondary in
      Ret (r, verdicts)
  end.

Definition do_upstream_exchange (exch : exchanges) (primary_first : bool) (ctx : QueryContext)
    (verdicts : VerdictCache VS) (hot : HotState) (generation now1 now2 : Z) (target : RouteTarget)
  : outcome (result resolve_error (list Z * option nat) * VerdictCache VS) :=
  let with_some (r : result resolve_error (list Z * nat)) : result resolve_error (list Z * option nat) :=
    match r with Ok (b, i) => Ok (b, Some i) | Err e => Err e end in
  let with_none (r : result resolve_error (list Z)) : result resolve_error (list Z * option nat) :=
    match r with Ok b => Ok (b, None) | Err e => Err e end in
  match target with
  | TRace primary secondary =>
      let! rp := exchange_kind exch ctx (sv_kind primary) in
      let! rs := exchange_kind exch ctx (sv_kind secondary) in
      let! r := race primary_first rp rs primary secondary in
      Ret (with_some r, verdicts)
  | TCidrTest primary secondary =>
      let! (r, verdicts) := resolve_none_rule_with_cidr exch primary_first ctx primary secondary verdicts hot
        generation now1 now2 in
      Ret (with_some r, verdicts)
  | TRule rule _ =>
      let! r := exchange_kind exch ctx (r_kind rule) in Ret (with_none r, verdicts)
  | TServer s _ =>
      let! r := exchange_kind exch ctx (sv_kind s) in Ret (with_none r, verdicts)
  end.

(** ** Targets and filters *)

(** [resolve_query] up to the exchange: the ruleset it works with, the target. *)
Definition query_ruleset (hot : HotState) : option (RuleSetDb Regex) :=
  if hs_needs_ruleset hot then hs_ruleset hot else None.

Context {RS : Type} `{!CacheMap RS (list Z) Z}.

Definition select_target (ctx : QueryContext) (hot : HotState) (route_cache : RS) (cache_enabled collecting : bool)
  : outcome (QueryContext * RouteTarget * RS) :=
  let fallback := classify_target (hs_fallback hot) (hs_rules hot) (hs_servers hot) (info_qtype (ctx_info ctx)) in
  match constant_target (hs_index hot) with
  | Some constant =>
      let! ctx := (if cache_enabled || collecting then ensure_qname ctx else Ret ctx) in
      let! t := match constant with
                | Some i => match hs_rules hot !! i with Some r => Ret (rule_target r) | None => fallback end
                | None => fallback
                end in
      Ret (ctx, t, route_cache)
  | None =>
      let! ctx := ensure_qname ctx in
      let! qname := qname_owned ctx in
      let! (r, route_cache) := route (hs_index hot) route_cache (hs_rules hot) qname (query_ruleset hot) in
      let! t := match r with Some rule => Ret (rule_target rule) | None => fallback end in
      Ret (ctx, t, route_cache)
  end.

Inductive StepOutcome :=
| StepResponse (resp : list Z) (winner_idx forwarded_idx : option nat)
| StepDrop.

(** The result, the verdicts, and the addresses handed to the ipset worker. *)
Definition resolve_with_filters (exch1 exch2 : exchanges) (primary_first : bool) (ctx : QueryContext)
    (verdicts : VerdictCache VS) (hot : HotState) (has_ipset : bool) (generation now1 now2 : Z) (target : RouteTarget)
  : outcome (result resolve_error StepOutcome * VerdictCache VS * list (nat * nat * list IpAddr)) :=
  let! (r, verdicts) := do_upstream_exchange exch1 primary_first ctx verdicts hot generation now1 now2 target in
  match r with
  | Err e => Ret (Err e, verdicts, [])
  | Ok (resp, winner_idx) =>
      let done := Ret (Ok (StepResponse resp winner_idx None), verdicts, []) in
      match target with
      | TRule rule i =>
          let! m := first_filter 0 (r_filters rule) (query_ruleset hot) resp (info_question_end (ctx_info ctx)) in
          match m with
          | None => done
          | Some (filter_idx, filter) =>
              match rf_action filter with
              | DropReply => Ret (Ok StepDrop, verdicts, [])
              | Forward target_idx =>
                  let! s := idx (hs_servers hot) target_idx in
                  let! (fr, verdicts) := do_upstream_exchange exch2 primary_first ctx verdicts hot generation
                    now1 now2 (TServer s target_idx) in
                  Ret (match fr with
                       | Ok (b, _) => Ok (StepResponse b None (Some target_idx))
                       | Err e => Err e
                       end, verdicts, [])
              | Accept =>
                  if has_ipset then
                    let! ips := answer_ips resp (info_question_end (ctx_info ctx)) in
                    Ret (Ok (StepResponse resp winner_idx None), verdicts,
                         if decide (ips <> []) then [(i, filter_idx, ips)] else [])
                  else done
              end
          end
      | _ => done
      end
  end.

(** ** Deduplication *)

Definition GENERATION_MIX : Z := 0x9e3779b97f4a7c15.

(** Whether the subnet is stripped, the cache key and the singleflight key. *)
Definition dedupe_keys (ctx : QueryContext) (hot : HotState) (target : RouteTarget)
  : outcome (bool * Z * Z) :=
  let variant := info_variant (ctx_info ctx) in
  let ecs_in_query := target_strip_ecs target && match ecs_src variant with Some _ => true | None => false end in
  let! ck := match info_precomputed_cache_keys (ctx_info ctx) with
             | Some (regular_key, stripped_key) =>
                 Ret (if ecs_in_query then default regular_key stripped_key else regular_key)
             | None => cache_key_with_variant_from_qname_hash (ctx_packet ctx) (info_question_end (ctx_info ctx))
                         (info_qname_wire_hash (ctx_info ctx)) (info_qname_wire_hash_end (ctx_info ctx)) variant ecs_in_query
             end in
  Ret (ecs_in_query, ck, Z.lxor ck (wrap 64 (hs_generation hot * GENERATION_MIX))).
End hot.

(** [Bytes::from(dns::servfail_reply(..).unwrap_or_default())] *)
Definition servfail_or_empty (ctx : QueryContext) : outcome (list Z) :=
  let! r := servfail_reply (ctx_packet ctx) (info_question_end (ctx_info ctx)) in
  Ret (match r with Ok p => p | Err _ => [] end).

(** [a.eq_ignore_ascii_case(b)] *)
Definition eq_ignore_ascii_case (a b : list Z) : bool := bool_decide (lower_label a = lower_label b).

(** What a follower's wait ends with: the leader's message, or a timeout or a
    dropped sender. *)
Inductive wait_result :=
| Published (msg : option (list Z))
| NotPublished.

(** The follower's end: its reply, and the counters after [elapsed_us]. *)
Definition follower_reply (ctx : QueryContext) (w : wait_result) (elapsed_us : Z) (counters : Counters)
  : outcome (result query_error (option (list Z)) * Counters) :=
  let qe := info_question_end (ctx_info ctx) in
  let counted := record_singleflight_hit (record_client_latency elapsed_us counters) in
  match w with
  | NotPublished => let! s := servfail_or_empty ctx in Ret (Ok (Some s), counted)
  | Published None => Ret (Ok None, counted)
  | Published (Some resp) =>
      let! leader_qend := question_end resp in
      let! question := slice (ctx_packet ctx) 12 qe in
      let! mismatch := (if decide (leader_qend <> Some qe \/ length resp < qe) then Ret true
                        else let! q := slice resp 12 qe in Ret (negb (eq_ignore_ascii_case q question))) in
      if mismatch : bool then let! s := servfail_or_empty ctx in Ret (Ok (Some s), counted)
      else
        let! r := set_id resp (info_id (ctx_info ctx)) in
        match r with
        | Err e => Ret (Err e, counters)
        | Ok resp =>
            let! resp := copy_at resp 12 question in
            Ret (Ok (Some resp), counted)
        end
  end.

(** ** The leader *)

Section leader.
Context {Regex : Type} `{!RegexEngine Regex}.
Context {CS : Type} `{!CacheMap CS Z Entry}.

(** The policy and attribution an answer is stored with. *)
Definition store_policy (cache : DnsCache CS) (hot : HotState (Regex := Regex)) (target : RouteTarget)
    (winner_idx forwarded_idx : option nat) : ResolvedCachePolicy * RuleAttribution :=
  let winner_server := winner_idx ≫= (fun i => hs_servers hot !! i) in
  let '(policy, attribution) :=
    match target, winner_server with
    | TRule rule i, _ => (r_cache_policy rule, AttrRule i)
    | TServer _ i, _ => (resolve_policy cache None, AttrFinal i)
    | _, Some w => (resolve_policy cache None, AttrFinal (sv_index w))
    | _, None => (resolve_policy cache None, AttrFinalUnknown)
    end in
  let fixed_kind :=
    match forwarded_idx ≫= (fun i => hs_servers hot !! i) with
    | Some s => Some (sv_kind s)
    | None => resolved_kind target winner_server
    end in
  (match fixed_kind with
   | Some (Fixed set) =>
       if decide (fs_answers set = []) then
         mkResolvedCachePolicy (pol_skip policy) (fs_rcode_ttl set) (pol_min_ttl policy) (pol_max_ttl policy)
       else policy
   | _ => policy
   end, attribution).

(** The cache write: the stored query loses the subnet when the key does, the
    stored packet its OPT data. *)
Definition store_answer (cache : DnsCache CS) (ctx : QueryContext) (hot : HotState (Regex := Regex))
    (target : RouteTarget) (ecs_in_query : bool) (ck : Z) (resp : list Z)
    (winner_idx forwarded_idx : option nat) (now : Z) : outcome (DnsCache CS) :=
  let qe := info_question_end (ctx_info ctx) in
  let variant := info_variant (ctx_info ctx) in
  let '(policy, attribution) := store_policy cache hot target winner_idx forwarded_idx in
  let! (cache_query, cache_variant) :=
    (if ecs_in_query then
       let! o := strip_edns_ecs (ctx_packet ctx) in
       match o with
       | Some stripped => let! v := extract_variant stripped qe in Ret (stripped, v)
       | None => Ret (ctx_packet ctx, variant)
       end
     else Ret (ctx_packet ctx, variant)) in
  let! sanitized := strip_opt_rdata resp in
  let! qname := qname_owned ctx in
  add cache (mkCacheInsert ck qname qe cache_query cache_variant (default resp sanitized)) policy
    (to_wire attribution) now.

(** What the leader leaves behind: its reply, the cache, the singleflight table with
    the senders it took, and the counters. *)
Record LeaderEnd := mkLeaderEnd {
  le_reply : result resolve_error (option (list Z));
  le_cache : DnsCache CS;
  le_table : InflightTable;
  le_sends : list (nat * sender_fate);
  le_counters : Counters
}.

(** [exchange_with_dedupe] from the filters' result on; [generation] is the routing
    generation then, [hs_generation hot] the one the query started with.  The last
    branch is the early return, where dropping [_leader] removes the key. *)
Definition leader_finish (cache : DnsCache CS) (table : InflightTable) (ctx : QueryContext)
    (hot : HotState (Regex := Regex)) (target : RouteTarget) (ecs_in_query : bool) (ck sf_ck : Z)
    (result : result resolve_error StepOutcome) (generation now elapsed_us : Z) (counters : Counters)
  : outcome LeaderEnd :=
  let qe := info_question_end (ctx_info ctx) in
  match result with
  | Ok (StepResponse resp winner_idx forwarded_idx) =>
      let! cache :=
        (if negb (skip_cache target) && is_enabled cache && bool_decide (generation = hs_generation hot) then
           store_answer cache ctx hot target ecs_in_query ck resp winner_idx forwarded_idx now
         else Ret cache) in
      let! question := slice (ctx_packet ctx) 12 qe in
      let! resp := copy_at resp 12 question in
      let! (table, sends) := publish_bytes table sf_ck resp in
      Ret (mkLeaderEnd (Ok (Some resp)) cache table sends
             (fetch_add upstream_ok 1 (record_client_latency elapsed_us counters)))
  | Ok StepDrop =>
      let! (table, sends) := publish_drop table sf_ck in
      Ret (mkLeaderEnd (Ok None) cache table sends
             (fetch_add filtered 1 (record_client_latency elapsed_us counters)))
  | Err err =>
      let! s := servfail_reply (ctx_packet ctx) qe in
      match s with
      | Ok servfail =>
          let! (table, sends) := publish_bytes table sf_ck servfail in
          let counters := fetch_add upstream_err 1 (record_client_latency elapsed_us counters) in
          Ret (mkLeaderEnd (Ok (Some servfail)) cache table sends
                 (match err with
                  | ExchangeFailed true => fetch_add upstream_inflight_drops 1 counters
                  | _ => counters
                  end))
      | Err _ =>
          let! (table, sends) := remove table sf_ck in
          Ret (mkLeaderEnd (Err err) cache table sends counters)
      end
  end.
End leader.

(** ** Admission to the slow path *)

(** [handle_packet_slow_with_info] up to [resolve_query]: [pre] a permit acquired
    before, [try] the outcome of [try_acquire_owned], [waited] that of the bounded
    wait.  [None] admits the query; otherwise the reply. *)
Definition admit_query (packet : list Z) (info : QueryInfo) (pre try waited : bool) (inflight_queue_ms : Z)
    (counters : Counters) : outcome (option (option (list Z)) * Counters) :=
  if pre || try then Ret (None, counters)
  else
    let '(acquired, counters) :=
      if decide (0 < inflight_queue_ms)%Z then (waited, fetch_add inflight_queued 1 counters)
      else (false, counters) in
    if acquired : bool then Ret (None, counters)
    else
      let! s := servfail_reply packet (info_question_end info) in
      Ret (Some (match s with Ok p => Some p | Err _ => None end), fetch_add inflight_drops 1 counters).

(** [handle_packet_slow_preparsed]: the context of a fast-path miss. *)
Definition slow_context (packet : list Z) (fast : FastQueryInfo) (probe : CacheProbe) : QueryContext :=
  let i := parse_query_from_fast packet fast (probe_variant probe) in
  mkContext packet
    (mkQueryInfo (info_id i) (info_qname i) (info_qtype i) (info_question_end i)
       (info_qname_wire_hash i) (info_qname_wire_hash_end i) (info_variant i)
       (Some (probe_regular_key probe, probe_stripped_key probe))).
