(* ===== verification/ResolverCorrect.v ===== *)
(** * Correctness of the query pipeline

    What the race of two servers returns, what followers and the leader of a
    deduplicated exchange send, when an answer may enter the cache, and that the
    fast path answers the next query from it. *)

From stdpp Require Import strings.
From S2P Require Import Prelude Hasher DnsName DnsQuery Utf8 DnsQname DnsRecords DnsEdns Ecs DnsMessage DnsBuilder Persist CacheMap Cache CacheKey CacheCorrect Singleflight VerdictCache IpRange RustStr Domain IpParse Ruleset RouteIndex RouteCorrect Router Resolver.

(** ** The race *)

(** A usable answer: any RCODE but SERVFAIL. *)
Definition is_clean (r : result resolve_error (list Z)) : Prop :=
  exists p rc, r = Ok p /\ rcode p = Ret rc /\ rc <> 2%Z.

Lemma clean_spec r : exists b, clean r = Ret b /\ (b = true <-> is_clean r).
Proof.
  unfold clean, is_clean. destruct r as [p|e].
  - destruct (rcode_total p) as [rc Hrc]. rewrite Hrc. cbn [obind]. eexists. split; [done|].
    rewrite bool_decide_eq_true. split; [by intros; exists p, rc|]. intros (p' & rc' & [= <-] & H & ?). congruence.
  - exists false. split; [done|]. split; [done|]. intros (? & ? & ? & _). done.
Qed.

(** The primary/secondary race.  Whichever server finishes first: a usable
    answer (any RCODE but SERVFAIL) wins over a SERVFAIL or an error of the other
    side, the earlier one when both are usable, and is credited to the server that
    gave it; with none usable a SERVFAIL packet is still preferred to an error, and
    the race fails only when both exchanges failed. *)
Theorem race_correct primary_first rp rs primary secondary :
  exists r, race primary_first rp rs primary secondary = Ret r /\
    (is_clean rp -> is_clean rs ->
       r = if primary_first then tag_index (sv_index primary) rp else tag_index (sv_index secondary) rs) /\
    (is_clean rp -> ~ is_clean rs -> r = tag_index (sv_index primary) rp) /\
    (~ is_clean rp -> is_clean rs -> r = tag_index (sv_index secondary) rs) /\
    (~ is_clean rp -> ~ is_clean rs ->
       match r with
       | Ok (p, i) => (rp = Ok p /\ i = sv_index primary) \/ (rs = Ok p /\ i = sv_index secondary)
       | Err _ => (exists e, rp = Err e) /\ (exists e, rs = Err e)
       end).
Proof.
  unfold race, pick_race_winner.
  destruct (clean_spec rp) as (bp & Hp & Hbp), (clean_spec rs) as (bs & Hs & Hbs).
  assert (Hp' : bp = false -> ~ is_clean rp) by (intros -> H; by apply Hbp in H).
  assert (Hs' : bs = false -> ~ is_clean rs) by (intros -> H; by apply Hbs in H).
  destruct primary_first; rewrite ?Hp, ?Hs; cbn [obind];
    destruct bp, bs; cbn [obind]; eexists; (split; [done|]); split_and!; try tauto;
    intros _ _; destruct rp, rs; cbn [tag_index]; eauto.
Qed.

(** ** Contexts and replies *)

(** A context of an accepted query: one question, ending where the parser said. *)
Record ctx_ok (ctx : QueryContext) : Prop := mkCtxOk {
  co_bytes : bytes_ok (ctx_packet ctx);
  co_qdcount : be16 (ctx_packet ctx) 4 = 1%Z;
  co_question : question_end (ctx_packet ctx) = Ret (Some (info_question_end (ctx_info ctx)));
  co_short : info_question_end (ctx_info ctx) <= 271;
  co_id : info_id (ctx_info ctx) = be16 (ctx_packet ctx) 0
}.

Lemma co_end ctx : ctx_ok ctx -> 12 <= info_question_end (ctx_info ctx) <= length (ctx_packet ctx).
Proof.
  intros [_ _ H _ _]. revert H. unfold question_end. case_decide; [done|]. intros Hq.
  apply obind_opt_Some_inv in Hq as (e & He & Hq). apply skip_name_bounds in He. revert Hq.
  case_decide; [done|]. intros [= <-]. lia.
Qed.

Definition ctx_question (ctx : QueryContext) : list Z :=
  take (info_question_end (ctx_info ctx) - 12) (drop 12 (ctx_packet ctx)).

(** [p] answers the context's client: its ID and its question, letter case included. *)
Definition answers_client (ctx : QueryContext) (p : list Z) : Prop :=
  take 2 p = take 2 (ctx_packet ctx) /\
  take (info_question_end (ctx_info ctx) - 12) (drop 12 p) = ctx_question ctx.

(** The SERVFAIL reply to the context's query. *)
Definition servfail_of (ctx : QueryContext) : list Z :=
  reply_to (ctx_packet ctx) (info_question_end (ctx_info ctx)) 0x82 0.

Lemma servfail_reply_eq query qe :
  12 <= qe <= length query -> servfail_reply query qe = Ret (Ok (reply_to query qe 0x82 0)).
Proof.
  intros Hqe. transitivity (rcode_reply query qe 2); [done|]. by rewrite rcode_reply_eq by lia.
Qed.

Lemma be16_take2 (p q : list Z) : take 2 p = take 2 q -> be16 p 0 = be16 q 0.
Proof.
  intros H. unfold be16. cbn [Nat.add].
  rewrite <- (nthb_take p 2 0), <- (nthb_take p 2 1), <- (nthb_take q 2 0), <- (nthb_take q 2 1) by lia.
  by rewrite H.
Qed.

Lemma to_be_be16 p : bytes_ok p -> 2 <= length p -> to_be 2 (be16 p 0) = take 2 p.
Proof.
  intros Hp Hl. destruct p as [|a [|b p]]; cbn in Hl; [lia..|].
  apply Forall_cons in Hp as [Ha [Hb _]%Forall_cons]. unfold u_ok in Ha, Hb.
  transitivity (to_be (length [a; b]) (from_be [a; b])).
  - done.
  - rewrite to_be_from_be; [done|]. bytes.
Qed.

Section context.
Context (ctx : QueryContext) (Hctx : ctx_ok ctx).

Lemma servfail_or_empty_eq : servfail_or_empty ctx = Ret (servfail_of ctx).
Proof. unfold servfail_or_empty. by rewrite servfail_reply_eq by (by apply co_end). Qed.

Lemma servfail_answers : answers_client ctx (servfail_of ctx).
Proof.
  destruct (reply_to_header (ctx_packet ctx) (info_question_end (ctx_info ctx)) 0x82 0 (co_end ctx Hctx))
    as (_ & _ & _ & _ & _ & _ & Ht & Hd).
  split; [done|]. unfold servfail_of. rewrite Hd. by rewrite take_take, Nat.min_id.
Qed.

Lemma length_ctx_question : length (ctx_question ctx) = info_question_end (ctx_info ctx) - 12.
Proof. pose proof (co_end ctx Hctx). unfold ctx_question. len. Qed.

(** Restoring the client's question in a packet long enough for it. *)
Lemma restore_question p :
  info_question_end (ctx_info ctx) <= length p ->
  copy_at p 12 (ctx_question ctx) = Ret (splice p 12 (ctx_question ctx)) /\
  length (splice p 12 (ctx_question ctx)) = length p /\
  take 2 (splice p 12 (ctx_question ctx)) = take 2 p /\
  take (info_question_end (ctx_info ctx) - 12) (drop 12 (splice p 12 (ctx_question ctx))) = ctx_question ctx /\
  forall j, j < 12 \/ info_question_end (ctx_info ctx) <= j -> splice p 12 (ctx_question ctx) !! j = p !! j.
Proof.
  intros Hl. pose proof (co_end ctx Hctx). pose proof length_ctx_question as Hq.
  assert (12 + length (ctx_question ctx) <= length p) by lia.
  split; [by apply copy_at_Ret|]. split; [by apply length_splice|]. split; [|split].
  - apply take_eq_lookup. intros j Hj. rewrite lookup_splice_out by lia. done.
  - rewrite <- Hq. unfold splice. rewrite drop_app_length' by len. by rewrite take_app_length.
  - intros j Hj. apply lookup_splice_out; lia.
Qed.
End context.

(** C7: what a follower of a shared exchange sends.  For an accepted query and
    any outcome of the wait, the follower returns, counts one singleflight hit, and
    stays silent exactly when the leader's filter dropped the query; otherwise its
    reply carries its own client's ID and question bytes, and is either its own
    SERVFAIL or the leader's packet, which is used only when its question is the
    follower's up to letter case (and then always). *)
Theorem follower_reply_correct ctx w elapsed_us counters :
  ctx_ok ctx ->
  let qe := info_question_end (ctx_info ctx) in
  exists r, follower_reply ctx w elapsed_us counters
      = Ret (Ok r, record_singleflight_hit (record_client_latency elapsed_us counters)) /\
    (r = None <-> w = Published None) /\
    forall p, r = Some p -> answers_client ctx p /\
      (p = servfail_of ctx \/
       exists resp, w = Published (Some resp) /\ length p = length resp /\
         question_end resp = Ret (Some qe) /\
         lower_label (take (qe - 12) (drop 12 resp)) = lower_label (ctx_question ctx) /\
         forall j, 2 <= j < 12 \/ qe <= j -> p !! j = resp !! j) /\
      (forall resp, w = Published (Some resp) -> question_end resp = Ret (Some qe) -> qe <= length resp ->
         lower_label (take (qe - 12) (drop 12 resp)) = lower_label (ctx_question ctx) ->
         forall j, 2 <= j < 12 \/ qe <= j -> p !! j = resp !! j).
Proof.
  intros Hctx qe. pose proof (co_end ctx Hctx) as Hend. fold qe in Hend.
  assert (Hsf : answers_client ctx (servfail_of ctx)) by by apply servfail_answers.
  unfold follower_reply. fold qe. destruct w as [[resp|]|]; cbv zeta.
  - destruct (question_end_total resp) as [lq Hlq]. rewrite Hlq. cbn [obind]. rewrite slice_Ret by lia. cbn [obind].
    fold (ctx_question ctx) qe. change (take (qe - 12) (drop 12 (ctx_packet ctx))) with (ctx_question ctx).
    destruct (decide (lq <> Some qe \/ length resp < qe)) as [Hbad|Hgood].
    { cbn [obind]. rewrite servfail_or_empty_eq by done. cbn [obind]. eexists. split; [done|]. split; [done|].
      intros p <-%(inj Some). split; [done|]. split; [by left|]. intros resp' [= <-] Hq Hl.
      rewrite Hlq in Hq. injection Hq as ->. destruct Hbad; [done|lia]. }
    assert (lq = Some qe /\ qe <= length resp) as [-> Hl].
    { destruct (decide (lq = Some qe)); [|tauto]. split; [done|]. apply dec_stable. intros ?. apply Hgood. right. lia. }
    rewrite slice_Ret by lia. cbn [obind]. unfold eq_ignore_ascii_case.
    case_bool_decide as Hcase; cbn [negb].
    + rewrite set_id_eq by lia. cbn [obind].
      set (q := to_be 2 (info_id (ctx_info ctx)) ++ drop 2 resp).
      assert (Hlen : length q = length resp) by (unfold q; len).
      destruct (restore_question ctx Hctx q) as (-> & Hlp & Ht & Hq & Hout); [fold qe; lia|]. cbn [obind].
      assert (Hbytes : forall j, 2 <= j < 12 \/ qe <= j -> splice q 12 (ctx_question ctx) !! j = resp !! j).
      { intros j Hj. rewrite Hout by (fold qe; lia). unfold q.
        rewrite lookup_app_r by (rewrite length_to_be; lia). rewrite length_to_be, lookup_drop. f_equal. lia. }
      eexists. split; [done|]. split; [done|]. intros p <-%(inj Some). split; [|split].
      * split; [|exact Hq]. rewrite Ht. unfold q. rewrite take_app_le by (rewrite length_to_be; lia).
        rewrite take_ge by (rewrite length_to_be; lia). rewrite (co_id ctx Hctx). apply to_be_be16; [apply Hctx|lia].
      * right. exists resp. split; [done|]. split; [lia|]. split; [done|]. split; [done|]. done.
      * intros resp' [= <-] _ _ _. done.
    + rewrite servfail_or_empty_eq by done. cbn [obind]. eexists. split; [done|]. split; [done|].
      intros p <-%(inj Some). split; [done|]. split; [by left|]. intros resp' [= <-] _ _ Hc. done.
  - exists None. split; [done|]. split; [done|]. intros p [=].
  - rewrite servfail_or_empty_eq by done. cbn [obind]. eexists. split; [done|]. split; [done|].
    intros p <-%(inj Some). split; [done|]. split; [by left|]. done.
Qed.

(** ** The leader *)

(** What an upstream hands over for a query: a packet long enough to hold the
    question, with the client's ID. *)
Record upstream_ok_reply (ctx : QueryContext) (resp : list Z) : Prop := mkUpstreamOk {
  uo_bytes : bytes_ok resp;
  uo_small : (Z.of_nat (length resp) < 65536)%Z;
  uo_len : info_question_end (ctx_info ctx) <= length resp;
  uo_id : take 2 resp = take 2 (ctx_packet ctx)
}.

Section leader_theory.
Context {Regex : Type} `{!RegexEngine Regex}.
Context {CS : Type} `{!CacheMap CS Z Entry, !CacheMapLaws CS Z Entry}.
Variables (ctx : QueryContext) (hot : HotState (Regex := Regex)) (target : RouteTarget).
Hypothesis Hctx : ctx_ok ctx.

Lemma qname_owned_total : returns (qname_owned ctx).
Proof.
  unfold qname_owned. destruct (info_qname (ctx_info ctx)); [apply returns_Ret|].
  apply returns_bind; [apply qname_from_question_total|]. intros. apply returns_Ret.
Qed.

(** The insertion an answer leads to. *)
Lemma store_answer_eq (cache : DnsCache CS) ecs_in_query ck resp wi fi now :
  upstream_ok_reply ctx resp ->
  exists ins,
    store_answer cache ctx hot target ecs_in_query ck resp wi fi now
    = add cache ins (fst (store_policy cache hot target wi fi))
        (to_wire (snd (store_policy cache hot target wi fi))) now /\
    insert_ok ins /\ ins_key ins = ck /\ ins_question_end ins = info_question_end (ctx_info ctx) /\
    qname_owned ctx = Ret (ins_qname ins) /\
    (exists o, strip_opt_rdata resp = Ret o /\ ins_packet ins = default resp o) /\
    (ecs_in_query = false -> ins_query ins = ctx_packet ctx /\ ins_variant ins = info_variant (ctx_info ctx)).
Proof.
  intros Hr. pose proof (co_end ctx Hctx) as Hend. unfold store_answer.
  destruct (store_policy cache hot target wi fi) as [policy attribution]. cbn [fst snd].
  assert (Hquery : exists query variant,
    (if ecs_in_query then
       let! o := strip_edns_ecs (ctx_packet ctx) in
       match o with
       | Some stripped => let! v := extract_variant stripped (info_question_end (ctx_info ctx)) in Ret (stripped, v)
       | None => Ret (ctx_packet ctx, info_variant (ctx_info ctx))
       end
     else Ret (ctx_packet ctx, info_variant (ctx_info ctx))) = Ret (query, variant) /\
    bytes_ok query /\ info_question_end (ctx_info ctx) <= length query /\
    (ecs_in_query = false -> query = ctx_packet ctx /\ variant = info_variant (ctx_info ctx))).
  { destruct ecs_in_query; [|eexists _, _; split; [done|]; split; [apply Hctx|]; by split; [lia|]].
    destruct (strip_edns_ecs_spec (ctx_packet ctx)) as (o & -> & Ho). cbn [obind]. destruct o as [p|].
    - destruct (Ho p eq_refl (co_bytes ctx Hctx)) as [Hp Hq].
      destruct (Hq _ (co_qdcount ctx Hctx) (co_question ctx Hctx)) as [Hlen _].
      destruct (extract_variant_total p (info_question_end (ctx_info ctx))) as [v ->]. cbn [obind].
      by eexists _, _.
    - eexists _, _. split; [done|]. split; [apply Hctx|]. by split; [lia|]. }
  destruct Hquery as (query & variant & -> & Hqb & Hql & Hsame). cbn [obind].
  destruct (strip_opt_rdata_spec resp) as (o & Ho & Hs). rewrite Ho. cbn [obind].
  destruct qname_owned_total as [qname Hn]. rewrite Hn. cbn [obind].
  exists (mkCacheInsert ck qname (info_question_end (ctx_info ctx)) query variant (default resp o)).
  cbn [ins_key ins_question_end ins_qname ins_packet ins_query ins_variant].
  split; [done|]. split; [|by eauto 10].
  assert (bytes_ok (default resp o) /\ length (default resp o) <= length resp) as [Hb Hl].
  { destruct o as [p|]; cbn [default]; [|split; [apply Hr|done]].
    destruct (Hs p eq_refl) as [H1 H2]. split; [apply H2, Hr|done]. }
  pose proof (uo_small ctx resp Hr). unfold insert_ok. cbn [ins_question_end ins_packet ins_query].
  split_and!; [done|done|lia..].
Qed.

(** C6: what the leader of an exchange leaves behind.  For an accepted query it
    returns a reply (silent exactly when the rule's filter drops the query): the
    upstream packet with the client's own question bytes, or SERVFAIL after a failed
    exchange, in each case with the client's ID; the same message is handed to every
    follower of the key, the key is free again and no other key is touched.  The
    cache changes only by inserting this answer under the query's key, and only when
    the rule allows caching and no reload happened since the query was routed. *)
Theorem leader_finish_correct (cache : DnsCache CS) table ecs_in_query ck sf_ck result generation now elapsed_us
    counters :
  table_ok table ->
  (forall resp wi fi, result = Ok (StepResponse resp wi fi) -> upstream_ok_reply ctx resp) ->
  exists e reply, leader_finish cache table ctx hot target ecs_in_query ck sf_ck result generation now elapsed_us
      counters = Ret e /\ le_reply e = Ok reply /\
    (reply = None <-> result = Ok StepDrop) /\
    (forall p, reply = Some p -> answers_client ctx p /\
       match result with
       | Ok (StepResponse resp _ _) => length p = length resp /\
           forall j, j < 12 \/ info_question_end (ctx_info ctx) <= j -> p !! j = resp !! j
       | _ => p = servfail_of ctx
       end) /\
    le_sends e = (fun rx => (rx, Send reply)) <$> default [] (tlookup table sf_ck) /\
    tlookup (le_table e) sf_ck = None /\ (forall k, k <> sf_ck -> tlookup (le_table e) k = tlookup table k) /\
    (le_cache e = cache \/
     generation = hs_generation hot /\ skip_cache target = false /\ is_enabled cache = true /\
     exists resp wi fi ins, result = Ok (StepResponse resp wi fi) /\ insert_ok ins /\ ins_key ins = ck /\
       ins_question_end ins = info_question_end (ctx_info ctx) /\
       add cache ins (fst (store_policy cache hot target wi fi))
         (to_wire (snd (store_policy cache hot target wi fi))) now = Ret (le_cache e)).
Proof.
  intros Ht Hres. pose proof (co_end ctx Hctx) as Hend.
  assert (Hpub : forall fate, exists t, publish table sf_ck fate
      = Ret (t, (fun rx => (rx, fate)) <$> default [] (tlookup table sf_ck)) /\
    tlookup t sf_ck = None /\ forall k, k <> sf_ck -> tlookup t k = tlookup table k).
  { intros fate. destruct (publish_eq table sf_ck fate Ht) as (t & Hp & _ & Hl). exists t. split; [done|].
    split; [by rewrite Hl, decide_True|]. intros k Hk. by rewrite Hl, decide_False. }
  unfold leader_finish. destruct result as [[resp wi fi|]|err].
  - specialize (Hres resp wi fi eq_refl). pose proof (uo_len ctx resp Hres) as Hlen.
    assert (Hstore : exists c, (if negb (skip_cache target) && is_enabled cache &&
          bool_decide (generation = hs_generation hot)
        then store_answer cache ctx hot target ecs_in_query ck resp wi fi now else Ret cache) = Ret c /\
      (c = cache \/ generation = hs_generation hot /\ skip_cache target = false /\ is_enabled cache = true /\
        exists ins, insert_ok ins /\ ins_key ins = ck /\
        ins_question_end ins = info_question_end (ctx_info ctx) /\
        add cache ins (fst (store_policy cache hot target wi fi))
          (to_wire (snd (store_policy cache hot target wi fi))) now = Ret c)).
    { destruct (negb (skip_cache target) && is_enabled cache && bool_decide (generation = hs_generation hot)) eqn:Hg;
        [|by exists cache; split; [|left]].
      apply andb_true_iff in Hg as [Hg Hgen%bool_decide_eq_true]. apply andb_true_iff in Hg as [Hskip%negb_true_iff Hen].
      destruct (store_answer_eq cache ecs_in_query ck resp wi fi now Hres) as (ins & -> & Hi & Hk & Hq & _).
      destruct (add_eq cache ins (fst (store_policy cache hot target wi fi))
        (to_wire (snd (store_policy cache hot target wi fi))) now (proj1 Hi)) as (r & _ & Ha).
      rewrite Ha. eexists. split; [done|]. right. do 3 (split; [done|]). by exists ins. }
    destruct Hstore as (c & -> & Hc). cbn [obind]. rewrite slice_Ret by lia. cbn [obind].
    fold (ctx_question ctx). destruct (restore_question ctx Hctx resp Hlen) as (-> & Hlp & H2 & Hq & Hout). cbn [obind].
    destruct (Hpub (Send (Some (splice resp 12 (ctx_question ctx))))) as (t & Hp & Hfree & Hother).
    unfold publish_bytes. rewrite Hp. cbn [obind]. eexists _, _. split; [done|]. split; [done|].
    cbn [le_sends le_table le_cache]. split; [done|]. split.
    { intros p <-%(inj Some). split; [split; [|done]|done]. rewrite H2. apply Hres. }
    do 3 (split; [done|]). destruct Hc as [?|(? & ? & ? & ins & ?)]; [by left|right].
    do 3 (split; [done|]). by exists resp, wi, fi, ins.
  - destruct (Hpub (Send None)) as (t & Hp & Hfree & Hother). unfold publish_drop. rewrite Hp. cbn [obind].
    eexists _, _. split; [done|]. split; [done|]. cbn [le_sends le_table le_cache]. split; [done|].
    split; [done|]. do 3 (split; [done|]). by left.
  - rewrite servfail_reply_eq by done. cbn [obind]. fold (servfail_of ctx).
    destruct (Hpub (Send (Some (servfail_of ctx)))) as (t & Hp & Hfree & Hother).
    unfold publish_bytes. rewrite Hp. cbn [obind]. eexists _, _. split; [done|]. split; [done|].
    cbn [le_sends le_table le_cache]. split; [done|]. split.
    { intros p <-%(inj Some). split; [by apply servfail_answers|done]. }
    do 3 (split; [done|]). by left.
Qed.
End leader_theory.

(** ** The fast path *)

Section fast_theory.
Context {CS : Type} `{!CacheMap CS Z Entry, !CacheMapLaws CS Z Entry}.

(** A lookup returns, and a hit carries the client's ID. *)
Lemma lookup_id (c : DnsCache CS) l out now :
  cache_ok c ->
  exists r out' c', lookup_into_keyed c l out now = Ret (r, out', c') /\ cache_ok c' /\
    match r with None => out' = out | Some _ => take 2 out' = to_be 2 (kl_client_id l) end.
Proof.
  intros Hok. destruct (lookup_into_keyed_eq c l out now Hok) as (c' & Hok' & _ & ->).
  destruct (stored_entry c (kl_key l)) as [e|] eqn:Ee; [|by exists None, out, c'].
  case_decide as Ha; [|by exists None, out, c']. do 3 eexists. split; [done|]. split; [done|].
  assert (He : CacheCorrect.entry_ok (kl_key l) e).
  { unfold cache_ok, stored_entry in *. destruct (dc_cache c); [|done]. by apply Hok. }
  destruct Ha as (Hqe & Heq & _). apply (served_id e (kl_key l) He). rewrite Heq. unfold live_question. len.
Qed.

(** The context a miss hands to the slow path is well-formed. *)
Lemma slow_context_ok p fi probe :
  bytes_ok p -> parse_query_fast p = Ret (Ok fi) -> ctx_ok (slow_context p fi probe).
Proof.
  intros Hp Hf. apply parse_query_fast_sound in Hf as ((_ & _ & Hqd) & ls & tail & Hq & ->); [|done].
  constructor; cbn; [done|done|by apply (question_end_of p ls tail)| |done].
  destruct Hq as (_ & _ & _ & _ & _ & _ & Hlim). lia.
Qed.

Lemma fast_path_spec packet proto (cache : DnsCache CS) counters collecting now1 now2 :
  bytes_ok packet -> cache_ok cache ->
  exists o cache' counters',
    try_fast_path_into packet proto cache counters collecting now1 now2 = Ret (o, cache', counters') /\
    cache_ok cache' /\
    match o with
    | FpDrop => (forall fi, parse_query_fast packet <> Ret (Ok fi)) /\ cache' = cache /\ counters' = counters
    | FpResponse resp => take 2 resp = take 2 packet /\ 2 <= length packet
    | FpMiss fi probe =>
        parse_query_fast packet = Ret (Ok fi) /\ ctx_ok (slow_context packet fi probe) /\
        extract_variant packet (fast_question_end fi) = Ret (probe_variant probe) /\
        cache_key_with_variant_from_qname_hash packet (fast_question_end fi) (fast_qname_wire_hash fi)
          (fast_qname_wire_hash_end fi) (probe_variant probe) false = Ret (probe_regular_key probe) /\
        (ecs_src (probe_variant probe) = None \/ exists sk, probe_stripped_key probe = Some sk /\
           cache_key_with_variant_from_qname_hash packet (fast_question_end fi) (fast_qname_wire_hash fi)
             (fast_qname_wire_hash_end fi) (probe_variant probe) true = Ret sk)
    end.
Proof.
  intros Hp Hc. unfold try_fast_path_into.
  assert (exists b, (if decide (12 <= length packet) then
      let! b := idx packet 2 in
      Ret (bool_decide (Z.land b 0x80 = 0 /\ Z.land (Z.shiftr b 3) 0x0f <> 0)%Z) else Ret false) = Ret b /\
    (b = true -> 12 <= length packet)) as (b & -> & Hb).
  { case_decide; [in_range; by eexists|by exists false]. }
  cbn [obind]. destruct b.
  { specialize (Hb eq_refl). unfold notimp_opcode_reply. rewrite decide_False by lia. in_range.
    destruct (header_split packet) as (a&b&?&?&?&?&?&?&?&?&?&?&r&->); [done|].
    do 3 eexists. split; [reflexivity|]. split; [done|]. cbn. split; [done|lia]. }
  destruct (parse_query_fast_total packet) as [[fi|e] Hf]; rewrite Hf; cbn [obind].
  2: { do 3 eexists. split; [done|]. split; [done|]. split; [|done]. intros fi Hfi. congruence. }
  pose proof (parse_query_fast_sound _ _ Hp Hf) as (_ & ls & tail & Hq & Hfi).
  destruct (question_slice _ _ _ Hq) as [Hs Hl].
  assert (Hqe : fast_question_end fi = 12 + length (encode_name ls) + 4) by by rewrite Hfi.
  rewrite u16_at_be16 by lia. cbn [obind]. case_decide.
  { replace (notimp_reply packet (fast_question_end fi)) with (rcode_reply packet (fast_question_end fi) 4) by done.
    rewrite rcode_reply_eq by lia. cbn [obind]. do 3 eexists. split; [done|]. split; [done|]. split; [|lia].
    apply reply_to_header. lia. }
  unfold get_into_with_ecs_fallback.
  destruct (extract_variant_total packet (fast_question_end fi)) as [v Hv]. rewrite Hv. cbn [obind].
  assert (Hkey : forall strip, exists k, cache_key_with_variant_from_qname_hash packet (fast_question_end fi)
    (fast_qname_wire_hash fi) (fast_qname_wire_hash_end fi) v strip = Ret k).
  { intros strip. eexists. rewrite Hfi. by apply (fused_key_eq packet ls tail v strip). }
  assert (Hid : to_be 2 (fast_id fi) = take 2 packet) by (rewrite Hfi; apply to_be_be16; [done|lia]).
  destruct (Hkey false) as [k Hk]. rewrite Hk. cbn [obind].
  destruct (lookup_id cache (mkKeyedLookup k packet (fast_question_end fi) (fast_id fi) false v collecting) [] now1 Hc)
    as (r & out & c' & -> & Hc' & Hr). cbn [obind]. destruct r as [hit|].
  { cbn [obind]. do 3 eexists. split; [done|]. split; [done|]. split; [|lia]. by rewrite Hr. }
  pose proof (slow_context_ok packet fi (mkCacheProbe v k None) Hp Hf) as Hctx.
  destruct (ecs_src v) as [ecs|] eqn:Hecs; cbn [obind].
  2: { do 3 eexists. split; [done|]. split; [done|]. cbn. split_and!; try done. by left. }
  destruct (Hkey true) as [sk Hsk]. rewrite Hsk. cbn [obind]. subst out.
  destruct (lookup_id c' (mkKeyedLookup sk packet (fast_question_end fi) (fast_id fi) true v collecting) [] now2 Hc')
    as (r & out & c'' & -> & Hc'' & Hr'). cbn [obind]. destruct r as [hit|]; cbn [obind].
  { do 3 eexists. split; [done|]. split; [done|]. split; [|lia]. by rewrite Hr'. }
  do 3 eexists. split; [done|]. split; [done|]. cbn [probe_variant probe_regular_key probe_stripped_key].
  split; [done|]. split; [by apply slow_context_ok|]. do 2 (split; [done|]). right. by exists sk.
Qed.

End fast_theory.

(** ** From the leader to the next client *)

Section end_to_end.
Context {Regex : Type} `{!RegexEngine Regex}.
Context {CS : Type} `{!CacheMap CS Z Entry, !CacheMapLaws CS Z Entry}.

Lemma stored_after_insert (c : DnsCache CS) s k e e' :
  stored_entry (with_cache c (cm_insert s k e)) k = Some e' -> e' = e.
Proof.
  cbn [stored_entry dc_cache with_cache]. intros H.
  pose proof (cm_insert_view s k e) as Hsub. apply (lookup_weaken _ _ _ _ H) in Hsub.
  rewrite lookup_insert_eq in Hsub. by injection Hsub.
Qed.

(** The fast path on a query whose regular key holds a fresh matching entry. *)
Lemma fast_path_hit packet proto (cache cache' : DnsCache CS) counters collecting now1 now2 fi meta probe out :
  parse_query_fast packet = Ret (Ok fi) -> query_header packet -> 14 <= fast_question_end fi <= length packet ->
  be16 packet (fast_question_end fi - 2) = 1%Z \/ be16 packet (fast_question_end fi - 2) = 255%Z ->
  get_into_with_ecs_fallback cache packet fi [] collecting now1 now2 = Ret (Some meta, probe, out, cache') ->
  try_fast_path_into packet proto cache counters collecting now1 now2
  = Ret (FpResponse out, cache', fetch_add cache_hits 1 (record_query_received counters proto)).
Proof.
  intros Hf (_ & Hop & _) Hqe Hclass Hget. unfold try_fast_path_into. rewrite decide_True by lia.
  rewrite idx_nthb by lia. cbn [obind]. rewrite bool_decide_false by tauto. rewrite Hf. cbn [obind].
  rewrite u16_at_be16 by lia. cbn [obind]. rewrite decide_False by lia. by rewrite Hget.
Qed.

(** C3: an upstream answer serves the next client.  When a leader finishes with an
    upstream packet for a query whose target caches and strips no subnet, in the
    generation it was routed in, and the packet is cacheable and not evicted, then
    until its TTL runs out every query for the same name (in any letter case), type,
    class and variant is answered by the fast path, from the packet without its OPT
    data, with the new client's ID and question bytes and TTLs reduced by the age. *)
Theorem leader_answer_served (c : DnsCache CS) (hot : HotState (Regex := Regex)) target table p1 p2 fi1 fi2 ls1 ls2
    tail v probe ck sf_ck resp wi fi o e now elapsed_us counters ttl offs proto collecting t1 t2 :
  cache_ok c -> is_enabled c = true -> skip_cache target = false -> table_ok table ->
  bytes_ok p1 -> parse_query_fast p1 = Ret (Ok fi1) -> question_of p1 ls1 tail ->
  bytes_ok p2 -> parse_query_fast p2 = Ret (Ok fi2) -> question_of p2 ls2 tail ->
  lower_name ls1 = lower_name ls2 -> be16 tail 2 = 1%Z \/ be16 tail 2 = 255%Z ->
  extract_variant p1 (fast_question_end fi1) = Ret v -> extract_variant p2 (fast_question_end fi2) = Ret v ->
  probe_variant probe = v ->
  cache_key_with_variant_from_qname_hash p1 (fast_question_end fi1) (fast_qname_wire_hash fi1)
    (fast_qname_wire_hash_end fi1) v false = Ret (probe_regular_key probe) ->
  let ctx := slow_context p1 fi1 probe in
  dedupe_keys ctx hot target = Ret (false, ck, sf_ck) ->
  upstream_ok_reply ctx resp -> policy_ok (fst (store_policy c hot target wi fi)) ->
  leader_finish c table ctx hot target false ck sf_ck (Ok (StepResponse resp wi fi)) (hs_generation hot) now
    elapsed_us counters = Ret e ->
  strip_opt_rdata resp = Ret o -> is_truncated (default resp o) = Ret false ->
  (let policy := fst (store_policy c hot target wi fi) in
   effective_ttl_and_offsets (default resp o) (fast_question_end fi1) (pol_nodata_ttl policy)
     (pol_min_ttl policy) (pol_max_ttl policy) = Ret (Some (ttl, offs))) ->
  is_Some (stored_entry (le_cache e) ck) -> (secs_since t1 now < ttl)%Z ->
  exists entry c2,
    e_packet entry = to_be 2 0 ++ drop 2 (default resp o) /\ e_ttl_offsets entry = offs /\
    try_fast_path_into p2 proto (le_cache e) counters collecting t1 t2
    = Ret (FpResponse (served entry (be16 p2 0) (take (fast_question_end fi2 - 12) (drop 12 p2))
             (Z.min (secs_since t1 now) U32_MAX)), c2,
           fetch_add cache_hits 1 (record_query_received counters proto)).
Proof.
  intros Hc Hen Hskip Ht Hp1 Hf1 Hq1 Hp2 Hf2 Hq2 Hlow Hclass Hv1 Hv2 Hpv Hkey ctx Hd Hup Hpol Hlead Ho Htr Httl
    [e' Hst] Hfresh.
  assert (Hctx : ctx_ok ctx) by by apply slow_context_ok.
  assert (ck = probe_regular_key probe) as ->.
  { unfold dedupe_keys in Hd. cbn [ctx slow_context ctx_info info_precomputed_cache_keys info_variant
      parse_query_from_fast] in Hd. rewrite Hpv in Hd.
    destruct (target_strip_ecs target && _); cbn [obind] in Hd; congruence. }
  revert Hlead. unfold leader_finish. rewrite Hskip, Hen, bool_decide_true by done. cbn [negb andb].
  destruct (store_answer_eq ctx hot target Hctx c false (probe_regular_key probe) resp wi fi now Hup)
    as (ins & -> & Hins & Hik & Hiqe & _ & (o' & Ho' & Hpk) & Hsame).
  rewrite Ho in Ho'. injection Ho' as <-. destruct (Hsame eq_refl) as [Hiq Hiv].
  destruct (add_eq c ins (fst (store_policy c hot target wi fi)) (to_wire (snd (store_policy c hot target wi fi)))
    now (proj1 Hins)) as (r & Hr & Hadd). rewrite Hadd. cbn [obind]. rewrite Hpk, Hiqe in Hr.
  cbn [ctx slow_context ctx_info info_question_end parse_query_from_fast] in Hr, Hiqe, Hiv.
  cbv zeta in Httl. rewrite Httl in Hr. injection Hr as <-.
  rewrite Hpk, Htr in Hadd |- *. intros Hlead. inv_ret.
  unfold is_enabled in Hen. destruct (dc_cache c) as [s|] eqn:Es; [|done].
  destruct a1 as [t' sends]. injection Hlead as <-. cbn [le_cache] in Hst |- *.
  set (entry := new_entry ins ttl offs (to_wire (snd (store_policy c hot target wi fi))) now) in *.
  rewrite Hik in Hst, Hadd |- *. pose proof (stored_after_insert _ _ _ _ _ Hst) as ->.
  destruct (cached_answer_found c (with_cache c (cm_insert s (probe_regular_key probe) entry)) p1 p2 fi1 fi2 ls1 ls2
    tail v ins (fst (store_policy c hot target wi fi)) (to_wire (snd (store_policy c hot target wi fi)))
    [] collecting now t1 t2 ttl offs
    Hc Hins Hpol Hp1 Hf1 Hq1 Hp2 Hf2 Hq2 Hlow Hv1 Hv2) as [c2 Hget]; try done.
  { by rewrite Hik. }
  { by rewrite Hiv. }
  { rewrite Hik. exact Hst. }
  exists entry, c2. split; [by cbn; rewrite Hpk|]. split; [done|].
  pose proof (fast_info_of _ _ _ _ Hp2 Hf2 Hq2) as E2. pose proof (parse_query_fast_sound _ _ Hp2 Hf2) as [Hh _].
  destruct (question_slice _ _ _ Hq2) as [_ Hl2].
  assert (Hqe2 : fast_question_end fi2 = 12 + length (encode_name ls2) + 4) by by rewrite E2.
  assert (Hid2 : fast_id fi2 = be16 p2 0) by by rewrite E2. rewrite <- Hid2.
  eapply fast_path_hit; [done|done|lia| |exact Hget].
  destruct Hq2 as (hdr & rest & Heq & Hh2 & Htl & _).
  assert (be16 p2 (fast_question_end fi2 - 2) = be16 tail 2) as ->; [|done].
  rewrite Hqe2, Heq, app_assoc. unfold be16.
  assert (length (hdr ++ encode_name ls2) = 12 + length (encode_name ls2)) as Hlh by len.
  rewrite !(nthb_app_r (hdr ++ _)) by lia. rewrite !nthb_app_l by lia.
  replace (12 + length (encode_name ls2) + 4 - 2 - length (hdr ++ encode_name ls2)) with 2 by lia.
  by replace (12 + length (encode_name ls2) + 4 - 2 + 1 - length (hdr ++ encode_name ls2)) with (2 + 1) by lia.
Qed.
End end_to_end.

(** ** Choosing the target *)

Section target_theory.
Context {Regex : Type} `{!RegexEngine Regex, !RegexLaws Regex}.
Context {RS : Type} `{!CacheMap RS (list Z) Z, !CacheMapLaws RS (list Z) Z}.
Variables (hot : HotState (Regex := Regex)) (db : RuleSetDb Regex).

(** A routing snapshot as [build_hot_state] makes it. *)
Record hot_ok : Prop := mkHotOk {
  ho_index : hs_index hot = build_index r_matcher (hs_rules hot);
  ho_tags : num_tags (hs_index hot) <= Z.to_nat 65536;
  ho_rules : (Z.of_nat (length (hs_rules hot)) < USIZE_MAX)%Z;
  ho_db : hs_ruleset hot = None \/ hs_ruleset hot = Some db;
  ho_fallback :
    match hs_fallback hot with
    | FbRule i => i < length (hs_rules hot)
    | FbServer i => i < length (hs_servers hot)
    | FbRace p s | FbCidrTest p s => p < length (hs_servers hot) /\ s < length (hs_servers hot)
    end
}.

Lemma classify_target_total qtype :
  hot_ok -> returns (classify_target (hs_fallback hot) (hs_rules hot) (hs_servers hot) qtype).
Proof.
  intros [_ _ _ _ Hf]. unfold classify_target.
  assert (Hidx : forall {A} (l : list A) i, i < length l -> exists x, idx l i = Ret x).
  { intros A l i Hi. destruct (lookup_lt_is_Some_2 l i Hi) as [x Hx]. exists x. by apply idx_lookup. }
  destruct (hs_fallback hot) as [i|i|p s|p s]; [| |destruct Hf as [Hp Hs]..].
  1,2: destruct (Hidx _ _ i Hf) as [x ->]; cbn [obind]; apply returns_Ret.
  all: destruct (Hidx _ _ p Hp) as [x ->], (Hidx _ _ s Hs) as [y ->]; cbn [obind]; try case_decide; apply returns_Ret.
Qed.

Lemma query_ruleset_db : hot_ok -> query_ruleset hot = None \/ query_ruleset hot = Some db.
Proof. intros [_ _ _ H _]. unfold query_ruleset. destruct (hs_needs_ruleset hot); tauto. Qed.

Lemma qname_owned_valid ctx :
  bytes_ok (ctx_packet ctx) -> (forall q, info_qname (ctx_info ctx) = Some q -> utf8_valid q = true) ->
  exists q, qname_owned ctx = Ret q /\ utf8_valid q = true.
Proof.
  intros Hp Hq. unfold qname_owned. destruct (info_qname (ctx_info ctx)) as [q|]; [by exists q; split; [|apply Hq]|].
  destruct (qname_from_question_total (ctx_packet ctx) (info_question_end (ctx_info ctx))) as [[q|e] Hr]; rewrite Hr;
    cbn [obind]; [|by exists []]. exists q. split; [done|]. by eapply qname_from_question_valid.
Qed.

Lemma ensure_qname_eq ctx q :
  qname_owned ctx = Ret q ->
  exists ctx', ensure_qname ctx = Ret ctx' /\ qname_owned ctx' = Ret q /\ ctx_packet ctx' = ctx_packet ctx /\
    info_question_end (ctx_info ctx') = info_question_end (ctx_info ctx) /\
    info_variant (ctx_info ctx') = info_variant (ctx_info ctx) /\
    info_precomputed_cache_keys (ctx_info ctx') = info_precomputed_cache_keys (ctx_info ctx).
Proof. intros Hq. unfold ensure_qname. rewrite Hq. cbn [obind]. by eexists. Qed.

(** The target of a query for [q]: the first matching rule [r], or the classified
    [route.final]. *)
Definition selected (qtype : Z) (q : list Z) (r : option nat) (t : RouteTarget) : Prop :=
  first_match r_matcher (hs_rules hot) (query_ruleset hot) q r /\
  match r with
  | Some i => exists rule, hs_rules hot !! i = Some rule /\ t = rule_target rule
  | None => classify_target (hs_fallback hot) (hs_rules hot) (hs_servers hot) qtype = Ret t
  end.

Lemma select_target_spec ctx (rcache : RS) cache_enabled collecting :
  hot_ok -> bytes_ok (ctx_packet ctx) ->
  (forall q, info_qname (ctx_info ctx) = Some q -> utf8_valid q = true) ->
  cm_all (decision_ok r_matcher (hs_rules hot) db) rcache ->
  exists ctx' t rcache' q r,
    select_target ctx hot rcache cache_enabled collecting = Ret (ctx', t, rcache') /\
    cm_all (decision_ok r_matcher (hs_rules hot) db) rcache' /\
    qname_owned ctx = Ret q /\ qname_owned ctx' = Ret q /\ ctx_packet ctx' = ctx_packet ctx /\
    selected (info_qtype (ctx_info ctx)) q r t.
Proof.
  intros Hhot Hp Hname Hrc. pose proof Hhot as [Hi Htags Hrules _ _]. rewrite Hi in Htags.
  destruct (qname_owned_valid ctx Hp Hname) as (q & Hq & Hv).
  destruct (classify_target_total (info_qtype (ctx_info ctx)) Hhot) as [ft Hft].
  pose proof (query_ruleset_db Hhot) as Hdb.
  assert (Hpick : forall r, first_match r_matcher (hs_rules hot) (query_ruleset hot) q r -> exists t,
    match match r with Some i => hs_rules hot !! i | None => None end with
    | Some rule => Ret (rule_target rule)
    | None => classify_target (hs_fallback hot) (hs_rules hot) (hs_servers hot) (info_qtype (ctx_info ctx))
    end = Ret t /\
    match r with
    | Some i => exists rule, hs_rules hot !! i = Some rule /\ t = rule_target rule
    | None => classify_target (hs_fallback hot) (hs_rules hot) (hs_servers hot) (info_qtype (ctx_info ctx)) = Ret t
    end).
  { intros [i|] Hr; [|by exists ft]. destruct Hr as [(rule & Hl & _) _]. rewrite Hl. eexists. split; [done|]. by exists rule. }
  destruct (ensure_qname_eq ctx q Hq) as (ctx' & He & Hq' & Hpk & _).
  unfold select_target, constant_target. destruct (constant_route (hs_index hot)) as [c|] eqn:Hc.
  - rewrite Hi in Hc. pose proof (constant_spec r_matcher (hs_rules hot) Htags Hrules q (query_ruleset hot) c Hv Hc) as Hf.
    destruct (Hpick c Hf) as (t & Ht & Hr).
    assert (exists cx, (if cache_enabled || collecting then ensure_qname ctx else Ret ctx) = Ret cx /\
      qname_owned cx = Ret q /\ ctx_packet cx = ctx_packet ctx) as (cx & -> & Hcq & Hcp)
      by (destruct (cache_enabled || collecting); [by exists ctx'|by exists ctx]).
    cbn [obind]. exists cx, t, rcache, q, c.
    split; [|done]. destruct c as [i|]; [destruct (hs_rules hot !! i)|]; by rewrite Ht.
  - rewrite He. cbn [obind]. rewrite Hq'. cbn [obind]. rewrite Hi.
    destruct (route_step r_matcher (hs_rules hot) Htags Hrules db rcache q (query_ruleset hot) Hrc Hv Hdb)
      as (r & rc' & -> & Hf & Hrc'). cbn [obind].
    destruct (Hpick r Hf) as (t & Ht & Hr). exists ctx', t, rc', q, r. split; [|done]. by rewrite Ht.
Qed.
(** C8: which target a query gets.  For any query and any state of the route cache
    reached by routing with this snapshot, target selection returns; it picks the
    first rule (in configuration order) matching the query's name, with the rule-set
    database consulted only when some rule needs it, and the classified
    [route.final] when no rule matches, whether routing is constant (and the name is
    never built), decided from the cache or decided by the scan. *)
Theorem select_target_correct ctx (rcache : RS) cache_enabled collecting :
  hot_ok -> bytes_ok (ctx_packet ctx) ->
  (forall q, info_qname (ctx_info ctx) = Some q -> utf8_valid q = true) ->
  cm_all (decision_ok r_matcher (hs_rules hot) db) rcache ->
  exists ctx' t rcache' q r,
    select_target ctx hot rcache cache_enabled collecting = Ret (ctx', t, rcache') /\
    cm_all (decision_ok r_matcher (hs_rules hot) db) rcache' /\
    qname_owned ctx = Ret q /\ qname_owned ctx' = Ret q /\ ctx_packet ctx' = ctx_packet ctx /\
    selected (info_qtype (ctx_info ctx)) q r t.
Proof. apply select_target_spec. Qed.
End target_theory.

(** ** Exchanges *)

(** A fixed-answer set as the configuration parser builds it. *)
Definition fixed_ok (set : FixedAnswerSet) : Prop :=
  Forall (fun fa => match fa with
                    | FixedA a _ => length a = 4 /\ bytes_ok a
                    | FixedAaaa a _ => length a = 16 /\ bytes_ok a
                    end) (fs_answers set) /\
  (0 <= default 0 (fs_rcode set) < 16)%Z.

Definition kind_ok (k : ServerKind) : Prop :=
  match k with Upstream _ => True | Fixed set => fixed_ok set end.

Lemma last_a_ok answers a t :
  Forall (fun fa => match fa with
                    | FixedA a _ => length a = 4 /\ bytes_ok a
                    | FixedAaaa a _ => length a = 16 /\ bytes_ok a
                    end) answers ->
  (last_a answers = Some (a, t) -> length a = 4 /\ bytes_ok a) /\
  (last_aaaa answers = Some (a, t) -> length a = 16 /\ bytes_ok a).
Proof.
  intros Ha. unfold last_a, last_aaaa.
  assert (Hgen : forall i1 i2 : option (list Z * Z),
    (i1 = Some (a, t) -> length a = 4 /\ bytes_ok a) -> (i2 = Some (a, t) -> length a = 16 /\ bytes_ok a) ->
    (foldl (fun acc fa => match fa with FixedA addr ttl => Some (addr, ttl) | _ => acc end) i1 answers = Some (a, t) ->
       length a = 4 /\ bytes_ok a) /\
    (foldl (fun acc fa => match fa with FixedAaaa addr ttl => Some (addr, ttl) | _ => acc end) i2 answers = Some (a, t) ->
       length a = 16 /\ bytes_ok a)); [|by apply Hgen].
  induction Ha as [|[x tx|x tx] answers Hx Ha IH]; intros i1 i2 H1 H2; cbn [foldl]; [done| |];
    apply IH; try done; intros [= <- <-]; done.
Qed.

Section exchange_theory.
Context (ctx : QueryContext) (Hctx : ctx_ok ctx).

Lemma reply_to_ok b3 an rr :
  is_byte b3 -> is_byte an -> bytes_ok rr -> length rr <= 64 ->
  upstream_ok_reply ctx (reply_to (ctx_packet ctx) (info_question_end (ctx_info ctx)) b3 an ++ rr).
Proof.
  intros H3 Han Hrr Hlen. pose proof (co_end ctx Hctx) as Hend. pose proof (co_short ctx Hctx) as Hsh.
  pose proof (length_reply_to (ctx_packet ctx) _ Hend b3 an) as Hl. constructor.
  - apply Forall_app; split; [|done]. apply reply_to_bytes; [apply Hctx|done..].
  - rewrite length_app, Hl. lia.
  - rewrite length_app, Hl. lia.
  - rewrite take_app_le by lia. by apply reply_to_header.
Qed.

Lemma synth_fixed_ok qtype set :
  fixed_ok set ->
  exists p, synth_fixed_answer (ctx_packet ctx) (info_question_end (ctx_info ctx)) qtype set = Ret (Ok p) /\
    upstream_ok_reply ctx p.
Proof.
  intros [Ha Hrc]. pose proof (co_end ctx Hctx) as Hend. unfold synth_fixed_answer.
  set (qe := info_question_end (ctx_info ctx)) in *.
  assert (Hempty : exists p, empty_reply (ctx_packet ctx) qe = Ret (Ok p) /\ upstream_ok_reply ctx p).
  { rewrite empty_reply_eq by done. eexists. split; [done|]. rewrite <- (app_nil_r (reply_to _ _ _ _)).
    apply reply_to_ok; [unfold u_ok; lia..|apply Forall_nil; exact I|cbn; lia]. }
  assert (Hstatic : forall addr ttl, length (addr_octets addr) = addr_len addr -> bytes_ok (addr_octets addr) ->
    exists p, static_reply (ctx_packet ctx) qe addr ttl = Ret (Ok p) /\ upstream_ok_reply ctx p).
  { intros addr ttl Hl Hb. rewrite static_reply_eq by done. eexists. split; [done|].
    apply reply_to_ok; [unfold u_ok; lia..|bytes; done|].
    assert (addr_len addr <= 16) by (destruct addr; cbn; lia). len. }
  destruct (fs_answers set) as [|fa fas] eqn:Hfs.
  { case_decide; [done|]. rewrite rcode_reply_eq by done. eexists. split; [done|].
    rewrite <- (app_nil_r (reply_to _ _ _ _)). apply reply_to_ok; [|unfold u_ok; lia|apply Forall_nil; exact I|cbn; lia].
    assert (is_byte (default 0%Z (fs_rcode set))) as Hby by (unfold u_ok; lia).
    apply (byte_forall (fun r => bool_decide (0 <= Z.lor 0x80 r < 256)%Z)) in Hby; [|by vm_compute].
    apply bool_decide_eq_true in Hby. unfold u_ok. lia. }
  rewrite <- Hfs in *. destruct (last_a (fs_answers set)) as [[a4 t4]|] eqn:H4, (last_aaaa (fs_answers set)) as [[a6 t6]|] eqn:H6;
    destruct (decide (qtype = 1)%Z), (decide (qtype = 28)%Z); try done; try lia.
  all: try (destruct (last_a_ok (fs_answers set) a4 t4 Ha) as [Hl4 _]; specialize (Hl4 H4) as [? ?];
    by apply (Hstatic (V4 a4))).
  all: destruct (last_a_ok (fs_answers set) a6 t6 Ha) as [_ Hl6]; specialize (Hl6 H6) as [? ?];
    by apply (Hstatic (V6 a6)).
Qed.

Variable exch : exchanges.

(** What the pools' connections guarantee (see [Inflight]). *)
Definition exch_ok (exch : exchanges) : Prop :=
  forall pool resp, exch pool (ctx_packet ctx) (info_id (ctx_info ctx)) = Ok resp -> upstream_ok_reply ctx resp.

Definition result_ok (r : result resolve_error (list Z)) : Prop := forall p, r = Ok p -> upstream_ok_reply ctx p.

Lemma exchange_kind_ok kind :
  exch_ok exch -> kind_ok kind -> exists r, exchange_kind exch ctx kind = Ret r /\ result_ok r.
Proof.
  intros He Hk. destruct kind as [pool|set]; cbn [exchange_kind].
  - eexists. split; [done|]. intros p. apply He.
  - destruct (synth_fixed_ok (info_qtype (ctx_info ctx)) set Hk) as (p & -> & Hp). cbn [obind].
    eexists. split; [done|]. by intros p' [= <-].
Qed.

Lemma race_ok pf rp rs primary secondary :
  result_ok rp -> result_ok rs ->
  exists r, race pf rp rs primary secondary = Ret r /\ forall p i, r = Ok (p, i) -> upstream_ok_reply ctx p.
Proof.
  intros Hp Hs. unfold race, pick_race_winner.
  destruct (clean_spec rp) as (bp & Hbp & _), (clean_spec rs) as (bs & Hbs & _).
  destruct pf; rewrite ?Hbp, ?Hbs; cbn [obind]; destruct bp, bs; eexists; (split; [done|]);
    destruct rp, rs; cbn [tag_index]; intros ? ? [= <- <-]; (by eapply Hp) || (by eapply Hs).
Qed.
End exchange_theory.

(** ** The address test of [route.final] *)

Section cidr_theory.
Context {Regex : Type} `{!RegexEngine Regex, !RegexLaws Regex}.
Context {VS : Type} `{!CacheMap VS (list Z) VerdictEntry, !CacheMapLaws VS (list Z) VerdictEntry}.
Variables (ctx : QueryContext) (hot : HotState (Regex := Regex)) (exch : exchanges).
Variables (primary secondary : Server).
Hypothesis Hctx : ctx_ok ctx.
Hypothesis Hexch : exch_ok ctx exch.
Hypothesis Hprimary : kind_ok (sv_kind primary).
Hypothesis Hsecondary : kind_ok (sv_kind secondary).

(** The addresses satisfy the [answer-ip] expression. *)
Definition inside (rs : RuleSetDb Regex) (m : AnswerIpMatcher) (ips : list IpAddr) : Prop :=
  (ai_include m = [] \/ Exists (fun t => Exists (tag_covers rs t) ips) (ai_include m)) /\
  ~ Exists (fun t => Exists (tag_covers rs t) ips) (ai_exclude m).

(** The two-upstream address test.  With an [answer-ip] expression and a loaded
    database: a verdict in force for the name alone decides which server answers.
    Otherwise the primary's answer is used when its addresses satisfy the expression
    (or when it has none and the configuration says so), else the secondary's, the
    primary's being the fallback when the secondary failed; only a failure of both
    is an error.  A verdict is recorded exactly when the primary's answer had
    addresses and no reload happened meanwhile, and it is the outcome of the test. *)
Theorem cidr_test_correct primary_first (verdicts : VerdictCache VS) generation now1 now2 m rs q :
  db_ok rs -> hs_answer_ip hot = Some m -> answer_ip_is_empty m = false -> hs_ruleset hot = Some rs ->
  qname_owned ctx = Ret q ->
  exists rp rsec r verdicts',
    exchange_kind exch ctx (sv_kind primary) = Ret rp /\ exchange_kind exch ctx (sv_kind secondary) = Ret rsec /\
    resolve_none_rule_with_cidr exch primary_first ctx primary secondary verdicts hot generation now1 now2
    = Ret (r, verdicts') /\
    let unchanged := snd (verdict_get verdicts q now1) in
    match verdict_at verdicts q now1 with
    | Some true => r = tag_index (sv_index primary) rp /\ verdicts' = unchanged
    | Some false => r = tag_index (sv_index secondary) rsec /\ verdicts' = unchanged
    | None =>
        match rp with
        | Err _ => verdicts' = unchanged /\
            r = match rsec with Ok b => Ok (b, sv_index secondary) | Err _ => Err BothUpstreamsFailed end
        | Ok resp => exists ips b, answer_ips resp (info_question_end (ctx_info ctx)) = Ret ips /\
            (b = true <-> inside rs m ips) /\
            verdicts' = (if decide (ips <> [] /\ generation = hs_generation hot)
                         then verdict_add unchanged q b now2 else unchanged) /\
            r = if (if decide (ips = []) then hs_noip_as_primary hot else b)
                then Ok (resp, sv_index primary)
                else match rsec with Ok p => Ok (p, sv_index secondary) | Err _ => Ok (resp, sv_index primary) end
        end
    end.
Proof.
  intros Hdb Hm Hne Hrs Hq.
  destruct (exchange_kind_ok ctx Hctx exch (sv_kind primary) Hexch Hprimary) as (rp & Hrp & _).
  destruct (exchange_kind_ok ctx Hctx exch (sv_kind secondary) Hexch Hsecondary) as (rsec & Hrsec & _).
  unfold resolve_none_rule_with_cidr. rewrite Hm, Hne, Hrs, Hq, Hrp, Hrsec. cbn [obind].
  pose proof (verdict_get_eq verdicts q now1) as [Hv _].
  destruct (verdict_get verdicts q now1) as [v verdicts1]. cbn [fst snd] in *. rewrite <- Hv.
  exists rp, rsec. destruct v as [[|]|]; [by do 2 eexists..|].
  destruct rp as [resp|e]; [|by do 2 eexists].
  destruct (answer_ips_total resp (info_question_end (ctx_info ctx))) as [ips Hips]. rewrite Hips. cbn [obind].
  destruct (matches_answer_ip_spec rs m ips Hdb) as (b & -> & Hb). cbn [obind].
  destruct (decide (ips = [])) as [->|Hipne].
  - do 2 eexists. do 3 (split; [done|]). exists [], b. do 2 (split; [done|]).
    split; [by rewrite decide_False by naive_solver|]. by destruct (hs_noip_as_primary hot).
  - destruct b; do 2 eexists; (do 3 (split; [done|])); eexists ips, _; (split; [done|]); (split; [exact Hb|]);
      (split; [|by destruct (decide (ips = []))]); (destruct (decide (generation = hs_generation hot));
        [rewrite bool_decide_true, decide_True by done|rewrite bool_decide_false, decide_False by naive_solver]); done.
Qed.
End cidr_theory.

(** ** Filters *)

Section filter_chain.
Context {Regex : Type} `{!RegexEngine Regex, !RegexLaws Regex}.
Context {VS : Type} `{!CacheMap VS (list Z) VerdictEntry, !CacheMapLaws VS (list Z) VerdictEntry}.
Variables (ctx : QueryContext) (hot : HotState (Regex := Regex)).
Hypothesis Hctx : ctx_ok ctx.
Hypothesis Hservers : Forall (fun s => kind_ok (sv_kind s)) (hs_servers hot).
Hypothesis Hruleset : forall rs, hs_ruleset hot = Some rs -> db_ok rs.

(** A target of the snapshot: sound kinds, forwards to existing servers. *)
Definition target_ok (t : RouteTarget) : Prop :=
  match t with
  | TRule rule _ => kind_ok (r_kind rule) /\
      Forall (fun f => match rf_action f with Forward k => k < length (hs_servers hot) | _ => True end) (r_filters rule)
  | TServer s _ => kind_ok (sv_kind s)
  | TRace p s | TCidrTest p s => kind_ok (sv_kind p) /\ kind_ok (sv_kind s)
  end.

Lemma cidr_ok exch pf p s (verdicts : VerdictCache VS) generation now1 now2 :
  exch_ok ctx exch -> kind_ok (sv_kind p) -> kind_ok (sv_kind s) ->
  exists r verdicts', resolve_none_rule_with_cidr exch pf ctx p s verdicts hot generation now1 now2
      = Ret (r, verdicts') /\ forall b i, r = Ok (b, i) -> upstream_ok_reply ctx b.
Proof.
  intros He Hp Hs. unfold resolve_none_rule_with_cidr.
  destruct (exchange_kind_ok ctx Hctx exch _ He Hp) as (rp & Hrp & Hokp).
  destruct (exchange_kind_ok ctx Hctx exch _ He Hs) as (rs & Hrs & Hoks). rewrite Hrp, Hrs.
  assert (Htag : forall r i, result_ok ctx r -> forall b j, tag_index i r = Ok (b, j) -> upstream_ok_reply ctx b)
    by (intros [b'|] i Hr b j; cbn [tag_index]; [intros [= <- <-]; by apply Hr|done]).
  destruct (match hs_answer_ip hot with Some m => if answer_ip_is_empty m then None else Some m | None => None end)
    as [m|], (hs_ruleset hot) as [db|] eqn:Hdb; cbn [obind];
    try (destruct (race_ok ctx pf rp rs p s Hokp Hoks) as (r & -> & Hr); cbn [obind]; by do 2 eexists).
  destruct (qname_owned_total ctx) as [q ->]. cbn [obind].
  destruct (verdict_get verdicts q now1) as [[[|]|] v1]; cbn [obind]; [by do 2 eexists; split; [|apply Htag]..|].
  destruct rp as [resp|e]; cbn [obind].
  2: { do 2 eexists. split; [done|]. destruct rs; [|done]. intros b i [= <- <-]. by apply Hoks. }
  destruct (answer_ips_total resp (info_question_end (ctx_info ctx))) as [ips ->]. cbn [obind].
  destruct (matches_answer_ip_spec db m ips) as (b & -> & _); [by apply Hruleset|]. cbn [obind].
  assert (Hsec : forall b i, match rs with
      | Ok b => Ok (E := resolve_error) (b, sv_index s) | Err _ => Ok (resp, sv_index p) end = Ok (b, i) ->
    upstream_ok_reply ctx b).
  { intros x i. destruct rs; intros [= <- <-]; [by apply Hoks|by apply Hokp]. }
  case_decide; [|destruct b]; do 2 eexists; (split; [done|]); try exact Hsec.
  - destruct (hs_noip_as_primary hot); [|exact Hsec]. intros x i [= <- <-]. by apply Hokp.
  - intros x i [= <- <-]. by apply Hokp.
Qed.

Lemma do_upstream_exchange_ok exch pf (verdicts : VerdictCache VS) generation now1 now2 t :
  exch_ok ctx exch -> target_ok t ->
  exists r verdicts', do_upstream_exchange exch pf ctx verdicts hot generation now1 now2 t = Ret (r, verdicts') /\
    forall b i, r = Ok (b, i) -> upstream_ok_reply ctx b.
Proof.
  intros He Ht. destruct t as [rule i|s i|p s|p s]; cbn [do_upstream_exchange target_ok] in *.
  - destruct (exchange_kind_ok ctx Hctx exch _ He (proj1 Ht)) as (r & -> & Hr). cbn [obind].
    do 2 eexists. split; [done|]. destruct r; [|done]. intros b j [= <- <-]. by apply Hr.
  - destruct (exchange_kind_ok ctx Hctx exch _ He Ht) as (r & -> & Hr). cbn [obind].
    do 2 eexists. split; [done|]. destruct r; [|done]. intros b j [= <- <-]. by apply Hr.
  - destruct (exchange_kind_ok ctx Hctx exch _ He (proj1 Ht)) as (rp & -> & Hp). cbn [obind].
    destruct (exchange_kind_ok ctx Hctx exch _ He (proj2 Ht)) as (rs & -> & Hs). cbn [obind].
    destruct (race_ok ctx pf rp rs p s Hp Hs) as (r & -> & Hr). cbn [obind]. do 2 eexists. split; [done|].
    destruct r as [[x j]|]; [|done]. intros b k [= <- <-]. by eapply Hr.
  - destruct (cidr_ok exch pf p s verdicts generation now1 now2 He (proj1 Ht) (proj2 Ht)) as (r & v & -> & Hr).
    cbn [obind]. do 2 eexists. split; [done|]. destruct r as [[x j]|]; [|done]. intros b k [= <- <-]. by eapply Hr.
Qed.

(** The filter the rule's list selects for a response, as declared. *)
Definition chosen_filter (filters : list ResponseFilter) (resp : list Z) (m : option (nat * ResponseFilter)) : Prop :=
  exists ips types rc qc,
    answer_ips resp (info_question_end (ctx_info ctx)) = Ret ips /\
    answer_rr_types resp (info_question_end (ctx_info ctx)) = Ret types /\ rcode resp = Ret rc /\
    question_qclass resp (info_question_end (ctx_info ctx)) = Ret qc /\
    let accepts f := filter_accepts f (query_ruleset hot) ips types rc (default 0%Z qc) in
    match m with
    | Some (j, f) => filters !! j = Some f /\ accepts f /\ forall k g, k < j -> filters !! k = Some g -> ~ accepts g
    | None => forall g, g ∈ filters -> ~ accepts g
    end.

Lemma chosen_filter_spec filters resp :
  exists m, first_filter 0 filters (query_ruleset hot) resp (info_question_end (ctx_info ctx)) = Ret m /\
    chosen_filter filters resp m.
Proof.
  set (qe := info_question_end (ctx_info ctx)).
  destruct (answer_ips_total resp qe) as [ips Hips]. destruct (answer_rr_types_total resp qe) as [types Htypes].
  destruct (question_qclass_total resp qe) as [qc Hqc]. destruct (rcode_total resp) as [rc Hrc].
  destruct (first_filter_spec 0 filters (query_ruleset hot) resp qe ips types qc rc) as (r & Hr & H); try done.
  { unfold query_ruleset. intros rs. destruct (hs_needs_ruleset hot); [apply Hruleset|done]. }
  exists r. split; [done|]. exists ips, types, rc, qc. do 4 (split; [done|]).
  destruct r as [[j f]|]; [|done]. rewrite Nat.sub_0_r in H. by destruct H as (_ & ?).
Qed.

(** How the first exchange's result and the rule's filters determine the step. *)
Definition filter_chain_post (exch2 : exchanges) (has_ipset : bool) (target : RouteTarget)
    (first : result resolve_error (list Z * option nat)) (r : result resolve_error StepOutcome) (adds : list (nat * nat * list IpAddr)) : Prop :=
  match first, target with
  | Err e, _ => r = Err e /\ adds = []
  | Ok (resp, wi), TRule rule i =>
      exists m, chosen_filter (r_filters rule) resp m /\
      match m with
      | None => r = Ok (StepResponse resp wi None) /\ adds = []
      | Some (j, f) =>
          match rf_action f with
          | DropReply => r = Ok StepDrop /\ adds = []
          | Forward k => adds = [] /\ exists s fr,
              hs_servers hot !! k = Some s /\ exchange_kind exch2 ctx (sv_kind s) = Ret fr /\
              r = match fr with Ok b => Ok (StepResponse b None (Some k)) | Err e => Err e end
          | Accept => r = Ok (StepResponse resp wi None) /\ exists ips,
              answer_ips resp (info_question_end (ctx_info ctx)) = Ret ips /\
              adds = if has_ipset then (if decide (ips <> []) then [(i, j, ips)] else []) else []
          end
      end
  | Ok (resp, wi), _ => r = Ok (StepResponse resp wi None) /\ adds = []
  end.

Lemma filter_chain_spec exch1 exch2 pf (verdicts : VerdictCache VS) has_ipset generation now1 now2 target :
  exch_ok ctx exch1 -> exch_ok ctx exch2 -> target_ok target ->
  exists first v1 r verdicts' adds,
    do_upstream_exchange exch1 pf ctx verdicts hot generation now1 now2 target = Ret (first, v1) /\
    resolve_with_filters exch1 exch2 pf ctx verdicts hot has_ipset generation now1 now2 target
    = Ret (r, verdicts', adds) /\
    (forall resp wi fi, r = Ok (StepResponse resp wi fi) -> upstream_ok_reply ctx resp) /\
    filter_chain_post exch2 has_ipset target first r adds.
Proof.
  intros He1 He2 Ht.
  destruct (do_upstream_exchange_ok exch1 pf verdicts generation now1 now2 target He1 Ht) as (first & v1 & Hf & Hok).
  exists first, v1. unfold resolve_with_filters. rewrite Hf. cbn [obind].
  destruct first as [[resp wi]|e]; [|by do 3 eexists]. specialize (Hok resp wi eq_refl).
  assert (Hsame : forall resp' wi' fi', Ok (E := resolve_error) (StepResponse resp wi None) = Ok (StepResponse resp' wi' fi') ->
    upstream_ok_reply ctx resp') by (intros ??? [= <- <- <-]; done).
  destruct target as [rule i|s i|p s|p s]; [|by do 3 eexists..].
  destruct (chosen_filter_spec (r_filters rule) resp) as (m & -> & Hm). cbn [obind].
  destruct m as [[j f]|]; [|do 3 eexists; do 3 (split; [done|]); by exists None].
  pose proof Hm as (? & ? & ? & ? & _ & _ & _ & _ & Hl & _).
  destruct (rf_action f) as [| |k] eqn:Ha.
  - destruct has_ipset.
    + destruct (answer_ips_total resp (info_question_end (ctx_info ctx))) as [ips Hips]. rewrite Hips. cbn [obind].
      do 3 eexists. do 3 (split; [done|]). exists (Some (j, f)). split; [done|]. rewrite Ha. split; [done|]. by exists ips.
    + do 3 eexists. do 3 (split; [done|]). exists (Some (j, f)). split; [done|]. rewrite Ha. split; [done|].
      destruct (answer_ips_total resp (info_question_end (ctx_info ctx))) as [ips Hips]. by exists ips.
  - do 3 eexists. do 3 (split; [done|]). exists (Some (j, f)). split; [done|]. by rewrite Ha.
  - destruct Ht as [_ Hfw]. rewrite Forall_forall in Hfw.
    specialize (Hfw f (list_elem_of_lookup_2 _ _ _ Hl)). rewrite Ha in Hfw.
    destruct (lookup_lt_is_Some_2 _ _ Hfw) as [s Hs]. rewrite (idx_lookup _ _ _ Hs). cbn [obind do_upstream_exchange].
    rewrite Forall_forall in Hservers. specialize (Hservers s (list_elem_of_lookup_2 _ _ _ Hs)).
    destruct (exchange_kind_ok ctx Hctx exch2 (sv_kind s) He2 Hservers) as (fr & Hfr & Hokf). rewrite Hfr. cbn [obind].
    do 3 eexists. do 2 (split; [done|]). split.
    { destruct fr; [|done]. intros ??? [= <- <- <-]. by apply Hokf. }
    exists (Some (j, f)). split; [done|]. rewrite Ha. split; [done|]. exists s, fr. do 2 (split; [done|]). by destruct fr.
Qed.
(** C22: a rule's filter chain.  For an accepted query, sound servers and pools that keep
    the exchange contract, driving a target returns and any response it yields keeps
    that contract.  A failed exchange is the result as it is; for a rule the first
    filter whose declared criteria hold for the upstream's response decides: [drop]
    sends nothing, [forward] answers with the named server's own exchange (still
    credited to the rule), [accept] and no match keep the response; addresses go to
    the kernel sets only for an accepted response that has some, and other targets
    have no filters. *)
Theorem filter_chain_correct exch1 exch2 pf (verdicts : VerdictCache VS) has_ipset generation now1 now2 target :
  exch_ok ctx exch1 -> exch_ok ctx exch2 -> target_ok target ->
  exists first v1 r verdicts' adds,
    do_upstream_exchange exch1 pf ctx verdicts hot generation now1 now2 target = Ret (first, v1) /\
    resolve_with_filters exch1 exch2 pf ctx verdicts hot has_ipset generation now1 now2 target
    = Ret (r, verdicts', adds) /\
    (forall resp wi fi, r = Ok (StepResponse resp wi fi) -> upstream_ok_reply ctx resp) /\
    filter_chain_post exch2 has_ipset target first r adds.
Proof. apply filter_chain_spec. Qed.
End filter_chain.

(** ** A concrete deployment *)

Import LabelRegex.

Module PipelineDemo.
Import FilterDemo.

(** The same question in capitals, from another client. *)
Definition query2 : list Z := ([0; 9; 1; 0; 0; 1; 0; 0; 0; 0; 0; 0; 1; 65; 0; 0; 1; 0; 1])%Z.
Definition tail : list Z := [0; 1; 0; 1]%Z.
Definition fi1 : FastQueryInfo := fast_info query [[97]]%Z tail.
Definition fi2 : FastQueryInfo := fast_info query2 [[65]]%Z tail.
Definition variant : QueryVariant := no_edns true false false.
Definition key : Z := Fnv1a.write Fnv1a.new (key_material [[97]]%Z tail variant false).
Definition probe : CacheProbe := mkCacheProbe variant key None.
Definition ctx : QueryContext := slow_context query fi1 probe.
Definition policy : ResolvedCachePolicy := mkResolvedCachePolicy false 0 10 3600.
Definition server0 : Server := mkServer (lit "dns") (lit "final->dns") 0 (Upstream 0) false.
Definition server1 : Server :=
  mkServer (lit "block") (lit "final->block") 1 (Fixed (mkFixed (Some 3%Z) 60 [])) false.
Definition rule0 : Rule :=
  mkRule 0 (lit "dns") (Upstream 0) policy filters [MTag [lit "gfw"] []; MDomain (lit "a")] false.
Definition hot : HotState (Regex := list LabelRegex.item) :=
  mkHot [server0; server1] [rule0] true (FbCidrTest 0 1) (Some RulesetDemo.the_db) (build_index r_matcher [rule0]) 5
    (Some (mkAnswerIp [lit "lan"] [])) false.
Definition exch : exchanges := fun _ _ _ => Ok resp.
Definition cache0 : DnsCache (gmap Z Entry) := cache_new (mkCacheConfig 100 10 3600).
Definition counters0 : Counters := fun _ => 0%Z.
Definition verdicts0 : VerdictCache (gmap (list Z) VerdictEntry) := verdict_new (Some (mkVerdictCacheConfig 10 60)).

Lemma query_bytes : bytes_ok query /\ bytes_ok query2 /\ bytes_ok resp.
Proof. split_and!; apply bytes_check; by vm_compute. Defined.

Lemma query_question : question_of query [[97]]%Z tail /\ question_of query2 [[65]]%Z tail.
Proof.
  split; [exists (take 12 query), []|exists (take 12 query2), []]; (split; [reflexivity|]); do 2 (split; [done|]);
    (split; [apply labels_check; by vm_compute|by apply Nat.leb_le]).
Defined.

Lemma parsed : parse_query_fast query = Ret (Ok fi1) /\ parse_query_fast query2 = Ret (Ok fi2).
Proof. split; vm_compute; reflexivity. Defined.

Lemma demo_ctx_ok : ctx_ok ctx.
Proof. apply slow_context_ok; [apply query_bytes|apply parsed]. Defined.

Lemma resp_ok : upstream_ok_reply ctx resp.
Proof.
  constructor; [apply query_bytes|by vm_compute|apply Nat.leb_le; by vm_compute|by vm_compute].
Defined.

Lemma demo_exch_ok : exch_ok ctx exch.
Proof. intros pool p [= <-]. apply resp_ok. Defined.

Lemma demo_db_ok : db_ok RulesetDemo.the_db.
Proof. eapply load_db_ok; [|exact RulesetDemo.the_db_loaded]. done. Defined.

Lemma demo_hot_ok : hot_ok hot RulesetDemo.the_db.
Proof.
  constructor; [done|apply Nat.leb_le; by vm_compute|done|by right|]. split; apply Nat.ltb_lt; by vm_compute.
Defined.
End PipelineDemo.

Section pipeline_witnesses.
Import FilterDemo PipelineDemo.

Lemma follower_reply_witness :
  exists p c, follower_reply ctx (Published (Some resp)) 10 counters0 = Ret (Ok (Some p), c) /\ answers_client ctx p.
Proof.
  destruct (follower_reply_correct ctx (Published (Some resp)) 10 counters0 demo_ctx_ok) as (r & Hr & Hn & Hp).
  destruct r as [p|]; [|by destruct (proj1 Hn eq_refl)]. exists p. eexists. split; [exact Hr|]. by apply Hp.
Defined.

Definition finished : LeaderEnd :=
  match leader_finish cache0 table_new ctx hot (TRule rule0 0) false key 77 (Ok (StepResponse resp None None)) 5 1000 10
    counters0 with
  | Ret e => e
  | _ => mkLeaderEnd (Ok None) cache0 table_new [] counters0
  end.

Lemma finished_eq :
  leader_finish cache0 table_new ctx hot (TRule rule0 0) false key 77 (Ok (StepResponse resp None None)) 5 1000 10
    counters0 = Ret finished.
Proof. vm_compute. reflexivity. Defined.

Lemma leader_finish_witness :
  exists e p, leader_finish cache0 table_new ctx hot (TRule rule0 0) false key 77 (Ok (StepResponse resp None None))
      5 1000 10 counters0 = Ret e /\ le_reply e = Ok (Some p) /\ answers_client ctx p.
Proof.
  destruct (leader_finish_correct ctx hot (TRule rule0 0) demo_ctx_ok cache0 table_new false key 77
    (Ok (StepResponse resp None None)) 5 1000 10 counters0) as (e & reply & He & Hr & Hn & Hp & _).
  - reflexivity.
  - intros r wi fi [= <- _ _]. apply resp_ok.
  - destruct reply as [p|]; [|by discriminate (proj1 Hn eq_refl)]. exists e, p.
    split; [exact He|]. split; [exact Hr|]. by apply Hp.
Defined.


Lemma leader_answer_served_witness :
  exists entry c2, try_fast_path_into query2 Tcp (le_cache finished) counters0 false (30 * NANOS + 1000) 0
    = Ret (FpResponse (served entry 9 [1; 65; 0; 0; 1; 0; 1]%Z 30), c2,
           fetch_add cache_hits 1 (record_query_received counters0 Tcp)).
Proof.
  destruct (leader_answer_served cache0 hot (TRule rule0 0) table_new query query2 fi1 fi2 [[97]]%Z [[65]]%Z tail
    variant probe key (Z.lxor key (wrap 64 (5 * GENERATION_MIX))) resp None None None finished 1000 10 counters0 60
    [(19 + 6, 60)]%Z Tcp false (30 * NANOS + 1000) 0) as (entry & c2 & _ & _ & H).
  - apply (reachable_ok (mkCacheConfig 100 10 3600)), reach_new.
  - reflexivity.
  - reflexivity.
  - reflexivity.
  - apply query_bytes.
  - apply parsed.
  - apply query_question.
  - apply query_bytes.
  - apply parsed.
  - apply query_question.
  - reflexivity.
  - by left.
  - vm_compute. reflexivity.
  - vm_compute. reflexivity.
  - reflexivity.
  - vm_compute. reflexivity.
  - vm_compute. reflexivity.
  - apply resp_ok.
  - by vm_compute.
  - vm_compute. reflexivity.
  - vm_compute. reflexivity.
  - vm_compute. reflexivity.
  - vm_compute. reflexivity.
  - eexists. vm_compute. reflexivity.
  - reflexivity.
  - exists entry, c2. exact H.
Defined.

Lemma select_target_witness :
  exists ctx' rc', select_target ctx hot (route_cache_new 0 : gmap (list Z) Z) true false
    = Ret (ctx', rule_target rule0, rc').
Proof.
  destruct (select_target_correct hot RulesetDemo.the_db ctx (route_cache_new 0 : gmap (list Z) Z) true false)
    as (ctx' & t & rc' & q & r & Hs & _).
  - exact demo_hot_ok.
  - apply query_bytes.
  - done.
  - apply cm_all_new.
  - exists ctx', rc'. rewrite Hs. do 2 f_equal. f_equal. vm_compute in Hs. injection Hs as _ <- _. reflexivity.
Defined.

Lemma cidr_test_witness :
  exists p v, resolve_none_rule_with_cidr exch true ctx server0 server1 verdicts0 hot 5 0 1000 = Ret (Ok (p, 0), v) /\
    verdict_at v (lit "a") 1001 = Some true.
Proof.
  destruct (cidr_test_correct (VS := gmap (list Z) VerdictEntry) ctx hot exch server0 server1 demo_ctx_ok demo_exch_ok I)
    with (primary_first := true) (verdicts := verdicts0) (generation := 5%Z) (now1 := 0%Z) (now2 := 1000%Z)
      (m := mkAnswerIp [lit "lan"] []) (rs := RulesetDemo.the_db) (q := lit "a")
    as (rp & rsec & r & v & _ & _ & Hr & _).
  - split; [apply Forall_nil; exact I|]. cbn. lia.
  - exact demo_db_ok.
  - reflexivity.
  - reflexivity.
  - reflexivity.
  - vm_compute. reflexivity.
  - assert (exists p, r = Ok (p, 0) /\ verdict_at v (lit "a") 1001 = Some true) as (p & -> & Hv).
    { vm_compute in Hr. injection Hr as <- <-. eexists. split; [reflexivity|]. vm_compute. reflexivity. }
    exists p, v. split; [exact Hr|exact Hv].
Defined.

Lemma filter_chain_witness :
  exists p v, resolve_with_filters exch exch true ctx verdicts0 hot true 5 0 0 (rule_target rule0)
      = Ret (Ok (StepResponse p None (Some 1)), v, []) /\ upstream_ok_reply ctx p.
Proof.
  destruct (filter_chain_correct (VS := gmap (list Z) VerdictEntry) ctx hot demo_ctx_ok) with (exch1 := exch) (exch2 := exch) (pf := true)
    (verdicts := verdicts0) (has_ipset := true) (generation := 5%Z) (now1 := 0%Z) (now2 := 0%Z)
    (target := rule_target rule0) as (first & v1 & r & v & adds & _ & Hr & Hok & _).
  - repeat (apply Forall_cons; split; [|]); [exact I| |apply Forall_nil; exact I].
    split; [apply Forall_nil; exact I|]. cbn. lia.
  - intros rs Hrs. apply (inj Some) in Hrs. rewrite <- Hrs. exact demo_db_ok.
  - exact demo_exch_ok.
  - exact demo_exch_ok.
  - split; [exact I|]. repeat (apply Forall_cons; split); [exact I|apply Nat.ltb_lt; by vm_compute|apply Forall_nil; exact I].
  - assert (exists p, r = Ok (StepResponse p None (Some 1)) /\ adds = []) as (p & -> & ->).
    { vm_compute in Hr. injection Hr as <- _ <-. by eexists. }
    exists p, v. split; [exact Hr|]. by eapply Hok.
Defined.
End pipeline_witnesses.
