(* ===== verification/Upstream.v ===== *)
(** * Upstream pools (src/src/upstream/mod.rs, src/src/stats.rs)

    Health tracking of a node (RTT estimate, failure backoff, AIMD window), its
    selection score, the choice of the primary and the hedge partner, one hedged
    exchange with the counters it moves, and the preparation and validation of the
    packets exchanged.  The atomics of a node are read and written as one record:
    each handler's loads and stores are taken together. *)

From S2P Require Import Prelude Hasher DnsName DnsQuery DnsRecords DnsEdns Ecs Inflight.

Definition SELECT_BAND_FLOOR_US : Z := 2000.
Definition FAILURE_RTT_FLOOR_US : Z := 50000.
Definition FAILURE_RTT_CAP_US : Z := 10000000.
Definition CONGESTION_SCORE_FACTOR : Z := 4.
Definition PROBE_INTERVAL : Z := 100.
Definition SELECT_BAND_FACTOR : Z := 2.
Definition HEDGE_RTT_MULTIPLIER : Z := 3.

(** Durations are counted in microseconds. *)
Definition HEDGE_MIN_DELAY : Z := 2000.

Definition STALE_SOCKET_REFRESH_THRESHOLD : Z := 6.
Definition STALE_CONNECTION_REFRESH_THRESHOLD : Z := 6.

Definition U64_MAX : Z := 2 ^ 64 - 1.

(** [u64::saturating_mul] and [u64::wrapping_sub] *)
Definition sat_mul (a b : Z) : Z := Z.min (a * b) U64_MAX.
Definition wrapping_sub (a b : Z) : Z := wrap 64 (a - b).

Definition band_limit (best factor floor : Z) : Z := Z.max (sat_mul best factor) (sat_add 64 best floor).

(** ** Health *)

Record HealthStats := mkHealth {
  ewma_rtt_us : Z;
  consecutive_failures : Z;
  concurrency_window : Z;
  max_inflight : Z
}.

Definition health_new (max_inflight : Z) : HealthStats :=
  mkHealth 0 0 (if decide (0 < max_inflight)%Z then max_inflight else U64_MAX) max_inflight.

Definition record_success (self : HealthStats) (rtt_us : Z) : HealthStats :=
  let old := ewma_rtt_us self in
  let had_failures := bool_decide (consecutive_failures self <> 0)%Z in
  let new_ewma :=
    if bool_decide (old = 0)%Z || had_failures then rtt_us
    else wrap 64 (wrapping_sub old (Z.shiftr old 2) + Z.shiftr rtt_us 2) in
  let window :=
    if decide (0 < max_inflight self)%Z then
      if decide (concurrency_window self < max_inflight self)%Z then (concurrency_window self + 1)%Z
      else concurrency_window self
    else concurrency_window self in
  mkHealth new_ewma 0 window (max_inflight self).

Definition record_failure (self : HealthStats) (is_timeout : bool) : HealthStats :=
  let inflated := Z.min (Z.max (sat_mul (ewma_rtt_us self) 2) FAILURE_RTT_FLOOR_US) FAILURE_RTT_CAP_US in
  let window :=
    if is_timeout && bool_decide (0 < max_inflight self)%Z
    then Z.max (concurrency_window self / 2) 1 else concurrency_window self in
  mkHealth inflated (wrap 32 (consecutive_failures self + 1)) window (max_inflight self).

(** ** Statistics *)

Record NodeStats := mkStats {
  queries_ok : Z;
  queries_err : Z;
  queries_timeout : Z;
  queries_cancelled : Z;
  active_inflight : Z;
  ns_rtt_sum_us : Z
}.

Definition stats_new : NodeStats := mkStats 0 0 0 0 0 0.

Definition record_ok (s : NodeStats) (rtt_us : Z) : NodeStats :=
  mkStats (wrap 64 (queries_ok s + 1)) (queries_err s) (queries_timeout s) (queries_cancelled s)
    (active_inflight s) (wrap 64 (ns_rtt_sum_us s + rtt_us)).

Definition record_err (s : NodeStats) : NodeStats :=
  mkStats (queries_ok s) (wrap 64 (queries_err s + 1)) (queries_timeout s) (queries_cancelled s)
    (active_inflight s) (ns_rtt_sum_us s).

Definition record_timeout (s : NodeStats) : NodeStats :=
  mkStats (queries_ok s) (wrap 64 (queries_err s + 1)) (wrap 64 (queries_timeout s + 1)) (queries_cancelled s)
    (active_inflight s) (ns_rtt_sum_us s).

Definition record_cancelled (s : NodeStats) : NodeStats :=
  mkStats (queries_ok s) (queries_err s) (queries_timeout s) (wrap 64 (queries_cancelled s + 1))
    (active_inflight s) (ns_rtt_sum_us s).

(** [active_inflight.fetch_add] / [fetch_sub]; the i64 never gets near its range. *)
Definition add_inflight (d : Z) (s : NodeStats) : NodeStats :=
  mkStats (queries_ok s) (queries_err s) (queries_timeout s) (queries_cancelled s)
    (active_inflight s + d) (ns_rtt_sum_us s).

(** ** Nodes *)

(** The transports; what they do on the wire is the [attempt] of an exchange. *)
Inductive UpstreamTransport := TUdp | TTcp | TDoh | TDoq | TH3.

(** [refresh_requests] counts the calls of [UdpUpstream::trigger_refresh] and
    [TcpMux::force_reconnect] the node has made. *)
Record UpstreamNode := mkNode {
  health : HealthStats;
  stats : NodeStats;
  last_selected : Z;
  transport : UpstreamTransport;
  refresh_requests : nat
}.

Definition selection_score (n : UpstreamNode) : Z :=
  let ewma := ewma_rtt_us (health n) in
  let inflight := Z.max (active_inflight (stats n)) 0 in
  let base := if decide (ewma = 0)%Z then inflight else sat_mul ewma (1 + inflight) in
  let window := concurrency_window (health n) in
  if decide (0 < window /\ window <= inflight)%Z then sat_mul base CONGESTION_SCORE_FACTOR else base.

Definition hedge_delay (n : UpstreamNode) (fallback : Z) : Z :=
  if decide (0 < consecutive_failures (health n))%Z then fallback
  else
    let ewma_us := ewma_rtt_us (health n) in
    if decide (ewma_us = 0)%Z then fallback
    else Z.max (sat_mul ewma_us HEDGE_RTT_MULTIPLIER) HEDGE_MIN_DELAY.

(** ** Selection *)

(** [iter().enumerate().min_by_key(key)]: the first of the least. *)
Fixpoint min_by_key {A} (key : A -> Z) (i : nat) (l : list A) : option (nat * A) :=
  match l with
  | [] => None
  | a :: l' =>
      match min_by_key key (S i) l' with
      | Some (j, b) => if decide (key b < key a)%Z then Some (j, b) else Some (i, a)
      | None => Some (i, a)
      end
  end.

(** The scan for the [pick]-th candidate within the band. *)
Fixpoint nth_in_band (limit : Z) (candidates : list (nat * Z)) (pick : nat) : option nat :=
  match candidates with
  | [] => None
  | (i, score) :: rest =>
      if decide (score <= limit)%Z then
        match pick with O => Some i | S pick' => nth_in_band limit rest pick' end
      else nth_in_band limit rest pick
  end.

Definition fibonacci_pick (query_ix : Z) : Z := Z.shiftr (wrap 64 (query_ix * 0x9E3779B97F4A7C15)) 33.

(** The remainder by [in_band] panics when the band is empty. *)
Definition select_primary_idx (nodes : list UpstreamNode) (query_ix : Z) : outcome (option nat) :=
  let banded :=
    let candidates := imap (fun i n => (i, selection_score n)) nodes in
    let best_score := foldl (fun b n => Z.min b (selection_score n)) U64_MAX nodes in
    match candidates with
    | [] => Ret None
    | _ =>
        let limit := band_limit best_score SELECT_BAND_FACTOR SELECT_BAND_FLOOR_US in
        let in_band := length (filter (fun c => (snd c <= limit)%Z) candidates) in
        if decide (in_band = 0) then Panic
        else
          let pick := Z.to_nat (fibonacci_pick query_ix) mod in_band in
          Ret (nth_in_band limit candidates pick)
    end in
  match min_by_key last_selected 0 nodes with
  | Some (probe_idx, probe_node) =>
      if decide (PROBE_INTERVAL <= wrapping_sub query_ix (last_selected probe_node))%Z then Ret (Some probe_idx)
      else banded
  | None => banded
  end.

Definition select_secondary_idx (nodes : list UpstreamNode) (primary_idx : nat) : option nat :=
  match min_by_key (fun p => selection_score (snd p)) 0
          (filter (fun p => fst p <> primary_idx) (imap pair nodes)) with
  | Some (_, (i, _)) => Some i
  | None => None
  end.

(** ** One exchange *)

(** What a transport reports: the packet, or an error (a timeout or another), and
    the time it took. *)
Record attempt := mkAttempt { at_result : result bool (list Z); at_rtt : Z }.

Definition node_begin (n : UpstreamNode) : UpstreamNode :=
  mkNode (health n) (add_inflight 1 (stats n)) (last_selected n) (transport n) (refresh_requests n).

(** Whether a timeout asks the transport for fresh sockets; [failures] is read after
    [record_failure]. *)
Definition wants_refresh (t : UpstreamTransport) (failures : Z) : bool :=
  match t with
  | TUdp => bool_decide (STALE_SOCKET_REFRESH_THRESHOLD <= failures)%Z
  | TTcp => bool_decide (STALE_CONNECTION_REFRESH_THRESHOLD <= failures)%Z
  | _ => false
  end.

(** [UpstreamNode::exchange] after the transport answered, the guard's drop included. *)
Definition node_end (a : attempt) (n : UpstreamNode) : UpstreamNode :=
  match at_result a with
  | Ok _ => mkNode (record_success (health n) (at_rtt a)) (add_inflight (-1) (record_ok (stats n) (at_rtt a)))
              (last_selected n) (transport n) (refresh_requests n)
  | Err is_timeout =>
      let health' := record_failure (health n) is_timeout in
      let refresh := is_timeout && wants_refresh (transport n) (consecutive_failures health') in
      mkNode health' (add_inflight (-1) (if is_timeout then record_timeout (stats n) else record_err (stats n)))
        (last_selected n) (transport n) (if refresh then S (refresh_requests n) else refresh_requests n)
  end.

(** The exchange is dropped by the race: the guard's drop and [record_cancelled]. *)
Definition node_cancel (n : UpstreamNode) : UpstreamNode :=
  mkNode (health n) (record_cancelled (add_inflight (-1) (stats n))) (last_selected n)
    (transport n) (refresh_requests n).

Definition node_select (query_ix : Z) (n : UpstreamNode) : UpstreamNode :=
  mkNode (health n) (stats n) query_ix (transport n) (refresh_requests n).

(** [hedged_queries] is the query log's counter, when the query log is on. *)
Record UpstreamPool := mkPool {
  nodes : list UpstreamNode;
  next : Z;
  hedge_delay_cfg : option Z;
  active_hedges : Z;
  hedged_queries : option Z
}.

Inductive pool_error := EmptyPool | NodeError (is_timeout : bool).

Definition attempt_result (a : attempt) : result pool_error (list Z) :=
  match at_result a with Ok p => Ok p | Err t => Err (NodeError t) end.

Definition with_nodes (p : UpstreamPool) (ns : list UpstreamNode) : UpstreamPool :=
  mkPool ns (next p) (hedge_delay_cfg p) (active_hedges p) (hedged_queries p).

Definition with_hedges (p : UpstreamPool) (active : Z) (hedged : option Z) : UpstreamPool :=
  mkPool (nodes p) (next p) (hedge_delay_cfg p) active hedged.

(** [exchange_observed]: [pa] is what the primary's transport will do, [sa] what the
    secondary's will when it is started; [tie] decides when both end together. *)
Definition exchange_observed (p : UpstreamPool) (pa sa : attempt) (tie : bool)
  : outcome (result pool_error (list Z) * UpstreamPool) :=
  match nodes p with
  | [] => Ret (Err EmptyPool, p)
  | _ =>
      let query_ix := next p in
      let p := mkPool (nodes p) (wrap 64 (next p + 1)) (hedge_delay_cfg p) (active_hedges p) (hedged_queries p) in
      let! primary := select_primary_idx (nodes p) query_ix in
      match primary with
      | None => Ret (Err EmptyPool, p)
      | Some primary_idx =>
          let! primary_node := idx (nodes p) primary_idx in
          let p := with_nodes p (alter (node_select query_ix) primary_idx (nodes p)) in
          let started := with_nodes p (alter node_begin primary_idx (nodes p)) in
          let primary_ends (p : UpstreamPool) := with_nodes p (alter (node_end pa) primary_idx (nodes p)) in
          let primary_alone := (attempt_result pa, primary_ends started) in
          match hedge_delay_cfg p with
          | None => Ret primary_alone
          | Some cfg =>
              let delay := hedge_delay primary_node cfg in
              if decide (at_rtt pa <= delay)%Z then Ret primary_alone
              else
                let hedge_budget := Z.max (Z.of_nat (length (nodes p))) 4 in
                if decide (hedge_budget <= active_hedges started)%Z then Ret primary_alone
                else
                  let hedging := with_hedges started (active_hedges started + 1)
                    (Z.add 1 <$> hedged_queries started) in
                  let done (r : result pool_error (list Z)) (p : UpstreamPool) :=
                    (r, with_hedges p (active_hedges p - 1) (hedged_queries p)) in
                  match select_secondary_idx (nodes hedging) primary_idx with
                  | None => Ret (done (attempt_result pa) (primary_ends hedging))
                  | Some secondary_idx =>
                      let both := with_nodes hedging (alter node_begin secondary_idx (nodes hedging)) in
                      let secondary_ends (p : UpstreamPool) :=
                        with_nodes p (alter (node_end sa) secondary_idx (nodes p)) in
                      let cancel i (p : UpstreamPool) := with_nodes p (alter node_cancel i (nodes p)) in
                      let primary_first :=
                        bool_decide (at_rtt pa < delay + at_rtt sa)%Z ||
                        (bool_decide (at_rtt pa = delay + at_rtt sa)%Z && tie) in
                      if primary_first then
                        match at_result pa with
                        | Ok _ => Ret (done (attempt_result pa) (cancel secondary_idx (primary_ends both)))
                        | Err _ =>
                            Ret (done (match at_result sa with Ok _ => attempt_result sa | Err _ => attempt_result pa end)
                                   (secondary_ends (primary_ends both)))
                        end
                      else
                        match at_result sa with
                        | Ok _ => Ret (done (attempt_result sa) (cancel primary_idx (secondary_ends both)))
                        | Err _ => Ret (done (attempt_result pa) (primary_ends (secondary_ends both)))
                        end
                  end
          end
      end
  end.

(** ** Packets of an exchange *)

(** [config::EcsMode] *)
Inductive EcsMode :=
| EcsStrip
| EcsForward
| EcsFixed (subnet : EcsSubnet).

Definition apply_ecs_mode (packet : list Z) (mode : EcsMode) : outcome (list Z) :=
  match mode with
  | EcsStrip => let! o := strip_edns_ecs packet in Ret (default packet o)
  | EcsForward => Ret packet
  | EcsFixed subnet => let! o := inject_or_replace_ecs packet subnet in Ret (default packet o)
  end.

Definition prepare_query (packet : list Z) (ecs_mode : EcsMode) (upstream_id : Z)
  : outcome (result query_error (list Z)) :=
  let! pkt := apply_ecs_mode packet ecs_mode in
  set_id pkt upstream_id.

Inductive response_error :=
| QrNotSet
| IdMismatch
| QuestionMismatch
| ResponseTooShort (e : query_error).

Definition validate_upstream_response (resp : list Z) (upstream_id : Z) (question : list Z)
  : outcome (result response_error unit) :=
  let! reply := is_reply resp in
  if negb reply then Ret (Err QrNotSet)
  else
    let! id := get_id resp in
    if decide (match id with Ok i => Some i | Err _ => None end <> Some upstream_id) then Ret (Err IdMismatch)
    else
      let! resp_qend := question_end resp in
      let resp_q := default [] (resp_qend ≫= fun e => get_slice resp 12 e) in
      let! m := questions_match resp_q question in
      Ret (if m : bool then Ok tt else Err QuestionMismatch).

Definition finalize_response (resp : list Z) (upstream_id : Z) (question : list Z) (client_id : Z)
  : outcome (result response_error (list Z)) :=
  let! v := validate_upstream_response resp upstream_id question in
  match v with
  | Err e => Ret (Err e)
  | Ok _ =>
      let! r := set_id resp client_id in
      Ret (match r with Ok p => Ok p | Err e => Err (ResponseTooShort e) end)
  end.
