(* ===== verification/UpstreamCorrect.v ===== *)
(** * Correctness of upstream pools

    The health invariant, what the primary selection returns, that no node is
    starved, what a hedged exchange returns and leaves behind, and that only
    validated responses reach a client. *)

From S2P Require Import Prelude Hasher DnsName DnsQuery DnsRecords DnsEdns Ecs DnsMessage Inflight Upstream.

(** ** Health *)

(** Bounds every reachable health record has. *)
Definition health_ok (h : HealthStats) : Prop :=
  (0 <= ewma_rtt_us h <= U64_MAX)%Z /\ u_ok 32 (consecutive_failures h) /\
  (0 <= max_inflight h <= U64_MAX)%Z /\
  (if decide (0 < max_inflight h)%Z then 1 <= concurrency_window h <= max_inflight h
   else concurrency_window h = U64_MAX)%Z.

Lemma shiftr2 z : (0 <= z)%Z -> Z.shiftr z 2 = (z / 4)%Z.
Proof. intros. by rewrite Z.shiftr_div_pow2 by lia. Qed.

Lemma ewma_step old rtt :
  (0 <= old <= U64_MAX)%Z -> (0 <= rtt <= U64_MAX)%Z ->
  wrap 64 (wrapping_sub old (Z.shiftr old 2) + Z.shiftr rtt 2) = (old - old / 4 + rtt / 4)%Z /\
  (0 <= old - old / 4 + rtt / 4 <= U64_MAX)%Z.
Proof.
  unfold U64_MAX, wrapping_sub, wrap. change (2 ^ 64)%Z with 18446744073709551616%Z. intros Ho Hr.
  rewrite !shiftr2 by lia.
  assert (0 <= old - old / 4 < 18446744073709551616)%Z by (Z.to_euclidean_division_equations; lia).
  rewrite (Z.mod_small (old - old / 4)) by lia.
  assert (0 <= old - old / 4 + rtt / 4 <= 18446744073709551616 - 1)%Z by (Z.to_euclidean_division_equations; lia).
  rewrite Z.mod_small by lia. done.
Qed.

Lemma health_new_ok m : (0 <= m <= U64_MAX)%Z -> health_ok (health_new m).
Proof.
  intros Hm. unfold health_ok, health_new. cbn [ewma_rtt_us consecutive_failures concurrency_window max_inflight].
  unfold U64_MAX in *. split; [lia|]. split; [unfold u_ok; lia|]. split; [lia|]. case_decide; lia.
Qed.

Lemma record_success_ok h rtt : health_ok h -> (0 <= rtt <= U64_MAX)%Z -> health_ok (record_success h rtt).
Proof.
  intros (He & Hf & Hm & Hw) Hr. unfold health_ok, record_success.
  cbn [ewma_rtt_us consecutive_failures concurrency_window max_inflight].
  split; [|split; [unfold u_ok; lia|split; [done|]]].
  - destruct (_ || _); [done|]. destruct (ewma_step (ewma_rtt_us h) rtt) as [-> ?]; done.
  - destruct (decide (0 < max_inflight h)%Z); [|done]. case_decide; lia.
Qed.

Lemma record_failure_ok h t : health_ok h -> health_ok (record_failure h t).
Proof.
  intros (He & Hf & Hm & Hw). unfold health_ok, record_failure.
  cbn [ewma_rtt_us consecutive_failures concurrency_window max_inflight].
  split; [|split; [|split; [done|]]].
  - unfold FAILURE_RTT_FLOOR_US, FAILURE_RTT_CAP_US, U64_MAX in *. lia.
  - unfold u_ok, wrap. apply Z.mod_pos_bound. lia.
  - destruct (decide (0 < max_inflight h)%Z); [|by rewrite bool_decide_false, andb_false_r].
    rewrite bool_decide_true, andb_true_r by done. destruct t; [|done].
    split; [lia|]. apply Z.max_lub; [|lia]. apply Z.div_le_upper_bound; lia.
Qed.

(** ** Scores *)

Definition node_ok (n : UpstreamNode) : Prop :=
  health_ok (health n) /\ (active_inflight (stats n) <= U64_MAX)%Z.

Lemma sat_mul_bounds a b : (0 <= a)%Z -> (0 <= b)%Z -> (0 <= sat_mul a b <= U64_MAX)%Z.
Proof. intros. unfold sat_mul. pose proof (Z.mul_nonneg_nonneg a b). unfold U64_MAX in *. lia. Qed.

Lemma selection_score_bounds n : node_ok n -> (0 <= selection_score n <= U64_MAX)%Z.
Proof.
  intros [(He & _) Hi]. unfold selection_score.
  assert (0 <= (if decide (ewma_rtt_us (health n) = 0)%Z then Z.max (active_inflight (stats n)) 0
     else sat_mul (ewma_rtt_us (health n)) (1 + Z.max (active_inflight (stats n)) 0)) <= U64_MAX)%Z as Hb
    by (case_decide; [unfold U64_MAX in *; lia|apply sat_mul_bounds; lia]).
  destruct (decide (_ /\ _)); [|done]. apply sat_mul_bounds; [apply Hb|unfold CONGESTION_SCORE_FACTOR; lia].
Qed.

Lemma band_limit_ge best : (0 <= best <= U64_MAX)%Z -> (best <= band_limit best SELECT_BAND_FACTOR SELECT_BAND_FLOOR_US)%Z.
Proof. unfold band_limit, sat_mul, sat_add, SELECT_BAND_FACTOR, SELECT_BAND_FLOOR_US, U64_MAX. lia. Qed.

(** ** Selection *)

Lemma min_by_key_spec {A} (key : A -> Z) i l :
  match min_by_key key i l with
  | Some (j, a) => i <= j /\ l !! (j - i) = Some a /\ forall b, b ∈ l -> (key a <= key b)%Z
  | None => l = []
  end.
Proof.
  revert i. induction l as [|a l IH]; intros i; [done|]. cbn [min_by_key]. specialize (IH (S i)).
  destruct (min_by_key key (S i) l) as [[j b]|].
  - destruct IH as (Hij & Hl & Hmin). case_decide as Hk.
    + split; [lia|]. replace (j - i) with (S (j - S i)) by lia. split; [done|].
      intros c [->|Hc]%elem_of_cons; [lia|by apply Hmin].
    + split; [lia|]. rewrite Nat.sub_diag. split; [done|].
      intros c [->|Hc]%elem_of_cons; [lia|]. apply Hmin in Hc. lia.
  - subst. split; [lia|]. rewrite Nat.sub_diag. split; [done|]. intros c [->|Hc]%elem_of_cons; [lia|].
    by apply not_elem_of_nil in Hc.
Qed.

Lemma nth_in_band_spec limit cs pick :
  pick < length (filter (fun c : nat * Z => (snd c <= limit)%Z) cs) ->
  exists i s, nth_in_band limit cs pick = Some i /\ (i, s) ∈ cs /\ (s <= limit)%Z.
Proof.
  revert pick. induction cs as [|[i s] cs IH]; intros pick; cbn [nth_in_band]; [cbn; lia|].
  rewrite filter_cons. cbn [snd]. destruct (decide (s <= limit)%Z) as [Hs|Hs].
  - cbn [length]. intros Hp. destruct pick as [|pick]; [by exists i, s; split_and!; [|left|]|].
    destruct (IH pick) as (j & t & Hj & Hin & Ht); [lia|]. exists j, t. split_and!; [done|by right|done].
  - intros Hp. destruct (IH pick Hp) as (j & t & Hj & Hin & Ht). exists j, t. split_and!; [done|by right|done].
Qed.

Lemma best_score_spec (ns : list UpstreamNode) b :
  let best := foldl (fun b n => Z.min b (selection_score n)) b ns in
  (best <= b)%Z /\ (forall n, n ∈ ns -> (best <= selection_score n)%Z) /\
  (best = b \/ exists n, n ∈ ns /\ best = selection_score n).
Proof.
  revert b. induction ns as [|n ns IH]; intros b; cbn [foldl].
  - split; [lia|]. split; [|by left]. by intros n ?%not_elem_of_nil.
  - destruct (IH (Z.min b (selection_score n))) as (H1 & H2 & H3). cbv zeta in *. split; [lia|]. split.
    + intros m [->|Hm]%elem_of_cons; [lia|by apply H2].
    + destruct H3 as [->|(m & Hm & ->)]; [|right; exists m; split; [by right|done]].
      destruct (decide (b <= selection_score n)%Z); [left; lia|]. right. exists n. split; [by left|lia].
Qed.

(** The primary is overdue for a probe, or within the band of the best score. *)
Definition good_primary (ns : list UpstreamNode) (query_ix : Z) (n : UpstreamNode) : Prop :=
  ((forall m, m ∈ ns -> (last_selected n <= last_selected m)%Z) /\
   (PROBE_INTERVAL <= wrapping_sub query_ix (last_selected n))%Z) \/
  (exists b, b ∈ ns /\ (forall m, m ∈ ns -> (selection_score b <= selection_score m)%Z) /\
   (selection_score n <= band_limit (selection_score b) SELECT_BAND_FACTOR SELECT_BAND_FLOOR_US)%Z).

Lemma select_primary_spec ns query_ix :
  Forall node_ok ns -> ns <> [] ->
  exists i n, select_primary_idx ns query_ix = Ret (Some i) /\ ns !! i = Some n /\ good_primary ns query_ix n.
Proof.
  intros Hok Hne. unfold select_primary_idx, good_primary.
  pose proof (min_by_key_spec last_selected 0 ns) as Hmin.
  destruct (min_by_key last_selected 0 ns) as [[j p]|]; [|done]. destruct Hmin as (_ & Hl & Hmin).
  rewrite Nat.sub_0_r in Hl. case_decide as Hage; [by exists j, p; split_and!; [| |left]|].
  set (cs := imap (fun i n => (i, selection_score n)) ns).
  assert (cs <> []) as Hcs by (unfold cs; destruct ns; [done|by rewrite imap_cons]).
  set (best := foldl (fun b n => Z.min b (selection_score n)) U64_MAX ns).
  destruct (best_score_spec ns U64_MAX) as (_ & Hle & Hb). fold best in Hle, Hb.
  assert (exists b, b ∈ ns /\ best = selection_score b) as (b & Hbin & Hbe).
  { destruct Hb as [Hb|?]; [|done]. apply list_elem_of_lookup_2 in Hl as Hp. exists p. split; [done|].
    rewrite Forall_forall in Hok. pose proof (selection_score_bounds p (Hok p Hp)). apply Hle in Hp. lia. }
  set (limit := band_limit best SELECT_BAND_FACTOR SELECT_BAND_FLOOR_US).
  assert (Hlim : (best <= limit)%Z).
  { apply band_limit_ge. rewrite Hbe. apply selection_score_bounds. by rewrite Forall_forall in Hok; apply Hok. }
  assert (Hcin : forall i s, (i, s) ∈ cs -> exists n, ns !! i = Some n /\ s = selection_score n).
  { intros i s (k & Hk)%list_elem_of_lookup. unfold cs in Hk. rewrite list_lookup_imap in Hk.
    destruct (ns !! k) as [n|] eqn:Hn; [|done]. cbn in Hk. injection Hk as <- <-. by exists n. }
  assert (Hband : length (filter (fun c : nat * Z => (snd c <= limit)%Z) cs) <> 0).
  { apply list_elem_of_lookup in Hbin as [k Hk].
    assert ((k, best) ∈ filter (fun c : nat * Z => (snd c <= limit)%Z) cs) as Hin.
    { apply list_elem_of_filter. split; [exact Hlim|]. unfold cs. apply list_elem_of_lookup. exists k.
      rewrite list_lookup_imap, Hk, Hbe. done. }
    intros H0%nil_length_inv. rewrite H0 in Hin. by apply not_elem_of_nil in Hin. }
  destruct cs as [|c cs'] eqn:Ecs; [done|]. rewrite <- Ecs in *. rewrite decide_False by done.
  destruct (nth_in_band_spec limit cs (Z.to_nat (fibonacci_pick query_ix) mod
    length (filter (fun c : nat * Z => (snd c <= limit)%Z) cs))) as (i & s & Hi & Hin & Hs).
  { by apply Nat.mod_upper_bound. }
  destruct (Hcin i s Hin) as (n & Hn & ->). exists i, n.
  split; [by rewrite Hi|]. split; [done|]. right. exists b. split; [done|].
  split; [intros m Hm; rewrite <- Hbe; by apply Hle|]. rewrite <- Hbe. exact Hs.
Qed.

Lemma select_secondary_spec ns i n :
  ns !! i = Some n ->
  match select_secondary_idx ns i with
  | Some j => j <> i /\ exists m, ns !! j = Some m /\
      forall k b, k <> i -> ns !! k = Some b -> (selection_score m <= selection_score b)%Z
  | None => length ns = 1
  end.
Proof.
  intros Hn. unfold select_secondary_idx.
  set (l := filter (fun p : nat * UpstreamNode => fst p <> i) (imap pair ns)).
  assert (Hin : forall k b, (k, b) ∈ l <-> k <> i /\ ns !! k = Some b).
  { intros k b. unfold l. rewrite list_elem_of_filter. cbn [fst]. split; intros [Hk Hb]; (split; [done|]).
    - apply list_elem_of_lookup in Hb as [j Hj]. rewrite list_lookup_imap in Hj.
      destruct (ns !! j) as [x|] eqn:Hx; [|done]. cbn in Hj. by injection Hj as <- <-.
    - apply list_elem_of_lookup. exists k. by rewrite list_lookup_imap, Hb. }
  pose proof (min_by_key_spec (fun p : nat * UpstreamNode => selection_score (snd p)) 0 l) as Hm.
  destruct (min_by_key _ 0 l) as [[o [j m]]|].
  - destruct Hm as (_ & Hl & Hmin). apply list_elem_of_lookup_2, Hin in Hl as [Hj Hl].
    split; [done|]. exists m. split; [done|]. intros k b Hk Hb. apply (Hmin (k, b)), Hin. done.
  - apply lookup_lt_Some in Hn as Hlt. destruct (decide (length ns = 1)) as [|Hne1]; [done|]. exfalso.
    destruct (lookup_lt_is_Some_2 ns (if decide (i = 0) then 1 else 0)) as [b Hb]; [case_decide; lia|].
    assert ((if decide (i = 0) then 1 else 0, b) ∈ l) as Hx by (apply Hin; split; [case_decide; lia|done]).
    rewrite Hm in Hx. by apply not_elem_of_nil in Hx.
Qed.

(** The choice of the primary upstream.  In a pool whose nodes carry reachable
    health records, selection never panics (the band is never empty) and always
    names a node, which either is the least recently selected one, not tried for at
    least [PROBE_INTERVAL] queries, or scores within the band of the best score;
    the hedge partner is the best-scored other node, and exists exactly when there
    is another node. *)
Theorem select_primary_correct ns query_ix :
  Forall node_ok ns -> ns <> [] ->
  exists i n, select_primary_idx ns query_ix = Ret (Some i) /\ ns !! i = Some n /\ good_primary ns query_ix n /\
    match select_secondary_idx ns i with
    | Some j => j <> i /\ exists m, ns !! j = Some m /\
        forall k b, k <> i -> ns !! k = Some b -> (selection_score m <= selection_score b)%Z
    | None => length ns = 1
    end.
Proof.
  intros Hok Hne. destruct (select_primary_spec ns query_ix Hok Hne) as (i & n & Hs & Hn & Hg).
  exists i, n. do 3 (split; [done|]). by apply (select_secondary_spec ns i n).
Qed.

(** ** No node is starved *)

Section counting.
Context {A : Type} (P : A -> Prop) {dec : forall x, Decision (P x)}.

Lemma filter_length_mono (l l' : list A) :
  length l = length l' -> (forall j x x', l !! j = Some x -> l' !! j = Some x' -> P x' -> P x) ->
  length (filter P l') <= length (filter P l).
Proof.
  revert l'. induction l as [|a l IH]; intros [|a' l'] Hl Hm; cbn in Hl; try lia.
  specialize (IH l' ltac:(lia) (fun j => Hm (S j))). pose proof (Hm 0 a a' eq_refl eq_refl) as H0.
  rewrite !filter_cons. repeat case_decide; cbn [length]; try lia. tauto.
Qed.

Lemma filter_length_lt (l l' : list A) k a a' :
  length l = length l' -> (forall j x x', l !! j = Some x -> l' !! j = Some x' -> P x' -> P x) ->
  l !! k = Some a -> l' !! k = Some a' -> P a -> ~ P a' ->
  length (filter P l') < length (filter P l).
Proof.
  revert l' k. induction l as [|b l IH]; intros [|b' l'] k Hl Hm Ha Ha' Hp Hn; cbn in Hl; try lia; try done.
  pose proof (Hm 0 b b' eq_refl eq_refl) as H0. rewrite !filter_cons. destruct k as [|k]; cbn in Ha, Ha'.
  - injection Ha as ->. injection Ha' as ->. rewrite (decide_False (P := P a')), (decide_True (P := P a)) by done. cbn [length].
    pose proof (filter_length_mono l l' ltac:(lia) (fun j => Hm (S j))). lia.
  - specialize (IH l' k ltac:(lia) (fun j => Hm (S j)) Ha Ha' Hp Hn). repeat case_decide; cbn [length]; try lia. tauto.
Qed.
End counting.

(** A run of consecutive queries: at time [t] query [q0 + t] selects [pick t] in the
    nodes [ns t]; health and statistics may change in any way between queries. *)
Record selection_run (ns : nat -> list UpstreamNode) (pick : nat -> nat) (q0 : Z) : Prop := mkRun {
  sr_len t : length (ns t) = length (ns 0);
  sr_select t : select_primary_idx (ns t) (q0 + Z.of_nat t) = Ret (Some (pick t));
  sr_step t j n : ns t !! j = Some n -> exists n', ns (S t) !! j = Some n' /\
    last_selected n' = if decide (j = pick t) then (q0 + Z.of_nat t)%Z else last_selected n;
  sr_past j n : ns 0 !! j = Some n -> (0 <= last_selected n <= q0)%Z
}.

Lemma run_past ns pick q0 t j n :
  selection_run ns pick q0 -> (0 <= q0)%Z -> ns t !! j = Some n -> (0 <= last_selected n <= q0 + Z.of_nat t)%Z.
Proof.
  intros Hr Hq. revert n. induction t as [|t IH]; intros n' Hn.
  - apply (sr_past _ _ _ Hr) in Hn. lia.
  - assert (exists n, ns t !! j = Some n) as [n Ht].
    { apply lookup_lt_Some in Hn. apply lookup_lt_is_Some_2. rewrite (sr_len _ _ _ Hr) in *. lia. }
    destruct (sr_step _ _ _ Hr t j n Ht) as (n'' & Hn'' & Hl). rewrite Hn in Hn''. injection Hn'' as <-.
    apply IH in Ht. rewrite Hl. case_decide; lia.
Qed.

(** An overdue node forces the least recently selected one. *)
Lemma run_probe ns pick q0 t i n :
  selection_run ns pick q0 -> (0 <= q0)%Z -> (q0 + Z.of_nat t < 2 ^ 64)%Z -> ns t !! i = Some n ->
  (last_selected n + PROBE_INTERVAL <= q0 + Z.of_nat t)%Z ->
  exists p, ns t !! pick t = Some p /\ (last_selected p <= last_selected n)%Z.
Proof.
  intros Hr Hq Hw Hn Hage. pose proof (sr_select _ _ _ Hr t) as Hs. unfold select_primary_idx in Hs.
  pose proof (min_by_key_spec last_selected 0 (ns t)) as Hmin.
  destruct (min_by_key last_selected 0 (ns t)) as [[j p]|]; [|rewrite Hmin in Hn; by rewrite lookup_nil in Hn].
  destruct Hmin as (_ & Hl & Hmin). rewrite Nat.sub_0_r in Hl.
  pose proof (Hmin n (list_elem_of_lookup_2 _ _ _ Hn)) as Hle.
  pose proof (run_past _ _ _ _ _ _ Hr Hq Hl) as Hp.
  rewrite decide_True in Hs; [injection Hs as <-; by exists p|].
  unfold wrapping_sub, wrap. rewrite Z.mod_small; lia.
Qed.

(** C21: every node is measured again.  In any run of consecutive queries on a pool
    of [m] nodes, whatever the nodes' health does, every node is selected at least
    once within the first [PROBE_INTERVAL + m] queries, so a deprioritised node is
    always re-probed and can recover. *)
Theorem no_node_starves ns pick q0 i :
  selection_run ns pick q0 -> i < length (ns 0) ->
  (0 <= q0)%Z -> (q0 + PROBE_INTERVAL + Z.of_nat (length (ns 0%nat)) < 2 ^ 64)%Z ->
  exists t, t < Z.to_nat PROBE_INTERVAL + length (ns 0) /\ pick t = i.
Proof.
  intros Hr Hi Hq Hw. set (m := length (ns 0)) in *. set (P := Z.to_nat PROBE_INTERVAL).
  destruct (decide (Exists (fun t => pick t = i) (seq 0 (P + m)))) as [He|Hno].
  { apply Exists_exists in He as (t & Ht%elem_of_seq & Hp). exists t. split; [lia|done]. }
  exfalso. assert (Hnp : forall t, t < P + m -> pick t <> i).
  { intros t Ht Hp. apply Hno, Exists_exists. exists t. split; [apply elem_of_seq; lia|done]. }
  destruct (lookup_lt_is_Some_2 (ns 0) i Hi) as [n0 Hn0]. set (L := last_selected n0).
  assert (HL : (0 <= L <= q0)%Z) by (by apply (sr_past _ _ _ Hr i)).
  assert (Hlast : forall t, t <= P + m -> exists n, ns t !! i = Some n /\ last_selected n = L).
  { induction t as [|t IH]; intros Ht; [by exists n0|]. destruct IH as (n & Hn & Hln); [lia|].
    destruct (sr_step _ _ _ Hr t i n Hn) as (n' & Hn' & Hl). exists n'. split; [done|].
    rewrite decide_False in Hl; [congruence|]. intros ?. apply (Hnp t); [lia|done]. }
  set (c := fun t => length (filter (fun n => (last_selected n <= L)%Z) (ns t))).
  assert (Hdec : forall t, P <= t -> t < P + m -> c (S t) < c t).
  { intros t Ht1 Ht2. destruct (Hlast t) as (n & Hn & Hln); [lia|].
    destruct (run_probe ns pick q0 t i n Hr Hq) as (p & Hp & Hple); [unfold P, PROBE_INTERVAL in *; lia|done|unfold P, PROBE_INTERVAL in *; lia|].
    destruct (sr_step _ _ _ Hr t _ p Hp) as (p' & Hp' & Hlp). rewrite decide_True in Hlp by done.
    apply (filter_length_lt _ (ns t) (ns (S t)) (pick t) p p'); [by rewrite (sr_len _ _ _ Hr t), (sr_len _ _ _ Hr (S t))| |done|done|lia|unfold P, PROBE_INTERVAL in *; lia].
    intros j x x' Hx Hx' Hle. destruct (sr_step _ _ _ Hr t j x Hx) as (x'' & Hx'' & Hl).
    rewrite Hx' in Hx''. injection Hx'' as <-. case_decide; unfold P, PROBE_INTERVAL in *; lia. }
  assert (Hbound : forall k, k <= m -> c (P + k) + k <= m).
  { induction k as [|k IH]; intros Hk.
    - rewrite !Nat.add_0_r. unfold c. etransitivity; [apply length_filter|]. by rewrite (sr_len _ _ _ Hr).
    - specialize (IH ltac:(lia)). pose proof (Hdec (P + k) ltac:(lia) ltac:(lia)) as Hd.
      replace (P + S k) with (S (P + k)) by lia. lia. }
  specialize (Hbound m ltac:(lia)). destruct (Hlast (P + m)) as (n & Hn & Hln); [lia|].
  assert (n ∈ filter (fun n => (last_selected n <= L)%Z) (ns (P + m))) as Hin.
  { apply list_elem_of_filter. split; [lia|]. by eapply list_elem_of_lookup_2. }
  assert (Hz : filter (fun n => (last_selected n <= L)%Z) (ns (P + m)) = []).
  { apply nil_length_inv. unfold c in Hbound. lia. }
  rewrite Hz in Hin. by apply not_elem_of_nil in Hin.
Qed.

(** The run that starts in [ns0] when only selections happen. *)
Fixpoint run_of (ns0 : list UpstreamNode) (q0 : Z) (t : nat) : list UpstreamNode :=
  match t with
  | O => ns0
  | S t' =>
      let ns := run_of ns0 q0 t' in
      let q := (q0 + Z.of_nat t')%Z in
      match select_primary_idx ns q with Ret (Some i) => alter (node_select q) i ns | _ => ns end
  end.

Definition run_pick (ns0 : list UpstreamNode) (q0 : Z) (t : nat) : nat :=
  match select_primary_idx (run_of ns0 q0 t) (q0 + Z.of_nat t) with Ret (Some i) => i | _ => 0 end.

Lemma run_of_nodes ns0 q0 t :
  Forall node_ok ns0 -> Forall node_ok (run_of ns0 q0 t) /\ length (run_of ns0 q0 t) = length ns0.
Proof.
  intros Hok. induction t as [|t [IH Hl]]; [done|]. cbn [run_of]. destruct (select_primary_idx _ _) as [[i|]| |]; [|done..].
  rewrite length_alter. split; [|done]. by apply Forall_alter; [|intros n _ Hn].
Qed.

Lemma run_of_selection ns0 q0 :
  Forall node_ok ns0 -> ns0 <> [] -> Forall (fun n => (0 <= last_selected n <= q0)%Z) ns0 ->
  selection_run (run_of ns0 q0) (run_pick ns0 q0) q0.
Proof.
  intros Hok Hne Hp. assert (Hsel : forall t, exists i, select_primary_idx (run_of ns0 q0 t) (q0 + Z.of_nat t) = Ret (Some i)).
  { intros t. destruct (run_of_nodes ns0 q0 t Hok) as [Ht Hl].
    destruct (select_primary_spec _ (q0 + Z.of_nat t) Ht) as (i & n & Hs & _); [|by exists i].
    intros H0. rewrite H0 in Hl. by destruct ns0. }
  split.
  - intros t. cbn [run_of]. by apply run_of_nodes.
  - intros t. unfold run_pick. destruct (Hsel t) as [i ->]. done.
  - intros t j n Hn. unfold run_pick. cbn [run_of]. destruct (Hsel t) as [i ->]. case_decide as Hj.
    + subst. exists (node_select (q0 + Z.of_nat t) n). by rewrite list_lookup_alter_eq, Hn.
    + exists n. by rewrite list_lookup_alter_ne by done.
  - intros j n Hn. by apply (Forall_lookup_1 _ _ _ _ Hp Hn).
Qed.

Definition demo_slow : UpstreamNode := mkNode (mkHealth 900000 3 8 8) stats_new 0 TUdp 0.
Definition demo_fast : UpstreamNode := mkNode (mkHealth 1500 0 8 8) stats_new 0 TTcp 0.

Lemma demo_nodes_ok : Forall node_ok [demo_fast; demo_slow].
Proof.
  repeat constructor; cbn [demo_fast demo_slow health stats ewma_rtt_us consecutive_failures max_inflight
    concurrency_window active_inflight stats_new]; unfold U64_MAX; try (by unfold u_ok); lia.
Qed.

Lemma select_primary_witness :
  exists i n, select_primary_idx [demo_fast; demo_slow] 7 = Ret (Some i) /\ [demo_fast; demo_slow] !! i = Some n /\
    good_primary [demo_fast; demo_slow] 7 n /\
    match select_secondary_idx [demo_fast; demo_slow] i with
    | Some j => j <> i /\ exists m, [demo_fast; demo_slow] !! j = Some m /\
        forall k b, k <> i -> [demo_fast; demo_slow] !! k = Some b -> (selection_score m <= selection_score b)%Z
    | None => length [demo_fast; demo_slow] = 1
    end.
Proof. apply (select_primary_correct [demo_fast; demo_slow] 7); [apply demo_nodes_ok|done]. Defined.

(** The slow node, which the band alone would never choose, is tried again. *)
Lemma no_node_starves_witness :
  exists t, t < Z.to_nat PROBE_INTERVAL + 2 /\ run_pick [demo_fast; demo_slow] 0 t = 1.
Proof.
  apply (no_node_starves (run_of [demo_fast; demo_slow] 0) (run_pick [demo_fast; demo_slow] 0) 0 1).
  - apply run_of_selection; [apply demo_nodes_ok|done|]. by repeat constructor.
  - cbn. lia.
  - lia.
  - reflexivity.
Defined.

(** ** Hedged exchanges *)

(** Whether the hedge timer fires for primary [i] within the budget, and whether there
    is then a second upstream to race. *)
Definition hedge_started (p : UpstreamPool) (i : nat) (pa : attempt) : bool :=
  match hedge_delay_cfg p, nodes p !! i with
  | Some cfg, Some n =>
      bool_decide (hedge_delay n cfg < at_rtt pa)%Z &&
      bool_decide (active_hedges p < Z.max (Z.of_nat (length (nodes p))) 4)%Z
  | _, _ => false
  end.

Definition hedges (p : UpstreamPool) (i : nat) (pa : attempt) : bool :=
  hedge_started p i pa && bool_decide (length (nodes p) <> 1).

(** The contract: a success of either raced upstream wins, and the error reported is
    the primary's. *)
Definition exchange_result (p : UpstreamPool) (i : nat) (pa sa : attempt) : result pool_error (list Z) -> Prop :=
  fun r => match r with
  | Ok pkt => at_result pa = Ok pkt \/ (hedges p i pa = true /\ at_result sa = Ok pkt)
  | Err e => exists t, e = NodeError t /\ at_result pa = Err t /\
      (hedges p i pa = true -> exists t', at_result sa = Err t')
  end.

Definition rtt_ok (a : attempt) : Prop := (0 <= at_rtt a <= U64_MAX)%Z.

Lemma node_end_inflight a n : active_inflight (stats (node_end a n)) = (active_inflight (stats n) - 1)%Z.
Proof. unfold node_end. destruct (at_result a) as [?|[]]; cbn; lia. Qed.

Lemma node_end_health a n : rtt_ok a -> health_ok (health n) -> health_ok (health (node_end a n)).
Proof.
  intros Hr Hh. unfold node_end. destruct (at_result a) as [?|t]; cbn [health].
  - by apply record_success_ok.
  - by apply record_failure_ok.
Qed.

Definition inflights (l : list UpstreamNode) : list Z := (fun n => active_inflight (stats n)) <$> l.
Definition bump (d : Z) (i : nat) (l : list Z) : list Z := alter (fun z => (z + d)%Z) i l.

Lemma inflights_alter f d i (l : list UpstreamNode) :
  (forall n, active_inflight (stats (f n)) = (active_inflight (stats n) + d)%Z) ->
  inflights (alter f i l) = bump d i (inflights l).
Proof.
  intros Hf. unfold inflights, bump. apply list_eq. intros j.
  rewrite list_lookup_fmap, !list_lookup_alter, !list_lookup_fmap.
  case_decide; [|done]. destruct (l !! i); cbn; [by rewrite Hf|done].
Qed.

Lemma inflights_begin i l : inflights (alter node_begin i l) = bump 1 i (inflights l).
Proof. by apply inflights_alter. Qed.
Lemma inflights_end a i l : inflights (alter (node_end a) i l) = bump (-1) i (inflights l).
Proof. apply inflights_alter. intros n. rewrite node_end_inflight. lia. Qed.
Lemma inflights_cancel i l : inflights (alter node_cancel i l) = bump (-1) i (inflights l).
Proof. by apply inflights_alter. Qed.
Lemma inflights_select q i l : inflights (alter (node_select q) i l) = bump 0 i (inflights l).
Proof. apply inflights_alter. intros n. cbn. lia. Qed.
Create Rewrite HintDb inflight.
#[local] Hint Rewrite inflights_begin inflights_end inflights_cancel inflights_select : inflight.

Lemma healthy_alter f i (l : list UpstreamNode) :
  (forall n, health_ok (health n) -> health_ok (health (f n))) ->
  Forall (fun n => health_ok (health n)) l -> Forall (fun n => health_ok (health n)) (alter f i l).
Proof. intros Hf Hl. apply Forall_alter; [done|]. intros n _. apply Hf. Qed.

Ltac solve_bumps :=
  autorewrite with inflight; unfold bump; apply list_eq; intros ?; rewrite !list_lookup_alter;
  repeat case_decide; subst; try done; destruct (inflights _ !! _); cbn; f_equal; lia.

Ltac solve_healthy :=
  repeat (apply healthy_alter; [intros ? ?; try done; by apply node_end_health|]); done.

(** One way an exchange ends: name the result and the pool, then check the contract. *)
Ltac settle :=
  eexists _, _; split; [reflexivity|]; split; [reflexivity|];
  cbn [nodes next hedge_delay_cfg active_hedges hedged_queries andb];
  split; [unfold attempt_result; repeat case_match; naive_solver|];
  split; [solve_bumps|]; split; [lia|]; split; [solve_healthy|done].

(** C12: one query on a pool.  For every pool of nodes with reachable health, and
    whatever the two transports do, the exchange never panics; the answer is a
    success of the primary, or of the hedge partner when the race was started, and
    an error only when every upstream tried failed (the primary's error then).  The
    race starts only when the primary is slower than its hedge delay, the hedge
    budget is not exhausted and there is a second node.  Afterwards the in-flight
    count of every node and the count of active hedges are what they were, health
    is still within its bounds, and the query index has advanced. *)
Theorem exchange_observed_correct p pa sa tie :
  Forall node_ok (nodes p) -> nodes p <> [] -> rtt_ok pa -> rtt_ok sa ->
  exists i r p', select_primary_idx (nodes p) (next p) = Ret (Some i) /\
    exchange_observed p pa sa tie = Ret (r, p') /\
    exchange_result p i pa sa r /\
    inflights (nodes p') = inflights (nodes p) /\ active_hedges p' = active_hedges p /\
    Forall (fun n => health_ok (health n)) (nodes p') /\ next p' = wrap 64 (next p + 1) /\
    hedged_queries p' = (if hedge_started p i pa then Z.add 1 <$> hedged_queries p else hedged_queries p).
Proof.
  intros Hok Hne Hpa Hsa. destruct (select_primary_spec _ (next p) Hok Hne) as (i & n & Hs & Hn & _). exists i.
  assert (Hh : Forall (fun n => health_ok (health n)) (nodes p)) by (eapply Forall_impl; [done|]; by intros ? []).
  unfold exchange_observed, exchange_result, hedges, hedge_started. rewrite Hn.
  destruct p as [ns nx cfg act hq]. cbn [nodes next hedge_delay_cfg active_hedges hedged_queries] in *.
  destruct ns as [|n0 ns0] eqn:Ens; [done|]. rewrite <- Ens in *. clear Ens n0 ns0. rewrite Hs. cbn [obind].
  unfold idx. rewrite Hn. cbn [obind].
  unfold with_nodes, with_hedges. cbn [nodes next hedge_delay_cfg active_hedges hedged_queries].
  rewrite !length_alter.
  destruct cfg as [cfg|]; [|settle]. destruct (decide (at_rtt pa <= hedge_delay n cfg)%Z) as [Hd|Hd].
  { rewrite (bool_decide_false (hedge_delay n cfg < _)%Z) by lia. settle. }
  rewrite (bool_decide_true (hedge_delay n cfg < _)%Z) by lia. destruct (decide (Z.of_nat (length ns) `max` 4 <= act)%Z) as [Hb|Hb].
  { rewrite (bool_decide_false (act < _)%Z) by lia. settle. }
  rewrite (bool_decide_true (act < _)%Z) by lia.
  pose proof (select_secondary_spec (alter node_begin i (alter (node_select nx) i ns)) i
    (node_begin (node_select nx n)) ltac:(by rewrite !list_lookup_alter_eq, Hn)) as Hsec.
  rewrite !length_alter in Hsec. destruct (select_secondary_idx _ i) as [j|].
  - assert (length ns <> 1) as Hl.
    { destruct Hsec as (Hj & m & Hm & _). apply lookup_lt_Some in Hm, Hn. rewrite !length_alter in Hm. lia. }
    rewrite (bool_decide_true (length ns <> 1)) by done.
    destruct (_ || _), (at_result pa) as [?|] eqn:Epa, (at_result sa) as [?|] eqn:Esa; settle.
  - rewrite (bool_decide_false (length ns <> 1)) by lia. settle.
Qed.

Definition demo_pool : UpstreamPool := mkPool [demo_fast; demo_slow] 5 (Some 20000%Z) 0 (Some 0%Z).

Lemma exchange_observed_witness :
  exists i r p', select_primary_idx (nodes demo_pool) (next demo_pool) = Ret (Some i) /\
    exchange_observed demo_pool (mkAttempt (Err true) 5000000) (mkAttempt (Ok [1; 2]%Z) 3000) true = Ret (r, p') /\
    exchange_result demo_pool i (mkAttempt (Err true) 5000000) (mkAttempt (Ok [1; 2]%Z) 3000) r /\
    inflights (nodes p') = inflights (nodes demo_pool) /\ active_hedges p' = active_hedges demo_pool /\
    Forall (fun n => health_ok (health n)) (nodes p') /\ next p' = wrap 64 (next demo_pool + 1) /\
    hedged_queries p' = (if hedge_started demo_pool i (mkAttempt (Err true) 5000000)
                         then Z.add 1 <$> hedged_queries demo_pool else hedged_queries demo_pool).
Proof.
  apply (exchange_observed_correct demo_pool (mkAttempt (Err true) 5000000) (mkAttempt (Ok [1; 2]%Z) 3000) true);
    [apply demo_nodes_ok|done|by unfold rtt_ok..].
Defined.

(** ** Health over time *)

Inductive health_event := HSuccess (rtt_us : Z) | HFailure (is_timeout : bool).

Definition health_step (h : HealthStats) (e : health_event) : HealthStats :=
  match e with HSuccess rtt => record_success h rtt | HFailure t => record_failure h t end.

Definition health_event_ok (e : health_event) : Prop :=
  match e with HSuccess rtt => (0 <= rtt <= U64_MAX)%Z | HFailure _ => True end.

(** C39: the health record over any sequence of exchange outcomes.  Whatever successes and
    failures a node has seen since it was created, its RTT estimate fits the counter,
    the AIMD window stays between 1 and the configured limit (and is inert without
    one).  A further failure leaves an estimate between 50 ms and 10 s; the first
    success after a failure replaces the estimate by the measured RTT; every other
    success moves it one quarter of the way, without wrapping. *)
Theorem health_reachable m es :
  (0 <= m <= U64_MAX)%Z -> Forall health_event_ok es ->
  let h := foldl health_step (health_new m) es in
  health_ok h /\ max_inflight h = m /\
  (forall t, FAILURE_RTT_FLOOR_US <= ewma_rtt_us (record_failure h t) <= FAILURE_RTT_CAP_US)%Z /\
  (forall rtt, (0 <= rtt <= U64_MAX)%Z ->
     ewma_rtt_us (record_success h rtt) =
       if decide (ewma_rtt_us h = 0 \/ consecutive_failures h <> 0)%Z then rtt
       else (ewma_rtt_us h - ewma_rtt_us h / 4 + rtt / 4)%Z).
Proof.
  intros Hm Hes. cbv zeta.
  assert (Hh : health_ok (foldl health_step (health_new m) es) /\ max_inflight (foldl health_step (health_new m) es) = m).
  { assert (Hinv : health_ok (health_new m) /\ max_inflight (health_new m) = m) by (split; [by apply health_new_ok|done]).
    revert Hinv. generalize (health_new m). induction Hes as [|e es He _ IH]; intros h [Hh Hmx]; [done|].
    cbn [foldl]. apply IH. destruct e; cbn [health_step health_event_ok] in *; (split; [|done]);
      [by apply record_success_ok|by apply record_failure_ok]. }
  destruct Hh as [Hh Hmx]. generalize dependent (foldl health_step (health_new m) es). intros h Hh Hmx.
  split; [done|]. split; [done|]. split.
  - intros t. cbn [record_failure ewma_rtt_us]. unfold FAILURE_RTT_FLOOR_US, FAILURE_RTT_CAP_US. lia.
  - intros rtt Hr. destruct Hh as (He & _). cbn [record_success ewma_rtt_us]. case_decide as Hc.
    + destruct Hc as [H0|H0]; [by rewrite (bool_decide_true (_ = 0)%Z)|].
      by rewrite (bool_decide_true (_ <> 0)%Z), orb_true_r.
    + rewrite !bool_decide_false by tauto. cbn [orb]. by apply ewma_step.
Qed.

Lemma health_reachable_witness :
  let h := foldl health_step (health_new 16) [HSuccess 8000; HFailure true; HSuccess 4000; HSuccess 12000] in
  health_ok h /\ max_inflight h = 16%Z /\ ewma_rtt_us h = 6000%Z /\ concurrency_window h = 10%Z.
Proof.
  destruct (health_reachable 16 [HSuccess 8000; HFailure true; HSuccess 4000; HSuccess 12000]) as (H1 & H2 & _);
    [by unfold U64_MAX|repeat constructor; unfold U64_MAX; lia|].
  split; [exact H1|]. split; [exact H2|]. by vm_compute.
Defined.
