(* ===== verification/UpstreamWire.v ===== *)
(** * The packets of an upstream exchange

    What [prepare_query] sends (src/src/upstream/mod.rs) and which responses
    [finalize_response] hands back to the client, for every packet. *)

From S2P Require Import Prelude Hasher DnsName DnsQuery DnsQname DnsRecords DnsEdns Ecs DnsMessage Inflight Upstream.

(** ** Rewriting the client subnet *)

Lemma inject_loop_spec fuel r pos acc :
  0 < fuel -> length r < fuel + pos ->
  exists o, inject_loop fuel r pos acc = Ret o /\
    forall new, o = Some new -> bytes_ok r -> bytes_ok acc -> bytes_ok new.
Proof.
  revert pos acc. induction fuel as [|fuel IH]; intros pos acc H0 Hf; cbn [inject_loop]; [lia|].
  case_decide; [|eexists; split; [done|]; by intros ? <-%(inj Some)]. in_range.
  case_decide; [by eexists|]. case_decide.
  - in_range. set (opt := take _ _). destruct (IH (pos + 4 + Z.to_nat (be16 r (pos + 2))) (acc ++ opt))
      as (o & -> & Ho); [lia..|].
    exists o. split; [done|]. intros new -> Hr Ha. eapply Ho; [done..|]. apply Forall_app; split; [done|].
    by apply Forall_take, Forall_drop.
  - cbn [obind]. apply IH; lia.
Qed.

Definition mode_ok (m : EcsMode) : Prop :=
  match m with EcsFixed s => subnet_ok s | _ => True end.

(** Bytes of [p] that no rewriting of the subnet touches: the header up to ARCOUNT and
    the question. *)
Definition same_question (qe : nat) (p p' : list Z) : Prop :=
  qe <= length p' /\ forall j, j < 10 \/ 12 <= j < qe -> p' !! j = p !! j.

Lemma encode_opt_bytes o : bytes_ok (snd o) -> bytes_ok (encode_opt o).
Proof.
  intros Ho. unfold encode_opt. apply Forall_app; split; [apply to_be_ok|]. apply Forall_app; split; [apply to_be_ok|done].
Qed.

Lemma inject_or_replace_ecs_spec p s qe :
  bytes_ok p -> subnet_ok s -> be16 p 4 = 1%Z -> question_end p = Ret (Some qe) ->
  exists o, inject_or_replace_ecs p s = Ret o /\
    forall p', o = Some p' -> bytes_ok p' /\ same_question qe p p'.
Proof.
  intros Hp Hs Hqd Hqe. pose proof (question_end_bounds _ _ Hqe) as Hb.
  assert (Hsd : bytes_ok (encode_opt (ECS_OPTION_CODE, subnet_data s))).
  { apply encode_opt_bytes. by apply subnet_data_ok. }
  unfold inject_or_replace_ecs. rewrite decide_False by lia. rewrite (encode_ecs_option_eq s Hs). cbn [obind]. in_range.
  set (e := encode_opt _) in *. destruct (locate_opt_total p) as [[[loc|]|] Hl]; rewrite Hl; cbn [obind_opt]; [| |by eexists].
  - pose proof (locate_opt_bounds _ _ Hl) as Hlb. pose proof (locate_opt_after_question _ _ _ Hqd Hqe Hl) as Hla. in_range.
    set (r := take _ _). destruct (inject_loop_spec (S (length r)) r 0 []) as (o & -> & Ho); [lia..|].
    destruct o as [new|]; cbn [obind_opt]; [|by eexists].
    assert (bytes_ok (new ++ e)) as Hne.
    { apply Forall_app; split; [|done]. eapply Ho; [done| |apply Forall_nil; exact I]. by apply Forall_take, Forall_drop. }
    destruct (rebuild_opt_spec p (rdata_start loc) (rdata_end loc) (new ++ e)) as (p' & -> & H1 & H2 & H3); [lia..|done|].
    cbn [obind]. eexists. split; [done|]. intros ? <-%(inj Some). split; [by apply H3|]. split; [lia|]. intros j Hj.
    rewrite <- (lookup_take_lt p' (rdata_start loc - 2)), H2, lookup_take_lt by lia. done.
  - rewrite store_Ret by len. cbn [obind]. rewrite store_Ret by len. cbn [obind]. eexists. split; [done|].
    intros ? <-%(inj Some). split.
    + apply Forall_insert; [apply Forall_insert|]; [|apply wrap16_bytes..].
      do 5 (apply Forall_app; split; [first [done|apply to_be_ok|bytes]|]). apply Forall_app; split; [apply to_be_ok|done].
    + split; [len|]. intros j Hj. rewrite !list_lookup_insert_ne by lia. rewrite lookup_app_l by lia. done.
Qed.

Lemma strip_same_question p p' qe :
  bytes_ok p -> be16 p 4 = 1%Z -> question_end p = Ret (Some qe) -> strip_edns_ecs p = Ret (Some p') ->
  bytes_ok p' /\ same_question qe p p'.
Proof.
  intros Hp Hqd Hqe Hs. destruct (strip_edns_ecs_spec p) as (o & Ho & Hsp). rewrite Hs in Ho. apply (inj Ret) in Ho.
  destruct (Hsp p' (eq_sym Ho) Hp) as [Hp' Hq]. destruct (Hq qe Hqd Hqe) as [Hl Ht].
  split; [done|]. split; [done|]. intros j Hj. pose proof (question_end_bounds _ _ Hqe).
  rewrite <- (lookup_take_lt p' qe), Ht, lookup_take_lt by lia. done.
Qed.

Lemma apply_ecs_mode_spec p m qe :
  bytes_ok p -> mode_ok m -> be16 p 4 = 1%Z -> question_end p = Ret (Some qe) ->
  exists p', apply_ecs_mode p m = Ret p' /\ bytes_ok p' /\ same_question qe p p'.
Proof.
  intros Hp Hm Hqd Hqe. assert (Hself : bytes_ok p /\ same_question qe p p).
  { split; [done|]. split; [|done]. apply question_end_bounds in Hqe. lia. }
  destruct m as [| |s]; cbn [apply_ecs_mode mode_ok] in *; [|by exists p|].
  - destruct (strip_edns_ecs_spec p) as (o & Hs & _). rewrite Hs. cbn [obind]. eexists. split; [done|].
    destruct o as [p'|]; cbn [default]; [|done]. by apply strip_same_question.
  - destruct (inject_or_replace_ecs_spec p s qe) as (o & -> & Ho); [done..|]. cbn [obind]. eexists. split; [done|].
    destruct o as [p'|]; [|done]. by apply Ho.
Qed.

(** ** The question survives *)

Lemma question_end_local p p' qe :
  bytes_ok p -> bytes_ok p' -> question_end p = Ret (Some qe) ->
  qe <= length p' -> (forall j, 12 <= j < qe -> p' !! j = p !! j) ->
  question_end p' = Ret (Some qe).
Proof.
  intros Hp Hp' Hq Hl Hj. revert Hq. unfold question_end. case_decide; [done|]. intros Hq.
  apply obind_opt_Some_inv in Hq as (e & He & Hq). revert Hq. case_decide; [done|]. intros [= <-].
  rewrite decide_False by (apply skip_name_bounds in He; lia).
  apply skip_name_spec in He; [|done]. apply (wire_name_local p p') in He; [|intros; apply Hj; lia].
  apply skip_name_spec in He; [|done]. rewrite He. cbn [obind_opt]. by rewrite decide_False by lia.
Qed.

(** The question bytes a client's packet carries ([packet.slice(12..end)]). *)
Definition question_bytes (p : list Z) (qe : nat) : list Z := take (qe - 12) (drop 12 p).

Lemma question_bytes_local p p' qe :
  qe <= length p -> qe <= length p' -> (forall j, 12 <= j < qe -> p' !! j = p !! j) -> question_bytes p' qe = question_bytes p qe.
Proof.
  intros Hl Hl' Hj. unfold question_bytes. apply take_eq_lookup. intros j Hlt. rewrite !lookup_drop. apply Hj. lia.
Qed.

Lemma prepare_query_spec p m uid qe :
  bytes_ok p -> mode_ok m -> be16 p 4 = 1%Z -> question_end p = Ret (Some qe) -> u_ok 16 uid ->
  exists out, prepare_query p m uid = Ret (Ok out) /\ bytes_ok out /\
    get_id out = Ret (Ok uid) /\ (forall j, 2 <= j < 10 -> out !! j = p !! j) /\
    question_end out = Ret (Some qe) /\ question_bytes out qe = question_bytes p qe.
Proof.
  intros Hp Hm Hqd Hqe Hu. destruct (apply_ecs_mode_spec p m qe Hp Hm Hqd Hqe) as (p' & Ha & Hp' & Hl & Hj).
  pose proof (question_end_bounds _ _ Hqe). unfold prepare_query. rewrite Ha. cbn [obind]. rewrite set_id_eq by lia.
  set (out := to_be 2 uid ++ drop 2 p').
  assert (Hout : forall j, 2 <= j -> out !! j = p' !! j).
  { intros j Hj2. unfold out. rewrite lookup_app_r by len. rewrite lookup_drop. f_equal. len. }
  assert (Hlo : length out = length p') by (unfold out; len).
  assert (Hbo : bytes_ok out) by (apply Forall_app; split; [apply to_be_ok|by apply Forall_drop]).
  exists out. split; [done|]. split; [done|]. split.
  { rewrite get_id_eq by lia. unfold out. pose proof (be16_app [] uid (drop 2 p') Hu) as Hb0. cbn [app length] in Hb0. by rewrite Hb0. }
  split; [intros j ?; rewrite Hout by lia; apply Hj; lia|].
  split; [apply (question_end_local p)|apply question_bytes_local]; try done; try lia; intros j ?;
    rewrite Hout by lia; apply Hj; lia.
Qed.

(** What an upstream is sent.  For every packet with one readable question and
    every ECS mode, [prepare_query] succeeds without panicking: the query carries the
    upstream's ID, the flags and counts of the client's query (ARCOUNT aside) and its
    question unchanged, at the same place, and holds only bytes. *)
Theorem prepare_query_correct p m uid qe :
  bytes_ok p -> mode_ok m -> be16 p 4 = 1%Z -> question_end p = Ret (Some qe) -> u_ok 16 uid ->
  exists out, prepare_query p m uid = Ret (Ok out) /\ bytes_ok out /\
    get_id out = Ret (Ok uid) /\ (forall j, 2 <= j < 10 -> out !! j = p !! j) /\
    question_end out = Ret (Some qe) /\ question_bytes out qe = question_bytes p qe.
Proof. apply prepare_query_spec. Qed.

(** ** Responses *)

(** What a response must be to reach the client. *)
Definition accepts (resp : list Z) (upstream_id : Z) (question : list Z) : Prop :=
  12 <= length resp /\ Z.land (nthb resp 2) 0x80 <> 0%Z /\ be16 resp 0 = upstream_id /\
  exists qe, question_end resp = Ret (Some qe) /\ questions_match (question_bytes resp qe) question = Ret true.

Lemma validate_upstream_response_spec resp uid q :
  exists r, validate_upstream_response resp uid q = Ret r /\ (r = Ok tt <-> accepts resp uid q).
Proof.
  unfold validate_upstream_response, accepts. rewrite is_reply_eq. cbn [obind].
  case_bool_decide as Hr; cbn [negb]; [|eexists; split; [done|]; split; [done|tauto]].
  destruct Hr as [Hl Hqr]. rewrite get_id_eq by lia. cbn [obind].
  case_decide as Hid; [eexists; split; [done|]; split; [done|]; naive_solver|].
  assert (be16 resp 0 = uid) as Hid' by congruence.
  destruct (question_end_total resp) as [o Ho]. rewrite Ho. cbn [obind].
  set (rq := default [] _). destruct (questions_match_total rq q) as [m Hm]. rewrite Hm. cbn [obind].
  eexists. split; [done|]. destruct o as [qe|].
  - assert (rq = question_bytes resp qe) as Hrq.
    { pose proof (question_end_bounds _ _ Ho). unfold rq, question_bytes. cbn. unfold get_slice.
      by rewrite decide_True by lia. }
    rewrite Hrq in Hm. destruct m; split; intros H; try done.
    + split_and!; try done. by exists qe.
    + destruct H as (_ & _ & _ & qe' & Hq & Hm'). injection Hq as <-. by rewrite Hm in Hm'.
  - assert (rq = []) as Hrq by done. rewrite Hrq in Hm. revert Hm. unfold questions_match.
    rewrite decide_True by (right; cbn; lia). intros [= <-]. split; [done|]. by intros (_ & _ & _ & qe' & Hq & _).
Qed.

(** Only a validated response reaches the client.  For every byte string, question
    and pair of IDs [finalize_response] returns without panicking; it succeeds exactly
    when the bytes are a reply with the upstream's ID whose question matches the one
    asked, and the result is then the response with the client's ID and no other
    byte changed. *)
Theorem finalize_response_correct resp uid q cid :
  exists r, finalize_response resp uid q cid = Ret r /\
    forall out, r = Ok out <-> accepts resp uid q /\ out = to_be 2 cid ++ drop 2 resp.
Proof.
  destruct (validate_upstream_response_spec resp uid q) as (v & Hv & Hacc). unfold finalize_response. rewrite Hv.
  cbn [obind]. destruct v as [[]|e].
  - assert (accepts resp uid q) as Ha by (by apply Hacc). rewrite set_id_eq by (destruct Ha; lia). cbn [obind].
    eexists. split; [done|]. intros out. split; [|by intros [_ ->]]. intros Hx. split; [done|]. congruence.
  - eexists. split; [done|]. intros out. split; [done|]. intros [Ha _]. by apply Hacc in Ha.
Qed.


(** ** A concrete exchange *)

(** "ex.c", type A, asked with an EDNS record that carries a client subnet. *)
Definition demo_query : list Z :=
  [0x12; 0x34; 1; 0; 0; 1; 0; 0; 0; 0; 0; 1; 2; 101; 120; 1; 99; 0; 0; 1; 0; 1;
   0; 0; 41; 16; 0; 0; 0; 0; 0; 0; 11; 0; 8; 0; 7; 0; 1; 24; 0; 192; 0; 2]%Z.

Lemma prepare_query_witness :
  exists out, prepare_query demo_query EcsStrip 0xbeef = Ret (Ok out) /\ bytes_ok out /\
    get_id out = Ret (Ok 0xbeef%Z) /\ (forall j, 2 <= j < 10 -> out !! j = demo_query !! j) /\
    question_end out = Ret (Some 22) /\ question_bytes out 22 = question_bytes demo_query 22.
Proof.
  apply (prepare_query_correct demo_query EcsStrip 0xbeef 22);
    [apply bytes_check; by vm_compute|exact I|by vm_compute|by vm_compute|by unfold u_ok].
Defined.

(** A reply whose QR bit is set and whose name differs in case only is handed on. *)
Example finalize_demo :
  finalize_response [0xbe; 0xef; 0x81; 0x80; 0; 1; 0; 0; 0; 0; 0; 0; 2; 69; 120; 1; 67; 0; 0; 1; 0; 1]%Z
    0xbeef (question_bytes demo_query 22) 0x1234
  = Ret (Ok [0x12; 0x34; 0x81; 0x80; 0; 1; 0; 0; 0; 0; 0; 0; 2; 69; 120; 1; 67; 0; 0; 1; 0; 1]%Z).
Proof. by vm_compute. Qed.
