(* ===== verification/UpstreamUrl.v ===== *)
(** * Upstream URLs

    [src/config/upstream_url.rs] with the address helpers of [src/config/parse.rs] and
    the one-shot resolution of [src/config/bootstrap.rs]: from the text of an upstream to
    its endpoint.  The network is a parameter: what a server answers to a query. *)

From stdpp Require Import strings.
From S2P Require Import Prelude Hasher DnsName DnsQuery Utf8 DnsQname DnsRecords DnsEdns Ecs DnsBuilder CacheMap Cache IpRange RustStr Domain IpParse Ruleset RouteIndex Router Upstream.

(** ** Types *)

Inductive UpstreamProto := PUdp | PTcp | PTls | PHttps | PQuic | PH3.

#[export] Instance UpstreamProto_eq_dec : EqDecision UpstreamProto.
Proof. solve_decision. Defined.

Record SocketAddr := mkSock { sa_ip : IpAddr; sa_port : Z }.

Record UpstreamEndpoint := mkEndpoint {
  ep_proto : UpstreamProto;
  ep_addr : SocketAddr;
  ep_server_name : option (list Z);
  ep_path : option (list Z);
  ep_no_sni : bool;
  ep_ecs_mode : option EcsMode;
  ep_mark : option Z
}.

Record BootstrapTarget := mkTarget { bt_addr : SocketAddr; bt_mark : option Z }.

(** The error sites of the URL code. *)
Inductive url_error :=
| NoUpstream | EmptyUpstream | HashSyntax | AtSyntax | UnknownScheme | UnknownParam | BadEcs | BadMark | NoSniNotTls | SniNotTls
| MissingHost | BadAuthority | UnbracketedV6 | HostNeedsBootstrap | BootstrapFailed | PathNotHttps | BadRcode | RcodeRange
| BadTtl | TtlRange | MalformedAnswer | BadAnswerAddr | UnknownAnswerScheme.

(** ** Schemes *)

Definition default_port (p : UpstreamProto) : Z :=
  match p with PUdp | PTcp => 53 | PTls | PQuic => 853 | PHttps | PH3 => 443 end%Z.

Definition uses_tls_name (p : UpstreamProto) : bool :=
  match p with PTls | PHttps | PQuic | PH3 => true | _ => false end.

Definition parse_upstream_scheme (scheme : list Z) : result url_error UpstreamProto :=
  let s := lower_label scheme in
  if decide (s = lit "udp") then Ok PUdp
  else if decide (s = lit "tcp") then Ok PTcp
  else if decide (s = lit "tls") then Ok PTls
  else if decide (s = lit "https") then Ok PHttps
  else if decide (s = lit "quic") then Ok PQuic
  else if decide (s = lit "h3") then Ok PH3
  else Err UnknownScheme.

Definition split_upstream_path (rest : list Z) : result url_error (list Z * option (list Z)) :=
  let '(authority, path) := match split_once 47 rest with
                            | Some (a, p) => (a, Some (if decide (p = []) then lit "/" else drop (length a) rest))
                            | None => (rest, None)
                            end in
  if decide (authority = []) then Err MissingHost else Ok (authority, path).

(** ** Parameters *)

Record UpstreamQueryParams := mkParams {
  qp_no_sni : bool;
  qp_sni : option (list Z);
  qp_ecs : option (list Z);
  qp_bootstrap : option (list Z);
  qp_mark : option (list Z)
}.

(** One parameter. *)
Definition query_step (p : UpstreamQueryParams) (param : list Z) : result url_error UpstreamQueryParams :=
  if decide (param = lit "no-sni") then Ok (mkParams true (qp_sni p) (qp_ecs p) (qp_bootstrap p) (qp_mark p))
  else match strip_prefix (lit "sni=") param with
  | Some v => Ok (mkParams (qp_no_sni p) (Some v) (qp_ecs p) (qp_bootstrap p) (qp_mark p))
  | None =>
  match strip_prefix (lit "ecs=") param with
  | Some v => Ok (mkParams (qp_no_sni p) (qp_sni p) (Some v) (qp_bootstrap p) (qp_mark p))
  | None =>
  match strip_prefix (lit "bootstrap=") param with
  | Some v => Ok (mkParams (qp_no_sni p) (qp_sni p) (qp_ecs p) (Some v) (qp_mark p))
  | None =>
  match strip_prefix (lit "mark=") param with
  | Some v => Ok (mkParams (qp_no_sni p) (qp_sni p) (qp_ecs p) (qp_bootstrap p) (Some v))
  | None => Err UnknownParam
  end end end end.

Fixpoint query_loop (params : list (list Z)) (p : UpstreamQueryParams) : result url_error UpstreamQueryParams :=
  match params with
  | [] => Ok p
  | param :: params => match query_step p param with Ok p => query_loop params p | Err e => Err e end
  end.

Definition parse_upstream_query (query : list Z) : result url_error UpstreamQueryParams :=
  query_loop (filter (fun p => p <> []) (str_split 38 query)) (mkParams false None None None None).

(** [u32::from_str_radix(s, 16)]: an optional plus sign, at least one digit, no overflow. *)
Fixpoint hex_digits (acc : Z) (s : list Z) : option Z :=
  match s with
  | [] => Some acc
  | c :: s =>
      match to_digit 16 c with
      | Some d => let acc := (acc * 16 + d)%Z in if decide (acc < 2 ^ 32)%Z then hex_digits acc s else None
      | None => None
      end
  end.

Definition parse_hex32 (s : list Z) : option Z :=
  match s with
  | [] => None
  | [43%Z] => None
  | 43%Z :: s' => hex_digits 0 s'
  | _ => hex_digits 0 s
  end.

Definition parse_fwmark (s : list Z) : result url_error Z :=
  let s := trim s in
  let parsed := match (match strip_prefix (lit "0x") s with Some h => Some h | None => strip_prefix (lit "0X") s end) with
                | Some h => parse_hex32 h
                | None => parse_uint 32 s
                end in
  match parsed with Some m => Ok m | None => Err BadMark end.

Definition max_prefix (ip : IpAddr) : Z := match ip with V4 _ => 32 | V6 _ => 128 end.

Definition parse_ecs_subnet (s : list Z) : result url_error EcsSubnet :=
  match split_once 47 s with
  | Some (a, p) =>
      match parse_ip a, parse_uint 8 p with
      | Some ip, Some n => if decide (max_prefix ip < n)%Z then Err BadEcs else Ok (mkEcsSubnet ip n)
      | _, _ => Err BadEcs
      end
  | None => match parse_ip s with Some ip => Ok (mkEcsSubnet ip (max_prefix ip)) | None => Err BadEcs end
  end.

(** ** Authorities *)

Definition count_colons (s : list Z) : nat := length (filter (fun b => b = COLON) s).

Definition LBRACKET : Z := 91.
Definition RBRACKET : Z := 93.

Definition authority_host (authority : list Z) : result url_error (list Z) :=
  match strip_prefix [LBRACKET] authority with
  | Some rest =>
      match split_once RBRACKET rest with
      | None => Err BadAuthority
      | Some (host, tail) => if decide (tail <> [] /\ starts_with [COLON] tail = false) then Err BadAuthority else Ok host
      end
  | None =>
      if decide (2 <= count_colons authority) then Err UnbracketedV6
      else match rsplit_once COLON authority with
           | Some (host, port) => Ok (if decide (is_Some (parse_uint 16 port)) then host else authority)
           | None => Ok authority
           end
  end.

Definition authority_port (authority : list Z) (dflt : Z) : Z :=
  if starts_with [LBRACKET] authority then
    match rsplit_once RBRACKET authority with
    | Some (_, tail) => match strip_prefix [COLON] tail with Some p => default dflt (parse_uint 16 p) | None => dflt end
    | None => dflt
    end
  else
    match rsplit_once COLON authority with
    | Some (_, p) => default dflt (parse_uint 16 p)
    | None => dflt
    end.

Definition strip_ipv6_brackets (host : list Z) : list Z :=
  match strip_prefix [LBRACKET] host with
  | Some s => match strip_suffix [RBRACKET] s with Some s => s | None => host end
  | None => host
  end.

Definition normalize_addr_with_default_port (s dflt : list Z) : list Z :=
  if starts_with [LBRACKET] s then
    match rsplit_once RBRACKET s with
    | Some (_, tail) =>
        if starts_with [COLON] tail && bool_decide (is_Some (parse_uint 16 (drop 1 tail))) then s else s ++ [COLON] ++ dflt
    | None => s ++ [COLON] ++ dflt
    end
  else if decide (2 <= count_colons s) then [LBRACKET] ++ s ++ [RBRACKET; COLON] ++ dflt
  else match rsplit_once COLON s with
       | Some (_, port) => if decide (is_Some (parse_uint 16 port)) then s else s ++ [COLON] ++ dflt
       | None => s ++ [COLON] ++ dflt
       end.

(** ** Resolution *)

(** [UdpSocket]: the reply a server sends to a query from a socket with the given mark,
    or none within the time limit. *)
Definition Network : Type := SocketAddr -> option Z -> list Z -> option (list Z).

(** The records of the answer, in order. *)
Fixpoint first_address (qtype : Z) (records : list (Z * Z * list Z)) : option IpAddr :=
  match records with
  | [] => None
  | (rtype, _, rdata) :: records =>
      if decide (rtype <> qtype) then first_address qtype records
      else if decide (qtype = 1%Z /\ length rdata = 4) then Some (V4 rdata)
      else if decide (qtype = 28%Z /\ length rdata = 16) then Some (V6 rdata)
      else first_address qtype records
  end.

Definition parse_bootstrap_answer (resp : list Z) (qtype : Z) : outcome (result url_error IpAddr) :=
  if decide (length resp < 12) then Ret (Err BootstrapFailed)
  else
    let! reply := is_reply resp in
    if negb reply then Ret (Err BootstrapFailed)
    else
      let! rcode := rcode resp in
      if decide (rcode <> 0)%Z then Ret (Err BootstrapFailed)
      else
        let! ancount := u16_at resp 6 in
        if decide (ancount = 0)%Z then Ret (Err BootstrapFailed)
        else
          let! qend := question_end resp in
          match qend with
          | None => Ret (Err BootstrapFailed)
          | Some qe =>
              let! records := extract_answer_records resp qe in
              Ret (match first_address qtype records with Some ip => Ok ip | None => Err BootstrapFailed end)
          end.

Section resolution.
Context (net : Network).

(** The receive buffer holds 512 bytes. *)
Definition bootstrap_udp_query (hostname : list Z) (qtype : Z) (server : SocketAddr) (mark : option Z) : outcome (result url_error IpAddr) :=
  match synthetic_query hostname qtype with
  | Err _ => Ret (Err BootstrapFailed)
  | Ok (query, _) =>
      match net server mark query with
      | None => Ret (Err BootstrapFailed)
      | Some resp => parse_bootstrap_answer (take 512 resp) qtype
      end
  end.

(** Each target is asked for an IPv4 and then for an IPv6 address. *)
Fixpoint ask_targets (host : list Z) (asks : list (BootstrapTarget * Z)) : outcome (result url_error IpAddr) :=
  match asks with
  | [] => Ret (Err BootstrapFailed)
  | (t, qtype) :: asks =>
      let! r := bootstrap_udp_query host qtype (bt_addr t) (bt_mark t) in
      match r with Ok ip => Ret (Ok ip) | Err _ => ask_targets host asks end
  end.

Definition resolve_host (host : list Z) (port : Z) (bootstrap : list BootstrapTarget) : outcome (result url_error SocketAddr) :=
  match parse_ip (strip_ipv6_brackets host) with
  | Some ip => Ret (Ok (mkSock ip port))
  | None =>
      if decide (length bootstrap = 0) then Ret (Err HostNeedsBootstrap)
      else
        let* ip := ask_targets host (t ← bootstrap; [(t, 1%Z); (t, 28%Z)]) in
        Ret (Ok (mkSock ip port))
  end.

Definition resolve_authority (authority : list Z) (dflt : Z) (bootstrap : list BootstrapTarget)
    : outcome (result url_error (list Z * SocketAddr)) :=
  let* host := Ret (authority_host authority) in
  let* addr := resolve_host host (authority_port authority dflt) bootstrap in
  Ret (Ok (host, addr)).

Definition DEFAULT_DOH_PATH : list Z := lit "/dns-query".

Definition parse_ecs_param (ecs : option (list Z)) : result url_error (option EcsMode) :=
  match ecs with
  | None => Ok None
  | Some v =>
      if decide (v = lit "strip") then Ok (Some EcsStrip)
      else if decide (v = lit "forward") then Ok (Some EcsForward)
      else match parse_ecs_subnet v with Ok n => Ok (Some (EcsFixed n)) | Err e => Err e end
  end.

(** [parse_upstream]; [bootstrap] looks up the targets of a named server. *)
Definition parse_upstream (raw : list Z) (bootstrap : list Z -> result url_error (list BootstrapTarget))
    : outcome (result url_error (list UpstreamEndpoint)) :=
  let raw := trim raw in
  if decide (raw = []) then Ret (Err EmptyUpstream)
  else if str_contains 35 raw then Ret (Err HashSyntax)
  else if str_contains 64 raw then Ret (Err AtSyntax)
  else
    match split_once_str (lit "://") raw with
    | None =>
        let normalized := normalize_addr_with_default_port raw (lit "53") in
        let* host := Ret (authority_host normalized) in
        let* addr := resolve_host host (authority_port normalized 53) [] in
        Ret (Ok [mkEndpoint PUdp addr None None false None None])
    | Some (scheme, rest) =>
        let* proto := Ret (parse_upstream_scheme scheme) in
        let '(rest_no_query, query) := match split_once 63 rest with Some (a, q) => (a, q) | None => (rest, []) end in
        let* params := Ret (parse_upstream_query query) in
        let* ecs_mode := Ret (parse_ecs_param (qp_ecs params)) in
        let* targets := Ret (match qp_bootstrap params with None => Ok [] | Some name => bootstrap (trim name) end) in
        let* mark := Ret (match qp_mark params with
                          | None => Ok None
                          | Some v => match parse_fwmark v with Ok m => Ok (Some m) | Err e => Err e end
                          end) in
        if decide (qp_no_sni params = true /\ proto <> PTls) then Ret (Err NoSniNotTls)
        else if decide (is_Some (qp_sni params) /\ uses_tls_name proto = false) then Ret (Err SniNotTls)
        else
          let* (authority, path) := Ret (split_upstream_path rest_no_query) in
          let* (host, addr) := resolve_authority authority (default_port proto) targets in
          let server_name := match qp_sni params with
                             | Some s => Some s
                             | None => if uses_tls_name proto then Some (strip_ipv6_brackets host) else None
                             end in
          let* path := Ret (match proto with
                            | PHttps | PH3 => Ok (Some (default DEFAULT_DOH_PATH path))
                            | _ => match path with Some _ => Err PathNotHttps | None => Ok None end
                            end) in
          Ret (Ok [mkEndpoint proto addr server_name path (qp_no_sni params) ecs_mode mark])
    end.

Fixpoint upstreams_loop (items : list (list Z)) (bootstrap : list Z -> result url_error (list BootstrapTarget))
    (out : list UpstreamEndpoint) : outcome (result url_error (list UpstreamEndpoint)) :=
  match items with
  | [] => Ret (Ok out)
  | item :: items => let* es := parse_upstream item bootstrap in upstreams_loop items bootstrap (out ++ es)
  end.

Definition parse_upstreams (items : list (list Z)) (bootstrap : list Z -> result url_error (list BootstrapTarget))
    : outcome (result url_error (list UpstreamEndpoint)) :=
  let* out := upstreams_loop items bootstrap [] in
  if decide (length out = 0) then Ret (Err NoUpstream) else Ret (Ok out).
End resolution.

(** ** Fixed answers *)

Definition parse_rcode_name (name : list Z) : result url_error Z :=
  let n := ascii_upper <$> name in
  match (if decide (n = lit "NOERROR") then Ok 0%Z
         else if decide (n = lit "FORMERR") then Ok 1%Z
         else if decide (n = lit "SERVFAIL") then Ok 2%Z
         else if decide (n = lit "NXDOMAIN") then Ok 3%Z
         else if decide (n = lit "NOTIMP") then Ok 4%Z
         else if decide (n = lit "REFUSED") then Ok 5%Z
         else match parse_uint 8 n with Some r => Ok r | None => Err BadRcode end) with
  | Ok r => if decide (15 < r)%Z then Err RcodeRange else Ok r
  | Err e => Err e
  end.

Definition DEFAULT_ANSWER_TTL : Z := 60.

Definition MAX_DNS_TTL : Z := 2147483647.

Fixpoint ttl_loop (params : list (list Z)) (ttl : Z) : result url_error Z :=
  match params with
  | [] => Ok ttl
  | param :: params =>
      match strip_prefix (lit "ttl=") param with
      | None => Err UnknownParam
      | Some v =>
          match parse_uint 32 v with
          | None => Err BadTtl
          | Some t => if decide (MAX_DNS_TTL < t)%Z then Err TtlRange else ttl_loop params t
          end
      end
  end.

Definition split_answer_ttl (rest : list Z) : result url_error (list Z * Z) :=
  match split_once 63 rest with
  | None => Ok (rest, DEFAULT_ANSWER_TTL)
  | Some (value, query) =>
      match ttl_loop (filter (fun p => p <> []) (str_split 38 query)) DEFAULT_ANSWER_TTL with
      | Ok ttl => Ok (value, ttl)
      | Err e => Err e
      end
  end.

(** [str::parse::<Ipv4Addr>()] and [str::parse::<Ipv6Addr>()]. *)
Definition parse_ipv4 (s : list Z) : option (list Z) :=
  match read_ipv4_addr s with Some (o, []) => Some o | _ => None end.

Definition parse_ipv6 (s : list Z) : option (list Z) :=
  match read_ipv6_addr s with Some (o, []) => Some o | _ => None end.

Definition parse_fixed_answer (url : list Z) : result url_error FixedAnswer :=
  match split_once_str (lit "://") url with
  | None => Err MalformedAnswer
  | Some (scheme, rest) =>
      match split_answer_ttl rest with
      | Err e => Err e
      | Ok (value, ttl) =>
          let s := ascii_upper <$> scheme in
          if decide (s = lit "A") then
            match parse_ipv4 (trim value) with Some a => Ok (FixedA a ttl) | None => Err BadAnswerAddr end
          else if decide (s = lit "AAAA") then
            match parse_ipv6 (trim value) with Some a => Ok (FixedAaaa a ttl) | None => Err BadAnswerAddr end
          else Err UnknownAnswerScheme
      end
  end.
