(* ===== verification/UpstreamUrlCorrect.v ===== *)
(** * Correctness of upstream URLs

    Whatever text is configured, parsing returns, and an accepted upstream is well formed:
    the conditions the query path relies on.  The text of an upstream reads back as it. *)

From stdpp Require Import strings.
From S2P Require Import Prelude Hasher DnsName DnsQuery Utf8 DnsQname DnsRecords DnsEdns Ecs DnsBuilder CacheMap Cache IpRange RustStr Domain IpParse Ruleset RouteIndex Router Upstream UpstreamWire UpstreamUrl.

(** ** Numbers *)

Lemma parse_uint_digits_range w acc s n : (0 <= acc < 2 ^ w)%Z -> parse_uint_digits w acc s = Some n -> u_ok w n.
Proof.
  revert acc. induction s as [|c s IH]; intros acc Ha; cbn [parse_uint_digits]; [by intros [= <-]|].
  repeat case_decide; try done. apply IH. lia.
Qed.

Lemma parse_uint_range w s n : (0 < w)%Z -> parse_uint w s = Some n -> u_ok w n.
Proof.
  intros Hw. assert (0 <= 0 < 2 ^ w)%Z as H0 by lia. unfold parse_uint.
  destruct s as [|c s]; [done|]. repeat (case_match; try done); by apply parse_uint_digits_range.
Qed.

Lemma hex_digits_range acc s n : (0 <= acc < 2 ^ 32)%Z -> hex_digits acc s = Some n -> u_ok 32 n.
Proof.
  revert acc. induction s as [|c s IH]; intros acc Ha; cbn [hex_digits]; [by intros [= <-]|].
  destruct (to_digit 16 c) as [d|] eqn:Hd; [|done]. apply to_digit_nonneg in Hd. case_decide; [|done]. apply IH. lia.
Qed.

Lemma parse_fwmark_range s m : parse_fwmark s = Ok m -> u_ok 32 m.
Proof.
  unfold parse_fwmark. set (h := match strip_prefix _ _ with Some _ => _ | None => _ end). destruct h as [h|].
  - unfold parse_hex32. intros Hm. destruct (match h with [] => None | _ => _ end) as [z|] eqn:Hz; [|done]. injection Hm as ->.
    destruct h as [|c h]; [done|]. repeat (case_match; try done); by eapply hex_digits_range.
  - destruct (parse_uint 32 _) as [z|] eqn:Hz; [|done]. intros [= ->]. by eapply parse_uint_range.
Qed.

(** ** Addresses *)

Definition addr_ok (ip : IpAddr) : Prop := length (addr_octets ip) = addr_len ip /\ bytes_ok (addr_octets ip).

Definition sock_ok (s : SocketAddr) : Prop := addr_ok (sa_ip s) /\ u_ok 16 (sa_port s).

Lemma parse_ecs_subnet_ok s n : parse_ecs_subnet s = Ok n -> subnet_ok n.
Proof.
  assert (forall ip, max_prefix ip = 8 * Z.of_nat (addr_len ip))%Z as Hm by by intros [?|?].
  unfold parse_ecs_subnet, subnet_ok. destruct (split_once 47 s) as [[a p]|].
  - destruct (parse_ip a) as [ip|] eqn:Hip; [|done]. destruct (parse_uint 8 p) as [k|] eqn:Hk; [|done].
    apply parse_ip_ok in Hip as [? ?]. apply parse_uint_range in Hk; [|done]. unfold u_ok in Hk.
    case_decide; [done|]. intros [= <-]. cbn. rewrite Hm in *. split_and!; [done|done|lia|lia].
  - destruct (parse_ip s) as [ip|] eqn:Hip; [|done]. apply parse_ip_ok in Hip as [? ?]. intros [= <-]. cbn. rewrite Hm.
    split_and!; [done|done|lia|lia].
Qed.

Lemma parse_ecs_param_ok e m : parse_ecs_param e = Ok (Some m) -> mode_ok m.
Proof.
  unfold parse_ecs_param. destruct e as [v|]; [|done]. case_decide; [by intros [= <-]|]. case_decide; [by intros [= <-]|].
  destruct (parse_ecs_subnet v) eqn:Hs; [|done]. intros [= <-]. by eapply parse_ecs_subnet_ok.
Qed.

Lemma authority_port_range a d : u_ok 16 d -> u_ok 16 (authority_port a d).
Proof.
  intros Hd. unfold authority_port. assert (forall p, u_ok 16 (default d (parse_uint 16 p))) as Hp.
  { intros p. destruct (parse_uint 16 p) eqn:E; [|done]. by apply parse_uint_range in E. }
  repeat case_match; done || apply Hp.
Qed.

(** ** Bootstrap answers *)

Section bootstrap.
Context (net : Network) (net_bytes : forall s m q r, net s m q = Some r -> bytes_ok r).

Lemma first_address_ok qtype records ip : Forall (fun r => bytes_ok (snd r)) records -> first_address qtype records = Some ip -> addr_ok ip.
Proof.
  induction 1 as [|[[t ttl] rd] records Hr _ IH]; cbn [first_address]; [done|]. case_decide; [done|].
  case_decide as H4; [intros [= <-]; by destruct H4; split|]. case_decide as H6; [intros [= <-]; by destruct H6; split|done].
Qed.

Lemma records_bytes p qe records : bytes_ok p -> extract_answer_records p qe = Ret records -> Forall (fun r => bytes_ok (snd r)) records.
Proof.
  intros Hp. unfold extract_answer_records. case_decide as Hd; [intros [= <-]; constructor|]. in_range.
  rewrite extract_answer_records_loop_eq. intros Hr. apply (inj Ret) in Hr. subst records. cbn [app]. apply Forall_fmap.
  apply list.Forall_true. intros [[[[t c] ttl] rd] re]. cbn. apply Forall_take, Forall_drop, Hp.
Qed.

Lemma parse_bootstrap_answer_spec p qtype : bytes_ok p -> exists r, parse_bootstrap_answer p qtype = Ret r /\ forall ip, r = Ok ip -> addr_ok ip.
Proof.
  intros Hp. unfold parse_bootstrap_answer. case_decide as Hl; [eexists; by split|]. rewrite is_reply_eq, rcode_eq. cbn [obind].
  rewrite (decide_False (P := length p < 4)) by lia. case_bool_decide; cbn [negb]; [|eexists; by split]. cbn [obind]. case_decide; [eexists; by split|]. in_range.
  case_decide; [eexists; by split|]. destruct (question_end_total p) as [q Hq]. rewrite Hq. cbn [obind].
  destruct q as [qe|]; [|eexists; by split].
  destruct (extract_answer_records p qe) as [records| |] eqn:Hr; cbn [obind].
  - eexists. split; [done|]. intros ip. destruct (first_address qtype records) as [x|] eqn:Hf; [|done]. intros [= <-].
    by eapply first_address_ok; [eapply records_bytes|].
  - exfalso. unfold extract_answer_records in Hr. case_decide; [done|]. revert Hr. in_range. by rewrite extract_answer_records_loop_eq.
  - exfalso. unfold extract_answer_records in Hr. case_decide; [done|]. revert Hr. in_range. by rewrite extract_answer_records_loop_eq.
Qed.

Lemma ask_targets_spec host asks : exists r, ask_targets net host asks = Ret r /\ forall ip, r = Ok ip -> addr_ok ip.
Proof.
  induction asks as [|[t q] asks IH]; cbn [ask_targets]; [eexists; by split|]. unfold bootstrap_udp_query.
  destruct (synthetic_query host q) as [[query qe]|]; [|done]. destruct (net _ _ query) as [resp|] eqn:Hn; [|done].
  apply net_bytes in Hn. destruct (parse_bootstrap_answer_spec (take 512 resp) q) as (r & Hr & Hok); [by apply Forall_take|].
  rewrite Hr. cbn [obind]. destruct r as [ip|e]; [|exact IH]. eexists. by split.
Qed.

Lemma resolve_host_spec host port targets : u_ok 16 port ->
  exists r, resolve_host net host port targets = Ret r /\ forall a, r = Ok a -> sock_ok a /\ sa_port a = port.
Proof.
  intros Hp. unfold resolve_host. destruct (parse_ip _) as [ip|] eqn:Hi.
  { eexists. split; [done|]. intros a [= <-]. apply parse_ip_ok in Hi. by split_and!. }
  case_decide; [eexists; by split|]. destruct (ask_targets_spec host (t ← targets; [(t, 1%Z); (t, 28%Z)])) as (r & Hr & Hok).
  rewrite Hr. destruct r as [ip|e]; cbn [obind_res]; eexists; (split; [done|]); [|done]. intros a [= <-]. specialize (Hok ip eq_refl). split; [by split|done].
Qed.

(** ** Well-formed endpoints *)

(** What the transports and the query path rely on. *)
Definition endpoint_ok (e : UpstreamEndpoint) : Prop :=
  sock_ok (ep_addr e) /\
  (is_Some (ep_server_name e) <-> uses_tls_name (ep_proto e) = true) /\
  match ep_proto e with PHttps | PH3 => exists p, ep_path e = Some (47%Z :: p) | _ => ep_path e = None end /\
  (ep_no_sni e = true -> ep_proto e = PTls) /\
  (forall m, ep_ecs_mode e = Some m -> mode_ok m) /\
  (forall m, ep_mark e = Some m -> u_ok 32 m).

Lemma split_upstream_path_some rest a p : split_upstream_path rest = Ok (a, Some p) -> exists q, p = 47%Z :: q.
Proof.
  unfold split_upstream_path, split_once. destruct (str_find 47 rest) as [i|] eqn:Hf; [|case_decide; discriminate].
  apply str_find_Some in Hf as (x & y & -> & <- & _). rewrite take_app_length. case_decide; [done|].
  case_decide; intros [= <- <-]; [by exists []|]. rewrite drop_app_length. by exists y.
Qed.

Lemma parse_upstream_spec raw bootstrap : exists r, parse_upstream net raw bootstrap = Ret r /\
  forall es, r = Ok es -> exists e, es = [e] /\ endpoint_ok e.
Proof.
  unfold parse_upstream. set (s := trim raw). case_decide; [eexists; by split|]. do 2 (case_match; [eexists; by split|]).
  destruct (split_once_str _ s) as [[scheme rest]|].
  2:{ set (n := normalize_addr_with_default_port s _). destruct (authority_host n) as [host|e]; cbn [obind_res]; [|eexists; by split].
      destruct (resolve_host_spec host (authority_port n 53) []) as (r & Hr & Hok); [by apply authority_port_range|]. rewrite Hr.
      destruct r as [a|e]; cbn [obind_res]; eexists; (split; [done|]); [|done]. intros es [= <-]. eexists. split; [done|].
      destruct (Hok a eq_refl) as [Ha _]. by split_and!; cbn. }
  destruct (parse_upstream_scheme scheme) as [proto|e]; cbn [obind_res]; [|eexists; by split].
  destruct (match split_once 63 rest with Some (a, q) => _ | None => _ end) as [rest0 query].
  destruct (parse_upstream_query query) as [params|e]; cbn [obind_res]; [|eexists; by split].
  destruct (parse_ecs_param _) as [ecs|e] eqn:Hecs; cbn [obind_res]; [|eexists; by split].
  destruct (match qp_bootstrap params with None => _ | Some _ => _ end) as [targets|e]; cbn [obind_res]; [|eexists; by split].
  destruct (match qp_mark params with None => _ | Some _ => _ end) as [mark|e] eqn:Hmark; cbn [obind_res]; [|eexists; by split].
  case_decide as Hns; [eexists; by split|]. case_decide as Hsni; [eexists; by split|].
  destruct (split_upstream_path rest0) as [[authority path]|e] eqn:Hpath; cbn [obind_res]; [|eexists; by split].
  unfold resolve_authority. destruct (authority_host authority) as [host|e]; cbn [obind_res]; [|eexists; by split].
  destruct (resolve_host_spec host (authority_port authority (default_port proto)) targets) as (r & Hr & Hok).
  { apply authority_port_range. by destruct proto. }
  rewrite Hr. destruct r as [a|e]; cbn [obind_res]; [|eexists; by split]. destruct (Hok a eq_refl) as [Ha _].
  destruct (match proto with PHttps | PH3 => _ | _ => _ end) as [path'|e] eqn:Hp; cbn [obind_res]; eexists; (split; [done|]); [|done].
  intros es [= <-]. eexists. split; [done|]. split_and!; cbn.
  - apply Ha.
  - destruct (qp_sni params) as [sni|].
    + split; [|done]. intros _. apply not_false_is_true. intros Hf. apply Hsni. by split.
    + destruct (uses_tls_name proto); [done|]. split; [by intros [? [=]]|done].
  - assert (forall p, path = Some p -> exists q, p = 47%Z :: q) as Hs by (intros p ->; by eapply split_upstream_path_some).
    destruct proto; try (destruct path; [discriminate Hp|congruence]);
      injection Hp as <-; (destruct path as [p|]; [destruct (Hs p eq_refl) as [q ->]; by exists q|by exists (lit "dns-query")]).
  - intros Hn. apply dec_stable. intros Hne. apply Hns. by split.
  - intros m ->. by eapply parse_ecs_param_ok.
  - intros m ->. destruct (qp_mark params) as [v|]; [|done]. destruct (parse_fwmark v) eqn:Hv; [|done]. injection Hmark as <-. by eapply parse_fwmark_range.
Qed.

Lemma upstreams_loop_spec items bootstrap out : Forall endpoint_ok out ->
  exists r, upstreams_loop net items bootstrap out = Ret r /\ forall es, r = Ok es -> Forall endpoint_ok es /\ length es = length out + length items.
Proof.
  revert out. induction items as [|i items IH]; intros out Hout; cbn [upstreams_loop].
  { eexists. split; [done|]. intros es [= <-]. split; [done|cbn; lia]. }
  destruct (parse_upstream_spec i bootstrap) as (r & Hr & Hok). rewrite Hr. destruct r as [es|e]; cbn [obind_res]; [|eexists; by split].
  destruct (Hok es eq_refl) as (e & -> & He). destruct (IH (out ++ [e])) as (r & Hr2 & Hok2); [by apply Forall_app; split; [|apply Forall_singleton]|].
  exists r. split; [done|]. intros es Hes. destruct (Hok2 es Hes) as [H1 H2]. split; [done|]. rewrite H2, length_app. cbn. lia.
Qed.

Lemma parse_upstreams_spec items bootstrap : exists r, parse_upstreams net items bootstrap = Ret r /\
  forall es, r = Ok es -> Forall endpoint_ok es /\ es <> [] /\ length es = length items.
Proof.
  unfold parse_upstreams. destruct (upstreams_loop_spec items bootstrap []) as (r & Hr & Hok); [constructor|]. rewrite Hr.
  destruct r as [es|e]; cbn [obind_res]; [|eexists; by split]. destruct (Hok es eq_refl) as [H1 H2].
  case_decide as Hd; eexists; (split; [done|]); [done|]. intros es' [= <-]. split_and!; [done|by destruct es|done].
Qed.
End bootstrap.

(** ** The text of an upstream *)

(** The parameters of a URL, with the values they stand for. *)
Inductive UrlParam :=
| NoSni
| Sni (name : list Z)
| EcsMode_ (text : list Z) (mode : EcsMode)
| BootstrapFrom (name : list Z) (targets : list BootstrapTarget)
| MarkWith (text : list Z) (mark : Z).

Definition param_text (p : UrlParam) : list Z :=
  match p with
  | NoSni => lit "no-sni"
  | Sni n => lit "sni=" ++ n
  | EcsMode_ t _ => lit "ecs=" ++ t
  | BootstrapFrom n _ => lit "bootstrap=" ++ n
  | MarkWith t _ => lit "mark=" ++ t
  end.

(** [host] is the text of an address, in brackets when [bracket]; [port] and [path] are the
    texts behind it. *)
Record Url := mkUrl {
  u_scheme : list Z; u_proto : UpstreamProto;
  u_bracket : bool; u_host : list Z; u_ip : IpAddr;
  u_port : option (list Z * Z);
  u_path : option (list Z);
  u_params : list UrlParam
}.

Definition url_authority (u : Url) : list Z :=
  (if u_bracket u then [LBRACKET] ++ u_host u ++ [RBRACKET] else u_host u) ++
  match u_port u with Some (t, _) => COLON :: t | None => [] end.

Definition url_text (u : Url) : list Z :=
  u_scheme u ++ lit "://" ++ (url_authority u ++ match u_path u with Some p => 47%Z :: p | None => [] end) ++
  match u_params u with [] => [] | ps => 63%Z :: join_with 38 (param_text <$> ps) end.

Definition query_of (ps : list UrlParam) : list Z := match ps with [] => [] | _ => join_with 38 (param_text <$> ps) end.

(** The last of several parameters of the same kind counts. *)
Definition last_some {A} (f : UrlParam -> option A) (ps : list UrlParam) : option A :=
  foldl (fun acc p => match f p with Some x => Some x | None => acc end) None ps.

Definition url_no_sni (u : Url) : bool := existsb (fun p => match p with NoSni => true | _ => false end) (u_params u).
Definition url_sni (u : Url) : option (list Z) := last_some (fun p => match p with Sni n => Some n | _ => None end) (u_params u).
Definition url_ecs (u : Url) : option EcsMode := last_some (fun p => match p with EcsMode_ _ m => Some m | _ => None end) (u_params u).
Definition url_mark (u : Url) : option Z := last_some (fun p => match p with MarkWith _ m => Some m | _ => None end) (u_params u).

Definition url_endpoint (u : Url) : UpstreamEndpoint :=
  mkEndpoint (u_proto u) (mkSock (u_ip u) (match u_port u with Some (_, n) => n | None => default_port (u_proto u) end))
    (match url_sni u with Some s => Some s | None => if uses_tls_name (u_proto u) then Some (u_host u) else None end)
    (match u_proto u with PHttps | PH3 => Some (match u_path u with Some p => 47%Z :: p | None => DEFAULT_DOH_PATH end) | _ => None end)
    (url_no_sni u) (url_ecs u) (url_mark u).

Section roundtrip.
Context (net : Network) (bootstrap : list Z -> result url_error (list BootstrapTarget)).

(** Printable text without the characters [#] and [@]. *)
Abbreviation plain := (Forall (fun c : Z => graphic c /\ c <> 35%Z /\ c <> 64%Z)).

Definition param_ok (p : UrlParam) : Prop :=
  plain (param_text p) /\ (38%Z ∉ param_text p) /\
  match p with
  | EcsMode_ t m => parse_ecs_param (Some t) = Ok (Some m)
  | BootstrapFrom n ts => bootstrap (trim n) = Ok ts
  | MarkWith t m => parse_fwmark t = Ok m
  | _ => True
  end.

Definition url_ok (u : Url) : Prop :=
  parse_upstream_scheme (u_scheme u) = Ok (u_proto u) /\
  parse_ip (u_host u) = Some (u_ip u) /\ u_host u <> [] /\
  Forall (fun c => c = 46%Z \/ c = COLON \/ is_Some (to_digit 16 c)) (u_host u) /\ (u_bracket u = false -> COLON ∉ u_host u) /\
  (forall t n, u_port u = Some (t, n) -> parse_uint 16 t = Some n) /\
  (forall p, u_path u = Some p -> plain p /\ (63%Z ∉ p) /\ (u_proto u = PHttps \/ u_proto u = PH3)) /\
  Forall param_ok (u_params u) /\
  (url_no_sni u = true -> u_proto u = PTls) /\ (is_Some (url_sni u) -> uses_tls_name (u_proto u) = true).

Lemma addr_char_range c : c = 46%Z \/ c = COLON \/ is_Some (to_digit 16 c) ->
  (46 <= c <= 102)%Z /\ c <> 47%Z /\ c <> 63%Z /\ c <> 64%Z /\ c <> LBRACKET /\ c <> RBRACKET.
Proof.
  unfold COLON, LBRACKET, RBRACKET. intros [->|[->|[d Hd]]]; [lia|lia|]. unfold to_digit in Hd. repeat case_decide; simplify_eq; lia.
Qed.

Lemma parse_uint_chars w s n : parse_uint w s = Some n -> Forall (fun c => c = 43%Z \/ 48 <= c <= 57)%Z s.
Proof.
  assert (forall s acc n, parse_uint_digits w acc s = Some n -> Forall (fun c => c = 43%Z \/ 48 <= c <= 57)%Z s) as Hd.
  { clear s n. induction s as [|c s IH]; intros acc n; cbn [parse_uint_digits]; [constructor|]. repeat case_decide; try done.
    intros Hs. constructor; [by right|by eapply IH]. }
  unfold parse_uint. destruct s as [|c s]; [done|]. intros Hs. assert (c = 43%Z \/ parse_uint_digits w 0 (c :: s) = Some n) as [->|Hn].
  { revert Hs. repeat (case_match; try done); auto. }
  - constructor; [by left|]. destruct s; [done|]. by eapply Hd.
  - by eapply Hd.
Qed.

Lemma scheme_chars s p : parse_upstream_scheme s = Ok p -> s <> [] /\ Forall (fun c => 48 <= c <= 57 \/ 65 <= c <= 90 \/ 97 <= c <= 122)%Z s.
Proof.
  intros Hs. assert (exists l, lower_label s = l /\ l <> [] /\ Forall (fun c => 48 <= c <= 57 \/ 97 <= c <= 122)%Z l) as (l & Hl & Hne & Hf).
  { unfold parse_upstream_scheme in Hs.
    repeat (case_decide as Hd; [eexists; split; [exact Hd|split; [done|by apply (bool_decide_unpack _); vm_compute]]|clear Hd]). done. }
  subst l. split; [by intros ->|]. apply Forall_fmap in Hf. apply (Forall_impl _ _ _ Hf). intros c. cbn. unfold to_ascii_lowercase. case_decide; lia.
Qed.

Definition param_step (p : UpstreamQueryParams) (q : UrlParam) : UpstreamQueryParams :=
  match q with
  | NoSni => mkParams true (qp_sni p) (qp_ecs p) (qp_bootstrap p) (qp_mark p)
  | Sni v => mkParams (qp_no_sni p) (Some v) (qp_ecs p) (qp_bootstrap p) (qp_mark p)
  | EcsMode_ v _ => mkParams (qp_no_sni p) (qp_sni p) (Some v) (qp_bootstrap p) (qp_mark p)
  | BootstrapFrom v _ => mkParams (qp_no_sni p) (qp_sni p) (qp_ecs p) (Some v) (qp_mark p)
  | MarkWith v _ => mkParams (qp_no_sni p) (qp_sni p) (qp_ecs p) (qp_bootstrap p) (Some v)
  end.

Lemma query_step_text p q : query_step p (param_text q) = Ok (param_step p q).
Proof. destruct q; reflexivity. Qed.

Lemma query_loop_texts ps p : query_loop (param_text <$> ps) p = Ok (foldl param_step p ps).
Proof. revert p. induction ps as [|q ps IH]; intros p; [done|]. cbn [fmap list_fmap query_loop foldl]. by rewrite query_step_text. Qed.

Lemma param_text_nonempty q : param_text q <> [].
Proof. by destruct q. Qed.

Lemma parse_query_texts ps : Forall param_ok ps ->
  parse_upstream_query (query_of ps) = Ok (foldl param_step (mkParams false None None None None) ps).
Proof.
  intros Hps. unfold parse_upstream_query. destruct ps as [|q ps]; [done|]. cbn [query_of]. rewrite split_join.
  - rewrite <- query_loop_texts. f_equal. generalize (q :: ps). intros l. induction l as [|x l IH]; [done|]. cbn [fmap list_fmap].
    rewrite filter_cons_True by apply param_text_nonempty. by f_equal.
  - done.
  - apply Forall_fmap. apply (Forall_impl _ _ _ Hps). by intros x (_ & Hx & _).
Qed.

(** What the parameters read so far stand for. *)
Definition reads (p : UpstreamQueryParams) (sni : option (list Z)) (ecs : option EcsMode) (mark : option Z) (no_sni : bool) : Prop :=
  qp_no_sni p = no_sni /\ qp_sni p = sni /\ parse_ecs_param (qp_ecs p) = Ok ecs /\
  (match qp_mark p with None => Ok None | Some v => match parse_fwmark v with Ok m => Ok (Some m) | Err e => Err e end end) = Ok mark /\
  exists ts, (match qp_bootstrap p with None => Ok [] | Some name => bootstrap (trim name) end) = Ok ts.

Lemma reads_step p q sni ecs mark ns : param_ok q -> reads p sni ecs mark ns ->
  reads (param_step p q) (match q with Sni n => Some n | _ => sni end) (match q with EcsMode_ _ m => Some m | _ => ecs end)
    (match q with MarkWith _ m => Some m | _ => mark end) (match q with NoSni => true | _ => ns end).
Proof.
  intros (_ & _ & Hq) (H1 & H2 & H3 & H4 & H5). destruct q; cbn; unfold reads; cbn; rewrite ?Hq; eauto 10.
Qed.

Lemma reads_fold ps p sni ecs mark ns : Forall param_ok ps -> reads p sni ecs mark ns ->
  reads (foldl param_step p ps)
    (foldl (fun acc q => match (match q with Sni n => Some n | _ => None end) with Some x => Some x | None => acc end) sni ps)
    (foldl (fun acc q => match (match q with EcsMode_ _ m => Some m | _ => None end) with Some x => Some x | None => acc end) ecs ps)
    (foldl (fun acc q => match (match q with MarkWith _ m => Some m | _ => None end) with Some x => Some x | None => acc end) mark ps)
    (ns || existsb (fun q => match q with NoSni => true | _ => false end) ps).
Proof.
  intros Hps. revert p sni ecs mark ns. induction Hps as [|q ps Hq _ IH]; intros p sni ecs mark ns Hr; cbn [foldl existsb].
  - by rewrite orb_false_r.
  - specialize (IH _ _ _ _ _ (reads_step _ q _ _ _ _ Hq Hr)). rewrite orb_assoc. destruct q; cbn [orb] in *; rewrite ?orb_false_r; try exact IH.
    rewrite orb_true_r. exact IH.
Qed.

Lemma reads_url u : Forall param_ok (u_params u) ->
  reads (foldl param_step (mkParams false None None None None) (u_params u)) (url_sni u) (url_ecs u) (url_mark u) (url_no_sni u).
Proof. intros H. apply (reads_fold _ _ _ _ _ false); [done|]. unfold reads; cbn. eauto 10. Qed.
Lemma Forall_not_elem {A} (P : A -> Prop) x l : Forall P l -> ~ P x -> x ∉ l.
Proof. intros Hf Hx Hin. by apply Hx, (proj1 (Forall_forall P l) Hf). Qed.

Lemma count_colons_none s : COLON ∉ s -> count_colons s = 0.
Proof.
  unfold count_colons. induction s as [|c s IH]; intros Hs; [done|]. apply not_elem_of_cons in Hs as [Hc Hs].
  rewrite filter_cons_False by congruence. by apply IH.
Qed.

Section authority.
Context (u : Url) (Hu : url_ok u).

Lemma host_avoids c : (c < 46 \/ 102 < c \/ c = 47 \/ c = 63 \/ c = 64 \/ c = LBRACKET \/ c = RBRACKET)%Z -> c ∉ u_host u.
Proof.
  intros Hc. destruct Hu as (_ & _ & _ & Hh & _). eapply Forall_not_elem; [exact Hh|]. intros H%addr_char_range. lia.
Qed.

Definition port_text : list Z := match u_port u with Some (t, _) => COLON :: t | None => [] end.

Lemma port_digits t n : u_port u = Some (t, n) -> Forall (fun c => c = 43%Z \/ 48 <= c <= 57)%Z t.
Proof. intros Hp. destruct Hu as (_ & _ & _ & _ & _ & H & _). by eapply parse_uint_chars, H. Qed.

Lemma port_avoids c t n : u_port u = Some (t, n) -> (c < 43 \/ 57 < c \/ c = 47)%Z -> c ∉ t.
Proof. intros Hp Hc. eapply Forall_not_elem; [by eapply port_digits|]. cbn. lia. Qed.

Lemma authority_host_text : authority_host (url_authority u) = Ok (u_host u).
Proof.
  unfold authority_host, url_authority. fold port_text. destruct (u_bracket u) eqn:Hb.
  - replace (([LBRACKET] ++ u_host u ++ [RBRACKET]) ++ port_text) with (LBRACKET :: (u_host u ++ RBRACKET :: port_text)) by (rewrite <- !app_assoc; done).
    cbn [strip_prefix]. rewrite decide_True by done. rewrite split_once_app by (apply host_avoids; lia).
    rewrite decide_False; [done|]. unfold port_text. destruct (u_port u) as [[t n]|]; [|by intros [? _]]. intros [_ H]. discriminate H.
  - destruct Hu as (_ & _ & Hne & _ & Hc & Hport & _). specialize (Hc Hb).
    assert (strip_prefix [LBRACKET] (u_host u ++ port_text) = None) as ->.
    { pose proof (host_avoids LBRACKET ltac:(lia)) as Hl. destruct (u_host u) as [|c h]; [done|]. cbn [app strip_prefix].
      apply not_elem_of_cons in Hl as [Hl _]. by rewrite decide_False by congruence. }
    unfold port_text. destruct (u_port u) as [[t n]|] eqn:Hp.
    + pose proof (port_avoids COLON t n Hp ltac:(unfold COLON; lia)) as Ht.
      rewrite decide_False. 2:{ unfold count_colons. rewrite filter_app, length_app. fold (count_colons (u_host u)). rewrite count_colons_none by done.
        rewrite filter_cons_True by done. cbn [length]. fold (count_colons t). rewrite count_colons_none by done. lia. }
      rewrite rsplit_once_app by done. rewrite decide_True; [done|]. rewrite (Hport t n eq_refl). by eexists.
    + rewrite app_nil_r. rewrite decide_False by (rewrite count_colons_none by done; lia). by rewrite rsplit_once_none.
Qed.

Lemma authority_port_text d : authority_port (url_authority u) d = match u_port u with Some (_, n) => n | None => d end.
Proof.
  unfold authority_port, url_authority. fold port_text. destruct Hu as (_ & _ & Hne & _ & Hc & Hport & _). destruct (u_bracket u) eqn:Hb.
  - replace (([LBRACKET] ++ u_host u ++ [RBRACKET]) ++ port_text) with ((LBRACKET :: u_host u) ++ RBRACKET :: port_text) by (cbn; rewrite <- !app_assoc; done).
    assert (starts_with [LBRACKET] ((LBRACKET :: u_host u) ++ RBRACKET :: port_text) = true) as -> by done.
    unfold port_text. destruct (u_port u) as [[t n]|] eqn:Hp.
    + rewrite rsplit_once_app. 2:{ apply not_elem_of_cons. split; [done|]. eapply port_avoids; [exact Hp|unfold RBRACKET; lia]. }
      cbn [strip_prefix]. rewrite decide_True by done. by rewrite (Hport t n eq_refl).
    + rewrite rsplit_once_app by apply not_elem_of_nil. done.
  - specialize (Hc eq_refl). pose proof (host_avoids LBRACKET ltac:(lia)) as Hl.
    assert (starts_with [LBRACKET] (u_host u ++ port_text) = false) as ->.
    { destruct (u_host u) as [|c h]; [done|]. unfold starts_with. cbn [app strip_prefix].
      apply not_elem_of_cons in Hl as [Hl _]. by rewrite decide_False by congruence. }
    unfold port_text. destruct (u_port u) as [[t n]|] eqn:Hp.
    + rewrite rsplit_once_app by (eapply port_avoids; [exact Hp|unfold COLON; lia]). by rewrite (Hport t n eq_refl).
    + rewrite app_nil_r. by rewrite rsplit_once_none.
Qed.

Lemma resolve_authority_text d ts :
  resolve_authority net (url_authority u) d ts
  = Ret (Ok (u_host u, mkSock (u_ip u) (match u_port u with Some (_, n) => n | None => d end))).
Proof.
  unfold resolve_authority. rewrite authority_host_text. cbn [obind_res]. rewrite authority_port_text. unfold resolve_host, strip_ipv6_brackets.
  assert (strip_prefix [LBRACKET] (u_host u) = None) as Hs.
  { pose proof (host_avoids LBRACKET ltac:(lia)) as Hl. destruct (u_host u) as [|c h]; [done|]. cbn [strip_prefix].
    apply not_elem_of_cons in Hl as [Hl _]. by rewrite decide_False by congruence. }
  rewrite Hs. destruct Hu as (_ & -> & _). done.
Qed.

Lemma host_no_brackets : strip_ipv6_brackets (u_host u) = u_host u.
Proof.
  unfold strip_ipv6_brackets. pose proof (host_avoids LBRACKET ltac:(lia)) as Hl. destruct (u_host u) as [|c h]; [done|]. cbn [strip_prefix].
  apply not_elem_of_cons in Hl as [Hl _]. by rewrite decide_False by congruence.
Qed.

Definition path_text : list Z := match u_path u with Some p => 47%Z :: p | None => [] end.

Lemma plain_authority : plain (url_authority u).
Proof.
  unfold url_authority. fold port_text. destruct Hu as (_ & _ & _ & Hh & _).
  assert (plain (u_host u)) as Hph by (apply (Forall_impl _ _ _ Hh); intros c Hc%addr_char_range; lia).
  assert (plain port_text) as Hpp.
  { unfold port_text. destruct (u_port u) as [[t n]|] eqn:Hp; [|constructor]. constructor; [unfold COLON; lia|].
    apply (Forall_impl _ _ _ (port_digits _ _ Hp)). cbn. lia. }
  apply Forall_app. split; [|done]. destruct (u_bracket u); [|done]. rewrite !Forall_app, !Forall_singleton. unfold LBRACKET, RBRACKET. split_and!; done || lia.
Qed.

Lemma plain_path : plain path_text.
Proof.
  unfold path_text. destruct Hu as (_ & _ & _ & _ & _ & _ & Hp & _). destruct (u_path u) as [p|]; [|constructor].
  destruct (Hp p eq_refl) as (Hpl & _). constructor; [lia|done].
Qed.

Definition query_part : list Z := match u_params u with [] => [] | ps => 63%Z :: join_with 38 (param_text <$> ps) end.

Lemma plain_join l : Forall (fun t => plain t) l -> plain (join_with 38 l).
Proof.
  induction 1 as [|t l Ht Hl IH]; [constructor|]. destruct l as [|t' l]; [done|]. rewrite join_with_cons by done.
  apply Forall_app. split; [done|]. constructor; [lia|done].
Qed.

Lemma plain_query : plain query_part.
Proof.
  unfold query_part. destruct Hu as (_ & _ & _ & _ & _ & _ & _ & Hq & _). destruct (u_params u) as [|q ps]; [constructor|].
  constructor; [lia|]. apply plain_join, Forall_fmap. apply (Forall_impl _ _ _ Hq). by intros x (Hx & _).
Qed.

Lemma authority_avoids c : (c = 47 \/ c = 63)%Z -> c ∉ url_authority u.
Proof.
  intros Hc. pose proof (host_avoids c ltac:(lia)) as Hh. unfold url_authority. rewrite not_elem_of_app. split.
  - destruct (u_bracket u); [|done]. rewrite !not_elem_of_app, !list_elem_of_singleton. unfold LBRACKET, RBRACKET. split_and!; done || lia.
  - destruct (u_port u) as [[t n]|] eqn:Hp; [|apply not_elem_of_nil]. apply not_elem_of_cons. split; [unfold COLON; lia|].
    destruct Hc as [-> | ->]; by eapply port_avoids; [|lia].
Qed.

Lemma split_path_text : split_upstream_path (url_authority u ++ path_text)
  = Ok (url_authority u, match u_path u with Some p => Some (47%Z :: p) | None => None end).
Proof.
  assert (url_authority u <> []) as Hne.
  { unfold url_authority. destruct Hu as (_ & _ & Hh & _). destruct (u_bracket u); [done|]. by destruct (u_host u). }
  unfold split_upstream_path, path_text. destruct (u_path u) as [p|].
  - rewrite split_once_app by (apply authority_avoids; lia). rewrite decide_False by done. rewrite drop_app_length. case_decide; by subst.
  - rewrite app_nil_r, split_once_none by (apply authority_avoids; lia). by rewrite decide_False.
Qed.

Lemma split_query_text : match split_once 63 ((url_authority u ++ path_text) ++ query_part) with Some (a, q) => (a, q) | None => ((url_authority u ++ path_text) ++ query_part, []) end
  = (url_authority u ++ path_text, query_of (u_params u)).
Proof.
  assert (63%Z ∉ url_authority u ++ path_text) as Hq.
  { apply not_elem_of_app. split; [apply authority_avoids; lia|]. unfold path_text. destruct Hu as (_ & _ & _ & _ & _ & _ & Hp & _).
    destruct (u_path u) as [p|]; [|apply not_elem_of_nil]. destruct (Hp p eq_refl) as (_ & H63 & _). apply not_elem_of_cons. split; [lia|done]. }
  unfold query_part. destruct (u_params u) as [|q ps].
  - by rewrite app_nil_r, split_once_none.
  - by rewrite split_once_app.
Qed.

Lemma url_text_shape : url_text u = u_scheme u ++ COLON :: ([47; 47]%Z ++ ((url_authority u ++ path_text) ++ query_part)).
Proof. done. Qed.

Lemma plain_url : plain (url_text u).
Proof.
  rewrite url_text_shape. destruct Hu as (Hs & _). apply scheme_chars in Hs as [_ Hs]. apply Forall_app. split; [apply (Forall_impl _ _ _ Hs); lia|].
  constructor; [unfold COLON; lia|]. apply Forall_app. split; [repeat constructor; lia|]. apply Forall_app. split; [|apply plain_query].
  apply Forall_app. split; [apply plain_authority|apply plain_path].
Qed.

Lemma parse_url_text : parse_upstream net (url_text u) bootstrap = Ret (Ok [url_endpoint u]).
Proof.
  pose proof plain_url as Hpl. destruct Hu as (Hs & Hip & Hne & Hh & Hc & Hport & Hpath & Hparams & Hns & Hsni).
  destruct (scheme_chars _ _ Hs) as [Hsne Hsc]. unfold parse_upstream.
  assert (trim (url_text u) = url_text u) as ->.
  { destruct (url_text u) as [|c t] eqn:Ht; [done|]. apply trim_graphic. apply (Forall_impl _ _ _ Hpl). tauto. }
  rewrite decide_False. 2:{ rewrite url_text_shape. by destruct (u_scheme u). }
  unfold str_contains. rewrite !bool_decide_eq_false_2 by (eapply Forall_not_elem; [exact Hpl|cbn; lia]).
  rewrite url_text_shape. change (lit "://") with (COLON :: [47; 47]%Z).
  rewrite split_once_str_app by (eapply Forall_not_elem; [exact Hsc|unfold COLON; lia]).
  rewrite Hs. cbn [obind_res]. rewrite split_query_text. cbv beta iota.
  rewrite parse_query_texts by done. cbn [obind_res].
  destruct (reads_url u Hparams) as (R1 & R2 & R3 & R4 & [ts R5]). set (params := foldl param_step _ _) in *.
  rewrite R3, R5, R4. cbn [obind_res]. rewrite decide_False by (rewrite R1; intros [H1 H2]; by apply H2, Hns).
  rewrite decide_False by (rewrite R2; intros [H1 H2]; rewrite (Hsni H1) in H2; done).
  rewrite split_path_text. cbn [obind_res]. rewrite resolve_authority_text. cbn [obind_res]. rewrite R1, R2, host_no_brackets.
  unfold url_endpoint. destruct (u_path u) as [p|]; [|destruct (u_proto u); done].
  destruct (Hpath p eq_refl) as (_ & _ & [-> | ->]); done.
Qed.
End authority.
End roundtrip.

(** Every upstream URL of the documented form is understood.  For each scheme in
    any letter case, each address literal (IPv6 in brackets), with or without port, path (DoH
    only) and any list of parameters, the URL parses to the endpoint it describes: its address
    and port or the scheme's default port, the given server name or the host, the path or
    /dns-query, and the last value of each repeated parameter. *)
Theorem upstream_url_roundtrip net bootstrap u : url_ok bootstrap u -> parse_upstream net (url_text u) bootstrap = Ret (Ok [url_endpoint u]).
Proof. apply parse_url_text. Qed.

Definition demo_url : Url :=
  mkUrl (lit "HTTPS") PHttps true (lit "2001:db8::1") (V6 ([0x20; 0x01; 0x0d; 0xb8] ++ replicate 11 0 ++ [1])%Z) (Some (lit "8443", 8443%Z)) (Some (lit "q"))
    [MarkWith (lit "0x1F") 31; EcsMode_ (lit "strip") EcsStrip].

Lemma upstream_url_witness : parse_upstream (fun _ _ _ => None) (lit "HTTPS://[2001:db8::1]:8443/q?mark=0x1F&ecs=strip") (fun _ => Ok [])
  = Ret (Ok [mkEndpoint PHttps (mkSock (V6 ([0x20; 0x01; 0x0d; 0xb8] ++ replicate 11 0 ++ [1])%Z) 8443) (Some (lit "2001:db8::1")) (Some (lit "/q")) false (Some EcsStrip) (Some 31%Z)]).
Proof.
  refine (upstream_url_roundtrip (fun _ _ _ => None) (fun _ => Ok []) demo_url _).
  assert (forall c, bool_decide (graphic c /\ c <> 35%Z /\ c <> 64%Z) = true -> graphic c /\ c <> 35%Z /\ c <> 64%Z) as Hg by (intros c H; by apply bool_decide_eq_true in H).
  assert (forall q, bool_decide (Forall (fun c : Z => graphic c /\ c <> 35%Z /\ c <> 64%Z) (param_text q)) = true -> bool_decide (38%Z ∉ param_text q) = true ->
    match q with EcsMode_ t m => parse_ecs_param (Some t) = Ok (Some m) | BootstrapFrom n ts => (Ok [] : result url_error _) = Ok ts | MarkWith t m => parse_fwmark t = Ok m | _ => True end ->
    param_ok (fun _ => Ok []) q) as Hq.
  { intros q H1%bool_decide_eq_true H2%bool_decide_eq_true H3. by split_and!. }
  split_and!; try done.
  - apply (bool_decide_unpack _). by vm_compute.
  - intros t n [= <- <-]. by vm_compute.
  - intros p [= <-]. split_and!; [apply (bool_decide_unpack _); by vm_compute|apply (bool_decide_unpack _); by vm_compute|by left].
  - apply Forall_cons. split; [apply Hq; by vm_compute|apply Forall_singleton, Hq; by vm_compute].
Defined.

(** A port that is not a number is ignored behind a bracketed address: the upstream
    is reached on the default port. *)
Lemma bad_port_defaults : parse_upstream (fun _ _ _ => None) (lit "tls://[::1]:99999") (fun _ => Ok [])
  = Ret (Ok [mkEndpoint PTls (mkSock (V6 (replicate 15 0 ++ [1])%Z) 853) (Some (lit "::1")) None false None None]).
Proof. by vm_compute. Qed.
