(* ===== verification/ConfigServers.v ===== *)
(** * The servers of a configuration

    [parse_servers] of [src/config/parse.rs] with its fixed answers: names, URLs and bootstrap
    references are collected and checked first, then the servers are resolved in
    dependency order. *)

From stdpp Require Import gmap strings.
From S2P Require Import Prelude Hasher DnsName DnsQuery Utf8 DnsQname DnsRecords DnsEdns Ecs DnsBuilder CacheMap Cache IpRange RustStr Domain IpParse Ruleset RouteIndex Router Upstream UpstreamUrl.

(** [serde_json::Value]; a number is kept as its text. *)
Inductive Json :=
| JNull | JBool (b : bool) | JNumber (text : list Z) | JString (s : list Z) | JArray (items : list Json)
| JObject (fields : list (list Z * Json)).

Inductive ServerSpec :=
| SUpstream (endpoints : list UpstreamEndpoint)
| SFixed (set : FixedAnswerSet).

(** The error sites of [parse_servers]. *)
Inductive server_error :=
| EmptyServerName | DuplicateServer (name : list Z) | NotAllStrings (name : list Z) | NotUrls (name : list Z) | NoUrls (name : list Z)
| MixedAnswers (name : list Z) | SelfReference (name : list Z) | UnknownReference (name dep : list Z) | FixedReference (name dep : list Z)
| RcodeMixed | RcodeTwice | ATwice | AaaaTwice | UrlError (e : url_error) | InServer (name : list Z) (e : url_error)
| ReferenceCycle (stuck : list (list Z)).

(** ** Fixed answers *)

Definition scheme_of (url : list Z) : option (list Z) :=
  match split_once_str (lit "://") url with Some (scheme, _) => Some (ascii_upper <$> scheme) | None => None end.

Definition is_fixed_answer_url (url : list Z) : bool :=
  match scheme_of url with
  | Some s => bool_decide (s = lit "A") || bool_decide (s = lit "AAAA") || bool_decide (s = lit "RCODE")
  | None => false
  end.

Definition count_scheme (urls : list (list Z)) (scheme : string) : nat :=
  length (filter (fun u => scheme_of u = Some (lit scheme)) urls).

Fixpoint fixed_answers (urls : list (list Z)) : result server_error (list FixedAnswer) :=
  match urls with
  | [] => Ok []
  | url :: urls =>
      match parse_fixed_answer url with
      | Err e => Err (UrlError e)
      | Ok a => match fixed_answers urls with Ok l => Ok (a :: l) | Err e => Err e end
      end
  end.

Definition parse_fixed_answer_set (urls : list (list Z)) : outcome (result server_error FixedAnswerSet) :=
  let rcode_count := count_scheme urls "RCODE" in
  let a_count := count_scheme urls "A" in
  let aaaa_count := count_scheme urls "AAAA" in
  if decide (0 < rcode_count /\ 0 < a_count + aaaa_count) then Ret (Err RcodeMixed)
  else if decide (1 < rcode_count) then Ret (Err RcodeTwice)
  else if decide (rcode_count = 1) then
    let! url := idx urls 0 in
    let rest := match split_once_str (lit "://") url with Some (_, rest) => rest | None => [] end in
    Ret (match split_answer_ttl rest with
         | Err e => Err (UrlError e)
         | Ok (rcode_name, ttl) =>
             match parse_rcode_name rcode_name with
             | Err e => Err (UrlError e)
             | Ok rcode => Ok (mkFixed (Some rcode) ttl [])
             end
         end)
  else if decide (1 < a_count) then Ret (Err ATwice)
  else if decide (1 < aaaa_count) then Ret (Err AaaaTwice)
  else Ret (match fixed_answers urls with Ok answers => Ok (mkFixed None 0 answers) | Err e => Err e end).

(** ** Collecting the entries *)

Definition bootstrap_ref (url : list Z) : option (list Z) :=
  match split_once_str (lit "://") url with
  | None => None
  | Some (_, rest) =>
      match split_once 63 rest with
      | None => None
      | Some (_, query) => head (omap (strip_prefix (lit "bootstrap=")) (str_split 38 query))
      end
  end.

Record Pending := mkPending {
  pd_name : list Z;
  pd_urls : list (list Z);
  pd_fixed : bool;
  pd_deps : list (list Z)
}.

Fixpoint json_strings (items : list Json) : option (list (list Z)) :=
  match items with
  | [] => Some []
  | JString s :: items => match json_strings items with Some l => Some (s :: l) | None => None end
  | _ => None
  end.

Definition server_urls (name : list Z) (value : Json) : result server_error (list (list Z)) :=
  match value with
  | JString s => Ok [s]
  | JArray items => match json_strings items with Some l => Ok l | None => Err (NotAllStrings name) end
  | _ => Err (NotUrls name)
  end.

(** One entry of [route.servers]. *)
Definition pending_of (name : list Z) (value : Json) : result server_error Pending :=
  match server_urls name value with
  | Err e => Err e
  | Ok urls =>
      if decide (length urls = 0) then Err (NoUrls name)
      else
        let fixed_count := length (filter (fun u => is_fixed_answer_url u = true) urls) in
        if decide (fixed_count = 0) then Ok (mkPending name urls false (trim <$> omap bootstrap_ref urls))
        else if decide (fixed_count = length urls) then Ok (mkPending name urls true [])
        else Err (MixedAnswers name)
  end.

Fixpoint collect_servers (servers : list (list Z * Json)) (seen : gset (list Z)) : result server_error (list Pending) :=
  match servers with
  | [] => Ok []
  | (raw, value) :: servers =>
      let name := trim raw in
      if decide (name = []) then Err EmptyServerName
      else if decide (name ∈ seen) then Err (DuplicateServer name)
      else
        match pending_of name value with
        | Err e => Err e
        | Ok p => match collect_servers servers ({[name]} ∪ seen) with Ok l => Ok (p :: l) | Err e => Err e end
        end
  end.

(** ** Checking the references *)

Fixpoint check_deps (all fixed : gset (list Z)) (name : list Z) (deps : list (list Z)) : result server_error unit :=
  match deps with
  | [] => Ok tt
  | dep :: deps =>
      if decide (dep = name) then Err (SelfReference name)
      else if decide (dep ∉ all) then Err (UnknownReference name dep)
      else if decide (dep ∈ fixed) then Err (FixedReference name dep)
      else check_deps all fixed name deps
  end.

Fixpoint check_references (all fixed : gset (list Z)) (pending : list Pending) : result server_error unit :=
  match pending with
  | [] => Ok tt
  | p :: pending => match check_deps all fixed (pd_name p) (pd_deps p) with Ok _ => check_references all fixed pending | Err e => Err e end
  end.

(** ** Resolving in dependency order *)

Record Resolution := mkResolution {
  rs_resolved : list (option ServerSpec);
  rs_targets : gmap (list Z) (list BootstrapTarget);
  rs_remaining : nat
}.

Definition targets_of (endpoints : list UpstreamEndpoint) : list BootstrapTarget :=
  (fun e => mkTarget (ep_addr e) (ep_mark e)) <$> endpoints.

Section servers.
Context (net : Network).

Definition lookup_target (targets : gmap (list Z) (list BootstrapTarget)) (name : list Z) : result url_error (list BootstrapTarget) :=
  Ok (default [] (targets !! name)).

(** The specification of a server whose references are resolved, and the targets with its
    own ones. *)
Definition resolve_server (p : Pending) (targets : gmap (list Z) (list BootstrapTarget))
    : outcome (result server_error (ServerSpec * gmap (list Z) (list BootstrapTarget))) :=
  if pd_fixed p then
    let* set := parse_fixed_answer_set (pd_urls p) in Ret (Ok (SFixed set, targets))
  else
    let! r := parse_upstreams net (pd_urls p) (lookup_target targets) in
    match r with
    | Err e => Ret (Err (InServer (pd_name p) e))
    | Ok endpoints => Ret (Ok (SUpstream endpoints, <[pd_name p := targets_of endpoints]> targets))
    end.

(** One pass over the servers, from position [i] on. *)
Fixpoint resolve_pass (i : nat) (pending : list Pending) (st : Resolution) (progressed : bool)
    : outcome (result server_error (Resolution * bool)) :=
  match pending with
  | [] => Ret (Ok (st, progressed))
  | p :: pending =>
      let! slot := idx (rs_resolved st) i in
      if decide (is_Some slot) then resolve_pass (S i) pending st progressed
      else if negb (forallb (fun d => bool_decide (is_Some (rs_targets st !! d))) (pd_deps p)) then resolve_pass (S i) pending st progressed
      else
        let* (spec, targets) := resolve_server p (rs_targets st) in
        let! resolved := store (rs_resolved st) i (Some spec) in
        let! remaining := usub (rs_remaining st) 1 in
        resolve_pass (S i) pending (mkResolution resolved targets remaining) true
  end.

(** The names of the servers that are not resolved. *)
Definition stuck_names (pending : list Pending) (st : Resolution) : list (list Z) :=
  omap (fun '(p, slot) => match slot with None => Some (pd_name p) | Some _ => None end) (zip pending (rs_resolved st)).

(** [while remaining > 0] *)
Fixpoint resolve_loop (fuel : nat) (pending : list Pending) (st : Resolution) : outcome (result server_error Resolution) :=
  match fuel with
  | 0 => OutOfFuel
  | S fuel =>
      if decide (rs_remaining st = 0) then Ret (Ok st)
      else
        let* (st, progressed) := resolve_pass 0 pending st false in
        if negb progressed then Ret (Err (ReferenceCycle (stuck_names pending st)))
        else resolve_loop fuel pending st
  end.

Definition parse_servers (servers : list (list Z * Json)) : outcome (result server_error (list (list Z * ServerSpec))) :=
  let* pending := Ret (collect_servers servers ∅) in
  let all := list_to_set (pd_name <$> pending) in
  let fixed := list_to_set (pd_name <$> filter (fun p => pd_fixed p = true) pending) in
  let* _ := Ret (check_references all fixed pending) in
  let st := mkResolution (replicate (length pending) None) ∅ (length pending) in
  let* st := resolve_loop (S (length pending)) pending st in
  Ret (Ok (omap (fun '(p, slot) => match slot with Some s => Some (pd_name p, s) | None => None end) (zip pending (rs_resolved st)))).
End servers.
