(* ===== verification/ConfigServersCorrect.v ===== *)
(** * Correctness of the server section

    The dependency-ordered resolution of [route.servers] always ends; it succeeds only for
    acyclic references, each server being resolved through the addresses its reference
    resolved to, and it reports a cycle only if there is one. *)

From stdpp Require Import gmap strings.
From S2P Require Import Prelude Hasher DnsName DnsQuery Utf8 DnsQname DnsRecords DnsEdns Ecs DnsBuilder CacheMap Cache IpRange RustStr Domain IpParse Ruleset RouteIndex Router Upstream UpstreamWire UpstreamUrl UpstreamUrlCorrect ConfigServers.

(** ** Fixed answers *)

Definition answer_ok (a : FixedAnswer) : Prop :=
  match a with
  | FixedA o ttl => length o = 4 /\ bytes_ok o /\ (0 <= ttl <= MAX_DNS_TTL)%Z
  | FixedAaaa o ttl => length o = 16 /\ bytes_ok o /\ (0 <= ttl <= MAX_DNS_TTL)%Z
  end.

Definition is_a (a : FixedAnswer) : bool := match a with FixedA _ _ => true | _ => false end.

(** Either one RCODE and no record, or at most one A and one AAAA record. *)
Definition fixed_set_ok (s : FixedAnswerSet) : Prop :=
  Forall answer_ok (fs_answers s) /\ (0 <= fs_rcode_ttl s <= MAX_DNS_TTL)%Z /\
  (forall r, fs_rcode s = Some r -> (0 <= r <= 15)%Z /\ fs_answers s = []) /\
  length (List.filter is_a (fs_answers s)) <= 1 /\ length (List.filter (fun a => negb (is_a a)) (fs_answers s)) <= 1.

Lemma ttl_loop_range ps t ttl : (0 <= t <= MAX_DNS_TTL)%Z -> ttl_loop ps t = Ok ttl -> (0 <= ttl <= MAX_DNS_TTL)%Z.
Proof.
  revert t. induction ps as [|p ps IH]; intros t Ht; cbn [ttl_loop]; [by intros [= <-]|].
  destruct (strip_prefix _ p) as [v|]; [|done]. destruct (parse_uint 32 v) as [n|] eqn:Hn; [|done].
  apply parse_uint_range in Hn; [|done]. unfold u_ok in Hn. case_decide; [done|]. apply IH. lia.
Qed.

Lemma split_answer_ttl_range rest v ttl : split_answer_ttl rest = Ok (v, ttl) -> (0 <= ttl <= MAX_DNS_TTL)%Z.
Proof.
  unfold split_answer_ttl. destruct (split_once 63 rest) as [[a q]|].
  - destruct (ttl_loop _ _) as [t|] eqn:Ht; [|done]. intros [= <- <-]. by eapply ttl_loop_range; [|exact Ht].
  - by intros [= <- <-].
Qed.

Lemma parse_rcode_range n r : parse_rcode_name n = Ok r -> (0 <= r <= 15)%Z.
Proof.
  unfold parse_rcode_name. set (u := ascii_upper <$> n). intros Hr.
  repeat (case_decide; [injection Hr as <-; lia|]).
  destruct (parse_uint 8 u) as [z|] eqn:Hz; [|done]. apply parse_uint_range in Hz; [|done]. unfold u_ok in Hz.
  revert Hr. case_decide; [done|]. intros [= <-]. lia.
Qed.

Lemma parse_ipv6_ok s o : parse_ipv6 s = Some o -> length o = 16 /\ bytes_ok o.
Proof.
  unfold parse_ipv6. destruct (read_ipv6_addr s) as [[x s1]|] eqn:H6; [|done]. destruct s1; [|done]. intros [= ->]. by apply read_ipv6_addr_ok in H6.
Qed.

Lemma parse_fixed_answer_spec url a : parse_fixed_answer url = Ok a ->
  answer_ok a /\ scheme_of url = Some (if is_a a then lit "A" else lit "AAAA").
Proof.
  unfold parse_fixed_answer, scheme_of. destruct (split_once_str _ url) as [[scheme rest]|]; [|done].
  destruct (split_answer_ttl rest) as [[v ttl]|] eqn:Ht; [|done]. apply split_answer_ttl_range in Ht.
  case_decide as Ha; [|clear Ha; case_decide as Ha; [|done]].
  - unfold parse_ipv4. destruct (read_ipv4_addr (trim v)) as [[o r]|] eqn:Ho; [|done]. destruct r; [|done]. intros [= <-].
    apply read_octets_ok in Ho as [? ?]. rewrite Ha. by split_and!.
  - destruct (parse_ipv6 (trim v)) as [o|] eqn:Ho; [|done]. intros [= <-]. apply parse_ipv6_ok in Ho as [? ?]. rewrite Ha. by split_and!.
Qed.

Lemma fixed_answers_spec urls l : fixed_answers urls = Ok l ->
  Forall answer_ok l /\ length (List.filter is_a l) = count_scheme urls "A" /\ length (List.filter (fun a => negb (is_a a)) l) = count_scheme urls "AAAA".
Proof.
  revert l. induction urls as [|u urls IH]; intros l; cbn [fixed_answers]; [by intros [= <-]|].
  destruct (parse_fixed_answer u) as [a|] eqn:Ha; [|done]. destruct (fixed_answers urls) as [l'|]; [|done]. intros [= <-].
  apply parse_fixed_answer_spec in Ha as [Ha Hs]. destruct (IH l' eq_refl) as (H1 & H2 & H3). split; [by constructor|].
  unfold count_scheme in *. destruct (is_a a) eqn:Hia; cbn [List.filter]; rewrite Hia; cbn [negb length].
  - rewrite filter_cons_True, filter_cons_False by (rewrite Hs; done || (intros [=])). cbn [length]. by rewrite H2, H3.
  - rewrite filter_cons_False, filter_cons_True by (rewrite Hs; done || (intros [=])). cbn [length]. by rewrite H2, H3.
Qed.

Lemma parse_fixed_answer_set_spec urls : urls <> [] -> exists r, parse_fixed_answer_set urls = Ret r /\
  (forall s, r = Ok s -> fixed_set_ok s) /\ (forall l, r <> Err (ReferenceCycle l)).
Proof.
  intros Hne. unfold parse_fixed_answer_set. case_decide; [eexists; by split|]. case_decide; [eexists; by split|].
  case_decide as Hr.
  - destruct urls as [|u urls]; [done|]. cbn [idx lookup list_lookup obind]. eexists. split; [done|].
    destruct (split_answer_ttl _) as [[v ttl]|] eqn:Ht; [|done]. destruct (parse_rcode_name v) as [rc|] eqn:Hrc; [|done].
    split; [|done]. intros s [= <-]. apply split_answer_ttl_range in Ht. apply parse_rcode_range in Hrc. split_and!; cbn; try done || lia.
    by intros r [= <-].
  - do 2 (case_decide; [eexists; by split|]). eexists. split; [done|]. destruct (fixed_answers urls) as [l|e] eqn:Hl.
    + split; [|done]. intros s [= <-]. apply fixed_answers_spec in Hl as (Hf1 & Hf2 & Hf3). split_and!; cbn; try done; lia.
    + split; [done|]. intros k [= ->]. revert Hl. clear. induction urls as [|u urls IH]; cbn [fixed_answers]; [done|].
      destruct (parse_fixed_answer u); [|done]. destruct (fixed_answers urls); [done|]. intros [= ->]. by apply IH.
Qed.

(** ** Phase one *)

Lemma pending_of_spec name value p : pending_of name value = Ok p ->
  pd_name p = name /\ pd_urls p <> [] /\ (pd_fixed p = true -> pd_deps p = []).
Proof.
  unfold pending_of. destruct (server_urls name value) as [urls|]; [|done]. case_decide as Hl; [done|].
  assert (urls <> []) by (by destruct urls). case_decide; [by intros [= <-]|]. case_decide; [by intros [= <-]|done].
Qed.

Lemma collect_servers_spec servers seen pending : collect_servers servers seen = Ok pending ->
  NoDup (pd_name <$> pending) /\ Forall (fun p => (pd_name p ∉ seen) /\ pd_urls p <> [] /\ (pd_fixed p = true -> pd_deps p = [])) pending /\
  (pd_name <$> pending) = (trim ∘ fst) <$> servers.
Proof.
  revert seen pending. induction servers as [|[raw value] servers IH]; intros seen pending; cbn [collect_servers].
  { intros [= <-]. split_and!; [constructor|constructor|done]. }
  case_decide; [done|]. case_decide as Hs; [done|]. destruct (pending_of _ value) as [p|] eqn:Hp; [|done].
  destruct (collect_servers servers _) as [l|] eqn:Hl; [|done]. intros [= <-]. apply pending_of_spec in Hp as (Hn & Hu & Hd).
  destruct (IH _ _ Hl) as (H1 & H2 & H3). split_and!; [cbn [fmap list_fmap]; constructor; [|done]|constructor|].
  - intros Hin. apply list_elem_of_fmap in Hin as (q & Hq & Hin). apply (proj1 (Forall_forall _ _) H2) in Hin as [Hq' _].
    apply Hq'. apply elem_of_union_l. apply elem_of_singleton. congruence.
  - split_and!; [by rewrite Hn|done|done].
  - apply (Forall_impl _ _ _ H2). intros q (Hq & Hr). split; [|done]. intros Hin. apply Hq. by apply elem_of_union_r.
  - cbn [fmap list_fmap]. f_equal; [done|apply H3].
Qed.

Lemma check_deps_spec all fixed name deps : check_deps all fixed name deps = Ok tt <-> Forall (fun d => d <> name /\ d ∈ all /\ (d ∉ fixed)) deps.
Proof.
  induction deps as [|d deps IH]; cbn [check_deps]; [split; [constructor|done]|]. rewrite Forall_cons.
  do 3 (case_decide; [split; [done|intros [(? & ? & ?) _]; done]|]). rewrite IH.
  split; [|tauto]. intros Hr. split; [|done]. by split_and!.
Qed.

Lemma check_references_spec all fixed pending : check_references all fixed pending = Ok tt ->
  Forall (fun p => Forall (fun d => d <> pd_name p /\ d ∈ all /\ (d ∉ fixed)) (pd_deps p)) pending.
Proof.
  induction pending as [|p pending IH]; cbn [check_references]; [constructor|]. destruct (check_deps _ _ _ _) as [[]|] eqn:Hc; [|done].
  intros Hr. constructor; [by apply check_deps_spec|by apply IH].
Qed.

Lemma forallb_false {A} (f : A -> bool) l : forallb f l = false -> exists x, x ∈ l /\ f x = false.
Proof.
  induction l as [|x l IH]; cbn [forallb]; [done|]. rewrite andb_false_iff. intros [Hx|Hl]; [exists x; split; [apply list_elem_of_here|done]|].
  destruct (IH Hl) as (y & Hy & Hf). exists y. split; [by apply list_elem_of_further|done].
Qed.

(** ** Phase two *)

Definition spec_ok (s : ServerSpec) : Prop :=
  match s with SUpstream es => es <> [] /\ Forall endpoint_ok es | SFixed set => fixed_set_ok set end.

Definition unresolved (l : list (option ServerSpec)) : nat := length (List.filter (fun s => match s with None => true | Some _ => false end) l).

Lemma unresolved_app l1 l2 : unresolved (l1 ++ l2) = unresolved l1 + unresolved l2.
Proof. unfold unresolved. by rewrite List.filter_app, length_app. Qed.

Lemma unresolved_resolve l i s : l !! i = Some None -> unresolved l = S (unresolved (<[i := Some s]> l)).
Proof.
  intros Hi. rewrite <- (take_drop_middle _ _ _ Hi) at 1. rewrite insert_take_drop by (by eapply lookup_lt_Some). rewrite !unresolved_app. cbn. lia.
Qed.

Lemma unresolved_replicate n : unresolved (replicate n None) = n.
Proof. induction n as [|n IH]; [done|]. cbn. by f_equal. Qed.

Lemma unresolved_exists l : unresolved l <> 0 -> exists i, l !! i = Some None.
Proof.
  induction l as [|s l IH]; [done|]. destruct s as [s|]; [|by exists 0]. intros Hu. destruct (IH Hu) as [i Hi]. by exists (S i).
Qed.

Lemma unresolved_zero l i : unresolved l = 0 -> l !! i <> Some None.
Proof. intros Hu Hi. pose proof (unresolved_resolve l i (SUpstream []) Hi). lia. Qed.

Section resolution.
Context (net : Network) (net_bytes : forall s m q r, net s m q = Some r -> bytes_ok r).
Context (pending : list Pending).

(** How a server was resolved: its reference was resolved before it, and to the
    addresses and marks of that server's endpoints. *)
Definition resolved_from (T : gmap (list Z) (list BootstrapTarget)) (p : Pending) (spec : ServerSpec) : Prop :=
  match spec with
  | SFixed set => pd_fixed p = true /\ parse_fixed_answer_set (pd_urls p) = Ret (Ok set)
  | SUpstream es => pd_fixed p = false /\ T !! pd_name p = Some (targets_of es) /\
      exists T0, T0 ⊆ T /\ (forall d, d ∈ pd_deps p -> is_Some (T0 !! d)) /\ parse_upstreams net (pd_urls p) (lookup_target T0) = Ret (Ok es)
  end.

Lemma resolved_from_mono T T' p spec : T ⊆ T' -> resolved_from T p spec -> resolved_from T' p spec.
Proof.
  intros Hs. destruct spec as [es|set]; cbn; [|done]. intros (H1 & H2 & T0 & H3 & H4). split_and!; [done|by eapply lookup_weaken|].
  exists T0. split; [by etrans|done].
Qed.

(** References of the servers resolved so far go to servers resolved earlier. *)
Definition ranked (resolved : list (option ServerSpec)) : Prop :=
  exists (rank : list Z -> nat) k, forall i p spec, pending !! i = Some p -> resolved !! i = Some (Some spec) ->
    rank (pd_name p) < k /\ forall d, d ∈ pd_deps p -> rank d < rank (pd_name p).

Record rinv (st : Resolution) : Prop := mkRinv {
  inv_length : length (rs_resolved st) = length pending;
  inv_remaining : rs_remaining st = unresolved (rs_resolved st);
  inv_targets : forall n ts, rs_targets st !! n = Some ts -> exists i p es,
    pending !! i = Some p /\ pd_name p = n /\ rs_resolved st !! i = Some (Some (SUpstream es)) /\ ts = targets_of es;
  inv_specs : forall i p spec, pending !! i = Some p -> rs_resolved st !! i = Some (Some spec) -> resolved_from (rs_targets st) p spec /\ spec_ok spec;
  inv_ranked : ranked (rs_resolved st)
}.

Context (names_distinct : NoDup (pd_name <$> pending)) (urls_given : Forall (fun p => pd_urls p <> []) pending)
  (fixed_no_deps : Forall (fun p => pd_fixed p = true -> pd_deps p = []) pending).

Lemma name_position i j p q : pending !! i = Some p -> pending !! j = Some q -> pd_name p = pd_name q -> i = j.
Proof.
  intros Hi Hj Hn. eapply NoDup_lookup; [exact names_distinct| |]; rewrite list_lookup_fmap.
  - by rewrite Hi.
  - rewrite Hj. cbn. by rewrite Hn.
Qed.

Lemma resolve_server_spec p T : pd_urls p <> [] -> exists r, resolve_server net p T = Ret r /\
  (forall l, r <> Err (ReferenceCycle l)) /\
  forall spec T', r = Ok (spec, T') -> spec_ok spec /\
    match spec with
    | SFixed set => pd_fixed p = true /\ parse_fixed_answer_set (pd_urls p) = Ret (Ok set) /\ T' = T
    | SUpstream es => pd_fixed p = false /\ parse_upstreams net (pd_urls p) (lookup_target T) = Ret (Ok es) /\ T' = <[pd_name p := targets_of es]> T
    end.
Proof.
  intros Hu. unfold resolve_server. destruct (pd_fixed p) eqn:Hf.
  - destruct (parse_fixed_answer_set_spec (pd_urls p) Hu) as (r & Hr & Hok & Hne). rewrite Hr. destruct r as [set|e]; cbn [obind_res]; eexists; (split; [done|]).
    + split; [done|]. intros spec T' [= <- <-]. split; [by apply Hok|done].
    + split; [|done]. intros l [= ->]. by apply (Hne l).
  - destruct (parse_upstreams_spec net net_bytes (pd_urls p) (lookup_target T)) as (r & Hr & Hok). rewrite Hr. cbn [obind].
    destruct r as [es|e]; eexists; (split; [done|]); [|done]. split; [done|]. intros spec T' [= <- <-]. destruct (Hok es eq_refl) as (H1 & H2 & _). done.
Qed.
Lemma ranked_resolve st i p spec : rinv st -> pending !! i = Some p -> rs_resolved st !! i = Some None ->
  (forall d, d ∈ pd_deps p -> is_Some (rs_targets st !! d)) -> ranked (<[i := Some spec]> (rs_resolved st)).
Proof.
  intros Hinv Hp Hi Hd. destruct (inv_ranked st Hinv) as (rank & k & Hr).
  assert (forall d, d ∈ pd_deps p -> rank d < k /\ d <> pd_name p) as Hdep.
  { intros d Hin. destruct (Hd d Hin) as [ts Hts]. destruct (inv_targets st Hinv d ts Hts) as (j & q & es & Hq & Hn & Hj & _). subst d.
    destruct (Hr j q _ Hq Hj) as [Hk _]. split; [done|]. intros E. pose proof (name_position j i q p Hq Hp E). subst j. congruence. }
  exists (fun n => if decide (n = pd_name p) then k else rank n), (S k).
  intros j q s Hq Hj. destruct (decide (j = i)) as [->|Hne].
  - rewrite Hp in Hq. injection Hq as <-. rewrite decide_True by done. split; [lia|]. intros d Hin.
    destruct (Hdep d Hin) as [Hk Hn]. by rewrite decide_False.
  - rewrite list_lookup_insert_ne in Hj by done. destruct (Hr j q s Hq Hj) as [Hk Hdeps].
    assert (pd_name q <> pd_name p) as Hnq by (intros E; apply Hne; by eapply name_position).
    rewrite (decide_False (P := pd_name q = pd_name p)) by done. split; [lia|]. intros d Hin. specialize (Hdeps d Hin). case_decide as E; [|done].
    exfalso. destruct (inv_specs st Hinv j q s Hq Hj) as [Hfrom _]. destruct s as [es|set].
    + cbn in Hfrom. destruct Hfrom as (_ & _ & T0 & Hsub & Hall & _). destruct (Hall d Hin) as [ts Hts].
      pose proof (lookup_weaken _ _ _ _ Hts Hsub) as Hts'. destruct (inv_targets st Hinv d ts Hts') as (j' & q' & es' & Hq' & Hn' & Hj' & _).
      assert (j' = i) as -> by (eapply name_position; [done..|congruence]). congruence.
    + cbn in Hfrom. destruct Hfrom as [Hf _]. by rewrite (proj1 (Forall_forall _ _) fixed_no_deps q (list_elem_of_lookup_2 _ _ _ Hq) Hf) in Hin; apply not_elem_of_nil in Hin.
Qed.

Lemma rinv_resolve st i p spec T' : rinv st -> pending !! i = Some p -> rs_resolved st !! i = Some None ->
  (forall d, d ∈ pd_deps p -> is_Some (rs_targets st !! d)) -> resolve_server net p (rs_targets st) = Ret (Ok (spec, T')) ->
  rinv (mkResolution (<[i := Some spec]> (rs_resolved st)) T' (rs_remaining st - 1)).
Proof.
  intros Hinv Hp Hi Hd Hr. pose proof (ranked_resolve st i p spec Hinv Hp Hi Hd) as Hrank.
  assert (pd_urls p <> []) as Hu by (by eapply (Forall_lookup_1 _ _ _ _ urls_given)).
  destruct (resolve_server_spec p (rs_targets st) Hu) as (r & Hr' & _ & Hok). rewrite Hr in Hr'. apply (inj Ret) in Hr'. subst r.
  destruct (Hok spec T' eq_refl) as [Hspec Hcase]. pose proof (lookup_lt_Some _ _ _ Hi) as Hlt.
  assert (rs_targets st !! pd_name p = None) as Hnone.
  { destruct (rs_targets st !! pd_name p) as [ts|] eqn:Hts; [|done]. destruct (inv_targets st Hinv _ _ Hts) as (j & q & es & Hq & Hn & Hj & _).
    assert (j = i) as -> by (by eapply name_position). congruence. }
  assert (rs_targets st ⊆ T') as Hsub.
  { destruct spec as [es|set]; destruct Hcase as (_ & _ & ->); [by apply insert_subseteq|done]. }
  split; cbn [rs_resolved rs_targets rs_remaining].
  - rewrite length_insert. by apply inv_length.
  - rewrite (inv_remaining st Hinv), (unresolved_resolve _ i spec Hi). lia.
  - intros n ts Hts. assert (forall ts, rs_targets st !! n = Some ts -> exists j q es, pending !! j = Some q /\ pd_name q = n /\
      <[i := Some spec]> (rs_resolved st) !! j = Some (Some (SUpstream es)) /\ ts = targets_of es) as Hold.
    { intros ts0 H0. destruct (inv_targets st Hinv n ts0 H0) as (j & q & es & Hq & Hn & Hj & ->). exists j, q, es. split_and!; [done|done| |done].
      rewrite list_lookup_insert_ne; [done|]. intros <-. congruence. }
    destruct spec as [es|set]; destruct Hcase as (_ & _ & ->); [|by apply Hold].
    destruct (decide (n = pd_name p)) as [->|Hne].
    + rewrite lookup_insert_eq in Hts. injection Hts as <-. exists i, p, es. split_and!; [done|done| |done]. by rewrite list_lookup_insert_eq.
    + rewrite lookup_insert_ne in Hts by done. by apply Hold.
  - intros j q s Hq Hj. destruct (decide (j = i)) as [->|Hne].
    + rewrite list_lookup_insert_eq in Hj by done. injection Hj as <-. rewrite Hp in Hq. injection Hq as <-. split; [|done].
      destruct spec as [es|set]; destruct Hcase as (H1 & H2 & ->); [|by split].
      cbn. split_and!; [done|by rewrite lookup_insert_eq|]. exists (rs_targets st). by split_and!.
    + rewrite list_lookup_insert_ne in Hj by done. destruct (inv_specs st Hinv j q s Hq Hj) as [H1 H2]. split; [|done]. by eapply resolved_from_mono.
  - done.
Qed.

(** A server that is not resolved although a pass made no progress waits for another one. *)
Definition waits (st : Resolution) (p : Pending) : Prop := exists d, d ∈ pd_deps p /\ rs_targets st !! d = None.

Lemma resolve_pass_spec ps i st prog : drop i pending = ps -> rinv st ->
  exists r, resolve_pass net i ps st prog = Ret r /\ (forall l, r <> Err (ReferenceCycle l)) /\
  forall st' prog', r = Ok (st', prog') -> rinv st' /\ rs_remaining st' <= rs_remaining st /\
    (prog' = true -> prog = true \/ rs_remaining st' < rs_remaining st) /\
    (prog' = false -> prog = false /\ st' = st /\
       forall j p, i <= j -> pending !! j = Some p -> rs_resolved st !! j = Some None -> waits st p).
Proof.
  revert i st prog. induction ps as [|p ps IH]; intros i st prog Hdrop Hinv; cbn [resolve_pass].
  { eexists. split_and!; [done|done|]. intros st' prog' [= <- <-]. split_and!; [done|lia|auto|]. intros ->. split_and!; [done|done|].
    intros j p Hij Hj. apply (f_equal (fun l => l !! (j - i))) in Hdrop. rewrite lookup_drop, lookup_nil in Hdrop. replace (i + (j - i)) with j in Hdrop by lia. congruence. }
  assert (pending !! i = Some p) as Hp.
  { apply (f_equal (fun l => l !! 0)) in Hdrop. rewrite lookup_drop, Nat.add_0_r in Hdrop. done. }
  assert (drop (S i) pending = ps) as Hdrop'.
  { replace (S i) with (i + 1) by lia. rewrite <- drop_drop, Hdrop. done. }
  destruct (rs_resolved st !! i) as [slot|] eqn:Hslot.
  2:{ apply lookup_ge_None in Hslot. rewrite (inv_length st Hinv) in Hslot. apply lookup_lt_Some in Hp. lia. }
  rewrite (idx_lookup _ _ _ Hslot). cbn [obind].
  assert (forall skip : rs_resolved st !! i = Some None -> waits st p,
    exists r, resolve_pass net (S i) ps st prog = Ret r /\ (forall l, r <> Err (ReferenceCycle l)) /\
    forall st' prog', r = Ok (st', prog') -> rinv st' /\ rs_remaining st' <= rs_remaining st /\
      (prog' = true -> prog = true \/ rs_remaining st' < rs_remaining st) /\
      (prog' = false -> prog = false /\ st' = st /\
         forall j q, i <= j -> pending !! j = Some q -> rs_resolved st !! j = Some None -> waits st q)) as Hskip.
  { intros skip. destruct (IH (S i) st prog Hdrop' Hinv) as (r & Hr & Hc & Hok). exists r. split_and!; [done|done|].
    intros st' prog' E. destruct (Hok st' prog' E) as (H1 & H2 & H3 & H4). split_and!; [done|done|done|]. intros Hf. destruct (H4 Hf) as (H5 & H6 & H7).
    split_and!; [done|done|]. intros j q Hij Hq Hj. destruct (decide (j = i)) as [->|Hne]; [|apply (H7 j); [lia|done|done]].
    rewrite Hp in Hq. injection Hq as <-. by apply skip. }
  case_decide as Hs; [apply Hskip; rewrite Hslot; intros [= ->]; by destruct Hs|].
  destruct slot as [s|]; [destruct Hs; by eexists|]. destruct (forallb _ (pd_deps p)) eqn:Hf; cbn [negb].
  2:{ apply Hskip. intros _. apply forallb_false in Hf as (d & Hd & Hn). apply bool_decide_eq_false in Hn. exists d. split; [done|].
      by apply eq_None_not_Some. }
  assert (forall d, d ∈ pd_deps p -> is_Some (rs_targets st !! d)) as Hall.
  { intros d Hd. rewrite forallb_forall in Hf. apply list_elem_of_In, Hf in Hd. by apply bool_decide_eq_true in Hd. }
  assert (pd_urls p <> []) as Hu by (by eapply (Forall_lookup_1 _ _ _ _ urls_given)).
  destruct (resolve_server_spec p (rs_targets st) Hu) as (r & Hr & Hc & _). rewrite Hr. destruct r as [[spec T']|e]; cbn [obind_res].
  2:{ eexists. split_and!; [done| |done]. intros l [= ->]. by apply (Hc l). }
  pose proof (rinv_resolve st i p spec T' Hinv Hp Hslot Hall Hr) as Hinv'.
  assert (0 < rs_remaining st) as Hpos by (rewrite (inv_remaining st Hinv), (unresolved_resolve _ i spec Hslot); lia).
  rewrite store_Ret by (by eapply lookup_lt_Some). cbn [obind]. rewrite usub_Ret by lia. cbn [obind].
  destruct (IH (S i) _ true Hdrop' Hinv') as (r & Hr2 & Hc2 & Hok). exists r. split_and!; [done|done|]. cbn [rs_remaining] in Hok.
  intros st' prog' E. destruct (Hok st' prog' E) as (H1 & H2 & H3 & H4). split_and!; [done|lia|intros _; right; lia|]. intros Hff. by destruct (H4 Hff).
Qed.
Lemma resolve_loop_spec fuel st : rinv st -> rs_remaining st < fuel ->
  exists r, resolve_loop net fuel pending st = Ret r /\
  (forall st', r = Ok st' -> rinv st' /\ rs_remaining st' = 0) /\
  (forall l, r = Err (ReferenceCycle l) -> exists st', rinv st' /\ rs_remaining st' <> 0 /\ l = stuck_names pending st' /\
     forall j p, pending !! j = Some p -> rs_resolved st' !! j = Some None -> waits st' p).
Proof.
  revert st. induction fuel as [|fuel IH]; intros st Hinv Hf; [lia|]. cbn [resolve_loop]. case_decide as Hz.
  { eexists. split_and!; [done| |done]. by intros st' [= <-]. }
  destruct (resolve_pass_spec pending 0 st false eq_refl Hinv) as (r & Hr & Hc & Hok). rewrite Hr. destruct r as [[st' prog]|e]; cbn [obind_res].
  - destruct (Hok st' prog eq_refl) as (H1 & H2 & H3 & H4). destruct prog; cbn [negb].
    + destruct (H3 eq_refl) as [?|Hlt]; [done|]. apply IH; [done|lia].
    + destruct (H4 eq_refl) as (_ & -> & Hw). eexists. split_and!; [done|done|]. intros l [= <-]. exists st. split_and!; [done|done|done|].
      intros j p Hp Hj. by apply (Hw j p); [lia|..].
  - eexists. split_and!; [done|done|]. intros l [= ->]. by destruct (Hc l).
Qed.

Lemma stuck_elem st n : length (rs_resolved st) = length pending ->
  n ∈ stuck_names pending st <-> exists i p, pending !! i = Some p /\ rs_resolved st !! i = Some None /\ pd_name p = n.
Proof.
  intros Hl. unfold stuck_names. rewrite list_elem_of_omap. split.
  - intros ([p slot] & Hin & Hs). apply list_elem_of_lookup in Hin as [i Hi]. apply lookup_zip_Some in Hi as [Hp Hi].
    destruct slot; [done|]. injection Hs as <-. by exists i, p.
  - intros (i & p & Hp & Hi & <-). exists (p, None). split; [|done]. apply list_elem_of_lookup. exists i. by apply lookup_zip_Some.
Qed.

Lemma all_resolved st : rinv st -> rs_remaining st = 0 -> exists specs, rs_resolved st = Some <$> specs.
Proof.
  intros Hinv Hz. rewrite (inv_remaining st Hinv) in Hz. revert Hz. generalize (rs_resolved st). intros l. induction l as [|s l IH]; intros Hz; [by exists []|].
  destruct s as [s|]; [|discriminate Hz]. destruct (IH Hz) as [specs ->]. by exists (s :: specs).
Qed.

Lemma rinv_initial : rinv (mkResolution (replicate (length pending) None) ∅ (length pending)).
Proof.
  assert (forall i (s : ServerSpec), replicate (length pending) None !! i <> Some (Some s)) as Hn.
  { intros i s H. apply lookup_replicate in H as [? _]. done. }
  split; cbn [rs_resolved rs_targets rs_remaining].
  - by rewrite length_replicate.
  - by rewrite unresolved_replicate.
  - intros n ts. by rewrite lookup_empty.
  - intros i p spec _ H. by apply Hn in H.
  - exists (fun _ => 0), 0. intros i p spec _ H. by apply Hn in H.
Qed.
End resolution.

(** The references of the entries can be ordered. *)
Definition acyclic (pending : list Pending) : Prop :=
  exists rank : list Z -> nat, forall p d, p ∈ pending -> d ∈ pd_deps p -> rank d < rank (pd_name p).

Lemma omap_zip_specs (pending : list Pending) (specs : list ServerSpec) : length specs = length pending ->
  omap (fun '(p, slot) => match slot with Some s => Some (pd_name p, s) | None => None end) (zip pending (Some <$> specs)) = zip (pd_name <$> pending) specs.
Proof.
  revert specs. induction pending as [|p pending IH]; intros [|s specs] Hl; try done. cbn. f_equal. apply IH. by injection Hl.
Qed.

Lemma zip_fst {A B} (l : list A) (k : list B) : length k = length l -> fst <$> zip l k = l.
Proof. intros. rewrite fst_zip; [done|lia]. Qed.

Lemma collect_not_cycle servers seen l : collect_servers servers seen <> Err (ReferenceCycle l).
Proof.
  revert seen. induction servers as [|[raw value] servers IH]; intros seen; cbn [collect_servers]; [done|]. do 2 (case_decide; [done|]).
  destruct (pending_of _ value) as [p|e] eqn:Hp.
  - specialize (IH ({[trim raw]} ∪ seen)). destruct (collect_servers servers _); [done|congruence].
  - unfold pending_of in Hp. destruct (server_urls _ value) as [urls|e'] eqn:Hu.
    + repeat (case_decide; try congruence).
    + unfold server_urls in Hu. repeat case_match; congruence.
Qed.

Lemma check_not_cycle all fixed pending l : check_references all fixed pending <> Err (ReferenceCycle l).
Proof.
  induction pending as [|p pending IH]; cbn [check_references]; [done|]. destruct (check_deps _ _ _ _) eqn:Hc; [done|].
  intros [= ->]. revert Hc. induction (pd_deps p) as [|d deps IHd]; cbn [check_deps]; [done|]. repeat (case_decide; [done|]). done.
Qed.

(** The servers listed in a report wait for each other. *)
Lemma stuck_cycle net pending st n : rinv net pending st ->
  Forall (fun p => Forall (fun d => d <> pd_name p /\ d ∈ (list_to_set (pd_name <$> pending) : gset (list Z)) /\
    (d ∉ (list_to_set (pd_name <$> filter (fun p => pd_fixed p = true) pending) : gset (list Z)))) (pd_deps p)) pending ->
  (forall j p, pending !! j = Some p -> rs_resolved st !! j = Some None -> waits st p) -> n ∈ stuck_names pending st ->
  exists p d, p ∈ pending /\ pd_name p = n /\ d ∈ pd_deps p /\ d ∈ stuck_names pending st.
Proof.
  intros Hinv Hrefs Hw Hn. pose proof (inv_length _ _ _ Hinv) as Hl. apply stuck_elem in Hn as (i & p & Hp & Hi & Hname); [|done].
  destruct (Hw i p Hp Hi) as (d & Hd & Hnone). exists p, d. split_and!; [by eapply list_elem_of_lookup_2|done|done|].
  apply (Forall_lookup_1 _ _ _ _ Hrefs) in Hp as Hp'. apply (proj1 (Forall_forall _ _) Hp') in Hd as (_ & Hall & Hfix).
  rewrite elem_of_list_to_set in Hall, Hfix. apply list_elem_of_fmap in Hall as (q & -> & Hq). apply list_elem_of_lookup in Hq as [j Hj].
  apply stuck_elem; [done|]. exists j, q. split_and!; [done| |done].
  destruct (rs_resolved st !! j) as [[spec|]|] eqn:Hs; [|done|].
  - exfalso. destruct (inv_specs _ _ _ Hinv j q spec Hj Hs) as [Hfrom _]. destruct spec as [es|set]; cbn in Hfrom.
    + destruct Hfrom as (_ & Ht & _). congruence.
    + destruct Hfrom as [Hf _]. apply Hfix. apply list_elem_of_fmap. exists q. split; [done|]. apply list_elem_of_filter. split; [done|by eapply list_elem_of_lookup_2].
  - apply lookup_ge_None in Hs. apply lookup_lt_Some in Hj. lia.
Qed.

Lemma waiting_not_acyclic pending (stuck : list (list Z)) n : n ∈ stuck ->
  (forall n, n ∈ stuck -> exists p d, p ∈ pending /\ pd_name p = n /\ d ∈ pd_deps p /\ d ∈ stuck) -> ~ acyclic pending.
Proof.
  intros Hn Hall [rank Hrank]. remember (rank n) as k eqn:Hk. revert n Hn Hk. induction k as [k IH] using lt_wf_ind. intros n Hn ->.
  destruct (Hall n Hn) as (p & d & Hp & <- & Hd & Hds). by apply (IH (rank d) (Hrank p d Hp Hd) d Hds).
Qed.

Lemma parse_servers_spec net servers : (forall s m q r, net s m q = Some r -> bytes_ok r) ->
  exists r, parse_servers net servers = Ret r /\
  (forall out, r = Ok out -> exists pending T, collect_servers servers ∅ = Ok pending /\ acyclic pending /\
     fst <$> out = (trim ∘ fst) <$> servers /\ NoDup (fst <$> out) /\
     Forall2 (fun p o => fst o = pd_name p /\ resolved_from net T p (snd o) /\ spec_ok (snd o)) pending out) /\
  (forall stuck, r = Err (ReferenceCycle stuck) -> exists pending, collect_servers servers ∅ = Ok pending /\ stuck <> [] /\ ~ acyclic pending /\
     forall n, n ∈ stuck -> exists p d, p ∈ pending /\ pd_name p = n /\ d ∈ pd_deps p /\ d ∈ stuck).
Proof.
  intros Hnet. unfold parse_servers. destruct (collect_servers servers ∅) as [pending|e] eqn:Hc; cbn [obind_res].
  2:{ eexists. split_and!; [done|done|]. intros l [= ->]. by apply collect_not_cycle in Hc. }
  destruct (collect_servers_spec _ _ _ Hc) as (Hnd & Hp & Hnames).
  set (all := list_to_set _). set (fixed := list_to_set _). destruct (check_references all fixed pending) as [[]|e] eqn:Hr; cbn [obind_res].
  2:{ eexists. split_and!; [done|done|]. intros l [= ->]. by apply check_not_cycle in Hr. }
  apply check_references_spec in Hr.
  assert (Forall (fun p => pd_urls p <> []) pending) as Hurls by (apply (Forall_impl _ _ _ Hp); tauto).
  assert (Forall (fun p => pd_fixed p = true -> pd_deps p = []) pending) as Hfd by (apply (Forall_impl _ _ _ Hp); tauto).
  destruct (resolve_loop_spec net Hnet pending Hnd Hurls Hfd (S (length pending)) _ (rinv_initial net pending)) as (r & Hloop & Hok & Hcyc); [cbn; lia|].
  rewrite Hloop. destruct r as [st|e]; cbn [obind_res].
  - eexists. split_and!; [done| |done]. intros out [= <-]. destruct (Hok st eq_refl) as [Hinv Hz].
    destruct (all_resolved net pending st Hinv Hz) as [specs Hs]. pose proof (inv_length _ _ _ Hinv) as Hl. rewrite Hs, length_fmap in Hl.
    exists pending, (rs_targets st). rewrite Hs, omap_zip_specs, zip_fst by (rewrite ?length_fmap; done). split_and!; [done| |by rewrite Hnames|done|].
    + destruct (inv_ranked _ _ _ Hinv) as (rank & k & Hrank). exists rank. intros p d Hin Hd. apply list_elem_of_lookup in Hin as [i Hi].
      destruct (lookup_lt_is_Some_2 specs i) as [spec Hspec]; [rewrite Hl; by eapply lookup_lt_Some|].
      apply (Hrank i p spec Hi); [|done]. by rewrite Hs, list_lookup_fmap, Hspec.
    + apply Forall2_same_length_lookup_2; [by rewrite length_zip_with, length_fmap; lia|]. intros i p [n spec] Hi Ho. apply lookup_zip_Some in Ho as [Hn Hspec].
      rewrite list_lookup_fmap, Hi in Hn. injection Hn as <-. cbn [fst snd]. destruct (inv_specs _ _ _ Hinv i p spec Hi) as [H1 H2]; [by rewrite Hs, list_lookup_fmap, Hspec|].
      by split_and!.
  - eexists. split_and!; [done|done|]. intros stuck [= ->]. destruct (Hcyc stuck eq_refl) as (st & Hinv & Hz & -> & Hw).
    assert (forall n, n ∈ stuck_names pending st -> exists p d, p ∈ pending /\ pd_name p = n /\ d ∈ pd_deps p /\ d ∈ stuck_names pending st) as Hall.
    { intros n Hn. by apply (stuck_cycle net pending st n Hinv Hr Hw). }
    assert (exists n, n ∈ stuck_names pending st) as [n Hn].
    { rewrite (inv_remaining _ _ _ Hinv) in Hz. destruct (unresolved_exists _ Hz) as [i Hi]. pose proof (inv_length _ _ _ Hinv) as Hl.
      destruct (lookup_lt_is_Some_2 pending i) as [p Hpi]; [rewrite <- Hl; by eapply lookup_lt_Some|]. exists (pd_name p). apply stuck_elem; [done|]. by exists i, p. }
    exists pending. split_and!; [done|intros E; rewrite E in Hn; by apply not_elem_of_nil in Hn|by eapply waiting_not_acyclic|done].
Qed.

(** C35: resolving the servers.  Whatever the configuration and the network, the
    resolution ends.  When it succeeds the servers are those configured, in order and with
    distinct names, every one well formed; the references have no cycle, and each server
    was resolved after the ones it refers to, through exactly the addresses and marks of
    their endpoints.  When it reports a cycle, the servers listed do refer to each
    other in a circle. *)
Theorem parse_servers_correct net servers : (forall s m q r, net s m q = Some r -> bytes_ok r) ->
  exists r, parse_servers net servers = Ret r /\
  (forall out, r = Ok out -> exists pending T, collect_servers servers ∅ = Ok pending /\ acyclic pending /\
     fst <$> out = (trim ∘ fst) <$> servers /\ NoDup (fst <$> out) /\
     Forall2 (fun p o => fst o = pd_name p /\ resolved_from net T p (snd o) /\ spec_ok (snd o)) pending out) /\
  (forall stuck, r = Err (ReferenceCycle stuck) -> exists pending, collect_servers servers ∅ = Ok pending /\ stuck <> [] /\ ~ acyclic pending /\
     forall n, n ∈ stuck -> exists p d, p ∈ pending /\ pd_name p = n /\ d ∈ pd_deps p /\ d ∈ stuck).
Proof. apply parse_servers_spec. Qed.

(** A server that sorts before the one it bootstraps from. *)
Definition demo_servers : list (list Z * Json) :=
  [(lit "a-dependent", JString (lit "udp://8.8.8.8?bootstrap=z-base")); (lit "z-base", JArray [JString (lit "223.5.5.5")])].

Lemma parse_servers_witness : exists pending out, parse_servers (fun _ _ _ => None) demo_servers = Ret (Ok out) /\ collect_servers demo_servers ∅ = Ok pending /\
  acyclic pending /\ fst <$> out = [lit "a-dependent"; lit "z-base"] /\ Forall (fun o => spec_ok (snd o)) out.
Proof.
  destruct (parse_servers_correct (fun _ _ _ => None) demo_servers) as (r & Hr & Hok & _); [by intros|].
  destruct r as [out|e].
  - destruct (Hok out eq_refl) as (pending & T & Hc & Ha & Hn & _ & Hf). exists pending, out. split_and!; [exact Hr|exact Hc|exact Ha| |].
    + rewrite Hn. by vm_compute.
    + clear -Hf. induction Hf as [|p o ps os (_ & _ & Ho) _ IH]; by constructor.
  - exfalso. assert (match parse_servers (fun _ _ _ => None) demo_servers with Ret (Ok _) => true | _ => false end = true) as He by by vm_compute.
    rewrite Hr in He. discriminate He.
Defined.

(** Only the first reference of a URL is checked, while the last one is used: a reference
    to a server that does not exist is accepted. *)
Lemma repeated_bootstrap_unchecked : exists out,
  parse_servers (fun _ _ _ => None) [(lit "a", JString (lit "udp://1.1.1.1?bootstrap=b&bootstrap=nosuch")); (lit "b", JString (lit "9.9.9.9"))] = Ret (Ok out).
Proof. eexists. by vm_compute. Qed.

(** With a host name the same mistake is reported as a missing reference. *)
Lemma repeated_bootstrap_misreported : 
  parse_servers (fun _ _ _ => None) [(lit "a", JString (lit "udp://x.org?bootstrap=b&bootstrap=nosuch")); (lit "b", JString (lit "9.9.9.9"))]
  = Ret (Err (InServer (lit "a") HostNeedsBootstrap)).
Proof. by vm_compute. Qed.
