(* ===== verification/ConfigParse.v ===== *)
(** * The configuration

    [Config::from_json] of [src/config/mod.rs] with the section parsers of
    [src/config/parse.rs]: from the deserialised JSON document (what serde makes of the file,
    [src/config/json.rs]) to the validated configuration.  An error is its site. *)

From stdpp Require Import gmap strings.
From S2P Require Import Prelude Hasher DnsName DnsQuery Utf8 DnsQname DnsRecords DnsEdns Ecs DnsBuilder CacheMap Cache VerdictCache IpRange RustStr Domain IpParse RankBitmap Persist Mrs Ruleset RouteIndex Router Upstream UpstreamUrl ConfigServers.

(** ** The deserialised document *)

Inductive OneOrMany (A : Type) := One (a : A) | Many (l : list A).
Arguments One {A} a.
Arguments Many {A} l.

Definition into_vec {A} (o : OneOrMany A) : list A := match o with One a => [a] | Many l => l end.

Inductive NameOrNumber := Number (n : Z) | Name (s : list Z).

Record JsonBindSection := mkJBind {
  jb_addr : option (OneOrMany (list Z)); jb_port : option Z; jb_proto : option (list Z); jb_interface : option (list (list Z))
}.

Record JsonVerdictCacheSection := mkJVerdict { jv_size : option Z; jv_ttl : option Z }.

Record JsonFinalSection := mkJFinal {
  jf_primary : option (list Z); jf_secondary : option (list Z); jf_answer_ip : option (OneOrMany (list Z));
  jf_noip_as_primary_ip : option bool; jf_verdict_cache : option JsonVerdictCacheSection
}.

(** [route.final]: a string, or any other value with what serde reads from it. *)
Inductive FinalValue := FinalName (name : list Z) | FinalObject (section : option JsonFinalSection).

Record JsonRuleSetEntry := mkJRuleSet { js_tag : list Z; js_format : list Z; js_behavior : list Z; js_path : list Z }.

Record JsonRuleFilterEntry := mkJFilter {
  je_answer_ip : option (OneOrMany (list Z)); je_response_type : option (OneOrMany NameOrNumber);
  je_response_rcode : option (OneOrMany NameOrNumber); je_response_qclass : option (OneOrMany NameOrNumber);
  je_action : list Z; je_forward : option (list Z); je_add_ip : option (list Z)
}.

Record JsonRuleEntry := mkJRule {
  jr_matcher : option (list (list Z)); jr_upstream : option (list Z); jr_filter : option (list JsonRuleFilterEntry)
}.

Record JsonCacheOverride := mkJOverride { jo_min_ttl : option Z; jo_max_ttl : option Z; jo_no_cache : option bool }.

(** ** The configuration *)

Inductive RuleFilterActionSpec := ActAccept | ActDrop | ActForward (target : list Z).

Record RuleFilterSpec := mkFilterSpec {
  fl_answer_ip : AnswerIpMatcher; fl_response_type : list Z; fl_response_rcode : list Z; fl_response_qclass : list Z;
  fl_action : RuleFilterActionSpec; fl_add_ip : option (list Z)
}.

Record RuleSpec := mkRuleSpec {
  ru_matcher : list RuleMatcher; ru_server : list Z; ru_cache_policy : option RuleCachePolicy; ru_filters : list RuleFilterSpec
}.

Inductive FallbackTarget :=
| LastRule
| ToServer (name : list Z)
| Dual (primary secondary : list Z) (answer_ip : AnswerIpMatcher).

Record FallbackConfig := mkFallback { fb_target : FallbackTarget; fb_noip_as_primary_ip : bool }.

Inductive InterfaceFilter := AllInterfaces | Only (names : list (list Z)) | Except (names : list (list Z)).

Record BindEndpoint := mkBind { be_addr : SocketAddr; be_udp : bool; be_tcp : bool }.

(** The error sites. *)
Inductive config_error :=
| FinalNoServer (name : list Z) | FinalInvalid | FinalNoPrimary | FinalNoSecondary | FinalSame | FinalNoAnswerIp
| BadTagRef (tag : list Z) | BadMatcherTag (token : list Z) | EmptyTagExpr | BadPattern (value : list Z)
| NegativeNumber | ValueOutOfRange | UnknownTypeName | UnknownClassName | RcodeOutOfRange | InRcode (e : url_error)
| NoCriterion | ForwardNotAllowed | ForwardMissing | UnknownAction | AddIpNotAccept | AddIpFamily
| RuleWithoutUpstream | ForwardNoServer (name : list Z) | RuleNoServer (name : list Z)
| RulesetTag | DuplicateTag (tag : list Z) | RulesetFormat | RulesetBehaviorName | RulesetPath
| OverrideConflict (name : list Z) | OverrideMinMax (name : list Z) | OverrideNoRule (name : list Z)
| MixedInterfaces | EmptyInterface | BindPort | BindProto | BindAddr | DuplicateBind
| DashboardPort | DashboardToken | DashboardChannel | DashboardMemory | DashboardMaxMb | DashboardMaxSegments
| MaxInflight | FinalRequired | CacheMinMax | UdpDiag | InServers (e : server_error).

(** Monadic composition of results. *)
Definition rbind {E A B} (m : result E A) (k : A -> result E B) : result E B := match m with Ok a => k a | Err e => Err e end.

Notation "'let=' x ':=' m 'in' k" := (rbind m (fun x => k)) (at level 10, x pattern, m at level 100, k at level 200) : rust_scope.

(** [iter().map(f).collect::<Result<Vec<_>>>()] *)
Fixpoint try_map {E A B} (f : A -> result E B) (l : list A) : result E (list B) :=
  match l with
  | [] => Ok []
  | a :: l => let= b := f a in let= bs := try_map f l in Ok (b :: bs)
  end.

Definition is_invalid_ruleset_tag (value : list Z) : bool := str_contains 58 value || str_contains 47 value || str_contains 92 value.

(** ** Names of record types, classes and response codes *)

Definition RRTYPES : list (string * Z) :=
  [("A", 1); ("NS", 2); ("CNAME", 5); ("SOA", 6); ("PTR", 12); ("MX", 15); ("TXT", 16); ("AAAA", 28); ("SRV", 33); ("OPT", 41);
   ("DS", 43); ("RRSIG", 46); ("NSEC", 47); ("DNSKEY", 48); ("SVCB", 64); ("HTTPS", 65); ("CAA", 257); ("ANY", 255)]%Z.

Definition QCLASSES : list (string * Z) := [("IN", 1); ("CH", 3); ("HS", 4); ("NONE", 254); ("ANY", 255)]%Z.

(** A [match] on string literals, else a number. *)
Fixpoint by_name (table : list (string * Z)) (n : list Z) : option Z :=
  match table with
  | [] => parse_uint 64 n
  | (k, v) :: table => if decide (n = lit k) then Some v else by_name table n
  end.

Definition parse_rrtype_name (name : list Z) : result config_error Z :=
  match by_name RRTYPES (ascii_upper <$> name) with Some v => Ok v | None => Err UnknownTypeName end.

Definition parse_qclass_name (name : list Z) : result config_error Z :=
  match by_name QCLASSES (ascii_upper <$> name) with Some v => Ok v | None => Err UnknownClassName end.

Definition name_or_number_to_u64 (item : NameOrNumber) (parse_name : list Z -> result config_error Z) : result config_error Z :=
  match item with
  | Number n => if decide (0 <= n)%Z then Ok n else Err NegativeNumber
  | Name s => parse_name s
  end.

Definition parse_u16_list (value : option (OneOrMany NameOrNumber)) (parse_name : list Z -> result config_error Z) : result config_error (list Z) :=
  try_map (fun item => let= n := name_or_number_to_u64 item parse_name in if decide (n < 2 ^ 16)%Z then Ok n else Err ValueOutOfRange)
    (match value with Some v => into_vec v | None => [] end).

Definition parse_rcode_list (value : option (OneOrMany NameOrNumber)) : result config_error (list Z) :=
  try_map (fun item => match item with
                       | Name s => match parse_rcode_name s with Ok r => Ok r | Err e => Err (InRcode e) end
                       | Number n => if decide (0 <= n <= 15)%Z then Ok n else Err RcodeOutOfRange
                       end)
    (match value with Some v => into_vec v | None => [] end).

Section config.
Context {Regex : Type} `{!RegexEngine Regex}.
(** [str::to_lowercase] of a text that is not ASCII. *)
Context (unicode_lower : list Z -> list Z).

Definition to_lowercase (s : list Z) : list Z := if decide (Forall (fun b => b < 128)%Z s) then lower_label s else unicode_lower s.

(** ** Matchers and filters *)

(** The tokens of a [tag:] expression. *)
Fixpoint tag_tokens (tokens include exclude : list (list Z)) : result config_error (list (list Z) * list (list Z)) :=
  match tokens with
  | [] => Ok (include, exclude)
  | token :: tokens =>
      match strip_prefix (lit "!") token with
      | Some name =>
          let name := trim name in
          if decide (name = [] \/ is_invalid_ruleset_tag name = true) then Err (BadMatcherTag token)
          else tag_tokens tokens include (exclude ++ [to_lowercase name])
      | None =>
          if is_invalid_ruleset_tag token then Err (BadMatcherTag token)
          else tag_tokens tokens (include ++ [to_lowercase token]) exclude
      end
  end.

Definition parse_rule_matcher_entry (value : list Z) : result config_error RuleMatcher :=
  let value := trim value in
  match strip_prefix (lit "tag:") value with
  | Some rest =>
      let= (include, exclude) := tag_tokens (split_csv rest) [] [] in
      if decide (include = [] /\ exclude = []) then Err EmptyTagExpr else Ok (MTag include exclude)
  | None =>
      match classify_pattern value : PatternKind Regex with
      | Invalid => Err (BadPattern value)
      | _ => Ok (MDomain value)
      end
  end.

Definition validate_ipcidr_tag_ref (tag : list Z) : result config_error (list Z) :=
  let tag := trim tag in
  if decide (tag = [] \/ is_invalid_ruleset_tag tag = true) then Err (BadTagRef tag) else Ok (to_lowercase tag).

Fixpoint answer_ip_loop (raw include exclude : list (list Z)) : result config_error AnswerIpMatcher :=
  match raw with
  | [] => Ok (mkAnswerIp include exclude)
  | entry :: raw =>
      match strip_prefix (lit "!") (trim entry) with
      | Some name => let= t := validate_ipcidr_tag_ref name in answer_ip_loop raw include (exclude ++ [t])
      | None => let= t := validate_ipcidr_tag_ref entry in answer_ip_loop raw (include ++ [t]) exclude
      end
  end.

Definition parse_answer_ip_matcher (value : option (OneOrMany (list Z))) : result config_error AnswerIpMatcher :=
  answer_ip_loop (match value with Some v => into_vec v | None => [] end) [] [].

(** [opt.filter(|s| !s.trim().is_empty())] *)
Definition non_blank (s : option (list Z)) : option (list Z) :=
  match s with Some t => if decide (trim t = []) then None else Some t | None => None end.

Definition parse_action (e : JsonRuleFilterEntry) : result config_error RuleFilterActionSpec :=
  let action_name := lower_label (je_action e) in
  if decide (action_name <> lit "forward" /\ is_Some (je_forward e)) then Err ForwardNotAllowed
  else if decide (action_name = lit "accept") then Ok ActAccept
  else if decide (action_name = lit "drop") then Ok ActDrop
  else if decide (action_name = lit "forward") then
    match non_blank (je_forward e) with Some t => Ok (ActForward (trim t)) | None => Err ForwardMissing end
  else Err UnknownAction.

Definition parse_rule_filter_entry (e : JsonRuleFilterEntry) : result config_error RuleFilterSpec :=
  let= answer_ip := parse_answer_ip_matcher (je_answer_ip e) in
  let= response_type := parse_u16_list (je_response_type e) parse_rrtype_name in
  let= response_rcode := parse_rcode_list (je_response_rcode e) in
  let= response_qclass := parse_u16_list (je_response_qclass e) parse_qclass_name in
  if answer_ip_is_empty answer_ip && bool_decide (response_type = []) && bool_decide (response_rcode = []) && bool_decide (response_qclass = [])
  then Err NoCriterion
  else
    let= action := parse_action e in
    let add_ip := non_blank (je_add_ip e) in
    let= _ := (if decide (is_Some add_ip) then
                 match action with
                 | ActAccept =>
                     let distinct := list_to_set response_type : gset Z in
                     if decide (distinct <> {[1%Z]} /\ distinct <> {[28%Z]}) then Err AddIpFamily else Ok tt
                 | _ => Err AddIpNotAccept
                 end
               else Ok tt) in
    Ok (mkFilterSpec answer_ip response_type response_rcode response_qclass action add_ip).

Definition parse_rule_filters (entries : option (list JsonRuleFilterEntry)) : result config_error (list RuleFilterSpec) :=
  match entries with None => Ok [] | Some l => try_map parse_rule_filter_entry l end.

(** ** Rules *)

Definition parse_json_rule (jg : JsonRuleEntry) : result config_error RuleSpec :=
  let= matcher := try_map parse_rule_matcher_entry (default [] (jr_matcher jg)) in
  match non_blank (jr_upstream jg) with
  | None => Err RuleWithoutUpstream
  | Some s => let= filters := parse_rule_filters (jr_filter jg) in Ok (mkRuleSpec matcher (trim s) None filters)
  end.

Definition has_server (servers : list (list Z * ServerSpec)) (name : list Z) : bool := existsb (fun s => bool_decide (fst s = name)) servers.

(** The first forward target that is no server. *)
Definition bad_forward (servers : list (list Z * ServerSpec)) (rules : list RuleSpec) : option (list Z) :=
  head (omap (fun f => match fl_action f with ActForward t => if has_server servers t then None else Some t | _ => None end) (r ← rules; ru_filters r)).

Definition parse_rules (json_rules : list JsonRuleEntry) (servers : list (list Z * ServerSpec)) : result config_error (list RuleSpec) :=
  let= rules := try_map parse_json_rule json_rules in
  match bad_forward servers rules with Some t => Err (ForwardNoServer t) | None => Ok rules end.

(** ** The fallback *)

Definition parse_verdict_cache (vc : option JsonVerdictCacheSection) : option VerdictCacheConfig :=
  match vc with
  | Some v => match jv_size v with
              | Some c => if decide (0 < c)%Z then Some (mkVerdictCacheConfig c (default 0%Z (jv_ttl v))) else None
              | None => None
              end
  | None => None
  end.

Definition parse_final_config (value : FinalValue) (servers : list (list Z * ServerSpec)) : result config_error (FallbackConfig * option VerdictCacheConfig) :=
  match value with
  | FinalName name =>
      if has_server servers name then Ok (mkFallback (ToServer name) false, None) else Err (FinalNoServer name)
  | FinalObject None => Err FinalInvalid
  | FinalObject (Some jf) =>
      match jf_primary jf, jf_secondary jf with
      | None, _ => Err FinalNoPrimary
      | Some _, None => Err FinalNoSecondary
      | Some primary, Some secondary =>
          if negb (has_server servers primary) then Err (FinalNoServer primary)
          else if negb (has_server servers secondary) then Err (FinalNoServer secondary)
          else if decide (primary = secondary) then Err FinalSame
          else
            let= answer_ip := parse_answer_ip_matcher (jf_answer_ip jf) in
            if answer_ip_is_empty answer_ip then Err FinalNoAnswerIp
            else Ok (mkFallback (Dual primary secondary answer_ip) (default false (jf_noip_as_primary_ip jf)),
                     parse_verdict_cache (jf_verdict_cache jf))
      end
  end.

(** ** Rule sets *)

Definition parse_ruleset_entry (e : JsonRuleSetEntry) (seen : gset (list Z)) : result config_error RuleSetSpec :=
  let tag := trim (js_tag e) in
  if decide (tag = [] \/ is_invalid_ruleset_tag tag = true) then Err RulesetTag
  else
    let tag := to_lowercase tag in
    if decide (tag ∈ seen) then Err (DuplicateTag tag)
    else
      let= format := (if decide (js_format e = lit "text") then Ok FormatText else if decide (js_format e = lit "mrs") then Ok FormatMrs else Err RulesetFormat) in
      let= behavior := (if decide (js_behavior e = lit "domain") then Ok BehaviorDomain
                        else if decide (js_behavior e = lit "ipcidr") then Ok BehaviorIpCidr else Err RulesetBehaviorName) in
      if decide (trim (js_path e) = []) then Err RulesetPath else Ok (mkSpec tag format behavior (js_path e)).

Fixpoint ruleset_loop (entries : list JsonRuleSetEntry) (seen : gset (list Z)) : result config_error (list RuleSetSpec) :=
  match entries with
  | [] => Ok []
  | e :: entries =>
      let= spec := parse_ruleset_entry e seen in
      let= specs := ruleset_loop entries ({[spec_tag spec]} ∪ seen) in
      Ok (spec :: specs)
  end.

Definition parse_ruleset_specs (entries : list JsonRuleSetEntry) : result config_error (list RuleSetSpec) := ruleset_loop entries ∅.

(** ** Cache overrides *)

Definition apply_override (name : list Z) (ov : JsonCacheOverride) (rules : list RuleSpec) : result config_error (list RuleSpec) :=
  let no_cache := default false (jo_no_cache ov) in
  if decide (no_cache = true /\ (is_Some (jo_min_ttl ov) \/ is_Some (jo_max_ttl ov))) then Err (OverrideConflict name)
  else if (match jo_min_ttl ov, jo_max_ttl ov with Some min, Some max => bool_decide (max < min)%Z | _, _ => false end) then Err (OverrideMinMax name)
  else if negb (existsb (fun r => bool_decide (ru_server r = name)) rules) then Err (OverrideNoRule name)
  else if negb no_cache && bool_decide (jo_min_ttl ov = None) && bool_decide (jo_max_ttl ov = None) then Ok rules
  else
    Ok ((fun r => if decide (ru_server r = name)
                  then mkRuleSpec (ru_matcher r) (ru_server r) (Some (mkRuleCachePolicy no_cache (jo_min_ttl ov) (jo_max_ttl ov))) (ru_filters r)
                  else r) <$> rules).

Fixpoint apply_cache_field_overrides (overrides : list (list Z * JsonCacheOverride)) (rules : list RuleSpec) : result config_error (list RuleSpec) :=
  match overrides with
  | [] => Ok rules
  | (name, ov) :: overrides => let= rules := apply_override name ov rules in apply_cache_field_overrides overrides rules
  end.

(** ** Sets fed by filters *)

(** [(rule_idx, filter_idx, set, is_v6)] *)
Definition parse_ipset_config (rules : list RuleSpec) : option (list (nat * nat * list Z * bool)) :=
  let add_rules := concat (imap (fun rule_idx rule =>
    omap id (imap (fun filter_idx f => match fl_add_ip f with
                                       | Some raw => Some (rule_idx, filter_idx, raw, bool_decide (28%Z ∈ fl_response_type f))
                                       | None => None
                                       end) (ru_filters rule))) rules) in
  match add_rules with [] => None | _ => Some add_rules end.

(** ** Listeners *)

Definition parse_interface_filter (names : list (list Z)) : result config_error InterfaceFilter :=
  if decide (names = []) then Ok AllInterfaces
  else
    let n_deny := length (filter (fun n => starts_with (lit "!") n = true) names) in
    if decide (0 < n_deny /\ n_deny < length names) then Err MixedInterfaces
    else if decide (n_deny = length names) then
      let excluded := drop 1 <$> names in
      if existsb (fun n => bool_decide (n = [])) excluded then Err EmptyInterface else Ok (Except excluded)
    else if existsb (fun n => bool_decide (n = [])) names then Err EmptyInterface
    else Ok (Only names).

Definition parse_ip_only (s : list Z) : result config_error IpAddr :=
  match parse_ip (strip_ipv6_brackets s) with Some ip => Ok ip | None => Err BindAddr end.

Fixpoint bind_endpoints (addrs seen : list IpAddr) (port : Z) (udp tcp : bool) : result config_error (list BindEndpoint) :=
  match addrs with
  | [] => Ok []
  | ip :: addrs =>
      if decide (ip ∈ seen) then Err DuplicateBind
      else let= l := bind_endpoints addrs (ip :: seen) port udp tcp in Ok (mkBind (mkSock ip port) udp tcp :: l)
  end.

Definition parse_bind_config (bind : option JsonBindSection) : result config_error (list BindEndpoint * InterfaceFilter) :=
  let b := default (mkJBind None None None None) bind in
  let port := default 65353%Z (jb_port b) in
  if decide (port = 0)%Z then Err BindPort
  else
    let= (udp, tcp) := match jb_proto b with
                       | None => Ok (true, true)
                       | Some p => if decide (p = lit "both") then Ok (true, true)
                                   else if decide (p = lit "udp") then Ok (true, false)
                                   else if decide (p = lit "tcp") then Ok (false, true)
                                   else Err BindProto
                       end in
    let= addrs := match jb_addr b with None => Ok [V4 [127; 0; 0; 1]%Z] | Some l => try_map parse_ip_only (into_vec l) end in
    let= endpoints := bind_endpoints addrs [] port udp tcp in
    let= interface := parse_interface_filter (default [] (jb_interface b)) in
    Ok (endpoints, interface).
End config.
