(* ===== verification/Config.v ===== *)
(** * Building a configuration

    [Config::from_json], the dashboard section and the anchoring of relative paths:
    [src/config/mod.rs] and [parse_dashboard_config] of [src/config/parse.rs]. *)

From stdpp Require Import gmap strings.
From S2P Require Import Prelude Hasher DnsName DnsQuery Utf8 DnsQname DnsRecords DnsEdns Ecs DnsBuilder CacheMap Cache VerdictCache IpRange RustStr Domain IpParse RankBitmap Persist Mrs Ruleset RouteIndex Router Upstream UpstreamUrl ConfigServers ConfigParse.

(** ** The remaining sections *)

Record JsonQueryLogFile := mkJFile {
  jq_dir : option (list Z); jq_max_mb : option Z; jq_max_segments : option Z; jq_batch_size : option Z;
  jq_flush_interval_ms : option Z; jq_retention_days : option Z; jq_compress : option bool
}.

Record JsonDashboardSection := mkJDashboard {
  jd_port : option Z; jd_token : option (list Z); jd_memory : option Z; jd_channel : option Z; jd_file : option JsonQueryLogFile
}.

Record JsonRuntimeSection := mkJRuntime {
  jt_worker_threads : option Z; jt_max_inflight : option Z; jt_inflight_queue_ms : option Z; jt_upstream_max_inflight : option Z;
  jt_upstream_udp_sockets : option Z; jt_timeout_ms : option Z; jt_hedge_delay_ms : option Z; jt_tcp_max_connections : option Z;
  jt_tcp_read_timeout_ms : option Z; jt_tcp_idle_timeout_ms : option Z; jt_udp_buf_size : option Z; jt_uring_recv_buffers : option Z;
  jt_udp_diagnostics : option (list Z); jt_upstream_max_response_bytes : option Z
}.

Record JsonPersistSection := mkJPersist { jp_path : list Z; jp_interval : option Z }.

Record JsonCacheSection := mkJCache {
  jc_size : option Z; jc_min_ttl : option Z; jc_max_ttl : option Z; jc_persist : option JsonPersistSection;
  jc_overrides : option (list (list Z * JsonCacheOverride))
}.

Record JsonRouteSection := mkJRoute {
  jx_servers : option (list (list Z * Json)); jx_ruleset : option (list JsonRuleSetEntry); jx_rules : option (list JsonRuleEntry);
  jx_final : option FinalValue
}.

Record JsonConfig := mkJConfig {
  jk_bind : option JsonBindSection; jk_dashboard : option JsonDashboardSection; jk_cache : option JsonCacheSection;
  jk_runtime : option JsonRuntimeSection; jk_route : option JsonRouteSection
}.

Record DashboardFileConfig := mkDashFile {
  df_dir : list Z; df_max_mb : Z; df_max_segments : Z; df_batch_size : Z; df_flush_interval_ms : Z;
  df_retention_days : option Z; df_compress : bool
}.

Record DashboardConfig := mkDashboard {
  da_enabled : bool; da_bind : list (SocketAddr * option (list Z)); da_token : option (list Z); da_memory : Z; da_channel : Z;
  da_file : option DashboardFileConfig
}.

Inductive UdpDiagnostics := DiagOff | DiagBasic | DiagFull.

Record Config := mkConfig {
  cf_bind : list BindEndpoint; cf_interface : InterfaceFilter; cf_timeout_ms : Z; cf_max_inflight : Z; cf_inflight_queue_ms : Z;
  cf_worker_threads : Z; cf_fallback : FallbackConfig; cf_cache_size : Z; cf_cache_min_ttl : Z; cf_cache_max_ttl : Z;
  cf_cache_persist_path : option (list Z); cf_cache_persist_interval : Z; cf_udp_buf_size : Z; cf_uring_recv_buffers : Z;
  cf_udp_diagnostics : UdpDiagnostics; cf_upstream_udp_sockets : Z; cf_tcp_max_connections : Z; cf_tcp_read_timeout_ms : Z;
  cf_tcp_idle_timeout_ms : Z; cf_dashboard : DashboardConfig; cf_servers : list (list Z * ServerSpec); cf_rules : list RuleSpec;
  cf_ipset : option (list (nat * nat * list Z * bool)); cf_verdict_cache : option VerdictCacheConfig; cf_ruleset_specs : list RuleSetSpec;
  cf_upstream_max_inflight : Z; cf_hedge_delay_ms : option Z; cf_upstream_max_response_bytes : Z
}.

(** ** The dashboard *)

(** [filter(|ep| seen.insert(ip))]: the addresses without repetitions. *)
Fixpoint unique_ips (ips seen : list IpAddr) : list IpAddr :=
  match ips with
  | [] => []
  | ip :: ips => if decide (ip ∈ seen) then unique_ips ips seen else ip :: unique_ips ips (ip :: seen)
  end.

Definition dashboard_bind (port : option Z) (binds : list BindEndpoint) (interface : InterfaceFilter)
    : result config_error (list (SocketAddr * option (list Z))) :=
  match port with
  | None => Ok []
  | Some port =>
      if decide (port = 0)%Z then Err DashboardPort
      else
        let ips := unique_ips ((fun ep => sa_ip (be_addr ep)) <$> binds) [] in
        Ok (match interface with
            | Only ifaces => ip ← ips; (fun iface => (mkSock ip port, Some iface)) <$> ifaces
            | _ => (fun ip => (mkSock ip port, None)) <$> ips
            end)
  end.

Definition dashboard_file (f : option JsonQueryLogFile) : result config_error (option DashboardFileConfig) :=
  match f with
  | None => Ok None
  | Some f =>
      let max_mb := default 8%Z (jq_max_mb f) in
      let max_segments := default 3%Z (jq_max_segments f) in
      if decide (max_mb = 0)%Z then Err DashboardMaxMb
      else if decide (max_segments = 0)%Z then Err DashboardMaxSegments
      else Ok (Some (mkDashFile (default (lit "./querylog") (jq_dir f)) max_mb max_segments (Z.max 1 (default 256%Z (jq_batch_size f)))
                       (Z.max 50 (default 500%Z (jq_flush_interval_ms f))) (jq_retention_days f) (default true (jq_compress f))))
  end.

Definition parse_dashboard_config (dashboard : option JsonDashboardSection) (binds : list BindEndpoint) (interface : InterfaceFilter)
    : result config_error DashboardConfig :=
  match dashboard with
  | None => Ok (mkDashboard false [] None 0 4096 None)
  | Some ql =>
      let= bind := dashboard_bind (jd_port ql) binds interface in
      if (match jd_token ql with Some t => bool_decide (trim t = []) | None => false end) then Err DashboardToken
      else
        let channel := default 4096%Z (jd_channel ql) in
        if decide (channel = 0)%Z then Err DashboardChannel
        else if decide (1000000 < channel)%Z then Err DashboardChannel
        else
          let memory := default 1000%Z (jd_memory ql) in
          if decide (10000000 < memory)%Z then Err DashboardMemory
          else
            let= file := dashboard_file (jd_file ql) in
            Ok (mkDashboard true bind (jd_token ql) memory channel file)
  end.

(** ** The whole document *)

(** The first rule whose server is missing. *)
Definition bad_rule_server (servers : list (list Z * ServerSpec)) (rules : list RuleSpec) : option (list Z) :=
  head (omap (fun r => if has_server servers (ru_server r) then None else Some (ru_server r)) rules).

Definition strip_by_default (s : list Z * ServerSpec) : list Z * ServerSpec :=
  match s with
  | (n, SUpstream es) =>
      (n, SUpstream ((fun e => mkEndpoint (ep_proto e) (ep_addr e) (ep_server_name e) (ep_path e) (ep_no_sni e)
                                 (Some (default EcsStrip (ep_ecs_mode e))) (ep_mark e)) <$> es))
  | s => s
  end.

Definition parse_udp_diagnostics (s : option (list Z)) : result config_error UdpDiagnostics :=
  match s with
  | None => Ok DiagFull
  | Some d => if decide (d = lit "full") then Ok DiagFull else if decide (d = lit "basic") then Ok DiagBasic
              else if decide (d = lit "off") then Ok DiagOff else Err UdpDiag
  end.

(** [usize::next_power_of_two] *)
Definition next_power_of_two (n : Z) : Z := 2 ^ Z.log2_up n.

Section from_json.
Context {Regex : Type} `{!RegexEngine Regex}.
Context (unicode_lower : list Z -> list Z) (net : Network) (parallelism : Z).

Definition fallback_of (route_final : option FinalValue) (rules : list RuleSpec) (servers : list (list Z * ServerSpec))
    : result config_error (FallbackConfig * option VerdictCacheConfig) :=
  match route_final with
  | Some v => parse_final_config unicode_lower v servers
  | None => if decide (rules = []) then Err FinalRequired else Ok (mkFallback LastRule false, None)
  end.

(** The part of [from_json] behind the servers: every other field is determined here. *)
Definition assemble (json : JsonConfig) (binds : list BindEndpoint) (interface : InterfaceFilter) (worker_threads max_inflight : Z)
    (servers : list (list Z * ServerSpec)) : result config_error Config :=
  let t := default (mkJRuntime None None None None None None None None None None None None None None) (jk_runtime json) in
  let route := default (mkJRoute None None None None) (jk_route json) in
  let= rules := parse_rules (Regex := Regex) unicode_lower (default [] (jx_rules route)) servers in
  let= _ := match bad_rule_server servers rules with Some n => Err (RuleNoServer n) | None => Ok tt end in
  let servers : list (list Z * ServerSpec) := strip_by_default <$> servers in
  let= (fallback, verdict_cache) := fallback_of (jx_final route) rules servers in
  let ipset := parse_ipset_config rules in
  let cache := jk_cache json in
  let cache_size := default 10000%Z (cache ≫= jc_size) in
  let cache_min_ttl := default 0%Z (cache ≫= jc_min_ttl) in
  let cache_max_ttl := default 0%Z (cache ≫= jc_max_ttl) in
  if decide (0 < cache_max_ttl /\ cache_max_ttl < cache_min_ttl)%Z then Err CacheMinMax
  else
    let= rules := apply_cache_field_overrides (default [] (cache ≫= jc_overrides)) rules in
    let= udp_diagnostics := parse_udp_diagnostics (jt_udp_diagnostics t) in
    let uring_recv_buffers := next_power_of_two (Z.max 16 (Z.min 8192 (default 256%Z (jt_uring_recv_buffers t)))) in
    let upstream_udp_sockets := Z.max 1 (default (Z.max worker_threads 32) (jt_upstream_udp_sockets t)) in
    let= dashboard := parse_dashboard_config (jk_dashboard json) binds interface in
    let= ruleset_specs := parse_ruleset_specs unicode_lower (default [] (jx_ruleset route)) in
    let hedge := default 0%Z (jt_hedge_delay_ms t) in
    Ok {| cf_bind := binds; cf_interface := interface; cf_timeout_ms := default 3000%Z (jt_timeout_ms t); cf_max_inflight := max_inflight;
          cf_inflight_queue_ms := default 0%Z (jt_inflight_queue_ms t); cf_worker_threads := worker_threads; cf_fallback := fallback;
          cf_cache_size := cache_size; cf_cache_min_ttl := cache_min_ttl; cf_cache_max_ttl := cache_max_ttl;
          cf_cache_persist_path := jp_path <$> (cache ≫= jc_persist); cf_cache_persist_interval := default 0%Z ((cache ≫= jc_persist) ≫= jp_interval);
          cf_udp_buf_size := default 4194304%Z (jt_udp_buf_size t); cf_uring_recv_buffers := uring_recv_buffers;
          cf_udp_diagnostics := udp_diagnostics; cf_upstream_udp_sockets := upstream_udp_sockets;
          cf_tcp_max_connections := default 1024%Z (jt_tcp_max_connections t); cf_tcp_read_timeout_ms := default 5000%Z (jt_tcp_read_timeout_ms t);
          cf_tcp_idle_timeout_ms := default 30000%Z (jt_tcp_idle_timeout_ms t); cf_dashboard := dashboard; cf_servers := servers; cf_rules := rules;
          cf_ipset := ipset; cf_verdict_cache := verdict_cache; cf_ruleset_specs := ruleset_specs;
          cf_upstream_max_inflight := default (Z.max (wrap 64 (worker_threads * 256)) 1024) (jt_upstream_max_inflight t);
          cf_hedge_delay_ms := if decide (0 < hedge)%Z then Some hedge else None;
          cf_upstream_max_response_bytes := default 0%Z (jt_upstream_max_response_bytes t) |}.

(** [Config::from_json]; the products of the worker count wrap as in a release build. *)
Definition from_json (json : JsonConfig) : outcome (result config_error Config) :=
  let* (binds, interface) := Ret (parse_bind_config (jk_bind json)) in
  let t := default (mkJRuntime None None None None None None None None None None None None None None) (jk_runtime json) in
  let worker_threads := default parallelism (jt_worker_threads t) in
  let max_inflight := default (wrap 64 (worker_threads * 1024)) (jt_max_inflight t) in
  if decide (max_inflight < 1)%Z then Ret (Err MaxInflight)
  else
    let route := default (mkJRoute None None None None) (jk_route json) in
    let! r := parse_servers net (default [] (jx_servers route)) in
    match r with
    | Err e => Ret (Err (InServers e))
    | Ok servers => Ret (assemble json binds interface worker_threads max_inflight servers)
    end.
End from_json.

(** ** Relative paths *)

Definition is_relative (path : list Z) : bool := negb (starts_with (lit "/") path).

(** [base.join(path)] for a relative [path]. *)
Definition join (base path : list Z) : list Z :=
  if decide (base = [] \/ last base = Some 47%Z) then base ++ path else base ++ lit "/" ++ path.

Definition anchor (base path : list Z) : list Z := if is_relative path then join base path else path.

Definition anchor_paths (base : list Z) (c : Config) : Config :=
  {| cf_bind := cf_bind c; cf_interface := cf_interface c; cf_timeout_ms := cf_timeout_ms c; cf_max_inflight := cf_max_inflight c;
     cf_inflight_queue_ms := cf_inflight_queue_ms c; cf_worker_threads := cf_worker_threads c; cf_fallback := cf_fallback c;
     cf_cache_size := cf_cache_size c; cf_cache_min_ttl := cf_cache_min_ttl c; cf_cache_max_ttl := cf_cache_max_ttl c;
     cf_cache_persist_path := anchor base <$> cf_cache_persist_path c; cf_cache_persist_interval := cf_cache_persist_interval c;
     cf_udp_buf_size := cf_udp_buf_size c; cf_uring_recv_buffers := cf_uring_recv_buffers c; cf_udp_diagnostics := cf_udp_diagnostics c;
     cf_upstream_udp_sockets := cf_upstream_udp_sockets c; cf_tcp_max_connections := cf_tcp_max_connections c;
     cf_tcp_read_timeout_ms := cf_tcp_read_timeout_ms c; cf_tcp_idle_timeout_ms := cf_tcp_idle_timeout_ms c;
     cf_dashboard := match cf_dashboard c with
                     | mkDashboard e b t m ch (Some (mkDashFile d mb sg bs fl rd co)) => mkDashboard e b t m ch (Some (mkDashFile (anchor base d) mb sg bs fl rd co))
                     | d => d
                     end;
     cf_servers := cf_servers c; cf_rules := cf_rules c; cf_ipset := cf_ipset c; cf_verdict_cache := cf_verdict_cache c;
     cf_ruleset_specs := (fun s => mkSpec (spec_tag s) (spec_format s) (spec_behavior s) (anchor base (spec_path s))) <$> cf_ruleset_specs c;
     cf_upstream_max_inflight := cf_upstream_max_inflight c; cf_hedge_delay_ms := cf_hedge_delay_ms c;
     cf_upstream_max_response_bytes := cf_upstream_max_response_bytes c |}.
