(* ===== verification/ConfigCorrect.v ===== *)
(** * Correctness of configuration parsing

    Every document is accepted or refused without a panic, and an accepted
    configuration is well formed: the references resolve, the values are in range, and the
    conditions under which the rest of the program is shown correct hold. *)

From stdpp Require Import gmap strings.
From S2P Require Import Prelude Hasher DnsName DnsQuery Utf8 DnsQname DnsRecords DnsEdns Ecs DnsBuilder CacheMap Cache VerdictCache IpRange RustStr Domain IpParse RankBitmap Persist Mrs Ruleset RouteIndex Router Upstream UpstreamWire UpstreamUrl UpstreamUrlCorrect ConfigServers ConfigServersCorrect ConfigParse Config.

(** ** Inversion *)

Lemma rbind_inv {E A B} (m : result E A) (k : A -> result E B) b : rbind m k = Ok b -> exists a, m = Ok a /\ k a = Ok b.
Proof. destruct m as [a|e]; cbn; [eauto|done]. Qed.

(** Takes a successful composition apart. *)
Ltac unbind H x Hx := apply rbind_inv in H as (x & Hx & H); cbv beta in H.

Lemma try_map_spec {E A B} (f : A -> result E B) l bs : try_map f l = Ok bs -> Forall2 (fun a b => f a = Ok b) l bs.
Proof.
  revert bs. induction l as [|a l IH]; intros bs H; cbn [try_map] in H; [injection H as <-; constructor|].
  unbind H b Hb. unbind H bs' Hbs. injection H as <-. constructor; [done|by apply IH].
Qed.

Lemma try_map_forall {E A B} (f : A -> result E B) (P : B -> Prop) l bs : (forall a b, f a = Ok b -> P b) -> try_map f l = Ok bs -> Forall P bs.
Proof. intros HP H%try_map_spec. induction H; constructor; [by eapply HP|done]. Qed.

Lemma has_server_elem (servers : list (list Z * ServerSpec)) n : has_server servers n = true <-> n ∈ fst <$> servers.
Proof.
  unfold has_server. rewrite existsb_exists, list_elem_of_fmap. split.
  - intros (s & Hs & He). apply bool_decide_eq_true in He. exists s. split; [done|by apply list_elem_of_In].
  - intros (s & -> & Hs). exists s. split; [by apply list_elem_of_In|by apply bool_decide_eq_true].
Qed.

Lemma head_omap_none {A B} (f : A -> option B) l : head (omap f l) = None -> forall a, a ∈ l -> f a = None.
Proof.
  intros Hh a Ha. destruct (f a) as [b|] eqn:Hf; [|done]. exfalso.
  assert (b ∈ omap f l) as Hb by (apply list_elem_of_omap; eauto). destruct (omap f l); [by apply not_elem_of_nil in Hb|done].
Qed.

(** ** Well-formed configurations *)

Section spec.
Context {Regex : Type} `{!RegexEngine Regex}.

Definition matcher_ok (m : RuleMatcher) : Prop :=
  match m with
  | MDomain p => (classify_pattern p : PatternKind Regex) <> Invalid
  | MTag include exclude => ~ (include = [] /\ exclude = [])
  end.

Definition filter_ok (names : list (list Z)) (f : RuleFilterSpec) : Prop :=
  ~ (answer_ip_is_empty (fl_answer_ip f) = true /\ fl_response_type f = [] /\ fl_response_rcode f = [] /\ fl_response_qclass f = []) /\
  Forall (u_ok 16) (fl_response_type f) /\ Forall (fun r => 0 <= r <= 15)%Z (fl_response_rcode f) /\ Forall (u_ok 16) (fl_response_qclass f) /\
  (forall t, fl_action f = ActForward t -> t ∈ names) /\
  (is_Some (fl_add_ip f) -> fl_action f = ActAccept /\
     ((list_to_set (fl_response_type f) : gset Z) = {[1%Z]} \/ (list_to_set (fl_response_type f) : gset Z) = {[28%Z]})).

Definition policy_ok (p : RuleCachePolicy) : Prop :=
  (rule_skip p = true -> rule_min_ttl p = None /\ rule_max_ttl p = None) /\
  (forall min max, rule_min_ttl p = Some min -> rule_max_ttl p = Some max -> (min <= max)%Z).

Definition rule_ok (names : list (list Z)) (r : RuleSpec) : Prop :=
  ru_server r ∈ names /\ Forall matcher_ok (ru_matcher r) /\ Forall (filter_ok names) (ru_filters r) /\
  (forall p, ru_cache_policy r = Some p -> policy_ok p).

Definition fallback_ok (names : list (list Z)) (rules : list RuleSpec) (f : FallbackConfig) : Prop :=
  match fb_target f with
  | LastRule => rules <> []
  | ToServer n => n ∈ names
  | Dual p s m => p ∈ names /\ s ∈ names /\ p <> s /\ answer_ip_is_empty m = false
  end.

(** The set targets are the filters with [add-ip], with their family. *)
Definition ipset_ok (rules : list RuleSpec) (ipset : option (list (nat * nat * list Z * bool))) : Prop :=
  forall i j raw v6, (i, j, raw, v6) ∈ default [] ipset <->
    exists r f, rules !! i = Some r /\ ru_filters r !! j = Some f /\ fl_add_ip f = Some raw /\
      (v6 = true <-> (list_to_set (fl_response_type f) : gset Z) = {[28%Z]}).

Definition endpoints_strip (s : ServerSpec) : Prop :=
  match s with SUpstream es => Forall (fun e => is_Some (ep_ecs_mode e)) es | SFixed _ => True end.

Record config_ok (c : Config) : Prop := mkConfigOk {
  co_names : NoDup (fst <$> cf_servers c);
  co_servers : Forall (fun s => spec_ok (snd s) /\ endpoints_strip (snd s)) (cf_servers c);
  co_rules : Forall (rule_ok (fst <$> cf_servers c)) (cf_rules c);
  co_fallback : fallback_ok (fst <$> cf_servers c) (cf_rules c) (cf_fallback c);
  co_ipset : ipset_ok (cf_rules c) (cf_ipset c);
  co_ttl : (0 < cf_cache_max_ttl c -> cf_cache_min_ttl c <= cf_cache_max_ttl c)%Z;
  co_tags : NoDup (spec_tag <$> cf_ruleset_specs c);
  co_bind : NoDup ((fun b => sa_ip (be_addr b)) <$> cf_bind c) /\ Forall (fun b => sa_port (be_addr b) <> 0)%Z (cf_bind c);
  co_inflight : (1 <= cf_max_inflight c)%Z;
  co_sockets : (1 <= cf_upstream_udp_sockets c)%Z;
  co_uring : (16 <= cf_uring_recv_buffers c <= 8192)%Z /\ exists k, (0 <= k)%Z /\ cf_uring_recv_buffers c = (2 ^ k)%Z;
  co_dashboard : (cf_dashboard c).(da_channel) <> 0%Z /\ ((cf_dashboard c).(da_channel) <= 1000000)%Z /\ ((cf_dashboard c).(da_memory) <= 10000000)%Z /\
    forall f, (cf_dashboard c).(da_file) = Some f -> df_max_mb f <> 0%Z /\ df_max_segments f <> 0%Z /\ (1 <= df_batch_size f)%Z /\ (50 <= df_flush_interval_ms f)%Z
}.
End spec.

(** ** Filters *)

Lemma by_name_nonneg table n v : Forall (fun p => 0 <= snd p)%Z table -> by_name table n = Some v -> (0 <= v)%Z.
Proof.
  induction 1 as [|[k w] table Hw _ IH]; cbn [by_name].
  - intros H. apply parse_uint_range in H; [|done]. apply H.
  - case_decide; [by intros [= <-]|done].
Qed.

Lemma parse_u16_list_ok v pn l : (forall n z, pn n = Ok z -> (0 <= z)%Z) -> parse_u16_list v pn = Ok l -> Forall (u_ok 16) l.
Proof.
  intros Hpn. apply try_map_forall. intros item z H. unbind H n Hn.
  assert (0 <= n)%Z. { clear H. destruct item as [k|k]; cbn in Hn; [case_decide; [by injection Hn as <-|done]|by eapply Hpn]. }
  revert H. case_decide; [|done]. intros [= <-]. by split.
Qed.

Lemma rrtype_nonneg n z : parse_rrtype_name n = Ok z -> (0 <= z)%Z.
Proof. unfold parse_rrtype_name. destruct (by_name _ _) eqn:H; [|done]. intros [= <-]. eapply by_name_nonneg; [|exact H]. by apply (bool_decide_unpack _); vm_compute. Qed.

Lemma qclass_nonneg n z : parse_qclass_name n = Ok z -> (0 <= z)%Z.
Proof. unfold parse_qclass_name. destruct (by_name _ _) eqn:H; [|done]. intros [= <-]. eapply by_name_nonneg; [|exact H]. by apply (bool_decide_unpack _); vm_compute. Qed.

Lemma parse_rcode_list_ok v l : parse_rcode_list v = Ok l -> Forall (fun r => 0 <= r <= 15)%Z l.
Proof.
  apply try_map_forall. intros [n|s] z; [case_decide; [by intros [= <-]|done]|].
  destruct (parse_rcode_name s) eqn:Hs; [|done]. intros [= <-]. by eapply parse_rcode_range.
Qed.

Section parsing.
Context {Regex : Type} `{!RegexEngine Regex}.
Context (unicode_lower : list Z -> list Z).

(** Forward targets are checked once all rules are read. *)
Definition forwards_to (names : list (list Z)) (f : RuleFilterSpec) : Prop := forall t, fl_action f = ActForward t -> t ∈ names.

Lemma parse_rule_filter_entry_ok e f : parse_rule_filter_entry unicode_lower e = Ok f -> forall names, forwards_to names f -> filter_ok names f.
Proof.
  intros H names Hfw. unfold parse_rule_filter_entry in H. unbind H m Hm. unbind H ts Hts. unbind H rcs Hrcs. unbind H qcs Hqcs.
  destruct (answer_ip_is_empty m && _ && _ && _) eqn:Hc; [done|]. unbind H a Ha. unbind H u Hu. injection H as <-.
  split_and!; cbn.
  - intros (E1 & E2 & E3 & E4). by rewrite E1, !bool_decide_eq_true_2 in Hc.
  - by eapply parse_u16_list_ok; [apply rrtype_nonneg|].
  - by eapply parse_rcode_list_ok.
  - by eapply parse_u16_list_ok; [apply qclass_nonneg|].
  - exact Hfw.
  - intros Hs. rewrite decide_True in Hu by done. destruct a; [|done|done]. split; [done|].
    destruct (decide ((list_to_set ts : gset Z) = {[1%Z]})) as [->|H1]; [by left|]. right. apply dec_stable. intros H2. by rewrite decide_True in Hu.
Qed.

Lemma parse_rule_matcher_ok s m : parse_rule_matcher_entry (Regex := Regex) unicode_lower s = Ok m -> matcher_ok (Regex := Regex) m.
Proof.
  unfold parse_rule_matcher_entry. destruct (strip_prefix _ _) as [rest|].
  - intros H. unbind H ie Hie. destruct ie as [i x]. case_decide as Hd; [done|]. by injection H as <-.
  - destruct (classify_pattern (trim s)) eqn:Hc; intros H; try discriminate H; injection H as <-; cbn; by rewrite Hc.
Qed.

(** What a rule satisfies apart from the references to servers. *)
Lemma parse_json_rule_ok jg r names : parse_json_rule (Regex := Regex) unicode_lower jg = Ok r -> ru_server r ∈ names ->
  Forall (forwards_to names) (ru_filters r) -> rule_ok (Regex := Regex) names r.
Proof.
  intros H Hs Hf. unfold parse_json_rule in H. unbind H ms Hms. destruct (non_blank _) as [s|]; [|done]. unbind H fs Hfs. injection H as <-.
  cbn in *. split_and!; cbn; [done| | |done].
  - eapply try_map_forall; [|exact Hms]. apply parse_rule_matcher_ok.
  - unfold parse_rule_filters in Hfs. destruct (jr_filter jg) as [l|]; [|injection Hfs as <-; constructor].
    apply try_map_spec in Hfs. clear -Hfs Hf. induction Hfs as [|e f es fs He _ IH]; [constructor|].
    apply Forall_cons in Hf as [Hf Hfs']. constructor; [by eapply parse_rule_filter_entry_ok|by apply IH].
Qed.

Lemma parse_rules_ok json_rules servers rules : parse_rules (Regex := Regex) unicode_lower json_rules servers = Ok rules ->
  bad_rule_server servers rules = None -> Forall (rule_ok (Regex := Regex) (fst <$> servers)) rules /\ Forall (fun r => ru_cache_policy r = None) rules.
Proof.
  intros H Hb. unfold parse_rules in H. unbind H rs Hrs. destruct (bad_forward servers rs) as [t|] eqn:Hf; [done|]. injection H as <-.
  assert (forall r f, r ∈ rs -> f ∈ ru_filters r -> forwards_to (fst <$> servers) f) as Hfw.
  { intros r f Hr Hin t Ht. pose proof (head_omap_none _ _ Hf f) as H1. cbv beta in H1. rewrite Ht in H1.
    apply has_server_elem. destruct (has_server servers t); [done|]. discriminate H1. apply list_elem_of_bind. by exists r. }
  assert (forall r, r ∈ rs -> ru_server r ∈ fst <$> servers) as Hsv.
  { intros r Hr. pose proof (head_omap_none _ _ Hb r Hr) as H1. cbv beta in H1. apply has_server_elem. by destruct (has_server servers (ru_server r)). }
  apply try_map_spec in Hrs. clear Hf Hb. induction Hrs as [|j r js rs Hj Hrest IH]; [by split|].
  destruct IH as [IH1 IH2]; [intros r' f Hr' Hin; eapply Hfw; [by apply list_elem_of_further|done]|intros r' Hr'; apply Hsv; by apply list_elem_of_further|].
  split; constructor; try done.
  - eapply parse_json_rule_ok; [exact Hj|apply Hsv, list_elem_of_here|]. apply Forall_forall. intros f Hin. eapply Hfw; [apply list_elem_of_here|done].
  - clear -Hj. unfold parse_json_rule in Hj. unbind Hj ms Hms. destruct (non_blank _); [|done]. unbind Hj fs Hfs. by injection Hj as <-.
Qed.

Lemma parse_final_ok v servers f vc : parse_final_config unicode_lower v servers = Ok (f, vc) -> forall rules, fallback_ok (fst <$> servers) rules f.
Proof.
  intros H rules. unfold parse_final_config in H. destruct v as [n|[jf|]]; [| |done].
  - destruct (has_server servers n) eqn:Hs; [|done]. injection H as <- _. by apply has_server_elem.
  - destruct (jf_primary jf) as [p|], (jf_secondary jf) as [s|]; try done. destruct (has_server servers p) eqn:Hp; [|done].
    destruct (has_server servers s) eqn:Hs; [|done]. cbn [negb] in H. case_decide as Hd; [done|]. unbind H m Hm.
    destruct (answer_ip_is_empty m) eqn:Hm'; [done|]. injection H as <- _. cbn. split_and!; [by apply has_server_elem|by apply has_server_elem|done|done].
Qed.

Lemma ruleset_loop_ok entries seen specs : ruleset_loop unicode_lower entries seen = Ok specs ->
  NoDup (spec_tag <$> specs) /\ Forall (fun s => spec_tag s ∉ seen) specs.
Proof.
  revert seen specs. induction entries as [|e entries IH]; intros seen specs H; cbn [ruleset_loop] in H; [injection H as <-; by split; constructor|].
  unbind H s Hs. unbind H rest Hrest. injection H as <-. apply IH in Hrest as [H1 H2].
  assert (spec_tag s ∉ seen) as Hns.
  { unfold parse_ruleset_entry in Hs. case_decide; [done|]. case_decide as Hin; [done|]. unbind Hs f Hf. unbind Hs b Hb. case_decide; [done|]. by injection Hs as <-. }
  split; [cbn [fmap list_fmap]; constructor; [|done]|constructor; [done|]].
  - intros Hin. apply list_elem_of_fmap in Hin as (s' & E & Hs'). apply (proj1 (Forall_forall _ _) H2) in Hs'. apply Hs', elem_of_union_l, elem_of_singleton. by symmetry.
  - apply (Forall_impl _ _ _ H2). intros s' Hs' Hin. by apply Hs', elem_of_union_r.
Qed.
End parsing.

(** ** Overrides change only the cache policy *)

Definition same_rule (r r' : RuleSpec) : Prop := ru_matcher r' = ru_matcher r /\ ru_server r' = ru_server r /\ ru_filters r' = ru_filters r.

Lemma apply_override_ok name ov rules rules' : apply_override name ov rules = Ok rules' ->
  Forall2 (fun r r' => same_rule r r' /\ (forall p, ru_cache_policy r' = Some p -> ru_cache_policy r = Some p \/ policy_ok p)) rules rules'.
Proof.
  unfold apply_override. case_decide as Hc; [done|]. destruct (match jo_min_ttl ov with Some _ => _ | None => _ end) eqn:Hm; [done|].
  destruct (existsb _ rules); [|done]. cbn [negb].
  assert (forall l : list RuleSpec, Forall2 (fun r r' => same_rule r r' /\ (forall p, ru_cache_policy r' = Some p -> ru_cache_policy r = Some p \/ policy_ok p)) l l) as Hrefl.
  { intros l. induction l; constructor; [|done]. split; [done|]. by left. }
  destruct (negb _ && _ && _); intros [= <-]; [apply Hrefl|]. apply Forall2_fmap_r.
  assert (policy_ok (mkRuleCachePolicy (default false (jo_no_cache ov)) (jo_min_ttl ov) (jo_max_ttl ov))) as Hp.
  { split; cbn.
    - intros Hs. split; apply eq_None_not_Some; intros Hsome; apply Hc; (split; [done|]); tauto.
    - intros min max E1 E2. rewrite E1, E2 in Hm. apply bool_decide_eq_false in Hm. lia. }
  clear Hm Hc. induction rules as [|r rules IH]; constructor; [|done]. unfold compose. cbv beta. case_decide; cbn; (split; [done|]); [|by left]. intros p [= <-]. by right.
Qed.

Lemma same_rule_trans r1 r2 r3 : same_rule r1 r2 -> same_rule r2 r3 -> same_rule r1 r3.
Proof. unfold same_rule. intros (-> & -> & ->) (-> & -> & ->). done. Qed.

Lemma overrides_ok overrides rules rules' : apply_cache_field_overrides overrides rules = Ok rules' ->
  (forall r p, r ∈ rules -> ru_cache_policy r = Some p -> policy_ok p) ->
  Forall2 same_rule rules rules' /\ (forall r p, r ∈ rules' -> ru_cache_policy r = Some p -> policy_ok p).
Proof.
  revert rules. induction overrides as [|[name ov] overrides IH]; intros rules H Hp; cbn [apply_cache_field_overrides] in H.
  - injection H as <-. split; [|done]. clear. induction rules; by constructor.
  - unbind H mid Hmid. apply apply_override_ok in Hmid.
    assert (forall r p, r ∈ mid -> ru_cache_policy r = Some p -> policy_ok p) as Hp'.
    { intros r p Hr Hrp. apply list_elem_of_lookup in Hr as [i Hi]. destruct (Forall2_lookup_r _ _ _ _ _ Hmid Hi) as (r0 & Hi0 & _ & Hc).
      destruct (Hc p Hrp) as [H0|H0]; [|done]. eapply Hp; [by eapply list_elem_of_lookup_2|done]. }
    destruct (IH mid H Hp') as [H1 H2]. split; [|done].
    assert (Forall2 same_rule rules mid) as H0 by (apply (Forall2_impl _ _ _ _ Hmid); tauto).
    clear -H0 H1. revert rules' H1. induction H0 as [|r m rs ms Hr _ IH]; intros rules' H1; inversion H1; subst; constructor; [by eapply same_rule_trans|by apply IH].
Qed.

Lemma rules_ok_same {Regex : Type} `{!RegexEngine Regex} names rules rules' : Forall (rule_ok (Regex := Regex) names) rules ->
  Forall2 same_rule rules rules' -> (forall r p, r ∈ rules' -> ru_cache_policy r = Some p -> policy_ok p) -> Forall (rule_ok (Regex := Regex) names) rules'.
Proof.
  intros H1 H2. induction H2 as [|r r' rs rs' (Em & Es & Ef) _ IH]; intros Hp; [constructor|]. apply Forall_cons in H1 as [(A1 & A2 & A3 & _) H1]. constructor.
  - split_and!; [by rewrite Es|by rewrite Em|by rewrite Ef|]. intros p. apply Hp, list_elem_of_here.
  - apply IH; [done|]. intros x p Hx. apply Hp. by apply list_elem_of_further.
Qed.

(** ** Set targets *)

Lemma elem_of_concat {A} (x : A) ls : x ∈ concat ls <-> exists l, l ∈ ls /\ x ∈ l.
Proof. rewrite list_elem_of_In, in_concat. setoid_rewrite <- list_elem_of_In. done. Qed.

Lemma elem_of_imap {A B} (f : nat -> A -> B) l x : x ∈ imap f l <-> exists i a, l !! i = Some a /\ x = f i a.
Proof.
  rewrite list_elem_of_lookup. setoid_rewrite list_lookup_imap_Some. split.
  - intros (i & a & Ha & ->). eauto.
  - intros (i & a & Ha & ->). eauto.
Qed.

Lemma ipset_config_elem rules i j raw v6 : (i, j, raw, v6) ∈ default [] (parse_ipset_config rules) <->
  exists r f, rules !! i = Some r /\ ru_filters r !! j = Some f /\ fl_add_ip f = Some raw /\ v6 = bool_decide (28%Z ∈ fl_response_type f).
Proof.
  unfold parse_ipset_config. set (l := concat _). assert (forall x, x ∈ default [] (match l with [] => None | _ => Some l end) <-> x ∈ l) as ->
    by (intros x; by destruct l).
  unfold l. rewrite elem_of_concat. setoid_rewrite elem_of_imap. split.
  - intros (k & (i' & r & Hr & ->) & Hin). apply list_elem_of_omap in Hin as (o & Ho & E). cbn in E. subst o. apply elem_of_imap in Ho as (j' & f & Hf & E).
    destruct (fl_add_ip f) as [raw'|] eqn:Ha; [|done]. injection E as -> -> -> ->. by exists r, f.
  - intros (r & f & Hr & Hf & Ha & ->). eexists. split; [by exists i, r|]. apply list_elem_of_omap. eexists. split; [|reflexivity].
    apply elem_of_imap. exists j, f. by rewrite Ha.
Qed.

Lemma ipset_config_ok {Regex : Type} `{!RegexEngine Regex} names rules rules' : Forall (rule_ok (Regex := Regex) names) rules -> Forall2 same_rule rules rules' ->
  ipset_ok rules' (parse_ipset_config rules).
Proof.
  intros Hok Hs i j raw v6. rewrite ipset_config_elem.
  assert (forall f r, r ∈ rules -> f ∈ ru_filters r -> is_Some (fl_add_ip f) -> bool_decide (28%Z ∈ fl_response_type f) = true <-> (list_to_set (fl_response_type f) : gset Z) = {[28%Z]}) as H28.
  { intros f r Hr Hf Ha. apply (proj1 (Forall_forall _ _) Hok) in Hr as (_ & _ & Hfs & _). apply (proj1 (Forall_forall _ _) Hfs) in Hf as (_ & _ & _ & _ & _ & Hadd).
    rewrite bool_decide_eq_true. destruct (Hadd Ha) as [_ [E|E]].
    - split; [|intros E'; exfalso; assert (1%Z ∈ ({[28%Z]} : gset Z)) as H1 by (rewrite <- E', E; set_solver); set_solver].
      intros Hin. assert (28%Z ∈ ({[1%Z]} : gset Z)) as H1 by (rewrite <- E; by apply elem_of_list_to_set). set_solver.
    - split; [done|]. intros _. apply (elem_of_list_to_set (C := gset Z)). rewrite E. set_solver. }
  split.
  - intros (r & f & Hr & Hf & Ha & ->). destruct (Forall2_lookup_l _ _ _ _ _ Hs Hr) as (r' & Hr' & _ & _ & Ef). exists r', f. split_and!; [done|by rewrite Ef|done|].
    apply (H28 f r); [by eapply list_elem_of_lookup_2|by eapply list_elem_of_lookup_2|by eexists].
  - intros (r' & f & Hr' & Hf & Ha & Hv). destruct (Forall2_lookup_r _ _ _ _ _ Hs Hr') as (r & Hr & _ & _ & Ef). rewrite Ef in Hf. exists r, f. split_and!; [done|done|done|].
    apply eq_true_iff_eq. rewrite Hv. symmetry. apply (H28 f r); [by eapply list_elem_of_lookup_2|by eapply list_elem_of_lookup_2|by eexists].
Qed.

(** ** Listeners, buffers and dashboard *)

Lemma bind_endpoints_ok addrs seen port udp tcp l : bind_endpoints addrs seen port udp tcp = Ok l ->
  NoDup ((fun b => sa_ip (be_addr b)) <$> l) /\ Forall (fun b => sa_port (be_addr b) = port /\ (sa_ip (be_addr b) ∉ seen)) l.
Proof.
  revert seen l. induction addrs as [|ip addrs IH]; intros seen l H; cbn [bind_endpoints] in H; [injection H as <-; by split; constructor|].
  case_decide as Hs; [done|]. unbind H rest Hrest. injection H as <-. apply IH in Hrest as [H1 H2]. split; constructor; cbn; try done.
  - intros Hin. apply list_elem_of_fmap in Hin as (b & E & Hb). apply (proj1 (Forall_forall _ _) H2) in Hb as [_ Hb]. apply Hb. rewrite <- E. apply list_elem_of_here.
  - apply (Forall_impl _ _ _ H2). intros b [E Hb]. split; [done|]. intros Hin. apply Hb. by apply list_elem_of_further.
Qed.

Lemma parse_bind_ok b binds interface : parse_bind_config b = Ok (binds, interface) ->
  NoDup ((fun b => sa_ip (be_addr b)) <$> binds) /\ Forall (fun b => sa_port (be_addr b) <> 0)%Z binds.
Proof.
  unfold parse_bind_config. case_decide as Hp; [done|]. intros H. unbind H ut Hut. destruct ut as [udp tcp]. unbind H addrs Ha. unbind H es He. unbind H i Hi.
  injection H as <- _. apply bind_endpoints_ok in He as [H1 H2]. split; [done|]. apply (Forall_impl _ _ _ H2). intros e [-> _]. done.
Qed.

Lemma power_of_two_ok n : (16 <= n <= 8192)%Z -> (16 <= next_power_of_two n <= 8192)%Z /\ exists k, (0 <= k)%Z /\ next_power_of_two n = (2 ^ k)%Z.
Proof.
  intros Hn. unfold next_power_of_two. split; [|exists (Z.log2_up n); split; [apply Z.log2_up_nonneg|done]]. split.
  - transitivity (2 ^ Z.log2_up 16)%Z; [done|]. apply Z.pow_le_mono_r; [lia|]. apply Z.log2_up_le_mono. lia.
  - transitivity (2 ^ Z.log2_up 8192)%Z; [|done]. apply Z.pow_le_mono_r; [lia|]. apply Z.log2_up_le_mono. lia.
Qed.

Lemma parse_dashboard_ok d binds interface c : parse_dashboard_config d binds interface = Ok c ->
  da_channel c <> 0%Z /\ (da_channel c <= 1000000)%Z /\ (da_memory c <= 10000000)%Z /\
  forall f, da_file c = Some f -> df_max_mb f <> 0%Z /\ df_max_segments f <> 0%Z /\ (1 <= df_batch_size f)%Z /\ (50 <= df_flush_interval_ms f)%Z.
Proof.
  unfold parse_dashboard_config. destruct d as [ql|]; [|by intros [= <-]]. intros H. unbind H b Hb. destruct (match jd_token ql with Some _ => _ | None => _ end); [done|].
  do 3 (case_decide; [done|]). unbind H file Hf. injection H as <-. cbn. split_and!; [done|lia|lia|]. intros f ->.
  unfold dashboard_file in Hf. destruct (jd_file ql) as [j|]; [|done]. do 2 (case_decide; [done|]). injection Hf as <-. cbn. split_and!; try done; lia.
Qed.

(** ** Servers *)

Lemma strip_names (servers : list (list Z * ServerSpec)) : fst <$> (strip_by_default <$> servers) = fst <$> servers.
Proof. rewrite <- list_fmap_compose. apply list_fmap_ext. by intros _ [n [es|set]] _. Qed.

Lemma strip_ok (servers : list (list Z * ServerSpec)) : Forall (fun s => spec_ok (snd s)) servers -> Forall (fun s => spec_ok (snd s) /\ endpoints_strip (snd s)) (strip_by_default <$> servers).
Proof.
  intros H. apply Forall_fmap. apply (Forall_impl _ _ _ H). intros [n [es|set]] Hs; cbn in *; [|done]. destruct Hs as [Hne Hes]. split_and!.
  - by destruct es.
  - apply Forall_fmap. apply (Forall_impl _ _ _ Hes). intros e (H1 & H2 & H3 & H4 & H5 & H6). split_and!; try done.
    intros m [= <-]. destruct (ep_ecs_mode e) as [m|]; [by apply H5|done].
  - apply Forall_fmap, list.Forall_true. intros e. by eexists.
Qed.

Section from_json_theory.
Context {Regex : Type} `{!RegexEngine Regex}.
Context (unicode_lower : list Z -> list Z) (net : Network) (parallelism : Z).
Context (net_bytes : forall s m q r, net s m q = Some r -> bytes_ok r).

Lemma assemble_ok json binds interface wt mi servers c : (1 <= mi)%Z ->
  NoDup ((fun b => sa_ip (be_addr b)) <$> binds) -> Forall (fun b => sa_port (be_addr b) <> 0)%Z binds ->
  NoDup (fst <$> servers) -> Forall (fun s => spec_ok (snd s)) servers ->
  assemble (Regex := Regex) unicode_lower json binds interface wt mi servers = Ok c -> config_ok (Regex := Regex) c.
Proof.
  intros Hmi Hb1 Hb2 Hnd Hspecs H. unfold assemble in H. unbind H rules Hrules. unbind H u Hu.
  assert (bad_rule_server servers rules = None) as Hbad by (destruct (bad_rule_server servers rules); [done|done]). clear Hu.
  destruct (parse_rules_ok unicode_lower _ _ _ Hrules Hbad) as [Hok Hnone]. unbind H fv Hf. destruct fv as [f vc]. case_decide as Httl; [done|].
  unbind H rules' Hov. unbind H diag Hdiag. unbind H dash Hdash. unbind H specs Hsp. injection H as <-.
  destruct (overrides_ok _ _ _ Hov) as [Hsame Hpol].
  { intros r p Hr Hp. apply (proj1 (Forall_forall _ _) Hnone) in Hr. congruence. }
  assert (length rules' = length rules) as Hlen by (symmetry; by eapply Forall2_length).
  split; cbn.
  - by rewrite strip_names.
  - by apply strip_ok.
  - rewrite strip_names. by eapply rules_ok_same.
  - rewrite strip_names. unfold fallback_of in Hf. destruct (jx_final _) as [v|].
    + eapply parse_final_ok in Hf. by rewrite strip_names in Hf.
    + case_decide as Hr; [done|]. injection Hf as <- _. cbn. intros ->. by destruct rules.
  - by eapply ipset_config_ok.
  - intros Hmax. lia.
  - by apply ruleset_loop_ok in Hsp as [? _].
  - done.
  - done.
  - lia.
  - apply power_of_two_ok. lia.
  - by eapply parse_dashboard_ok.
Qed.

(** Reading a configuration.  Every document is accepted or refused, without a panic
    and with every loop ending, whatever the bootstrap servers answer; and an accepted
    configuration is well formed: server names are distinct and every upstream and
    fixed answer is valid, each rule, forward and fallback names a server that exists, each
    matcher and filter means something, cache bounds are ordered, rule-set tags and listen
    addresses are distinct, the set targets are exactly the filters with add-ip and
    their address family, and all sizes are within their limits. *)
Lemma from_json_spec json : exists r, from_json (Regex := Regex) unicode_lower net parallelism json = Ret r /\
  forall c, r = Ok c -> config_ok (Regex := Regex) c.
Proof.
  unfold from_json. destruct (parse_bind_config (jk_bind json)) as [[binds interface]|e] eqn:Hb; cbn [obind_res]; [|eexists; by split].
  case_decide as Hmi; [eexists; by split|].
  destruct (parse_servers_spec net (default [] (jx_servers (default (mkJRoute None None None None) (jk_route json)))) net_bytes) as (r & Hr & Hok & _).
  rewrite Hr. cbn [obind]. destruct r as [servers|e]; [|eexists; by split]. eexists. split; [done|]. intros c Hc.
  destruct (Hok servers eq_refl) as (pending & T & _ & _ & _ & Hnd & Hf). apply parse_bind_ok in Hb as [H1 H2].
  eapply assemble_ok; [|exact H1|exact H2|exact Hnd| |exact Hc]; [lia|]. clear -Hf. induction Hf as [|p o ps os (_ & _ & Ho) _ IH]; by constructor.
Qed.

(** C15: every configuration document is accepted or refused: parsing never panics (the
    bootstrap queries and the server resolution included), and an accepted configuration
    is well formed: server names, tags and bind addresses are distinct, every server a
    rule, a filter or [route.final] names exists, the response criteria, TTL bounds, fixed
    answers and sizes are in range, patterns classify, and the kernel-set targets are
    exactly the filters with [add-ip], with their address family. *)
Theorem from_json_correct json : exists r, from_json (Regex := Regex) unicode_lower net parallelism json = Ret r /\
  forall c, r = Ok c -> config_ok (Regex := Regex) c.
Proof. apply from_json_spec. Qed.
End from_json_theory.

(** Anchoring relative paths keeps a configuration well formed. *)
Lemma anchor_paths_ok {Regex} `{!RegexEngine Regex} base c : config_ok (Regex := Regex) c -> config_ok (Regex := Regex) (anchor_paths base c).
Proof.
  intros [H1 H2 H3 H4 H5 H6 H7 H8 H9 Hsk H10 (Hd1 & Hd2 & Hd3 & Hd4)]. constructor; try done.
  - cbn [cf_ruleset_specs anchor_paths]. rewrite <- list_fmap_compose. exact H7.
  - cbn [cf_dashboard anchor_paths]. destruct (cf_dashboard c) as [e b t m ch [[d mb sg bs fl rd co]|]]; cbn in *; [|done].
    split_and!; [done..|]. intros f [= <-]. cbn. exact (Hd4 _ eq_refl).
Qed.

(** ** A document *)

Module ConfigDemo.
Import LabelRegex.

(** Two servers, a rule with a filter, a rule set of each behaviour, and a dual
    [route.final] tested against addresses. *)
Definition filter0 : JsonRuleFilterEntry :=
  mkJFilter None (Some (One (Name (lit "A")))) (Some (Many [Name (lit "noerror")])) None (lit "accept") None (Some (lit "inet@fw@proxied")).
Definition filter1 : JsonRuleFilterEntry :=
  mkJFilter (Some (One (lit "lan"))) None None None (lit "forward") (Some (lit "block")) None.
Definition document : JsonConfig :=
  mkJConfig (Some (mkJBind (Some (One (lit "127.0.0.1"))) (Some 5353%Z) None None)) None
    (Some (mkJCache None (Some 10%Z) (Some 3600%Z) None (Some [(lit "dns", mkJOverride (Some 60%Z) None None)]))) None
    (Some (mkJRoute (Some [(lit "block", JString (lit "rcode://nxdomain")); (lit "dns", JArray [JString (lit "udp://8.8.8.8"); JString (lit "tcp://9.9.9.9")])])
             (Some [mkJRuleSet (lit "gfw") (lit "text") (lit "domain") (lit "/a.list"); mkJRuleSet (lit "lan") (lit "text") (lit "ipcidr") (lit "/b.list")])
             (Some [mkJRule (Some [lit "tag:gfw"; lit "+.a"]) (Some (lit "dns")) (Some [filter0; filter1])])
             (Some (FinalObject (Some (mkJFinal (Some (lit "dns")) (Some (lit "block")) (Some (One (lit "lan"))) None None)))))).

Definition parsed_document : outcome (result config_error Config) := from_json (Regex := list item) id (fun _ _ _ => None) 4 document.

Lemma from_json_witness : exists c, parsed_document = Ret (Ok c) /\ config_ok (Regex := list item) c /\ length (cf_rules c) = 1.
Proof.
  destruct (from_json_correct (Regex := list item) id (fun _ _ _ => None) 4) with (json := document) as (r & Hr & Hok); [by intros|].
  fold parsed_document in Hr.
  assert (match parsed_document with Ret (Ok c) => length (cf_rules c) =? 1 | _ => false end = true) as He by by vm_compute.
  rewrite Hr in He. destruct r as [c|]; [|discriminate He]. exists c. split_and!; [exact Hr|by apply Hok|by apply Nat.eqb_eq].
Defined.
End ConfigDemo.
