(* ===== verification/ServerBuild.v ===== *)
(** * Building and reloading the routing snapshot

    [src/server.rs]: from a validated configuration to the snapshot the queries work with
    ([build_hot_state]), and the two reloads that replace it.  Opening the connection
    pools, the files and the decompressor are parameters. *)

From stdpp Require Import gmap strings.
From S2P Require Import Prelude Order Hasher DnsName DnsQuery Utf8 DnsQname DnsRecords DnsEdns Ecs DnsMessage DnsBuilder Persist CacheMap Cache CacheKey VerdictCache Singleflight IpRange RustStr Domain IpParse RankBitmap Mrs Ruleset RouteIndex Router Resolver Upstream UpstreamUrl ConfigServers ConfigParse Config.

(** ** Building *)

(** The error sites of [build_hot_state]. *)
Inductive build_error :=
| PoolFailed (name : list Z) | ForwardUnknown (name : list Z) | RuleTtl (rule : nat) | FallbackUnknown (name : list Z) | NoRuleForFallback
| NoRulesetEntries | RulesetFailed (e : load_error).

Definition strips_ecs (e : UpstreamEndpoint) : bool :=
  match ep_ecs_mode e with Some EcsStrip | None => true | _ => false end.

Section build.
Context {Regex : Type} `{!RegexEngine Regex}.
Context {CS : Type} `{!CacheMap CS Z Entry}.
(** [UpstreamPool::new]: the pool opened for a server, or a failure. *)
Context (pool_new : list Z -> list UpstreamEndpoint -> option nat).
Context (zstd : list Z -> option (list Z)) (watch_path : list Z -> list Z).

Fixpoint build_servers (index : nat) (servers : list (list Z * ServerSpec)) : result build_error (list Server) :=
  match servers with
  | [] => Ok []
  | (name, spec) :: servers =>
      let= (kind, strip_ecs) := match spec with
                                | SUpstream endpoints =>
                                    match pool_new name endpoints with
                                    | Some pool => Ok (Router.Upstream pool, forallb strips_ecs endpoints)
                                    | None => Err (PoolFailed name)
                                    end
                                | SFixed set => Ok (Fixed set, true)
                                end in
      let= rest := build_servers (S index) servers in
      Ok (mkServer name (lit "final->" ++ name) index kind strip_ecs :: rest)
  end.

(** [servers.iter().map(|s| (s.name, s)).collect::<HashMap<_, _>>()] *)
Definition server_by_name (servers : list Server) : gmap (list Z) Server := foldl (fun m s => <[sv_name s := s]> m) ∅ servers.

Definition build_response_filter (by_name : gmap (list Z) Server) (spec : RuleFilterSpec) : result build_error ResponseFilter :=
  let= action := match fl_action spec with
                 | ActAccept => Ok Accept
                 | ActDrop => Ok DropReply
                 | ActForward name => match by_name !! name with Some s => Ok (Forward (sv_index s)) | None => Err (ForwardUnknown name) end
                 end in
  Ok (mkFilter (fl_answer_ip spec) (list_to_set (fl_response_type spec)) (list_to_set (fl_response_rcode spec))
        (list_to_set (fl_response_qclass spec)) action).

Definition build_response_filters (by_name : gmap (list Z) Server) (specs : list RuleFilterSpec) : result build_error (list ResponseFilter) :=
  try_map (build_response_filter by_name) specs.

(** [server_by_name[..]] panics when the name is missing. *)
Fixpoint build_rules (index : nat) (rules : list RuleSpec) (by_name : gmap (list Z) Server) (cache : DnsCache CS)
    : outcome (result build_error (list Rule)) :=
  match rules with
  | [] => Ret (Ok [])
  | spec :: rules =>
      match by_name !! ru_server spec with
      | None => Panic
      | Some server =>
          let* filters := Ret (build_response_filters by_name (ru_filters spec)) in
          let policy := resolve_policy cache (ru_cache_policy spec) in
          if decide (0 < pol_min_ttl policy /\ 0 < pol_max_ttl policy /\ pol_max_ttl policy < pol_min_ttl policy)%Z then Ret (Err (RuleTtl index))
          else
            let* rest := build_rules (S index) rules by_name cache in
            Ret (Ok (mkRule index (ru_server spec) (sv_kind server) policy filters (ru_matcher spec) (sv_strip_ecs server) :: rest))
      end
  end.

Definition find_server (servers : list Server) (name : list Z) : result build_error nat :=
  match list_find (fun s => sv_name s = name) servers with Some (i, _) => Ok i | None => Err (FallbackUnknown name) end.

Definition resolve_fallback (target : FallbackTarget) (rules : list Rule) (servers : list Server) : result build_error ResolvedFallback :=
  match target with
  | LastRule => if decide (length rules = 0) then Err NoRuleForFallback else Ok (FbRule (length rules - 1))
  | ToServer name => let= i := find_server servers name in Ok (FbServer i)
  | Dual primary secondary answer_ip =>
      let= p := find_server servers primary in
      let= s := find_server servers secondary in
      Ok (if negb (answer_ip_is_empty answer_ip) then FbCidrTest p s else FbRace p s)
  end.

Definition needed_ruleset_domain_tags (c : Config) : gset (list Z) :=
  list_to_set (r ← cf_rules c; m ← ru_matcher r; match m with MTag include exclude => include ++ exclude | MDomain _ => [] end).

Definition answer_ip_tags (m : AnswerIpMatcher) : list (list Z) := ai_include m ++ ai_exclude m.

Definition needed_ruleset_ipcidr_tags (c : Config) : gset (list Z) :=
  list_to_set (match fb_target (cf_fallback c) with Dual _ _ m => answer_ip_tags m | _ => [] end
               ++ (r ← cf_rules c; f ← ru_filters r; answer_ip_tags (fl_answer_ip f))).

Definition load_ruleset (fs : list Z -> option (list Z)) (specs : list RuleSetSpec) (domain_tags ipcidr_tags : gset (list Z))
    (reuse : option (RuleSetDb Regex * gset (list Z))) : outcome (result build_error (option (RuleSetDb Regex))) :=
  if decide (domain_tags = ∅ /\ ipcidr_tags = ∅) then Ret (Ok None)
  else if decide (length specs = 0) then Ret (Err NoRulesetEntries)
  else
    let! r := load zstd watch_path fs specs domain_tags ipcidr_tags reuse in
    Ret (match r with Ok db => Ok (Some db) | Err e => Err (RulesetFailed e) end).

(** A configuration with the snapshot built from it. *)
Record Snapshot := mkSnapshot { sn_cfg : Config; sn_hot : HotState (Regex := Regex) }.

Definition fallback_matcher (c : Config) : option AnswerIpMatcher :=
  match fb_target (cf_fallback c) with Dual _ _ m => Some m | _ => None end.

Definition build_hot_state (fs : list Z -> option (list Z)) (c : Config) (cache : DnsCache CS) (generation : Z)
    : outcome (result build_error Snapshot) :=
  let* servers := Ret (build_servers 0 (cf_servers c)) in
  let* rules := build_rules 0 (cf_rules c) (server_by_name servers) cache in
  let* fallback := Ret (resolve_fallback (fb_target (cf_fallback c)) rules servers) in
  let domain_tags := needed_ruleset_domain_tags c in
  let ipcidr_tags := needed_ruleset_ipcidr_tags c in
  let needs_ruleset := negb (bool_decide (domain_tags = ∅)) || negb (bool_decide (ipcidr_tags = ∅)) in
  let* ruleset := load_ruleset fs (cf_ruleset_specs c) domain_tags ipcidr_tags None in
  let index := build_index r_matcher rules in
  Ret (Ok (mkSnapshot c (mkHot servers rules needs_ruleset fallback ruleset index generation (fallback_matcher c)
                           (fb_noip_as_primary_ip (cf_fallback c))))).

(** ** Reloading *)

(** What the last reload reported. *)
Inductive reload_report := Failed | RestartFor (fields : list string).

Record ReloadStats := mkReload {
  rl_applied : Z; rl_failed_attempts : Z; rl_restart_required : Z; rl_last_applied_unix : Z; rl_last_error : option reload_report
}.

Definition reload_stats_new : ReloadStats := mkReload 0 0 0 0 None.

Definition record_applied (now : Z) (s : ReloadStats) : ReloadStats :=
  mkReload (wrap 64 (rl_applied s + 1)) (rl_failed_attempts s) (rl_restart_required s) now None.

Definition record_failed_attempt (s : ReloadStats) : ReloadStats :=
  mkReload (rl_applied s) (wrap 64 (rl_failed_attempts s + 1)) (rl_restart_required s) (rl_last_applied_unix s) (Some Failed).

Definition record_restart_required (fields : list string) (s : ReloadStats) : ReloadStats :=
  mkReload (rl_applied s) (rl_failed_attempts s) (wrap 64 (rl_restart_required s + 1)) (rl_last_applied_unix s) (Some (RestartFor fields)).

Context {VS : Type} `{!CacheMap VS (list Z) VerdictEntry}.

(** The part of [AppState] the reloads and the queries share. *)
Record AppState := mkApp {
  app_hot : Snapshot; app_cache : DnsCache CS; app_verdicts : VerdictCache VS; app_reload : ReloadStats
}.

(** The new snapshot is stored, then both caches are cleared. *)
Definition swap_snapshot (st : AppState) (hot : Snapshot) (now : Z) : AppState :=
  mkApp hot (invalidate_all (app_cache st)) (verdict_invalidate_all (app_verdicts st)) (record_applied now (app_reload st)).

(** [reload_ruleset]: with the error, when loading fails. *)
Definition reload_ruleset (fs : list Z -> option (list Z)) (changed : gset (list Z)) (st : AppState) (now : Z)
    : outcome (AppState * option build_error) :=
  let c := sn_cfg (app_hot st) in
  let hot := sn_hot (app_hot st) in
  let domain_tags := needed_ruleset_domain_tags c in
  let ipcidr_tags := needed_ruleset_ipcidr_tags c in
  if decide (domain_tags = ∅ /\ ipcidr_tags = ∅) then Ret (st, None)
  else
    let! r := load_ruleset fs (cf_ruleset_specs c) domain_tags ipcidr_tags (match hs_ruleset hot with Some db => Some (db, changed) | None => None end) in
    match r with
    | Err e => Ret (st, Some e)
    | Ok db =>
        let index := build_index r_matcher (hs_rules hot) in
        let hot := mkHot (hs_servers hot) (hs_rules hot) (hs_needs_ruleset hot) (hs_fallback hot) db index (wrap 64 (hs_generation hot + 1))
                     (hs_answer_ip hot) (hs_noip_as_primary hot) in
        Ret (swap_snapshot st (mkSnapshot c hot) now, None)
    end.
End build.

Arguments Snapshot Regex : clear implicits.
Arguments AppState Regex CS VS : clear implicits.

(** ** Fields that need a restart *)

#[export] Instance SocketAddr_eq_dec : EqDecision SocketAddr. Proof. solve_decision. Defined.
#[export] Instance BindEndpoint_eq_dec : EqDecision BindEndpoint. Proof. solve_decision. Defined.
#[export] Instance InterfaceFilter_eq_dec : EqDecision InterfaceFilter. Proof. solve_decision. Defined.
#[export] Instance UdpDiagnostics_eq_dec : EqDecision UdpDiagnostics. Proof. solve_decision. Defined.
#[export] Instance VerdictCacheConfig_eq_dec : EqDecision VerdictCacheConfig. Proof. solve_decision. Defined.
#[export] Instance DashboardFileConfig_eq_dec : EqDecision DashboardFileConfig. Proof. solve_decision. Defined.
#[export] Instance DashboardConfig_eq_dec : EqDecision DashboardConfig. Proof. solve_decision. Defined.
#[export] Instance RuleSetFormat_eq_dec : EqDecision RuleSetFormat. Proof. solve_decision. Defined.
#[export] Instance RuleSetBehavior_eq_dec : EqDecision RuleSetBehavior. Proof. solve_decision. Defined.
#[export] Instance RuleSetSpec_eq_dec : EqDecision RuleSetSpec. Proof. solve_decision. Defined.

(** The startup-only fields that differ, in the order they are reported. *)
Definition changed_fields (old new : Config) : list string :=
  let when (b : bool) (s : string) := if b then [s] else [] in
  when (bool_decide (cf_bind old <> cf_bind new \/ cf_interface old <> cf_interface new)) "bind" ++
  when (bool_decide (cf_worker_threads old <> cf_worker_threads new)) "runtime.worker-threads" ++
  when (bool_decide (cf_udp_buf_size old <> cf_udp_buf_size new)) "runtime.udp-buf-size" ++
  when (bool_decide (cf_uring_recv_buffers old <> cf_uring_recv_buffers new)) "runtime.uring-recv-buffers" ++
  when (bool_decide (cf_udp_diagnostics old <> cf_udp_diagnostics new)) "runtime.udp-diagnostics" ++
  when (bool_decide (cf_max_inflight old <> cf_max_inflight new)) "runtime.max-inflight" ++
  when (bool_decide (cf_tcp_max_connections old <> cf_tcp_max_connections new)) "runtime.tcp-max-connections" ++
  when (bool_decide (cf_cache_size old <> cf_cache_size new \/ cf_cache_min_ttl old <> cf_cache_min_ttl new \/
          cf_cache_max_ttl old <> cf_cache_max_ttl new \/ cf_cache_persist_path old <> cf_cache_persist_path new \/
          cf_cache_persist_interval old <> cf_cache_persist_interval new)) "cache" ++
  when (bool_decide (cf_ipset old <> cf_ipset new)) "route add-ip" ++
  when (bool_decide (cf_verdict_cache old <> cf_verdict_cache new)) "route.final.verdict-cache" ++
  when (bool_decide (cf_dashboard old <> cf_dashboard new)) "dashboard" ++
  when (bool_decide (cf_ruleset_specs old <> cf_ruleset_specs new)) "route.ruleset watcher".

Section reload_config.
Context {Regex : Type} `{!RegexEngine Regex}.
Context {CS : Type} `{!CacheMap CS Z Entry} {VS : Type} `{!CacheMap VS (list Z) VerdictEntry}.
Context (pool_new : list Z -> list UpstreamEndpoint -> option nat) (zstd : list Z -> option (list Z)) (watch_path : list Z -> list Z).

Context (unicode_lower : list Z -> list Z) (net : Network) (parallelism : Z).

(** [Config::from_json] and [anchor_paths], as at startup ([parse_args]). *)
Definition load_config (base : list Z) (json : JsonConfig) : outcome (result config_error Config) :=
  let* c := from_json (Regex := Regex) unicode_lower net parallelism json in
  Ret (Ok (anchor_paths base c)).

Inductive reload_error := FileRefused | ConfigRefused (e : config_error) | BuildRefused (e : build_error).

(** [reload_config]; [path] is the configuration's directory with the document read from
    the file ([None] when it cannot be read), and without a path nothing happens. *)
Definition reload_config (fs : list Z -> option (list Z)) (path : option (list Z * option JsonConfig)) (st : AppState Regex CS VS) (now : Z)
    : outcome (AppState Regex CS VS * option reload_error) :=
  match path with
  | None => Ret (st, None)
  | Some (_, None) => Ret (st, Some FileRefused)
  | Some (base, Some json) =>
      let! parsed := load_config base json in
      match parsed with
      | Err e => Ret (st, Some (ConfigRefused e))
      | Ok c =>
          match changed_fields (sn_cfg (app_hot st)) c with
          | [] =>
              let! r := build_hot_state pool_new zstd watch_path fs c (app_cache st) (wrap 64 (hs_generation (sn_hot (app_hot st)) + 1)) in
              match r with
              | Err e => Ret (st, Some (BuildRefused e))
              | Ok hot => Ret (swap_snapshot st hot now, None)
              end
          | fields => Ret (mkApp (app_hot st) (app_cache st) (app_verdicts st) (record_restart_required fields (app_reload st)), None)
          end
      end
  end.

(** [ReloadWatcher::reload]: a failed attempt is counted. *)
Definition watcher_reload {E} (r : outcome (AppState Regex CS VS * option E)) : outcome (AppState Regex CS VS) :=
  let! (st, err) := r in
  Ret (match err with
       | Some _ => mkApp (app_hot st) (app_cache st) (app_verdicts st) (record_failed_attempt (app_reload st))
       | None => st
       end).

(** What the watchers react to: rule-set files, or the configuration file. *)
Inductive reload_event :=
| RulesetChanged (changed : gset (list Z))
| ConfigChanged (path : option (list Z * option JsonConfig)).

Definition reload (ev : reload_event) (fs : list Z -> option (list Z)) (st : AppState Regex CS VS) (now : Z) : outcome (AppState Regex CS VS) :=
  match ev with
  | RulesetChanged changed => watcher_reload (reload_ruleset zstd watch_path fs changed st now)
  | ConfigChanged path => watcher_reload (reload_config fs path st now)
  end.
End reload_config.
