(* ===== verification/ServerBuildCorrect.v ===== *)
(** * Correctness of the routing snapshot

    Building a snapshot from an accepted configuration never panics and gives what the
    query pipeline is shown correct for; reloads are all or nothing. *)

From stdpp Require Import gmap strings.
From S2P Require Import Prelude Order Hasher DnsName DnsQuery Utf8 DnsQname DnsRecords DnsEdns Ecs DnsMessage DnsBuilder Persist CacheMap Cache CacheKey CacheCorrect VerdictCache Singleflight IpRange RustStr Domain IpParse RankBitmap Mrs Ruleset RouteIndex RouteCorrect Router Resolver ResolverCorrect Upstream UpstreamUrl UpstreamUrlCorrect ConfigServers ConfigServersCorrect ConfigParse Config ConfigCorrect ServerBuild.

(** Lists related position by position. *)
Lemma paired_inv {A B} (P : nat -> A -> B -> Prop) (l : list A) (l' : list B) :
  length l' = length l -> (forall k a, l !! k = Some a -> exists b, l' !! k = Some b /\ P k a b) ->
  forall k b, l' !! k = Some b -> exists a, l !! k = Some a /\ P k a b.
Proof.
  intros Hl H k b Hb. assert (k < length l) as Hk by (rewrite <- Hl; by eapply lookup_lt_Some).
  destruct (lookup_lt_is_Some_2 _ _ Hk) as [a Ha]. exists a. split; [done|]. destruct (H k a Ha) as (b' & Hb' & HP). congruence.
Qed.

(** ** Servers *)

Section servers.
Context (pool_new : list Z -> list UpstreamEndpoint -> option nat).

(** The server at position [i] made from a configured one. *)
Definition server_of (i : nat) (cfg : list Z * ServerSpec) (s : Server) : Prop :=
  sv_name s = fst cfg /\ sv_index s = i /\ sv_final_name s = lit "final->" ++ fst cfg /\
  match snd cfg with
  | SUpstream es => exists pool, pool_new (fst cfg) es = Some pool /\ sv_kind s = Router.Upstream pool /\ sv_strip_ecs s = forallb strips_ecs es
  | SFixed set => sv_kind s = Fixed set /\ sv_strip_ecs s = true
  end.

Lemma build_servers_spec i cfg :
  match build_servers pool_new i cfg with
  | Ok out => length out = length cfg /\ forall k c, cfg !! k = Some c -> exists s, out !! k = Some s /\ server_of (i + k) c s
  | Err e => exists n es, e = PoolFailed n /\ (n, SUpstream es) ∈ cfg /\ pool_new n es = None
  end.
Proof.
  revert i. induction cfg as [|[n spec] cfg IH]; intros i; cbn [build_servers]; [by split|].
  assert (Hcons : forall kind strip, server_of i (n, spec) (mkServer n (lit "final->" ++ n) i kind strip) ->
    match rbind (build_servers pool_new (S i) cfg) (fun rest => Ok (mkServer n (lit "final->" ++ n) i kind strip :: rest)) with
    | Ok out => length out = S (length cfg) /\ forall k c, ((n, spec) :: cfg) !! k = Some c -> exists s, out !! k = Some s /\ server_of (i + k) c s
    | Err e => exists n' es, e = PoolFailed n' /\ (n', SUpstream es) ∈ (n, spec) :: cfg /\ pool_new n' es = None
    end).
  { intros kind strip Hs. specialize (IH (S i)). destruct (build_servers pool_new (S i) cfg) as [out|e]; cbn [rbind].
    - destruct IH as [Hl IH]. split; [cbn; lia|]. intros [|k] c Hk.
      + apply (inj Some) in Hk as <-. rewrite Nat.add_0_r. by eexists.
      + destruct (IH k c Hk) as (s & Hout & Hso). exists s. split; [done|]. by replace (i + S k) with (S i + k) by lia.
    - destruct IH as (n' & es & ? & ? & ?). exists n', es. split_and!; [done|by right|done]. }
  destruct spec as [es|set]; cbn [rbind].
  - destruct (pool_new n es) as [pool|] eqn:Hp; cbn [rbind]; [|exists n, es; split_and!; [done|by left|done]].
    apply Hcons. split_and!; [done..|]. by exists pool.
  - by apply Hcons.
Qed.

Lemma server_names i cfg (out : list Server) :
  length out = length cfg -> (forall k c, cfg !! k = Some c -> exists s, out !! k = Some s /\ server_of (i + k) c s) ->
  sv_name <$> out = fst <$> cfg.
Proof.
  intros Hl H. apply list_eq. intros k. rewrite !list_lookup_fmap. destruct (cfg !! k) as [c|] eqn:Hk.
  - destruct (H k c Hk) as (s & -> & Hn & _). cbn. by rewrite Hn.
  - apply lookup_ge_None in Hk. by rewrite (proj2 (lookup_ge_None out k)) by lia.
Qed.

Lemma foldl_by_name (servers : list Server) (m : gmap (list Z) Server) n :
  foldl (fun m s => <[sv_name s := s]> m) m servers !! n =
    match last (filter (fun s => sv_name s = n) servers) with Some s => Some s | None => m !! n end.
Proof.
  revert m. induction servers as [|s servers IH] using rev_ind; intros m; [done|].
  rewrite foldl_app, filter_app. cbn [foldl]. rewrite filter_cons, filter_nil. destruct (decide (sv_name s = n)) as [<-|Hne].
  - by rewrite lookup_insert_eq, last_snoc.
  - rewrite lookup_insert_ne, app_nil_r by done. apply IH.
Qed.

Lemma server_by_name_Some (servers : list Server) n s : server_by_name servers !! n = Some s -> s ∈ servers /\ sv_name s = n.
Proof.
  unfold server_by_name. rewrite foldl_by_name, lookup_empty. destruct (last _) as [s'|] eqn:Hl; [|done]. intros [= <-].
  apply last_Some in Hl as [l Hl]. assert (s' ∈ filter (fun s => sv_name s = n) servers) as Hin
    by (rewrite Hl; apply elem_of_app; right; by left). apply list_elem_of_filter in Hin as [? ?]. done.
Qed.

Lemma server_by_name_defined (servers : list Server) n : n ∈ sv_name <$> servers -> exists s, server_by_name servers !! n = Some s.
Proof.
  intros (s & -> & Hs)%list_elem_of_fmap. unfold server_by_name. rewrite foldl_by_name, lookup_empty.
  destruct (last _) as [s'|] eqn:Hl; [by exists s'|]. apply last_None in Hl.
  assert (s ∈ filter (fun s' => sv_name s' = sv_name s) servers) as Hin by (by apply list_elem_of_filter). rewrite Hl in Hin. by apply not_elem_of_nil in Hin.
Qed.

Lemma find_server_spec (servers : list Server) n : n ∈ sv_name <$> servers ->
  exists i s, find_server servers n = Ok i /\ servers !! i = Some s /\ sv_name s = n.
Proof.
  intros (s & -> & Hs)%list_elem_of_fmap. unfold find_server.
  destruct (list_find _ servers) as [[i s']|] eqn:Hf.
  - apply list_find_Some in Hf as (? & ? & _). by exists i, s'.
  - apply list_find_None in Hf. rewrite Forall_forall in Hf. by destruct (Hf s Hs).
Qed.
End servers.

(** ** Rules *)

Section rules.
Context {CS : Type} `{!CacheMap CS Z Entry}.
Variables (servers : list Server) (cache : DnsCache CS).
Hypothesis Hindex : forall i s, servers !! i = Some s -> sv_index s = i.

(** A filter made from its specification: a forward is the position of the server named. *)
Definition filter_of (spec : RuleFilterSpec) (f : ResponseFilter) : Prop :=
  rf_answer_ip f = fl_answer_ip spec /\ rf_response_type f = list_to_set (fl_response_type spec) /\
  rf_response_rcode f = list_to_set (fl_response_rcode spec) /\ rf_response_qclass f = list_to_set (fl_response_qclass spec) /\
  match fl_action spec with
  | ActAccept => rf_action f = Accept
  | ActDrop => rf_action f = DropReply
  | ActForward n => exists k s, rf_action f = Forward k /\ servers !! k = Some s /\ sv_name s = n
  end.

Lemma build_response_filters_spec specs :
  Forall (forwards_to (sv_name <$> servers)) specs ->
  exists out, build_response_filters (server_by_name servers) specs = Ok out /\ Forall2 filter_of specs out.
Proof.
  unfold build_response_filters. induction 1 as [|spec specs Hs _ (out & Hout & IH)]; [by exists []|]. cbn [try_map].
  assert (exists f, build_response_filter (server_by_name servers) spec = Ok f /\ filter_of spec f) as (f & -> & Hf).
  { unfold build_response_filter, filter_of. unfold forwards_to in Hs. destruct (fl_action spec) as [| |n]; cbn [rbind]; [by eexists..|].
    destruct (server_by_name_defined servers n (Hs _ eq_refl)) as [s Hn]. rewrite Hn. cbn [rbind]. eexists. split; [done|].
    split_and!; [done..|]. apply server_by_name_Some in Hn as [Hin Hn]. apply list_elem_of_lookup_1 in Hin as [k Hk].
    exists k, s. by rewrite (Hindex k s Hk). }
  cbn [rbind]. rewrite Hout. cbn [rbind]. eexists. split; [done|]. by constructor.
Qed.

(** Inherited and overridden TTL bounds that contradict each other. *)
Definition ttl_conflict (p : ResolvedCachePolicy) : Prop :=
  (0 < pol_min_ttl p /\ 0 < pol_max_ttl p /\ pol_max_ttl p < pol_min_ttl p)%Z.

(** The rule at position [i] made from its specification. *)
Definition rule_of (i : nat) (spec : RuleSpec) (r : Rule) : Prop :=
  exists s filters, s ∈ servers /\ sv_name s = ru_server spec /\ Forall2 filter_of (ru_filters spec) filters /\
    ~ ttl_conflict (resolve_policy cache (ru_cache_policy spec)) /\
    r = mkRule i (ru_server spec) (sv_kind s) (resolve_policy cache (ru_cache_policy spec)) filters (ru_matcher spec) (sv_strip_ecs s).

Lemma build_rules_spec i specs :
  Forall (fun r => ru_server r ∈ sv_name <$> servers /\ Forall (forwards_to (sv_name <$> servers)) (ru_filters r)) specs ->
  exists r, build_rules i specs (server_by_name servers) cache = Ret r /\
    match r with
    | Ok out => length out = length specs /\ forall k spec, specs !! k = Some spec -> exists rule, out !! k = Some rule /\ rule_of (i + k) spec rule
    | Err e => exists k spec, e = RuleTtl (i + k) /\ specs !! k = Some spec /\ ttl_conflict (resolve_policy cache (ru_cache_policy spec))
    end.
Proof.
  intros H. revert i. induction H as [|spec specs [Hs Hf] _ IH]; intros i; cbn [build_rules]; [by eexists|].
  destruct (server_by_name_defined servers _ Hs) as [s Hn]. rewrite Hn.
  destruct (build_response_filters_spec _ Hf) as (filters & -> & Hfs). cbn [obind obind_res].
  destruct (decide (0 < pol_min_ttl _ /\ _)%Z) as [Hc|Hc].
  { eexists. split; [done|]. exists 0, spec. by rewrite Nat.add_0_r. }
  destruct (IH (S i)) as ([out|e] & -> & Hr); cbn [obind obind_res]; (eexists; split; [done|]).
  - destruct Hr as [Hl Hr]. split; [cbn; lia|]. intros [|k] sp Hk.
    + apply (inj Some) in Hk as <-. eexists. split; [done|]. rewrite Nat.add_0_r.
      apply server_by_name_Some in Hn as [? ?]. by exists s, filters.
    + destruct (Hr k sp Hk) as (rule & ? & ?). exists rule. split; [done|]. by replace (i + S k) with (S i + k) by lia.
  - destruct Hr as (k & sp & -> & ? & ?). exists (S k), sp. split_and!; [f_equal; lia|done..].
Qed.
End rules.

(** ** The snapshot *)

Section snapshot.
Context {Regex : Type} `{!RegexEngine Regex}.
Context {CS : Type} `{!CacheMap CS Z Entry}.
Context (pool_new : list Z -> list UpstreamEndpoint -> option nat).
Context (zstd : list Z -> option (list Z)) (watch_path : list Z -> list Z).
Hypothesis Hzstd : forall raw stream, zstd raw = Some stream -> bytes_ok stream.

(** The [route.final] target refers to the servers named in the configuration. *)
Definition fallback_resolved (servers : list Server) (rules : list Rule) (t : FallbackTarget) (r : ResolvedFallback) : Prop :=
  let named i n := exists s, servers !! i = Some s /\ sv_name s = n in
  match t, r with
  | LastRule, FbRule i => S i = length rules
  | ToServer n, FbServer i => named i n
  | Dual p s _, FbCidrTest i j => named i p /\ named j s
  | _, _ => False
  end.

(** The rule-set database covers every tag the configuration mentions. *)
Definition ruleset_covers (c : Config) (db : option (RuleSetDb Regex)) : Prop :=
  (forall rs, db = Some rs -> db_ok rs) /\
  (forall t, t ∈ needed_ruleset_domain_tags c -> exists rs m, db = Some rs /\ db_tags rs !! t = Some (TagDomain m)) /\
  (forall t, t ∈ needed_ruleset_ipcidr_tags c -> exists rs s, db = Some rs /\ db_tags rs !! t = Some (TagIpCidr s)).

Record snapshot_ok (cache : DnsCache CS) (sn : Snapshot Regex) : Prop := mkSnapshotOk {
  so_config : config_ok (Regex := Regex) (sn_cfg sn);
  so_servers : length (hs_servers (sn_hot sn)) = length (cf_servers (sn_cfg sn)) /\
    forall k c, cf_servers (sn_cfg sn) !! k = Some c -> exists s, hs_servers (sn_hot sn) !! k = Some s /\ server_of pool_new k c s;
  so_rules : length (hs_rules (sn_hot sn)) = length (cf_rules (sn_cfg sn)) /\
    forall k spec, cf_rules (sn_cfg sn) !! k = Some spec ->
      exists r, hs_rules (sn_hot sn) !! k = Some r /\ rule_of (hs_servers (sn_hot sn)) cache k spec r;
  so_fallback : fallback_resolved (hs_servers (sn_hot sn)) (hs_rules (sn_hot sn)) (fb_target (cf_fallback (sn_cfg sn))) (hs_fallback (sn_hot sn));
  so_answer_ip : hs_answer_ip (sn_hot sn) = fallback_matcher (sn_cfg sn);
  so_index : hs_index (sn_hot sn) = build_index r_matcher (hs_rules (sn_hot sn));
  so_needs : hs_needs_ruleset (sn_hot sn) = false <-> needed_ruleset_domain_tags (sn_cfg sn) = ∅ /\ needed_ruleset_ipcidr_tags (sn_cfg sn) = ∅;
  so_ruleset : ruleset_covers (sn_cfg sn) (hs_ruleset (sn_hot sn));
  so_none : hs_needs_ruleset (sn_hot sn) = false -> hs_ruleset (sn_hot sn) = None
}.

Lemma load_ruleset_spec fs specs (c : Config) reuse :
  (forall prev changed, reuse = Some (prev, changed) -> db_ok prev) ->
  exists r, load_ruleset zstd watch_path fs specs (needed_ruleset_domain_tags c) (needed_ruleset_ipcidr_tags c) reuse = Ret r /\
    match r with
    | Ok db => ruleset_covers c db /\ (needed_ruleset_domain_tags c = ∅ /\ needed_ruleset_ipcidr_tags c = ∅ -> db = None)
    | Err e => (e = NoRulesetEntries /\ specs = []) \/
        exists le, e = RulesetFailed le /\
          load zstd watch_path fs specs (needed_ruleset_domain_tags c) (needed_ruleset_ipcidr_tags c) reuse = Ret (Err le)
    end.
Proof.
  intros Hprev. unfold load_ruleset. set (D := needed_ruleset_domain_tags c). set (I := needed_ruleset_ipcidr_tags c).
  destruct (decide (D = ∅ /\ I = ∅)) as [[HD HI]|Hne].
  { eexists. split; [done|]. split; [|done]. unfold ruleset_covers. fold D I. rewrite HD, HI. split_and!; [done|set_solver..]. }
  case_decide as Hsp; [eexists; split; [done|]; left; split; [done|by apply length_zero_iff_nil]|].
  destruct (load_returns zstd watch_path fs specs D I reuse Hzstd) as [r Hr]. rewrite Hr. cbn [obind].
  eexists. split; [done|]. destruct r as [db|e]; [|right; by exists e].
  pose proof (load_reuse_ok _ _ _ _ _ _ _ _ Hzstd Hprev Hr) as Hok. apply load_Ok_inv in Hr as (_ & HD & HI).
  split; [|done]. split_and!; [by intros ? [= <-]|..]; intros t Ht.
  - destruct (HD t Ht) as [m Hm]. by exists db, m.
  - destruct (HI t Ht) as [s Hs]. by exists db, s.
Qed.

Lemma resolve_fallback_spec (c : Config) rules servers :
  fallback_ok (sv_name <$> servers) (cf_rules c) (cf_fallback c) -> length rules = length (cf_rules c) ->
  exists f, resolve_fallback (fb_target (cf_fallback c)) rules servers = Ok f /\
    fallback_resolved servers rules (fb_target (cf_fallback c)) f.
Proof.
  unfold fallback_ok, resolve_fallback, fallback_resolved. intros Hf Hl. destruct (fb_target (cf_fallback c)) as [|n|p s m].
  2: { destruct (find_server_spec servers n Hf) as (i & x & -> & ? & ?). cbn [rbind]. eexists. split; [done|]. by exists x. }
  2: { destruct Hf as (Hp & Hs & _ & Hm). destruct (find_server_spec servers p Hp) as (i & x & -> & ? & ?). cbn [rbind].
    destruct (find_server_spec servers s Hs) as (j & y & -> & ? & ?). cbn [rbind]. rewrite Hm. cbn [negb].
    eexists. split; [done|]. split; [by exists x|by exists y]. }
  rewrite decide_False by (destruct (cf_rules c); cbn in Hl; [done|lia]). eexists. split; [done|].
    destruct (cf_rules c); [done|]. cbn in Hl. lia.
Qed.

(** Building ends for every accepted configuration; it is refused only for a pool that
    does not open, contradicting TTL bounds, or the rule-set files. *)
Lemma build_hot_state_spec fs (c : Config) (cache : DnsCache CS) generation :
  config_ok (Regex := Regex) c ->
  exists r, build_hot_state (Regex := Regex) pool_new zstd watch_path fs c cache generation = Ret r /\
    match r with
    | Ok sn => snapshot_ok cache sn /\ sn_cfg sn = c /\ hs_generation (sn_hot sn) = generation
    | Err (PoolFailed n) => exists es, (n, SUpstream es) ∈ cf_servers c /\ pool_new n es = None
    | Err (RuleTtl k) => exists spec, cf_rules c !! k = Some spec /\ ttl_conflict (resolve_policy cache (ru_cache_policy spec))
    | Err NoRulesetEntries => cf_ruleset_specs c = []
    | Err (RulesetFailed e) => load (Regex := Regex) zstd watch_path fs (cf_ruleset_specs c) (needed_ruleset_domain_tags c) (needed_ruleset_ipcidr_tags c) None = Ret (Err e)
    | Err _ => False
    end.
Proof.
  intros Hc. unfold build_hot_state. pose proof (build_servers_spec pool_new 0 (cf_servers c)) as Hs.
  destruct (build_servers pool_new 0 (cf_servers c)) as [servers|e]; cbn [obind_res obind].
  2: { eexists. split; [done|]. destruct Hs as (n & es & -> & ? & ?). by exists es. }
  destruct Hs as [Hlen Hs]. pose proof (server_names pool_new 0 _ _ Hlen Hs) as Hnames.
  assert (Hindex : forall i s, servers !! i = Some s -> sv_index s = i).
  { intros i s Hi. destruct (paired_inv _ _ _ Hlen Hs i s Hi) as (? & _ & _ & Hix & _). exact Hix. }
  destruct (build_rules_spec servers cache Hindex 0 (cf_rules c)) as (r & -> & Hr).
  { rewrite Hnames. eapply Forall_impl; [apply (co_rules _ Hc)|]. intros spec (Hsrv & _ & Hf & _). split; [done|].
    eapply Forall_impl; [exact Hf|]. by intros f (_ & _ & _ & _ & ? & _). }
  destruct r as [rules|e]; cbn [obind_res obind].
  2: { eexists. split; [done|]. destruct Hr as (k & spec & -> & ? & ?). by exists spec. }
  destruct Hr as [Hlr Hr].
  destruct (resolve_fallback_spec c rules servers) as (f & -> & Hf); [rewrite Hnames; apply (co_fallback _ Hc)|done|]. cbn [obind_res obind].
  destruct (load_ruleset_spec fs (cf_ruleset_specs c) c None) as (db & -> & Hdb); [done|].
  destruct db as [db|e]; cbn [obind_res obind].
  2: { eexists. split; [done|]. by destruct Hdb as [[-> ?]|(le & -> & ?)]. }
  destruct Hdb as [Hdb Hnone]. assert (Hneeds : negb (bool_decide (needed_ruleset_domain_tags c = ∅)) || negb (bool_decide (needed_ruleset_ipcidr_tags c = ∅)) = false
    <-> needed_ruleset_domain_tags c = ∅ /\ needed_ruleset_ipcidr_tags c = ∅) by (by rewrite orb_false_iff, !negb_false_iff, !bool_decide_eq_true).
  eexists. split; [done|]. split; [|done]. constructor; cbn [sn_cfg sn_hot hs_servers hs_rules hs_fallback hs_answer_ip hs_index hs_needs_ruleset hs_ruleset];
    try done.
  intros H%Hneeds. by apply Hnone.
Qed.
End snapshot.

(** ** The pipeline on a built snapshot *)

Lemma fixed_set_fixed_ok set : fixed_set_ok set -> fixed_ok set.
Proof.
  intros (Ha & _ & Hr & _). split.
  - eapply Forall_impl; [exact Ha|]. intros [o t|o t]; cbn; by intros (? & ? & _).
  - destruct (fs_rcode set) as [r|]; cbn; [|lia]. destruct (Hr r eq_refl) as [? _]. lia.
Qed.

Section pipeline.
Context {Regex : Type} `{!RegexEngine Regex}.
Context {CS : Type} `{!CacheMap CS Z Entry}.
Context (pool_new : list Z -> list UpstreamEndpoint -> option nat).
Variables (cache : DnsCache CS) (sn : Snapshot Regex).
Hypothesis Hsn : snapshot_ok pool_new cache sn.
Let hot := sn_hot sn.

Lemma snapshot_kinds : Forall (fun s => kind_ok (sv_kind s)) (hs_servers hot).
Proof.
  apply Forall_lookup. intros i s Hi. destruct (so_servers _ _ _ Hsn) as [Hl Hs].
  destruct (paired_inv _ _ _ Hl Hs i s Hi) as ([n spec] & Hc & _ & _ & _ & Hk). cbn [snd fst] in Hk.
  assert (spec_ok spec) as Hspec.
  { pose proof (co_servers _ (so_config _ _ _ Hsn)) as Hco. rewrite Forall_forall in Hco.
    by destruct (Hco _ (list_elem_of_lookup_2 _ _ _ Hc)). }
  destruct spec as [es|set].
  - destruct Hk as (pool & _ & -> & _). done.
  - destruct Hk as [-> _]. by apply fixed_set_fixed_ok.
Qed.

Lemma snapshot_rule_target rule : rule ∈ hs_rules hot -> target_ok hot (rule_target rule).
Proof.
  intros [i Hi]%list_elem_of_lookup_1. destruct (so_rules _ _ _ Hsn) as [Hl Hr].
  destruct (paired_inv _ _ _ Hl Hr i rule Hi) as (spec & _ & s & filters & Hs & _ & Hf & _ & ->). cbn [target_ok rule_target r_kind r_filters].
  split; [pose proof snapshot_kinds as Hk; rewrite Forall_forall in Hk; by apply Hk|].
  clear -Hf. induction Hf as [|fs f l l' (_ & _ & _ & _ & H) _ IH]; constructor; [|done].
  destruct (fl_action fs); [by rewrite H..|]. destruct H as (k & s & -> & Hk & _). by eapply lookup_lt_Some.
Qed.

Lemma snapshot_fallback_bounds :
  match hs_fallback hot with
  | FbRule i => i < length (hs_rules hot)
  | FbServer i => i < length (hs_servers hot)
  | FbRace p s | FbCidrTest p s => p < length (hs_servers hot) /\ s < length (hs_servers hot)
  end.
Proof.
  pose proof (so_fallback _ _ _ Hsn) as Hf. fold hot in Hf. unfold fallback_resolved in Hf.
  destruct (fb_target _), (hs_fallback hot); try done.
  - lia.
  - destruct Hf as (x & Hx & _). by eapply lookup_lt_Some.
  - destruct Hf as [(x & Hx & _) (y & Hy & _)]. split; by eapply lookup_lt_Some.
Qed.

Lemma snapshot_final_target qtype t :
  classify_target (hs_fallback hot) (hs_rules hot) (hs_servers hot) qtype = Ret t -> target_ok hot t.
Proof.
  pose proof snapshot_fallback_bounds as Hb. pose proof snapshot_kinds as Hk. rewrite Forall_forall in Hk.
  assert (Hidx : forall A (l : list A) i, i < length l -> exists x, idx l i = Ret x /\ x ∈ l).
  { intros A l i Hi. destruct (lookup_lt_is_Some_2 l i Hi) as [x Hx]. exists x. split; [by apply idx_lookup|]. by eapply list_elem_of_lookup_2. }
  unfold classify_target. destruct (hs_fallback hot) as [i|i|p s|p s].
  - destruct (Hidx _ _ i Hb) as (r & -> & Hr). cbn [obind]. intros [= <-]. apply (snapshot_rule_target _ Hr).
  - destruct (Hidx _ _ i Hb) as (r & -> & Hr). cbn [obind]. intros [= <-]. by apply Hk.
  - destruct Hb as [Hp Hs]. destruct (Hidx _ _ p Hp) as (x & -> & Hx), (Hidx _ _ s Hs) as (y & -> & Hy). cbn [obind].
    intros [= <-]. split; by apply Hk.
  - destruct Hb as [Hp Hs]. destruct (Hidx _ _ p Hp) as (x & -> & Hx), (Hidx _ _ s Hs) as (y & -> & Hy). cbn [obind].
    case_decide; intros [= <-]; (split; by apply Hk).
Qed.

(** The sizes the index can number. *)
Definition sizes_ok : Prop := num_tags (hs_index hot) <= Z.to_nat 65536 /\ (Z.of_nat (length (hs_rules hot)) < USIZE_MAX)%Z.

Lemma snapshot_hot_ok db : sizes_ok -> hs_ruleset hot = None \/ hs_ruleset hot = Some db -> hot_ok hot db.
Proof. intros [Ht Hr] Hdb. constructor; [apply (so_index _ _ _ Hsn)|done..|apply snapshot_fallback_bounds]. Qed.
End pipeline.

Lemma ensure_qname_ctx_ok ctx ctx' : ensure_qname ctx = Ret ctx' -> ctx_ok ctx ->
  ctx_ok ctx' /\ ctx_packet ctx' = ctx_packet ctx /\ info_id (ctx_info ctx') = info_id (ctx_info ctx) /\
  info_question_end (ctx_info ctx') = info_question_end (ctx_info ctx).
Proof.
  unfold ensure_qname. destruct (qname_owned ctx) as [q| |]; cbn [obind]; [|done..]. intros H [H1 H2 H3 H4 H5].
  apply (inj Ret) in H as <-. done.
Qed.

Lemma select_target_context {Regex} `{!RegexEngine Regex} {RS} `{!CacheMap RS (list Z) Z} ctx (hot : HotState (Regex := Regex)) (rc rc' : RS) ce co ctx' t :
  select_target ctx hot rc ce co = Ret (ctx', t, rc') -> ctx' = ctx \/ ensure_qname ctx = Ret ctx'.
Proof.
  unfold select_target. destruct (constant_target (hs_index hot)) as [k|].
  - destruct (ce || co).
    + destruct (ensure_qname ctx) as [cx| |] eqn:He; cbn [obind]; [|done..]. destruct (match k with Some _ => _ | None => _ end); cbn [obind]; [|done..].
      intros [= <- _ _]. by right.
    + cbn [obind]. destruct (match k with Some _ => _ | None => _ end); cbn [obind]; [|done..]. intros [= <- _ _]. by left.
  - destruct (ensure_qname ctx) as [cx| |] eqn:He; cbn [obind]; [|done..]. destruct (qname_owned cx) as [q| |]; cbn [obind]; [|done..].
    destruct (route _ _ _ _ _) as [[r rc2]| |]; cbn [obind]; [|done..]. destruct (match r with Some _ => _ | None => _ end); cbn [obind]; [|done..].
    intros [= <- _ _]. by right.
Qed.

Lemma first_match_ext {Regex} `{!RegexEngine Regex} {R1 R2} (m1 : R1 -> list RuleMatcher) (m2 : R2 -> list RuleMatcher) l1 l2
    (ruleset : option (RuleSetDb Regex)) q r :
  m1 <$> l1 = m2 <$> l2 -> first_match m1 l1 ruleset q r -> first_match m2 l2 ruleset q r.
Proof.
  intros He. assert (Hk : forall k y, l2 !! k = Some y -> exists x, l1 !! k = Some x /\ m1 x = m2 y).
  { intros k y Hy. assert ((m1 <$> l1) !! k = Some (m2 y)) as Hx by (rewrite He, list_lookup_fmap, Hy; done).
    rewrite list_lookup_fmap in Hx. destruct (l1 !! k) as [x|]; [|done]. exists x. by injection Hx. }
  assert (Hk' : forall k x, l1 !! k = Some x -> exists y, l2 !! k = Some y /\ m1 x = m2 y).
  { intros k x Hx. assert ((m2 <$> l2) !! k = Some (m1 x)) as Hy by (rewrite <- He, list_lookup_fmap, Hx; done).
    rewrite list_lookup_fmap in Hy. destruct (l2 !! k) as [y|]; [|done]. exists y. injection Hy as Hy. by rewrite Hy. }
  destruct r as [i|]; cbn [first_match].
  - intros [(x & Hx & Hm) Hf]. destruct (Hk' _ _ Hx) as (y & Hy & Heq). split; [exists y; by rewrite <- Heq|].
    intros j y' Hj Hy'. destruct (Hk _ _ Hy') as (x' & Hx' & <-). by eapply Hf.
  - intros Hf j y Hy. destruct (Hk _ _ Hy) as (x & Hx & <-). by eapply Hf.
Qed.

Section end_to_end.
Context {Regex : Type} `{!RegexEngine Regex, !RegexLaws Regex}.
Context {CS : Type} `{!CacheMap CS Z Entry}.
Context {RS : Type} `{!CacheMap RS (list Z) Z, !CacheMapLaws RS (list Z) Z}.
Context {VS : Type} `{!CacheMap VS (list Z) VerdictEntry, !CacheMapLaws VS (list Z) VerdictEntry}.
Context (unicode_lower : list Z -> list Z) (net : Network) (parallelism : Z).
Context (pool_new : list Z -> list UpstreamEndpoint -> option nat).
Context (zstd : list Z -> option (list Z)) (watch_path : list Z -> list Z).
Hypothesis Hnet : forall s m q r, net s m q = Some r -> bytes_ok r.
Hypothesis Hzstd : forall raw stream, zstd raw = Some stream -> bytes_ok stream.

(** The database routing decisions are checked against. *)
Definition the_ruleset (hot : HotState (Regex := Regex)) : RuleSetDb Regex := default (mkDb ∅) (hs_ruleset hot).

Lemma snapshot_rule_specs (cache : DnsCache CS) (sn : Snapshot Regex) : snapshot_ok pool_new cache sn ->
  r_matcher <$> hs_rules (sn_hot sn) = ru_matcher <$> cf_rules (sn_cfg sn).
Proof.
  intros Hsn. destruct (so_rules _ _ _ Hsn) as [Hl Hr]. apply list_eq. intros k. rewrite !list_lookup_fmap.
  destruct (cf_rules (sn_cfg sn) !! k) as [spec|] eqn:Hk.
  - destruct (Hr k spec Hk) as (rule & -> & s & fs & _ & _ & _ & _ & ->). done.
  - apply lookup_ge_None in Hk. by rewrite (proj2 (lookup_ge_None _ k)) by lia.
Qed.

Lemma snapshot_query_spec (cache : DnsCache CS) (sn : Snapshot Regex) ctx (rcache : RS) ce co exch1 exch2 pf (verdicts : VerdictCache VS) has_ipset generation now1 now2 :
  snapshot_ok pool_new cache sn -> sizes_ok sn ->
  ctx_ok ctx -> (forall q, info_qname (ctx_info ctx) = Some q -> utf8_valid q = true) ->
  cm_all (decision_ok r_matcher (hs_rules (sn_hot sn)) (the_ruleset (sn_hot sn))) rcache ->
  exch_ok ctx exch1 -> exch_ok ctx exch2 ->
  exists ctx' t rcache' q r,
    select_target ctx (sn_hot sn) rcache ce co = Ret (ctx', t, rcache') /\ qname_owned ctx = Ret q /\
    cm_all (decision_ok r_matcher (hs_rules (sn_hot sn)) (the_ruleset (sn_hot sn))) rcache' /\
    first_match ru_matcher (cf_rules (sn_cfg sn)) (query_ruleset (sn_hot sn)) q r /\
    (forall i, r = Some i -> exists spec, cf_rules (sn_cfg sn) !! i = Some spec /\ upstream_name t = ru_server spec) /\
    exists out verdicts' adds,
      resolve_with_filters exch1 exch2 pf ctx' verdicts (sn_hot sn) has_ipset generation now1 now2 t = Ret (out, verdicts', adds) /\
      forall resp wi fi, out = Ok (StepResponse resp wi fi) -> upstream_ok_reply ctx resp.
Proof.
  intros Hsn Hsz Hctx Hq Hrc He1 He2.
  assert (Hhot : hot_ok (sn_hot sn) (the_ruleset (sn_hot sn))).
  { eapply snapshot_hot_ok; [done|done|]. unfold the_ruleset. destruct (hs_ruleset (sn_hot sn)); [by right|by left]. }
  destruct (select_target_spec (sn_hot sn) (the_ruleset (sn_hot sn)) ctx rcache ce co Hhot (co_bytes _ Hctx) Hq Hrc)
    as (ctx' & t & rcache' & q & r & Hsel & Hrc' & Hqn & _ & Hpk & Hfm & Htgt).
  exists ctx', t, rcache', q, r. split; [done|]. split; [done|]. split; [done|].
  pose proof (snapshot_rule_specs _ _ Hsn) as Hspecs.
  split; [by eapply first_match_ext|]. split.
  { intros i ->. destruct Htgt as (rule & Hi & ->). destruct (so_rules _ _ _ Hsn) as [Hl Hr].
    destruct (paired_inv _ _ _ Hl Hr i rule Hi) as (spec & Hspec & s & fs & _ & _ & _ & _ & ->). by exists spec. }
  assert (Ht : target_ok (sn_hot sn) t).
  { destruct r as [i|]; [|by eapply snapshot_final_target]. destruct Htgt as (rule & Hi & ->).
    eapply snapshot_rule_target; [done|]. by eapply list_elem_of_lookup_2. }
  assert (ctx_ok ctx' /\ exch_ok ctx' exch1 /\ exch_ok ctx' exch2 /\ forall p, upstream_ok_reply ctx' p -> upstream_ok_reply ctx p) as (Hc' & He1' & He2' & Hup).
  { destruct (select_target_context _ _ _ _ _ _ _ _ Hsel) as [->|He]; [done|].
    destruct (ensure_qname_ctx_ok _ _ He Hctx) as (Hc & _). split; [done|]. unfold ensure_qname in He.
    destruct (qname_owned ctx); cbn [obind] in He; [|done..]. apply (inj Ret) in He as <-.
    split_and!; [intros pool p [? ? ? ?]%He1|intros pool p [? ? ? ?]%He2|intros p [? ? ? ?]]; by constructor. }
  destruct (filter_chain_spec ctx' (sn_hot sn) Hc' (snapshot_kinds _ _ _ Hsn) (proj1 (so_ruleset _ _ _ Hsn))
    exch1 exch2 pf verdicts has_ipset generation now1 now2 t He1' He2' Ht) as (first & v1 & out & v' & adds & _ & Hout & Hok & _).
  exists out, v', adds. split; [done|]. intros. by eapply Hup, Hok.
Qed.
End end_to_end.

(** ** Reloads *)

Section reloads.
Context {Regex : Type} `{!RegexEngine Regex}.
Context {CS : Type} `{!CacheMap CS Z Entry} {VS : Type} `{!CacheMap VS (list Z) VerdictEntry}.
Context (pool_new : list Z -> list UpstreamEndpoint -> option nat).
Context (zstd : list Z -> option (list Z)) (watch_path : list Z -> list Z).
Hypothesis Hzstd : forall raw stream, zstd raw = Some stream -> bytes_ok stream.

Definition app_ok (st : AppState Regex CS VS) : Prop := snapshot_ok pool_new (app_cache st) (app_hot st).

(** Rules keep their policies when the cache is cleared. *)
Lemma snapshot_ok_cleared cache (sn : Snapshot Regex) : snapshot_ok pool_new cache sn -> snapshot_ok pool_new (invalidate_all cache) sn.
Proof.
  assert (Hp : forall p, resolve_policy (invalidate_all cache) p = resolve_policy cache p).
  { intros p. unfold invalidate_all. destruct (dc_cache cache); done. }
  intros [H1 H2 [Hl Hr] H4 H5 H6 H7 H8 H9]. constructor; try done. split; [done|]. intros k spec Hk.
  destruct (Hr k spec Hk) as (r & Hrk & s & fs & Hs). exists r. split; [done|]. exists s, fs. by rewrite Hp.
Qed.

(** A new snapshot is in place and both caches were cleared. *)
Definition swapped (st : AppState Regex CS VS) (now : Z) (st' : AppState Regex CS VS) : Prop :=
  hs_generation (sn_hot (app_hot st')) = wrap 64 (hs_generation (sn_hot (app_hot st)) + 1) /\
  app_cache st' = invalidate_all (app_cache st) /\ app_verdicts st' = verdict_invalidate_all (app_verdicts st) /\
  app_reload st' = record_applied now (app_reload st).

(** Snapshot and caches are what they were. *)
Definition untouched (st st' : AppState Regex CS VS) : Prop :=
  app_hot st' = app_hot st /\ app_cache st' = app_cache st /\ app_verdicts st' = app_verdicts st.

(** A rule-set reload that succeeds keeps servers, rules and configuration. *)
Definition same_routing (sn sn' : Snapshot Regex) : Prop :=
  sn_cfg sn' = sn_cfg sn /\ hs_servers (sn_hot sn') = hs_servers (sn_hot sn) /\ hs_rules (sn_hot sn') = hs_rules (sn_hot sn) /\
  hs_fallback (sn_hot sn') = hs_fallback (sn_hot sn).

Lemma reload_ruleset_spec fs changed st now : app_ok st ->
  exists st' err, reload_ruleset zstd watch_path fs changed st now = Ret (st', err) /\ app_ok st' /\
    match err with
    | Some _ => st' = st
    | None => (st' = st /\ needed_ruleset_domain_tags (sn_cfg (app_hot st)) = ∅ /\ needed_ruleset_ipcidr_tags (sn_cfg (app_hot st)) = ∅) \/
        (swapped st now st' /\ same_routing (app_hot st) (app_hot st'))
    end.
Proof.
  intros Hok. unfold reload_ruleset. case_decide as Ht; [do 2 eexists; split; [done|]; split; [done|]; left; by destruct Ht|].
  destruct (load_ruleset_spec zstd watch_path Hzstd fs (cf_ruleset_specs (sn_cfg (app_hot st))) (sn_cfg (app_hot st))
    (match hs_ruleset (sn_hot (app_hot st)) with Some db => Some (db, changed) | None => None end)) as (r & -> & Hr).
  { intros prev ch. destruct (hs_ruleset (sn_hot (app_hot st))) as [db|] eqn:Hdb; [|done]. intros [= <- <-].
    destruct (so_ruleset _ _ _ Hok) as [H _]. by apply H. }
  cbn [obind]. destruct r as [db|e]; [|by do 2 eexists].
  do 2 eexists. split; [done|]. split; [|by right].
  apply snapshot_ok_cleared. destruct Hr as [Hr _], Hok as [H1 H2 H3 H4 H5 H6 H7 H8 H9]. constructor; try done.
  cbn [sn_hot hs_needs_ruleset hs_ruleset]. intros Hn%H7. done.
Qed.

Context (unicode_lower : list Z -> list Z) (net : Network) (parallelism : Z).
Hypothesis Hnet : forall s m q r, net s m q = Some r -> bytes_ok r.

Lemma load_config_spec base json : exists r, load_config (Regex := Regex) unicode_lower net parallelism base json = Ret r /\
  forall c, r = Ok c -> config_ok (Regex := Regex) c.
Proof.
  unfold load_config. destruct (from_json_spec unicode_lower net parallelism Hnet json) as (r & -> & Hr). destruct r as [c|e]; cbn [obind_res]; [|by eexists].
  eexists. split; [done|]. intros c' [= <-]. by apply anchor_paths_ok, Hr.
Qed.

Lemma reload_config_spec fs path st now : app_ok st ->
  exists st' err, reload_config pool_new zstd watch_path unicode_lower net parallelism fs path st now = Ret (st', err) /\ app_ok st' /\
    match err with
    | Some _ => st' = st
    | None => (st' = st /\ path = None) \/
        exists base json c, path = Some (base, Some json) /\ load_config (Regex := Regex) unicode_lower net parallelism base json = Ret (Ok c) /\
          (changed_fields (sn_cfg (app_hot st)) c <> [] /\ untouched st st' /\
             app_reload st' = record_restart_required (changed_fields (sn_cfg (app_hot st)) c) (app_reload st) \/
           changed_fields (sn_cfg (app_hot st)) c = [] /\ swapped st now st' /\ sn_cfg (app_hot st') = c)
    end.
Proof.
  intros Hok. unfold reload_config. destruct path as [[base [json|]]|];
    [|do 2 eexists; by split..|do 2 eexists; split; [done|]; split; [done|]; by left].
  destruct (load_config_spec base json) as (r & Hl & Hc). rewrite Hl. cbn [obind]. destruct r as [c|e]; [|by do 2 eexists].
  destruct (changed_fields (sn_cfg (app_hot st)) c) as [|f fields] eqn:Hf.
  - destruct (build_hot_state_spec pool_new zstd watch_path Hzstd fs c (app_cache st) (wrap 64 (hs_generation (sn_hot (app_hot st)) + 1)) (Hc c eq_refl))
      as (r & -> & Hr). cbn [obind]. destruct r as [sn|e]; [|by do 2 eexists]. destruct Hr as (Hsn & Hcfg & Hg).
    do 2 eexists. split; [done|]. split; [by apply snapshot_ok_cleared|]. right. exists base, json, c. do 2 (split; [done|]). by right.
  - do 2 eexists. split; [done|]. split; [done|]. right. exists base, json, c. do 2 (split; [done|]). left. by rewrite Hf.
Qed.

(** Both reloads, as the watchers run them. *)
Definition reload_post (ev : reload_event) (now : Z) (st st' : AppState Regex CS VS) : Prop :=
  (swapped st now st' \/
   untouched st st' /\ (app_reload st' = app_reload st \/ app_reload st' = record_failed_attempt (app_reload st) \/
     exists fields, fields <> [] /\ app_reload st' = record_restart_required fields (app_reload st))) /\
  match ev with
  | RulesetChanged _ => same_routing (app_hot st) (app_hot st')
  | ConfigChanged path => app_hot st' = app_hot st \/
      exists base json c, path = Some (base, Some json) /\ load_config (Regex := Regex) unicode_lower net parallelism base json = Ret (Ok c) /\
        changed_fields (sn_cfg (app_hot st)) c = [] /\ sn_cfg (app_hot st') = c
  end.

Lemma reload_spec ev fs st now : app_ok st ->
  exists st', reload pool_new zstd watch_path unicode_lower net parallelism ev fs st now = Ret st' /\ app_ok st' /\ reload_post ev now st st'.
Proof.
  intros Hok. destruct ev as [changed|path]; cbn [reload].
  - destruct (reload_ruleset_spec fs changed st now Hok) as (st' & err & -> & Hok' & Hr). cbn [watcher_reload obind].
    destruct err as [e|].
    + subst st'. eexists. split; [done|]. split; [done|]. split; [right; split; [done|]; right; by left|done].
    + exists st'. split; [done|]. split; [done|]. destruct Hr as [(-> & _)|[Hs Hsame]]; [|by split; [left|]].
      split; [right; split; [done|]; by left|done].
  - destruct (reload_config_spec fs path st now Hok) as (st' & err & -> & Hok' & Hr). cbn [watcher_reload obind].
    destruct err as [e|].
    + subst st'. eexists. split; [done|]. split; [done|]. split; [right; split; [done|]; right; by left|by left].
    + exists st'. split; [done|]. split; [done|]. destruct Hr as [(-> & _)|(base & json & c & -> & Hl & [(Hne & Hu & Hrl)|(Hf & Hs & Hcfg)])].
      * split; [right; split; [done|]; by left|by left].
      * split; [right; split; [done|]; right; right; by eexists|]. left. by destruct Hu.
      * split; [by left|]. right. by exists base, json, c.
Qed.
End reloads.
