(* ===== verification/ServerCorrect.v ===== *)
(** * The running server

    The states a server goes through from its configuration document over any reloads of
    rule sets and configuration, and what holds in all of them. *)

From stdpp Require Import gmap strings.
From S2P Require Import Prelude Order Hasher DnsName DnsQuery Utf8 DnsQname DnsRecords DnsEdns Ecs DnsMessage DnsBuilder Persist CacheMap Cache CacheKey CacheCorrect VerdictCache Singleflight IpRange RustStr Domain IpParse RankBitmap Mrs Ruleset RouteIndex RouteCorrect Router Resolver ResolverCorrect Upstream UpstreamUrl UpstreamUrlCorrect ConfigServers ConfigServersCorrect ConfigParse Config ConfigCorrect ServerBuild ServerBuildCorrect.

Section running.
Context {Regex : Type} `{!RegexEngine Regex, !RegexLaws Regex}.
Context {CS : Type} `{!CacheMap CS Z Entry, !CacheMapLaws CS Z Entry}.
Context {RS : Type} `{!CacheMap RS (list Z) Z, !CacheMapLaws RS (list Z) Z}.
Context {VS : Type} `{!CacheMap VS (list Z) VerdictEntry, !CacheMapLaws VS (list Z) VerdictEntry}.
Context (pool_new : list Z -> list UpstreamEndpoint -> option nat).
Context (zstd : list Z -> option (list Z)) (watch_path : list Z -> list Z).
Context (unicode_lower : list Z -> list Z) (net : Network) (parallelism : Z).
Hypothesis Hnet : forall s m q r, net s m q = Some r -> bytes_ok r.
Hypothesis Hzstd : forall raw stream, zstd raw = Some stream -> bytes_ok stream.

(** Started from a document, then reloaded; the queries in between change the caches'
    contents and not their configuration. *)
Inductive running : AppState Regex CS VS -> Prop :=
| running_start base json c fs cache verdicts generation sn :
    load_config (Regex := Regex) unicode_lower net parallelism base json = Ret (Ok c) ->
    build_hot_state pool_new zstd watch_path fs c cache generation = Ret (Ok sn) ->
    running (mkApp sn cache verdicts reload_stats_new)
| running_reload ev fs now st st' :
    running st -> reload pool_new zstd watch_path unicode_lower net parallelism ev fs st now = Ret st' -> running st'
| running_queries st cache verdicts :
    running st -> dc_min_ttl cache = dc_min_ttl (app_cache st) -> dc_max_ttl cache = dc_max_ttl (app_cache st) ->
    running (mkApp (app_hot st) cache verdicts (app_reload st)).

Lemma snapshot_ok_cache (cache cache' : DnsCache CS) (sn : Snapshot Regex) :
  dc_min_ttl cache' = dc_min_ttl cache -> dc_max_ttl cache' = dc_max_ttl cache ->
  snapshot_ok pool_new cache sn -> snapshot_ok pool_new cache' sn.
Proof.
  intros Hmin Hmax [H1 H2 [Hl Hr] H4 H5 H6 H7 H8 H9]. constructor; try done. split; [done|]. intros k spec Hk.
  destruct (Hr k spec Hk) as (r & Hrk & s & fs & Hs). exists r. split; [done|]. exists s, fs.
  assert (resolve_policy cache' (ru_cache_policy spec) = resolve_policy cache (ru_cache_policy spec)) as ->
    by (unfold resolve_policy; by rewrite Hmin, Hmax). done.
Qed.

Lemma running_ok st : running st -> app_ok pool_new st.
Proof.
  induction 1 as [base json c fs cache verdicts generation sn Hc Hb|ev fs now st st' _ IH Hr|st cache verdicts _ IH Hmin Hmax].
  - destruct (load_config_spec unicode_lower net parallelism Hnet base json) as (r & Hl & Hok). rewrite Hl in Hc. apply (inj Ret) in Hc as ->.
    destruct (build_hot_state_spec pool_new zstd watch_path Hzstd fs c cache generation (Hok c eq_refl)) as (r & Hb' & Hr).
    rewrite Hb' in Hb. apply (inj Ret) in Hb as ->. by destruct Hr.
  - destruct (reload_spec pool_new zstd watch_path Hzstd unicode_lower net parallelism Hnet ev fs st now IH) as (st2 & Hr2 & Hok & _).
    rewrite Hr2 in Hr. by apply (inj Ret) in Hr as <-.
  - by eapply snapshot_ok_cache.
Qed.



End running.

(** ** A deployment *)

Module ServerDemo.
Import LabelRegex ConfigDemo.

Definition pools (_ : list Z) (_ : list UpstreamEndpoint) : option nat := Some 0.
Definition no_zstd (_ : list Z) : option (list Z) := None.
Definition no_net : Network := fun _ _ _ => None.
Definition cache0 : DnsCache (gmap Z Entry) := cache_new (mkCacheConfig 100 10 3600).
Definition verdicts0 : VerdictCache (gmap (list Z) VerdictEntry) := verdict_new None.

Definition loaded : outcome (result config_error Config) := load_config (Regex := list item) id no_net 4 (lit "/etc") document.
Definition built : outcome (result build_error (Snapshot (list item))) :=
  match loaded with
  | Ret (Ok c) => build_hot_state (CS := gmap Z Entry) pools no_zstd id RulesetDemo.fs0 c cache0 7
  | _ => Panic
  end.

Lemma no_net_bytes : forall s m q r, no_net s m q = Some r -> bytes_ok r.
Proof. by intros. Defined.

Lemma no_zstd_bytes : forall raw stream, no_zstd raw = Some stream -> bytes_ok stream.
Proof. by intros. Defined.


(** The state after start. *)
Lemma started : exists sn, built = Ret (Ok sn) /\
  running (CS := gmap Z Entry) (VS := gmap (list Z) VerdictEntry) pools no_zstd id id no_net 4 (mkApp sn cache0 verdicts0 reload_stats_new).
Proof.
  assert (match built with Ret (Ok _) => true | _ => false end = true) as Hb by by vm_compute.
  destruct built as [[sn|e]| |] eqn:He; [|discriminate Hb..]. exists sn. split; [done|]. unfold built in He.
  destruct loaded as [[c|e]| |] eqn:Hl; [|discriminate He..]. by eapply running_start.
Defined.


End ServerDemo.
