(* ===== verification/ReloadRace.v ===== *)
(** * Reloads against queries in flight

    A reload stores the new snapshot and then clears the cache; a query writes its answer
    after comparing its routing generation with the current one.  Here the two are
    interleaved step by step: [leader_finish] compares and writes at once, while in
    [src/resolver.rs] the comparison and the write are separate operations on the shared
    state. *)

From stdpp Require Import base list relations.
From S2P Require Import Prelude.

(** The generation in force, the generation each cache entry was routed under, the queries
    that passed the comparison and have not written yet, and whether a reload is between
    its store and its clear (reloads exclude one another). *)
Record Race := mkRace { hot_gen : Z; entries : list Z; checked : list Z; clearing : bool }.

Inductive race_step : Race -> Race -> Prop :=
(* [state.hot_generation() == routing_gen] *)
| step_check s : race_step s (mkRace (hot_gen s) (entries s) (hot_gen s :: checked s) (clearing s))
(* [state.cache.add(..)] *)
| step_write s l1 g l2 : checked s = l1 ++ g :: l2 -> race_step s (mkRace (hot_gen s) (g :: entries s) (l1 ++ l2) (clearing s))
(* [state.hot.store(..)] *)
| step_store s : clearing s = false -> race_step s (mkRace (wrap 64 (hot_gen s + 1)) (entries s) (checked s) true)
(* [state.cache.invalidate_all()] *)
| step_clear s : clearing s = true -> race_step s (mkRace (hot_gen s) [] (checked s) false).

(** The same with the comparison and the write in one step. *)
Inductive atomic_step : Race -> Race -> Prop :=
| atomic_write s : atomic_step s (mkRace (hot_gen s) (hot_gen s :: entries s) (checked s) (clearing s))
| atomic_store s : clearing s = false -> atomic_step s (mkRace (wrap 64 (hot_gen s + 1)) (entries s) (checked s) true)
| atomic_clear s : clearing s = true -> atomic_step s (mkRace (hot_gen s) [] (checked s) false).

Definition race_init (g : Z) : Race := mkRace g [] [] false.

(** No reload is half done and every entry was routed under the generation in force. *)
Definition fresh_cache (s : Race) : Prop := Forall (fun g => g = hot_gen s) (entries s).

(** With the comparison and the write in one step the two halves of the invalidation
    suffice: outside a reload the cache never holds an entry of an older generation. *)
Lemma atomic_keeps_fresh g s : rtc atomic_step (race_init g) s -> clearing s = false -> fresh_cache s.
Proof.
  assert (Hinv : forall s s', atomic_step s s' -> (clearing s = false -> fresh_cache s) -> clearing s' = false -> fresh_cache s').
  { intros a b [s1|s1 Hc|s1 Hc] IH; cbn [clearing]; [|done|by intros; constructor].
    intros Hc. constructor; [done|]. by apply IH. }
  assert (Hrun : forall a b, rtc atomic_step a b -> (clearing a = false -> fresh_cache a) -> clearing b = false -> fresh_cache b).
  { induction 1 as [|a b c Hab _ IH]; [done|]. intros Ha. apply IH. by apply (Hinv a b). }
  intros Hr. apply (Hrun _ _ Hr). intros _. constructor.
Qed.

(** As written they do not: a reload that stores and clears between a query's comparison
    and its write leaves the query's entry, routed under the old generation, in the cache
    of the new one. *)
Lemma reload_leaves_stale_entry :
  exists s, rtc race_step (race_init 0) s /\ clearing s = false /\ checked s = [] /\ hot_gen s = 1%Z /\ entries s = [0%Z].
Proof.
  exists (mkRace 1 [0%Z] [] false). split; [|done].
  eapply rtc_l; [apply step_check|]. eapply rtc_l; [by apply step_store|]. eapply rtc_l; [by apply step_clear|].
  eapply rtc_l; [by apply (step_write _ [] 0%Z [])|]. apply rtc_refl.
Qed.
