(* ===== verification/Watcher.v ===== *)
(** * File watchers

    [watch_files] and its helpers in [src/server.rs]: which changes of watched files reach
    a reload.  Paths are lists of components, which is how [PathBuf] compares them; the
    kernel's event queue, the files and the reload's reads are interleaved step by step. *)

From stdpp Require Import gmap list relations functions strings.
From S2P Require Import Prelude RustStr.

(** ** Paths *)

Inductive Component := RootDir | CurDir | ParentDir | Normal (name : list Z).

#[export] Instance Component_eq_dec : EqDecision Component.
Proof. solve_decision. Defined.

#[export] Instance Component_countable : Countable Component.
Proof.
  refine (inj_countable' (fun c => match c with RootDir => inl 0 | CurDir => inl 1 | ParentDir => inl 2 | Normal n => inr n end)
    (fun s => match s with inl 0 => RootDir | inl 1 => CurDir | inl _ => ParentDir | inr n => Normal n end) _).
  by intros [].
Defined.

Definition Path : Type := list Component.

(** The pieces between slashes; a [.] counts only at the start of a relative path. *)
Fixpoint piece_components (first : bool) (pieces : list (list Z)) : list Component :=
  match pieces with
  | [] => []
  | p :: pieces =>
      let rest := piece_components false pieces in
      if decide (p = []) then rest
      else if decide (p = lit ".") then (if first then CurDir :: rest else rest)
      else if decide (p = lit "..") then ParentDir :: rest
      else Normal p :: rest
  end.

(** [Path::components] *)
Definition components (s : list Z) : Path :=
  if starts_with (lit "/") s then RootDir :: piece_components false (str_split 47 s) else piece_components true (str_split 47 s).

Definition parent (p : Path) : option Path :=
  match reverse p with [] | RootDir :: _ => None | _ :: r => Some (reverse r) end.

Definition file_name (p : Path) : option (list Z) := match last p with Some (Normal n) => Some n | _ => None end.

Definition watch_parent (p : Path) : Path :=
  match parent p with Some q => if decide (q = []) then [CurDir] else q | None => [CurDir] end.

(** [dir.join(name)] for a file name, which is never absolute; joining nothing changes
    nothing. *)
Definition join_name (dir : Path) (name : option (list Z)) : Path := match name with Some n => dir ++ [Normal n] | None => dir end.

Definition normalized_watch_path (p : Path) : Path := join_name (watch_parent p) (file_name p).

(** The watched directories; the file names kept with them are not used. *)
Definition watched_dirs (paths : list Path) : gset Path := list_to_set (watch_parent <$> paths).

(** ** Events *)

(** A kernel event: the overflow mark, the watch it belongs to, and the file's name. *)
Record Event := mkEvent { ev_overflow : bool; ev_wd : nat; ev_name : option (list Z) }.

Fixpoint collect_changed_paths (events : list Event) (wd_dirs : gmap nat Path) (targets changed : gset Path) : gset Path * bool :=
  match events with
  | [] => (changed, false)
  | e :: events =>
      if ev_overflow e then (fst (collect_changed_paths events wd_dirs targets (changed ∪ targets)), true)
      else
        match ev_name e, wd_dirs !! ev_wd e with
        | Some n, Some dir =>
            let full := join_name dir (Some n) in
            if decide (full ∈ targets) then (fst (collect_changed_paths events wd_dirs targets ({[full]} ∪ changed)), true)
            else collect_changed_paths events wd_dirs targets changed
        | _, _ => collect_changed_paths events wd_dirs targets changed
        end
  end.

(** ** The loop *)

Definition RELOAD_RETRIES : nat := 5.

(** Where the loop is: in the blocking read, before the reload (waiting out the debounce
    window), or reloading with the attempts left and the versions read so far. *)
Inductive Phase := Waiting | Debouncing | Reloading (retries : nat) (read : gmap Path nat).

(** Each file has a version on disk and one the running state was loaded from. *)
Record World := mkWorld { disk : Path -> nat; loaded : Path -> nat; queue : list Event; changed : gset Path; phase : Phase }.

Section loop.
Variables (wd_dirs : gmap nat Path) (targets : gset Path).

(** The kernel's report of a change of [f]; when its queue is full, the overflow mark. *)
Definition reports (f : Path) (e : Event) : Prop :=
  ev_overflow e = true \/ exists n dir, ev_name e = Some n /\ wd_dirs !! ev_wd e = Some dir /\ f = join_name dir (Some n).

Definition load_read (read : gmap Path nat) (loaded : Path -> nat) (f : Path) : nat := default (loaded f) (read !! f).

Inductive watch_step : World -> World -> Prop :=
(* a watched or other file changes, whatever the loop is doing *)
| touch_file f e w : reports f e ->
    watch_step w (mkWorld (<[f := S (disk w f)]> (disk w)) (loaded w) (queue w ++ [e]) (changed w) (phase w))
(* the blocking read returns the first events of the queue *)
| wake evs rest c relevant w : phase w = Waiting -> queue w = evs ++ rest -> evs <> [] ->
    collect_changed_paths evs wd_dirs targets (changed w) = (c, relevant) ->
    watch_step w (mkWorld (disk w) (loaded w) rest c (if relevant then Debouncing else Waiting))
(* after the window, with the events that arrived during it *)
| settle evs rest w : phase w = Debouncing -> queue w = evs ++ rest ->
    watch_step w (mkWorld (disk w) (loaded w) rest (fst (collect_changed_paths evs wd_dirs targets (changed w))) (Reloading RELOAD_RETRIES ∅))
(* the reload reads a changed file *)
| read_file f r read w : phase w = Reloading r read -> f ∈ changed w ->
    watch_step w (mkWorld (disk w) (loaded w) (queue w) (changed w) (Reloading r (<[f := disk w f]> read)))
(* it succeeds, having read every changed file *)
| reload_done r read w : phase w = Reloading r read -> dom read = changed w ->
    watch_step w (mkWorld (disk w) (load_read read (loaded w)) (queue w) ∅ Waiting)
(* it fails: the next attempt, or back to waiting *)
| reload_failed r read w : phase w = Reloading (S r) read ->
    watch_step w (mkWorld (disk w) (loaded w) (queue w) (changed w) (if decide (r = 0) then Waiting else Reloading r ∅)).

Definition watch_start (versions : Path -> nat) : World := mkWorld versions versions [] ∅ Waiting.

(** ** No change is lost *)

Lemma collect_spec events c c' rel : collect_changed_paths events wd_dirs targets c = (c', rel) ->
  c ⊆ c' /\ (forall f e, f ∈ targets -> e ∈ events -> reports f e -> f ∈ c' /\ rel = true) /\ c' ⊆ c ∪ targets /\ (rel = false -> c' = c).
Proof.
  revert c c' rel. induction events as [|e events IH]; intros c c' rel; cbn [collect_changed_paths].
  { intros [= <- <-]. split_and!; [done| |apply union_subseteq_l|done]. intros f e _ He. by apply not_elem_of_nil in He. }
  assert (Hrel : forall c1, c ⊆ c1 -> c1 ⊆ c ∪ targets -> (forall f, f ∈ targets -> reports f e -> f ∈ c1) ->
    (fst (collect_changed_paths events wd_dirs targets c1), true) = (c', rel) ->
    c ⊆ c' /\ (forall f e', f ∈ targets -> e' ∈ e :: events -> reports f e' -> f ∈ c' /\ rel = true) /\ c' ⊆ c ∪ targets /\ (rel = false -> c' = c)).
  { intros c1 H1 H2 H3 [= <- <-]. destruct (collect_changed_paths events wd_dirs targets c1) as [c2 r2] eqn:Hc.
    destruct (IH _ _ _ Hc) as (Hsub & Hev & Hup & _). cbn [fst]. split_and!; [by etrans| |etrans; [exact Hup|]; apply union_least; [done|apply union_subseteq_r]|done].
    intros f e' Hf He' Hr. split; [|done]. apply elem_of_cons in He' as [->|He']; [apply Hsub; by apply H3|by eapply Hev]. }
  destruct (ev_overflow e) eqn:Ho; [apply Hrel; [apply union_subseteq_l|done|intros f Hf _; by apply elem_of_union_r]|].
  assert (Hskip : (forall f, f ∈ targets -> ~ reports f e) -> collect_changed_paths events wd_dirs targets c = (c', rel) ->
    c ⊆ c' /\ (forall f e', f ∈ targets -> e' ∈ e :: events -> reports f e' -> f ∈ c' /\ rel = true) /\ c' ⊆ c ∪ targets /\ (rel = false -> c' = c)).
  { intros Hno Hc. destruct (IH _ _ _ Hc) as (Hsub & Hev & Hup & Hf). split_and!; try done.
    intros f e' Hin He' Hr. apply elem_of_cons in He' as [->|He']; [by destruct (Hno f Hin)|by eapply Hev]. }
  destruct (ev_name e) as [n|] eqn:Hn; [|apply Hskip; intros f _ [?|(? & ? & ? & _)]; congruence].
  destruct (wd_dirs !! ev_wd e) as [dir|] eqn:Hd; [|apply Hskip; intros f _ [?|(? & ? & _ & ? & _)]; congruence].
  assert (Hfull : forall f, reports f e -> f = join_name dir (Some n)) by (intros f [?|(n' & d' & ? & ? & ->)]; congruence).
  case_decide as Ht.
  - apply Hrel; [apply union_subseteq_r|apply union_least; [by apply singleton_subseteq_l, elem_of_union_r|apply union_subseteq_l]|].
    intros f _ Hr. rewrite (Hfull f Hr). by apply elem_of_union_l, elem_of_singleton.
  - apply Hskip. intros f Hf Hr. apply Ht. by rewrite <- (Hfull f Hr).
Qed.

(** A change of [f] is still to come to the loop's attention. *)
Definition queued (f : Path) (w : World) : Prop := exists e, e ∈ queue w /\ reports f e.

Record watch_ok (w : World) : Prop := mkWatchOk {
  wk_files : forall f, f ∈ targets -> loaded w f = disk w f \/ f ∈ changed w \/ queued f w;
  wk_read : forall r read f v, phase w = Reloading r read -> f ∈ targets -> read !! f = Some v -> v = disk w f \/ queued f w;
  wk_changed : changed w ⊆ targets;
  wk_phase : match phase w with Waiting | Debouncing => True | Reloading r read => 1 <= r <= RELOAD_RETRIES /\ dom read ⊆ changed w end
}.

Lemma queued_touch f w d l c p e : queued f w -> queued f (mkWorld d l (queue w ++ [e]) c p).
Proof. intros (e' & He & Hr). exists e'. split; [cbn; set_solver|done]. Qed.

Lemma watch_touch f e w : reports f e -> watch_ok w ->
  watch_ok (mkWorld (<[f := S (disk w f)]> (disk w)) (loaded w) (queue w ++ [e]) (changed w) (phase w)).
Proof.
  intros He [Hf Hr Hc Hp].
  assert (Hself : queued f (mkWorld (<[f := S (disk w f)]> (disk w)) (loaded w) (queue w ++ [e]) (changed w) (phase w)))
    by (exists e; split; [cbn; set_solver|done]).
  constructor; cbn [disk loaded changed phase]; try done.
  - intros g Hg. destruct (decide (g = f)) as [->|Hne]; [by right; right|].
    rewrite fn_lookup_insert_ne by done. destruct (Hf g Hg) as [H|[H|H]]; [by left|right; by left|right; right; by apply queued_touch].
  - intros r read g v Hph Hg Hv. destruct (decide (g = f)) as [->|Hne]; [by right|].
    rewrite fn_lookup_insert_ne by done. destruct (Hr r read g v Hph Hg Hv) as [H|H]; [by left|right; by apply queued_touch].
Qed.

(** Reading events moves a queued change into the changed set. *)
Lemma watch_collect evs rest c rel p w : watch_ok w -> queue w = evs ++ rest ->
  collect_changed_paths evs wd_dirs targets (changed w) = (c, rel) ->
  (p = Waiting \/ p = Debouncing \/ p = Reloading RELOAD_RETRIES ∅) -> watch_ok (mkWorld (disk w) (loaded w) rest c p).
Proof.
  intros [Hf _ Hc _] Hq Hcol Hp. apply collect_spec in Hcol as (Hsub & Hev & Hup & _). constructor; cbn [disk loaded changed phase].
  - intros f Hft. destruct (Hf f Hft) as [H|[H|(e & He & Hr)]]; [by left|right; left; by apply Hsub|].
    rewrite Hq in He. apply elem_of_app in He as [He|He]; [right; left; by eapply Hev|right; right; by exists e].
  - intros r read f v -> _ Hv. destruct Hp as [Hp|[Hp|Hp]]; [done|done|]. injection Hp as _ ->. by rewrite lookup_empty in Hv.
  - set_solver.
  - destruct Hp as [->|[->| ->]]; [done|done|]. split; [unfold RELOAD_RETRIES; lia|]. rewrite dom_empty_L. set_solver.
Qed.

Lemma watch_step_ok w w' : watch_step w w' -> watch_ok w -> watch_ok w'.
Proof.
  destruct 1 as [f e w He|evs rest c rel w Hph Hq Hne Hcol|evs rest w Hph Hq|f r read w Hph Hfc|r read w Hph Hdom|r read w Hph]; intros Hok.
  - by apply watch_touch.
  - eapply watch_collect; [done..|]. destruct rel; tauto.
  - destruct (collect_changed_paths evs wd_dirs targets (changed w)) as [c rel] eqn:Hcol. eapply watch_collect; [done..|tauto].
  - destruct Hok as [Hf Hr Hc Hp]. rewrite Hph in Hp. destruct Hp as [Hp Hd]. constructor; cbn [disk loaded changed phase]; try done.
    + intros r' read' g v [= <- <-] Hg Hv. apply lookup_insert_Some in Hv as [[<- <-]|[_ Hv]]; [by left|by eapply Hr].
    + split; [done|]. rewrite dom_insert_L. set_solver.
  - destruct Hok as [Hf Hr Hc Hp]. constructor; cbn [disk loaded changed phase]; try done.
    intros f Hft. unfold load_read. destruct (read !! f) as [v|] eqn:Hv; cbn [default].
    + destruct (Hr _ _ f v Hph Hft Hv) as [->|Hq]; [by left|right; right; exact Hq].
    + destruct (Hf f Hft) as [H|[H|H]]; [by left| |right; right; exact H]. exfalso. rewrite <- Hdom in H. apply elem_of_dom in H as [v H]. congruence.
  - destruct Hok as [Hf Hr Hc Hp]. rewrite Hph in Hp. destruct Hp as [Hp Hd]. constructor; cbn [disk loaded changed phase]; try done.
    + intros r' read' f v. case_decide; [done|]. intros [= <- <-] _ Hv. by rewrite lookup_empty in Hv.
    + case_decide; [done|]. split; [lia|]. rewrite dom_empty_L. set_solver.
Qed.

Lemma watch_reachable versions w : rtc watch_step (watch_start versions) w -> watch_ok w.
Proof.
  assert (H : forall a b, rtc watch_step a b -> watch_ok a -> watch_ok b) by (induction 1; eauto using watch_step_ok).
  intros Hr. apply (H _ _ Hr). constructor; cbn; try done. by left.
Qed.

End loop.

(** However a path is spelled, the events of its file carry the path it is matched by. *)
Lemma watched_path_reported (wd_dirs : gmap nat Path) s n wd : file_name (components s) = Some n ->
  wd_dirs !! wd = Some (watch_parent (components s)) -> reports wd_dirs (normalized_watch_path (components s)) (mkEvent false wd (Some n)).
Proof. intros Hn Hd. right. exists n, (watch_parent (components s)). unfold normalized_watch_path. by rewrite Hn. Qed.

(** ** A run *)

Module WatchDemo.
Definition file : Path := normalized_watch_path (components (lit "/e//./c")).
Definition dirs : gmap nat Path := {[1 := components (lit "/e/")]}.
Definition event : Event := mkEvent false 1 (Some (lit "c")).

Lemma file_reported : reports dirs file event.
Proof.
  right. exists (lit "c"), (components (lit "/e/")). split_and!; [done|by vm_compute|].
  apply (bool_decide_unpack _). by vm_compute.
Defined.

Definition touched (w : World) : World := mkWorld (<[file := S (disk w file)]> (disk w)) (loaded w) (queue w ++ [event]) (changed w) (phase w).

(** The file is saved, and saved again while the reload reads it. *)
Definition w1 : World := touched (watch_start (fun _ => 0)).
Definition w2 : World := mkWorld (disk w1) (loaded w1) [] {[file]} Debouncing.
Definition w3 : World := mkWorld (disk w2) (loaded w2) [] {[file]} (Reloading RELOAD_RETRIES ∅).
Definition w4 : World := mkWorld (disk w3) (loaded w3) [] {[file]} (Reloading RELOAD_RETRIES (<[file := disk w3 file]> ∅)).
Definition w5 : World := touched w4.
Definition w6 : World := mkWorld (disk w5) (load_read (<[file := disk w3 file]> ∅) (loaded w5)) (queue w5) ∅ Waiting.

Lemma woken : watch_step dirs {[file]} w1 w2.
Proof.
  refine (wake dirs {[file]} [event] [] {[file]} true w1 eq_refl eq_refl _ _); [discriminate|].
  vm_compute. reflexivity.
Defined.

Lemma loaded_once : watch_step dirs {[file]} w5 w6.
Proof. refine (reload_done dirs {[file]} RELOAD_RETRIES (<[file := disk w3 file]> ∅) w5 eq_refl _). exact (dom_singleton_L file (disk w3 file)). Defined.

Lemma watch_run : rtc (watch_step dirs {[file]}) (watch_start (fun _ => 0)) w6.
Proof.
  apply (rtc_l _ _ w1); [exact (touch_file dirs {[file]} file event _ file_reported)|].
  apply (rtc_l _ _ w2); [exact woken|].
  apply (rtc_l _ _ w3); [exact (settle dirs {[file]} [] [] w2 eq_refl eq_refl)|].
  apply (rtc_l _ _ w4); [exact (read_file dirs {[file]} file RELOAD_RETRIES ∅ w3 eq_refl (proj2 (elem_of_singleton file file) eq_refl))|].
  apply (rtc_l _ _ w5); [exact (touch_file dirs {[file]} file event w4 file_reported)|].
  apply (rtc_l _ _ w6); [exact loaded_once|]. apply rtc_refl.
Defined.


(** When the watch is lost and set up again, nothing is pending any more: a change that
    had not been loaded, or that came in between, is not loaded until the next one. *)
Definition restarted (w : World) : World := mkWorld (disk w) (loaded w) [] ∅ Waiting.

Lemma restart_loses_change : exists w, rtc (watch_step dirs {[file]}) (watch_start (fun _ => 0)) w /\
  let w' := restarted w in phase w' = Waiting /\ changed w' = ∅ /\ queue w' = [] /\ loaded w' file <> disk w' file.
Proof. exists w6. split; [apply watch_run|]. split_and!; [done|done|done|]. by vm_compute. Qed.
End WatchDemo.
