(* ===== verification/TcpMux.v ===== *)
(** * The TCP/TLS multiplexer (src/src/upstream/tcp_mux.rs)

    The framing both directions use, the reader and writer loops, reconnection with
    backoff, one exchange from registration to response, and the tasks that tear
    connections down, interleaved in every order.  A connection is named by its
    generation; the sender stored in [writer_tx] is the generation it leads to.  What
    the network does (dialling, the bytes read, the time) is an argument. *)

From S2P Require Import Prelude Hasher DnsName DnsQuery DnsQname DnsRecords DnsEdns Ecs DnsMessage Inflight Upstream UpstreamWire.

Definition MAX_WRITE_BATCH_BYTES : nat := Z.to_nat 65536.
Definition REFRESH_COOLDOWN_MS : Z := 30000.

(** ** Framing *)

Definition push_framed (buf pkt : list Z) : list Z :=
  buf ++ to_be 2 (wrap 16 (Z.of_nat (length pkt))) ++ pkt.

(** The inner [while] of [mux_writer_loop]: coalesce the frames already queued. *)
Fixpoint coalesce (batch : list Z) (queue : list (list Z)) : list Z * list (list Z) :=
  match queue with
  | [] => (batch, [])
  | next :: queue' =>
      if decide (length batch < MAX_WRITE_BATCH_BYTES) then coalesce (push_framed batch next) queue'
      else (batch, queue)
  end.

(** [mux_writer_loop] on the queued packets: the batches written.  [write_ok] says
    whether the [i]-th write succeeds; a failed one ends the loop. *)
Fixpoint mux_writer_loop (fuel : nat) (write_ok : nat -> bool) (i : nat) (queue : list (list Z)) : list (list Z) :=
  match fuel, queue with
  | S fuel', first :: rest =>
      let '(batch, rest) := coalesce (push_framed [] first) rest in
      if write_ok i then batch :: mux_writer_loop fuel' write_ok (S i) rest else []
  | _, _ => []
  end.

(** Why the reader stops. *)
Inductive reader_stop := ReadFailed | BadLength.

(** One frame of the byte stream: the length prefix, its check, the body. *)
Definition read_frame (max_response_bytes : nat) (stream : list Z)
  : outcome (result reader_stop (list Z * list Z)) :=
  if decide (length stream < 2) then Ret (Err ReadFailed)
  else
    let! len := u16_at stream 0 in
    let resp_len := Z.to_nat len in
    let stream := drop 2 stream in
    if decide (resp_len < 12 \/ (0 < max_response_bytes /\ max_response_bytes < resp_len)) then Ret (Err BadLength)
    else if decide (length stream < resp_len) then Ret (Err ReadFailed)
    else Ret (Ok (take resp_len stream, drop resp_len stream)).

(** [mux_reader_loop] on the bytes that arrive before the stream fails: the table, the
    messages delivered to waiting queries in order, and why it stopped. *)
Fixpoint mux_reader_loop (fuel : nat) (max_response_bytes : nat) (pending : InflightRegistry) (stream : list Z)
  : outcome (InflightRegistry * list (nat * list Z) * reader_stop) :=
  match fuel with
  | O => OutOfFuel
  | S fuel' =>
      let! f := read_frame max_response_bytes stream in
      match f with
      | Err e => Ret (pending, [], e)
      | Ok (frame, rest) =>
          let! (pending, _, sent, _) := complete pending frame in
          let! (pending, more, e) := mux_reader_loop fuel' max_response_bytes pending rest in
          Ret (pending, match sent with Some m => m :: more | None => more end, e)
      end
  end.

(** ** Connections *)

Record RefreshGuard := mkRefreshGuard { not_before_ms : Z; in_progress : bool }.

Definition try_begin (g : RefreshGuard) (now cooldown_ms : Z) : RefreshGuard * bool :=
  if decide (now < not_before_ms g)%Z then (g, false)
  else if in_progress g then (g, false)
  else (mkRefreshGuard (now + cooldown_ms) true, true).

Definition finish (g : RefreshGuard) : RefreshGuard := mkRefreshGuard (not_before_ms g) false.

Record TcpMux := mkMux {
  writer_tx : option Z;
  pending : InflightRegistry;
  generation : Z;
  mux_ecs_mode : EcsMode;
  reconnect_not_before_ms : Z;
  reconnect_fail_count : Z;
  max_response_bytes : nat;
  current_torn_down : option Z;
  refresh_guard : RefreshGuard
}.

Definition mux_new (ecs_mode : EcsMode) (max_inflight : nat) (seed : Z) (max_response_bytes : nat) : TcpMux :=
  mkMux None (inflight_new max_inflight seed) 0 ecs_mode 0 0 max_response_bytes None (mkRefreshGuard 0 false).

Definition with_pending (m : TcpMux) (r : InflightRegistry) : TcpMux :=
  mkMux (writer_tx m) r (generation m) (mux_ecs_mode m) (reconnect_not_before_ms m) (reconnect_fail_count m)
    (max_response_bytes m) (current_torn_down m) (refresh_guard m).

Definition with_writer (m : TcpMux) (tx : option Z) : TcpMux :=
  mkMux tx (pending m) (generation m) (mux_ecs_mode m) (reconnect_not_before_ms m) (reconnect_fail_count m)
    (max_response_bytes m) (current_torn_down m) (refresh_guard m).

Definition with_torn_down (m : TcpMux) (t : option Z) : TcpMux :=
  mkMux (writer_tx m) (pending m) (generation m) (mux_ecs_mode m) (reconnect_not_before_ms m) (reconnect_fail_count m)
    (max_response_bytes m) t (refresh_guard m).

Definition with_refresh (m : TcpMux) (g : RefreshGuard) : TcpMux :=
  mkMux (writer_tx m) (pending m) (generation m) (mux_ecs_mode m) (reconnect_not_before_ms m) (reconnect_fail_count m)
    (max_response_bytes m) (current_torn_down m) g.

Inductive mux_error :=
| MuxRegister (e : inflight_error)
| MuxPrepare (e : query_error)
| MuxTooLarge
| MuxBackoff (remaining_ms : Z)
| MuxDial
| MuxEnqueueTimeout
| MuxConnectionLost
| MuxChannelClosed
| MuxTimeout.

(** [ensure_connection]: [dial] is whether connecting succeeds, [now] the clock before
    it and [now'] after it.  The generation of the connection is returned. *)
Definition ensure_connection (m : TcpMux) (now now' : Z) (dial : bool) : TcpMux * result mux_error Z :=
  match writer_tx m with
  | Some tx => (m, Ok tx)
  | None =>
      let not_before := reconnect_not_before_ms m in
      if decide (now < not_before)%Z then (m, Err (MuxBackoff (not_before - now)))
      else if dial then
        let my_gen := wrap 64 (generation m + 1) in
        (mkMux (Some my_gen) (pending m) my_gen (mux_ecs_mode m) 0 0 (max_response_bytes m) (Some my_gen)
           (refresh_guard m), Ok my_gen)
      else
        let failures := wrap 32 (reconnect_fail_count m + 1) in
        let backoff_ms := Z.min (Z.shiftl 50 (Z.min failures 7)) 5000 in
        (mkMux None (pending m) (generation m) (mux_ecs_mode m) (now' + backoff_ms) failures
           (max_response_bytes m) (current_torn_down m) (refresh_guard m), Err MuxDial)
  end.

(** ** One exchange *)

Record UpstreamRequest := mkRequest { req_packet : list Z; req_client_id : Z; req_question : list Z }.

(** What happens to the in-flight table while the query waits: the reader completes a
    packet, a teardown clears the table, another query registers. *)
Inductive mux_event :=
| MuxIncoming (packet : list Z)
| MuxCleared
| MuxOther (tx : nat) (client_id : Z) (question : list Z).

(** How the hand-over to the writer task ends. *)
Inductive mux_enqueue := EnqCancelledDialling | EnqTimeout | EnqLost | EnqSent.

#[export] Instance mux_enqueue_eq_dec : EqDecision mux_enqueue.
Proof. solve_decision. Defined.

(** What the waiting query [tx] sees. *)
Inductive mux_wait := WaitDelivered (resp : list Z) | WaitClosed | WaitTimeout.

Fixpoint await_response (reg : InflightRegistry) (tx : nat) (events : list mux_event)
  : outcome (InflightRegistry * mux_wait) :=
  match events with
  | [] => Ret (reg, WaitTimeout)
  | MuxIncoming packet :: events' =>
      let! (reg, _, sent, _) := complete reg packet in
      match sent with
      | Some (t, resp) =>
          if decide (t = tx) then Ret (reg, WaitDelivered resp) else await_response reg tx events'
      | None => await_response reg tx events'
      end
  | MuxCleared :: _ => Ret (inflight_clear reg, WaitClosed)
  | MuxOther t client_id question :: events' =>
      let! (reg, _) := inflight_register reg t client_id question in
      await_response reg tx events'
  end.

(** [exchange]: [tx] is the channel [register] creates; the guard is dropped on every
    way out. *)
Definition mux_exchange (m : TcpMux) (req : UpstreamRequest) (tx : nat) (now now' : Z) (dial : bool)
  (enq : mux_enqueue) (events : list mux_event) : outcome (TcpMux * result mux_error (list Z)) :=
  let! (reg, res) := inflight_register (pending m) tx (req_client_id req) (req_question req) in
  let m := with_pending m reg in
  match res with
  | Err e => Ret (m, Err (MuxRegister e))
  | Ok (upstream_id, guard) =>
      let leave (m : TcpMux) (r : result mux_error (list Z)) :=
        let! reg := guard_drop (pending m) guard in Ret (with_pending m reg, r) in
      let! pkt := prepare_query (req_packet req) (mux_ecs_mode m) upstream_id in
      match pkt with
      | Err e => leave m (Err (MuxPrepare e))
      | Ok pkt =>
          if decide (65535 < Z.of_nat (length pkt))%Z then leave m (Err MuxTooLarge)
          else
            match enq with
            | EnqCancelledDialling => leave m (Err MuxEnqueueTimeout)
            | _ =>
                let '(m, conn) := ensure_connection m now now' dial in
                match conn with
                | Err e => leave m (Err e)
                | Ok _ =>
                    match enq with
                    | EnqSent =>
                        let! (reg, w) := await_response (pending m) tx events in
                        leave (with_pending m reg)
                          (match w with
                           | WaitDelivered resp => Ok resp
                           | WaitClosed => Err MuxChannelClosed
                           | WaitTimeout => Err MuxTimeout
                           end)
                    | EnqLost => leave m (Err MuxConnectionLost)
                    | _ => leave m (Err MuxEnqueueTimeout)
                    end
                end
            end
      end
  end.

(** ** The framing round trip *)

Definition frame (pkt : list Z) : list Z := push_framed [] pkt.
Definition frames (pkts : list (list Z)) : list Z := concat (frame <$> pkts).

(** A packet the connection can carry. *)
Definition sendable (max : nat) (pkt : list Z) : Prop :=
  12 <= length pkt /\ (Z.of_nat (length pkt) < 65536)%Z /\ (max = 0 \/ length pkt <= max).

(** The reader's work on packets that have already been separated. *)
Fixpoint complete_all (reg : InflightRegistry) (pkts : list (list Z)) : outcome (InflightRegistry * list (nat * list Z)) :=
  match pkts with
  | [] => Ret (reg, [])
  | p :: pkts' =>
      let! (reg, _, sent, _) := complete reg p in
      let! (reg, more) := complete_all reg pkts' in
      Ret (reg, match sent with Some m => m :: more | None => more end)
  end.

Lemma push_framed_app buf pkt : push_framed buf pkt = buf ++ frame pkt.
Proof. done. Qed.

Lemma length_frame pkt : length (frame pkt) = 2 + length pkt.
Proof. unfold frame, push_framed. len. Qed.

Lemma coalesce_spec b q :
  exists k, k <= length q /\ coalesce b q = (b ++ frames (take k q), drop k q) /\
    forall B, Forall (fun p => length p <= B) q -> length b <= MAX_WRITE_BATCH_BYTES + B + 2 ->
      length (fst (coalesce b q)) <= MAX_WRITE_BATCH_BYTES + B + 2.
Proof.
  revert b. induction q as [|p q IH]; intros b; cbn [coalesce].
  - exists 0. cbn. rewrite app_nil_r. split; [lia|]. done.
  - case_decide as Hlt.
    + destruct (IH (push_framed b p)) as (k & Hk & He & Hb). exists (S k). cbn [length take drop]. split; [lia|].
      split; [rewrite He, push_framed_app, <- app_assoc; done|].
      intros B [HB HF]%Forall_cons Hlb. apply Hb; [done|]. rewrite push_framed_app, length_app, length_frame. lia.
    + exists 0. cbn [take drop frames]. rewrite app_nil_r. split; [lia|]. done.
Qed.

Lemma mux_writer_loop_spec fuel write_ok i q :
  length q <= fuel ->
  exists k, k <= length q /\ concat (mux_writer_loop fuel write_ok i q) = frames (take k q) /\
    ((forall j, write_ok j = true) -> k = length q).
Proof.
  revert i q. induction fuel as [|fuel IH]; intros i [|p q] Hf; cbn [length] in Hf; try lia;
    try (exists 0; cbn; split_and!; done || lia).
  cbn [mux_writer_loop]. destruct (coalesce_spec (push_framed [] p) q) as (k & Hk & -> & _).
  destruct (write_ok i) eqn:Hw.
  - destruct (IH (S i) (drop k q)) as (k' & Hk' & He & Hall); [len|]. rewrite length_drop in Hk', Hall.
    exists (S (k + k')). cbn [length]. split; [lia|]. split; [|intros Ha; specialize (Hall Ha); lia].
    cbn [concat take]. rewrite He. unfold frames. cbn [fmap list_fmap concat]. rewrite <- app_assoc. f_equal.
    rewrite <- concat_app, <- fmap_app. do 2 f_equal.
    rewrite <- (take_drop k (take (k + k') q)), take_take, Nat.min_l by lia.
    by rewrite drop_take_drop || rewrite skipn_firstn_comm, Nat.add_comm, Nat.add_sub.
  - exists 0. split; [lia|]. split; [done|]. intros Ha. by rewrite Ha in Hw.
Qed.

Lemma read_frame_frame max p rest :
  sendable max p -> read_frame max (frame p ++ rest) = Ret (Ok (p, rest)).
Proof.
  intros (Hl & Hu & Hm). unfold read_frame, frame, push_framed. rewrite decide_False by len. in_range.
  assert (Hw : wrap 16 (Z.of_nat (length p)) = Z.of_nat (length p)) by (apply Z.mod_small; lia).
  pose proof (be16_app [] (Z.of_nat (length p)) (p ++ rest)) as Hb. cbn [app length] in Hb |- *.
  rewrite Hw, <- app_assoc, Hb by (unfold u_ok; lia). rewrite Nat2Z.id.
  rewrite decide_False by lia. rewrite drop_app_length' by done. rewrite decide_False by len.
  by rewrite take_app_length, drop_app_length.
Qed.

Lemma mux_reader_loop_frames fuel max reg pkts tail e :
  Forall (sendable max) pkts -> read_frame max tail = Ret (Err e) -> length pkts < fuel ->
  mux_reader_loop fuel max reg (frames pkts ++ tail)
  = let! (reg, sent) := complete_all reg pkts in Ret (reg, sent, e).
Proof.
  intros Hs Ht. revert fuel reg. induction Hs as [|p pkts Hp _ IH]; intros fuel reg Hf;
    (destruct fuel as [|fuel]; [cbn in Hf; lia|]); cbn [mux_reader_loop complete_all].
  - cbn [frames fmap list_fmap concat app]. by rewrite Ht.
  - unfold frames. cbn [fmap list_fmap concat]. rewrite <- app_assoc, read_frame_frame by done. cbn [obind].
    destruct (complete reg p) as [[[[reg' ?] sent] ?]| |]; [|done..]. cbn [obind].
    rewrite IH by (cbn in Hf; lia). destruct (complete_all reg' pkts) as [[? ?]| |]; [|done..]. cbn [obind]. done.
Qed.



(** ** Waiting for a response *)

(** A packet that answers question [q] under ID [id]. *)
Definition answers (id : Z) (q packet : list Z) : Prop :=
  acceptable packet /\ be16 packet 0 = id /\ questions_match (response_question packet) q = Ret true.

(** [tx] waits under [id], and nowhere else, with token [tok]. *)
Definition waiting (reg : InflightRegistry) (tx : nat) (id cid : Z) (q : list Z) (tok : Z) : Prop :=
  shards_ok (ir_shards reg) /\ (0 <= ir_next_token reg)%Z /\
  ilookup reg id = Some (mkInflightEntry tx cid q tok) /\
  forall k e, ilookup reg k = Some e -> ie_tx e = tx -> k = id.

Definition absent (reg : InflightRegistry) (tx : nat) : Prop :=
  shards_ok (ir_shards reg) /\ forall k e, ilookup reg k = Some e -> ie_tx e <> tx.

(** Other registrations use other channels, and tokens do not run out. *)
Definition events_ok (tx : nat) (reg : InflightRegistry) (events : list mux_event) : Prop :=
  Forall (fun ev => match ev with MuxOther t _ _ => t <> tx | _ => True end) events /\
  (ir_next_token reg + Z.of_nat (length events) + 1 < 2 ^ 64)%Z.

Lemma complete_waiting reg p tx id cid q tok :
  waiting reg tx id cid q tok ->
  exists reg' buf sent oc, complete reg p = Ret (reg', buf, sent, oc) /\
    ((answers id q p /\ sent = Some (tx, to_be 2 cid ++ drop 2 p) /\ absent reg' tx) \/
     (~ answers id q p /\ waiting reg' tx id cid q tok /\ ir_next_token reg' = ir_next_token reg /\
      forall t r, sent = Some (t, r) -> t <> tx)).
Proof.
  intros Hw. pose proof Hw as (Hs & H0 & Hl & Hu). pose proof (complete_eq reg p Hs) as Hc. unfold answers.
  destruct (ilookup reg (be16 p 0)) as [e|] eqn:Hlk.
  2:{ do 4 eexists. split; [exact Hc|]. right. split; [intros (_ & Hid & _); congruence|done]. }
  destruct Hc as (mt & Hm & Hc). destruct (decide (acceptable p)) as [Ha|Ha].
  2:{ do 4 eexists. split; [exact Hc|]. right. by split; [intros [? _]|]. }
  destruct mt.
  2:{ do 4 eexists. split; [exact Hc|]. right. split; [|done]. intros (_ & Hid & Hm').
      rewrite Hid, Hl in Hlk. injection Hlk as <-. cbn [ie_question] in Hm. by rewrite Hm in Hm'. }
  destruct Hc as (reg' & Hc & Hs' & Ht' & _ & Hl'). do 4 eexists. split; [exact Hc|].
  destruct (decide (be16 p 0 = id)) as [Hid|Hid].
  - left. rewrite Hid, Hl in Hlk. injection Hlk as <-. split; [done|]. split; [done|]. split; [done|].
    intros k e. rewrite Hl'. case_decide as Hk; [done|]. intros Hke Htx. apply Hk. rewrite Hid. by eapply Hu.
  - right. split; [tauto|]. split; [|split; [done|]].
    + split; [done|]. split; [lia|]. split; [by rewrite Hl', decide_False by done|].
      intros k e'. rewrite Hl'. case_decide; [done|]. apply Hu.
    + intros t r [= <- <-] Htx. by apply Hid, (Hu _ e).
Qed.

Lemma register_waiting reg t cid' q' tx id cid q tok :
  waiting reg tx id cid q tok -> t <> tx -> (ir_next_token reg + 1 < 2 ^ 64)%Z ->
  exists reg' res, inflight_register reg t cid' q' = Ret (reg', res) /\
    waiting reg' tx id cid q tok /\ (ir_next_token reg' <= ir_next_token reg + 1)%Z.
Proof.
  intros (Hs & H0 & Hl & Hu) Ht Htok.
  destruct (inflight_register_eq reg t cid' q' Hs H0 Htok) as (reg' & res & Hr & Hs' & Hres).
  exists reg', res. split; [done|]. unfold waiting. destruct res as [[id' g]|e].
  - destruct Hres as (_ & _ & Hnone & Hnt & _ & Hl'). split; [|lia]. split; [done|]. split; [lia|].
    rewrite Hl', decide_False by congruence. split; [done|]. intros k e. rewrite Hl'.
    case_decide; [intros [= <-]; by intros ?|apply Hu].
  - destruct Hres as (Hnt & _ & Hl' & _). split; [|lia]. split; [done|]. split; [lia|].
    rewrite Hl'. split; [done|]. intros k e'. rewrite Hl'. apply Hu.
Qed.

(** What a wait over [events] may end in. *)
Definition wait_ok (events : list mux_event) (reg : InflightRegistry) (tx : nat) (id cid : Z) (q : list Z) (tok : Z)
  (w : mux_wait) : Prop :=
  match w with
  | WaitDelivered resp =>
      absent reg tx /\ exists p, MuxIncoming p ∈ events /\ answers id q p /\ resp = to_be 2 cid ++ drop 2 p
  | WaitClosed => absent reg tx /\ MuxCleared ∈ events
  | WaitTimeout => waiting reg tx id cid q tok /\ (MuxCleared ∉ events) /\
      forall p, MuxIncoming p ∈ events -> ~ answers id q p
  end.

Lemma wait_ok_cons ev events reg tx id cid q tok w :
  ev <> MuxCleared -> (forall p, ev = MuxIncoming p -> ~ answers id q p) ->
  wait_ok events reg tx id cid q tok w -> wait_ok (ev :: events) reg tx id cid q tok w.
Proof.
  intros Hc Hp. destruct w as [resp| |]; cbn [wait_ok].
  - intros (Ha & p & Hin & Hr). split; [done|]. exists p. by split; [right|].
  - intros [Ha Hin]. by split; [|right].
  - intros (Hw & Hn & Hall). split; [done|]. split; [by rewrite not_elem_of_cons|].
    intros p [<-|Hin]%elem_of_cons; [by apply Hp|by apply Hall].
Qed.

Lemma await_response_spec events reg tx id cid q tok :
  waiting reg tx id cid q tok -> events_ok tx reg events ->
  exists reg' w, await_response reg tx events = Ret (reg', w) /\ wait_ok events reg' tx id cid q tok w.
Proof.
  revert reg. induction events as [|ev events IH]; intros reg Hw [He Ht]; cbn [await_response].
  { eexists _, _. split; [done|]. split; [done|]. split; [apply not_elem_of_nil|]. by intros p ?%not_elem_of_nil. }
  apply Forall_cons in He as [Hev He]. cbn [length] in Ht.
  destruct ev as [p| |t cid' q'].
  - destruct (complete_waiting reg p _ _ _ _ _ Hw) as (reg' & buf & sent & oc & -> & [(Ha & -> & Hab)|(Hna & Hw' & Hnt & Hs)]);
      cbn [obind].
    + rewrite decide_True by done. eexists _, _. split; [done|]. split; [done|]. exists p. by split; [left|].
    + destruct (IH reg' Hw') as (reg'' & w & Hr & Hok); [split; [done|lia]|]. exists reg'', w.
      split; [|by apply wait_ok_cons; [|intros ? [= <-]|]]. destruct sent as [[t r]|]; [|done].
      by rewrite decide_False by (by eapply Hs).
  - eexists _, _. split; [done|]. destruct Hw as (Hs & _). split; [|by left]. split.
    + unfold shards_ok, inflight_clear. cbn. by rewrite length_fmap.
    + intros k e. by rewrite ilookup_clear.
  - destruct (register_waiting reg t cid' q' _ _ _ _ _ Hw Hev) as (reg' & res & -> & Hw' & Hnt); [lia|]. cbn [obind].
    destruct (IH reg' Hw') as (reg'' & w & Hr & Hok); [split; [done|lia]|]. exists reg'', w.
    split; [done|]. by apply wait_ok_cons.
Qed.

Lemma guard_drop_leaves reg tx id cid q tok permit :
  waiting reg tx id cid q tok \/ absent reg tx ->
  exists reg', guard_drop reg (mkInflightGuard id tok permit) = Ret reg' /\ absent reg' tx.
Proof.
  intros Hw. assert (Hs : shards_ok (ir_shards reg)) by (destruct Hw as [[? _]|[? _]]; done).
  destruct (guard_drop_eq reg (mkInflightGuard id tok permit) Hs) as (reg' & Hd & Hs' & _ & _ & Hl).
  exists reg'. split; [done|]. split; [done|]. cbn [guard_id guard_token] in Hl.
  intros k e. rewrite Hl. case_decide as Hk; [done|]. intros He Htx. destruct Hw as [(_ & _ & Hid & Hu)|[_ Ha]].
  - apply Hk. pose proof (Hu k e He Htx) as ->. split; [done|]. rewrite Hid in *. by injection He as <-.
  - by apply (Ha k e).
Qed.

(** What the caller of [exchange] may be told, and when. *)
Definition exchange_ok (m : TcpMux) (req : UpstreamRequest) (now : Z) (enq : mux_enqueue) (events : list mux_event)
  (r : result mux_error (list Z)) : Prop :=
  match r with
  | Ok resp => enq = EnqSent /\ exists uid p, ilookup (pending m) uid = None /\ MuxIncoming p ∈ events /\
      answers uid (req_question req) p /\ resp = to_be 2 (req_client_id req) ++ drop 2 p
  | Err MuxTimeout => enq = EnqSent /\ exists uid, ilookup (pending m) uid = None /\
      (MuxCleared ∉ events) /\ forall p, MuxIncoming p ∈ events -> ~ answers uid (req_question req) p
  | Err MuxChannelClosed => enq = EnqSent /\ MuxCleared ∈ events
  | Err (MuxBackoff d) => writer_tx m = None /\ (now + d = reconnect_not_before_ms m /\ 0 < d)%Z
  | Err MuxConnectionLost => enq = EnqLost
  | Err (MuxRegister e) => e = InflightCapReached <-> ir_cap (pending m) = Some 0
  | Err (MuxPrepare _) => False
  | _ => True
  end.

Lemma ensure_connection_pending m now now' dial : pending (fst (ensure_connection m now now' dial)) = pending m.
Proof. unfold ensure_connection. repeat case_match; done. Qed.

Lemma ensure_connection_err m now now' dial e :
  snd (ensure_connection m now now' dial) = Err e ->
  e = MuxDial \/ exists d, e = MuxBackoff d /\ writer_tx m = None /\ (now + d = reconnect_not_before_ms m /\ 0 < d)%Z.
Proof.
  unfold ensure_connection. destruct (writer_tx m); [done|]. case_decide; cbn [snd].
  - intros [= <-]. right. eexists. split; [done|]. split; [done|]. lia.
  - destruct dial; [done|]. intros [= <-]. by left.
Qed.


(** ** Reconnection backoff *)

(** A run of attempts that all fail to dial, each at the clock values given. *)
Fixpoint failing_dials (m : TcpMux) (times : list (Z * Z)) : TcpMux :=
  match times with
  | [] => m
  | (now, now') :: times' => failing_dials (fst (ensure_connection m now now' false)) times'
  end.

(** Each attempt comes when the previous backoff is over. *)
Fixpoint spaced (m : TcpMux) (times : list (Z * Z)) : Prop :=
  match times with
  | [] => True
  | (now, now') :: times' =>
      (reconnect_not_before_ms m <= now)%Z /\ spaced (fst (ensure_connection m now now' false)) times'
  end.

(** The documented schedule: 100, 200, 400, ... up to 5000 ms. *)
Definition backoff_ms (failures : nat) : Z := Z.min (100 * 2 ^ Z.of_nat (failures - 1)) 5000.

Lemma backoff_shift k : 0 < k -> Z.min (Z.shiftl 50 (Z.min (Z.of_nat k) 7)) 5000 = backoff_ms k.
Proof.
  intros Hk. unfold backoff_ms. destruct (decide (k <= 7)) as [H|H].
  - do 8 (destruct k as [|k]; [first [lia|reflexivity]|]). lia.
  - rewrite (Z.min_r (Z.of_nat k) 7) by lia. change (Z.shiftl 50 7) with 6400%Z.
    assert (2 ^ 7 <= 2 ^ Z.of_nat (k - 1))%Z by (apply Z.pow_le_mono_r; lia). lia.
Qed.

Lemma failing_dials_spec times m n :
  writer_tx m = None -> reconnect_fail_count m = Z.of_nat n -> (Z.of_nat (n + length times) < 2 ^ 32)%Z -> spaced m times ->
  let m' := failing_dials m times in
  writer_tx m' = None /\ generation m' = generation m /\ pending m' = pending m /\
  reconnect_fail_count m' = Z.of_nat (n + length times) /\
  forall now now', last times = Some (now, now') ->
    reconnect_not_before_ms m' = (now' + backoff_ms (n + length times))%Z.
Proof.
  revert m n. induction times as [|[now now'] times IH]; intros m n Hw Hf Hb Hs; cbn [failing_dials length] in *.
  - rewrite Nat.add_0_r. done.
  - destruct Hs as [Ht Hs]. revert Hs IH. unfold ensure_connection. rewrite Hw, decide_False by lia. cbn [fst]. intros Hs IH.
    assert (Hfw : wrap 32 (reconnect_fail_count m + 1) = Z.of_nat (S n)) by (rewrite Hf; unfold wrap; rewrite Z.mod_small; lia).
    rewrite Hfw in *. rewrite backoff_shift in * by lia.
    match type of Hs with spaced ?m1 _ => destruct (IH m1 (S n)) as (H1 & H2 & H3 & H4 & H5) end;
      [done|done|lia|done|].
    rewrite <- Nat.add_succ_comm. do 4 (split; [done|]). intros t t' Hlast.
    destruct times as [|x times]; [|by apply (H5 t t')]. cbn in Hlast. injection Hlast as <- <-.
    cbn [failing_dials reconnect_not_before_ms length]. by rewrite Nat.add_0_r.
Qed.

(** Reconnection.  After [k] consecutive failed dials the next one is refused until
    100, 200, 400, ... 5000 ms (the [k]-th term) after the last failure, and refusing changes
    nothing; once the time has come a dial that succeeds opens the next generation,
    installs its sender and clears the backoff, and every later call reuses it. *)
Theorem reconnect_backoff m times now now' :
  writer_tx m = None -> reconnect_fail_count m = 0%Z -> (Z.of_nat (length times) < 2 ^ 32)%Z -> spaced m times ->
  last times = Some (now, now') -> (0 <= generation m < 2 ^ 64 - 1)%Z ->
  let m' := failing_dials m times in
  let until := (now' + backoff_ms (length times))%Z in
  forall t t' dial,
    ensure_connection m' t t' dial =
      if decide (t < until)%Z then (m', Err (MuxBackoff (until - t)))
      else if dial then
        (mkMux (Some (generation m + 1)%Z) (pending m) (generation m + 1) (mux_ecs_mode m') 0 0
           (max_response_bytes m') (Some (generation m + 1)%Z) (refresh_guard m'), Ok (generation m + 1)%Z)
      else ensure_connection m' t t' false.
Proof.
  intros Hw Hf Hb Hs Hl Hg m' until t t' dial.
  destruct (failing_dials_spec times m 0 Hw Hf Hb Hs) as (H1 & H2 & H3 & H4 & H5). fold m' in H1, H2, H3, H4, H5.
  specialize (H5 _ _ Hl). rewrite Nat.add_0_l in H5. fold until in H5.
  unfold ensure_connection at 1. rewrite H1, H5. case_decide as Ht; [done|]. destruct dial.
  - rewrite H2, H3. unfold wrap. rewrite Z.mod_small by lia. done.
  - unfold ensure_connection. by rewrite H1, H5, decide_False.
Qed.

Lemma reconnect_backoff_witness :
  let m := mux_new EcsStrip 8 7 0 in
  ensure_connection (failing_dials m [(0, 10); (110, 130); (330, 340)]%Z) 500 500 true
  = (failing_dials m [(0, 10); (110, 130); (330, 340)]%Z, Err (MuxBackoff 240)).
Proof.
  intros m. rewrite (reconnect_backoff m [(0, 10); (110, 130); (330, 340)]%Z 330 340); [reflexivity..| | |];
    [vm_compute; repeat split; discriminate|reflexivity|by vm_compute].
Defined.

(** ** Teardown, interleaved

    [disconnect] and the task [force_reconnect] spawns are sequences of atomic parts:
    the part under the lock of [writer_tx], the clearing of the in-flight table, the
    notification.  Other tasks run between the parts. *)

Inductive task :=
| DisconnectLock (my_gen : Z)
| DisconnectClear (my_gen : Z)
| DisconnectNotify (my_gen : Z)
| ForceLock
| ForceClear
| ForceTake.

(** The part of [disconnect] under the lock: the next part, when the generation is
    still the current one. *)
Definition disconnect_lock (m : TcpMux) (my_gen : Z) : TcpMux * option task :=
  if decide (generation m <> my_gen) then (m, None)
  else (with_writer m None, Some (DisconnectClear my_gen)).

Definition clear_pending (m : TcpMux) : TcpMux := with_pending m (inflight_clear (pending m)).

(** [force_reconnect], up to the spawn. *)
Definition force_reconnect (m : TcpMux) (now : Z) : TcpMux * option task :=
  let '(g, ok) := try_begin (refresh_guard m) now REFRESH_COOLDOWN_MS in
  (with_refresh m g, if ok then Some ForceLock else None).

(** One atomic part: the state, the task's next part, the generation notified. *)
Definition task_step (m : TcpMux) (t : task) : TcpMux * option task * option Z :=
  match t with
  | DisconnectLock g => (disconnect_lock m g, None)
  | DisconnectClear g => (clear_pending m, Some (DisconnectNotify g), None)
  | DisconnectNotify g => (m, None, Some g)
  | ForceLock => (with_writer m None, Some ForceClear, None)
  | ForceClear => (clear_pending m, Some ForceTake, None)
  | ForceTake => (with_refresh (with_torn_down m None) (finish (refresh_guard m)), None, current_torn_down m)
  end.

Record mux_world := mkMuxWorld {
  mw_mux : TcpMux;
  mw_tasks : list task;
  (** generations whose teardown signal has been raised *)
  mw_notified : list Z
}.

Definition opt_list {A} (o : option A) : list A := match o with Some a => [a] | None => [] end.

Inductive mux_step : mux_world -> mux_world -> Prop :=
| ms_connect m ts ns now now' dial :
    mux_step (mkMuxWorld m ts ns) (mkMuxWorld (fst (ensure_connection m now now' dial)) ts ns)
| ms_register m ts ns tx cid q reg res :
    inflight_register (pending m) tx cid q = Ret (reg, res) ->
    mux_step (mkMuxWorld m ts ns) (mkMuxWorld (with_pending m reg) ts ns)
| ms_fails m ts ns g :
    (1 <= g <= generation m)%Z ->
    mux_step (mkMuxWorld m ts ns) (mkMuxWorld m (DisconnectLock g :: ts) ns)
| ms_force m ts ns now m' o :
    force_reconnect m now = (m', o) ->
    mux_step (mkMuxWorld m ts ns) (mkMuxWorld m' (opt_list o ++ ts) ns)
| ms_task m pre t post ns m' o n :
    task_step m t = (m', o, n) ->
    mux_step (mkMuxWorld m (pre ++ t :: post) ns) (mkMuxWorld m' (pre ++ opt_list o ++ post) (opt_list n ++ ns)).

Definition mux_reachable (w : mux_world) : Prop :=
  exists ecs cap seed max, rtc mux_step (mkMuxWorld (mux_new ecs cap seed max) [] []) w.

Definition is_force (t : task) : bool :=
  match t with ForceLock | ForceClear | ForceTake => true | _ => false end.

(** The installed sender is the newest connection's; at most one forced teardown runs,
    exactly while the refresh guard is held. *)
Record mux_world_ok (w : mux_world) : Prop := mkMuxWorldOk {
  mo_gen : (0 <= generation (mw_mux w))%Z;
  mo_writer : forall g, writer_tx (mw_mux w) = Some g -> g = generation (mw_mux w);
  mo_force : length (filter (fun t => is_force t = true) (mw_tasks w))
    = (if in_progress (refresh_guard (mw_mux w)) then 1 else 0)
}.

Lemma force_reconnect_ok m ts ns now m' o :
  mux_world_ok (mkMuxWorld m ts ns) -> force_reconnect m now = (m', o) ->
  mux_world_ok (mkMuxWorld m' (opt_list o ++ ts) ns).
Proof.
  intros [Hg Hw Hf] He. unfold force_reconnect, try_begin in He. cbn [mw_mux mw_tasks] in *.
  destruct (decide (now < not_before_ms (refresh_guard m))%Z); [|destruct (in_progress (refresh_guard m)) eqn:Hp].
  - injection He as <- <-. by constructor.
  - injection He as <- <-. constructor; [done|done|]. cbn [mw_mux mw_tasks opt_list app with_refresh refresh_guard]. by rewrite Hp.
  - injection He as <- <-. constructor; [done|done|]. cbn [mw_mux mw_tasks opt_list app].
    rewrite filter_cons_True by done. cbn. by rewrite Hf.
Qed.

Lemma task_step_ok m pre t post ns m' o n :
  mux_world_ok (mkMuxWorld m (pre ++ t :: post) ns) -> task_step m t = (m', o, n) ->
  mux_world_ok (mkMuxWorld m' (pre ++ opt_list o ++ post) (opt_list n ++ ns)).
Proof.
  intros [Hg Hw Hf] He. cbn [mw_mux mw_tasks] in *. rewrite filter_app, length_app, filter_cons in Hf.
  destruct t as [g|g|g| | |]; cbn [task_step is_force] in He, Hf.
  1: unfold disconnect_lock in He; destruct (decide (generation m <> g)).
  all: injection He as <- <- <-; constructor; cbn [mw_mux mw_tasks opt_list app]; try done;
    rewrite ?filter_app, ?filter_cons, ?length_app; cbn [is_force]; try done.
  cbn [with_refresh refresh_guard finish in_progress]. rewrite decide_True in Hf by done. cbn [length] in Hf.
  destruct (in_progress (refresh_guard m)); lia.
Qed.

Lemma mux_step_ok w w' : mux_world_ok w -> mux_step w w' -> mux_world_ok w'.
Proof.
  intros Hok Hs. destruct Hs as [m ts ns now now' dial|m ts ns tx cid q reg res Hr|m ts ns g Hg|m ts ns now m' o He|m pre t post ns m' o n He].
  - destruct Hok as [Hg Hw Hf]. cbn [mw_mux mw_tasks] in *. unfold ensure_connection.
    destruct (writer_tx m) as [tx|] eqn:Htx; [by constructor; cbn [mw_mux fst]; [| rewrite Htx|]|].
    case_decide; [by constructor; cbn [mw_mux fst]; [| rewrite Htx|]|]. destruct dial; constructor; cbn; try done.
    + unfold wrap. apply Z.mod_pos_bound. lia.
    + by intros g [= <-].
  - by destruct Hok.
  - destruct Hok as [Hg' Hw Hf]. by constructor.
  - by eapply force_reconnect_ok.
  - by eapply task_step_ok.
Qed.

Lemma mux_reachable_ok w : mux_reachable w -> mux_world_ok w.
Proof.
  intros (ecs & cap & seed & max & Hr). assert (Hi : mux_world_ok (mkMuxWorld (mux_new ecs cap seed max) [] [])).
  { by constructor. }
  revert Hi. generalize dependent (mkMuxWorld (mux_new ecs cap seed max) [] []). intros w0 Hr Hi.
  induction Hr as [|a b c Hs Hr IH]; [done|]. apply IH. by eapply mux_step_ok.
Qed.

(** A stale teardown cannot remove a newer connection.  In every interleaving of
    connects, failures and forced reconnects, the installed sender belongs to the newest
    generation; the locked part of [disconnect] removes a sender only when it is that of
    its own connection, and does nothing at all once a newer connection exists; and
    at most one forced reconnect is ever under way. *)
Theorem disconnect_spares_newer w g m' o n :
  mux_reachable w -> task_step (mw_mux w) (DisconnectLock g) = (m', o, n) ->
  (forall g', writer_tx (mw_mux w) = Some g' -> g' = generation (mw_mux w)) /\
  (forall g', writer_tx (mw_mux w) = Some g' -> writer_tx m' <> Some g' -> g' = g) /\
  (generation (mw_mux w) <> g -> m' = mw_mux w /\ o = None) /\
  length (filter (fun t => is_force t = true) (mw_tasks w)) <= 1.
Proof.
  intros Hr%mux_reachable_ok He. destruct Hr as [Hg Hw Hf]. cbn [task_step] in He. unfold disconnect_lock in He.
  split; [done|]. rewrite Hf. split_and!; [| |by destruct (in_progress _); lia].
  - intros g' Hg' Hd. apply Hw in Hg' as Hgen. case_decide as Hne; injection He as <- <- <-; [by destruct Hd|]. lia.
  - intros Hne. rewrite decide_True in He by done. by injection He as <- <- <-.
Qed.

Definition demo_mux : TcpMux := mux_new EcsStrip 8 7 0.
Definition dialled (m : TcpMux) : TcpMux := fst (ensure_connection m 0 0 true).

Definition registered (m : TcpMux) (tx : nat) (cid : Z) (q : list Z) : TcpMux :=
  match inflight_register (pending m) tx cid q with Ret (reg, _) => with_pending m reg | _ => m end.

(** The first connection was lost, its teardown has released the lock; a second
    connection is up and carries a query. *)
Definition torn_mux : TcpMux := fst (disconnect_lock (dialled demo_mux) 1).
Definition second_mux : TcpMux := registered (dialled torn_mux) 0 0x1234 inflight_question.

Lemma second_mux_reachable : mux_reachable (mkMuxWorld second_mux [DisconnectClear 1] []).
Proof.
  exists EcsStrip, 8, 7%Z, 0.
  eapply rtc_l; [apply (ms_connect demo_mux [] [] 0 0 true)|]. fold (dialled demo_mux).
  eapply rtc_l; [apply (ms_fails _ [] [] 1); by vm_compute|].
  eapply rtc_l; [apply (ms_task _ [] (DisconnectLock 1) [] [] torn_mux (Some (DisconnectClear 1)) None); by vm_compute|].
  cbn [opt_list app].
  eapply rtc_l; [apply (ms_connect torn_mux [DisconnectClear 1] [] 0 0 true)|]. fold (dialled torn_mux).
  apply rtc_once. unfold second_mux, registered.
  destruct (inflight_register_eq (pending (dialled torn_mux)) 0 0x1234 inflight_question) as (reg & res & Hr & _);
    [by vm_compute..|]. rewrite Hr. by eapply ms_register.
Qed.

Lemma disconnect_spares_newer_witness :
  (forall g', writer_tx second_mux = Some g' -> g' = generation second_mux) /\
  (forall g', writer_tx second_mux = Some g' -> writer_tx second_mux <> Some g' -> g' = 1%Z) /\
  (generation second_mux <> 1%Z -> second_mux = second_mux /\ (None : option task) = None) /\
  length (filter (fun t => is_force t = true) [DisconnectClear 1]) <= 1.
Proof.
  apply (disconnect_spares_newer (mkMuxWorld second_mux [DisconnectClear 1] []) 1 second_mux None None second_mux_reachable).
  cbn [task_step]. unfold disconnect_lock. rewrite decide_True; [reflexivity|]. by vm_compute.
Defined.

(** The in-flight table is cleared outside the lock: a teardown of the first
    connection can wipe out the queries of the second, whose sender stays installed. *)
Theorem stale_teardown_clears_newer_queries :
  exists w w' id e, mux_reachable w /\ mux_step w w' /\ mw_tasks w = [DisconnectClear 1] /\
    writer_tx (mw_mux w) = Some 2%Z /\ ilookup (pending (mw_mux w)) id = Some e /\
    writer_tx (mw_mux w') = Some 2%Z /\ ilookup (pending (mw_mux w')) id = None.
Proof.
  exists (mkMuxWorld second_mux [DisconnectClear 1] []), (mkMuxWorld (clear_pending second_mux) [DisconnectNotify 1] []).
  exists (mix16 7), (mkInflightEntry 0 0x1234 inflight_question 0).
  split; [apply second_mux_reachable|]. split; [by apply (ms_task second_mux [] (DisconnectClear 1) [] [] _ (Some (DisconnectNotify 1)) None)|].
  by vm_compute.
Qed.

(** [force_reconnect] takes the teardown signal outside the lock too: when a
    connection was opened in between, it is the new one that is signalled, and its
    signal is gone for the next forced reconnect. *)
Theorem force_reconnect_signals_newer :
  exists w w', mux_reachable w /\ mux_step w w' /\ mw_tasks w = [ForceTake] /\
    writer_tx (mw_mux w) = Some 2%Z /\ mw_notified w = [] /\
    writer_tx (mw_mux w') = Some 2%Z /\ mw_notified w' = [2%Z] /\ current_torn_down (mw_mux w') = None.
Proof.
  set (m1 := dialled demo_mux). set (m2 := fst (force_reconnect m1 0)). set (m3 := dialled (with_writer m2 None)).
  set (m4 := clear_pending m3).
  exists (mkMuxWorld m4 [ForceTake] []), (mkMuxWorld (fst (fst (task_step m4 ForceTake))) [] [2%Z]).
  split; [|split; [|by vm_compute]].
  - exists EcsStrip, 8, 7%Z, 0.
    eapply rtc_l; [apply (ms_connect demo_mux [] [] 0 0 true)|]. fold (dialled demo_mux).
    eapply rtc_l; [apply (ms_force m1 [] [] 0 m2 (Some ForceLock)); by vm_compute|]. cbn [opt_list app].
    eapply rtc_l; [by apply (ms_task m2 [] ForceLock [] [] (with_writer m2 None) (Some ForceClear) None)|]. cbn [opt_list app].
    eapply rtc_l; [apply (ms_connect (with_writer m2 None) [ForceClear] [] 0 0 true)|]. fold (dialled (with_writer m2 None)).
    apply rtc_once. by apply (ms_task m3 [] ForceClear [] [] _ (Some ForceTake) None).
  - apply (ms_task m4 [] ForceTake [] [] _ None (Some 2%Z)). by vm_compute.
Qed.

(** ** One query, answered *)

Definition mux_demo_request : UpstreamRequest := mkRequest demo_query 0x1234 (question_bytes demo_query 22).

(** The reply of the upstream, under the ID the table drew. *)
Definition mux_demo_reply : list Z :=
  to_be 2 (mix16 7) ++ [0x81; 0x80; 0; 1; 0; 0; 0; 0; 0; 0; 2; 101; 120; 1; 99; 0; 0; 1; 0; 1]%Z.


Example mux_exchange_demo :
  match mux_exchange demo_mux mux_demo_request 0 0 0 true EnqSent [MuxOther 1 5 []; MuxIncoming mux_demo_reply] with
  | Ret (m', r) => r = Ok (to_be 2 0x1234 ++ drop 2 mux_demo_reply) /\ writer_tx m' = Some 1%Z
  | _ => False
  end.
Proof. by vm_compute. Qed.
