(* ===== verification/Udp.v ===== *)
(** * UDP upstreams (src/src/upstream/udp.rs; tcp_exchange_packet and tcp_write_framed
    of src/src/upstream/mod.rs)

    One exchange of a UDP upstream: the query is registered, queued on one socket of the
    pool, answered by a datagram, and repeated over a one-shot TCP connection when the
    answer is truncated.  What the network does is an argument; a TCP peer is the
    function from the bytes it is sent to the bytes it sends back. *)

From S2P Require Import Prelude Hasher DnsName DnsQuery DnsQname DnsRecords DnsEdns Ecs DnsMessage Inflight Upstream UpstreamWire TcpMux.

(** ** The one-shot TCP exchange *)

Record tcp_peer := mkTcpPeer { tcp_connects : bool; tcp_accepts_write : bool; tcp_answer : list Z -> list Z; tcp_elapsed : bool }.

Inductive tcp_error := TcpTimeout | TcpConnect | TcpTooLarge | TcpWrite | TcpRead.

(** [tcp_write_framed]: the bytes written. *)
Definition tcp_write_framed (write_ok : bool) (packet : list Z) : result tcp_error (list Z) :=
  if decide (65535 < Z.of_nat (length packet))%Z then Err TcpTooLarge
  else if write_ok then Ok (to_be 2 (Z.of_nat (length packet)) ++ packet)
  else Err TcpWrite.

(** The two [read_exact] calls of [tcp_exchange_packet] on the bytes that arrive. *)
Definition tcp_read_framed (stream : list Z) : outcome (result tcp_error (list Z)) :=
  if decide (length stream < 2) then Ret (Err TcpRead)
  else
    let! len := u16_at stream 0 in
    let resp_len := Z.to_nat len in
    if decide (length (drop 2 stream) < resp_len) then Ret (Err TcpRead)
    else Ret (Ok (take resp_len (drop 2 stream))).

Definition tcp_exchange_packet (peer : tcp_peer) (packet : list Z) : outcome (result tcp_error (list Z)) :=
  if tcp_elapsed peer then Ret (Err TcpTimeout)
  else if negb (tcp_connects peer) then Ret (Err TcpConnect)
  else
    match tcp_write_framed (tcp_accepts_write peer) packet with
    | Err e => Ret (Err e)
    | Ok written => tcp_read_framed (tcp_answer peer written)
    end.

(** ** The exchange *)

Record UdpUpstream := mkUdp { udp_inflight : InflightRegistry; udp_ecs_mode : EcsMode; send_idx : Z; udp_pool : nat }.

Definition with_inflight (u : UdpUpstream) (reg : InflightRegistry) : UdpUpstream :=
  mkUdp reg (udp_ecs_mode u) (send_idx u) (udp_pool u).

Inductive udp_error :=
| UdpRegister (e : inflight_error)
| UdpSetId (e : query_error)
| UdpFlusherStopped
| UdpFallback (e : tcp_error)
| UdpFallbackRejected (e : response_error)
| UdpFallbackShort (e : query_error)
| UdpChannelClosed
| UdpTimeout.

(** The TC-bit branch: ask again over TCP, validate, restore the client's ID. *)
Definition tc_fallback (peer : tcp_peer) (packet : list Z) (upstream_id : Z) (req : UpstreamRequest)
  : outcome (result udp_error (list Z)) :=
  let! r := tcp_exchange_packet peer packet in
  match r with
  | Err e => Ret (Err (UdpFallback e))
  | Ok tcp_resp =>
      let! v := validate_upstream_response tcp_resp upstream_id (req_question req) in
      match v with
      | Err e => Ret (Err (UdpFallbackRejected e))
      | Ok _ =>
          let! o := set_id tcp_resp (req_client_id req) in
          Ret (match o with Ok p => Ok p | Err e => Err (UdpFallbackShort e) end)
      end
  end.

(** [exchange]: the state, what was put on which socket's queue, and the result.  [queued]
    says whether the queue of the socket still has its flusher. *)
Definition udp_exchange (u : UdpUpstream) (req : UpstreamRequest) (tx : nat) (queued : bool) (events : list mux_event) (peer : tcp_peer)
  : outcome (UdpUpstream * option (nat * list Z) * result udp_error (list Z)) :=
  let! packet := apply_ecs_mode (req_packet req) (udp_ecs_mode u) in
  let! (reg, res) := inflight_register (udp_inflight u) tx (req_client_id req) (req_question req) in
  let u := with_inflight u reg in
  match res with
  | Err e => Ret (u, None, Err (UdpRegister e))
  | Ok (upstream_id, guard) =>
      let leave (u : UdpUpstream) (sent : option (nat * list Z)) (r : result udp_error (list Z)) :=
        let! reg := guard_drop (udp_inflight u) guard in Ret (with_inflight u reg, sent, r) in
      let! o := set_id packet upstream_id in
      match o with
      | Err e => leave u None (Err (UdpSetId e))
      | Ok packet =>
          if decide (udp_pool u = 0) then Panic
          else
            let socket_idx := Z.to_nat (send_idx u `mod` Z.of_nat (udp_pool u)) in
            let u := mkUdp (udp_inflight u) (udp_ecs_mode u) (wrap 64 (send_idx u + 1)) (udp_pool u) in
            if negb queued then leave u None (Err UdpFlusherStopped)
            else
              let sent := Some (socket_idx, packet) in
              let! (reg, w) := await_response (udp_inflight u) tx events in
              let u := with_inflight u reg in
              match w with
              | WaitDelivered resp =>
                  let! tc := is_truncated resp in
                  if tc : bool then let! r := tc_fallback peer packet upstream_id req in leave u sent r
                  else leave u sent (Ok resp)
              | WaitClosed => leave u sent (Err UdpChannelClosed)
              | WaitTimeout => leave u sent (Err UdpTimeout)
              end
      end
  end.

(** ** Proofs *)

Lemma tcp_exchange_packet_spec peer packet :
  exists r, tcp_exchange_packet peer packet = Ret r /\
    forall body, r = Ok body -> tcp_elapsed peer = false /\ tcp_connects peer = true /\
      (Z.of_nat (length packet) <= 65535)%Z /\ exists tail, tcp_answer peer (frame packet) = tail /\
        2 <= length tail /\ length body = Z.to_nat (be16 tail 0) /\ body = take (length body) (drop 2 tail).
Proof.
  unfold tcp_exchange_packet. destruct (tcp_elapsed peer); [eexists; split; [done|]; naive_solver|].
  destruct (tcp_connects peer); cbn [negb]; [|eexists; split; [done|]; naive_solver].
  unfold tcp_write_framed. case_decide as Hl; [eexists; split; [done|]; naive_solver|].
  destruct (tcp_accepts_write peer); [|eexists; split; [done|]; naive_solver].
  assert (Hf : to_be 2 (Z.of_nat (length packet)) ++ packet = frame packet).
  { unfold frame, push_framed, wrap. by rewrite Z.mod_small by lia. }
  rewrite Hf. unfold tcp_read_framed. set (tail := tcp_answer peer (frame packet)).
  case_decide as H2; [eexists; split; [done|]; naive_solver|]. rewrite u16_at_be16 by lia. cbn [obind].
  case_decide as Hb; [eexists; split; [done|]; naive_solver|].
  eexists. split; [done|]. intros body [= <-]. split; [done|]. split; [done|]. split; [lia|].
  exists tail. split; [done|]. split; [lia|]. rewrite length_take, Nat.min_l by lia.
  done.
Qed.

(** A truncated answer is replaced only by a TCP answer to the same question. *)
Lemma tc_fallback_spec peer packet uid req :
  exists r, tc_fallback peer packet uid req = Ret r /\
    forall out, r = Ok out -> exists body, tcp_exchange_packet peer packet = Ret (Ok body) /\
      accepts body uid (req_question req) /\ out = to_be 2 (req_client_id req) ++ drop 2 body.
Proof.
  unfold tc_fallback. destruct (tcp_exchange_packet_spec peer packet) as (r & Hr & _). rewrite Hr. cbn [obind].
  destruct r as [body|e]; [|eexists; split; [done|]; naive_solver].
  destruct (validate_upstream_response_spec body uid (req_question req)) as (v & -> & Hv). cbn [obind].
  destruct v as [[]|e]; [|eexists; split; [done|]; naive_solver].
  assert (Ha : accepts body uid (req_question req)) by (by apply Hv). rewrite set_id_eq by (destruct Ha; lia). cbn [obind].
  eexists. split; [done|]. intros out [= <-]. by exists body.
Qed.

(** What the exchange promises for each result: the query that was queued is the
    client's question under a fresh ID. *)
Definition udp_query_ok (u : UdpUpstream) (req : UpstreamRequest) (qe : nat) (uid : Z) (sent : option (nat * list Z)) : Prop :=
  ilookup (udp_inflight u) uid = None /\
  exists idx wire, sent = Some (idx, wire) /\ idx < udp_pool u /\ get_id wire = Ret (Ok uid) /\
    question_end wire = Ret (Some qe) /\ question_bytes wire qe = question_bytes (req_packet req) qe.

Definition truncated (p : list Z) : Prop := Z.land (nthb p 2) 0x02 <> 0%Z.

Definition udp_ok (u : UdpUpstream) (req : UpstreamRequest) (qe : nat) (queued : bool) (events : list mux_event) (peer : tcp_peer)
  (sent : option (nat * list Z)) (r : result udp_error (list Z)) : Prop :=
  match r with
  | Ok resp => exists uid p, udp_query_ok u req qe uid sent /\ MuxIncoming p ∈ events /\ answers uid (req_question req) p /\
      ((~ truncated p /\ resp = to_be 2 (req_client_id req) ++ drop 2 p) \/
       (truncated p /\ exists wire body, snd <$> sent = Some wire /\ tcp_exchange_packet peer wire = Ret (Ok body) /\
          accepts body uid (req_question req) /\ resp = to_be 2 (req_client_id req) ++ drop 2 body))
  | Err UdpTimeout => exists uid, udp_query_ok u req qe uid sent /\
      forall p, MuxIncoming p ∈ events -> ~ answers uid (req_question req) p
  | Err UdpChannelClosed => MuxCleared ∈ events
  | Err UdpFlusherStopped => queued = false
  | Err (UdpRegister e) => sent = None /\ (e = InflightCapReached <-> ir_cap (udp_inflight u) = Some 0)
  | Err (UdpSetId _) => False
  | Err _ => exists uid p, udp_query_ok u req qe uid sent /\ MuxIncoming p ∈ events /\ answers uid (req_question req) p /\ truncated p
  end.

Lemma truncated_with_id cid p : 12 <= length p ->
  is_truncated (to_be 2 cid ++ drop 2 p) = Ret (bool_decide (truncated p)).
Proof.
  intros Hl. rewrite is_truncated_eq. f_equal. apply bool_decide_ext. unfold truncated.
  assert (nthb (to_be 2 cid ++ drop 2 p) 2 = nthb p 2) as ->.
  { destruct p as [|a [|b [|c p]]]; cbn in Hl; [lia..|]. done. }
  split; [tauto|]. split; [len|done].
Qed.

(** A refused fallback is one of its three errors. *)
Lemma tc_fallback_err peer packet uid req e : tc_fallback peer packet uid req = Ret (Err e) ->
  (exists e', e = UdpFallback e') \/ (exists e', e = UdpFallbackRejected e') \/ exists e', e = UdpFallbackShort e'.
Proof.
  unfold tc_fallback. destruct (tcp_exchange_packet peer packet) as [[body|e']| |]; cbn [obind]; [|naive_solver..].
  destruct (validate_upstream_response body uid (req_question req)) as [[[]|e']| |]; cbn [obind]; [|naive_solver..].
  destruct (set_id body (req_client_id req)) as [[out|e']| |]; cbn [obind]; naive_solver.
Qed.

(** What the waiting query sees, and the fallback, decide the result. *)
Lemma udp_answered u req qe queued events peer sent uid wire w reg tx tok :
  udp_query_ok u req qe uid sent -> snd <$> sent = Some wire -> queued = true ->
  wait_ok events reg tx uid (req_client_id req) (req_question req) tok w ->
  exists r, udp_ok u req qe queued events peer sent r /\
    match w with
    | WaitDelivered resp =>
        (let! tc := is_truncated resp in if tc : bool then tc_fallback peer wire uid req else Ret (Ok resp)) = Ret r
    | WaitClosed => r = Err UdpChannelClosed
    | WaitTimeout => r = Err UdpTimeout
    end.
Proof.
  intros Hq Hs _ Hw. destruct w as [resp| |]; cbn [wait_ok] in Hw.
  - destruct Hw as (_ & p & Hp & Ha & ->). assert (12 <= length p) by apply Ha. rewrite truncated_with_id by done. cbn [obind].
    case_bool_decide as Ht.
    + destruct (tc_fallback_spec peer wire uid req) as (r & Hr & Hok). exists r. split; [|done]. destruct r as [out|e].
      * destruct (Hok out eq_refl) as (body & Hb & Hacc & ->). exists uid, p. split_and!; [done..|].
        right. split; [done|]. by exists wire, body.
      * destruct (tc_fallback_err _ _ _ _ _ Hr) as [[e' ->]|[[e' ->]|[e' ->]]]; exists uid, p; done.
    + eexists. split; [|done]. exists uid, p. split_and!; [done..|]. by left.
  - eexists. split; [|done]. apply Hw.
  - eexists. split; [|done]. exists uid. split; [done|]. apply Hw.
Qed.

(** C17: one query over UDP.  Whatever the network does, the exchange returns and the
    in-flight table is left without its entry.  What goes on the wire is the client's
    question under an ID no other query holds, on one socket of the pool.  A result is
    either a datagram with that ID and question, or, when that datagram is truncated, a
    TCP answer that passes the same checks; both carry the client's ID.  A timeout is
    reported only when no matching datagram arrived. *)
Theorem udp_exchange_correct u req tx queued events peer qe :
  absent (udp_inflight u) tx -> (0 <= ir_next_token (udp_inflight u))%Z ->
  Forall (fun ev => match ev with MuxOther t _ _ => t <> tx | _ => True end) events ->
  (ir_next_token (udp_inflight u) + Z.of_nat (length events) + 2 < 2 ^ 64)%Z ->
  bytes_ok (req_packet req) -> mode_ok (udp_ecs_mode u) -> be16 (req_packet req) 4 = 1%Z ->
  question_end (req_packet req) = Ret (Some qe) -> 0 < udp_pool u ->
  exists u' sent r, udp_exchange u req tx queued events peer = Ret (u', sent, r) /\
    absent (udp_inflight u') tx /\ udp_pool u' = udp_pool u /\ udp_ok u req qe queued events peer sent r.
Proof.
  intros [Hs Hab] H0 Hev Ht Hp Hm Hqd Hqe Hpool. unfold udp_exchange.
  destruct (apply_ecs_mode_spec _ _ qe Hp Hm Hqd Hqe) as (p' & Ha & _). rewrite Ha. cbn [obind].
  destruct (inflight_register_eq (udp_inflight u) tx (req_client_id req) (req_question req) Hs H0) as (reg & res & -> & Hs' & Hres);
    [lia|]. cbn [obind].
  destruct res as [[uid g]|e].
  2:{ destruct Hres as (_ & _ & Hl & He). eexists _, _, _. split; [done|]. split; [|done]. split; [done|].
      intros k e'. cbn [with_inflight udp_inflight]. rewrite Hl. apply Hab. }
  destruct Hres as (-> & Hid & Hfree & Hnt & _ & Hl).
  destruct (prepare_query_spec (req_packet req) (udp_ecs_mode u) uid qe Hp Hm Hqd Hqe) as (wire & Hw & _ & Hgid & _ & Hwq & Hwb);
    [unfold u_ok; lia|].
  unfold prepare_query in Hw. rewrite Ha in Hw. cbn [obind] in Hw. rewrite Hw. cbn [obind with_inflight udp_inflight udp_pool send_idx udp_ecs_mode].
  assert (Hwait : waiting reg tx uid (req_client_id req) (req_question req) (ir_next_token (udp_inflight u))).
  { split; [done|]. split; [lia|]. split; [by rewrite Hl, decide_True|].
    intros k e. rewrite Hl. case_decide; [done|]. intros Hke Htx. by destruct (Hab k e). }
  rewrite decide_False by lia.
  set (i := Z.to_nat _). set (g := mkInflightGuard _ _ _).
  assert (Hleave : forall reg1 sent r, waiting reg1 tx uid (req_client_id req) (req_question req) (ir_next_token (udp_inflight u)) \/ absent reg1 tx ->
    udp_ok u req qe queued events peer sent r ->
    exists u' sent' r', (let! reg2 := guard_drop reg1 g in
        Ret (mkUdp reg2 (udp_ecs_mode u) (wrap 64 (send_idx u + 1)) (udp_pool u), sent, r)) = Ret (u', sent', r') /\
      absent (udp_inflight u') tx /\ udp_pool u' = udp_pool u /\ udp_ok u req qe queued events peer sent' r').
  { intros reg1 sent r Hr Hok. destruct (guard_drop_leaves _ _ _ _ _ _ (guard_permit g) Hr) as (reg2 & Hg & Ha2).
    unfold g at 1. cbn [guard_permit g] in Hg. rewrite Hg. cbn [obind]. by eexists _, _, _. }
  destruct queued; cbn [negb]; [|by apply Hleave; [left|]].
  destruct (await_response_spec events reg tx uid (req_client_id req) (req_question req) _ Hwait) as (reg1 & w & -> & Hok).
  { split; [done|]. rewrite Hnt. lia. }
  cbn [obind]. set (sent := Some (i, wire)).
  assert (Hq : udp_query_ok u req qe uid sent).
  { split; [done|]. exists i, wire. split_and!; [done| |done..]. unfold i.
    pose proof (Z.mod_pos_bound (send_idx u) (Z.of_nat (udp_pool u))). lia. }
  destruct (udp_answered u req qe true events peer sent uid wire w reg1 tx _ Hq eq_refl eq_refl Hok) as (r & Hr & He).
  destruct w as [resp| |]; [|subst r; apply Hleave; [right; apply Hok|done]|subst r; apply Hleave; [left; apply Hok|done]].
  destruct (is_truncated resp) as [tc| |]; cbn [obind] in He |- *; [|done..]. destruct tc.
  - rewrite He. cbn [obind]. apply Hleave; [right; apply Hok|done].
  - injection He as <-. apply Hleave; [right; apply Hok|done].
Qed.

(** ** A truncated answer *)

Module UdpDemo.
Definition upstream : UdpUpstream := mkUdp (inflight_new 8 7) EcsStrip 5 2.
Definition tc_reply : list Z := to_be 2 (mix16 7) ++ [0x83; 0x80; 0; 1; 0; 0; 0; 0; 0; 0; 2; 101; 120; 1; 99; 0; 0; 1; 0; 1]%Z.
(** A server that answers over TCP whatever ID it is asked with. *)
Definition server : tcp_peer := mkTcpPeer true true (fun sent => frame (take 2 (drop 2 sent) ++ drop 2 mux_demo_reply)) false.

Lemma udp_exchange_witness :
  exists u' sent r, udp_exchange upstream mux_demo_request 0 true [MuxOther 1 5 []; MuxIncoming tc_reply] server = Ret (u', sent, r) /\
    absent (udp_inflight u') 0 /\ udp_pool u' = 2 /\
    udp_ok upstream mux_demo_request 22 true [MuxOther 1 5 []; MuxIncoming tc_reply] server sent r.
Proof.
  apply (udp_exchange_correct upstream mux_demo_request 0 true [MuxOther 1 5 []; MuxIncoming tc_reply] server 22).
  - split; [by vm_compute|]. intros k e. cbn [upstream udp_inflight]. by rewrite ilookup_new.
  - by vm_compute.
  - by repeat constructor.
  - by vm_compute.
  - apply bytes_check. by vm_compute.
  - exact I.
  - by vm_compute.
  - by vm_compute.
  - cbn. lia.
Defined.

(** The client gets the TCP answer, with the ID it used. *)
Example truncated_answer_replaced :
  match udp_exchange upstream mux_demo_request 0 true [MuxIncoming tc_reply] server with
  | Ret (_, Some (1, _), Ok resp) => bool_decide (resp = to_be 2 (req_client_id mux_demo_request) ++ drop 2 mux_demo_reply)
  | _ => false
  end = true.
Proof. by vm_compute. Qed.
End UdpDemo.
