(* ===== verification/UdpRefresh.v ===== *)
(** * Receive loops of a UDP upstream (src/src/upstream/udp.rs)

    Every socket of the pool has a supervised receive loop, started with the generation
    its slot has then.  [do_refresh] replaces the sockets one slot at a time, raising the
    generation and starting a new loop, and wakes the loops at the end; [shutdown] raises
    every generation and wakes them.  The loops, a refresh and the shutdown run
    interleaved in every order; the result is that no loop is left waiting on a socket
    that was replaced, because each registers for the wake-up before it looks at the
    generation.  Generations are natural numbers: the counters have 64 bits, and refreshes
    are at least 30 seconds apart. *)

From S2P Require Import Prelude Hasher DnsName DnsQuery DnsQname DnsRecords DnsEdns Ecs DnsMessage Inflight Upstream UpstreamWire TcpMux.

(** ** Datagrams *)

(** The loop over a received batch; [None] is a datagram cut to the slot size. *)
Fixpoint recv_messages (reg : InflightRegistry) (batch : list (option (list Z))) : outcome (InflightRegistry * list (nat * list Z)) :=
  match batch with
  | [] => Ret (reg, [])
  | None :: batch' => recv_messages reg batch'
  | Some packet :: batch' =>
      let! (reg, _, sent, _) := complete reg packet in
      let! (reg, more) := recv_messages reg batch' in
      Ret (reg, match sent with Some m => m :: more | None => more end)
  end.

(** Cut datagrams change nothing. *)
Lemma recv_messages_complete reg batch : recv_messages reg batch = complete_all reg (omap id batch).
Proof.
  revert reg. induction batch as [|[p|] batch IH]; intros reg; [done| |apply IH]. cbn [recv_messages omap list_omap complete_all id].
  destruct (complete reg p) as [[[[reg' b] sent] c]| |]; [|done..]. cbn [obind]. by rewrite IH.
Qed.

(** ** Loops, refresh and shutdown *)

(** Where a loop is: at its top; registered for the wake-up, before the generation is
    read; waiting for the socket or the wake-up; sleeping after an error; finished.
    [signalled] is whether [notify_waiters] has reached the registration. *)
Inductive loop_phase := Top | Armed (signalled : bool) | Blocked (signalled : bool) | BackingOff | Exited.

Record recv_task := mkTask { rt_slot : nat; rt_gen : nat; rt_phase : loop_phase }.

Inductive shutdown_phase := Serving | Bumping (slot : nat) | ShutDown.

(** [refreshing] is the next slot of a running [do_refresh]. *)
Record UdpWorld := mkUdpWorld { generations : list nat; loops : list recv_task; refreshing : option nat; shut : shutdown_phase }.

Definition set_phase (t : recv_task) (p : loop_phase) : recv_task := mkTask (rt_slot t) (rt_gen t) p.

(** [Notify::notify_waiters]: only registrations that exist are reached. *)
Definition notified (t : recv_task) : recv_task :=
  set_phase t (match rt_phase t with Armed _ => Armed true | Blocked _ => Blocked true | p => p end).

(** [generations[i].fetch_add(1)] *)
Definition bump (gens : list nat) (i : nat) : list nat := alter S i gens.

(** One step of a loop, for the generation its slot has. *)
Inductive loop_step (gen : nat) (t : recv_task) : loop_phase -> Prop :=
| loop_arm : rt_phase t = Top -> loop_step gen t (Armed false)
| loop_check s : rt_phase t = Armed s -> loop_step gen t (if decide (gen = rt_gen t) then Blocked s else Exited)
| loop_readable s : rt_phase t = Blocked s -> loop_step gen t Top
| loop_failed s : rt_phase t = Blocked s -> loop_step gen t BackingOff
| loop_woken : rt_phase t = Blocked true -> loop_step gen t Top
| loop_restart : rt_phase t = BackingOff -> loop_step gen t Top.
(* [loop_readable] also covers an ICMP error, after which the loop continues *)

Inductive udp_step : UdpWorld -> UdpWorld -> Prop :=
| step_loop k t g p w : loops w !! k = Some t -> generations w !! rt_slot t = Some g -> loop_step g t p ->
    udp_step w (mkUdpWorld (generations w) (<[k := set_phase t p]> (loops w)) (refreshing w) (shut w))
(* trigger_refresh: the guard admits one refresh at a time; a dropped node starts none *)
| step_trigger w : refreshing w = None -> shut w = Serving ->
    udp_step w (mkUdpWorld (generations w) (loops w) (Some 0) (shut w))
(* do_refresh: the slot's socket is replaced, or opening one failed.  Raising the generation and
   starting the loop are one step: the new loop has read nothing, so an interleaving in between
   reaches the same states *)
| step_replace i g w : refreshing w = Some i -> generations w !! i = Some g ->
    udp_step w (mkUdpWorld (bump (generations w) i) (loops w ++ [mkTask i (S g) Top]) (Some (S i)) (shut w))
| step_keep i w : refreshing w = Some i -> i < length (generations w) ->
    udp_step w (mkUdpWorld (generations w) (loops w) (Some (S i)) (shut w))
| step_refreshed i w : refreshing w = Some i -> length (generations w) <= i ->
    udp_step w (mkUdpWorld (generations w) (notified <$> loops w) None (shut w))
(* shutdown *)
| step_drop w : shut w = Serving -> udp_step w (mkUdpWorld (generations w) (loops w) (refreshing w) (Bumping 0))
| step_bump i w : shut w = Bumping i -> i < length (generations w) ->
    udp_step w (mkUdpWorld (bump (generations w) i) (loops w) (refreshing w) (Bumping (S i)))
| step_shut i w : shut w = Bumping i -> length (generations w) <= i ->
    udp_step w (mkUdpWorld (generations w) (notified <$> loops w) (refreshing w) ShutDown).

(** [create] *)
Definition udp_create (pool_size : nat) : UdpWorld :=
  mkUdpWorld (replicate pool_size 0) ((fun i => mkTask i 0 Top) <$> seq 0 pool_size) None Serving.

Definition stale (w : UdpWorld) (t : recv_task) : Prop := generations w !! rt_slot t <> Some (rt_gen t).

(** A notification is still to come for the slot. *)
Definition notify_pending (w : UdpWorld) (slot : nat) : Prop :=
  (exists i, refreshing w = Some i /\ slot < i) \/ (exists i, shut w = Bumping i /\ slot < i).

(** The slots whose generation [shutdown] has not raised. *)
Definition in_service (w : UdpWorld) (slot : nat) : Prop :=
  slot < length (generations w) /\ match shut w with Serving => True | Bumping i => i <= slot | ShutDown => False end.

Definition current_loop (w : UdpWorld) (slot k : nat) : Prop :=
  exists t, loops w !! k = Some t /\ rt_slot t = slot /\ generations w !! slot = Some (rt_gen t) /\ rt_phase t <> Exited.

Record udp_inv (w : UdpWorld) : Prop := mkUdpInv {
  inv_gen : forall k t, loops w !! k = Some t -> exists g, generations w !! rt_slot t = Some g /\ rt_gen t <= g;
  inv_blocked : forall k t, loops w !! k = Some t -> rt_phase t = Blocked false -> stale w t -> notify_pending w (rt_slot t);
  inv_exited : forall k t, loops w !! k = Some t -> rt_phase t = Exited -> stale w t;
  inv_unique : forall k k' t t', loops w !! k = Some t -> loops w !! k' = Some t' ->
    rt_slot t = rt_slot t' -> rt_gen t = rt_gen t' -> k = k';
  inv_current : forall slot, in_service w slot ->
    exists k t, loops w !! k = Some t /\ rt_slot t = slot /\ generations w !! slot = Some (rt_gen t)
}.

Lemma bump_lookup gens i j : bump gens i !! j = if decide (i = j) then S <$> gens !! j else gens !! j.
Proof. unfold bump. case_decide as H; [subst; apply list_lookup_alter_eq|by apply list_lookup_alter_ne]. Qed.

Lemma length_bump gens i : length (bump gens i) = length gens.
Proof. apply length_alter. Qed.

(** Raising a generation only makes loops stale. *)
Lemma bump_stale gens i t g : gens !! rt_slot t = Some g -> rt_gen t <= g -> gens !! rt_slot t <> Some (rt_gen t) ->
  bump gens i !! rt_slot t <> Some (rt_gen t).
Proof. rewrite bump_lookup. intros -> Hle Hs. case_decide; cbn; naive_solver lia. Qed.

(** Raising one whose loops have a notification to come keeps the invariant. *)
Lemma inv_bump gens ls i rf sh rf' sh' : udp_inv (mkUdpWorld gens ls rf sh) ->
  let w' := mkUdpWorld (bump gens i) ls rf' sh' in
  notify_pending w' i -> (forall s, notify_pending (mkUdpWorld gens ls rf sh) s -> notify_pending w' s) ->
  (forall k t, ls !! k = Some t -> exists g, generations w' !! rt_slot t = Some g /\ rt_gen t <= g) /\
  (forall k t, ls !! k = Some t -> rt_phase t = Blocked false -> stale w' t -> notify_pending w' (rt_slot t)) /\
  (forall k t, ls !! k = Some t -> rt_phase t = Exited -> stale w' t).
Proof.
  intros [Hg Hb He _ _] w' Hi Hmono. unfold stale in *. cbn [generations loops w'] in *. split_and!.
  - intros k t Hk. destruct (Hg k t Hk) as (g & Hl & Hle). rewrite bump_lookup, Hl. case_decide; cbn; naive_solver lia.
  - intros k t Hk Hp Hs. destruct (decide (i = rt_slot t)) as [->|Hne]; [done|].
    apply Hmono, (Hb k); [done..|]. rewrite bump_lookup, decide_False in Hs; done.
  - intros k t Hk Hp. destruct (Hg k t Hk) as (g & Hl & Hle). by eapply bump_stale, He.
Qed.

(** Waking every registered loop keeps the invariant, whatever is pending. *)
Lemma inv_notified gens ls rf sh rf' sh' : udp_inv (mkUdpWorld gens ls rf sh) ->
  (forall s, in_service (mkUdpWorld gens ls rf' sh') s -> in_service (mkUdpWorld gens ls rf sh) s) ->
  udp_inv (mkUdpWorld gens (notified <$> ls) rf' sh').
Proof.
  intros [Hg Hb He Hu Hc] Hs. constructor; unfold stale in *; cbn [generations loops] in *.
  - intros k t. rewrite list_lookup_fmap. intros (t0 & Hk & ->)%fmap_Some. exact (Hg k t0 Hk).
  - intros k t. rewrite list_lookup_fmap. intros (t0 & Hk & ->)%fmap_Some. cbn. by destruct (rt_phase t0).
  - intros k t. rewrite list_lookup_fmap. intros (t0 & Hk & ->)%fmap_Some. cbn. intros Hp. apply (He k t0 Hk). by destruct (rt_phase t0).
  - intros k k' t t'. rewrite !list_lookup_fmap. intros (t0 & Hk & ->)%fmap_Some (t1 & Hk' & ->)%fmap_Some. exact (Hu k k' t0 t1 Hk Hk').
  - intros s Hin. destruct (Hc s (Hs s Hin)) as (k & t & Hk & Ht). exists k, (notified t). by rewrite list_lookup_fmap, Hk.
Qed.

Lemma inv_loop_step k t g p w : udp_inv w -> loops w !! k = Some t -> generations w !! rt_slot t = Some g -> loop_step g t p ->
  udp_inv (mkUdpWorld (generations w) (<[k := set_phase t p]> (loops w)) (refreshing w) (shut w)).
Proof.
  intros [Hg Hb He Hu Hc] Hk Hgen Hst.
  assert (Hin : forall j t', <[k := set_phase t p]> (loops w) !! j = Some t' ->
    (j = k /\ t' = set_phase t p) \/ (j <> k /\ loops w !! j = Some t')).
  { intros j t' [(-> & -> & _)|[Hne Hj]]%list_lookup_insert_Some; [by left|right; by split]. }
  constructor; unfold stale in *; cbn [generations loops] in *.
  - intros j t' [[-> ->]|[_ Hj]]%Hin; [exact (Hg k t Hk)|by apply (Hg j)].
  - intros j t' [[-> ->]|[_ Hj]]%Hin; [|by apply (Hb j)]. cbn [set_phase rt_phase rt_slot rt_gen]. intros ->.
    inversion Hst as [|s Hph He1| | | |]; subst. destruct (decide (g = rt_gen t)); [congruence|done].
  - intros j t' [[-> ->]|[_ Hj]]%Hin; [|by apply (He j)]. cbn [set_phase rt_phase rt_slot rt_gen]. intros ->.
    inversion Hst as [|s Hph He1| | | |]; subst. destruct (decide (g = rt_gen t)); congruence.
  - intros j j' t1 t2 [[-> ->]|[Hn Hj]]%Hin [[-> ->]|[Hn' Hj']]%Hin; cbn; intros; [done|by eapply Hu..].
  - intros s Hs. destruct (Hc s Hs) as (j & t' & Hj & Ht'). destruct (decide (j = k)) as [->|Hne].
    + exists k, (set_phase t p). rewrite list_lookup_insert_eq by (by eapply lookup_lt_Some). simplify_eq. done.
    + exists j, t'. by rewrite list_lookup_insert_ne.
Qed.

(** A slot is replaced: the new loop is the only one of its generation. *)
Lemma inv_replace i g w : udp_inv w -> refreshing w = Some i -> generations w !! i = Some g ->
  udp_inv (mkUdpWorld (bump (generations w) i) (loops w ++ [mkTask i (S g) Top]) (Some (S i)) (shut w)).
Proof.
  destruct w as [gens ls rf sh]. cbn [generations loops refreshing shut]. intros Hinv -> Hgi.
  destruct (inv_bump gens ls i (Some i) sh (Some (S i)) sh Hinv) as (Hg & Hb & He).
  { left. exists (S i). split; [done|lia]. }
  { intros s [(j & [= <-] & Hj)|Hs]; [left; exists (S i); split; [done|lia]|by right]. }
  destruct Hinv as [Hg0 _ _ Hu Hc]. cbn [generations loops] in *.
  assert (Hold : forall k t, ls !! k = Some t -> rt_slot t = i -> rt_gen t <> S g).
  { intros k t Hk <-. destruct (Hg0 k t Hk) as (g' & Hg' & Hle). assert (g' = g) as -> by congruence. lia. }
  assert (Hin : forall k t, (ls ++ [mkTask i (S g) Top]) !! k = Some t ->
    ls !! k = Some t \/ (k = length ls /\ t = mkTask i (S g) Top)).
  { intros k t [Hk|[Hl Hk]]%lookup_app_Some; [by left|right]. apply list_lookup_singleton_Some in Hk as [Hk <-]. split; [lia|done]. }
  assert (Hnew : bump gens i !! i = Some (S g)) by (rewrite bump_lookup, decide_True, Hgi; done).
  constructor; unfold stale in *; cbn [generations loops] in *.
  - intros k t [Hk|[-> ->]]%Hin; [by apply (Hg k)|]. exists (S g). by split.
  - intros k t [Hk|[-> ->]]%Hin; [by apply (Hb k)|done].
  - intros k t [Hk|[-> ->]]%Hin; [by apply (He k)|done].
  - intros k k' t t' [Hk|[-> ->]]%Hin [Hk'|[-> ->]]%Hin; cbn; intros Hs Hgn; [by eapply Hu| | |done].
    + by destruct (Hold k t Hk).
    + by destruct (Hold k' t' Hk').
  - intros s Hs. destruct (decide (s = i)) as [->|Hne].
    + exists (length ls), (mkTask i (S g) Top). rewrite lookup_app_r, Nat.sub_diag by lia. by split_and!.
    + destruct (Hc s) as (k & t & Hk & Ht & Hsg). { destruct Hs as [Hl Hs]. split; [|done]. cbn in *. by rewrite length_bump in Hl. }
      exists k, t. rewrite bump_lookup, decide_False by done. split_and!; [|done..]. by apply lookup_app_l_Some.
Qed.

(** A generation raised by [shutdown] takes its slot out of service. *)
Lemma inv_shut_bump i w : udp_inv w -> shut w = Bumping i -> i < length (generations w) ->
  udp_inv (mkUdpWorld (bump (generations w) i) (loops w) (refreshing w) (Bumping (S i))).
Proof.
  destruct w as [gens ls rf sh]. cbn [generations loops refreshing shut]. intros Hinv -> Hi.
  destruct (inv_bump gens ls i rf (Bumping i) rf (Bumping (S i)) Hinv) as (Hg & Hb & He).
  { right. exists (S i). split; [done|lia]. }
  { intros s [Hs|(j & [= <-] & Hj)]; [by left|right; exists (S i); split; [done|lia]]. }
  destruct Hinv as [_ _ _ Hu Hc]. constructor; [done..|]. intros s [Hl Hs]. cbn in Hl, Hs. rewrite length_bump in Hl.
  destruct (Hc s) as (k & t & Hk & Ht & Hsg); [split; [done|cbn; lia]|]. exists k, t. split_and!; [done..|].
  cbn in *. rewrite bump_lookup, decide_False by lia. done.
Qed.

(** What only moves the refresh or the shutdown on. *)
Lemma inv_weaken w rf sh : udp_inv w ->
  (forall s, notify_pending w s -> notify_pending (mkUdpWorld (generations w) (loops w) rf sh) s) ->
  (forall s, in_service (mkUdpWorld (generations w) (loops w) rf sh) s -> in_service w s) ->
  udp_inv (mkUdpWorld (generations w) (loops w) rf sh).
Proof.
  intros [Hg Hb He Hu Hc] Hp Hs. constructor; [done|intros; by eapply Hp, Hb|done..|]. intros s Hin. by apply Hc, Hs.
Qed.

Lemma udp_step_inv w w' : udp_step w w' -> udp_inv w -> udp_inv w'.
Proof.
  destruct 1 as [k t g p w Hk Hg Hst|w Hr Hsh|i g w Hr Hg|i w Hr Hi|i w Hr Hi|w Hsh|i w Hsh Hi|i w Hsh Hi]; intros Hinv.
  - by eapply inv_loop_step.
  - apply inv_weaken; [done| |done]. intros s [(i & Hi & _)|(i & Hi & _)]; congruence.
  - by apply inv_replace.
  - apply inv_weaken; [done| |done]. intros s [(j & Hj & Hlt)|Hs]; [left|by right]. exists (S i). split; [done|].
    assert (j = i) by congruence. lia.
  - destruct w. by eapply inv_notified.
  - apply inv_weaken; [done| |]. { intros s [Hs|(j & Hj & _)]; [by left|congruence]. }
    intros s [Hl _]. split; [done|]. by rewrite Hsh.
  - by apply inv_shut_bump.
  - destruct w as [gens ls rf sh]. eapply inv_notified; [done|]. by intros s [_ []].
Qed.

Lemma udp_create_inv n : udp_inv (udp_create n).
Proof.
  assert (Hin : forall k t, loops (udp_create n) !! k = Some t -> k < n /\ t = mkTask k 0 Top).
  { intros k t. cbn. rewrite list_lookup_fmap. intros (i & Hi & ->)%fmap_Some. apply lookup_seq in Hi as [-> Hlt]. by split. }
  constructor.
  - intros k t [Hk ->]%Hin. exists 0. cbn. split; [by apply lookup_replicate_2|done].
  - intros k t [Hk ->]%Hin. done.
  - intros k t [Hk ->]%Hin. done.
  - intros k k' t t' [Hk ->]%Hin [Hk' ->]%Hin. done.
  - intros s [Hs _]. cbn in Hs. rewrite length_replicate in Hs. exists s, (mkTask s 0 Top). cbn.
    rewrite list_lookup_fmap, lookup_seq_lt by done. split_and!; [done..|]. by apply lookup_replicate_2.
Qed.

Lemma udp_reachable_inv n w : rtc udp_step (udp_create n) w -> udp_inv w.
Proof.
  assert (H : forall a b, rtc udp_step a b -> udp_inv a -> udp_inv b) by (induction 1; eauto using udp_step_inv).
  intros Hr. apply (H _ _ Hr), udp_create_inv.
Qed.

(** The steps of loop [k] alone. *)
Definition own_step (k : nat) (w w' : UdpWorld) : Prop :=
  exists t g p, loops w !! k = Some t /\ generations w !! rt_slot t = Some g /\ loop_step g t p /\
    w' = mkUdpWorld (generations w) (<[k := set_phase t p]> (loops w)) (refreshing w) (shut w).

Lemma own_step_to k t g p w : loops w !! k = Some t -> generations w !! rt_slot t = Some g -> loop_step g t p ->
  exists w', own_step k w w' /\ generations w' = generations w /\ loops w' !! k = Some (set_phase t p).
Proof.
  intros Hk Hg Hs. eexists. split; [by exists t, g, p|]. split; [done|]. cbn.
  rewrite list_lookup_insert_eq; [done|]. by eapply lookup_lt_Some.
Qed.

(** A stale loop that is not waiting for a lost wake-up runs to its end. *)
Lemma stale_exits k t g w : loops w !! k = Some t -> generations w !! rt_slot t = Some g -> g <> rt_gen t ->
  rt_phase t <> Blocked false -> exists w', rtc (own_step k) w w' /\ loops w' !! k = Some (set_phase t Exited).
Proof.
  intros Hk Hg Hne Hb.
  assert (Harmed : forall s w, loops w !! k = Some (set_phase t (Armed s)) -> generations w !! rt_slot t = Some g ->
    exists w', rtc (own_step k) w w' /\ loops w' !! k = Some (set_phase t Exited)).
  { intros s w0 Hk0 Hg0. destruct (own_step_to k _ g Exited w0 Hk0 Hg0) as (w1 & H1 & _ & Hl).
    - pose proof (loop_check g (set_phase t (Armed s)) s eq_refl) as H. rewrite decide_False in H by done. exact H.
    - exists w1. split; [by apply rtc_once|done]. }
  assert (Htop : forall w, loops w !! k = Some (set_phase t Top) -> generations w !! rt_slot t = Some g ->
    exists w', rtc (own_step k) w w' /\ loops w' !! k = Some (set_phase t Exited)).
  { intros w0 Hk0 Hg0. destruct (own_step_to k _ g (Armed false) w0 Hk0 Hg0) as (w1 & H1 & Hg1 & Hl); [by apply loop_arm|].
    destruct (Harmed false w1) as (w2 & H2 & H3); [done|by rewrite Hg1|]. exists w2. split; [by eapply rtc_l|done]. }
  assert (Hjump : loop_step g t Top -> exists w', rtc (own_step k) w w' /\ loops w' !! k = Some (set_phase t Exited)).
  { intros Hs. destruct (own_step_to k t g Top w Hk Hg Hs) as (w1 & H1 & Hg1 & Hl).
    destruct (Htop w1) as (w2 & H2 & H3); [done|by rewrite Hg1|]. exists w2. split; [by eapply rtc_l|done]. }
  destruct t as [sl gn ph]. cbn in *. destruct ph as [|s|[]| |].
  - by apply Htop.
  - by apply (Harmed s).
  - apply Hjump. by apply loop_woken.
  - done.
  - apply Hjump. by apply loop_restart.
  - exists w. split; [done|exact Hk].
Qed.

(** C29: no receive loop is lost or left behind.  In every state the loops, refreshes and
    the shutdown of an upstream can reach: each slot in service has exactly one running
    loop of its current generation; a loop whose socket was replaced waits without a
    wake-up only while the refresh or shutdown that replaced it has still to notify; and
    when none is under way, every replaced loop reaches its end by its own steps. *)
Theorem udp_loops_retire n w : rtc udp_step (udp_create n) w ->
  (forall slot, in_service w slot -> exists k, current_loop w slot k /\ forall k', current_loop w slot k' -> k' = k) /\
  (forall k t, loops w !! k = Some t -> stale w t -> rt_phase t = Blocked false -> notify_pending w (rt_slot t)) /\
  (refreshing w = None -> (forall i, shut w <> Bumping i) -> forall k t, loops w !! k = Some t -> stale w t ->
     exists w', rtc (own_step k) w w' /\ loops w' !! k = Some (set_phase t Exited)).
Proof.
  intros [Hg Hb He Hu Hc]%udp_reachable_inv. split_and!.
  - intros slot Hs. destruct (Hc slot Hs) as (k & t & Hk & Ht & Hgen). exists k. split.
    + exists t. split_and!; [done..|]. intros Hx. apply (He k t Hk Hx). by rewrite Ht.
    + intros k' (t' & Hk' & Ht' & Hgen' & _). apply (Hu k' k t' t); [done..|congruence|congruence].
  - intros k t Hk Hst Hp. by apply (Hb k).
  - intros Hr Hsh k t Hk Hst. destruct (Hg k t Hk) as (g & Hgs & _). apply (stale_exits k t g); [done..| |].
    + intros ->. done.
    + intros Hp. destruct (Hb k t Hk Hp Hst) as [(i & Hi & _)|(i & Hi & _)]; [congruence|by apply (Hsh i)].
Qed.

Module UdpRefreshDemo.
Definition blocked (g : nat) : recv_task := mkTask 0 g (Blocked false).

Lemma create_blocked : rtc udp_step (udp_create 1) (mkUdpWorld [0] [blocked 0] None Serving).
Proof.
  eapply rtc_l; [apply (step_loop 0 (mkTask 0 0 Top) 0 (Armed false)); [done|done|by apply loop_arm]|]. cbn.
  apply rtc_once. apply (step_loop 0 (mkTask 0 0 (Armed false)) 0 (Blocked false)); [done|done|].
  exact (loop_check 0 (mkTask 0 0 (Armed false)) false eq_refl).
Defined.

(** The socket of the only slot is replaced while its loop waits. *)
Definition replaced : UdpWorld := mkUdpWorld [1] [mkTask 0 0 (Blocked true); mkTask 0 1 Top] None Serving.

Lemma refresh_run : rtc udp_step (udp_create 1) replaced.
Proof.
  etrans; [exact create_blocked|].
  eapply rtc_l; [by apply step_trigger|]. cbn. eapply rtc_l; [by apply (step_replace 0 0)|]. cbn.
  apply rtc_once. by apply (step_refreshed 1 (mkUdpWorld [1] [blocked 0; mkTask 0 1 Top] (Some 1) Serving)).
Defined.

Lemma udp_loops_witness :
  exists w', rtc (own_step 0) replaced w' /\ loops w' !! 0 = Some (mkTask 0 0 Exited).
Proof. apply (proj2 (proj2 (udp_loops_retire 1 replaced refresh_run))) with (t := mkTask 0 0 (Blocked true)); done. Defined.

(** [shutdown] while a refresh runs: the refresh then replaces a socket and starts a
    loop of the generation it raised, which nothing raises again, so the loop, its
    socket and the upstream are never released. *)
Definition leaked (p : loop_phase) : UdpWorld := mkUdpWorld [2] [mkTask 0 0 Exited; mkTask 0 2 p] None ShutDown.

Lemma leaked_forever p w' : p <> Exited -> rtc udp_step (leaked p) w' -> exists p', w' = leaked p' /\ p' <> Exited.
Proof.
  intros Hp Hr. remember (leaked p) as w eqn:Hw. revert p Hp Hw. induction Hr as [w|w w1 w2 Hs _ IH]; intros p Hp ->; [by exists p|].
  enough (exists p', w1 = leaked p' /\ p' <> Exited) as (p' & -> & Hp') by (by apply (IH p')).
  inversion Hs as [k t g q w0 Hk Hg Hst| | | | | | |]; subst; try done. cbn in Hk, Hg.
  destruct k as [|[|k]]; [| |done].
  - injection Hk as <-. exfalso. inversion Hst; done.
  - injection Hk as <-. exists q. split; [done|]. inversion Hst as [|s Hph He| | | |]; subst; [done| |done..].
    cbn in Hg. injection Hg as <-. by rewrite decide_True.
Qed.

Lemma shutdown_during_refresh_leaks :
  exists w, rtc udp_step (udp_create 1) w /\ shut w = ShutDown /\ refreshing w = None /\
    forall w', rtc udp_step w w' -> exists t, loops w' !! 1 = Some t /\ rt_phase t <> Exited.
Proof.
  exists (leaked Top). split_and!; [|done|done|].
  - etrans; [exact create_blocked|].
    eapply rtc_l; [by apply step_trigger|]. eapply rtc_l; [by apply step_drop|]. cbn.
    eapply rtc_l; [by apply (step_bump 0); [|cbn; lia]|]. cbn.
    eapply rtc_l; [by apply (step_shut 1)|]. cbn. eapply rtc_l; [by apply (step_replace 0 1)|]. cbn.
    eapply rtc_l; [by apply (step_refreshed 1)|]. cbn.
    eapply rtc_l; [apply (step_loop 0 (mkTask 0 0 (Blocked true)) 2 Top); [done|done|by apply loop_woken]|]. cbn.
    eapply rtc_l; [apply (step_loop 0 (mkTask 0 0 Top) 2 (Armed false)); [done|done|by apply loop_arm]|]. cbn.
    apply rtc_once. apply (step_loop 0 (mkTask 0 0 (Armed false)) 2 Exited); [done|done|].
    exact (loop_check 2 (mkTask 0 0 (Armed false)) false eq_refl).
  - intros w' Hr. destruct (leaked_forever Top w' ltac:(done) Hr) as (p' & -> & Hp'). by exists (mkTask 0 2 p').
Qed.
End UdpRefreshDemo.
