(* ===== verification/Transports.v ===== *)
(** * DoQ, DoH and HTTP/3 upstreams (src/src/upstream/doh.rs, quic.rs; ConnSlot and
    acquire_inflight_permit of src/src/upstream/mod.rs)

    These transports keep one connection in a slot behind a lock, take a permit for each
    query, send one message and read one.  The QUIC, TLS and HTTP libraries are arguments:
    whether a connection is alive when it is asked, what connecting gives, and what a
    stream or response delivers.  [others] is what the other queries of the upstream did
    to the shared state while this one waited. *)

From S2P Require Import Prelude Hasher DnsName DnsQuery DnsQname DnsRecords DnsEdns Ecs DnsMessage Inflight Upstream UpstreamWire TcpMux.

Inductive transport_error :=
| PermitTimeout
| PrepareFailed (e : query_error)
| ConnectFailed
| ConnectTimeout
| OpenStreamFailed
| PacketTooLarge
| WriteFailed
| LengthReadFailed
| ResponseTooSmall (len : nat)
| BodyReadFailed
| NotReady
| SendRequestFailed
| SendBodyFailed
| RequestInvalid
| ResponseFailed
| BadStatus (status : Z)
| BodyTooLarge (len : nat)
| ExchangeTimeout
| Rejected (e : response_error).

(** Whether tokio's [Elapsed] is in the error's chain, which is how [UpstreamNode::exchange]
    tells timeouts from other failures. *)
Definition has_elapsed (e : transport_error) : bool :=
  match e with PermitTimeout | ConnectTimeout | ExchangeTimeout => true | _ => false end.

(** ** The connection slot *)

Section ConnSlot.
Context {C : Type}.

Definition get_or_connect (slot : option C) (is_healthy : C -> bool) (connect : result transport_error C)
  : option C * result transport_error C :=
  let fresh := match connect with Ok c => (Some c, Ok c) | Err e => (slot, Err e) end in
  match slot with
  | Some c => if is_healthy c then (slot, Ok c) else fresh
  | None => fresh
  end.

Definition evict_if_unhealthy (slot : option C) (is_healthy : C -> bool) : option C :=
  match slot with
  | Some c => if negb (is_healthy c) then None else slot
  | None => slot
  end.

(** ** Shared state *)

Record ConnUpstream := mkConn { cu_ecs_mode : EcsMode; cu_next_id : Z; cu_permits : Z; cu_slot : option C }.

Definition with_slot (u : ConnUpstream) (slot : option C) : ConnUpstream := mkConn (cu_ecs_mode u) (cu_next_id u) (cu_permits u) slot.

Definition with_permits (u : ConnUpstream) (permits : Z) : ConnUpstream := mkConn (cu_ecs_mode u) (cu_next_id u) permits (cu_slot u).

(** [new]: [max_inflight = 0] is the semaphore's own maximum. *)
Definition MAX_PERMITS : Z := 2 ^ 61 - 1.

Definition conn_new (ecs_mode : EcsMode) (max_inflight : nat) (seed : Z) : ConnUpstream :=
  mkConn ecs_mode seed (if decide (0 < max_inflight) then Z.of_nat max_inflight else MAX_PERMITS) None.

Definition acquired (u : ConnUpstream) : ConnUpstream := with_permits u (cu_permits u - 1).

(** [acquire_inflight_permit], when the wait ends. *)
Definition acquire_inflight_permit (u : ConnUpstream) : result transport_error ConnUpstream :=
  if decide (cu_permits u <= 0)%Z then Err PermitTimeout else Ok (acquired u).

(** The permit is dropped when the exchange returns. *)
Definition release (u : ConnUpstream) : ConnUpstream := with_permits u (cu_permits u + 1).

(** [next_id.fetch_add(1)], mixed. *)
Definition take_id (u : ConnUpstream) : ConnUpstream * Z :=
  (mkConn (cu_ecs_mode u) (wrap 32 (cu_next_id u + 1)) (cu_permits u) (cu_slot u), mix16 (cu_next_id u)).

Definition finalize (body : list Z) (upstream_id : Z) (req : UpstreamRequest) : outcome (result transport_error (list Z)) :=
  let! r := finalize_response body upstream_id (req_question req) (req_client_id req) in
  Ret (match r with Ok out => Ok out | Err e => Err (Rejected e) end).

(** ** DNS over QUIC *)

(** A bidirectional stream: whether it opens and takes the bytes, what comes back for what
    was written, and whether the time runs out first. *)
Record quic_io := mkQuicIo { qs_opens : bool; qs_writes : bool; qs_answer : list Z -> list Z; qs_elapsed : bool }.

(** [do_exchange] after the connection. *)
Definition doq_stream (io : quic_io) (pkt : list Z) : outcome (result transport_error (list Z)) :=
  if qs_elapsed io then Ret (Err ExchangeTimeout)
  else if negb (qs_opens io) then Ret (Err OpenStreamFailed)
  else if decide (65535 < Z.of_nat (length pkt))%Z then Ret (Err PacketTooLarge)
  else if negb (qs_writes io) then Ret (Err WriteFailed)
  else
    let recv := qs_answer io (to_be 2 (Z.of_nat (length pkt)) ++ pkt) in
    if decide (length recv < 2) then Ret (Err LengthReadFailed)
    else
      let! len := u16_at recv 0 in
      let resp_len := Z.to_nat len in
      if decide (resp_len < 12) then Ret (Err (ResponseTooSmall resp_len))
      else if decide (length (drop 2 recv) < resp_len) then Ret (Err BodyReadFailed)
      else Ret (Ok (take resp_len (drop 2 recv))).

(** What the network does during one exchange. *)
Record doq_net := mkDoqNet {
  dq_alive : C -> bool; dq_connect : result transport_error C; dq_io : C -> quic_io;
  dq_others : ConnUpstream -> ConnUpstream; dq_alive_after : C -> bool
}.

Definition doq_exchange (u : ConnUpstream) (net : doq_net) (req : UpstreamRequest)
  : outcome (ConnUpstream * result transport_error (list Z)) :=
  match acquire_inflight_permit u with
  | Err e => Ret (u, Err e)
  | Ok u =>
      let! pkt := prepare_query (req_packet req) (cu_ecs_mode u) 0 in
      match pkt with
      | Err e => Ret (release u, Err (PrepareFailed e))
      | Ok pkt =>
          let '(slot, conn) := get_or_connect (cu_slot u) (dq_alive net) (dq_connect net) in
          let u := with_slot u slot in
          let! (u, result) :=
            match conn with
            | Err e => Ret (u, Err e)
            | Ok c => let! r := doq_stream (dq_io net c) pkt in Ret (dq_others net u, r)
            end in
          match result with
          | Err e => Ret (release (with_slot u (evict_if_unhealthy (cu_slot u) (dq_alive_after net))), Err e)
          | Ok body => let! r := finalize body 0 req in Ret (release u, r)
          end
      end
  end.

(** ** HTTP responses *)

Record http_response := mkResponse { hr_status : Z; hr_body : list (option (list Z)) }.
(* the data frames; [None] is a failed read *)

(** The loop over the body of a DoH response. *)
Fixpoint doh_body (resp_bytes : list Z) (frames : list (option (list Z))) : result transport_error (list Z) :=
  match frames with
  | [] => Ok resp_bytes
  | Some chunk :: frames' =>
      let resp_bytes := resp_bytes ++ chunk in
      if decide (65535 < Z.of_nat (length resp_bytes))%Z then Err (BodyTooLarge (length resp_bytes))
      else doh_body resp_bytes frames'
  | None :: _ => Err BodyReadFailed
  end.

(** The loop over the body of an HTTP/3 response. *)
Fixpoint h3_body (body : list Z) (frames : list (option (list Z))) : result transport_error (list Z) :=
  match frames with
  | [] => Ok body
  | Some chunk :: frames' => h3_body (body ++ chunk) frames'
  | None :: _ => Err BodyReadFailed
  end.

(** ** DNS over HTTPS *)

(** What the h2 library and the server do during one exchange.  [dh_cut] is the await
    point at which the deadline of the exchange passes, if it does: 0 the first connect, 1
    the readiness probe, 2 the eviction, 3 the second connect, 4 its probe, 5 the response
    headers, 6 the body. *)
Record doh_net := mkDohNet {
  dh_connect1 : result transport_error C; dh_ready1 : C -> bool;
  dh_others1 : ConnUpstream -> ConnUpstream; dh_ready_evict : C -> bool;
  dh_others2 : ConnUpstream -> ConnUpstream; dh_connect2 : result transport_error C; dh_ready2 : C -> bool;
  dh_sends : C -> bool; dh_sends_body : C -> bool;
  dh_response : C -> list Z -> option http_response;
  dh_others3 : ConnUpstream -> ConnUpstream;
  dh_cut : option nat
}.

Definition cut_at (net : doh_net) (k : nat) : bool := bool_decide (dh_cut net = Some k).

(** [send_request]: the connection the request went out on. *)
Definition doh_send_request (u : ConnUpstream) (net : doh_net) : ConnUpstream * result transport_error C :=
  let always (_ : C) := true in
  if cut_at net 0 then (u, Err ExchangeTimeout)
  else
    let '(slot, conn) := get_or_connect (cu_slot u) always (dh_connect1 net) in
    let u := with_slot u slot in
    match conn with
    | Err e => (u, Err e)
    | Ok sr =>
        let '(u, conn) :=
          if cut_at net 1 then (u, Err ExchangeTimeout)
          else if dh_ready1 net sr then (u, Ok sr)
          else
            let u := dh_others1 net u in
            if cut_at net 2 then (u, Err ExchangeTimeout)
            else
              let u := with_slot u (evict_if_unhealthy (cu_slot u) (dh_ready_evict net)) in
              let u := dh_others2 net u in
              if cut_at net 3 then (u, Err ExchangeTimeout)
              else
                let '(slot, conn) := get_or_connect (cu_slot u) always (dh_connect2 net) in
                let u := with_slot u slot in
                match conn with
                | Err e => (u, Err e)
                | Ok sr =>
                    if cut_at net 4 then (u, Err ExchangeTimeout)
                    else if dh_ready2 net sr then (u, Ok sr) else (u, Err NotReady)
                end in
        match conn with
        | Err e => (u, Err e)
        | Ok sr =>
            if negb (dh_sends net sr) then (u, Err SendRequestFailed)
            else if negb (dh_sends_body net sr) then (u, Err SendBodyFailed)
            else (u, Ok sr)
        end
    end.

Definition doh_exchange (u : ConnUpstream) (net : doh_net) (request_builds : bool) (req : UpstreamRequest)
  : outcome (ConnUpstream * result transport_error (list Z)) :=
  match acquire_inflight_permit u with
  | Err e => Ret (u, Err e)
  | Ok u =>
      let '(u, upstream_id) := take_id u in
      let! pkt := prepare_query (req_packet req) (cu_ecs_mode u) upstream_id in
      match pkt with
      | Err e => Ret (release u, Err (PrepareFailed e))
      | Ok pkt =>
          if negb request_builds then Ret (release u, Err RequestInvalid)
          else
            let '(u, sent) := doh_send_request u net in
            match sent with
            | Err e => Ret (release u, Err e)
            | Ok c =>
                let u := dh_others3 net u in
                if cut_at net 5 then Ret (release u, Err ExchangeTimeout)
                else
                  match dh_response net c pkt with
                  | None => Ret (release u, Err ResponseFailed)
                  | Some response =>
                      if decide (hr_status response <> 200)%Z then Ret (release u, Err (BadStatus (hr_status response)))
                      else if cut_at net 6 then Ret (release u, Err ExchangeTimeout)
                      else
                        match doh_body [] (hr_body response) with
                        | Err e => Ret (release u, Err e)
                        | Ok body => let! r := finalize body upstream_id req in Ret (release u, r)
                        end
                  end
            end
      end
  end.

(** ** HTTP/3 *)

Record h3_net := mkH3Net {
  h3_alive : C -> bool; h3_connect : result transport_error C; h3_sends : C -> bool;
  h3_response : C -> list Z -> option http_response; h3_elapsed : bool;
  h3_others : ConnUpstream -> ConnUpstream; h3_alive_after : C -> bool
}.

(** The request of [do_exchange]. *)
Definition h3_request (net : h3_net) (c : C) (pkt : list Z) : result transport_error (list Z) :=
  if negb (h3_sends net c) then Err SendRequestFailed
  else
    match h3_response net c pkt with
    | None => Err ResponseFailed
    | Some response =>
        if decide (hr_status response <> 200)%Z then Err (BadStatus (hr_status response)) else h3_body [] (hr_body response)
    end.

Definition h3_do_exchange (u : ConnUpstream) (net : h3_net) (uri_valid : bool) (pkt : list Z) : ConnUpstream * result transport_error (list Z) :=
  let '(slot, conn) := get_or_connect (cu_slot u) (h3_alive net) (h3_connect net) in
  let u := with_slot u slot in
  match conn with
  | Err e => (u, Err e)
  | Ok c =>
      if negb uri_valid then (u, Err RequestInvalid)
      else
        let u := h3_others net u in
        if h3_elapsed net then (u, Err ExchangeTimeout)
        else
          let result := h3_request net c pkt in
          match result with
          | Err e => (with_slot u (evict_if_unhealthy (cu_slot u) (h3_alive_after net)), Err e)
          | Ok body => (u, Ok body)
          end
  end.

Definition h3_exchange (u : ConnUpstream) (net : h3_net) (uri_valid : bool) (req : UpstreamRequest)
  : outcome (ConnUpstream * result transport_error (list Z)) :=
  match acquire_inflight_permit u with
  | Err e => Ret (u, Err e)
  | Ok u =>
      let '(u, upstream_id) := take_id u in
      let! pkt := prepare_query (req_packet req) (cu_ecs_mode u) upstream_id in
      match pkt with
      | Err e => Ret (release u, Err (PrepareFailed e))
      | Ok pkt =>
          let '(u, r) := h3_do_exchange u net uri_valid pkt in
          match r with
          | Err e => Ret (release u, Err e)
          | Ok body => let! r := finalize body upstream_id req in Ret (release u, r)
          end
      end
  end.

(** ** Dispatch ([UpstreamTransport::exchange]) *)

Inductive transport_net :=
| NetDoq (net : doq_net)
| NetDoh (net : doh_net) (request_builds : bool)
| NetH3 (net : h3_net) (uri_valid : bool).

Definition conn_exchange (u : ConnUpstream) (net : transport_net) (req : UpstreamRequest) : outcome (ConnUpstream * result transport_error (list Z)) :=
  match net with
  | NetDoq net => doq_exchange u net req
  | NetDoh net b => doh_exchange u net b req
  | NetH3 net b => h3_exchange u net b req
  end.

(** ** What is proved of one exchange *)

(** The DNS ID the query goes out with: RFC 9250 wants 0 on QUIC streams. *)
Definition wire_id (u : ConnUpstream) (net : transport_net) : Z :=
  match net with NetDoq _ => 0 | _ => mix16 (cu_next_id u) end.

(** The whole body of a 200 response. *)
Definition full_body (o : option http_response) (body : list Z) : Prop :=
  exists chunks, o = Some (mkResponse 200 (Some <$> chunks)) /\ body = concat chunks.

(** The upstream answers the packet with [body], in time and on a usable connection. *)
Definition delivers (u : ConnUpstream) (net : transport_net) (pkt body : list Z) : Prop :=
  match net with
  | NetDoq net => exists c, snd (get_or_connect (cu_slot u) (dq_alive net) (dq_connect net)) = Ok c /\
      doq_stream (dq_io net c) pkt = Ret (Ok body)
  | NetDoh net builds => builds = true /\ cut_at net 5 = false /\ cut_at net 6 = false /\
      exists c, snd (doh_send_request (fst (take_id (acquired u))) net) = Ok c /\ full_body (dh_response net c pkt) body /\
        (Z.of_nat (length body) <= 65535)%Z
  | NetH3 net valid => valid = true /\ h3_elapsed net = false /\
      exists c, snd (get_or_connect (cu_slot u) (h3_alive net) (h3_connect net)) = Ok c /\ h3_sends net c = true /\
        full_body (h3_response net c pkt) body
  end.

(** The other queries give back the permits they take, and leave the slot alone. *)
Definition quiet (f : ConnUpstream -> ConnUpstream) : Prop := forall u, cu_permits (f u) = cu_permits u /\ cu_slot (f u) = cu_slot u.

Definition quiet_net (net : transport_net) : Prop :=
  match net with
  | NetDoq net => quiet (dq_others net)
  | NetDoh net _ => quiet (dh_others1 net) /\ quiet (dh_others2 net) /\ quiet (dh_others3 net)
  | NetH3 net _ => quiet (h3_others net)
  end.

(** Nothing the exchange asks says that the connection is dead. *)
Definition keeps_alive (net : transport_net) (c : C) : Prop :=
  match net with
  | NetDoq net => dq_alive net c = true /\ dq_alive_after net c = true
  | NetDoh net _ => dh_ready1 net c = true
  | NetH3 net _ => h3_alive net c = true /\ h3_alive_after net c = true
  end.

Lemma finalize_spec body uid req :
  exists r, finalize body uid req = Ret r /\
    forall out, r = Ok out <-> accepts body uid (req_question req) /\ out = to_be 2 (req_client_id req) ++ drop 2 body.
Proof.
  unfold finalize. destruct (finalize_response_correct body uid (req_question req) (req_client_id req)) as (r & -> & Hr). cbn [obind].
  eexists. split; [done|]. intros out. rewrite <- Hr. destruct r; naive_solver.
Qed.

Lemma doh_body_spec frames acc body : (Z.of_nat (length acc) <= 65535)%Z ->
  doh_body acc frames = Ok body <->
  exists chunks, frames = Some <$> chunks /\ body = acc ++ concat chunks /\ (Z.of_nat (length body) <= 65535)%Z.
Proof.
  revert acc. induction frames as [|[chunk|] frames IH]; intros acc Ha; cbn [doh_body].
  - split; [intros [= <-]; exists []; cbn; rewrite app_nil_r; done|]. intros ([|] & [=] & -> & _). cbn. by rewrite app_nil_r.
  - case_decide as Hl.
    + split; [done|]. intros ([|c chunks] & Hf & -> & Hb); [done|]. cbn in Hf. injection Hf as <- ->.
      exfalso. cbn [concat] in Hb. rewrite !length_app in *. lia.
    + rewrite IH by lia. split.
      * intros (chunks & -> & -> & Hb). exists (chunk :: chunks). cbn. by rewrite app_assoc.
      * intros ([|c chunks] & Hf & -> & Hb); [done|]. cbn in Hf. injection Hf as <- ->. exists chunks. cbn in *. by rewrite <- app_assoc.
  - split; [done|]. intros ([|c chunks] & Hf & _); [done|]. cbn in Hf. congruence.
Qed.

Lemma h3_body_spec frames acc body :
  h3_body acc frames = Ok body <-> exists chunks, frames = Some <$> chunks /\ body = acc ++ concat chunks.
Proof.
  revert acc. induction frames as [|[chunk|] frames IH]; intros acc; cbn [h3_body].
  - split; [intros [= <-]; exists []; cbn; rewrite app_nil_r; done|]. intros ([|] & [=] & ->). cbn. by rewrite app_nil_r.
  - rewrite IH. split.
    + intros (chunks & -> & ->). exists (chunk :: chunks). cbn. by rewrite app_assoc.
    + intros ([|c chunks] & Hf & ->); [done|]. cbn in Hf. injection Hf as <- ->. exists chunks. cbn. by rewrite <- app_assoc.
  - split; [done|]. intros ([|c chunks] & Hf & _); [done|]. cbn in Hf. congruence.
Qed.
End ConnSlot.

(** * One exchange over DoQ, DoH or HTTP/3 (src/src/upstream/doh.rs, quic.rs)

    The exchange answers exactly when the upstream delivers a message the checks accept,
    gives its permit back on every path and never drops a connection that is alive; the
    slot keeps every live connection in reach under all interleavings. *)

Section exchange.
Context {C : Type}.
Implicit Types u : ConnUpstream (C := C).

Record exchange_post u (net : transport_net) (req : UpstreamRequest) (pkt : list Z) u' (r : result transport_error (list Z)) : Prop := mkPost {
  post_answer : forall out, r = Ok out <-> exists body, delivers u net pkt body /\ accepts body (wire_id u net) (req_question req) /\
    out = to_be 2 (req_client_id req) ++ drop 2 body;
  post_permits : quiet_net net -> cu_permits u' = cu_permits u;
  post_slot : quiet_net net -> forall c, cu_slot u = Some c -> keeps_alive net c -> cu_slot u' = Some c
}.

(** Every way out gives the permit back; what is left is the answer. *)
Lemma post_failed u net req pkt u' e : (forall body, ~ delivers u net pkt body) ->
  (quiet_net net -> cu_permits u' = (cu_permits u - 1)%Z) ->
  (quiet_net net -> forall c, cu_slot u = Some c -> keeps_alive net c -> cu_slot u' = Some c) ->
  exists u'' r, Ret (release u', Err e) = Ret (u'', r) /\ exchange_post u net req pkt u'' r.
Proof.
  intros Hd Hp Hs. eexists _, _. split; [done|]. constructor; [|intros Hq; cbn; rewrite Hp by done; lia|done].
  intros out. split; [done|]. intros (body & Hb & _). by destruct (Hd body).
Qed.

Lemma post_finalized u net req pkt u' body : delivers u net pkt body -> (forall b, delivers u net pkt b -> b = body) ->
  (quiet_net net -> cu_permits u' = (cu_permits u - 1)%Z) ->
  (quiet_net net -> forall c, cu_slot u = Some c -> keeps_alive net c -> cu_slot u' = Some c) ->
  exists u'' r, (let! r := finalize body (wire_id u net) req in Ret (release u', r)) = Ret (u'', r) /\ exchange_post u net req pkt u'' r.
Proof.
  intros Hd Hu Hp Hs. destruct (finalize_spec body (wire_id u net) req) as (r & -> & Hr). cbn [obind].
  eexists _, _. split; [done|]. constructor; [|intros Hq; cbn; rewrite Hp by done; lia|done].
  intros out. rewrite Hr. split; [by exists body|]. intros (b & Hb & Ha). by rewrite <- (Hu b Hb).
Qed.

Lemma get_or_connect_keeps (slot : option C) h connect c : slot = Some c -> h c = true ->
  get_or_connect slot h connect = (slot, Ok c).
Proof. intros -> Hh. unfold get_or_connect. by rewrite Hh. Qed.

Lemma evict_keeps (slot : option C) h c : slot = Some c -> h c = true -> evict_if_unhealthy slot h = Some c.
Proof. intros -> Hh. unfold evict_if_unhealthy. by rewrite Hh. Qed.

Lemma doq_stream_returns io pkt : exists r, doq_stream io pkt = Ret r.
Proof.
  unfold doq_stream. repeat first [case_decide | match goal with |- context [if ?b then _ else _] => destruct b end]; try by eexists.
  all: rewrite u16_at_be16 by lia; cbn [obind]; repeat case_decide; by eexists.
Qed.

Section doq.
Context (u : ConnUpstream (C := C)) (net : doq_net (C := C)) (req : UpstreamRequest) (pkt : list Z).
Hypothesis Hpermit : (0 < cu_permits u)%Z.
Hypothesis Hpkt : prepare_query (req_packet req) (cu_ecs_mode u) 0 = Ret (Ok pkt).

Lemma doq_exchange_spec : exists u' r, doq_exchange u net req = Ret (u', r) /\ exchange_post u (NetDoq net) req pkt u' r.
Proof.
  unfold doq_exchange, acquire_inflight_permit. rewrite decide_False by lia. cbn [cu_ecs_mode acquired with_permits cu_slot]. rewrite Hpkt. cbn [obind].
  pose proof (get_or_connect_keeps (cu_slot u) (dq_alive net) (dq_connect net)) as Hkeep.
  destruct (get_or_connect (cu_slot u) (dq_alive net) (dq_connect net)) as [slot conn] eqn:Hg.
  destruct conn as [c|e]; cbn [obind].
  - destruct (doq_stream_returns (dq_io net c) pkt) as [r Hr]. rewrite Hr. cbn [obind]. destruct r as [body|e].
    + apply (post_finalized u (NetDoq net)).
      * exists c. by rewrite Hg.
      * intros b (c' & Hc' & Hb). rewrite Hg in Hc'. cbn in Hc'. congruence.
      * intros Hq. apply Hq.
      * intros Hq c0 Hs [Ha _]. destruct (Hq (with_slot (acquired u) slot)) as [_ ->]. cbn. specialize (Hkeep c0 Hs Ha). congruence.
    + apply post_failed.
      * intros b (c' & Hc' & Hb). rewrite Hg in Hc'. cbn in Hc'. congruence.
      * intros Hq. apply Hq.
      * intros Hq c0 Hs [Ha Ha']. cbn. apply evict_keeps; [|done]. destruct (Hq (with_slot (acquired u) slot)) as [_ ->]. cbn.
        specialize (Hkeep c0 Hs Ha). congruence.
  - apply post_failed.
    + intros b (c' & Hc' & Hb). by rewrite Hg in Hc'.
    + done.
    + intros Hq c0 Hs [Ha Ha']. specialize (Hkeep c0 Hs Ha). congruence.
Qed.
End doq.

Lemma full_body_unique o b b' : full_body o b -> full_body o b' -> b = b'.
Proof.
  intros (cs & -> & ->) (cs' & Heq & ->). injection Heq as Hf. f_equal. by apply (inj (fmap Some)) in Hf.
Qed.

Lemma full_body_intro resp chunks : hr_status resp = 200%Z -> hr_body resp = Some <$> chunks -> full_body (Some resp) (concat chunks).
Proof. destruct resp as [st fr]. cbn. intros -> ->. by exists chunks. Qed.

Section doh.
Context (u : ConnUpstream (C := C)) (net : doh_net (C := C)).

Lemma doh_send_permits : quiet (dh_others1 net) -> quiet (dh_others2 net) ->
  cu_permits (fst (doh_send_request u net)) = cu_permits u.
Proof.
  intros Q1 Q2. unfold doh_send_request. destruct (cut_at net 0); [done|].
  destruct (get_or_connect (cu_slot u) _ (dh_connect1 net)) as [slot [sr|e]]; [|done].
  destruct (cut_at net 1); [done|]. destruct (dh_ready1 net sr); [by repeat case_match|].
  destruct (Q1 (with_slot u slot)) as [H1 _]. set (u1 := dh_others1 net (with_slot u slot)) in *. destruct (cut_at net 2); [done|].
  set (u2 := with_slot u1 _). destruct (Q2 u2) as [H2 _]. set (u3 := dh_others2 net u2) in *.
  assert (H : cu_permits u3 = cu_permits u) by (rewrite H2; exact H1).
  destruct (cut_at net 3); [done|]. destruct (get_or_connect (cu_slot u3) _ (dh_connect2 net)) as [slot' [sr'|e]]; [|done].
  repeat case_match; simplify_eq; done.
Qed.

(** A connection that is ready is used as it is; one that is not is probed again under
    the lock, replaced at most once, and the request goes out on the replacement. *)
Lemma doh_send_ready c : cu_slot u = Some c -> dh_ready1 net c = true -> cu_slot (fst (doh_send_request u net)) = Some c.
Proof.
  intros Hs Hr. unfold doh_send_request. destruct (cut_at net 0); [done|]. rewrite (get_or_connect_keeps _ _ _ c) by done.
  destruct (cut_at net 1); [done|]. rewrite Hr. by repeat case_match.
Qed.

Lemma doh_send_reconnects c c' : dh_cut net = None -> quiet (dh_others1 net) -> quiet (dh_others2 net) ->
  cu_slot u = Some c -> dh_ready1 net c = false -> dh_ready_evict net c = false -> dh_connect2 net = Ok c' -> dh_ready2 net c' = true ->
  dh_sends net c' = true -> dh_sends_body net c' = true ->
  snd (doh_send_request u net) = Ok c' /\ cu_slot (fst (doh_send_request u net)) = Some c'.
Proof.
  intros Hcut Q1 Q2 Hs Hr1 Hre Hc2 Hr2 Hsend Hbody. unfold doh_send_request, cut_at. rewrite Hcut. cbn [bool_decide].
  rewrite !bool_decide_eq_false_2 by done. rewrite (get_or_connect_keeps _ _ _ c) by done. rewrite Hr1.
  destruct (Q1 (with_slot u (cu_slot u))) as [_ H1]. rewrite H1. cbn [with_slot cu_slot]. rewrite Hs. cbn [evict_if_unhealthy]. rewrite Hre. cbn [negb].
  match goal with |- context [dh_others2 net ?w] => destruct (Q2 w) as [_ H2]; rewrite H2 end.
  cbn [with_slot cu_slot get_or_connect]. rewrite Hc2, Hr2, Hsend, Hbody. done.
Qed.
End doh.

Section doh_exchange.
Context (u : ConnUpstream (C := C)) (net : doh_net (C := C)) (builds : bool) (req : UpstreamRequest) (pkt : list Z).
Hypothesis Hpermit : (0 < cu_permits u)%Z.
Hypothesis Hpkt : prepare_query (req_packet req) (cu_ecs_mode u) (mix16 (cu_next_id u)) = Ret (Ok pkt).

Lemma doh_exchange_spec : exists u' r, doh_exchange u net builds req = Ret (u', r) /\ exchange_post u (NetDoh net builds) req pkt u' r.
Proof.
  unfold doh_exchange, acquire_inflight_permit. rewrite decide_False by lia. cbn [take_id cu_ecs_mode cu_next_id acquired with_permits].
  rewrite Hpkt. cbn [obind]. destruct builds; cbn [negb]; [|by apply post_failed; [intros b [H _]|..]].
  set (u1 := fst (take_id (acquired u))).
  assert (Hperm : quiet (dh_others1 net) -> quiet (dh_others2 net) -> cu_permits (fst (doh_send_request u1 net)) = (cu_permits u - 1)%Z)
    by apply (doh_send_permits u1).
  assert (Hready : forall c, cu_slot u = Some c -> dh_ready1 net c = true -> cu_slot (fst (doh_send_request u1 net)) = Some c)
    by apply (doh_send_ready u1).
  match goal with |- context [doh_send_request ?x net] => change x with u1 end.
  destruct (doh_send_request u1 net) as [u2 sent] eqn:Hsent. cbn [fst] in Hperm, Hready.
  assert (Hdel : forall b, delivers u (NetDoh net true) pkt b -> cut_at net 5 = false /\ cut_at net 6 = false /\
    exists c, sent = Ok c /\ full_body (dh_response net c pkt) b /\ (Z.of_nat (length b) <= 65535)%Z).
  { intros b (_ & H5 & H6 & c & Hc & Hb). split; [done|]. split; [done|]. exists c. split; [|done].
    change (fst (take_id (acquired u))) with u1 in Hc. by rewrite Hsent in Hc. }
  assert (Hp : quiet_net (NetDoh net true) -> cu_permits (dh_others3 net u2) = (cu_permits u - 1)%Z).
  { intros (Q1 & Q2 & Q3). rewrite (proj1 (Q3 u2)). by apply Hperm. }
  assert (Hs : quiet_net (NetDoh net true) -> forall c, cu_slot u = Some c -> keeps_alive (NetDoh net true) c -> cu_slot (dh_others3 net u2) = Some c).
  { intros (Q1 & Q2 & Q3) c Hc Ha. rewrite (proj2 (Q3 u2)). by apply Hready. }
  destruct sent as [c|e]; [|apply post_failed; [by intros b (_ & _ & c & [=] & _)%Hdel|by intros (Q1 & Q2 & _); apply Hperm|by intros _; apply Hready]].
  destruct (cut_at net 5) eqn:H5; [by apply post_failed; [intros b (? & _)%Hdel|..]|].
  destruct (dh_response net c pkt) as [resp|] eqn:Hresp.
  2:{ apply post_failed; [|done..]. intros b (_ & _ & c' & [= <-] & (cs & Hcs & _) & _)%Hdel. congruence. }
  case_decide as Hst.
  { apply post_failed; [|done..]. intros b (_ & _ & c' & [= <-] & (cs & Hcs & _) & _)%Hdel. rewrite Hresp in Hcs. by injection Hcs as ->. }
  destruct (cut_at net 6) eqn:H6; [by apply post_failed; [intros b (_ & ? & _)%Hdel|..]|].
  destruct (doh_body [] (hr_body resp)) as [body|e] eqn:Hbody.
  - apply doh_body_spec in Hbody as (chunks & Hf & -> & Hl); [|cbn; lia]. cbn [app] in *.
    assert (Hst' : hr_status resp = 200%Z) by (destruct (decide (hr_status resp = 200%Z)); [done|by destruct Hst]).
    apply (post_finalized u (NetDoh net true)); [| |done..].
    + split; [done|]. split; [done|]. split; [done|]. exists c. change (fst (take_id (acquired u))) with u1. rewrite Hsent, Hresp.
      split; [done|]. split; [by apply full_body_intro|done].
    + intros b (_ & _ & c' & [= <-] & Hb & _)%Hdel. rewrite Hresp in Hb. eapply full_body_unique; [done|by apply full_body_intro].
  - apply post_failed; [|done..]. intros b (_ & _ & c' & [= <-] & (cs & Hcs & Hb) & Hl)%Hdel.
    assert (resp = mkResponse 200 (Some <$> cs)) as -> by congruence. cbn in Hbody.
    assert (doh_body [] (Some <$> cs) = Ok b) by (apply doh_body_spec; [cbn; lia|by exists cs]). congruence.
Qed.
End doh_exchange.

Section h3_exchange.
Context (u : ConnUpstream (C := C)) (net : h3_net (C := C)) (valid : bool) (req : UpstreamRequest) (pkt : list Z).
Hypothesis Hpermit : (0 < cu_permits u)%Z.
Hypothesis Hpkt : prepare_query (req_packet req) (cu_ecs_mode u) (mix16 (cu_next_id u)) = Ret (Ok pkt).

Lemma h3_request_spec c body : h3_request net c pkt = Ok body <-> h3_sends net c = true /\ full_body (h3_response net c pkt) body.
Proof.
  unfold h3_request. destruct (h3_sends net c); cbn [negb]; [|naive_solver].
  destruct (h3_response net c pkt) as [resp|]; [|split; [done|]; by intros (_ & cs & [=] & _)].
  case_decide as Hst.
  - split; [done|]. intros (_ & cs & [= ->] & _). by destruct Hst.
  - assert (Hst' : hr_status resp = 200%Z) by (destruct (decide (hr_status resp = 200%Z)); [done|by destruct Hst]).
    rewrite h3_body_spec. split.
    + intros (cs & Hf & ->). split; [done|]. by apply full_body_intro.
    + intros (_ & cs & [= ->] & ->). by exists cs.
Qed.

Lemma h3_exchange_spec : exists u' r, h3_exchange u net valid req = Ret (u', r) /\ exchange_post u (NetH3 net valid) req pkt u' r.
Proof.
  unfold h3_exchange, h3_do_exchange, acquire_inflight_permit. rewrite decide_False by lia.
  cbn [take_id cu_ecs_mode cu_next_id acquired with_permits cu_slot]. rewrite Hpkt. cbn [obind].
  pose proof (get_or_connect_keeps (cu_slot u) (h3_alive net) (h3_connect net)) as Hkeep.
  destruct (get_or_connect (cu_slot u) (h3_alive net) (h3_connect net)) as [slot conn] eqn:Hg.
  assert (Hdel : forall b, delivers u (NetH3 net valid) pkt b -> valid = true /\ h3_elapsed net = false /\
    exists c, conn = Ok c /\ h3_request net c pkt = Ok b).
  { intros b (Hv & He & c & Hc & Hb). rewrite Hg in Hc. split; [done|]. split; [done|]. exists c. split; [done|]. by apply h3_request_spec. }
  assert (Hslot : forall c, cu_slot u = Some c -> h3_alive net c = true -> slot = Some c).
  { intros c Hs Ha. specialize (Hkeep c Hs Ha). congruence. }
  destruct conn as [c|e].
  2:{ apply post_failed; [by intros b (_ & _ & c & [=] & _)%Hdel|done|]. intros _ c Hs [Ha _]. by apply Hslot. }
  destruct valid; cbn [negb].
  2:{ apply post_failed; [by intros b (? & _)%Hdel|done|]. intros _ c0 Hs [Ha _]. by apply Hslot. }
  set (u1 := with_slot _ slot).
  assert (Hs1 : quiet (h3_others net) -> forall c, cu_slot u = Some c -> h3_alive net c = true -> cu_slot (h3_others net u1) = Some c).
  { intros Hq c0 Hs Ha. rewrite (proj2 (Hq u1)). by apply Hslot. }
  assert (Hp1 : quiet (h3_others net) -> cu_permits (h3_others net u1) = (cu_permits u - 1)%Z) by (intros Hq; by rewrite (proj1 (Hq u1))).
  destruct (h3_elapsed net) eqn:Hel.
  { apply post_failed; [by intros b (_ & ? & _)%Hdel|done|]. intros Hq c0 Hs [Ha _]. by apply Hs1. }
  destruct (h3_request net c pkt) as [body|e] eqn:Hreq.
  - apply (post_finalized u (NetH3 net true)).
    + split; [done|]. split; [done|]. exists c. rewrite Hg. split; [done|]. by apply h3_request_spec.
    + intros b (_ & _ & c' & [= <-] & Hb)%Hdel. congruence.
    + done.
    + intros Hq c0 Hs [Ha _]. by apply Hs1.
  - apply post_failed.
    + intros b (_ & _ & c' & [= <-] & Hb)%Hdel. congruence.
    + done.
    + intros Hq c0 Hs [Ha Ha']. cbn. apply evict_keeps; [|done]. by apply Hs1.
Qed.
End h3_exchange.

Lemma conn_exchange_spec u net req pkt : (0 < cu_permits u)%Z ->
  prepare_query (req_packet req) (cu_ecs_mode u) (wire_id u net) = Ret (Ok pkt) ->
  exists u' r, conn_exchange u net req = Ret (u', r) /\ exchange_post u net req pkt u' r.
Proof. destruct net; [apply doq_exchange_spec|apply doh_exchange_spec|apply h3_exchange_spec]. Qed.

End exchange.

(** ** The slot, shared *)

(** Connections are numbered in the order they are opened; [sw_live] are those that work.
    Both operations of the slot hold its lock throughout, connecting included, so each is
    one step.  [probe] is whether getting a connection asks if it is alive (DoQ, HTTP/3) or
    takes it as it is (DoH). *)
Record slot_world := mkSlotWorld { sw_slot : option nat; sw_live : gset nat; sw_opened : nat }.

Inductive slot_step (probe : bool) : slot_world -> slot_world -> Prop :=
| slot_get w slot' c :
    get_or_connect (sw_slot w) (fun c => negb probe || bool_decide (c ∈ sw_live w)) (Ok (sw_opened w)) = (slot', Ok c) ->
    slot_step probe w (if decide (c = sw_opened w) then mkSlotWorld slot' (sw_live w ∪ {[c]}) (S (sw_opened w))
                       else mkSlotWorld slot' (sw_live w) (sw_opened w))
| slot_get_failed e w slot' r :
    get_or_connect (sw_slot w) (fun c => negb probe || bool_decide (c ∈ sw_live w)) (Err e) = (slot', r) ->
    slot_step probe w (mkSlotWorld slot' (sw_live w) (sw_opened w))
| slot_evict w : slot_step probe w
    (mkSlotWorld (evict_if_unhealthy (sw_slot w) (fun c => bool_decide (c ∈ sw_live w))) (sw_live w) (sw_opened w))
| slot_dies c w : slot_step probe w (mkSlotWorld (sw_slot w) (sw_live w ∖ {[c]}) (sw_opened w)).

Record slot_inv (w : slot_world) : Prop := mkSlotInv {
  si_live : forall c, c ∈ sw_live w -> sw_slot w = Some c;
  si_bound : forall c, sw_slot w = Some c -> c < sw_opened w
}.

Lemma slot_step_inv probe w w' : slot_step probe w w' -> slot_inv w -> slot_inv w'.
Proof.
  destruct 1 as [w slot' c Hg|e w slot' r Hg|w|c w]; intros [Hl Hb].
  - unfold get_or_connect in Hg. destruct (sw_slot w) as [c0|] eqn:Hs; [destruct (negb probe || _) eqn:Hh|].
    + injection Hg as <- <-. pose proof (Hb c0 eq_refl). rewrite decide_False by lia. by constructor.
    + injection Hg as <- <-. rewrite decide_True by done. apply orb_false_iff in Hh as [_ Hh%bool_decide_eq_false].
      constructor; cbn; [|intros ? [= <-]; lia]. intros c [Hc|Hc%elem_of_singleton]%elem_of_union; [|by rewrite Hc].
      pose proof (Hl c Hc). congruence.
    + injection Hg as <- <-. rewrite decide_True by done. constructor; cbn; [|intros ? [= <-]; lia].
      intros c [Hc|Hc%elem_of_singleton]%elem_of_union; [|by rewrite Hc]. by specialize (Hl c Hc).
  - unfold get_or_connect in Hg. assert (slot' = sw_slot w) as -> by (repeat case_match; congruence). by constructor.
  - constructor; cbn.
    + intros c Hc. apply evict_keeps; [by apply Hl|]. by apply bool_decide_eq_true.
    + intros c. unfold evict_if_unhealthy. destruct (sw_slot w) as [c0|]; [|done]. case_match; [done|]. apply Hb.
  - constructor; cbn; [|done]. intros c' Hc'. apply Hl. set_solver.
Qed.

(** No live connection is orphaned: in every interleaving of queries, evictions and
    connections dying, the only connection that can be alive is the one in the slot, and
    neither getting a connection nor evicting one takes a live one out of it. *)
Theorem conn_slot_safe probe w : rtc (slot_step probe) (mkSlotWorld None ∅ 0) w ->
  (forall c, c ∈ sw_live w -> sw_slot w = Some c) /\
  forall w' c, slot_step probe w w' -> c ∈ sw_live w -> c ∈ sw_live w' -> sw_slot w' = Some c.
Proof.
  intros Hr. assert (Hinv : slot_inv w).
  { assert (H : forall a b, rtc (slot_step probe) a b -> slot_inv a -> slot_inv b) by (induction 1; eauto using slot_step_inv).
    apply (H _ _ Hr). by constructor. }
  split; [apply Hinv|]. intros w' c Hs _ Hc'. by eapply si_live, Hc'; eapply slot_step_inv.
Qed.

(** A stream whose answer starts with a framed message of legal size gives that message,
    and the server is sent the query framed the same way. *)
Lemma doq_stream_framed io pkt body tail : qs_elapsed io = false -> qs_opens io = true -> qs_writes io = true ->
  (Z.of_nat (length pkt) <= 65535)%Z -> qs_answer io (frame pkt) = frame body ++ tail ->
  12 <= length body -> (Z.of_nat (length body) <= 65535)%Z -> doq_stream io pkt = Ret (Ok body).
Proof.
  intros He Ho Hw Hp Ha Hl Hu. unfold doq_stream. rewrite He, Ho, Hw. cbn [negb]. rewrite decide_False by lia.
  assert (Hf : to_be 2 (Z.of_nat (length pkt)) ++ pkt = frame pkt) by (unfold frame, push_framed, wrap; by rewrite Z.mod_small by lia).
  rewrite Hf, Ha. unfold frame, push_framed. cbn [app].
  assert (Hwl : wrap 16 (Z.of_nat (length body)) = Z.of_nat (length body)) by (apply Z.mod_small; lia). rewrite Hwl.
  pose proof (be16_app [] (Z.of_nat (length body)) (body ++ tail)) as Hb. cbn [app length] in Hb.
  rewrite decide_False by len. rewrite <- app_assoc, u16_at_be16, Hb by (len || (unfold u_ok; lia)). cbn [obind]. rewrite Nat2Z.id.
  rewrite decide_False by lia. rewrite drop_app_length' by done. rewrite decide_False by len. by rewrite take_app_length.
Qed.

(** ** A query over DoH after the connection died *)

Module TransportDemo.
Definition upstream : ConnUpstream (C := nat) := mkConn EcsStrip 7 4 (Some 0).
Definition reply (pkt : list Z) : list Z := take 2 pkt ++ drop 2 mux_demo_reply.
(** Connection 0 is dead, connecting gives connection 1; the answer comes in two frames. *)
Definition net : doh_net (C := nat) := mkDohNet (Ok 9) (fun c => bool_decide (c = 1)) (fun u => u) (fun c => bool_decide (c = 1)) (fun u => u) (Ok 1)
  (fun c => bool_decide (c = 1)) (fun _ => true) (fun _ => true)
  (fun c pkt => Some (mkResponse 200 [Some (take 5 (reply pkt)); Some (drop 5 (reply pkt))])) (fun u => u) None.


(** The dead connection was replaced and the client has its answer. *)
Example doh_reconnects :
  match conn_exchange upstream (NetDoh net true) mux_demo_request with
  | Ret (u', Ok out) => bool_decide (cu_slot u' = Some 1) && bool_decide (out = to_be 2 0x1234 ++ drop 2 mux_demo_reply)
  | _ => false
  end = true.
Proof. by vm_compute. Qed.

(** HTTP/3 accepts a body of any size; DoH refuses more than 65,535 bytes.  The response
    is then one no DNS message can be: it fits neither TCP framing nor UDP. *)
Definition big_net (n : nat) : h3_net (C := nat) := mkH3Net (fun _ => true) (Ok 0) (fun _ => true)
  (fun c pkt => Some (mkResponse 200 [Some (reply pkt); Some (replicate n 0%Z)])) false (fun u => u) (fun _ => true).

Lemma accepts_padded p uid q qe n : bytes_ok p -> accepts p uid q -> question_end p = Ret (Some qe) -> accepts (p ++ replicate n 0%Z) uid q.
Proof.
  intros Hb (Hl & Hqr & Hid & qe' & Hqe' & Hm) Hqe. pose proof (question_end_bounds _ _ Hqe).
  assert (qe' = qe) as -> by congruence.
  assert (Hbz : bytes_ok (replicate n 0%Z)) by (apply Forall_replicate; unfold u_ok; lia).
  split; [len|]. split; [|split].
  - unfold nthb in *. by rewrite app_nth1 by lia.
  - rewrite be16_app_l by lia. done.
  - exists qe. split.
    + apply (question_end_local p); [done|by apply Forall_app|done|len|]. intros j Hj. by apply lookup_app_l; lia.
    + rewrite (question_bytes_local p); [done|lia|len|]. intros j Hj. apply lookup_app_l. lia.
Qed.

Lemma h3_response_unbounded n :
  exists u' out, h3_exchange upstream (big_net n) true mux_demo_request = Ret (u', Ok out) /\ n <= length out.
Proof.
  destruct (prepare_query (req_packet mux_demo_request) EcsStrip (mix16 7)) as [[pkt|]| |] eqn:Hp; [|by vm_compute in Hp..].
  destruct (h3_exchange_spec upstream (big_net n) true mux_demo_request pkt) as (u' & r & He & [Ha _ _]); [done|exact Hp|].
  set (body := reply pkt ++ replicate n 0%Z).
  assert (Hr : r = Ok (to_be 2 0x1234 ++ drop 2 body)).
  { apply Ha. exists body. split_and!; [| |done].
    - split; [done|]. split; [done|]. exists 0. split; [done|]. split; [done|]. exists [reply pkt; replicate n 0%Z]. split; [done|].
      cbn. by rewrite app_nil_r.
    - vm_compute in Hp. injection Hp as <-. apply (accepts_padded _ _ _ 22).
      + apply bytes_check. by vm_compute.
      + split_and!; [vm_compute; lia|by vm_compute|by vm_compute|]. exists 22. split; by vm_compute.
      + by vm_compute. }
  exists u', (to_be 2 0x1234 ++ drop 2 body). rewrite <- Hr. split; [exact He|]. unfold body, reply. len.
Qed.
End TransportDemo.
