(* ===== verification/UdpSend.v ===== *)
(** * Sending UDP responses (src/src/udp_send.rs; flush_sends of src/src/udp_uring.rs;
    SendMmsgBatch of src/src/sys.rs)

    Responses leave in batches; what the kernel does not take waits in a bounded queue,
    and what the queue cannot hold or the kernel refuses is dropped and counted.  The
    kernel is an argument: the result of its [i]-th [sendmmsg] call for the messages
    offered.  Retries after an interrupted call are part of that call. *)

From S2P Require Import Prelude.

Definition MAX_BATCH : nat := 64.
Definition BATCH_SIZE : nat := 32.
Definition PENDING_SEND_CAP : nat := 256.

(** [io::Result<usize>] of a non-blocking send. *)
Inductive send_result := Sent (n : nat) | WouldBlock | SendFailed.

#[export] Instance sent_inj : Inj (=) (=) Sent.
Proof. congruence. Qed.

Record SendCounters := mkSendCounters { udp_send_errors : Z; udp_send_drops : Z }.

Definition add_errors (c : SendCounters) (n : nat) : SendCounters :=
  mkSendCounters (wrap 64 (udp_send_errors c + Z.of_nat n)) (udp_send_drops c).

Definition add_drops (c : SendCounters) (n : nat) : SendCounters :=
  mkSendCounters (udp_send_errors c) (wrap 64 (udp_send_drops c + Z.of_nat n)).

Definition record_send_failure (c : SendCounters) : SendCounters := add_drops (add_errors c 1) 1.

Definition pending_send_batch_len (pending_len active_batch_size capacity : nat) : nat :=
  Nat.min (Nat.min pending_len active_batch_size) capacity.

Section send.
(** A message with its destination. *)
Context {T : Type}.
Context (sendmmsg : nat -> list T -> send_result).
(** The capacity of the batch buffers, and the batch size in use. *)
Context (capacity active_batch_size : nat).

(** [SendMmsgBatch::send] *)
Definition batch_send (i : nat) (items : list T) : send_result :=
  if decide (capacity < length items) then SendFailed
  else if decide (items = []%list) then Sent 0
  else sendmmsg i items.

(** [SendMmsgBatch::send_connected]: what does not fit is left to the next call. *)
Definition batch_send_connected (i : nat) (items : list T) : send_result :=
  if decide (take capacity items = []%list) then Sent 0 else sendmmsg i (take capacity items).

Definition try_send_items (i : nat) (items : list T) : send_result :=
  if decide (items = []%list) then Sent 0 else batch_send i items.

(** What became of a message: handed to the kernel or given up. *)
Definition accepted (l : list T) : list (T * bool) := (fun x => (x, true)) <$> l.
Definition given_up (l : list T) : list (T * bool) := (fun x => (x, false)) <$> l.

(** [drain_pending_sends]: the number of calls made so far, the log, the queue and the
    counters afterwards. *)
Fixpoint drain_pending_sends (fuel i : nat) (pending : list T) (c : SendCounters) : outcome (nat * list (T * bool) * list T * SendCounters) :=
  match pending with
  | [] => Ret (i, [], [], c)
  | first :: rest =>
      match fuel with
      | O => OutOfFuel
      | S fuel' =>
          let n := pending_send_batch_len (length pending) active_batch_size capacity in
          match batch_send i (take n pending) with
          | Sent sent =>
              let l := accepted (take sent pending) in
              if decide (sent < n) then Ret (S i, l, drop sent pending, c)
              else let! (i', l', pending', c') := drain_pending_sends fuel' (S i) (drop sent pending) c in Ret (i', l ++ l', pending', c')
          | WouldBlock => Ret (S i, [], pending, c)
          | SendFailed =>
              let! (i', l', pending', c') := drain_pending_sends fuel' (S i) rest (record_send_failure c) in
              Ret (i', given_up [first] ++ l', pending', c')
          end
      end
  end.

(** [flush_sends] *)
Fixpoint flush_sends (fuel i : nat) (send_items pending : list T) (c : SendCounters) : outcome (nat * list (T * bool) * list T * SendCounters) :=
  match send_items with
  | [] => Ret (i, [], pending, c)
  | _ =>
      match fuel with
      | O => OutOfFuel
      | S fuel' =>
          let chunk := take active_batch_size send_items in
          let '(sent, c) :=
            match try_send_items i chunk with
            | Sent sent => (sent, c)
            | WouldBlock => (0, c)
            | SendFailed => (0, add_errors c 1)
            end in
          if decide (sent < length chunk) then
            let unsent := drop sent send_items in
            let space := PENDING_SEND_CAP - length pending in
            let to_queue := Nat.min (length unsent) space in
            let drop_count := length unsent - to_queue in
            let c := if decide (0 < drop_count) then add_drops c drop_count else c in
            Ret (S i, accepted (take sent send_items) ++ given_up (drop to_queue unsent), pending ++ take to_queue unsent, c)
          else
            let! (i', l', pending', c') := flush_sends fuel' (S i) (drop (length chunk) send_items) pending c in
            Ret (i', accepted chunk ++ l', pending', c')
      end
  end.

(** The sending half of one turn of [serve_udp_uring] that had [send_items] to send. *)
Definition send_turn (i : nat) (send_items pending : list T) (c : SendCounters) : outcome (nat * list (T * bool) * list T * SendCounters) :=
  let! (i, l, pending, c) := flush_sends (length send_items) i send_items pending c in
  let! (i, l', pending, c) := drain_pending_sends (length pending) i pending c in
  Ret (i, l ++ l', pending, c).

(** ** The flusher of slow replies and of upstream queries *)

(** The inner loop of [run_send_flush_loop] from [off] on: [send_chunk] gives the number of
    messages taken once the socket was writable, or [None] for an error.  The log, and what
    [on_drop] was told. *)
Fixpoint flush_staged (fuel i : nat) (send_chunk : nat -> list T -> option nat) (staged : list T) : outcome (nat * list (T * bool) * nat) :=
  match staged with
  | [] => Ret (i, [], 0)
  | _ =>
      match fuel with
      | O => OutOfFuel
      | S fuel' =>
          match send_chunk i staged with
          | Some 0 => Ret (S i, given_up staged, 0)
          | Some n => let! (i', l', d) := flush_staged fuel' (S i) send_chunk (drop n staged) in Ret (i', accepted (take n staged) ++ l', d)
          | None => Ret (S i, given_up staged, length staged)
          end
      end
  end.

(** [run_send_flush_loop] until the queue is empty; [ready] is how many more messages
    [try_recv] finds after the first. *)
Fixpoint run_send_flush_loop (fuel i batch_size : nat) (ready : nat -> nat) (send_chunk : nat -> list T -> option nat) (queue : list T)
  : outcome (list (T * bool) * nat) :=
  match queue with
  | [] => Ret ([], 0)
  | first :: rest =>
      match fuel with
      | O => OutOfFuel
      | S fuel' =>
          let more := Nat.min (ready i) (batch_size - 1) in
          let staging := first :: take more rest in
          let! (i', l, d) := flush_staged (length staging) i send_chunk staging in
          let! (l', d') := run_send_flush_loop fuel' i' batch_size ready send_chunk (drop more rest) in
          Ret (l ++ l', d + d')
      end
  end.
End send.

(** ** Accounting *)

Section accounting.
Context {T : Type} (sendmmsg : nat -> list T -> send_result) (capacity batch : nat).
Hypothesis batch_pos : 0 < batch.
Hypothesis batch_fits : batch <= capacity.
(** sendmmsg(2): no more messages are taken than were offered. *)
Hypothesis sendmmsg_ok : forall i items n, sendmmsg i items = Sent n -> n <= length items.

Definition lost (l : list (T * bool)) : list T := omap (fun x => if x.2 : bool then None else Some x.1) l.
Definition on_wire (l : list (T * bool)) : list T := omap (fun x => if x.2 : bool then Some x.1 else None) l.

Lemma lost_app (l l' : list (T * bool)) : lost (l ++ l') = lost l ++ lost l'.
Proof. unfold lost. apply omap_app. Qed.

Lemma on_wire_app (l l' : list (T * bool)) : on_wire (l ++ l') = on_wire l ++ on_wire l'.
Proof. unfold on_wire. apply omap_app. Qed.

Lemma accepted_fst (l : list T) : (accepted l).*1 = l.
Proof. unfold accepted. rewrite <- list_fmap_compose. apply list_fmap_id. Qed.

Lemma given_up_fst (l : list T) : (given_up l).*1 = l.
Proof. unfold given_up. rewrite <- list_fmap_compose. apply list_fmap_id. Qed.

Lemma lost_accepted (l : list T) : lost (accepted l) = [].
Proof. by induction l. Qed.

Lemma lost_given_up (l : list T) : lost (given_up l) = l.
Proof. induction l as [|x l IH]; [done|]. change (x :: lost (given_up l) = x :: l). by rewrite IH. Qed.

Lemma on_wire_accepted (l : list T) : on_wire (accepted l) = l.
Proof. induction l as [|x l IH]; [done|]. change (x :: on_wire (accepted l) = x :: l). by rewrite IH. Qed.

Lemma on_wire_given_up (l : list T) : on_wire (given_up l) = [].
Proof. by induction l. Qed.

Lemma log_split (l : list (T * bool)) : l.*1 ≡ₚ on_wire l ++ lost l.
Proof.
  induction l as [|[x b] l IH]; [done|]. cbn [fmap list_fmap fst]. rewrite IH. destruct b; [done|].
  change (x :: on_wire l ++ lost l ≡ₚ on_wire l ++ x :: lost l). by rewrite <- Permutation_middle.
Qed.

Lemma wrap64_ok z : u_ok 64 (wrap 64 z).
Proof. unfold u_ok, wrap. apply Z.mod_pos_bound. lia. Qed.

Lemma batch_send_ok i items n : batch_send sendmmsg capacity i items = Sent n -> n <= length items.
Proof. unfold batch_send. repeat case_decide; [done|intros [= <-]; lia|apply sendmmsg_ok]. Qed.

(** What became of the messages taken from the front of a queue, and the drop count. *)
Definition drop_count (c : SendCounters) (n : nat) : Z := wrap 64 (udp_send_drops c + Z.of_nat n).

Lemma drop_count_0 c : u_ok 64 (udp_send_drops c) -> drop_count c 0 = udp_send_drops c.
Proof. intros Hu. unfold drop_count, wrap. rewrite Z.add_0_r. apply Z.mod_small, Hu. Qed.

Lemma drop_count_app c c' n m : udp_send_drops c' = drop_count c n -> drop_count c' m = drop_count c (n + m).
Proof.
  unfold drop_count, wrap. intros ->. rewrite Z.add_mod_idemp_l by lia. f_equal. lia.
Qed.

Definition taken_ok (queue : list T) (c : SendCounters) (l : list (T * bool)) (queue' : list T) (c' : SendCounters) : Prop :=
  queue = l.*1 ++ queue' /\ udp_send_drops c' = drop_count c (length (lost l)) /\ u_ok 64 (udp_send_drops c').

Lemma drain_spec fuel i pending c : length pending <= fuel -> u_ok 64 (udp_send_drops c) ->
  exists i' l pending' c', drain_pending_sends sendmmsg capacity batch fuel i pending c = Ret (i', l, pending', c') /\
    taken_ok pending c l pending' c'.
Proof.
  revert i pending c. induction fuel as [|fuel IH]; intros i [|first rest] c Hf Hu; cbn [length] in Hf; try lia.
  1,2: eexists _, _, _, _; split; [done|]; split; [done|]; cbn; rewrite drop_count_0 by done; done.
  cbn [drain_pending_sends]. set (pending := first :: rest). set (n := pending_send_batch_len _ _ _).
  assert (Hn : 0 < n <= length pending) by (unfold n, pending_send_batch_len, pending; cbn [length]; lia).
  destruct (batch_send sendmmsg capacity i (take n pending)) as [sent| |] eqn:Hs.
  - apply batch_send_ok in Hs. rewrite length_take in Hs. case_decide as Hlt.
    + eexists _, _, _, _. split; [done|]. split; [by rewrite accepted_fst, take_drop|]. rewrite lost_accepted. cbn.
      rewrite drop_count_0 by done. done.
    + destruct (IH (S i) (drop sent pending) c) as (i' & l' & p' & c' & -> & He & Hd & Hu'); [rewrite length_drop; unfold pending in *; cbn [length] in *; lia|done|].
      cbn [obind]. eexists _, _, _, _. split; [done|]. split; [|by rewrite lost_app, lost_accepted].
      rewrite fmap_app, accepted_fst, <- app_assoc, <- He. by rewrite take_drop.
  - eexists _, _, _, _. split; [done|]. split; [done|]. cbn. rewrite drop_count_0 by done. done.
  - destruct (IH (S i) rest (record_send_failure c)) as (i' & l' & p' & c' & -> & He & Hd & Hu'); [lia|apply wrap64_ok|].
    cbn [obind]. eexists _, _, _, _. split; [done|]. split; [by rewrite fmap_app, given_up_fst, <- app_assoc, <- He|].
    split; [|done]. rewrite lost_app, lost_given_up, length_app, Hd. apply drop_count_app. done.
Qed.

(** The responses of one turn: a prefix is sent, the next are queued as far as there is
    room, the rest is dropped. *)
Lemma flush_spec fuel i items pending c : length items <= fuel -> length pending <= PENDING_SEND_CAP -> u_ok 64 (udp_send_drops c) ->
  exists i' wire queued dropped c', flush_sends sendmmsg capacity batch fuel i items pending c
      = Ret (i', accepted wire ++ given_up dropped, pending ++ queued, c') /\
    items = wire ++ queued ++ dropped /\ length (pending ++ queued) <= PENDING_SEND_CAP /\
    (dropped <> [] -> length (pending ++ queued) = PENDING_SEND_CAP) /\
    udp_send_drops c' = drop_count c (length dropped) /\ u_ok 64 (udp_send_drops c').
Proof.
  revert i items c. induction fuel as [|fuel IH]; intros i [|first rest] c Hf Hp Hu; cbn [length] in Hf; try lia.
  1,2: exists i, [], [], [], c; rewrite !app_nil_r; do 4 (split; [done|]); cbn [length]; rewrite drop_count_0; done.
  cbn [flush_sends]. set (items := first :: rest). set (chunk := take batch items).
  assert (Hc : 0 < length chunk <= length items) by (unfold chunk; rewrite length_take; unfold items; cbn [length]; lia).
  set (r := try_send_items _ _ i chunk).
  assert (Hr : forall n, r = Sent n -> n <= length chunk).
  { intros n. unfold r, try_send_items. case_decide; [intros [= <-]; lia|apply batch_send_ok]. }
  set (sc := match r with Sent sent => (sent, c) | WouldBlock => (0, c) | SendFailed => (0, add_errors c 1) end).
  assert (Hsc : fst sc <= length chunk /\ udp_send_drops (snd sc) = udp_send_drops c) by (unfold sc; destruct r; cbn; split; auto with lia).
  destruct sc as [sent c1]. cbn [fst snd] in Hsc. destruct Hsc as [Hle Hd1]. case_decide as Hlt.
  - set (unsent := drop sent items). set (q := Nat.min _ _).
    exists (S i), (take sent items), (take q unsent), (drop q unsent), (if decide (0 < length unsent - q) then add_drops c1 (length unsent - q) else c1).
    assert (Hq : q <= length unsent /\ length pending + q <= PENDING_SEND_CAP) by (unfold q; lia).
    split; [done|]. split; [rewrite take_drop; unfold unsent; by rewrite take_drop|]. rewrite length_app, length_take, length_drop. split; [lia|]. split.
    + intros Hne. assert (q <> length unsent) by (intros He; apply Hne; by rewrite He, drop_all). unfold q in *. lia.
    + case_decide as H0; cbn [add_drops udp_send_drops]; rewrite Hd1.
      * split; [done|apply wrap64_ok].
      * replace (length unsent - q) with 0 by lia. by rewrite drop_count_0.
  - assert (sent = length chunk) as -> by lia.
    destruct (IH (S i) (drop (length chunk) items) c1) as (i' & wire & queued & dropped & c' & -> & He & Hl & Hfull & Hd & Hu').
    { rewrite length_drop. unfold items in *. cbn [length] in *. lia. } { done. } { by rewrite Hd1. }
    cbn [obind]. exists i', (chunk ++ wire), queued, dropped, c'. split.
    { unfold accepted. by rewrite fmap_app, <- app_assoc. }
    split; [|split_and!; [done..| |done]].
    + rewrite <- app_assoc, <- He. assert (chunk = take (length chunk) items) as Hck.
      { unfold chunk. rewrite length_take. destruct (decide (batch <= length items)); [by rewrite Nat.min_l|].
        rewrite Nat.min_r, !take_ge by lia. done. }
      rewrite Hck at 1. by rewrite take_drop.
    + rewrite Hd. unfold drop_count. by rewrite Hd1.
Qed.

Lemma perm_merge (a b c d e : list T) : a ++ b ++ (c ++ d) ++ e ≡ₚ (a ++ c) ++ (b ++ d) ++ e.
Proof. rewrite <- !app_assoc. f_equiv. rewrite !app_assoc. do 2 f_equiv. apply Permutation_app_comm. Qed.

(** One turn: what waited and what is new is handed over, given up and counted, or waits. *)
Lemma send_turn_spec i items pending c : length pending <= PENDING_SEND_CAP -> u_ok 64 (udp_send_drops c) ->
  exists i' l pending' c', send_turn sendmmsg capacity batch i items pending c = Ret (i', l, pending', c') /\
    pending ++ items ≡ₚ on_wire l ++ lost l ++ pending' /\ udp_send_drops c' = drop_count c (length (lost l)) /\
    u_ok 64 (udp_send_drops c') /\ length pending' <= PENDING_SEND_CAP.
Proof.
  intros Hp Hu. unfold send_turn.
  destruct (flush_spec (length items) i items pending c) as (i1 & wire & queued & dropped & c1 & -> & Hi & Hcap & _ & Hd & Hu1); [lia|done|done|].
  cbn [obind]. destruct (drain_spec (length (pending ++ queued)) i1 (pending ++ queued) c1) as (i2 & l2 & p2 & c2 & -> & Hq & Hd2 & Hu2); [lia|done|].
  cbn [obind]. eexists _, _, _, _. split; [done|]. set (l1 := accepted wire ++ given_up dropped).
  assert (Hl1 : on_wire l1 = wire /\ lost l1 = dropped).
  { unfold l1. by rewrite on_wire_app, lost_app, lost_accepted, lost_given_up, on_wire_accepted, on_wire_given_up, app_nil_r. }
  destruct Hl1 as [H1 H2]. rewrite on_wire_app, lost_app, H1, H2. split_and!; [| |done|rewrite Hq, length_app in Hcap; lia].
  - rewrite <- perm_merge, <- app_assoc, Hi. rewrite app_assoc, (Permutation_app_comm pending), <- !app_assoc. apply Permutation_app_head.
    rewrite (app_assoc pending), Hq, log_split, (Permutation_app_comm _ dropped), <- !app_assoc. done.
  - rewrite Hd2, length_app. by apply drop_count_app.
Qed.

(** ** A shard's sending, turn after turn *)

Record SendWorld := mkSendWorld {
  produced : list T; sw_log : list (T * bool); sw_pending : list T; sw_counters : SendCounters; sw_calls : nat
}.

Inductive send_step : SendWorld -> SendWorld -> Prop :=
(* a turn with responses to send *)
| turn_responses items w i l pending c :
    send_turn sendmmsg capacity batch (sw_calls w) items (sw_pending w) (sw_counters w) = Ret (i, l, pending, c) ->
    send_step w (mkSendWorld (produced w ++ items) (sw_log w ++ l) pending c i)
(* the socket became writable *)
| turn_writable w i l pending c :
    drain_pending_sends sendmmsg capacity batch (length (sw_pending w)) (sw_calls w) (sw_pending w) (sw_counters w) = Ret (i, l, pending, c) ->
    send_step w (mkSendWorld (produced w) (sw_log w ++ l) pending c i).

Definition send_start : SendWorld := mkSendWorld [] [] [] (mkSendCounters 0 0) 0.

Record send_inv (w : SendWorld) : Prop := mkSendInv {
  sinv_all : produced w ≡ₚ on_wire (sw_log w) ++ lost (sw_log w) ++ sw_pending w;
  sinv_drops : udp_send_drops (sw_counters w) = wrap 64 (Z.of_nat (length (lost (sw_log w))));
  sinv_cap : length (sw_pending w) <= PENDING_SEND_CAP
}.

Lemma send_inv_u_ok w : send_inv w -> u_ok 64 (udp_send_drops (sw_counters w)).
Proof. intros [_ -> _]. apply wrap64_ok. Qed.

Lemma send_drain_inv w i l pending c calls : send_inv w ->
  drain_pending_sends sendmmsg capacity batch (length (sw_pending w)) calls (sw_pending w) (sw_counters w) = Ret (i, l, pending, c) ->
  send_inv (mkSendWorld (produced w) (sw_log w ++ l) pending c i).
Proof.
  intros Hinv He. destruct (drain_spec (length (sw_pending w)) calls (sw_pending w) (sw_counters w)) as (i' & l' & p' & c' & He' & Hq & Hd & Hu);
    [lia|by apply send_inv_u_ok|]. rewrite He in He'. injection He' as <- <- <- <-. destruct Hinv as [Ha Hdr Hc].
  constructor; cbn [produced sw_log sw_pending sw_counters].
  - rewrite Ha, Hq, log_split, on_wire_app, lost_app. apply perm_merge.
  - rewrite Hd, lost_app, length_app. unfold drop_count. rewrite Hdr. unfold wrap. rewrite Z.add_mod_idemp_l by lia. f_equal. lia.
  - rewrite Hq, length_app in Hc. lia.
Qed.

Lemma send_step_inv w w' : send_step w w' -> send_inv w -> send_inv w'.
Proof.
  destruct 1 as [items w i l pending c He|w i l pending c He]; intros Hinv; [|by eapply send_drain_inv].
  destruct (send_turn_spec (sw_calls w) items (sw_pending w) (sw_counters w)) as (i' & l' & p' & c' & He' & Hq & Hd & _ & Hc);
    [apply Hinv|by apply send_inv_u_ok|]. rewrite He in He'. injection He' as <- <- <- <-. destruct Hinv as [Ha Hdr _].
  constructor; cbn [produced sw_log sw_pending sw_counters]; [| |done].
  - rewrite Ha, on_wire_app, lost_app, <- perm_merge, <- !app_assoc. do 2 apply Permutation_app_head. by rewrite Hq.
  - rewrite Hd, lost_app, length_app. unfold drop_count. rewrite Hdr. unfold wrap. rewrite Z.add_mod_idemp_l by lia. f_equal. lia.
Qed.

(** Every turn ends: the calls are bounded by the messages there are to send. *)
Lemma send_turn_returns w items : send_inv w ->
  exists r, send_turn sendmmsg capacity batch (sw_calls w) items (sw_pending w) (sw_counters w) = Ret r.
Proof.
  intros Hinv. destruct (send_turn_spec (sw_calls w) items (sw_pending w) (sw_counters w)) as (i' & l' & p' & c' & He' & _);
    [apply Hinv|by apply send_inv_u_ok|]. by eexists.
Qed.

(** The sending side of a UDP shard loses nothing silently.  In every state its turns
    can reach, whatever the kernel answers: each response produced was handed to the
    kernel, waits in the queue, or was given up, exactly once each; the number given up is
    the drop counter (at 64 bits), and the queue holds at most [PENDING_SEND_CAP].  Every
    turn ends. *)
Theorem udp_send_accounts w : rtc send_step send_start w ->
  produced w ≡ₚ on_wire (sw_log w) ++ lost (sw_log w) ++ sw_pending w /\
  udp_send_drops (sw_counters w) = wrap 64 (Z.of_nat (length (lost (sw_log w)))) /\
  length (sw_pending w) <= PENDING_SEND_CAP /\
  forall items, exists r, send_turn sendmmsg capacity batch (sw_calls w) items (sw_pending w) (sw_counters w) = Ret r.
Proof.
  intros Hr. assert (Hinv : send_inv w).
  { assert (H : forall a b, rtc send_step a b -> send_inv a -> send_inv b) by (induction 1; eauto using send_step_inv).
    apply (H _ _ Hr). constructor; [done|done|cbn; lia]. }
  split_and!; [apply Hinv..|]. intros items. by apply send_turn_returns.
Qed.
End accounting.

(** ** The flusher *)

Section flusher.
Context {T : Type} (send_chunk : nat -> list T -> option nat).
Hypothesis chunk_ok : forall i items n, send_chunk i items = Some n -> n <= length items.

Lemma flush_staged_spec fuel i staged : length staged <= fuel ->
  exists i' l d, flush_staged fuel i send_chunk staged = Ret (i', l, d) /\ l.*1 = staged /\
    ((forall j items, send_chunk j items <> Some 0) -> d = length (lost l)).
Proof.
  revert i staged. induction fuel as [|fuel IH]; intros i [|x staged] Hf; cbn [length] in Hf; try lia.
  1,2: by exists i, [], 0.
  cbn [flush_staged]. set (all := x :: staged). destruct (send_chunk i all) as [n|] eqn:Hs.
  - destruct n as [|n].
    + exists (S i), (given_up all), 0. split; [done|]. split; [apply given_up_fst|]. intros H. by destruct (H i all).
    + destruct (IH (S i) (drop (S n) all)) as (i' & l & d & -> & Hl & Hd).
      { rewrite length_drop. unfold all. cbn [length]. lia. }
      cbn [obind]. eexists _, _, _. split; [done|]. split; [by rewrite fmap_app, accepted_fst, Hl, take_drop|].
      intros H0. rewrite lost_app, lost_accepted. by apply Hd.
  - exists (S i), (given_up all), (length all). split; [done|]. split; [apply given_up_fst|]. intros _. by rewrite lost_given_up.
Qed.

(** The flusher takes every queued message in order and ends when the queue does; as long
    as a writable socket takes at least one message, [on_drop] is told of every one that is
    given up. *)
Lemma run_send_flush_loop_spec fuel i batch_size ready queue : length queue <= fuel ->
  exists l d, run_send_flush_loop fuel i batch_size ready send_chunk queue = Ret (l, d) /\ l.*1 = queue /\
    ((forall j items, send_chunk j items <> Some 0) -> d = length (lost l)).
Proof.
  revert i queue. induction fuel as [|fuel IH]; intros i [|x queue] Hf; cbn [length] in Hf; try lia.
  1,2: by exists [], 0.
  cbn [run_send_flush_loop]. set (more := Nat.min _ _).
  destruct (flush_staged_spec (length (x :: take more queue)) i (x :: take more queue)) as (i' & l & d & -> & Hl & Hd); [done|]. cbn [obind].
  destruct (IH i' (drop more queue)) as (l' & d' & -> & Hl' & Hd'); [rewrite length_drop; lia|]. cbn [obind].
  eexists _, _. split; [done|]. split; [by rewrite fmap_app, Hl, Hl', <- app_comm_cons, take_drop|].
  intros H. by rewrite lost_app, length_app, Hd, Hd'.
Qed.
End flusher.

Module SendDemo.
(** The kernel refuses its first call, takes two messages on the second and is full on
    the third. *)
Definition kernel (i : nat) (items : list nat) : send_result :=
  match i with 0 => SendFailed | 1 => SendFailed | 2 => Sent (Nat.min 2 (length items)) | _ => WouldBlock end.

Lemma kernel_send_ok i items n : kernel i items = Sent n -> n <= length items.
Proof. destruct i as [|[|[|i]]]; cbn [kernel]; [done|done| |done]. intros H. apply (inj Sent) in H. rewrite <- H. apply Nat.le_min_r. Defined.

Definition world : SendWorld := mkSendWorld [1; 2; 3; 4; 5] [(1, false); (2, true); (3, true)] [4; 5] (mkSendCounters 2 1) 4.

Lemma send_run : rtc (send_step kernel 2 2) send_start world.
Proof.
  eapply rtc_l; [|apply rtc_refl]. refine (turn_responses kernel 2 2 [1; 2; 3; 4; 5] send_start 4 _ [4; 5] _ _). by vm_compute.
Defined.

Lemma udp_send_witness : lost (sw_log world) = [1] /\ udp_send_drops (sw_counters world) = wrap 64 (Z.of_nat (length (lost (sw_log world)))).
Proof.
  split; [done|].
  refine (proj1 (proj2 (udp_send_accounts kernel 2 2 _ _ kernel_send_ok world send_run))); lia.
Defined.
End SendDemo.
