(* ===== verification/Sockets.v ===== *)
(** * Data exchanged with the kernel (src/src/sys.rs; parse_control and its helpers of
    src/src/udp_uring.rs)

    Socket addresses and control messages in the layout of 64-bit little-endian Linux:
    addresses written into a [sockaddr_storage] and read back, and the walk over the
    control area of a received datagram. *)

From S2P Require Import Prelude.

(** ** Socket addresses *)

Inductive SockAddr :=
| SockV4 (octets : list Z) (port : Z)
| SockV6 (octets : list Z) (port flowinfo scope_id : Z).

Definition AF_INET : Z := 2.
Definition AF_INET6 : Z := 10.
Definition SOCKADDR_IN_LEN : nat := 16.
Definition SOCKADDR_IN6_LEN : nat := 28.
(** [size_of::<sockaddr_storage>()] *)
Definition NAME_LEN : nat := 128.

Definition sockaddr_in_from (octets : list Z) (port : Z) : list Z := to_le 2 AF_INET ++ to_be 2 port ++ octets ++ replicate 8 0%Z.

Definition sockaddr_in6_from (octets : list Z) (port flowinfo scope_id : Z) : list Z :=
  to_le 2 AF_INET6 ++ to_be 2 port ++ to_le 4 flowinfo ++ octets ++ to_le 4 scope_id.

(** [write_sockaddr]: the storage and the length. *)
Definition write_sockaddr (peer : SockAddr) : list Z * nat :=
  match peer with
  | SockV4 octets port => (splice (replicate NAME_LEN 0%Z) 0 (sockaddr_in_from octets port), SOCKADDR_IN_LEN)
  | SockV6 octets port flowinfo scope_id =>
      (splice (replicate NAME_LEN 0%Z) 0 (sockaddr_in6_from octets port flowinfo scope_id), SOCKADDR_IN6_LEN)
  end.

(** The bytes at an offset of a fixed-size buffer. *)
Definition field (l : list Z) (off len : nat) : list Z := take len (drop off l).

Definition read_sockaddr (storage : list Z) (len : nat) : option SockAddr :=
  let family := from_le (field storage 0 2) in
  if decide (family = AF_INET /\ SOCKADDR_IN_LEN <= len) then
    Some (SockV4 (field storage 4 4) (from_be (field storage 2 2)))
  else if decide (family = AF_INET6 /\ SOCKADDR_IN6_LEN <= len) then
    Some (SockV6 (field storage 8 16) (from_be (field storage 2 2)) (from_le (field storage 4 4)) (from_le (field storage 24 4)))
  else None.

Definition read_sockaddr_bytes (bytes : list Z) : option SockAddr :=
  let len := Nat.min (length bytes) NAME_LEN in
  read_sockaddr (splice (replicate NAME_LEN 0%Z) 0 (take len bytes)) len.

Definition sockaddr_ok (a : SockAddr) : Prop :=
  match a with
  | SockV4 octets port => length octets = 4 /\ u_ok 16 port
  | SockV6 octets port flowinfo scope_id => length octets = 16 /\ u_ok 16 port /\ u_ok 32 flowinfo /\ u_ok 32 scope_id
  end.

(** The two layouts, field by field. *)
Lemma read_v4 pb oct rest n : length pb = 2 -> length oct = 4 -> SOCKADDR_IN_LEN <= n ->
  read_sockaddr (to_le 2 AF_INET ++ pb ++ oct ++ rest) n = Some (SockV4 oct (from_be pb)).
Proof.
  intros Hp Ho Hn. unfold read_sockaddr. rewrite decide_True by (split; [done|exact Hn]).
  destruct pb as [|p0 [|p1 [|]]]; [done..| |done]. destruct oct as [|o0 [|o1 [|o2 [|o3 [|]]]]]; [done..| |done]. done.
Qed.

Lemma read_v6 pb fb oct sb rest n : length pb = 2 -> length fb = 4 -> length oct = 16 -> length sb = 4 -> SOCKADDR_IN6_LEN <= n ->
  read_sockaddr (to_le 2 AF_INET6 ++ pb ++ fb ++ oct ++ sb ++ rest) n = Some (SockV6 oct (from_be pb) (from_le fb) (from_le sb)).
Proof.
  intros Hp Hf Ho Hs Hn. unfold read_sockaddr. rewrite decide_False by (intros [H _]; by vm_compute in H).
  rewrite decide_True by (split; [done|exact Hn]).
  destruct pb as [|p0 [|p1 [|]]]; [done..| |done]. destruct fb as [|f0 [|f1 [|f2 [|f3 [|]]]]]; [done..| |done].
  do 16 (destruct oct as [|? oct]; [done|]). destruct oct; [|done]. by destruct sb as [|s0 [|s1 [|s2 [|s3 [|]]]]].
Qed.

Lemma splice_0 {A} (l xs : list A) : splice l 0 xs = xs ++ drop (length xs) l.
Proof. done. Qed.

Lemma take_storage raw : take (length raw) (splice (replicate NAME_LEN 0%Z) 0 raw) = raw.
Proof. rewrite splice_0. by rewrite take_app_length. Qed.

Lemma length_storage raw : length raw <= NAME_LEN -> length (splice (replicate NAME_LEN 0%Z) 0 raw) = NAME_LEN.
Proof. intros Hl. rewrite splice_0, length_app, length_drop, length_replicate. lia. Qed.

(** The storage a prefix of it is read into, where the prefix is whole. *)
Lemma read_raw raw : length raw <= NAME_LEN ->
  read_sockaddr_bytes raw = read_sockaddr (raw ++ replicate (NAME_LEN - length raw) 0%Z) (length raw).
Proof.
  intros Hl. unfold read_sockaddr_bytes. rewrite Nat.min_l by done. rewrite take_ge by done. rewrite splice_0. by rewrite drop_replicate.
Qed.

(** Socket addresses survive the kernel's layout.  Writing an address into the zeroed
    storage and reading back the bytes its length covers gives the address, for IPv4 and
    for IPv6 with flow information and scope. *)
Theorem sockaddr_roundtrip a : sockaddr_ok a ->
  let '(storage, len) := write_sockaddr a in
  length storage = NAME_LEN /\ read_sockaddr_bytes (take len storage) = Some a.
Proof.
  destruct a as [oct port|oct port fl sc]; cbn [sockaddr_ok write_sockaddr].
  - intros [Ho Hp]. set (raw := sockaddr_in_from oct port).
    assert (Hl : length raw = SOCKADDR_IN_LEN) by (unfold raw, sockaddr_in_from, SOCKADDR_IN_LEN; len).
    assert (Hn : length raw <= NAME_LEN) by (rewrite Hl; apply Nat.leb_le; done). split; [by apply length_storage|].
    rewrite <- Hl, take_storage, read_raw by done. unfold raw at 1, sockaddr_in_from. rewrite <- !app_assoc.
    rewrite read_v4 by (len || by rewrite Hl). by rewrite from_be_to_be_small.
  - intros (Ho & Hp & Hf & Hs). set (raw := sockaddr_in6_from oct port fl sc).
    assert (Hl : length raw = SOCKADDR_IN6_LEN) by (unfold raw, sockaddr_in6_from, SOCKADDR_IN6_LEN; len).
    assert (Hn : length raw <= NAME_LEN) by (rewrite Hl; apply Nat.leb_le; done). split; [by apply length_storage|].
    rewrite <- Hl, take_storage, read_raw by done. unfold raw at 1, sockaddr_in6_from. rewrite <- !app_assoc.
    rewrite read_v6 by (len || by rewrite Hl). by rewrite from_be_to_be_small, !from_le_to_le_small.
Qed.

Lemma sockaddr_witness :
  sockaddr_ok (SockV6 (replicate 15 0%Z ++ [1]%Z) 5353 0 3) /\
  let '(storage, len) := write_sockaddr (SockV6 (replicate 15 0%Z ++ [1]%Z) 5353 0 3) in
  length storage = NAME_LEN /\ read_sockaddr_bytes (take len storage) = Some (SockV6 (replicate 15 0%Z ++ [1]%Z) 5353 0 3).
Proof.
  assert (Hok : sockaddr_ok (SockV6 (replicate 15 0%Z ++ [1]%Z) 5353 0 3)) by (by repeat split).
  split; [exact Hok|exact (sockaddr_roundtrip (SockV6 (replicate 15 0%Z ++ [1]%Z) 5353 0 3) Hok)].
Defined.

(** ** Control messages *)

Record timespec := mkTimespec { tv_sec : Z; tv_nsec : Z }.

Definition signed (w z : Z) : Z := if decide (2 ^ (w - 1) <= z)%Z then z - 2 ^ w else z.

(** [sys::read_timespec] *)
Definition read_timespec (bytes : list Z) : option timespec :=
  if decide (length bytes < 16) then None
  else Some (mkTimespec (signed 64 (from_le (field bytes 0 8))) (signed 64 (from_le (field bytes 8 8)))).

Definition SOL_SOCKET : Z := 1.
Definition SO_RXQ_OVFL : Z := 40.
Definition SCM_TIMESTAMPNS : Z := 35.
(** [align_of] and [size_of] of [cmsghdr] *)
Definition CMSG_ALIGN : Z := 8.
Definition CMSG_HDR : Z := 16.

Definition align_up (value alignment : Z) : Z :=
  let mask := sat_sub alignment 1 in
  Z.land (sat_add 64 value mask) (2 ^ 64 - 1 - mask).

Definition read_usize_ne (bytes : list Z) : option Z := from_le <$> get_slice bytes 0 8.
Definition read_c_int_ne (bytes : list Z) : option Z := (fun b => signed 32 (from_le b)) <$> get_slice bytes 0 4.

Record ControlInfo := mkControlInfo { rxq_overflow : option Z; timestamp : option timespec }.

(** The two control messages that are looked at. *)
Definition control_message (level cmsg_type : Z) (payload : list Z) (info : ControlInfo) : ControlInfo :=
  if decide (level = SOL_SOCKET) then
    if decide (cmsg_type = SO_RXQ_OVFL) then
      match get_slice payload 0 4 with
      | Some bytes => mkControlInfo (Some (from_le bytes)) (timestamp info)
      | None => info
      end
    else if decide (cmsg_type = SCM_TIMESTAMPNS) then mkControlInfo (rxq_overflow info) (read_timespec payload)
    else info
  else info.

(** The [while] of [parse_control]; the slices [&control[..]] are the checked ones. *)
Fixpoint control_loop (fuel : nat) (control : list Z) (offset : Z) (info : ControlInfo) : outcome ControlInfo :=
  match fuel with
  | O => OutOfFuel
  | S fuel' =>
      let len := Z.of_nat (length control) in
      let header_len := align_up CMSG_HDR CMSG_ALIGN in
      if decide (sat_sub len offset < header_len)%Z then Ret info
      else
        let! at_offset := slice control (Z.to_nat offset) (length control) in
        match read_usize_ne at_offset with
        | None => Ret info
        | Some cmsg_len =>
            if decide (cmsg_len < header_len)%Z then Ret info
            else
              let stop := (offset + cmsg_len)%Z in
              if decide (2 ^ 64 <= stop)%Z then Ret info
              else if decide (len < stop)%Z then Ret info
              else
                let! l := slice control (Z.to_nat (offset + 8)) (length control) in
                let! t := slice control (Z.to_nat (offset + 12)) (length control) in
                match read_c_int_ne l, read_c_int_ne t with
                | Some level, Some cmsg_type =>
                    let! payload := slice control (Z.to_nat (offset + header_len)) (Z.to_nat stop) in
                    let info := control_message level cmsg_type payload info in
                    let next := (align_up cmsg_len CMSG_ALIGN + offset)%Z in
                    if decide (2 ^ 64 <= next)%Z then Ret info
                    else if decide (next <= offset)%Z then Ret info
                    else control_loop fuel' control next info
                | _, _ => Ret info
                end
        end
  end.

Definition parse_control (control : list Z) : outcome ControlInfo :=
  control_loop (S (length control)) control 0 (mkControlInfo None None).

(** [recv_latency_us], on 128-bit integers; Rust's division truncates. *)
Definition recv_latency_us (now ts : timespec) : Z :=
  let ns := ((tv_sec now - tv_sec ts) * 1000000000 + (tv_nsec now - tv_nsec ts))%Z in
  Z.max 0 (Z.min (Z.quot ns 1000) (2 ^ 32 - 1)).

(** [socket_rmem_pct] from what SO_MEMINFO gave. *)
Definition socket_rmem_pct (info : option (list Z)) : option Z :=
  match info with
  | Some (rmem_alloc :: rcvbuf :: _) => if decide (rcvbuf = 0)%Z then None else Some (wrap 32 (rmem_alloc * 100 / rcvbuf))
  | _ => None
  end.

(** ** What the kernel writes *)

Record cmsg := mkCmsg { cm_level : Z; cm_type : Z; cm_data : list Z }.

Definition cmsg_pad (n : nat) : nat := Z.to_nat ((- Z.of_nat n) mod 8).
Definition encode_cmsg (m : cmsg) : list Z :=
  to_le 8 (16 + Z.of_nat (length (cm_data m))) ++ to_le 4 (cm_level m) ++ to_le 4 (cm_type m) ++ cm_data m ++
  replicate (cmsg_pad (length (cm_data m))) 0%Z.

(** CMSG_SPACE is also used for the last message. *)
Definition encode_control (ms : list cmsg) : list Z := concat (encode_cmsg <$> ms).

Definition cmsg_ok (m : cmsg) : Prop := bytes_ok (cm_data m) /\ (0 <= cm_level m < 2 ^ 31)%Z /\ (0 <= cm_type m < 2 ^ 31)%Z.

(** Reading the messages one after the other. *)
Definition control_fold (ms : list cmsg) : ControlInfo :=
  foldl (fun info m => control_message (cm_level m) (cm_type m) (cm_data m) info) (mkControlInfo None None) ms.

Lemma align_up_8 v : (0 <= v)%Z -> (v + 7 < 2 ^ 64)%Z -> align_up v CMSG_ALIGN = (8 * ((v + 7) / 8))%Z.
Proof.
  intros H0 Hv. unfold align_up, CMSG_ALIGN, sat_sub, sat_add. rewrite Z.max_r by lia. change (8 - 1)%Z with 7%Z.
  rewrite Z.min_r by lia. set (x := (v + 7)%Z) in *.
  change (2 ^ 64 - 1 - 7)%Z with (Z.ldiff (Z.ones 64) (Z.ones 3)).
  assert (Z.land x (Z.ldiff (Z.ones 64) (Z.ones 3)) = Z.ldiff (Z.land x (Z.ones 64)) (Z.ones 3)) as ->.
  { apply Z.bits_inj'. intros i _. rewrite Z.land_spec, !Z.ldiff_spec, Z.land_spec. by rewrite andb_assoc. }
  rewrite Z.land_ones, Z.mod_small, Z.ldiff_ones_r by lia. rewrite Z.shiftl_mul_pow2, Z.shiftr_div_pow2 by lia.
  change (2 ^ 3)%Z with 8%Z. lia.
Qed.

Lemma header_len : align_up CMSG_HDR CMSG_ALIGN = 16%Z.
Proof. done. Qed.

(** Whatever bytes the control area holds, the walk ends and no slice is out of range. *)
Lemma control_loop_returns fuel control offset info : (Z.of_nat (length control) < 2 ^ 63)%Z -> (0 <= offset)%Z ->
  (Z.of_nat (length control) - offset < Z.of_nat fuel)%Z -> bytes_ok control -> 0 < fuel ->
  exists r, control_loop fuel control offset info = Ret r.
Proof.
  intros Hlen. revert offset info. induction fuel as [|fuel IH]; intros offset info H0 Hf Hb Hp; [lia|]. cbn [control_loop]. rewrite header_len.
  case_decide as Hs; [by eexists|]. unfold sat_sub in Hs. rewrite slice_Ret by lia. cbn [obind].
  destruct (read_usize_ne _) as [cl|] eqn:Hcl; [|by eexists]. case_decide; [by eexists|]. case_decide; [by eexists|]. case_decide; [by eexists|].
  rewrite !slice_Ret by lia. cbn [obind]. destruct (read_c_int_ne _); [|by eexists]. destruct (read_c_int_ne _); [|by eexists].
  case_decide; [by eexists|]. case_decide as Hn; [by eexists|].
  rewrite align_up_8 in * by lia. pose proof (Z.div_mod (cl + 7) 8). pose proof (Z.mod_pos_bound (cl + 7) 8). apply IH; [lia|lia|done|lia].
Qed.

Lemma length_encode m : Z.of_nat (length (encode_cmsg m)) = (8 * ((16 + Z.of_nat (length (cm_data m)) + 7) / 8))%Z.
Proof.
  unfold encode_cmsg, cmsg_pad. rewrite !length_app, !length_to_le, length_replicate. set (n := Z.of_nat (length (cm_data m))).
  pose proof (Z.mod_pos_bound (- n) 8). pose proof (Z.div_mod (- n) 8). pose proof (Z.div_mod (16 + n + 7) 8). pose proof (Z.mod_pos_bound (16 + n + 7) 8). lia.
Qed.

Lemma slice_from (pre rest : list Z) i : i = length pre -> slice (pre ++ rest) i (length (pre ++ rest)) = Ret rest.
Proof. intros ->. rewrite slice_Ret by len. rewrite drop_app_length, take_ge by len. done. Qed.

Lemma get_prefix (l rest : list Z) k : k = length l -> get_slice (l ++ rest) 0 k = Some l.
Proof. intros ->. unfold get_slice. rewrite decide_True by len. by rewrite Nat.sub_0_r, drop_0, take_app_length. Qed.

Lemma signed_small w z : (0 <= z < 2 ^ (w - 1))%Z -> signed w z = z.
Proof. intros Hz. unfold signed. by rewrite decide_False by lia. Qed.

(** One message, after any prefix. *)
Lemma control_step fuel pre m rest info : cmsg_ok m -> (Z.of_nat (length (pre ++ encode_cmsg m ++ rest)) < 2 ^ 63)%Z ->
  control_loop (S fuel) (pre ++ encode_cmsg m ++ rest) (Z.of_nat (length pre)) info =
  control_loop fuel (pre ++ encode_cmsg m ++ rest) (Z.of_nat (length (pre ++ encode_cmsg m)))
    (control_message (cm_level m) (cm_type m) (cm_data m) info).
Proof.
  intros (Hb & Hlv & Hty) Hlen. pose proof (length_encode m) as He. set (n := length (cm_data m)) in *.
  pose proof (Z.div_mod (16 + Z.of_nat n + 7) 8). pose proof (Z.mod_pos_bound (16 + Z.of_nat n + 7) 8).
  assert (Hsum : length (pre ++ encode_cmsg m ++ rest) = length pre + length (encode_cmsg m) + length rest) by len.
  set (control := pre ++ encode_cmsg m ++ rest) in *. cbn [control_loop]. rewrite header_len. unfold sat_sub.
  set (cl := (16 + Z.of_nat n)%Z).
  set (tail := cm_data m ++ replicate (cmsg_pad n) 0%Z ++ rest).
  assert (Hc : control = pre ++ to_le 8 cl ++ to_le 4 (cm_level m) ++ to_le 4 (cm_type m) ++ tail).
  { unfold control, encode_cmsg, tail. by rewrite <- !app_assoc. }
  assert (S0 : slice control (Z.to_nat (Z.of_nat (length pre))) (length control)
    = Ret (to_le 8 cl ++ to_le 4 (cm_level m) ++ to_le 4 (cm_type m) ++ tail)).
  { rewrite Hc. apply slice_from. lia. }
  assert (S8 : slice control (Z.to_nat (Z.of_nat (length pre) + 8)) (length control) = Ret (to_le 4 (cm_level m) ++ to_le 4 (cm_type m) ++ tail)).
  { rewrite Hc, app_assoc. apply slice_from. len. }
  assert (S12 : slice control (Z.to_nat (Z.of_nat (length pre) + 12)) (length control) = Ret (to_le 4 (cm_type m) ++ tail)).
  { rewrite Hc, (app_assoc pre), (app_assoc (pre ++ _)). apply slice_from. len. }
  assert (Hpay : slice control (Z.to_nat (Z.of_nat (length pre) + 16)) (Z.to_nat (Z.of_nat (length pre) + cl)) = Ret (cm_data m)).
  { rewrite slice_Ret by (unfold cl; lia). rewrite Hc, (app_assoc pre), (app_assoc (pre ++ _)), (app_assoc ((pre ++ _) ++ _)).
    rewrite drop_app_length' by len. unfold tail. rewrite take_app_length'; [done|]. unfold cl. lia. }
  rewrite decide_False by lia. rewrite S0. cbn [obind].
  unfold read_usize_ne. rewrite get_prefix by done. cbn [fmap option_fmap option_map]. rewrite from_le_to_le_small by lia.
  rewrite !decide_False by lia. rewrite S8, S12. cbn [obind]. unfold read_c_int_ne. rewrite !get_prefix by done. cbn [fmap option_fmap option_map].
  rewrite !from_le_to_le_small, !signed_small by lia.
  rewrite Hpay. cbn [obind]. unfold cl. rewrite align_up_8 by lia. rewrite !decide_False by lia.
  f_equal. rewrite length_app, Nat2Z.inj_add, He. lia.
Qed.

Lemma control_loop_encoded fuel pre ms info : Forall cmsg_ok ms -> (Z.of_nat (length (pre ++ encode_control ms)) < 2 ^ 63)%Z -> length ms < fuel ->
  control_loop fuel (pre ++ encode_control ms) (Z.of_nat (length pre)) info
  = Ret (foldl (fun info m => control_message (cm_level m) (cm_type m) (cm_data m) info) info ms).
Proof.
  intros Hok. revert fuel pre info. induction Hok as [|m ms Hm _ IH]; intros fuel pre info Hl Hf; (destruct fuel as [|fuel]; [cbn in Hf; lia|]).
  - cbn [encode_control fmap list_fmap concat app]. rewrite app_nil_r in *. cbn [control_loop foldl]. unfold sat_sub. by rewrite decide_True by (rewrite header_len; lia).
  - unfold encode_control in *. cbn [fmap list_fmap concat foldl] in *. rewrite control_step by done.
    rewrite app_assoc. apply IH; [by rewrite <- app_assoc|cbn in Hf; lia].
Qed.

(** Control data is read as it was written.  On every control area the walk ends
    without an out-of-range access; on one that holds any sequence of control messages it
    gives the value of the last overflow counter and of the last time stamp among the
    socket-level ones, and ignores the rest. *)
Theorem parse_control_correct control :
  bytes_ok control -> (Z.of_nat (length control) < 2 ^ 63)%Z ->
  (exists info, parse_control control = Ret info) /\
  forall ms, control = encode_control ms -> Forall cmsg_ok ms -> parse_control control = Ret (control_fold ms).
Proof.
  intros Hb Hl. unfold parse_control. split.
  - apply control_loop_returns; [done|lia|lia|done|lia].
  - intros ms -> Hok. apply (control_loop_encoded _ [] ms); [done|done|].
    assert (length ms <= length (encode_control ms)); [|lia]. clear. unfold encode_control.
    induction ms as [|m ms IH]; [done|]. cbn [fmap list_fmap concat length]. rewrite length_app.
    pose proof (length_encode m). pose proof (Z.div_mod (16 + Z.of_nat (length (cm_data m)) + 7) 8).
    pose proof (Z.mod_pos_bound (16 + Z.of_nat (length (cm_data m)) + 7) 8). lia.
Qed.

Definition demo_control : list cmsg :=
  [mkCmsg SOL_SOCKET SO_RXQ_OVFL (to_le 4 7); mkCmsg 41 50 [1; 2; 3]%Z; mkCmsg SOL_SOCKET SCM_TIMESTAMPNS (to_le 8 100 ++ to_le 8 5000)].

Lemma parse_control_witness : parse_control (encode_control demo_control) = Ret (mkControlInfo (Some 7%Z) (Some (mkTimespec 100 5000))).
Proof.
  rewrite (proj2 (parse_control_correct (encode_control demo_control) ltac:(apply bytes_check; by vm_compute) ltac:(by vm_compute)) demo_control eq_refl).
  - by vm_compute.
  - repeat constructor; cbn [cm_data cm_level cm_type]; try apply to_le_ok; try lia; repeat constructor; try (unfold u_ok; lia); by vm_compute.
Defined.

(** The latency is the elapsed time in whole microseconds, 0 for a time stamp in the
    future, and never leaves 32 bits. *)
Lemma recv_latency_spec now ts : u_ok 32 (recv_latency_us now ts) /\
  forall us ns, (0 <= us < 2 ^ 32)%Z -> (0 <= ns < 1000)%Z ->
    ((tv_sec now * 1000000000 + tv_nsec now) - (tv_sec ts * 1000000000 + tv_nsec ts) = 1000 * us + ns)%Z -> recv_latency_us now ts = us.
Proof.
  unfold recv_latency_us, u_ok. split; [lia|]. intros us ns Hu Hn He.
  replace ((tv_sec now - tv_sec ts) * 1000000000 + (tv_nsec now - tv_nsec ts))%Z with (us * 1000 + ns)%Z by lia.
  rewrite Z.quot_div_nonneg, Z.div_add_l, Z.div_small by lia. lia.
Qed.
