(* ===== verification/UdpUring.v ===== *)
(** * Receiving UDP queries (src/src/udp_uring.rs)

    The provided buffer ring shared with the kernel and the drain of its completions.  A
    buffer is always in exactly one place: in the ring, where the kernel may fill it, or in
    a completion that has not been read.  The layout of a delivered buffer is parsed by
    the io_uring library, which is an argument. *)

From S2P Require Import Prelude Hasher DnsName DnsQuery DnsQname DnsRecords DnsEdns Ecs DnsMessage UpstreamUrl ConfigServers ConfigParse Config Sockets.

(** ** The ring *)

(** [rb_slots] are the buffer identifiers of the ring entries; [rb_published] the tail the
    kernel reads. *)
Record ProvidedBufRing := mkRing { rb_entries : nat; rb_slots : list nat; rb_tail : Z; rb_published : Z }.

Definition rb_mask (r : ProvidedBufRing) : Z := Z.of_nat (rb_entries r) - 1.

(** The slot a counter of the ring points at. *)
Definition ring_slot (r : ProvidedBufRing) (counter : Z) : nat := Z.to_nat (Z.land counter (rb_mask r)).

(** [put]: identifiers without a buffer are ignored. *)
Definition put (r : ProvidedBufRing) (bid : nat) : ProvidedBufRing :=
  if decide (bid < rb_entries r) then
    mkRing (rb_entries r) (<[ring_slot r (rb_tail r) := bid]> (rb_slots r)) (wrap 16 (rb_tail r + 1)) (rb_published r)
  else r.

Definition publish (r : ProvidedBufRing) : ProvidedBufRing := mkRing (rb_entries r) (rb_slots r) (rb_tail r) (rb_tail r).

(** [is_power_of_two] *)
Definition is_power_of_two (n : nat) : bool := bool_decide (0 < n /\ Z.land (Z.of_nat n) (Z.of_nat n - 1) = 0%Z).

Inductive ring_error := NotPowerOfTwo | EmptyBuffer | BufferTooLarge.

(** [new]: the allocations are zeroed. *)
Definition ring_new (entries buf_len : nat) : result ring_error ProvidedBufRing :=
  if negb (is_power_of_two entries) then Err NotPowerOfTwo
  else if decide (buf_len = 0) then Err EmptyBuffer
  else if decide (2 ^ 32 <= Z.of_nat buf_len)%Z then Err BufferTooLarge
  else Ok (mkRing entries (replicate entries 0) 0 0).

Definition ring_init (r : ProvidedBufRing) : ProvidedBufRing := publish (foldl put r (seq 0 (rb_entries r))).

(** ** Draining completions *)

(** A completion: whether more follow, the buffer it carries and its result. *)
Record cqe := mkCqe { cq_more : bool; cq_buffer : option nat; cq_result : Z }.

(** The parsed contents of a delivered buffer. *)
Record recvmsg_out := mkOut { ro_control : list Z; ro_truncated : bool; ro_name : list Z; ro_payload : list Z }.

Record DrainStats := mkDrainStats { ds_packets : nat; ds_truncated : nat; ds_rx_overflow : option Z; ds_recv_lat_us : Z }.

Section drain.
Context (diagnostics : UdpDiagnostics) (now : timespec).
(** [RecvMsgOut::parse] on the first [len] bytes of a buffer. *)
Context (parse_out : nat -> Z -> option recvmsg_out).

Definition at_least_basic : bool := match diagnostics with DiagOff => false | _ => true end.

(** The control data of one datagram. *)
Definition drain_control (out : recvmsg_out) (stats : DrainStats) : outcome DrainStats :=
  if at_least_basic then
    let! ctl := parse_control (ro_control out) in
    let ovfl := match rxq_overflow ctl with Some v => Some v | None => ds_rx_overflow stats end in
    let lat := match timestamp ctl with Some ts => Z.max (ds_recv_lat_us stats) (recv_latency_us now ts) | None => ds_recv_lat_us stats end in
    Ret (mkDrainStats (ds_packets stats) (ds_truncated stats) ovfl lat)
  else Ret stats.

(** One datagram: counted, and given to [on_pkt] unless it was cut or has no sender. *)
Definition drain_packet (out : recvmsg_out) (stats : DrainStats) : outcome (DrainStats * list (list Z * SockAddr)) :=
  let! stats := drain_control out stats in
  if ro_truncated out then Ret (mkDrainStats (ds_packets stats) (S (ds_truncated stats)) (ds_rx_overflow stats) (ds_recv_lat_us stats), [])
  else
    match read_sockaddr_bytes (ro_name out) with
    | Some peer =>
        if decide (ro_payload out = []) then Ret (stats, [])
        else Ret (mkDrainStats (S (ds_packets stats)) (ds_truncated stats) (ds_rx_overflow stats) (ds_recv_lat_us stats), [(ro_payload out, peer)])
    | None => Ret (stats, [])
    end.

(** The loop of [drain]: the ring, the statistics, the packets given to [on_pkt], whether
    the stream ended and how many buffers were recycled. *)
Fixpoint drain_loop (cqes : list cqe) (r : ProvidedBufRing) (stats : DrainStats) : outcome (ProvidedBufRing * DrainStats * list (list Z * SockAddr) * bool * nat) :=
  match cqes with
  | [] => Ret (r, stats, [], false, 0)
  | c :: cqes' =>
      let ended := negb (cq_more c) in
      match cq_buffer c with
      | None => let! (r, stats, pkts, e, n) := drain_loop cqes' r stats in Ret (r, stats, pkts, ended || e, n)
      | Some bid =>
          let! (stats, here) :=
            if decide (cq_result c <= 0)%Z then Ret (stats, [])
            else match parse_out bid (cq_result c) with Some out => drain_packet out stats | None => Ret (stats, []) end in
          let! (r, stats, pkts, e, n) := drain_loop cqes' (put r bid) stats in
          Ret (r, stats, here ++ pkts, ended || e, S n)
      end
  end.

(** [drain]: every consumed buffer is returned with one release of the tail. *)
Definition drain (cqes : list cqe) (r : ProvidedBufRing) : outcome (ProvidedBufRing * DrainStats * list (list Z * SockAddr) * bool) :=
  let! (r, stats, pkts, ended, recycled) := drain_loop cqes r (mkDrainStats 0 0 None 0) in
  Ret (if decide (0 < recycled) then publish r else r, stats, pkts, ended).
End drain.

(** The overflow counter of the kernel only grows, at 32 bits; the delta is counted. *)
Definition rx_overflow_delta (last cur : Z) : Z := wrap 32 (cur - last).

(** ** Every buffer in one place *)

(** The kernel's side: it fills the buffer at its head while the head is behind the
    published tail, and posts a completion; a completion without a buffer needs none. *)
Record RingWorld := mkRingWorld { rw_ring : ProvidedBufRing; rw_head : Z; rw_cq : list cqe }.

Section ring.
Context (diagnostics : UdpDiagnostics) (now : timespec) (parse_out : nat -> Z -> option recvmsg_out).

Inductive ring_step : RingWorld -> RingWorld -> Prop :=
| kernel_fills more res bid w : rw_head w <> rb_published (rw_ring w) -> rb_slots (rw_ring w) !! ring_slot (rw_ring w) (rw_head w) = Some bid ->
    ring_step w (mkRingWorld (rw_ring w) (wrap 16 (rw_head w + 1)) (rw_cq w ++ [mkCqe more (Some bid) res]))
| kernel_posts more res w : ring_step w (mkRingWorld (rw_ring w) (rw_head w) (rw_cq w ++ [mkCqe more None res]))
| worker_drains cqes rest r stats pkts ended w : rw_cq w = cqes ++ rest -> drain diagnostics now parse_out cqes (rw_ring w) = Ret (r, stats, pkts, ended) ->
    ring_step w (mkRingWorld r (rw_head w) rest).

(** The buffers between two counters of the ring. *)
Definition window (r : ProvidedBufRing) (h t : nat) : list nat := (fun j => rb_slots r !!! (j mod rb_entries r)) <$> seq h (t - h).

Definition outstanding (cqes : list cqe) : list nat := omap cq_buffer cqes.

Record ring_ok (k : nat) (r : ProvidedBufRing) (head : Z) (cqes : list cqe) (h t : nat) : Prop := mkRingOk {
  ro_entries : rb_entries r = 2 ^ k /\ k <= 15;
  ro_len : length (rb_slots r) = rb_entries r;
  ro_order : h <= t;
  ro_head : head = wrap 16 (Z.of_nat h);
  ro_tail : rb_tail r = wrap 16 (Z.of_nat t);
  ro_all : window r h t ++ outstanding cqes ≡ₚ seq 0 (rb_entries r)
}.

Lemma pow2_Z k : Z.of_nat (2 ^ k) = (2 ^ Z.of_nat k)%Z.
Proof. rewrite Nat2Z.inj_pow. done. Qed.

(** Masking the 16-bit counter is the remainder of the full count. *)
Lemma ring_slot_mod k r c : rb_entries r = 2 ^ k -> k <= 15 -> ring_slot r (wrap 16 (Z.of_nat c)) = c mod rb_entries r.
Proof.
  intros He Hk. unfold ring_slot, rb_mask, wrap. rewrite He, pow2_Z.
  replace (2 ^ Z.of_nat k - 1)%Z with (Z.ones (Z.of_nat k)) by (rewrite Z.ones_equiv; lia). rewrite Z.land_ones by lia.
  assert (Hd : (2 ^ 16 = 2 ^ (16 - Z.of_nat k) * 2 ^ Z.of_nat k)%Z) by (rewrite <- Z.pow_add_r by lia; f_equal; lia).
  rewrite Hd, Z.mul_comm, Z.rem_mul_r, Z.mul_comm, Z.mod_add, Z.mod_mod by lia.
  rewrite <- pow2_Z, <- Nat2Z.inj_mod. apply Nat2Z.id.
Qed.

Lemma length_window r h t : length (window r h t) = t - h.
Proof. unfold window. by rewrite length_fmap, length_seq. Qed.

Lemma ro_room k r head cqes h t : ring_ok k r head cqes h t -> t - h + length (outstanding cqes) = rb_entries r.
Proof. intros [_ _ _ _ _ Ha]. apply Permutation_length in Ha. rewrite length_app, length_window, length_seq in Ha. done. Qed.

Lemma entries_pos k r head cqes h t : ring_ok k r head cqes h t -> 0 < rb_entries r.
Proof. intros [[-> _] _ _ _ _ _]. apply Nat.neq_0_lt_0, Nat.pow_nonzero. lia. Qed.

(** Writing at the tail extends the window when a buffer is outstanding. *)
Lemma window_put k r h t bid : rb_entries r = 2 ^ k -> k <= 15 -> length (rb_slots r) = rb_entries r -> h <= t -> t - h < rb_entries r ->
  rb_tail r = wrap 16 (Z.of_nat t) -> bid < rb_entries r ->
  window (put r bid) h (S t) = window r h t ++ [bid].
Proof.
  intros He Hk Hl Ho Hr Ht Hb. unfold put. rewrite decide_True by done. rewrite Ht, (ring_slot_mod k) by done.
  assert (Hm : forall j, j mod rb_entries r < length (rb_slots r)) by (intros j; rewrite Hl; apply Nat.mod_upper_bound; lia).
  unfold window. cbn [rb_slots rb_entries]. rewrite Nat.sub_succ_l, seq_S, fmap_app by done. f_equal.
  - apply list_fmap_ext. intros i j Hj. apply lookup_seq in Hj as [-> Hi]. rewrite list_lookup_total_insert_ne; [done|].
    intros Heq. set (n := rb_entries r) in *. pose proof (Nat.div_mod_eq t n). pose proof (Nat.div_mod_eq (h + i) n).
    assert (t / n = (h + i) / n \/ t / n > (h + i) / n \/ t / n < (h + i) / n) as [Hq|[Hq|Hq]] by lia; nia.
  - cbn. f_equal. rewrite Nat.add_sub_assoc, Nat.add_comm, Nat.add_sub by lia. by rewrite list_lookup_total_insert_eq.
Qed.

Lemma window_head r h t : h < t -> window r h t = (rb_slots r !!! (h mod rb_entries r)) :: window r (S h) t.
Proof. intros Hlt. unfold window. replace (t - h) with (S (t - S h)) by lia. done. Qed.

Lemma wrap16_succ c : wrap 16 (wrap 16 (Z.of_nat c) + 1) = wrap 16 (Z.of_nat (S c)).
Proof. unfold wrap. rewrite Z.add_mod_idemp_l by lia. f_equal. lia. Qed.

Lemma put_entries r bid : rb_entries (put r bid) = rb_entries r /\ length (rb_slots (put r bid)) = length (rb_slots r) /\ rb_published (put r bid) = rb_published r.
Proof. unfold put. case_decide; cbn; [|done]. by rewrite length_insert. Qed.

(** Recycling the buffer of the oldest completion. *)
Lemma put_ok k r head more res bid cqes h t : ring_ok k r head (mkCqe more (Some bid) res :: cqes) h t -> ring_ok k (put r bid) head cqes h (S t).
Proof.
  intros Hok. pose proof (ro_room _ _ _ _ _ _ Hok) as Hroom. pose proof Hok as [[He Hk] Hl Ho Hh Ht Ha].
  change (outstanding (mkCqe more (Some bid) res :: cqes)) with (bid :: outstanding cqes) in *. cbn [length] in Hroom.
  assert (Hb : bid < rb_entries r).
  { assert (Hin : bid ∈ seq 0 (rb_entries r)) by (rewrite <- Ha; set_solver). apply elem_of_seq in Hin. lia. }
  destruct (put_entries r bid) as (He' & Hl' & _).
  constructor; [by rewrite He'|by rewrite Hl', He'|lia|done| |].
  - unfold put. rewrite decide_True by done. cbn [rb_tail]. rewrite Ht. apply wrap16_succ.
  - rewrite He', (window_put k) by (done || lia). rewrite <- app_assoc. exact Ha.
Qed.

Lemma bare_ok k r head more res cqes h t : ring_ok k r head (mkCqe more None res :: cqes) h t -> ring_ok k r head cqes h t.
Proof. by intros [? ? ? ? ? ?]; constructor. Qed.

(** The library hands over the control area of the buffer. *)
Hypothesis parse_out_bytes : forall bid len out, parse_out bid len = Some out ->
  bytes_ok (ro_control out) /\ (Z.of_nat (length (ro_control out)) < 2 ^ 63)%Z.

Lemma drain_packet_returns bid len out stats : parse_out bid len = Some out -> exists r, drain_packet diagnostics now out stats = Ret r.
Proof.
  intros [Hb Hl]%parse_out_bytes.
  assert (exists s, drain_control diagnostics now out stats = Ret s) as [s Hs].
  { unfold drain_control. destruct (at_least_basic diagnostics); [|by eexists]. unfold parse_control.
    destruct (control_loop_returns (S (length (ro_control out))) (ro_control out) 0 (mkControlInfo None None)) as [ctl ->]; [done|lia|lia|done|lia|].
    by eexists. }
  unfold drain_packet. rewrite Hs. cbn [obind]. repeat case_match; by eexists.
Qed.

Lemma drain_loop_ok k cqes rest r stats head h t : ring_ok k r head (cqes ++ rest) h t ->
  exists r' stats' pkts ended n t', drain_loop diagnostics now parse_out cqes r stats = Ret (r', stats', pkts, ended, n) /\
    ring_ok k r' head rest h t' /\ (n = 0 -> r' = r) /\ n = length (outstanding cqes) /\ rb_published r' = rb_published r /\
    ended = existsb (fun c => negb (cq_more c)) cqes.
Proof.
  revert r stats t. induction cqes as [|[more [bid|] res] cqes IH]; intros r stats t Hok; cbn [drain_loop cq_buffer cq_more cq_result].
  - eexists _, _, _, _, _, t. split; [done|]. done.
  - apply put_ok in Hok.
    assert (exists s, (if decide (res <= 0)%Z then Ret (stats, []) else
      match parse_out bid res with Some out => drain_packet diagnostics now out stats | None => Ret (stats, []) end) = Ret s) as [[s here] ->].
    { case_decide; [by eexists|]. destruct (parse_out bid res) eqn:Hp; [by eapply drain_packet_returns|by eexists]. }
    cbn [obind]. destruct (IH (put r bid) s (S t) Hok) as (r' & s' & pkts & e & n & t' & -> & Hok' & _ & Hn & Hpub & He). cbn [obind].
    eexists _, _, _, _, _, t'. split; [done|]. split; [done|]. split; [done|]. split; [by rewrite Hn|]. split; [by rewrite Hpub; apply put_entries|by rewrite He].
  - apply bare_ok in Hok. destruct (IH r stats t Hok) as (r' & s' & pkts & e & n & t' & -> & Hok' & H0 & Hn & Hpub & He). cbn [obind].
    eexists _, _, _, _, _, t'. split; [done|]. split; [done|]. split; [done|]. split; [done|]. split; [done|by rewrite He].
Qed.

Definition ring_inv (k : nat) (w : RingWorld) : Prop :=
  rb_published (rw_ring w) = rb_tail (rw_ring w) /\ exists h t, ring_ok k (rw_ring w) (rw_head w) (rw_cq w) h t.

Lemma ring_drain_inv k w cqes rest : ring_inv k w -> rw_cq w = cqes ++ rest ->
  exists r stats pkts, drain diagnostics now parse_out cqes (rw_ring w) = Ret (r, stats, pkts, existsb (fun c => negb (cq_more c)) cqes) /\
    ring_inv k (mkRingWorld r (rw_head w) rest).
Proof.
  intros (Hpub & h & t & Hok) Hcq. rewrite Hcq in Hok.
  destruct (drain_loop_ok k cqes rest (rw_ring w) (mkDrainStats 0 0 None 0) _ h t Hok) as (r & s & pkts & e & n & t' & Hd & Hok' & H0 & _ & Hp & He).
  unfold drain. rewrite Hd. cbn [obind]. rewrite He. eexists _, _, _. split; [done|]. case_decide as Hn.
  - split; [done|]. exists h, t'. destruct Hok' as [H1 H2 H3 H4 H5 H6]. constructor; [exact H1|exact H2|exact H3|exact H4|exact H5|exact H6].
  - assert (r = rw_ring w) as -> by (apply H0; lia). split; [exact Hpub|]. exists h, t'. exact Hok'.
Qed.

Lemma ring_step_inv k w w' : ring_step w w' -> ring_inv k w -> ring_inv k w'.
Proof.
  destruct 1 as [more res bid w Hne Hs|more res w|cqes rest r stats pkts ended w Hcq Hd]; intros Hinv.
  - destruct Hinv as (Hpub & h & t & Hok). split; [done|]. destruct Hok as [[He Hk] Hl Ho Hh Ht Ha].
    assert (Hlt : h < t). { destruct (decide (h = t)) as [->|]; [|lia]. by rewrite Hpub, Ht, Hh in Hne. }
    exists (S h), t. constructor; [done|done|lia|cbn; rewrite Hh; apply wrap16_succ|done|]. cbn [rw_ring rw_cq].
    rewrite Hh, (ring_slot_mod k) in Hs by done. unfold outstanding. rewrite omap_app. cbn [omap list_omap cq_buffer].
    rewrite <- Ha, (window_head _ h t) by done. apply list_lookup_total_correct in Hs. rewrite Hs. cbn [app].
    rewrite app_assoc. by rewrite <- Permutation_cons_append.
  - destruct Hinv as (Hpub & h & t & Hok). split; [done|]. exists h, t. destruct Hok as [? ? ? ? ? Ha]. constructor; [done..|].
    cbn [rw_ring rw_cq]. unfold outstanding in *. rewrite omap_app. cbn [omap list_omap cq_buffer]. by rewrite app_nil_r.
  - destruct (ring_drain_inv k w cqes rest Hinv Hcq) as (r' & s' & p' & Hd' & Hi). assert (r' = r) as -> by congruence. exact Hi.
Qed.

(** ** Initialisation *)

Lemma is_power_of_two_spec k : is_power_of_two (2 ^ k) = true.
Proof.
  apply bool_decide_eq_true. split; [apply Nat.neq_0_lt_0, Nat.pow_nonzero; lia|]. rewrite pow2_Z.
  replace (2 ^ Z.of_nat k - 1)%Z with (Z.ones (Z.of_nat k)) by (rewrite Z.ones_equiv; lia). rewrite Z.land_ones by lia. apply Z.mod_same. lia.
Qed.

(** After [n] buffers of a fresh ring, the window holds them. *)
Lemma fill_ok k n r : rb_entries r = 2 ^ k -> k <= 15 -> rb_slots r = replicate (rb_entries r) 0 -> rb_tail r = 0%Z -> n <= rb_entries r ->
  let r' := foldl put r (seq 0 n) in
  rb_entries r' = rb_entries r /\ length (rb_slots r') = rb_entries r /\ rb_tail r' = wrap 16 (Z.of_nat n) /\ window r' 0 n = seq 0 n.
Proof.
  intros He Hk Hs Ht. induction n as [|n IH]; intros Hn; cbv zeta.
  - cbn [seq foldl]. split_and!; [done|by rewrite Hs, length_replicate|by rewrite Ht|done].
  - rewrite seq_S, foldl_app. cbn [foldl Nat.add]. destruct IH as (He' & Hl' & Ht' & Hw); [lia|]. set (r1 := foldl put r (seq 0 n)) in *.
    destruct (put_entries r1 n) as (He1 & Hl1 & _). split; [by rewrite He1|]. split; [by rewrite Hl1|]. split.
    + unfold put. rewrite decide_True by lia. cbn [rb_tail]. rewrite Ht'. apply wrap16_succ.
    + rewrite (window_put k) by (done || lia || congruence). rewrite Hw. done.
Qed.

Lemma ring_init_inv k buf_len r : ring_new (2 ^ k) buf_len = Ok r -> k <= 15 -> ring_inv k (mkRingWorld (ring_init r) 0 []).
Proof.
  unfold ring_new. rewrite is_power_of_two_spec. cbn [negb]. repeat case_decide; try done. intros [= <-] Hk.
  set (r0 := mkRing (2 ^ k) (replicate (2 ^ k) 0) 0 0).
  destruct (fill_ok k (2 ^ k) r0 eq_refl Hk eq_refl eq_refl (Nat.le_refl _)) as (He & Hl & Ht & Hw).
  split; [done|]. exists 0, (2 ^ k). unfold ring_init. change (rb_entries r0) with (2 ^ k) in *. set (r1 := foldl put r0 (seq 0 (2 ^ k))) in *.
  constructor; cbn [rw_ring rw_head rw_cq publish rb_entries rb_slots rb_tail].
  - by rewrite He.
  - by rewrite Hl, He.
  - lia.
  - done.
  - done.
  - rewrite He. change (window (publish r1) 0 (2 ^ k)) with (window r1 0 (2 ^ k)). rewrite Hw. cbn. by rewrite app_nil_r.
Qed.

(** C30: the receive buffers.  Start from a ring of a power of two of at most 32768
    buffers, let the kernel fill and complete and the worker drain in any order: the
    buffers in the ring the kernel may still fill and those in completions not yet read
    are together each buffer exactly once, so none is lost and none is written while it is
    read, whatever the 16-bit counters have wrapped; and every drain returns, telling
    exactly whether the receive operation has to be submitted again. *)
Theorem ring_buffers_conserved k buf_len r w : ring_new (2 ^ k) buf_len = Ok r -> k <= 15 ->
  rtc ring_step (mkRingWorld (ring_init r) 0 []) w ->
  exists free, free ++ outstanding (rw_cq w) ≡ₚ seq 0 (2 ^ k) /\
    (rw_head w = rb_published (rw_ring w) <-> free = []) /\
    (forall bid, rw_head w <> rb_published (rw_ring w) ->
       rb_slots (rw_ring w) !! ring_slot (rw_ring w) (rw_head w) = Some bid -> head free = Some bid) /\
    forall cqes rest, rw_cq w = cqes ++ rest ->
      exists r' stats pkts, drain diagnostics now parse_out cqes (rw_ring w) = Ret (r', stats, pkts, existsb (fun c => negb (cq_more c)) cqes).
Proof.
  intros Hnew Hk Hr. assert (Hinv : ring_inv k w).
  { assert (H : forall a b, rtc ring_step a b -> ring_inv k a -> ring_inv k b) by (induction 1; eauto using ring_step_inv).
    apply (H _ _ Hr). by eapply ring_init_inv. }
  pose proof Hinv as (Hpub & h & t & Hok). pose proof (ro_room _ _ _ _ _ _ Hok) as Hroom. destruct Hok as [[He _] Hl Ho Hh Ht Ha].
  assert (H16 : 2 ^ k < 2 ^ 16) by (apply Nat.pow_lt_mono_r; lia).
  exists (window (rw_ring w) h t). rewrite He in Ha, Hroom. split; [done|]. split; [|split].
  - rewrite Hpub, Ht, Hh. split.
    + intros Heq. apply length_zero_iff_nil. rewrite length_window. unfold wrap in Heq.
      assert (Hz : ((Z.of_nat t - Z.of_nat h) mod 2 ^ 16 = 0)%Z) by (rewrite Zminus_mod, Heq, Z.sub_diag; done).
      rewrite Z.mod_small in Hz; [lia|]. change (2 ^ 16)%Z with (Z.of_nat (2 ^ 16)). lia.
    + intros Hz. apply (f_equal length) in Hz. rewrite length_window in Hz. cbn in Hz. assert (t = h) as -> by lia. done.
  - intros bid Hne Hs. assert (h < t). { destruct (decide (h = t)) as [->|]; [|lia]. by rewrite Hpub, Ht, Hh in Hne. }
    rewrite Hh, (ring_slot_mod k) in Hs by done. rewrite window_head by done. cbn. f_equal. by apply list_lookup_total_correct.
  - intros cqes rest Hcq. destruct (ring_drain_inv k w cqes rest Hinv Hcq) as (r' & s & p & Hd & _). by exists r', s, p.
Qed.
End ring.

Module UringDemo.
(** Every buffer holds the same query from 192.0.2.1, port 5353, without control data. *)
Definition parse (bid : nat) (len : Z) : option recvmsg_out :=
  Some (mkOut [] false (sockaddr_in_from [192; 0; 2; 1]%Z 5353) [1; 2; 3]%Z).

Lemma parse_bytes bid len out : parse bid len = Some out -> bytes_ok (ro_control out) /\ (Z.of_nat (length (ro_control out)) < 2 ^ 63)%Z.
Proof. intros [= <-]. split; [constructor|done]. Defined.

Definition fresh : ProvidedBufRing := mkRing 2 [0; 0] 0 0.
Definition filled : ProvidedBufRing := mkRing 2 [0; 1] 2 2.
Definition now : timespec := mkTimespec 0 0.
Definition world : RingWorld := mkRingWorld filled 1 [mkCqe true (Some 0) 150].

Lemma ring_run : rtc (ring_step DiagOff now parse) (mkRingWorld (ring_init fresh) 0 []) world.
Proof.
  eapply rtc_l; [|apply rtc_refl]. change (ring_init fresh) with filled.
  refine (kernel_fills DiagOff now parse true 150 0 (mkRingWorld filled 0 []) _ _); [discriminate|reflexivity].
Defined.

Lemma ring_buffers_witness :
  exists free, free ++ [0] ≡ₚ seq 0 2 /\ (1%Z = 2%Z <-> free = []) /\
    (forall bid, 1%Z <> 2%Z -> [0; 1] !! ring_slot filled 1 = Some bid -> head free = Some bid) /\
    forall cqes rest, rw_cq world = cqes ++ rest ->
      exists r' stats pkts, drain DiagOff now parse cqes filled = Ret (r', stats, pkts, existsb (fun c => negb (cq_more c)) cqes).
Proof. refine (ring_buffers_conserved DiagOff now parse parse_bytes 1 2400 fresh world _ _ ring_run); [reflexivity|lia]. Defined.

(** The drain delivers the packet and gives the buffer back. *)
Example drained : drain DiagOff now parse (rw_cq world) filled
  = Ret (mkRing 2 [0; 1] 3 3, mkDrainStats 1 0 None 0, [([1; 2; 3]%Z, SockV4 [192; 0; 2; 1]%Z 5353)], false).
Proof. by vm_compute. Qed.
End UringDemo.
