(* ===== verification/UdpServe.v ===== *)
(** * Serving UDP queries (src/src/udp_uring.rs)

    What happens to one datagram: answered from the cache, dropped, given to a resolver
    task that holds one of the server's permits, queued for a permit, or refused with
    SERVFAIL; and the task that admits the queued ones.  The permits are shared with the
    other shards, whose use of them is a step of its own. *)

From S2P Require Import Prelude Hasher DnsName DnsQuery DnsQname DnsRecords DnsEdns Ecs DnsMessage DnsBuilder CacheMap Cache CacheKey CacheCorrect VerdictCache Ruleset RouteIndex RouteCorrect Router Resolver ResolverCorrect Sockets.

Definition ADMISSION_QUEUE_CAP : nat := Z.to_nat 1024.

Record PendingQuery := mkPendingQuery { pq_packet : list Z; pq_peer : SockAddr; pq_info : FastQueryInfo; pq_probe : CacheProbe; pq_deadline : Z }.

Record Admission := mkAdmission { ad_permits : Z; ad_queue : list PendingQuery; inflight_queued : Z; inflight_drops : Z }.

(** What became of a datagram. *)
Inductive packet_effect :=
| EffReply (resp : list Z)
| EffNone
| EffSpawned (q : PendingQuery)
| EffQueued (q : PendingQuery)
| EffRefused (q : PendingQuery) (servfail : option (list Z)).

(** The miss branch of [process_packet]. *)
Definition admit_miss (a : Admission) (q : PendingQuery) (queue_ms : Z) : outcome (Admission * packet_effect) :=
  if decide (0 < ad_permits a)%Z then
    Ret (mkAdmission (ad_permits a - 1) (ad_queue a) (inflight_queued a) (inflight_drops a), EffSpawned q)
  else if decide ((0 < queue_ms)%Z /\ length (ad_queue a) < ADMISSION_QUEUE_CAP) then
    Ret (mkAdmission (ad_permits a) (ad_queue a ++ [q]) (wrap 64 (inflight_queued a + 1)) (inflight_drops a), EffQueued q)
  else
    let! sf := servfail_reply (pq_packet q) (fast_question_end (pq_info q)) in
    Ret (mkAdmission (ad_permits a) (ad_queue a) (inflight_queued a) (wrap 64 (inflight_drops a + 1)),
         EffRefused q (match sf with Ok p => Some p | Err _ => None end)).

Section process.
Context {CS : Type} `{!CacheMap CS Z Entry}.

(** [process_packet]: [now] is the clock in milliseconds, [now1] and [now2] the ones the
    cache reads. *)
Definition process_packet (a : Admission) (pkt : list Z) (peer : SockAddr) (cache : DnsCache CS) (counters : Counters) (collecting : bool)
    (queue_ms now now1 now2 : Z) : outcome (Admission * DnsCache CS * Counters * packet_effect) :=
  let! (o, cache, counters) := try_fast_path_into pkt Udp cache counters collecting now1 now2 in
  match o with
  | FpResponse resp => let! resp := maybe_truncate_for_udp resp pkt in Ret (a, cache, counters, EffReply resp)
  | FpDrop => Ret (a, cache, counters, EffNone)
  | FpMiss info probe =>
      let! (a, e) := admit_miss a (mkPendingQuery pkt peer info probe (now + queue_ms)) queue_ms in
      Ret (a, cache, counters, e)
  end.
End process.

(** One turn of [admission_loop]: a permit came before the deadline, or it did not. *)
Definition admission_turn (a : Admission) (in_time : bool) : outcome (Admission * packet_effect) :=
  match ad_queue a with
  | [] => Ret (a, EffNone)
  | q :: rest =>
      if in_time && bool_decide (0 < ad_permits a)%Z then
        Ret (mkAdmission (ad_permits a - 1) rest (inflight_queued a) (inflight_drops a), EffSpawned q)
      else
        let! sf := servfail_reply (pq_packet q) (fast_question_end (pq_info q)) in
        Ret (mkAdmission (ad_permits a) rest (inflight_queued a) (wrap 64 (inflight_drops a + 1)),
             EffRefused q (match sf with Ok p => Some p | Err _ => None end))
  end.

(** ** One datagram *)

Section datagram.
Context {CS : Type} `{!CacheMap CS Z Entry, !CacheMapLaws CS Z Entry}.

(** A query that missed the cache: the packet of a readable question. *)
Definition miss_ok (q : PendingQuery) : Prop := ctx_ok (slow_context (pq_packet q) (pq_info q) (pq_probe q)).

Definition servfail_for (q : PendingQuery) : list Z := reply_to (pq_packet q) (fast_question_end (pq_info q)) 0x82 0.

Lemma servfail_miss q : miss_ok q -> servfail_reply (pq_packet q) (fast_question_end (pq_info q)) = Ret (Ok (servfail_for q)).
Proof. intros H%co_end. apply servfail_reply_eq. exact H. Qed.

Lemma servfail_for_id q : miss_ok q -> take 2 (servfail_for q) = take 2 (pq_packet q).
Proof.
  intros H%co_end. cbn in H. unfold servfail_for, reply_to. destruct (header_split (pq_packet q)) as (?&?&?&?&?&?&?&?&?&?&?&?&?&->); [lia|]. done.
Qed.

Definition effect_ok (a : Admission) (pkt : list Z) (peer : SockAddr) (queue_ms now : Z) (a' : Admission) (e : packet_effect) : Prop :=
  match e with
  | EffReply resp => a' = a /\ take 2 resp = take 2 pkt
  | EffNone => a' = a /\ forall fi, parse_query_fast pkt <> Ret (Ok fi)
  | EffSpawned q => pq_packet q = pkt /\ pq_peer q = peer /\ miss_ok q /\ (0 < ad_permits a)%Z /\
      a' = mkAdmission (ad_permits a - 1) (ad_queue a) (inflight_queued a) (inflight_drops a)
  | EffQueued q => pq_packet q = pkt /\ pq_peer q = peer /\ miss_ok q /\ pq_deadline q = (now + queue_ms)%Z /\ (ad_permits a <= 0)%Z /\
      length (ad_queue a) < ADMISSION_QUEUE_CAP /\
      a' = mkAdmission (ad_permits a) (ad_queue a ++ [q]) (wrap 64 (inflight_queued a + 1)) (inflight_drops a)
  | EffRefused q sf => pq_packet q = pkt /\ pq_peer q = peer /\ miss_ok q /\ (ad_permits a <= 0)%Z /\
      ((queue_ms <= 0)%Z \/ ADMISSION_QUEUE_CAP <= length (ad_queue a)) /\
      sf = Some (servfail_for q) /\ take 2 (servfail_for q) = take 2 pkt /\
      a' = mkAdmission (ad_permits a) (ad_queue a) (inflight_queued a) (wrap 64 (inflight_drops a + 1))
  end.

Lemma admit_miss_spec a q queue_ms now : miss_ok q -> pq_deadline q = (now + queue_ms)%Z ->
  exists a' e, admit_miss a q queue_ms = Ret (a', e) /\ effect_ok a (pq_packet q) (pq_peer q) queue_ms now a' e /\
    match e with EffSpawned q' | EffQueued q' | EffRefused q' _ => q' = q | _ => False end.
Proof.
  intros Hq Hd. unfold admit_miss. case_decide as Hp; [eexists _, _; split; [done|]; by split_and!|].
  case_decide as Hc.
  - destruct Hc as [H0 Hl]. eexists _, _. split; [done|]. split; [|done]. by split_and!; [| | | |lia|..].
  - rewrite servfail_miss by done. cbn [obind]. eexists _, _. split; [done|]. split; [|done]. split_and!; try done; [lia| |by apply servfail_for_id].
    destruct (decide (0 < queue_ms)%Z); [right|left; lia]. destruct (decide (length (ad_queue a) < ADMISSION_QUEUE_CAP)); [tauto|lia].
Qed.

Lemma process_packet_spec (a : Admission) pkt peer (cache : DnsCache CS) counters collecting queue_ms now now1 now2 :
  bytes_ok pkt -> cache_ok cache ->
  exists a' cache' counters' e, process_packet a pkt peer cache counters collecting queue_ms now now1 now2 = Ret (a', cache', counters', e) /\
    cache_ok cache' /\ effect_ok a pkt peer queue_ms now a' e.
Proof.
  intros Hb Hc. unfold process_packet.
  destruct (fast_path_spec pkt Udp cache counters collecting now1 now2 Hb Hc) as (o & cache' & counters' & -> & Hc' & Ho). cbn [obind].
  destruct o as [resp|info probe|].
  - destruct (maybe_truncate_returns resp pkt) as (out & -> & Hout). cbn [obind]. eexists _, _, _, _. split; [done|]. split; [done|].
    split; [done|]. rewrite Hout. apply Ho.
  - destruct (admit_miss_spec a (mkPendingQuery pkt peer info probe (now + queue_ms)) queue_ms now) as (a' & e & -> & He & _); [apply Ho|done|].
    cbn [obind]. eexists _, _, _, _. split; [done|]. by split.
  - eexists _, _, _, _. split; [done|]. split; [done|]. split; [done|]. apply Ho.
Qed.

(** Every datagram has one fate.  For every datagram and every consistent cache the
    handler returns and keeps the cache consistent.  It drops exactly what is no query;
    an answer carries the query's ID; a miss takes a permit if one is free, waits with its
    deadline if the queue has room, and otherwise gets a SERVFAIL with its own ID and is
    counted: nothing is refused while a permit is free. *)
Theorem process_packet_correct (a : Admission) pkt peer (cache : DnsCache CS) counters collecting queue_ms now now1 now2 :
  bytes_ok pkt -> cache_ok cache ->
  exists a' cache' counters' e, process_packet a pkt peer cache counters collecting queue_ms now now1 now2 = Ret (a', cache', counters', e) /\
    cache_ok cache' /\ effect_ok a pkt peer queue_ms now a' e.
Proof. apply process_packet_spec. Qed.
End datagram.

(** ** Overload *)

(** The permits of the server: those free, those of the resolver tasks of this shard, and
    those of the other shards. *)
Record ServeWorld := mkServeWorld {
  sv_admission : Admission; sv_running : Z; sv_others : Z;
  sv_missed : list PendingQuery; sv_spawned : list PendingQuery; sv_refused : list PendingQuery
}.

Definition record_effect (e : packet_effect) (w : ServeWorld) (a : Admission) : ServeWorld :=
  match e with
  | EffSpawned q => mkServeWorld a (sv_running w + 1) (sv_others w) (sv_missed w) (sv_spawned w ++ [q]) (sv_refused w)
  | EffRefused q _ => mkServeWorld a (sv_running w) (sv_others w) (sv_missed w) (sv_spawned w) (sv_refused w ++ [q])
  | _ => mkServeWorld a (sv_running w) (sv_others w) (sv_missed w) (sv_spawned w) (sv_refused w)
  end.

Definition with_missed (w : ServeWorld) (q : PendingQuery) : ServeWorld :=
  mkServeWorld (sv_admission w) (sv_running w) (sv_others w) (sv_missed w ++ [q]) (sv_spawned w) (sv_refused w).

Definition with_free (w : ServeWorld) (free running others : Z) : ServeWorld :=
  mkServeWorld (mkAdmission free (ad_queue (sv_admission w)) (inflight_queued (sv_admission w)) (inflight_drops (sv_admission w)))
    running others (sv_missed w) (sv_spawned w) (sv_refused w).

Inductive serve_step : ServeWorld -> ServeWorld -> Prop :=
| serve_miss q queue_ms a e w : miss_ok q -> admit_miss (sv_admission w) q queue_ms = Ret (a, e) ->
    serve_step w (record_effect e (with_missed w q) a)
| serve_admit in_time a e w : admission_turn (sv_admission w) in_time = Ret (a, e) -> serve_step w (record_effect e w a)
| serve_finish w : (0 < sv_running w)%Z -> serve_step w (with_free w (ad_permits (sv_admission w) + 1) (sv_running w - 1) (sv_others w))
| others_take w : (0 < ad_permits (sv_admission w))%Z -> serve_step w (with_free w (ad_permits (sv_admission w) - 1) (sv_running w) (sv_others w + 1))
| others_finish w : (0 < sv_others w)%Z -> serve_step w (with_free w (ad_permits (sv_admission w) + 1) (sv_running w) (sv_others w - 1)).

Definition serve_start (max_inflight : Z) : ServeWorld := mkServeWorld (mkAdmission max_inflight [] 0 0) 0 0 [] [] [].

Record serve_inv (max : Z) (w : ServeWorld) : Prop := mkServeInv {
  si_permits : (ad_permits (sv_admission w) + sv_running w + sv_others w = max)%Z;
  si_free : (0 <= ad_permits (sv_admission w))%Z /\ (0 <= sv_running w)%Z /\ (0 <= sv_others w)%Z;
  si_queue : length (ad_queue (sv_admission w)) <= ADMISSION_QUEUE_CAP;
  si_fate : sv_missed w ≡ₚ sv_spawned w ++ sv_refused w ++ ad_queue (sv_admission w);
  si_drops : inflight_drops (sv_admission w) = wrap 64 (Z.of_nat (length (sv_refused w)));
  si_miss : Forall miss_ok (ad_queue (sv_admission w))
}.

Lemma drops_succ {A} (l : list A) (x : A) z : z = wrap 64 (Z.of_nat (length l)) -> wrap 64 (z + 1) = wrap 64 (Z.of_nat (length (l ++ [x]))).
Proof. intros ->. unfold wrap. rewrite Z.add_mod_idemp_l by lia. f_equal. rewrite length_app. cbn. lia. Qed.

Lemma serve_miss_inv max q queue_ms a e w : serve_inv max w -> miss_ok q -> admit_miss (sv_admission w) q queue_ms = Ret (a, e) ->
  serve_inv max (record_effect e (with_missed w q) a).
Proof.
  intros [Hp Hf Hq Hfa Hd Hm] Hok He.
  destruct (admit_miss_spec (sv_admission w) q queue_ms (pq_deadline q - queue_ms)) as (a' & e' & He' & Hef & Hsame); [done|lia|].
  rewrite He in He'. injection He' as <- <-. destruct e as [resp| |q0|q0|q0 sf]; [done|done|subst q0..]; cbn [effect_ok] in Hef.
  - destruct Hef as (_ & _ & _ & Hpos & ->). constructor; cbn [record_effect with_missed sv_admission sv_running sv_others sv_missed sv_spawned sv_refused ad_permits ad_queue inflight_drops].
    + lia. + lia. + done. + rewrite Hfa, <- !app_assoc. apply Permutation_app_head. rewrite app_assoc. apply Permutation_app_comm. + done. + done.
  - destruct Hef as (_ & _ & _ & _ & _ & Hl & ->). constructor; cbn [record_effect with_missed sv_admission sv_running sv_others sv_missed sv_spawned sv_refused ad_permits ad_queue inflight_drops].
    + lia. + lia. + rewrite length_app. cbn. lia. + rewrite Hfa, <- !app_assoc. done. + done. + by apply Forall_app; split; [|constructor].
  - destruct Hef as (_ & _ & _ & _ & _ & _ & _ & ->). constructor; cbn [record_effect with_missed sv_admission sv_running sv_others sv_missed sv_spawned sv_refused ad_permits ad_queue inflight_drops].
    + lia. + lia. + done. + rewrite Hfa, <- !app_assoc. do 2 apply Permutation_app_head. apply Permutation_app_comm. + by apply drops_succ. + done.
Qed.

Lemma serve_admit_inv max in_time a e w : serve_inv max w -> admission_turn (sv_admission w) in_time = Ret (a, e) -> serve_inv max (record_effect e w a).
Proof.
  intros [Hp Hf Hq Hfa Hd Hm] He. unfold admission_turn in He. destruct (ad_queue (sv_admission w)) as [|q rest] eqn:Hqu.
  { injection He as <- <-. constructor; cbn; rewrite ?Hqu; done. }
  apply Forall_cons in Hm as [Hmq Hm]. cbn [length] in Hq. destruct (in_time && _) eqn:Hb.
  - apply andb_true_iff in Hb as [_ Hb%bool_decide_eq_true]. injection He as <- <-.
    constructor; cbn [record_effect sv_admission sv_running sv_others sv_missed sv_spawned sv_refused ad_permits ad_queue inflight_drops].
    + lia. + lia. + lia. + rewrite Hfa, <- !app_assoc. apply Permutation_app_head. cbn. by rewrite <- Permutation_middle. + done. + done.
  - rewrite servfail_miss in He by done. cbn [obind] in He. injection He as <- <-.
    constructor; cbn [record_effect sv_admission sv_running sv_others sv_missed sv_spawned sv_refused ad_permits ad_queue inflight_drops].
    + lia. + lia. + lia. + rewrite Hfa, <- !app_assoc. done. + by apply drops_succ. + done.
Qed.

Lemma serve_step_inv max w w' : serve_step w w' -> serve_inv max w -> serve_inv max w'.
Proof.
  destruct 1 as [q queue_ms a e w Hok He|in_time a e w He|w Hr|w Hr|w Hr]; intros Hinv.
  - by eapply serve_miss_inv.
  - by eapply serve_admit_inv.
  - destruct Hinv. constructor; cbn; try done; lia.
  - destruct Hinv. constructor; cbn; try done; lia.
  - destruct Hinv. constructor; cbn; try done; lia.
Qed.

(** Admission under overload.  In every state that queries, the admission task, the
    resolver tasks and the other shards can reach: at most [max_inflight] resolver tasks
    hold permits, over all shards, and every permit is free or held by one; the queue is
    bounded; each query that missed the cache was given to a resolver, refused or still
    waits, exactly once; the refused ones are the drop counter (at 64 bits); and the
    admission task always gets past the query at the head of the queue. *)
Theorem admission_accounts max w : (0 <= max)%Z -> rtc serve_step (serve_start max) w ->
  (0 <= sv_running w + sv_others w <= max)%Z /\ (ad_permits (sv_admission w) + sv_running w + sv_others w = max)%Z /\
  length (ad_queue (sv_admission w)) <= ADMISSION_QUEUE_CAP /\
  sv_missed w ≡ₚ sv_spawned w ++ sv_refused w ++ ad_queue (sv_admission w) /\
  inflight_drops (sv_admission w) = wrap 64 (Z.of_nat (length (sv_refused w))) /\
  forall q rest in_time, ad_queue (sv_admission w) = q :: rest -> exists a e, admission_turn (sv_admission w) in_time = Ret (a, e) /\ ad_queue a = rest.
Proof.
  intros Hmax Hr. assert (Hinv : serve_inv max w).
  { assert (H : forall a b, rtc serve_step a b -> serve_inv max a -> serve_inv max b) by (induction 1; eauto using serve_step_inv).
    apply (H _ _ Hr). constructor; cbn [serve_start sv_admission sv_running sv_others sv_missed sv_spawned sv_refused ad_permits ad_queue inflight_drops]; [lia|lia|cbn; lia|done|done|done]. }
  destruct Hinv as [Hp Hf Hq Hfa Hd Hm]. split; [lia|]. do 4 (split; [done|]). intros q rest in_time Hqu. unfold admission_turn. rewrite Hqu in *.
  apply Forall_cons in Hm as [Hmq _]. destruct (in_time && _); [by eexists _, _|]. rewrite servfail_miss by done. cbn [obind]. by eexists _, _.
Qed.

Module ServeDemo.
Import FilterDemo PipelineDemo.
Definition peer : SockAddr := SockV4 [192; 0; 2; 1]%Z 5353.
Definition full : Admission := mkAdmission 0 [] 0 0.

(** A miss while no permit is free waits in the queue. *)
Lemma process_packet_witness :
  exists a' c' k' q, process_packet full query peer cache0 counters0 false 50 7 0 0 = Ret (a', c', k', EffQueued q) /\
    miss_ok q /\ pq_deadline q = 57%Z /\ ad_queue a' = [q].
Proof.
  destruct (process_packet_correct full query peer cache0 counters0 false 50 7 0 0) as (a' & c' & k' & e & He & _ & Hok).
  - apply query_bytes.
  - apply (reachable_ok (mkCacheConfig 100 10 3600)), reach_new.
  - assert (exists q, e = EffQueued q) as [q ->].
    { vm_compute in He. injection He as _ _ _ <-. by eexists. }
    exists a', c', k', q. split; [exact He|]. destruct Hok as (_ & _ & Hm & Hd & _ & _ & ->). split_and!; [exact Hm|exact Hd|reflexivity].
Defined.

Definition pending : PendingQuery := mkPendingQuery query peer fi1 probe 50.

Lemma pending_ok : miss_ok pending.
Proof. exact demo_ctx_ok. Defined.

(** With one permit, a second query waits and is refused at its deadline. *)
Definition world : ServeWorld := mkServeWorld (mkAdmission 0 [] 1 1) 1 0 [pending; pending] [pending] [pending].

Lemma serve_run : rtc serve_step (serve_start 1) world.
Proof.
  eapply rtc_l; [exact (serve_miss pending 50 (mkAdmission 0 [] 0 0) (EffSpawned pending) (serve_start 1) pending_ok eq_refl)|].
  eapply rtc_l; [refine (serve_miss pending 50 (mkAdmission 0 [pending] 1 0) (EffQueued pending) _ pending_ok _); by vm_compute|].
  eapply rtc_l; [|apply rtc_refl]. refine (serve_admit false (mkAdmission 0 [] 1 1) (EffRefused pending (Some (servfail_for pending))) _ _). by vm_compute.
Defined.

Lemma admission_witness : (sv_running world = 1 /\ 0 <= sv_running world + sv_others world <= 1)%Z.
Proof. split; [done|]. exact (proj1 (admission_accounts 1 world ltac:(lia) serve_run)). Defined.
End ServeDemo.
