(* ===== verification/UdpShard.v ===== *)
(** * One turn of a UDP shard ([serve_udp_uring] of src/src/udp_uring.rs)

    A shard reads every completion of its ring, handles each datagram, counts what the
    kernel reported, submits the receive operation again if it ended and sends the answers.
    This file puts the receive ring (UdpUring.v), the handling of a datagram (UdpServe.v)
    and the sending (UdpSend.v) together. *)

From S2P Require Import Prelude Hasher DnsName DnsQuery DnsQname DnsRecords DnsEdns Ecs DnsMessage DnsBuilder CacheMap Cache CacheKey CacheCorrect VerdictCache Ruleset RouteIndex RouteCorrect Router Resolver ResolverCorrect ConfigServers ConfigParse Config Sockets UdpUring UdpSend UdpServe.

(** The query log's counters the shard feeds. *)
Record ShardCounters := mkShardCounters { udp_truncated : Z; udp_rx_overflow : Z; udp_recv_lat_us_acc : Z }.

Record Shard (CS : Type) := mkShard {
  sh_ring : ProvidedBufRing; sh_needs_arm : bool; last_rxq_ovfl : Z; sh_stats : ShardCounters;
  sh_admission : Admission; sh_cache : DnsCache CS; sh_counters : Counters;
  sh_calls : nat; pending_sends : list (list Z * SockAddr); sh_send : SendCounters
}.
Arguments mkShard {CS}.
Arguments sh_ring {CS}.
Arguments sh_needs_arm {CS}.
Arguments last_rxq_ovfl {CS}.
Arguments sh_stats {CS}.
Arguments sh_admission {CS}.
Arguments sh_cache {CS}.
Arguments sh_counters {CS}.
Arguments sh_calls {CS}.
Arguments pending_sends {CS}.
Arguments sh_send {CS}.

(** What is pushed to [send_items] for a datagram. *)
Definition reply_item (peer : SockAddr) (e : packet_effect) : option (list Z * SockAddr) :=
  match e with EffReply resp => Some (resp, peer) | EffRefused _ (Some sf) => Some (sf, peer) | _ => None end.

(** The counters after a drain, and the overflow value last seen. *)
Definition count_drain (stats : DrainStats) (last : Z) (c : ShardCounters) : ShardCounters * Z :=
  let truncated := wrap 64 (udp_truncated c + Z.of_nat (ds_truncated stats)) in
  let lat := Z.max (udp_recv_lat_us_acc c) (ds_recv_lat_us stats) in
  match ds_rx_overflow stats with
  | Some cur => (mkShardCounters truncated (wrap 64 (udp_rx_overflow c + rx_overflow_delta last cur)) lat, cur)
  | None => (mkShardCounters truncated (udp_rx_overflow c) lat, last)
  end.

Section shard.
Context {CS : Type} `{!CacheMap CS Z Entry}.
Context (diagnostics : UdpDiagnostics) (now : timespec) (parse_out : nat -> Z -> option recvmsg_out).
Context (sendmmsg : nat -> list (list Z * SockAddr) -> send_result) (capacity batch_size : nat).
Context (collecting : bool) (queue_ms : Z).
(** The clocks read for the [i]-th datagram. *)
Context (clock : nat -> Z * Z * Z).

(** [process_packet] on each datagram of a drain. *)
Fixpoint process_all (i : nat) (pkts : list (list Z * SockAddr)) (a : Admission) (cache : DnsCache CS) (counters : Counters)
    : outcome (Admission * DnsCache CS * Counters * list packet_effect) :=
  match pkts with
  | [] => Ret (a, cache, counters, [])
  | (pkt, peer) :: pkts =>
      let '(t, t1, t2) := clock i in
      let! (a, cache, counters, e) := process_packet a pkt peer cache counters collecting queue_ms t t1 t2 in
      let! (a, cache, counters, es) := process_all (S i) pkts a cache counters in
      Ret (a, cache, counters, e :: es)
  end.

(** The body of the loop for the completions there are; [None] is the end of the shard when
    the receive operation cannot be submitted again.  Also what became of each datagram and
    the log of the sending. *)
Definition shard_turn (cqes : list cqe) (arm_ok : bool) (s : Shard CS)
    : outcome (option (Shard CS * list (list Z * SockAddr) * list packet_effect * list ((list Z * SockAddr) * bool))) :=
  let! (ring, stats, pkts, ended) := drain diagnostics now parse_out cqes (sh_ring s) in
  let! (admission, cache, counters, effects) := process_all 0 pkts (sh_admission s) (sh_cache s) (sh_counters s) in
  let send_items := omap (fun x => reply_item (snd (fst x)) (snd x)) (zip pkts effects) in
  let '(stats', last) := count_drain stats (last_rxq_ovfl s) (sh_stats s) in
  if (sh_needs_arm s || ended) && negb arm_ok then Ret None
  else
    let! (calls, log, pending, send) := send_turn sendmmsg capacity batch_size (sh_calls s) send_items (pending_sends s) (sh_send s) in
    Ret (Some (mkShard ring false last stats' admission cache counters calls pending send, pkts, effects, log)).
End shard.

Section shard_theory.
Context {CS : Type} `{!CacheMap CS Z Entry, !CacheMapLaws CS Z Entry}.
Context (diagnostics : UdpDiagnostics) (now : timespec) (parse_out : nat -> Z -> option recvmsg_out).
Context (sendmmsg : nat -> list (list Z * SockAddr) -> send_result) (capacity batch_size : nat).
Context (collecting : bool) (queue_ms : Z) (clock : nat -> Z * Z * Z).
(** A delivered buffer is made of bytes. *)
Hypothesis parse_out_ok : forall bid len out, parse_out bid len = Some out ->
  bytes_ok (ro_control out) /\ (Z.of_nat (length (ro_control out)) < 2 ^ 63)%Z /\ bytes_ok (ro_payload out).
Hypothesis batch_pos : 0 < batch_size.
Hypothesis batch_fits : batch_size <= capacity.
(** sendmmsg(2): no more messages are taken than were offered. *)
Hypothesis sendmmsg_ok : forall i items n, sendmmsg i items = Sent n -> n <= length items.

(** ** The overflow counter is 32 bits wide *)

Definition ovfl_ok (o : option Z) : Prop := forall v, o = Some v -> u_ok 32 v.

Lemma control_message_ovfl level ty payload info : bytes_ok payload -> ovfl_ok (rxq_overflow info) -> ovfl_ok (rxq_overflow (control_message level ty payload info)).
Proof.
  intros Hb Hi. unfold control_message. repeat case_decide; try done.
  destruct (get_slice payload 0 4) as [bs|] eqn:Hg; [|done]. intros v [= <-].
  unfold get_slice in Hg. case_decide as Hl; [|done]. injection Hg as <-. pose proof (from_le_bound (take (4 - 0) (drop 0 payload))) as Hle.
  rewrite length_take, length_drop, Nat.min_l in Hle by lia. unfold u_ok. change (2 ^ 32)%Z with (256 ^ Z.of_nat (4 - 0))%Z. by apply Hle, Forall_take.
Qed.

Lemma slice_bytes (l : list Z) i j out : slice l i j = Ret out -> bytes_ok l -> bytes_ok out.
Proof. unfold slice. case_decide; [|done]. intros Hq%(inj Ret) Hb. subst out. by apply Forall_take, Forall_drop. Qed.

Lemma control_loop_ovfl fuel control offset info info' : bytes_ok control -> ovfl_ok (rxq_overflow info) ->
  control_loop fuel control offset info = Ret info' -> ovfl_ok (rxq_overflow info').
Proof.
  intros Hb. revert offset info. induction fuel as [|fuel IH]; intros offset info Hi; cbn [control_loop]; [done|].
  case_decide; [by intros ->%(inj Ret)|]. destruct (slice control (Z.to_nat offset) _) as [at_o| |]; cbn [obind]; [|done..].
  destruct (read_usize_ne at_o) as [len|]; [|by intros ->%(inj Ret)]. do 3 (case_decide; [by intros ->%(inj Ret)|]).
  destruct (slice control (Z.to_nat (offset + 8)) _) as [l| |]; cbn [obind]; [|done..].
  destruct (slice control (Z.to_nat (offset + 12)) _) as [t| |]; cbn [obind]; [|done..].
  destruct (read_c_int_ne l) as [level|], (read_c_int_ne t) as [ty|]; try (by intros ->%(inj Ret)).
  destruct (slice control (Z.to_nat (offset + _)) _) as [payload| |] eqn:Hp; cbn [obind]; [|done..].
  assert (ovfl_ok (rxq_overflow (control_message level ty payload info))) as Hi' by (apply control_message_ovfl; [by eapply slice_bytes|done]).
  do 2 (case_decide; [by intros <-%(inj Ret)|]). by apply IH.
Qed.

(** ** What a drain hands over *)

Lemma drain_packet_facts bid len out stats stats' here : parse_out bid len = Some out -> ovfl_ok (ds_rx_overflow stats) ->
  drain_packet diagnostics now out stats = Ret (stats', here) -> ovfl_ok (ds_rx_overflow stats') /\ Forall (fun p => bytes_ok (fst p)) here.
Proof.
  intros (Hb & _ & Hp)%parse_out_ok Hi. unfold drain_packet.
  destruct (drain_control diagnostics now out stats) as [s| |] eqn:Hd; cbn [obind]; [|done..].
  assert (ovfl_ok (ds_rx_overflow s)) as Hs.
  { revert Hd. unfold drain_control. destruct (at_least_basic diagnostics); [|by intros <-%(inj Ret)].
    destruct (parse_control (ro_control out)) as [ctl| |] eqn:Hc; cbn [obind]; [|done..]. intros <-%(inj Ret). cbn [ds_rx_overflow].
    apply control_loop_ovfl in Hc; [|done|done]. destruct (rxq_overflow ctl); [done|done]. }
  case_match; [intros Hq; injection Hq as <- <-; split; [done|by apply Forall_nil]|].
  case_match; [case_decide|]; intros Hq; injection Hq as <- <-; (split; [done|]); [by apply Forall_nil|by apply Forall_singleton|by apply Forall_nil].
Qed.

Lemma drain_loop_facts cqes r stats r' stats' pkts e n : ovfl_ok (ds_rx_overflow stats) ->
  drain_loop diagnostics now parse_out cqes r stats = Ret (r', stats', pkts, e, n) ->
  ovfl_ok (ds_rx_overflow stats') /\ Forall (fun p => bytes_ok (fst p)) pkts.
Proof.
  revert r stats r' stats' pkts e n. induction cqes as [|c cqes IH]; intros r stats r' stats' pkts e n Hi; cbn [drain_loop].
  - intros Hq. injection Hq as <- <- <- <- <-. split; [done|by apply Forall_nil].
  - destruct (cq_buffer c) as [bid|].
    + destruct (if decide (cq_result c <= 0)%Z then _ else _) as [[s here]| |] eqn:Hs; cbn [obind]; [|done..].
      assert (ovfl_ok (ds_rx_overflow s) /\ Forall (fun p => bytes_ok (fst p)) here) as [Hs' Hh].
      { revert Hs. case_decide; [intros Hq; injection Hq as <- <-; split; [done|by apply Forall_nil]|].
        destruct (parse_out bid (cq_result c)) eqn:Hp; [by eapply drain_packet_facts|]. intros Hq. injection Hq as <- <-. split; [done|by apply Forall_nil]. }
      destruct (drain_loop diagnostics now parse_out cqes (put r bid) s) as [[[[[r1 s1] p1] e1] n1]| |] eqn:Hd; cbn [obind]; [|done..].
      intros Hq. injection Hq as <- <- <- <- <-. destruct (IH _ _ _ _ _ _ _ Hs' Hd) as [H1 H2]. split; [done|]. by apply Forall_app.
    + destruct (drain_loop diagnostics now parse_out cqes r stats) as [[[[[r1 s1] p1] e1] n1]| |] eqn:Hd; cbn [obind]; [|done..].
      intros Hq. injection Hq as <- <- <- <- <-. by eapply IH.
Qed.

(** ** Every datagram has its fate *)

Fixpoint fates (i : nat) (a : Admission) (pkts : list (list Z * SockAddr)) (es : list packet_effect) (a' : Admission) : Prop :=
  match pkts, es with
  | [], [] => a' = a
  | (pkt, peer) :: pkts, e :: es => exists a1, effect_ok a pkt peer queue_ms (fst (fst (clock i))) a1 e /\ fates (S i) a1 pkts es a'
  | _, _ => False
  end.

Lemma process_all_spec i pkts a (cache : DnsCache CS) counters : Forall (fun p => bytes_ok (fst p)) pkts -> cache_ok cache ->
  exists a' cache' counters' es, process_all collecting queue_ms clock i pkts a cache counters = Ret (a', cache', counters', es) /\
    cache_ok cache' /\ fates i a pkts es a'.
Proof.
  intros Hp. revert i a cache counters. induction Hp as [|[pkt peer] pkts Hb _ IH]; intros i a cache counters Hc; cbn [process_all].
  - eexists _, _, _, _. split; [done|]. by split.
  - destruct (clock i) as [[t t1] t2] eqn:Ht.
    destruct (process_packet_spec a pkt peer cache counters collecting queue_ms t t1 t2 Hb Hc) as (a1 & c1 & n1 & e & -> & Hc1 & He). cbn [obind].
    destruct (IH (S i) a1 c1 n1 Hc1) as (a2 & c2 & n2 & es & -> & Hc2 & Hf). cbn [obind]. eexists _, _, _, _. split; [done|]. split; [done|].
    cbn [fates]. exists a1. rewrite Ht. by split.
Qed.

(** ** The turn *)

(** [head] and [cq] are the kernel's side of the ring. *)
Record shard_inv (k : nat) (head : Z) (cq : list cqe) (s : Shard CS) : Prop := mkShardInv {
  shi_ring : ring_inv k (mkRingWorld (sh_ring s) head cq);
  shi_cache : cache_ok (sh_cache s);
  shi_pending : length (pending_sends s) <= PENDING_SEND_CAP;
  shi_drops : u_ok 64 (udp_send_drops (sh_send s));
  shi_ovfl : u_ok 32 (last_rxq_ovfl s) /\ wrap 32 (udp_rx_overflow (sh_stats s)) = last_rxq_ovfl s
}.

Lemma count_drain_ovfl stats last c : ovfl_ok (ds_rx_overflow stats) -> u_ok 32 last -> wrap 32 (udp_rx_overflow c) = last ->
  u_ok 32 (snd (count_drain stats last c)) /\ wrap 32 (udp_rx_overflow (fst (count_drain stats last c))) = snd (count_drain stats last c).
Proof.
  intros Ho Hl Hw. unfold count_drain. destruct (ds_rx_overflow stats) as [cur|]; cbn [fst snd udp_rx_overflow]; [|done].
  specialize (Ho cur eq_refl). split; [done|]. unfold u_ok in Ho. unfold rx_overflow_delta, wrap in *. change (2 ^ 64)%Z with (2 ^ 32 * 2 ^ 32)%Z.
  rewrite Z.rem_mul_r by lia. rewrite Z.mul_comm, Z.mod_add by lia. rewrite Z.mod_mod by lia. rewrite Z.add_mod_idemp_r by lia.
  rewrite Z.add_mod, Hw by lia. rewrite <- (Z.mod_small last (2 ^ 32)) at 1 by done. rewrite <- Z.add_mod by lia.
  replace (last + (cur - last))%Z with cur by lia. by apply Z.mod_small.
Qed.

(** The answers of a turn, in the order of the datagrams. *)
Definition replies (pkts : list (list Z * SockAddr)) (es : list packet_effect) : list (list Z * SockAddr) :=
  omap (fun x => reply_item (snd (fst x)) (snd x)) (zip pkts es).

End shard_theory.

(** ** An example *)

Module ShardDemo.
Import FilterDemo PipelineDemo.
Definition parse (bid : nat) (len : Z) : option recvmsg_out := Some (mkOut [] false (sockaddr_in_from [192; 0; 2; 1]%Z 5353) query).

Lemma parse_ok bid len out : parse bid len = Some out -> bytes_ok (ro_control out) /\ (Z.of_nat (length (ro_control out)) < 2 ^ 63)%Z /\ bytes_ok (ro_payload out).
Proof. intros [= <-]. split_and!; [constructor|done|apply query_bytes]. Defined.

Definition kernel (i : nat) (items : list (list Z * SockAddr)) : send_result := Sent (length items).

Lemma kernel_ok i items n : kernel i items = Sent n -> n <= length items.
Proof. intros Hn. apply (inj Sent) in Hn. by rewrite <- Hn. Defined.

(** One buffer is filled; no permit is free and there is no queue: the query is refused. *)
Definition shard : Shard _ := mkShard UringDemo.filled false 0 (mkShardCounters 0 0 0) (mkAdmission 0 [] 0 0) cache0 counters0 0 [] (mkSendCounters 0 0).

Lemma shard_ok : shard_inv 1 1 ([mkCqe true (Some 0) 150%Z] ++ []) shard.
Proof.
  constructor; [|apply (reachable_ok (mkCacheConfig 100 10 3600)), reach_new|cbn; lia|by vm_compute|by vm_compute].
  refine (ring_step_inv DiagOff UringDemo.now UringDemo.parse UringDemo.parse_bytes 1 (mkRingWorld UringDemo.filled 0 []) _ _ (ring_init_inv 1 2400 UringDemo.fresh eq_refl _)); [|lia].
  refine (kernel_fills DiagOff UringDemo.now UringDemo.parse true 150 0 (mkRingWorld UringDemo.filled 0 []) _ _); [discriminate|reflexivity].
Defined.

End ShardDemo.
