(* ===== verification/Listener.v ===== *)
(** * Listeners (src/src/listener.rs; serve of src/src/server.rs; interface_names of
    src/src/sys.rs)

    The sockets a configuration opens, the limit on TCP connections, and one TCP
    connection: queries are separated from the byte stream, answered from the cache or
    given to resolver tasks, and every response is written as one frame under the
    connection's lock.  Read errors, timeouts and end of file all end the connection, so a
    connection is the bytes that arrive before one of them. *)

From S2P Require Import Prelude Hasher DnsName DnsQuery DnsQname DnsRecords DnsEdns Ecs DnsMessage DnsBuilder CacheMap Cache CacheKey CacheCorrect VerdictCache Ruleset RouteIndex RouteCorrect Router Resolver ResolverCorrect UpstreamUrl ConfigServers ConfigParse Config TcpMux.

(** ** Sockets *)

Inductive listen_proto := ListenUdp | ListenTcp.
Record listen_socket := mkListen { ls_addr : SocketAddr; ls_iface : option (list Z); ls_proto : listen_proto }.

Inductive serve_error := NoProtocol | NoInterfaces | EnumerationFailed.

(** [interface_names]: the names of the entries, each once, in order. *)
Definition interface_names (entries : list (list Z)) : list (list Z) := foldl (fun names n => if decide (n ∈ names) then names else names ++ [n]) [] entries.

(** The interfaces [serve] binds to; [enumerated] is what getifaddrs lists. *)
Definition serve_interfaces (filter : InterfaceFilter) (enumerated : option (list (list Z))) : result serve_error (list (option (list Z))) :=
  match filter with
  | AllInterfaces => Ok [None]
  | Only names => Ok (Some <$> names)
  | Except excluded =>
      match enumerated with
      | None => Err EnumerationFailed
      | Some entries =>
          let filtered := List.filter (fun n => negb (bool_decide (n ∈ excluded))) (interface_names entries) in
          if decide (filtered = []) then Err NoInterfaces else Ok (Some <$> filtered)
      end
  end.

(** One socket group per endpoint, interface and protocol. *)
Definition endpoint_sockets (ep : BindEndpoint) (iface : option (list Z)) : list listen_socket :=
  (if be_udp ep then [mkListen (be_addr ep) iface ListenUdp] else []) ++ (if be_tcp ep then [mkListen (be_addr ep) iface ListenTcp] else []).

Definition serve (bind : list BindEndpoint) (filter : InterfaceFilter) (enumerated : option (list (list Z))) : result serve_error (list listen_socket) :=
  if negb (existsb (fun ep => be_udp ep || be_tcp ep) bind) then Err NoProtocol
  else
    match serve_interfaces filter enumerated with
    | Err e => Err e
    | Ok ifaces => Ok (ep ← bind; iface ← ifaces; endpoint_sockets ep iface)
    end.

(** ** The connection limit *)

(** [tcp_conn_limit]: free permits, or no limit. *)
Definition accept_conn (limit : option Z) : option Z * bool :=
  match limit with
  | None => (None, true)
  | Some free => if decide (0 < free)%Z then (Some (free - 1)%Z, true) else (Some free, false)
  end.

Definition close_conn (limit : option Z) : option Z := (fun free => free + 1)%Z <$> limit.

(** ** One connection *)

Inductive tcp_write_error := DnsTooLarge | WriteError.

(** [write_tcp_response]: the bytes written. *)
Definition write_tcp_response (write_ok : bool) (resp : list Z) : result tcp_write_error (list Z) :=
  if decide (65535 < Z.of_nat (length resp))%Z then Err DnsTooLarge
  else if write_ok then Ok (to_be 2 (Z.of_nat (length resp)) ++ resp)
  else Err WriteError.

(** What the read loop did with a query: a response on the wire, nothing, a resolver
    task. *)
Inductive conn_event := ConnWrote (bytes : list Z) | ConnDropped | ConnSpawned (packet : list Z) (info : FastQueryInfo) (probe : CacheProbe).

Section conn.
Context {CS : Type} `{!CacheMap CS Z Entry}.
(** Per query: the two clock readings of the cache and whether a write would succeed. *)
Context (collecting : bool) (clock : nat -> Z * Z) (write_ok : nat -> bool).

(** One query of the connection: the event, or the end of the connection. *)
Definition conn_query (i : nat) (pkt : list Z) (cache : DnsCache CS) (counters : Counters) : outcome (option conn_event * DnsCache CS * Counters) :=
  let! (o, cache, counters) := try_fast_path_into pkt Tcp cache counters collecting (clock i).1 (clock i).2 in
  Ret (match o with
       | FpResponse resp => match write_tcp_response (write_ok i) resp with Ok bytes => Some (ConnWrote bytes) | Err _ => None end
       | FpDrop => Some ConnDropped
       | FpMiss info probe => Some (ConnSpawned pkt info probe)
       end, cache, counters).

(** The read loop of [handle_tcp_conn] on the bytes that arrive. *)
Fixpoint handle_tcp_conn (fuel i : nat) (stream : list Z) (cache : DnsCache CS) (counters : Counters) : outcome (list conn_event * DnsCache CS * Counters) :=
  match fuel with
  | O => OutOfFuel
  | S fuel' =>
      if decide (length stream < 2) then Ret ([], cache, counters)
      else
        let! len := u16_at stream 0 in
        let len := Z.to_nat len in
        let stream := drop 2 stream in
        if decide (len = 0) then handle_tcp_conn fuel' i stream cache counters
        else if decide (length stream < len) then Ret ([], cache, counters)
        else
          let! (e, cache, counters) := conn_query i (take len stream) cache counters in
          match e with
          | None => Ret ([], cache, counters)
          | Some e =>
              let! (events, cache, counters) := handle_tcp_conn fuel' (S i) (drop len stream) cache counters in
              Ret (e :: events, cache, counters)
          end
  end.

(** ** What it should do *)

(** The queries of a connection one after the other. *)
Fixpoint conn_queries (i : nat) (pkts : list (list Z)) (cache : DnsCache CS) (counters : Counters) : outcome (list conn_event * DnsCache CS * Counters) :=
  match pkts with
  | [] => Ret ([], cache, counters)
  | pkt :: pkts' =>
      let! (e, cache, counters) := conn_query i pkt cache counters in
      match e with
      | None => Ret ([], cache, counters)
      | Some e => let! (events, cache, counters) := conn_queries (S i) pkts' cache counters in Ret (e :: events, cache, counters)
      end
  end.

(** Bytes that hold no complete frame. *)
Definition incomplete (tail : list Z) : Prop := length tail < 2 \/ length (drop 2 tail) < Z.to_nat (be16 tail 0).

Definition nonempty (pkts : list (list Z)) : list (list Z) := List.filter (fun p => negb (bool_decide (p = []))) pkts.
End conn.

(** ** Frames *)

Definition fits (pkt : list Z) : Prop := (Z.of_nat (length pkt) <= 65535)%Z.

Lemma be16_frame pkt rest : fits pkt -> be16 (frame pkt ++ rest) 0 = Z.of_nat (length pkt).
Proof.
  intros Hf. unfold fits in Hf. unfold frame, push_framed, wrap. rewrite Z.mod_small by lia. cbn [app]. rewrite <- app_assoc.
  pose proof (be16_app [] (Z.of_nat (length pkt)) (pkt ++ rest)) as Hb. cbn [app length] in Hb. apply Hb. unfold u_ok. lia.
Qed.

Lemma drop2_frame pkt rest : drop 2 (frame pkt ++ rest) = pkt ++ rest.
Proof. unfold frame, push_framed. cbn [app]. rewrite <- app_assoc. apply drop_app_length'. by rewrite length_to_be. Qed.

Lemma frames_cons pkt pkts : frames (pkt :: pkts) = frame pkt ++ frames pkts.
Proof. done. Qed.

Lemma frame_complete pkt rest : fits pkt -> ~ incomplete (frame pkt ++ rest).
Proof.
  intros Hf [Hl|Hl].
  - rewrite length_app, length_frame in Hl. lia.
  - rewrite drop2_frame, be16_frame, length_app in Hl by done. lia.
Qed.

(** A stream is cut into frames in one way only. *)
Lemma frames_unique pkts pkts' tail tail' : Forall fits pkts -> Forall fits pkts' -> incomplete tail -> incomplete tail' ->
  frames pkts ++ tail = frames pkts' ++ tail' -> pkts = pkts' /\ tail = tail'.
Proof.
  intros Hp. revert pkts'. induction Hp as [|p pkts Hfp _ IH]; intros pkts' Hp' Ht Ht' He; destruct Hp' as [|p' pkts' Hfp' Hp'].
  - done.
  - exfalso. change (tail = frames (p' :: pkts') ++ tail') in He. rewrite frames_cons, <- app_assoc in He. subst tail. by eapply frame_complete.
  - exfalso. change (frames (p :: pkts) ++ tail = tail') in He. rewrite frames_cons, <- app_assoc in He. subst tail'. by eapply frame_complete.
  - rewrite !frames_cons, <- !app_assoc in He. pose proof (f_equal (fun l => be16 l 0) He) as Hl. cbv beta in Hl. rewrite !be16_frame in Hl by done.
    apply (f_equal (drop 2)) in He. rewrite !drop2_frame in He. apply app_inj_1 in He as [-> He]; [|lia].
    destruct (IH pkts' Hp' Ht Ht' He) as [-> ->]. done.
Qed.

Lemma split_frames stream : bytes_ok stream ->
  exists pkts tail, stream = frames pkts ++ tail /\ Forall fits pkts /\ incomplete tail.
Proof.
  induction stream as [stream IH] using (induction_ltof1 _ length). unfold ltof in IH. intros Hb.
  destruct (decide (length stream < 2 \/ length (drop 2 stream) < Z.to_nat (be16 stream 0))) as [Hi|Hi]; [by exists [], stream|].
  pose proof (be16_bound stream 0 Hb) as Hbd. set (n := Z.to_nat (be16 stream 0)) in *.
  destruct (IH (drop n (drop 2 stream))) as (pkts & tail & He & Hf & Ht); [rewrite !length_drop; lia|by do 2 apply Forall_drop|].
  exists (take n (drop 2 stream) :: pkts), tail. split; [|split; [constructor; [unfold fits; rewrite length_take; lia|done]|done]].
  rewrite frames_cons, <- app_assoc, <- He. unfold frame, push_framed. cbn [app]. rewrite <- app_assoc, take_drop.
  rewrite length_take, Nat.min_l by lia. unfold n, wrap. rewrite Z2Nat.id, Z.mod_small, to_be_be16 by (done || lia).
  by rewrite take_drop.
Qed.

Section conn_proofs.
Context {CS : Type} `{!CacheMap CS Z Entry, !CacheMapLaws CS Z Entry}.
Context (collecting : bool) (clock : nat -> Z * Z) (write_ok : nat -> bool).

Lemma conn_query_spec i pkt (cache : DnsCache CS) counters : bytes_ok pkt -> cache_ok cache ->
  exists e cache' counters', conn_query collecting clock write_ok i pkt cache counters = Ret (e, cache', counters') /\ cache_ok cache' /\
    forall bytes, e = Some (ConnWrote bytes) -> exists resp, bytes = frame resp /\ fits resp /\ take 2 resp = take 2 pkt.
Proof.
  intros Hb Hc. unfold conn_query. destruct (fast_path_spec pkt Tcp cache counters collecting (clock i).1 (clock i).2 Hb Hc) as (o & c' & k' & -> & Hc' & Ho).
  cbn [obind]. eexists _, _, _. split; [done|]. split; [done|]. intros bytes He. destruct o as [resp| |]; [|done|done].
  unfold write_tcp_response in He. case_decide as Hl; [done|]. destruct (write_ok i); [|done].
  assert (bytes = to_be 2 (Z.of_nat (length resp)) ++ resp) as -> by congruence. exists resp.
  assert (fits resp) by (unfold fits; lia). split; [|split; [done|apply Ho]]. unfold frame, push_framed, wrap. by rewrite Z.mod_small by lia.
Qed.

Lemma handle_frames fuel i pkts tail (cache : DnsCache CS) counters : Forall fits pkts -> incomplete tail -> length pkts < fuel ->
  handle_tcp_conn collecting clock write_ok fuel i (frames pkts ++ tail) cache counters
  = conn_queries collecting clock write_ok i (nonempty pkts) cache counters.
Proof.
  intros Hf Ht. revert fuel i cache counters. induction Hf as [|p pkts Hp _ IH]; intros fuel i cache counters Hfu; (destruct fuel as [|fuel]; [cbn in Hfu; lia|]); cbn [length] in Hfu.
  - cbn [frames fmap list_fmap concat app handle_tcp_conn]. case_decide as H2; [done|]. rewrite u16_at_be16 by lia. cbn [obind].
    destruct Ht as [Ht|Ht]; [lia|]. rewrite decide_False by lia. by rewrite decide_True.
  - rewrite frames_cons, <- app_assoc. cbn [handle_tcp_conn]. rewrite decide_False by (rewrite length_app, length_frame; lia).
    rewrite u16_at_be16 by (rewrite length_app, length_frame; lia). cbn [obind]. rewrite be16_frame, Nat2Z.id, drop2_frame by done.
    unfold nonempty. cbn [List.filter]. case_decide as H0.
    + apply length_zero_iff_nil in H0 as ->. cbn [app negb]. rewrite bool_decide_eq_true_2 by done. cbn [negb]. apply IH. lia.
    + rewrite bool_decide_eq_false_2 by (intros ->; done). cbn [negb conn_queries]. rewrite decide_False by (rewrite length_app; lia).
      rewrite take_app_length, drop_app_length. destruct (conn_query collecting clock write_ok i p cache counters) as [[[[e|] c'] k']| |]; [|done..].
      cbn [obind]. rewrite IH by lia. done.
Qed.

Lemma conn_queries_spec i pkts (cache : DnsCache CS) counters : Forall (fun p => bytes_ok p) pkts -> cache_ok cache ->
  exists events cache' counters', conn_queries collecting clock write_ok i pkts cache counters = Ret (events, cache', counters') /\ cache_ok cache' /\
    forall bytes, ConnWrote bytes ∈ events -> exists resp pkt, bytes = frame resp /\ fits resp /\ pkt ∈ pkts /\ take 2 resp = take 2 pkt.
Proof.
  intros Hb. revert i cache counters. induction Hb as [|p pkts Hp _ IH]; intros i cache counters Hc; cbn [conn_queries].
  - eexists _, _, _. split; [done|]. split; [done|]. by intros bytes ?%not_elem_of_nil.
  - destruct (conn_query_spec i p cache counters Hp Hc) as (e & c' & k' & -> & Hc' & He). cbn [obind]. destruct e as [e|].
    + destruct (IH (S i) c' k' Hc') as (evs & c2 & k2 & -> & Hc2 & Hevs). cbn [obind]. eexists _, _, _. split; [done|]. split; [done|].
      intros bytes [<-|Hin]%elem_of_cons.
      * destruct (He bytes eq_refl) as (resp & H1 & H2 & H3). exists resp, p. split_and!; [done|done|by left|done].
      * destruct (Hevs bytes Hin) as (resp & pkt & H1 & H2 & H3 & H4). exists resp, pkt. split_and!; [done|done|by right|done].
    + eexists _, _, _. split; [done|]. split; [done|]. by intros bytes ?%not_elem_of_nil.
Qed.

Lemma bytes_frames pkts : bytes_ok (frames pkts) -> Forall (fun p => bytes_ok p) pkts.
Proof.
  induction pkts as [|p pkts IH]; [constructor|]. rewrite frames_cons. intros [Hp Hr]%Forall_app. constructor; [|by apply IH].
  unfold frame, push_framed in Hp. cbn [app] in Hp. by apply Forall_app in Hp as [_ Hp].
Qed.

Lemma length_frames pkts : length pkts <= length (frames pkts).
Proof. induction pkts as [|p pkts IH]; [done|]. rewrite frames_cons, length_app, length_frame. cbn [length]. lia. Qed.

End conn_proofs.

(** The frames of all tasks of a connection, in whatever order they got the lock, give the
    client exactly the responses. *)
Lemma written_responses_read resps pkts tail : Forall fits resps -> frames resps = frames pkts ++ tail -> Forall fits pkts -> incomplete tail ->
  pkts = resps /\ tail = [].
Proof.
  intros Hr He Hp Ht. symmetry in He. rewrite <- (app_nil_r (frames resps)) in He.
  eapply frames_unique; [done|done|done| |done]. left. cbn. lia.
Qed.

(** ** Limits and sockets *)

(** At most [max] connections are open; a refused one changes nothing. *)
Lemma conn_limit_kept free limit ok : accept_conn limit = (free, ok) ->
  match limit, free with
  | Some a, Some b => (0 <= a -> 0 <= b /\ (ok = true -> b = a - 1) /\ (ok = false -> a = 0 /\ b = a))%Z
  | None, None => ok = true
  | _, _ => False
  end /\ (ok = true -> close_conn free = limit).
Proof.
  unfold accept_conn, close_conn. destruct limit as [a|]; [|by intros [= <- <-]]. case_decide; intros [= <- <-]; cbn.
  - split; [lia|]. intros _. f_equal. lia.
  - split; [lia|done].
Qed.

Lemma interface_names_spec entries : NoDup (interface_names entries) /\ forall n, n ∈ interface_names entries <-> n ∈ entries.
Proof.
  unfold interface_names. assert (H : forall acc : list (list Z), NoDup acc ->
    NoDup (foldl (fun names n => if decide (n ∈ names) then names else names ++ [n]) acc entries) /\
    forall n, n ∈ foldl (fun names n => if decide (n ∈ names) then names else names ++ [n]) acc entries <-> n ∈ acc \/ n ∈ entries).
  { induction entries as [|e entries IH]; intros acc Hacc; cbn [foldl]; [split; [done|]; intros n; rewrite elem_of_nil; tauto|].
    case_decide as He.
    - destruct (IH acc Hacc) as [H1 H2]. split; [done|]. intros n. rewrite H2, elem_of_cons. naive_solver.
    - destruct (IH (acc ++ [e])) as [H1 H2].
      { apply NoDup_app. split_and!; [done| |apply NoDup_singleton]. intros x Hx ->%list_elem_of_singleton. done. }
      split; [done|]. intros n. rewrite H2, elem_of_app, list_elem_of_singleton, elem_of_cons. naive_solver. }
  destruct (H [] (NoDup_nil_2)) as [H1 H2]. split; [done|]. intros n. rewrite H2, elem_of_nil. naive_solver.
Qed.

(** The sockets are those of each endpoint's protocols on each interface the filter
    leaves, and no excluded interface is listened on. *)
Lemma serve_sockets bind filter enumerated sockets : serve bind filter enumerated = Ok sockets ->
  forall addr iface proto, mkListen addr iface proto ∈ sockets <->
    (exists ep, ep ∈ bind /\ be_addr ep = addr /\ (match proto with ListenUdp => be_udp ep | ListenTcp => be_tcp ep end) = true) /\
    match filter with
    | AllInterfaces => iface = None
    | Only names => exists n, iface = Some n /\ n ∈ names
    | Except names => exists n entries, enumerated = Some entries /\ iface = Some n /\ n ∈ entries /\ n ∉ names
    end.
Proof.
  unfold serve. case_match; [done|]. destruct (serve_interfaces filter enumerated) as [ifaces|] eqn:Hi; [|done]. intros [= <-] addr iface proto.
  assert (Hif : iface ∈ ifaces <-> match filter with
    | AllInterfaces => iface = None | Only names => exists n, iface = Some n /\ n ∈ names
    | Except names => exists n entries, enumerated = Some entries /\ iface = Some n /\ n ∈ entries /\ n ∉ names end).
  { unfold serve_interfaces in Hi. destruct filter as [|names|names]; [injection Hi as <-..|].
    - apply list_elem_of_singleton.
    - rewrite list_elem_of_fmap. naive_solver.
    - destruct enumerated as [entries|]; [|done]. case_decide; [done|]. injection Hi as <-. rewrite list_elem_of_fmap.
      setoid_rewrite list_elem_of_In. setoid_rewrite filter_In. setoid_rewrite <- list_elem_of_In.
      setoid_rewrite (proj2 (interface_names_spec entries)). setoid_rewrite negb_true_iff. setoid_rewrite bool_decide_eq_false. naive_solver. }
  rewrite <- Hif. rewrite list_elem_of_bind. setoid_rewrite list_elem_of_bind. unfold endpoint_sockets. split.
  - intros (ep & (ifc & Hin & Hifc) & Hep). apply elem_of_app in Hin as [Hin|Hin]; case_match; try (by apply not_elem_of_nil in Hin);
      apply list_elem_of_singleton in Hin; injection Hin as -> -> ->; split; [by exists ep|done|by exists ep|done].
  - intros [(ep & Hep & <- & Hp) Hifc]. exists ep. split; [|done]. exists iface. split; [|done]. destruct proto; rewrite Hp; set_solver.
Qed.

Module ListenerDemo.
Import FilterDemo PipelineDemo.
(** Two pipelined queries with an empty frame between them, and a cut one. *)
Definition stream : list Z := frames [query; []; query2] ++ [0; 19; 1]%Z.


(** Both queries reach a resolver task, in order. *)
Example pipelined :
  match handle_tcp_conn false (fun _ => (0, 0)%Z) (fun _ => true) (S (length stream)) 0 stream cache0 counters0 with
  | Ret ([ConnSpawned p _ _; ConnSpawned p' _ _], _, _) => bool_decide (p = query /\ p' = query2)
  | _ => false
  end = true.
Proof. by vm_compute. Qed.
End ListenerDemo.
