(* ===== verification/Netlink.v ===== *)
(** * Netfilter messages (src/src/ipset/codec.rs, src/src/ipset/socket.rs)

    The wire-format builder, the three requests, the attribute iterator, the decoding
    of the kernel's replies and the address arithmetic of prefix ranges.  The byte
    order of the host ([to_ne_bytes]) is a parameter. *)

From S2P Require Import Prelude Hasher DnsName DnsQuery DnsRecords.

Definition NFNL_SUBSYS_IPSET : Z := 6.
Definition IPSET_CMD_ADD : Z := 9.
Definition IPSET_PROTOCOL : Z := 6.
Definition NFNL_SUBSYS_NFTABLES : Z := 10.
Definition NFT_MSG_NEWSET : Z := 9.
Definition NFT_MSG_GETSET : Z := 10.
Definition NFT_MSG_NEWSETELEM : Z := 12.
Definition NFNL_MSG_BATCH_BEGIN : Z := 16.
Definition NFNL_MSG_BATCH_END : Z := 17.
Definition NLM_F_REQUEST : Z := 0x01.
Definition NLM_F_CREATE : Z := 0x400.
Definition NLM_F_EXCL : Z := 0x200.
Definition NLMSG_ERROR : Z := 0x2.
Definition NLA_F_NESTED : Z := 0x8000.
Definition NLA_F_NET_BYTEORDER : Z := 0x4000.
Definition NLA_TYPE_MASK : Z := 0x3fff.
Definition IPSET_ATTR_PROTOCOL : Z := 1.
Definition IPSET_ATTR_SETNAME : Z := 2.
Definition IPSET_ATTR_LINENO : Z := 9.
Definition IPSET_ATTR_ADT : Z := 8.
Definition IPSET_ATTR_DATA : Z := 7.
Definition IPSET_ATTR_IP : Z := 1.
Definition IPSET_ATTR_IPADDR_IPV4 : Z := 1.
Definition IPSET_ATTR_IPADDR_IPV6 : Z := 2.
Definition IPSET_ATTR_CIDR : Z := 3.
Definition NFTA_SET_ELEM_LIST_TABLE : Z := 1.
Definition NFTA_SET_ELEM_LIST_SET : Z := 2.
Definition NFTA_SET_ELEM_LIST_ELEMENTS : Z := 3.
Definition NFTA_LIST_ELEM : Z := 1.
Definition NFTA_SET_ELEM_KEY : Z := 1.
Definition NFTA_SET_ELEM_FLAGS : Z := 3.
Definition NFTA_DATA_VALUE : Z := 1.
Definition NFT_SET_ELEM_INTERVAL_END : Z := 1.
Definition NFTA_SET_TABLE : Z := 1.
Definition NFTA_SET_NAME : Z := 2.
Definition NFTA_SET_FLAGS : Z := 3.
Definition NFT_SET_INTERVAL : Z := 0x4.
Definition AF_UNSPEC : Z := 0.
Definition AF_INET : Z := 2.
Definition AF_INET6 : Z := 10.

Inductive NftFamily := Inet | Ip | Ip6 | Arp | Bridge | Netdev.

#[export] Instance NftFamily_eq_dec : EqDecision NftFamily.
Proof. solve_decision. Defined.

Definition nft_family_code (family : NftFamily) : Z :=
  match family with Inet => 1 | Ip => 2 | Ip6 => 10 | Arp => 3 | Bridge => 7 | Netdev => 5 end.

Definition ip_family (ip : IpAddr) : Z := match ip with V4 _ => AF_INET | V6 _ => AF_INET6 end.

Definition ipset_msg_type (cmd : Z) : Z := Z.lor (Z.shiftl NFNL_SUBSYS_IPSET 8) cmd.
Definition nft_msg_type (cmd : Z) : Z := Z.lor (Z.shiftl NFNL_SUBSYS_NFTABLES 8) cmd.

(** ** Addresses *)

Definition octets (ip : IpAddr) : list Z := match ip with V4 o => o | V6 o => o end.

(** [MAX << n] of a [w]-bit integer. *)
Definition mask_bits (w prefix : Z) : Z :=
  if decide (prefix = 0)%Z then 0
  else if decide (w <= prefix)%Z then 2 ^ w - 1
  else wrap w (Z.shiftl (2 ^ w - 1) (w - prefix)).

Definition apply_mask (ip : IpAddr) (prefix : Z) : IpAddr :=
  match ip with
  | V4 o => V4 (to_be 4 (Z.land (from_be o) (mask_bits 32 prefix)))
  | V6 o => V6 (to_be 16 (Z.land (from_be o) (mask_bits 128 prefix)))
  end.

(** [1 << n] of a [w]-bit integer ([w] a power of two): without overflow checks, as in
    the release profile, the shift count is taken modulo [w]. *)
Definition shift_one (w n : Z) : Z := wrap w (Z.shiftl 1 (n mod w)).

Definition prefix_size (w prefix : Z) : Z :=
  if decide (w <= prefix)%Z then 1 else shift_one w (w - prefix).

Definition prefix_end (network : IpAddr) (prefix : Z) : IpAddr :=
  match network with
  | V4 o => V4 (to_be 4 (wrap 32 (from_be o + prefix_size 32 prefix)))
  | V6 o => V6 (to_be 16 (wrap 128 (from_be o + prefix_size 128 prefix)))
  end.

Definition ip_next (ip : IpAddr) : IpAddr :=
  match ip with
  | V4 o => V4 (to_be 4 (wrap 32 (from_be o + 1)))
  | V6 o => V6 (to_be 16 (wrap 128 (from_be o + 1)))
  end.

(** The requests. *)
Inductive NetfilterRequest :=
| IpsetAddBatch (name : list Z) (ips : list IpAddr) (mask : option Z)
| NftSetAdd (family : NftFamily) (table set : list Z) (ips : list IpAddr) (mask : option Z) (interval : bool)
| NftSetGetMeta (family : NftFamily) (table set : list Z).

Section host.
Context (big_endian : bool).

(** [to_ne_bytes] and [from_ne_bytes] *)
Definition to_ne (n : nat) (z : Z) : list Z := if big_endian then to_be n z else to_le n z.
Definition from_ne (l : list Z) : Z := if big_endian then from_be l else from_le l.

(** ** The builder

    [buf[i..j].copy_from_slice(x)] is [splice buf i x]; the buffer always holds the
    20 bytes of its header, so no slice is out of range. *)

Definition finish_len (buf : list Z) : list Z := splice buf 0 (to_ne 4 (wrap 32 (Z.of_nat (length buf)))).

Definition pad_to_4 (buf : list Z) : list Z := buf ++ replicate ((4 - length buf mod 4) mod 4) 0%Z.

Definition nl_new (msg_type flags family res_id : Z) : list Z :=
  let buf := replicate 20 0%Z in
  let buf := splice buf 4 (to_ne 2 msg_type) in
  let buf := splice buf 6 (to_ne 2 flags) in
  let buf := splice buf 16 [family] in
  let buf := splice buf 17 [0%Z] in
  let buf := splice buf 18 (to_be 2 res_id) in
  finish_len buf.

Definition nl_batch (msg_type : Z) : list Z := nl_new msg_type NLM_F_REQUEST AF_UNSPEC NFNL_SUBSYS_NFTABLES.

Definition set_seq (seq : Z) (buf : list Z) : list Z := splice buf 8 (to_ne 4 seq).

Definition attr (kind : Z) (data : list Z) (buf : list Z) : list Z :=
  let len := Z.of_nat (4 + length data) in
  finish_len (pad_to_4 (buf ++ to_ne 2 (wrap 16 len) ++ to_ne 2 kind ++ data)).

Definition attr_ip (kind : Z) (ip : IpAddr) (buf : list Z) : list Z := attr kind (octets ip) buf.

Definition attr_nul (kind : Z) (value : list Z) (buf : list Z) : list Z :=
  let len := wrap 16 (Z.of_nat (4 + length value + 1)) in
  finish_len (pad_to_4 (buf ++ to_ne 2 len ++ to_ne 2 kind ++ value ++ [0%Z])).

Definition nest (kind : Z) (f : list Z -> list Z) (buf : list Z) : list Z :=
  let start := length buf in
  let buf := f (buf ++ to_ne 2 0 ++ to_ne 2 (Z.lor kind NLA_F_NESTED)) in
  let raw_len := length buf - start in
  finish_len (pad_to_4 (splice buf start (to_ne 2 (wrap 16 (Z.of_nat raw_len))))).

(** ** Encoding *)

Definition ipset_elem (ip : IpAddr) (mask : option Z) (msg : list Z) : list Z :=
  nest IPSET_ATTR_DATA (fun msg =>
    let msg := nest IPSET_ATTR_IP (fun msg =>
      let kind := match ip with V4 _ => IPSET_ATTR_IPADDR_IPV4 | V6 _ => IPSET_ATTR_IPADDR_IPV6 end in
      attr_ip (Z.lor kind NLA_F_NET_BYTEORDER) ip msg) msg in
    match mask with
    | Some cidr => attr IPSET_ATTR_CIDR [cidr] msg
    | None => msg
    end) msg.

Definition nft_interval_elem (ip : IpAddr) (end_ : bool) (msg : list Z) : list Z :=
  nest NFTA_LIST_ELEM (fun msg =>
    let msg := if end_ then attr NFTA_SET_ELEM_FLAGS (to_be 4 NFT_SET_ELEM_INTERVAL_END) msg else msg in
    nest NFTA_SET_ELEM_KEY (fun msg => attr_ip (Z.lor NFTA_DATA_VALUE NLA_F_NET_BYTEORDER) ip msg) msg) msg.

Definition masked (mask : option Z) (ip : IpAddr) : IpAddr :=
  match mask with Some m => apply_mask ip m | None => ip end.

Definition encode_ipset_add_batch (name : list Z) (ips : list IpAddr) (mask : option Z) (seq : Z) : list Z :=
  match ips with
  | [] => []
  | first :: _ =>
      let msg := nl_new (ipset_msg_type IPSET_CMD_ADD) NLM_F_REQUEST (ip_family first) 0 in
      let msg := set_seq seq msg in
      let msg := attr IPSET_ATTR_PROTOCOL [IPSET_PROTOCOL] msg in
      let msg := attr_nul IPSET_ATTR_SETNAME name msg in
      let msg := attr IPSET_ATTR_LINENO (to_ne 4 0) msg in
      nest IPSET_ATTR_ADT (fun msg => foldl (fun msg ip => ipset_elem (masked mask ip) mask msg) msg ips) msg
  end.

(** The elements one address is written as: the address and whether it ends a range. *)
Definition nft_elements (mask : option Z) (interval : bool) (ip : IpAddr) : list (IpAddr * bool) :=
  match mask with
  | Some prefix =>
      let net := apply_mask ip prefix in
      if interval then [(net, false); (prefix_end net prefix, true)] else [(net, false)]
  | None => if interval then [(ip, false); (ip_next ip, true)] else [(ip, false)]
  end.

Definition encode_nftset_add (family : NftFamily) (table set : list Z) (ips : list IpAddr) (mask : option Z)
  (interval : bool) (seq : Z) : list Z :=
  let begin := set_seq seq (nl_batch NFNL_MSG_BATCH_BEGIN) in
  let msg := nl_new (nft_msg_type NFT_MSG_NEWSETELEM) (Z.lor (Z.lor NLM_F_REQUEST NLM_F_CREATE) NLM_F_EXCL)
               (nft_family_code family) 0 in
  let msg := set_seq seq msg in
  let msg := attr_nul NFTA_SET_ELEM_LIST_TABLE table msg in
  let msg := attr_nul NFTA_SET_ELEM_LIST_SET set msg in
  let msg := nest NFTA_SET_ELEM_LIST_ELEMENTS (fun msg =>
    foldl (fun msg ip => foldl (fun msg '(a, e) => nft_interval_elem a e msg) msg (nft_elements mask interval ip)) msg ips) msg in
  let end_ := set_seq seq (nl_batch NFNL_MSG_BATCH_END) in
  begin ++ msg ++ end_.

Definition encode_nftset_getmeta (family : NftFamily) (table set : list Z) (seq : Z) : list Z :=
  let msg := nl_new (nft_msg_type NFT_MSG_GETSET) NLM_F_REQUEST (nft_family_code family) 0 in
  let msg := set_seq seq msg in
  let msg := attr_nul NFTA_SET_TABLE table msg in
  attr_nul NFTA_SET_NAME set msg.

Definition encode (r : NetfilterRequest) (seq : Z) : list Z :=
  match r with
  | IpsetAddBatch name ips mask => encode_ipset_add_batch name ips mask seq
  | NftSetAdd family table set ips mask interval => encode_nftset_add family table set ips mask interval seq
  | NftSetGetMeta family table set => encode_nftset_getmeta family table set seq
  end.

(** ** Decoding *)

Definition read_ne (l : list Z) (i n : nat) : outcome Z :=
  let! s := slice l i (i + n) in Ret (from_ne s).

(** [NlaIter], run to its end. *)
Fixpoint nla_iter (fuel : nat) (data : list Z) (pos : nat) : outcome (list (Z * list Z)) :=
  match fuel with
  | O => OutOfFuel
  | S fuel' =>
      if decide (length data < pos + 4) then Ret []
      else
        let! len := read_ne data pos 2 in
        let nla_len := Z.to_nat len in
        if decide (nla_len < 4) then Ret []
        else
          let end_ := pos + nla_len in
          if decide (length data < end_) then Ret []
          else
            let! kind := read_ne data (pos + 2) 2 in
            let nla_type := Z.land kind NLA_TYPE_MASK in
            let! value := slice data (pos + 4) end_ in
            let! rest := nla_iter fuel' data (Z.to_nat (Z.land (Z.of_nat (end_ + 3)) (Z.lnot 3))) in
            Ret ((nla_type, value) :: rest)
  end.

Definition nlas (data : list Z) : outcome (list (Z * list Z)) := nla_iter (S (length data)) data 0.

Inductive nl_error :=
| NlErrno (code : Z)
| NlUnexpected (msg_type : Z)
| NlTruncated
| NlInvalidData.

(** [i32::from_ne_bytes] *)
Definition to_i32 (z : Z) : Z := if decide (z < 2 ^ 31)%Z then z else (z - 2 ^ 32)%Z.

(** [i32::abs], wrapping as without overflow checks *)
Definition i32_abs (z : Z) : Z := if decide (z = - 2 ^ 31)%Z then z else Z.abs z.

Definition nlmsg_errno (msg_type : Z) (data : list Z) : outcome (option Z) :=
  if decide (msg_type <> NLMSG_ERROR \/ length data < 20) then Ret None
  else let! e := read_ne data 16 4 in Ret (Some (to_i32 e)).

(** The first [NFTA_SET_FLAGS] attribute of four bytes or more, or 0. *)
Fixpoint find_flags (attrs : list (Z * list Z)) : outcome Z :=
  match attrs with
  | [] => Ret 0%Z
  | (attr_type, value) :: attrs' =>
      if decide (attr_type = NFTA_SET_FLAGS /\ 4 <= length value) then u32_at value 0
      else find_flags attrs'
  end.

Definition decode_nft_set_flags (msg_type : Z) (data : list Z) : outcome (result nl_error Z) :=
  if decide (msg_type <> nft_msg_type NFT_MSG_NEWSET) then
    let! e := nlmsg_errno msg_type data in
    Ret (match e with Some code => Err (NlErrno (i32_abs code)) | None => Err (NlUnexpected msg_type) end)
  else if decide (length data < 20) then Ret (Err NlTruncated)
  else
    let! body := slice data 20 (length data) in
    let! attrs := nlas body in
    let! flags := find_flags attrs in
    Ret (Ok flags).

(** What one datagram yields to [recv_for_seq]: the message sought (type and bytes),
    an error, or nothing (the loop receives again). *)
Inductive recv_step :=
| RecvFound (msg_type : Z) (data : list Z)
| RecvInvalid
| RecvAgain.

Fixpoint scan_datagram (fuel : nat) (buf : list Z) (seq : Z) (pos : nat) : outcome recv_step :=
  match fuel with
  | O => OutOfFuel
  | S fuel' =>
      if decide (pos + 16 <= length buf) then
        let! msg_len := read_ne buf pos 4 in
        let msg_len := Z.to_nat msg_len in
        if decide (msg_len < 16) then Ret RecvAgain
        else
          let! msg_type := read_ne buf (pos + 4) 2 in
          let! msg_seq := read_ne buf (pos + 8) 4 in
          let data_end := pos + msg_len in
          if decide (length buf < data_end) then Ret RecvInvalid
          else if decide (msg_seq = seq) then
            let! data := slice buf pos data_end in Ret (RecvFound msg_type data)
          else
            let aligned := Z.to_nat (Z.land (Z.of_nat (msg_len + 3)) (Z.lnot 3)) in
            scan_datagram fuel' buf seq (pos + aligned)
      else Ret RecvAgain
  end.

(** [recv_for_seq] over the datagrams the socket delivers; [None] when the last
    [recv] fails (the receive timeout). *)
Fixpoint recv_for_seq (datagrams : list (list Z)) (seq : Z) : outcome (option (result unit (Z * list Z))) :=
  match datagrams with
  | [] => Ret None
  | d :: datagrams' =>
      let! s := scan_datagram (S (length d)) d seq 0 in
      match s with
      | RecvFound msg_type data => Ret (Some (Ok (msg_type, data)))
      | RecvInvalid => Ret (Some (Err tt))
      | RecvAgain => recv_for_seq datagrams' seq
      end
  end.
End host.
