(* ===== verification/NetlinkCorrect.v ===== *)
(** * Correctness of the Netfilter codec

    What the builder writes, read back with the attribute iterator at every nesting
    level; the address ranges of prefixes; that decoding is total. *)

From S2P Require Import Prelude Hasher DnsName DnsQuery DnsRecords Netlink.

(** ** Buffers up to their length field *)

Definition buf_eq (x y : list Z) : Prop := length x = length y /\ drop 4 x = drop 4 y.

#[export] Instance buf_eq_equiv : Equivalence buf_eq.
Proof.
  split.
  - by intros x.
  - by intros x y [? ?].
  - intros x y z [H1 H2] [H3 H4]. split; congruence.
Qed.

Lemma buf_eq_lookup x y : buf_eq x y <-> length x = length y /\ forall j, 4 <= j -> x !! j = y !! j.
Proof.
  unfold buf_eq. split; intros [Hl Hd]; (split; [done|]).
  - intros j Hj. replace j with (4 + (j - 4)) by lia. by rewrite <- !lookup_drop, Hd.
  - apply list_eq. intros j. rewrite !lookup_drop. apply Hd. lia.
Qed.

(** Appending respects the equivalence once the length field is there. *)
Lemma buf_eq_app x y e : 4 <= length x -> buf_eq x y -> buf_eq (x ++ e) (y ++ e).
Proof.
  intros Hx [Hl Hd]. split; [len|]. rewrite !drop_app_le by lia. by rewrite Hd.
Qed.

Definition aligned (b : list Z) : Prop := length b mod 4 = 0.

Lemma aligned_app x y : aligned x -> aligned y -> aligned (x ++ y).
Proof.
  unfold aligned. intros Hx Hy. rewrite length_app.
  apply Nat.Div0.mod_divides in Hx as [a Ha]. apply Nat.Div0.mod_divides in Hy as [b Hb].
  rewrite Ha, Hb, <- Nat.mul_add_distr_l, Nat.mul_comm. apply Nat.Div0.mod_mul.
Qed.

Definition padding (n : nat) : list Z := replicate ((4 - n mod 4) mod 4) 0%Z.

Lemma padding_mod n : (n + length (padding n)) mod 4 = 0.
Proof.
  unfold padding. rewrite length_replicate. pose proof (Nat.mod_upper_bound n 4 ltac:(lia)) as Hm.
  pose proof (Nat.div_mod_eq n 4) as Hd. set (r := n mod 4) in *.
  assert (r = 0 \/ r = 1 \/ r = 2 \/ r = 3) as [Hr|[Hr|[Hr|Hr]]] by lia; rewrite Hr in *; cbn [Nat.sub];
    (change (4 mod 4) with 0 || change (3 mod 4) with 3 || change (2 mod 4) with 2 || change (1 mod 4) with 1);
    rewrite Hd; [replace (4 * (n / 4) + 0 + 0) with (n / 4 * 4) by lia
                |replace (4 * (n / 4) + 1 + 3) with (S (n / 4) * 4) by lia
                |replace (4 * (n / 4) + 2 + 2) with (S (n / 4) * 4) by lia
                |replace (4 * (n / 4) + 3 + 1) with (S (n / 4) * 4) by lia]; apply Nat.Div0.mod_mul.
Qed.

Lemma pad_to_4_app b x : aligned b -> pad_to_4 (b ++ x) = b ++ x ++ padding (length x).
Proof.
  unfold aligned, pad_to_4, padding. intros Hb. rewrite <- app_assoc. do 3 f_equal.
  rewrite length_app. rewrite Nat.Div0.add_mod, Hb, Nat.add_0_l, Nat.Div0.mod_mod. done.
Qed.

Section host.
Context (big_endian : bool).
Abbreviation to_ne := (to_ne big_endian).
Abbreviation from_ne := (from_ne big_endian).

Lemma length_to_ne n z : length (to_ne n z) = n.
Proof. unfold Netlink.to_ne. destruct big_endian; [apply length_to_be|apply length_to_le]. Qed.

Lemma from_ne_to_ne n z : (0 <= z < 256 ^ Z.of_nat n)%Z -> from_ne (to_ne n z) = z.
Proof.
  intros Hz. unfold Netlink.to_ne, Netlink.from_ne.
  destruct big_endian; [by apply from_be_to_be_small|by apply from_le_to_le_small].
Qed.

Lemma finish_len_eq b : 4 <= length b -> buf_eq (finish_len big_endian b) b.
Proof.
  intros Hb. unfold finish_len, splice. split.
  - rewrite !length_app, length_to_ne, length_take, length_drop. lia.
  - rewrite take_0, app_nil_l, drop_app_length' by (by rewrite length_to_ne). by rewrite length_to_ne.
Qed.

Lemma finish_len_proper x y : buf_eq x y -> finish_len big_endian x = finish_len big_endian y.
Proof.
  intros [Hl Hd]. unfold finish_len, splice. rewrite Hl. do 2 f_equal. rewrite length_to_ne. exact Hd.
Qed.

(** ** One attribute *)

Definition enc_attr (kind : Z) (value : list Z) : list Z :=
  to_ne 2 (wrap 16 (Z.of_nat (4 + length value))) ++ to_ne 2 kind ++ value ++ padding (length value).

Lemma length_enc_attr kind value : length (enc_attr kind value) = 4 + length value + length (padding (length value)).
Proof. unfold enc_attr. rewrite !length_app, !length_to_ne. lia. Qed.

Lemma padding_shift n : padding (4 + n) = padding n.
Proof. unfold padding. f_equal. f_equal. f_equal. change (4 + n) with (1 * 4 + n). rewrite Nat.add_comm. apply Nat.Div0.mod_add. Qed.

Lemma aligned_enc_attr kind value : aligned (enc_attr kind value).
Proof.
  unfold aligned. rewrite length_enc_attr. rewrite <- padding_shift. apply padding_mod.
Qed.

Lemma attr_eq kind data b :
  4 <= length b -> aligned b -> buf_eq (attr big_endian kind data b) (b ++ enc_attr kind data).
Proof.
  intros Hb Ha. unfold attr. rewrite (pad_to_4_app b) by done. rewrite finish_len_eq by len.
  unfold enc_attr. rewrite <- !app_assoc, !length_app, !length_to_ne. cbn [Nat.add]. by rewrite <- (padding_shift (length data)).
Qed.

Lemma attr_nul_eq kind value b :
  4 <= length b -> aligned b -> buf_eq (attr_nul big_endian kind value b) (b ++ enc_attr kind (value ++ [0%Z])).
Proof.
  intros Hb Ha. unfold attr_nul. rewrite (pad_to_4_app b) by done. rewrite finish_len_eq by len.
  unfold enc_attr. rewrite <- !app_assoc, !length_app, !length_to_ne. cbn [length Nat.add].
  rewrite <- (padding_shift (length value + 1)). cbn [Nat.add]. by rewrite Nat.add_assoc || done.
Qed.

(** [f] appends [e] to any buffer. *)
Definition appends (f : list Z -> list Z) (e : list Z) : Prop :=
  aligned e /\ forall b, 4 <= length b -> aligned b -> buf_eq (f b) (b ++ e).

Lemma appends_attr kind data : appends (attr big_endian kind data) (enc_attr kind data).
Proof. split; [apply aligned_enc_attr|]. apply attr_eq. Qed.

Lemma appends_attr_nul kind value : appends (attr_nul big_endian kind value) (enc_attr kind (value ++ [0%Z])).
Proof. split; [apply aligned_enc_attr|]. apply attr_nul_eq. Qed.

Lemma appends_id : appends (fun b => b) [].
Proof. split; [done|]. intros b _ _. by rewrite app_nil_r. Qed.

Lemma buf_eq_aligned x y : buf_eq x y -> aligned y -> aligned x.
Proof. unfold aligned. by intros [-> _]. Qed.

Lemma appends_comp f e g e' : appends f e -> appends g e' -> appends (fun b => g (f b)) (e ++ e').
Proof.
  intros [He Hf] [He' Hg]. split; [by apply aligned_app|]. intros b Hb Ha. pose proof (Hf b Hb Ha) as Hfb.
  assert (4 <= length (f b)) by (destruct Hfb as [-> _]; len).
  rewrite Hg; [|done|eapply buf_eq_aligned; [done|by apply aligned_app]].
  rewrite app_assoc. by apply buf_eq_app.
Qed.

Lemma appends_foldl {A} (step : A -> list Z -> list Z) (e : A -> list Z) (l : list A) :
  (forall a, appends (step a) (e a)) -> appends (fun b => foldl (fun b a => step a b) b l) (concat (e <$> l)).
Proof.
  intros Hs. induction l as [|a l IH]; cbn [foldl fmap list_fmap concat]; [apply appends_id|].
  by apply (appends_comp (step a) (e a) (fun b => foldl (fun b a => step a b) b l)).
Qed.

Lemma appends_nest kind f e :
  appends f e -> appends (nest big_endian kind f) (enc_attr (Z.lor kind NLA_F_NESTED) e).
Proof.
  intros [He Hf]. split; [apply aligned_enc_attr|]. intros b Hb Ha. unfold nest.
  set (h := to_ne 2 0 ++ to_ne 2 (Z.lor kind NLA_F_NESTED)).
  assert (Hh : length h = 4) by (unfold h; rewrite length_app, !length_to_ne; done).
  destruct (Hf (b ++ h)) as [Hl Hd]; [len|apply aligned_app; [done|by unfold aligned; rewrite Hh]|].
  rewrite !length_app, Hh in Hl. set (x := f (b ++ h)) in *.
  replace (length x - length b) with (4 + length e) by lia.
  set (n := to_ne 2 (wrap 16 (Z.of_nat (4 + length e)))).
  assert (Hn : length n = 2) by apply length_to_ne.
  assert (Hsp : buf_eq (splice x (length b) n) (b ++ n ++ to_ne 2 (Z.lor kind NLA_F_NESTED) ++ e)).
  { assert (Hx : buf_eq x ((b ++ h) ++ e)) by (split; [rewrite !length_app, Hh; lia|done]).
    apply buf_eq_lookup in Hx as [_ Hx]. apply buf_eq_lookup.
    split; [rewrite length_splice by lia; rewrite !length_app, Hn, length_to_ne; lia|]. intros j Hj.
    destruct (decide (length b <= j < length b + 2)) as [Hin|Hout].
    - replace j with (length b + (j - length b)) by lia. rewrite lookup_splice_in by lia.
      rewrite lookup_app_r by lia. rewrite lookup_app_l by lia. f_equal. lia.
    - rewrite lookup_splice_out by lia. rewrite Hx by done. unfold h. rewrite <- !app_assoc.
      destruct (decide (j < length b)); [by rewrite !lookup_app_l by lia|].
      rewrite !(lookup_app_r b) by lia. rewrite !(lookup_app_r _ (to_ne 2 _ ++ e)) by (rewrite ?length_to_ne; lia).
      by rewrite Hn, length_to_ne. }
  rewrite finish_len_eq by (unfold pad_to_4; rewrite length_app, length_splice by lia; lia).
  unfold pad_to_4. replace (length (splice x (length b) n) mod 4) with 0.
  2:{ symmetry. eapply buf_eq_aligned; [exact Hsp|]. apply aligned_app; [done|].
      unfold aligned. rewrite !length_app, Hn, length_to_ne. replace (2 + (2 + length e)) with (4 + length e) by lia.
      by apply (aligned_app [0;0;0;0]%Z e). }
  change ((4 - 0) mod 4) with 0. cbn [replicate]. rewrite app_nil_r, Hsp. unfold enc_attr. fold n.
  assert (Hp : padding (length e) = []) by (unfold padding; by rewrite He). by rewrite Hp, app_nil_r.
Qed.

(** ** Reading attributes back *)

(** A kind and a value that fit their fields. *)
Definition attr_ok (a : Z * list Z) : Prop :=
  u_ok 16 (fst a) /\ (Z.of_nat (4 + length (snd a)) < 65536)%Z.

Definition enc_attrs (l : list (Z * list Z)) : list Z := concat ((fun a => enc_attr (fst a) (snd a)) <$> l).

Definition bare (a : Z * list Z) : Z * list Z := (Z.land (fst a) NLA_TYPE_MASK, snd a).

Lemma round_up_4 n : Z.to_nat (Z.land (Z.of_nat (n + 3)) (Z.lnot 3)) = n + length (padding n).
Proof.
  change 3%Z with (Z.ones 2). rewrite <- Z.ldiff_land, Z.ldiff_ones_r by lia.
  rewrite Z.shiftr_div_pow2, Z.shiftl_mul_pow2 by lia. change (2 ^ 2)%Z with 4%Z.
  unfold padding. rewrite length_replicate.
  pose proof (Nat.mod_upper_bound n 4 ltac:(lia)) as Hm. pose proof (Nat.div_mod_eq n 4) as Hd.
  set (q := n / 4) in *. set (r := n mod 4) in *.
  assert (r = 0 \/ r = 1 \/ r = 2 \/ r = 3) as [Hr|[Hr|[Hr|Hr]]] by lia; rewrite Hr in *; cbn [Nat.sub];
    (change (4 mod 4) with 0 || change (3 mod 4) with 3 || change (2 mod 4) with 2 || change (1 mod 4) with 1);
    rewrite Hd; Z.to_euclidean_division_equations; lia.
Qed.

Lemma read_ne_mid pre x post i n :
  i = length pre -> n = length x -> read_ne big_endian (pre ++ x ++ post) i n = Ret (from_ne x).
Proof.
  intros -> ->. unfold read_ne. rewrite slice_Ret by len. cbn [obind]. do 2 f_equal.
  rewrite drop_app_length. replace (length pre + length x - length pre) with (length x) by lia.
  apply take_app_length.
Qed.

Lemma nla_iter_step fuel pre k v post :
  aligned pre -> attr_ok (k, v) ->
  nla_iter big_endian (S fuel) (pre ++ enc_attr k v ++ post) (length pre)
  = let! rest := nla_iter big_endian fuel ((pre ++ enc_attr k v) ++ post) (length (pre ++ enc_attr k v)) in
    Ret (bare (k, v) :: rest).
Proof.
  intros Ha [Hk Hv]. cbn [fst snd] in *. cbn [nla_iter].
  assert (Hpos : length (pre ++ enc_attr k v) = length pre + (4 + length v) + length (padding (length pre + (4 + length v)))).
  { rewrite length_app, length_enc_attr. assert (padding (length pre + (4 + length v)) = padding (length v)) as ->; [|lia].
    rewrite <- (padding_shift (length v)). unfold padding. by rewrite Nat.Div0.add_mod, Ha, Nat.add_0_l, Nat.Div0.mod_mod. }
  rewrite decide_False by (rewrite !length_app, length_enc_attr; lia).
  assert (Hw : wrap 16 (Z.of_nat (4 + length v)) = Z.of_nat (4 + length v)) by (apply Z.mod_small; lia).
  unfold enc_attr at 1. rewrite Hw, <- !app_assoc. rewrite (read_ne_mid pre) by (rewrite ?length_to_ne; done). cbn [obind].
  rewrite from_ne_to_ne by lia. rewrite Nat2Z.id. rewrite decide_False by lia.
  rewrite decide_False by (rewrite !length_app, length_enc_attr; lia).
  assert (Hkd : read_ne big_endian (pre ++ enc_attr k v ++ post) (length pre + 2) 2 = Ret k).
  { unfold enc_attr. rewrite Hw, <- !app_assoc. rewrite (app_assoc pre).
    rewrite read_ne_mid by (rewrite ?length_app, ?length_to_ne; done). rewrite from_ne_to_ne; [done|].
    unfold u_ok in Hk. change (256 ^ Z.of_nat 2)%Z with (2 ^ 16)%Z. done. }
  rewrite Hkd. cbn [obind].
  assert (Hval : slice (pre ++ enc_attr k v ++ post) (length pre + 4) (length pre + (4 + length v)) = Ret v).
  { rewrite slice_Ret by (rewrite ?length_app, ?length_enc_attr; lia). f_equal.
    unfold enc_attr. rewrite <- !app_assoc. rewrite (app_assoc pre), (app_assoc (pre ++ _)).
    rewrite drop_app_length' by (rewrite !length_app, !length_to_ne; lia).
    replace (length pre + (4 + length v) - (length pre + 4)) with (length v) by lia. apply take_app_length. }
  rewrite Hval. cbn [obind]. rewrite round_up_4, <- Hpos, app_assoc. done.
Qed.

Lemma nla_iter_attrs l fuel pre :
  aligned pre -> Forall attr_ok l -> length l < fuel ->
  nla_iter big_endian fuel (pre ++ enc_attrs l) (length pre) = Ret (bare <$> l).
Proof.
  revert fuel pre. induction l as [|[k v] l IH]; intros fuel pre Ha Hl Hf;
    (destruct fuel as [|fuel]; [cbn in Hf; lia|]).
  - cbn [nla_iter enc_attrs fmap list_fmap concat]. rewrite decide_True; [done|len].
  - apply Forall_cons in Hl as [Hkv Hl]. unfold enc_attrs. cbn [fmap list_fmap concat]. cbn [fst snd].
    rewrite nla_iter_step by done. rewrite IH; [done| |done|cbn in Hf; lia].
    apply aligned_app; [done|apply aligned_enc_attr].
Qed.

Lemma length_enc_attrs l : 4 * length l <= length (enc_attrs l).
Proof.
  induction l as [|a l IH]; [done|]. unfold enc_attrs in *. cbn [fmap list_fmap concat length].
  rewrite length_app, length_enc_attr. lia.
Qed.

Lemma nlas_attrs l : Forall attr_ok l -> nlas big_endian (enc_attrs l) = Ret (bare <$> l).
Proof.
  intros Hl. unfold nlas. pose proof (length_enc_attrs l). apply (nla_iter_attrs l _ []); [done|done|lia].
Qed.

Lemma aligned_enc_attrs l : aligned (enc_attrs l).
Proof.
  induction l as [|a l IH]; [done|]. unfold enc_attrs. cbn [fmap list_fmap concat].
  apply aligned_app; [apply aligned_enc_attr|exact IH].
Qed.

Lemma enc_attrs_cons k v l : enc_attrs ((k, v) :: l) = enc_attr k v ++ enc_attrs l.
Proof. done. Qed.

Lemma length_enc_attr_le k v : length (enc_attr k v) <= 7 + length v.
Proof.
  rewrite length_enc_attr. unfold padding. rewrite length_replicate.
  pose proof (Nat.mod_upper_bound (4 - length v mod 4) 4). lia.
Qed.

Lemma length_enc_attrs_le l B : Forall (fun a => length (snd a) <= B) l -> length (enc_attrs l) <= (7 + B) * length l.
Proof.
  induction 1 as [|a l Ha _ IH]; [cbn; lia|]. unfold enc_attrs in *. cbn [fmap list_fmap concat length].
  rewrite length_app. pose proof (length_enc_attr_le (fst a) (snd a)). lia.
Qed.

(** ** Headers *)

Definition header (msg_type flags seq family res_id : Z) : list Z :=
  to_ne 2 msg_type ++ to_ne 2 flags ++ to_ne 4 seq ++ [0; 0; 0; 0; family; 0]%Z ++ to_be 2 res_id.

Lemma length_header t f s fam r : length (header t f s fam r) = 16.
Proof. unfold header. rewrite !length_app, !length_to_ne, length_to_be. done. Qed.

Lemma list_of_2 (l : list Z) : length l = 2 -> exists a b, l = [a; b].
Proof. destruct l as [|a [|b [|]]]; try done. by exists a, b. Qed.

Lemma list_of_4 (l : list Z) : length l = 4 -> exists a b c d, l = [a; b; c; d].
Proof. destruct l as [|a [|b [|c [|d [|]]]]]; try done. by exists a, b, c, d. Qed.

Lemma nl_new_header t f fam r s :
  set_seq big_endian s (nl_new big_endian t f fam r) = to_ne 4 (wrap 32 (Z.of_nat 20)) ++ header t f s fam r.
Proof.
  unfold set_seq, nl_new, finish_len, header.
  destruct (list_of_2 (to_ne 2 t)) as (t0 & t1 & ->); [apply length_to_ne|].
  destruct (list_of_2 (to_ne 2 f)) as (f0 & f1 & ->); [apply length_to_ne|].
  destruct (list_of_2 (to_be 2 r)) as (r0 & r1 & ->); [apply length_to_be|].
  destruct (list_of_4 (to_ne 4 s)) as (s0 & s1 & s2 & s3 & ->); [apply length_to_ne|].
  match goal with |- context [wrap 32 (Z.of_nat (length (splice ?l ?i ?x)))] => change (length (splice l i x)) with 20 end.
  destruct (list_of_4 (to_ne 4 (wrap 32 (Z.of_nat 20)))) as (n0 & n1 & n2 & n3 & ->); [apply length_to_ne|]. done.
Qed.

(** A message: its own length, the header and the attributes. *)
Definition message (t f s fam r : Z) (body : list Z) : list Z :=
  to_ne 4 (wrap 32 (Z.of_nat (20 + length body))) ++ header t f s fam r ++ body.

Lemma finish_len_idem b : 4 <= length b -> finish_len big_endian (finish_len big_endian b) = finish_len big_endian b.
Proof. intros. by apply finish_len_proper, finish_len_eq. Qed.

Lemma finish_len_length b : length (finish_len big_endian b) = max 4 (length b).
Proof. unfold finish_len, splice. rewrite !length_app, length_to_ne, length_take, length_drop. lia. Qed.

(** A builder whose last operation fixes the length has nothing left to fix. *)
Lemma finish_built g e b c :
  appends g e -> 4 <= length b -> aligned b -> e <> [] -> g b = finish_len big_endian c ->
  finish_len big_endian (g b) = g b.
Proof.
  intros [_ Hg] Hb Ha He Hc. destruct (Hg b Hb Ha) as [Hl _]. rewrite Hc. apply finish_len_idem.
  pose proof (finish_len_length c) as Hf. rewrite <- Hc, Hl, length_app in Hf.
  destruct e; [done|]. cbn [length] in Hf. lia.
Qed.

(** A builder run on a fresh header. *)
Lemma built_message t f s fam r g e :
  appends g e ->
  e <> [] -> (forall b, exists c, g b = finish_len big_endian c) ->
  g (set_seq big_endian s (nl_new big_endian t f fam r)) = message t f s fam r e.
Proof.
  intros Hap Hne Hfin. pose proof Hap as [He Hg]. rewrite nl_new_header.
  set (n := to_ne 4 (wrap 32 (Z.of_nat 20))). assert (Hn : length n = 4) by apply length_to_ne.
  assert (Hl : length (n ++ header t f s fam r) = 20) by (rewrite length_app, Hn, length_header; done).
  destruct (Hfin (n ++ header t f s fam r)) as [c Hc].
  rewrite <- (finish_built g e _ c Hap); [|lia|by unfold aligned; rewrite Hl|done|done].
  rewrite (finish_len_proper _ ((n ++ header t f s fam r) ++ e)); [|apply Hg; [lia|unfold aligned; by rewrite Hl]].
  unfold finish_len, splice, message. rewrite take_0, app_nil_l, length_to_ne. rewrite !length_app, Hn, length_header.
  change (4 + 16 + length e) with (20 + length e). f_equal. rewrite <- app_assoc. by rewrite drop_app_length'.
Qed.

(** ** What a receiver reads *)

Definition get_attr (t : Z) (l : list (Z * list Z)) : option (list Z) :=
  match list_find (fun a => fst a = t) l with Some (_, (_, v)) => Some v | None => None end.

(** Attributes of type [t], each read by [f]. *)
Fixpoint read_each {A} (t : Z) (f : list Z -> outcome (option A)) (l : list (Z * list Z)) : outcome (option (list A)) :=
  match l with
  | [] => Ret (Some [])
  | (k, v) :: l' =>
      if decide (k = t) then
        let? a := f v in let? r := read_each t f l' in Ret (Some (a :: r))
      else Ret None
  end.

(** An attribute that holds exactly one attribute: its type and value. *)
Definition read_only (v : list Z) : outcome (option (Z * list Z)) :=
  let! l := nlas big_endian v in
  Ret (match l with [a] => Some a | _ => None end).

(** An ipset element: address type, octets and prefix length. *)
Definition read_ipset_elem (v : list Z) : outcome (option (Z * list Z * option (list Z))) :=
  let! l := nlas big_endian v in
  match get_attr IPSET_ATTR_IP l with
  | None => Ret None
  | Some ip => let? a := read_only ip in Ret (Some (fst a, snd a, get_attr IPSET_ATTR_CIDR l))
  end.

(** The body of an ipset ADD: the set's name and its elements. *)
Definition read_ipset_add (body : list Z) : outcome (option (list Z * list (Z * list Z * option (list Z)))) :=
  let! l := nlas big_endian body in
  match get_attr IPSET_ATTR_SETNAME l, get_attr IPSET_ATTR_ADT l with
  | Some name, Some adt =>
      let! es := nlas big_endian adt in
      let? elems := read_each IPSET_ATTR_DATA read_ipset_elem es in Ret (Some (name, elems))
  | _, _ => Ret None
  end.

(** An nftables set element: octets and flags. *)
Definition read_nft_elem (v : list Z) : outcome (option (list Z * option (list Z))) :=
  let! l := nlas big_endian v in
  match get_attr NFTA_SET_ELEM_KEY l with
  | None => Ret None
  | Some key => let? a := read_only key in Ret (Some (snd a, get_attr NFTA_SET_ELEM_FLAGS l))
  end.

Definition read_nft_add (body : list Z) : outcome (option (list Z * list Z * list (list Z * option (list Z)))) :=
  let! l := nlas big_endian body in
  match get_attr NFTA_SET_ELEM_LIST_TABLE l, get_attr NFTA_SET_ELEM_LIST_SET l, get_attr NFTA_SET_ELEM_LIST_ELEMENTS l with
  | Some table, Some set, Some elements =>
      let! es := nlas big_endian elements in
      let? elems := read_each NFTA_LIST_ELEM read_nft_elem es in Ret (Some (table, set, elems))
  | _, _, _ => Ret None
  end.

Definition ip_ok (ip : IpAddr) : Prop :=
  match ip with V4 o => length o = 4 | V6 o => length o = 16 end.

Lemma ip_ok_length ip : ip_ok ip -> length (octets ip) <= 16.
Proof. destruct ip; cbn; lia. Qed.

Lemma masked_ok mask ip : ip_ok ip -> ip_ok (masked mask ip).
Proof. destruct mask, ip; cbn [masked apply_mask ip_ok]; try done; intros _; apply length_to_be. Qed.

Lemma nft_elements_ok mask interval ip : ip_ok ip -> Forall (fun a => ip_ok (fst a)) (nft_elements mask interval ip).
Proof.
  intros Hip. unfold nft_elements. destruct mask as [m|], interval; repeat constructor; cbn [fst]; try done;
    destruct ip; cbn [apply_mask prefix_end ip_next ip_ok]; try apply length_to_be; done.
Qed.

Lemma length_nft_elements mask interval ip : length (nft_elements mask interval ip) <= 2.
Proof. unfold nft_elements. destruct mask, interval; cbn; lia. Qed.

(** *** ipset *)

Definition ip_attr_type (ip : IpAddr) : Z :=
  match ip with V4 _ => IPSET_ATTR_IPADDR_IPV4 | V6 _ => IPSET_ATTR_IPADDR_IPV6 end.

Definition ipset_elem_attrs (ip : IpAddr) (mask : option Z) : list (Z * list Z) :=
  (Z.lor IPSET_ATTR_IP NLA_F_NESTED, enc_attrs [(Z.lor (ip_attr_type ip) NLA_F_NET_BYTEORDER, octets ip)]) ::
  match mask with Some cidr => [(IPSET_ATTR_CIDR, [cidr])] | None => [] end.

Lemma appends_ext f g e : (forall b, f b = g b) -> appends f e -> appends g e.
Proof. intros Hfg [He Hf]. split; [done|]. intros b. rewrite <- Hfg. apply Hf. Qed.

Lemma ipset_elem_appends ip mask :
  appends (ipset_elem big_endian ip mask) (enc_attr (Z.lor IPSET_ATTR_DATA NLA_F_NESTED) (enc_attrs (ipset_elem_attrs ip mask))).
Proof.
  unfold ipset_elem, ipset_elem_attrs. apply appends_nest. rewrite enc_attrs_cons.
  apply (appends_comp (nest big_endian IPSET_ATTR_IP _) _
    (fun msg => match mask with Some cidr => attr big_endian IPSET_ATTR_CIDR [cidr] msg | None => msg end)).
  - apply appends_nest. rewrite enc_attrs_cons. unfold enc_attrs. cbn [fmap list_fmap concat]. rewrite app_nil_r.
    unfold attr_ip. destruct ip; apply appends_attr.
  - destruct mask as [c|]; [|apply appends_id]. rewrite enc_attrs_cons. unfold enc_attrs. cbn [fmap list_fmap concat].
    rewrite app_nil_r. apply appends_attr.
Qed.

Lemma read_only_attr k v : attr_ok (k, v) -> read_only (enc_attrs [(k, v)]) = Ret (Some (bare (k, v))).
Proof. intros Hk. unfold read_only. rewrite nlas_attrs by (by apply Forall_singleton). done. Qed.

Lemma ip_attr_ok ip kind : ip_ok ip -> u_ok 16 kind -> attr_ok (kind, octets ip).
Proof. intros Hip Hk. split; [done|]. cbn [snd]. pose proof (ip_ok_length ip Hip). lia. Qed.

Lemma length_enc_single k v B : length v <= B -> length (enc_attrs [(k, v)]) <= 7 + B.
Proof. intros. unfold enc_attrs. cbn [fmap list_fmap concat fst snd]. rewrite app_nil_r. pose proof (length_enc_attr_le k v). lia. Qed.

Lemma ipset_elem_attrs_ok ip mask : ip_ok ip -> Forall attr_ok (ipset_elem_attrs ip mask).
Proof.
  intros Hip. apply Forall_cons. split.
  - split; [done|]. cbn [snd].
    pose proof (length_enc_single (Z.lor (ip_attr_type ip) NLA_F_NET_BYTEORDER) (octets ip) 16 (ip_ok_length ip Hip)). lia.
  - destruct mask; [by apply Forall_singleton|by apply Forall_nil].
Qed.

Lemma length_ipset_elem_attrs ip mask : ip_ok ip -> length (enc_attrs (ipset_elem_attrs ip mask)) <= 38.
Proof.
  intros Hip. unfold ipset_elem_attrs. rewrite enc_attrs_cons, length_app.
  pose proof (length_enc_single (Z.lor (ip_attr_type ip) NLA_F_NET_BYTEORDER) (octets ip) 16 (ip_ok_length ip Hip)) as H1.
  pose proof (length_enc_attr_le (Z.lor IPSET_ATTR_IP NLA_F_NESTED)
    (enc_attrs [(Z.lor (ip_attr_type ip) NLA_F_NET_BYTEORDER, octets ip)])) as H2.
  destruct mask as [c|]; [pose proof (length_enc_single IPSET_ATTR_CIDR [c] 1 ltac:(done)) as H3|cbn in *]; lia.
Qed.

Lemma read_ipset_elem_attrs ip mask :
  ip_ok ip -> read_ipset_elem (enc_attrs (ipset_elem_attrs ip mask))
  = Ret (Some (ip_attr_type ip, octets ip, (fun c => [c]) <$> mask)).
Proof.
  intros Hip. unfold read_ipset_elem. rewrite nlas_attrs by (by apply ipset_elem_attrs_ok). cbn [obind].
  assert (Hget : get_attr IPSET_ATTR_IP (bare <$> ipset_elem_attrs ip mask)
    = Some (enc_attrs [(Z.lor (ip_attr_type ip) NLA_F_NET_BYTEORDER, octets ip)])) by done.
  rewrite Hget, read_only_attr by (apply ip_attr_ok; [done|by destruct ip]). cbn [obind_opt]. destruct ip, mask; done.
Qed.

Lemma read_each_map {A B} t (f : list Z -> outcome (option A)) (body : B -> list Z) (view : B -> A) k (l : list B) :
  Z.land k NLA_TYPE_MASK = t -> Forall (fun b => f (body b) = Ret (Some (view b))) l ->
  read_each t f (bare <$> ((fun b => (k, body b)) <$> l)) = Ret (Some (view <$> l)).
Proof.
  intros Hk. induction 1 as [|b l Hb _ IH]; [done|]. rewrite !fmap_cons. cbn [bare fst snd read_each].
  rewrite decide_True by done. rewrite Hb. cbn [obind_opt]. rewrite IH. done.
Qed.

(** Attributes of one kind, as the nested attribute lists write them. *)
Lemma concat_enc_attr {B} k (body : B -> list Z) (l : list B) :
  concat ((fun b => enc_attr k (body b)) <$> l) = enc_attrs ((fun b => (k, body b)) <$> l).
Proof. unfold enc_attrs. by rewrite <- list_fmap_compose. Qed.

Lemma length_list_attrs {B} k (body : B -> list Z) (l : list B) N :
  Forall (fun b => length (body b) <= N) l -> length (enc_attrs ((fun b => (k, body b)) <$> l)) <= (7 + N) * length l.
Proof.
  intros Hl. rewrite <- (length_fmap (fun b => (k, body b)) l). apply length_enc_attrs_le.
  by apply Forall_fmap.
Qed.

Lemma list_attrs_ok {B} k (body : B -> list Z) (l : list B) N :
  u_ok 16 k -> (Z.of_nat (4 + N) < 65536)%Z -> Forall (fun b => length (body b) <= N) l ->
  Forall attr_ok ((fun b => (k, body b)) <$> l).
Proof.
  intros Hk HN Hl. apply Forall_fmap. eapply Forall_impl; [done|]. cbn beta. intros b Hb. split; [done|]. cbn [snd]. lia.
Qed.

(** A name a set may have: the kernel limits names to 31 or 255 bytes. *)
Definition name_ok (name : list Z) : Prop := length name <= 255.

(** The ipset batch round trip.  For every set name, prefix length and batch of
    at most [MAX_IPS_PER_MESSAGE] addresses (on hosts of either byte order), the message
    starts with its own length and the request's header, and reading its attributes at
    every nesting level gives back the name and, in order, every address masked to
    the prefix with the prefix length: no length field overflows. *)
Lemma ipset_add_spec name first rest mask seq :
  let ips := first :: rest in
  name_ok name -> Forall ip_ok ips -> length ips <= 500 ->
  exists body, encode big_endian (IpsetAddBatch name ips mask) seq
    = message (ipset_msg_type IPSET_CMD_ADD) NLM_F_REQUEST seq (ip_family first) 0 body /\
  read_ipset_add body = Ret (Some (name ++ [0%Z],
    (fun ip => (ip_attr_type ip, octets (masked mask ip), (fun c => [c]) <$> mask)) <$> ips)).
Proof.
  intros ips Hname Hips Hlen. cbn [encode]. unfold encode_ipset_add_batch. fold ips.
  set (adt := enc_attrs ((fun ip => (Z.lor IPSET_ATTR_DATA NLA_F_NESTED, enc_attrs (ipset_elem_attrs (masked mask ip) mask))) <$> ips)).
  set (attrs := [(IPSET_ATTR_PROTOCOL, [IPSET_PROTOCOL]); (IPSET_ATTR_SETNAME, name ++ [0%Z]);
                 (IPSET_ATTR_LINENO, to_ne 4 0); (Z.lor IPSET_ATTR_ADT NLA_F_NESTED, adt)]).
  assert (Hb : Forall (fun ip => length (enc_attrs (ipset_elem_attrs (masked mask ip) mask)) <= 38) ips).
  { eapply Forall_impl; [exact Hips|]. intros ip Hip. by apply length_ipset_elem_attrs, masked_ok. }
  assert (Hadt : length adt <= (7 + 38) * length ips) by (by apply length_list_attrs).
  assert (Hok : Forall attr_ok attrs).
  { unfold name_ok in Hname. repeat (apply Forall_cons; split); [| | | |by apply Forall_nil]; (split; [done|]); cbn [snd];
      rewrite ?length_app, ?length_to_ne; cbn [length]; lia. }
  exists (enc_attrs attrs). split.
  - set (g4 := nest big_endian IPSET_ATTR_ADT (fun msg => foldl (fun msg ip => ipset_elem big_endian (masked mask ip) mask msg) msg ips)).
    set (g3 := fun b => g4 (attr big_endian IPSET_ATTR_LINENO (to_ne 4 0) b)).
    set (g2 := fun b => g3 (attr_nul big_endian IPSET_ATTR_SETNAME name b)).
    assert (Hg4 : appends g4 (enc_attr (Z.lor IPSET_ATTR_ADT NLA_F_NESTED) adt)).
    { apply appends_nest. unfold adt. rewrite <- (concat_enc_attr _ (fun ip => enc_attrs (ipset_elem_attrs (masked mask ip) mask))).
      apply (appends_foldl (fun ip => ipset_elem big_endian (masked mask ip) mask)). intros ip. apply ipset_elem_appends. }
    apply (built_message _ _ _ _ _ (fun b => g2 (attr big_endian IPSET_ATTR_PROTOCOL [IPSET_PROTOCOL] b))).
    + unfold attrs. rewrite !enc_attrs_cons. change (enc_attrs []) with (@nil Z). rewrite app_nil_r.
      exact (appends_comp _ _ g2 _ (appends_attr _ _) (appends_comp _ _ g3 _ (appends_attr_nul _ _)
        (appends_comp _ _ g4 _ (appends_attr _ _) Hg4))).
    + unfold attrs. rewrite enc_attrs_cons. intros Hx%(f_equal length). rewrite length_app, length_enc_attr in Hx. cbn in Hx. lia.
    + intros b. by eexists.
  - unfold read_ipset_add. rewrite nlas_attrs by done. cbn [obind].
    assert (get_attr IPSET_ATTR_SETNAME (bare <$> attrs) = Some (name ++ [0%Z])) as -> by done.
    assert (get_attr IPSET_ATTR_ADT (bare <$> attrs) = Some adt) as -> by done.
    unfold adt. rewrite nlas_attrs by (by eapply list_attrs_ok; [| |exact Hb]). cbn [obind].
    rewrite (read_each_map IPSET_ATTR_DATA read_ipset_elem _ (fun ip => (ip_attr_type ip, octets (masked mask ip), (fun c => [c]) <$> mask))); [done|done|].
    eapply Forall_impl; [exact Hips|]. intros ip Hip. cbn beta. rewrite read_ipset_elem_attrs by (by apply masked_ok).
    by destruct ip, mask.
Qed.

(** *** nftables *)

Definition nft_elem_attrs (e : IpAddr * bool) : list (Z * list Z) :=
  (if snd e then [(NFTA_SET_ELEM_FLAGS, to_be 4 NFT_SET_ELEM_INTERVAL_END)] else []) ++
  [(Z.lor NFTA_SET_ELEM_KEY NLA_F_NESTED, enc_attrs [(Z.lor NFTA_DATA_VALUE NLA_F_NET_BYTEORDER, octets (fst e))])].

Lemma enc_attrs_app l l' : enc_attrs (l ++ l') = enc_attrs l ++ enc_attrs l'.
Proof. unfold enc_attrs. by rewrite fmap_app, concat_app. Qed.

Lemma enc_attrs_single k v : enc_attrs [(k, v)] = enc_attr k v.
Proof. unfold enc_attrs. cbn [fmap list_fmap concat fst snd]. apply app_nil_r. Qed.

Lemma nft_elem_appends e :
  appends (nft_interval_elem big_endian (fst e) (snd e)) (enc_attr (Z.lor NFTA_LIST_ELEM NLA_F_NESTED) (enc_attrs (nft_elem_attrs e))).
Proof.
  unfold nft_interval_elem, nft_elem_attrs. apply appends_nest. rewrite enc_attrs_app, enc_attrs_single.
  set (key := nest big_endian NFTA_SET_ELEM_KEY _).
  assert (Hk : appends key (enc_attr (Z.lor NFTA_SET_ELEM_KEY NLA_F_NESTED)
    (enc_attrs [(Z.lor NFTA_DATA_VALUE NLA_F_NET_BYTEORDER, octets (fst e))]))).
  { apply appends_nest. rewrite enc_attrs_single. apply appends_attr. }
  destruct (snd e); [|exact Hk]. rewrite enc_attrs_single. exact (appends_comp _ _ key _ (appends_attr _ _) Hk).
Qed.

Lemma length_nft_key ip : ip_ok ip ->
  length (enc_attrs [(Z.lor NFTA_DATA_VALUE NLA_F_NET_BYTEORDER, octets ip)]) <= 23.
Proof. intros Hip. apply (length_enc_single _ _ 16). by apply ip_ok_length. Qed.

Lemma nft_elem_attrs_ok e : ip_ok (fst e) -> Forall attr_ok (nft_elem_attrs e).
Proof.
  intros Hip. unfold nft_elem_attrs. apply Forall_app. split.
  - destruct (snd e); [by apply Forall_singleton|by apply Forall_nil].
  - apply Forall_singleton. split; [done|]. cbn [snd]. pose proof (length_nft_key _ Hip). lia.
Qed.

Lemma length_nft_elem_attrs e : ip_ok (fst e) -> length (enc_attrs (nft_elem_attrs e)) <= 41.
Proof.
  intros Hip. unfold nft_elem_attrs. rewrite enc_attrs_app, length_app. pose proof (length_nft_key _ Hip) as H1.
  pose proof (length_enc_single (Z.lor NFTA_SET_ELEM_KEY NLA_F_NESTED) _ 23 H1) as H2.
  destruct (snd e); [pose proof (length_enc_single NFTA_SET_ELEM_FLAGS (to_be 4 NFT_SET_ELEM_INTERVAL_END) 4
    ltac:(by rewrite length_to_be)) as H3|cbn [enc_attrs fmap list_fmap concat length] in *]; lia.
Qed.

Lemma read_nft_elem_attrs e :
  ip_ok (fst e) -> read_nft_elem (enc_attrs (nft_elem_attrs e))
  = Ret (Some (octets (fst e), if snd e then Some (to_be 4 NFT_SET_ELEM_INTERVAL_END) else None)).
Proof.
  intros Hip. unfold read_nft_elem. rewrite nlas_attrs by (by apply nft_elem_attrs_ok). cbn [obind].
  assert (Hget : get_attr NFTA_SET_ELEM_KEY (bare <$> nft_elem_attrs e)
    = Some (enc_attrs [(Z.lor NFTA_DATA_VALUE NLA_F_NET_BYTEORDER, octets (fst e))])) by (unfold nft_elem_attrs; by destruct (snd e)).
  rewrite Hget, read_only_attr by (by apply ip_attr_ok). cbn [obind_opt]. unfold nft_elem_attrs. by destruct (snd e).
Qed.

(** An element as the receiver sees it. *)
Definition nft_view (e : IpAddr * bool) : list Z * option (list Z) :=
  (octets (fst e), if snd e then Some (to_be 4 NFT_SET_ELEM_INTERVAL_END) else None).

Lemma nft_elems_appends mask interval ips :
  appends (fun msg => foldl (fun msg ip => foldl (fun msg '(a, e) => nft_interval_elem big_endian a e msg) msg
             (nft_elements mask interval ip)) msg ips)
    (enc_attrs ((fun e => (Z.lor NFTA_LIST_ELEM NLA_F_NESTED, enc_attrs (nft_elem_attrs e))) <$> (ips ≫= nft_elements mask interval))).
Proof.
  assert (Hin : forall ip, appends (fun msg => foldl (fun msg '(a, e) => nft_interval_elem big_endian a e msg) msg (nft_elements mask interval ip))
    (enc_attrs ((fun e => (Z.lor NFTA_LIST_ELEM NLA_F_NESTED, enc_attrs (nft_elem_attrs e))) <$> nft_elements mask interval ip))).
  { intros ip. rewrite <- (concat_enc_attr _ (fun e => enc_attrs (nft_elem_attrs e))).
    apply (appends_ext (fun msg => foldl (fun msg e => nft_interval_elem big_endian (fst e) (snd e) msg) msg (nft_elements mask interval ip))).
    - intros b. generalize (nft_elements mask interval ip). intros l. revert b. induction l as [|[a e] l IH]; intros b; [done|]. apply IH.
    - apply (appends_foldl (fun e => nft_interval_elem big_endian (fst e) (snd e))). intros e. apply nft_elem_appends. }
  induction ips as [|ip ips IH]; [apply appends_id|]. rewrite bind_cons, fmap_app, enc_attrs_app.
  exact (appends_comp _ _ _ _ (Hin ip) IH).
Qed.

Lemma empty_message t s :
  set_seq big_endian s (nl_batch big_endian t) = message t NLM_F_REQUEST s AF_UNSPEC NFNL_SUBSYS_NFTABLES [].
Proof. unfold nl_batch. rewrite nl_new_header. unfold message. by rewrite app_nil_r. Qed.

(** The nftables batch round trip.  The buffer is a BATCH_BEGIN message, the element
    message and a BATCH_END message under one sequence number; reading the element
    message gives back the table, the set and, in order, for every address either the
    single element or the two end points of its half-open range, the second one
    flagged as the interval's end.  With at most [MAX_IPS_PER_MESSAGE] addresses no
    length field overflows, even with two elements per address. *)
Lemma nft_add_spec family table set ips mask interval seq :
  name_ok table -> name_ok set -> Forall ip_ok ips -> length ips <= 500 ->
  exists body, encode big_endian (NftSetAdd family table set ips mask interval) seq
    = message NFNL_MSG_BATCH_BEGIN NLM_F_REQUEST seq AF_UNSPEC NFNL_SUBSYS_NFTABLES [] ++
      message (nft_msg_type NFT_MSG_NEWSETELEM) (Z.lor (Z.lor NLM_F_REQUEST NLM_F_CREATE) NLM_F_EXCL) seq
        (nft_family_code family) 0 body ++
      message NFNL_MSG_BATCH_END NLM_F_REQUEST seq AF_UNSPEC NFNL_SUBSYS_NFTABLES [] /\
  read_nft_add body = Ret (Some (table ++ [0%Z], set ++ [0%Z], nft_view <$> (ips ≫= nft_elements mask interval))).
Proof.
  intros Ht Hs Hips Hlen. cbn [encode]. unfold encode_nftset_add. set (es := ips ≫= nft_elements mask interval).
  assert (Hes : Forall (fun e => ip_ok (fst e)) es).
  { apply Forall_bind. eapply Forall_impl; [exact Hips|]. intros ip Hip. by apply nft_elements_ok. }
  assert (Hle : length es <= 2 * length ips).
  { unfold es. clear. induction ips as [|ip l IH]; [done|]. rewrite bind_cons, length_app.
    pose proof (length_nft_elements mask interval ip). cbn [length]. lia. }
  set (elems := enc_attrs ((fun e => (Z.lor NFTA_LIST_ELEM NLA_F_NESTED, enc_attrs (nft_elem_attrs e))) <$> es)).
  set (attrs := [(NFTA_SET_ELEM_LIST_TABLE, table ++ [0%Z]); (NFTA_SET_ELEM_LIST_SET, set ++ [0%Z]);
                 (Z.lor NFTA_SET_ELEM_LIST_ELEMENTS NLA_F_NESTED, elems)]).
  assert (Hb : Forall (fun e => length (enc_attrs (nft_elem_attrs e)) <= 41) es).
  { eapply Forall_impl; [exact Hes|]. intros e He. by apply length_nft_elem_attrs. }
  assert (Hel : length elems <= (7 + 41) * length es) by (by apply length_list_attrs).
  assert (Hok : Forall attr_ok attrs).
  { unfold name_ok in *. repeat (apply Forall_cons; split); [| | |by apply Forall_nil]; (split; [done|]); cbn [snd];
      rewrite ?length_app; cbn [length]; lia. }
  exists (enc_attrs attrs). split.
  - rewrite !empty_message. do 2 f_equal.
    set (g3 := nest big_endian NFTA_SET_ELEM_LIST_ELEMENTS _). set (g2 := fun b => g3 (attr_nul big_endian NFTA_SET_ELEM_LIST_SET set b)).
    assert (Hg3 : appends g3 (enc_attr (Z.lor NFTA_SET_ELEM_LIST_ELEMENTS NLA_F_NESTED) elems)) by (apply appends_nest, nft_elems_appends).
    apply (built_message _ _ _ _ _ (fun b => g2 (attr_nul big_endian NFTA_SET_ELEM_LIST_TABLE table b))).
    + unfold attrs. rewrite !enc_attrs_cons. change (enc_attrs []) with (@nil Z). rewrite app_nil_r.
      exact (appends_comp _ _ g2 _ (appends_attr_nul _ _) (appends_comp _ _ g3 _ (appends_attr_nul _ _) Hg3)).
    + unfold attrs. rewrite enc_attrs_cons. intros Hx%(f_equal length). rewrite length_app, length_enc_attr in Hx. cbn in Hx. lia.
    + intros b. by eexists.
  - unfold read_nft_add. rewrite nlas_attrs by done. cbn [obind].
    assert (get_attr NFTA_SET_ELEM_LIST_TABLE (bare <$> attrs) = Some (table ++ [0%Z])) as -> by done.
    assert (get_attr NFTA_SET_ELEM_LIST_SET (bare <$> attrs) = Some (set ++ [0%Z])) as -> by done.
    assert (get_attr NFTA_SET_ELEM_LIST_ELEMENTS (bare <$> attrs) = Some elems) as -> by done.
    unfold elems. rewrite nlas_attrs by (by eapply list_attrs_ok; [| |exact Hb]). cbn [obind].
    rewrite (read_each_map NFTA_LIST_ELEM read_nft_elem _ nft_view); [done|done|].
    eapply Forall_impl; [exact Hes|]. intros e He. by apply read_nft_elem_attrs.
Qed.
End host.

(** ** Prefix ranges *)

Lemma land_mask w p a :
  (0 <= p <= w)%Z -> (0 <= a < 2 ^ w)%Z -> Z.land a (mask_bits w p) = (a / 2 ^ (w - p) * 2 ^ (w - p))%Z.
Proof.
  intros Hp Ha. unfold mask_bits. rewrite <- Z.shiftl_mul_pow2, <- Z.shiftr_div_pow2 by lia.
  assert (Hhigh : forall i, (w <= i)%Z -> Z.testbit a i = false).
  { intros i Hi. rewrite <- (Z.mod_small a (2 ^ w)) by lia. apply Z.mod_pow2_bits_high. lia. }
  case_decide as H0; [|case_decide as Hw].
  - subst. rewrite Z.sub_0_r, Z.land_0_r. rewrite Z.shiftr_div_pow2, Z.div_small by lia. by rewrite Z.shiftl_0_l.
  - assert (p = w) as -> by lia. rewrite Z.sub_diag, Z.shiftr_0_r, Z.shiftl_0_r.
    rewrite Z.sub_1_r, <- Z.ones_equiv, Z.land_ones by lia. by apply Z.mod_small.
  - apply Z.bits_inj'. intros i Hi. unfold wrap. rewrite Z.sub_1_r, <- Z.ones_equiv, Z.land_spec.
    destruct (decide (w <= i)%Z) as [Hiw|Hiw].
    { rewrite Hhigh by done. cbn [andb]. symmetry. destruct (decide (w - p <= i)%Z) as [Hk|Hk].
      - rewrite Z.shiftl_spec, Z.shiftr_spec by lia. apply Hhigh. lia.
      - by rewrite Z.shiftl_spec_low by lia. }
    rewrite Z.mod_pow2_bits_low by lia. destruct (decide (w - p <= i)%Z) as [Hk|Hk].
    + rewrite !Z.shiftl_spec, Z.shiftr_spec, Z.ones_spec_low by lia. rewrite andb_true_r. f_equal. lia.
    + by rewrite !Z.shiftl_spec_low, andb_false_r by lia.
Qed.

Lemma prefix_size_pow w p : (w = 32 \/ w = 128)%Z -> (1 <= p <= w)%Z -> prefix_size w p = (2 ^ (w - p))%Z.
Proof.
  intros Hw Hp. unfold prefix_size. case_decide as Hd; [by assert (p = w) as -> by lia; rewrite Z.sub_diag|].
  unfold shift_one, wrap. rewrite (Z.mod_small (w - p)) by lia. rewrite Z.shiftl_1_l.
  apply Z.mod_small. split; [lia|]. apply Z.pow_lt_mono_r; lia.
Qed.

Definition width (ip : IpAddr) : Z := match ip with V4 _ => 32 | V6 _ => 128 end.

(** The address as a number. *)
Definition value (ip : IpAddr) : Z := from_be (octets ip).

Definition addr_ok (ip : IpAddr) : Prop := ip_ok ip /\ bytes_ok (octets ip).

Lemma value_bound ip : addr_ok ip -> (0 <= value ip < 2 ^ width ip)%Z.
Proof.
  intros [Hl Hb]. pose proof (from_be_bound _ Hb) as Hv. unfold value. destruct ip as [o|o]; cbn [octets width ip_ok] in *; rewrite Hl in Hv; exact Hv.
Qed.

Lemma from_be_to_be_width n w z : (0 <= z < 2 ^ w)%Z -> w = (8 * Z.of_nat n)%Z -> from_be (to_be n z) = z.
Proof. intros Hz ->. apply from_be_to_be_small. rewrite Z.pow_mul_r in Hz by lia. exact Hz. Qed.

Lemma value_apply_mask ip p :
  addr_ok ip -> (0 <= p <= width ip)%Z ->
  value (apply_mask ip p) = (value ip / 2 ^ (width ip - p) * 2 ^ (width ip - p))%Z /\ addr_ok (apply_mask ip p) /\
  width (apply_mask ip p) = width ip.
Proof.
  intros Ha Hp. pose proof (value_bound ip Ha) as Hv.
  assert (Hm : (0 <= value ip / 2 ^ (width ip - p) * 2 ^ (width ip - p) < 2 ^ width ip)%Z).
  { pose proof (Z.mul_div_le (value ip) (2 ^ (width ip - p)) ltac:(lia)).
    pose proof (Z.div_pos (value ip) (2 ^ (width ip - p)) ltac:(lia) ltac:(lia)). nia. }
  destruct ip as [o|o]; cbn [apply_mask width] in *; (split; [|split; [split; [apply length_to_be|apply to_be_ok]|done]]);
    unfold value in *; cbn [octets] in *; rewrite land_mask by lia.
  - by apply (from_be_to_be_width 4 32).
  - by apply (from_be_to_be_width 16 128).
Qed.

Lemma value_prefix_end ip p :
  addr_ok ip -> (1 <= p <= width ip)%Z ->
  value (prefix_end ip p) = ((value ip + 2 ^ (width ip - p)) mod 2 ^ width ip)%Z.
Proof.
  intros Ha Hp. assert (Hm : (0 <= (value ip + 2 ^ (width ip - p)) mod 2 ^ width ip < 2 ^ width ip)%Z)
    by (apply Z.mod_pos_bound; lia).
  destruct ip as [o|o]; cbn [prefix_end width] in *; unfold value in *; cbn [octets] in *;
    rewrite prefix_size_pow by lia; unfold wrap.
  - by apply (from_be_to_be_width 4 32).
  - by apply (from_be_to_be_width 16 128).
Qed.

Lemma same_block a x k : (0 < k)%Z -> (x / k = a / k <-> a / k * k <= x < a / k * k + k)%Z.
Proof. intros Hk. split; intros H; Z.to_euclidean_division_equations; nia. Qed.

(** What a masked interval element covers.  For a prefix length of at least 1,
    the addresses from the masked address up to (not including) the range's end point
    are exactly those that share the address's first [p] bits; the end point is 0 when
    the range reaches the end of the address space. *)
Theorem prefix_range_correct ip p x :
  addr_ok ip -> (1 <= p <= width ip)%Z -> (0 <= x < 2 ^ width ip)%Z ->
  let net := apply_mask ip p in
  let end_ := value (prefix_end net p) in
  (x / 2 ^ (width ip - p) = value ip / 2 ^ (width ip - p) <-> value net <= x /\ (x < end_ \/ end_ = 0))%Z.
Proof.
  intros Ha Hp Hx net end_. destruct (value_apply_mask ip p Ha) as (Hv & Hok & Hw); [lia|]. fold net in Hv, Hok, Hw.
  assert (He : end_ = ((value net + 2 ^ (width ip - p)) mod 2 ^ width ip)%Z).
  { unfold end_. rewrite value_prefix_end; [by rewrite Hw|done|by rewrite Hw]. }
  set (k := (2 ^ (width ip - p))%Z) in *. assert (Hk : (0 < k)%Z) by (unfold k; lia).
  rewrite same_block by done. rewrite <- Hv. pose proof (value_bound net Hok) as Hb. rewrite Hw in Hb.
  assert (Hdiv : (2 ^ width ip = 2 ^ p * k)%Z) by (unfold k; rewrite <- Z.pow_add_r by lia; f_equal; lia).
  assert (Hle : (value net + k <= 2 ^ width ip)%Z).
  { rewrite Hv, Hdiv in *. assert (value ip / k < 2 ^ p)%Z by nia. nia. }
  destruct (decide (value net + k = 2 ^ width ip)%Z) as [Htop|Htop].
  - rewrite He, Htop, Z.mod_same by lia. lia.
  - rewrite He, Z.mod_small by lia. lia.
Qed.

Lemma prefix_range_witness :
  (let net := apply_mask (V4 [203; 0; 114; 77]%Z) 24 in
   let end_ := value (prefix_end net 24) in
   3405804032 / 2 ^ 8 = value (V4 [203; 0; 114; 77]%Z) / 2 ^ 8 <-> value net <= 3405804032 /\ (3405804032 < end_ \/ end_ = 0))%Z.
Proof.
  apply (prefix_range_correct (V4 [203; 0; 114; 77]%Z) 24 3405804032); [|by cbn|by cbn].
  split; [done|]. apply bytes_check. by vm_compute.
Defined.

(** A prefix length of 0 is accepted by the configuration, and masks every address to
    0; but the end point of the range is then the address 1, so the set receives
    the single address 0 instead of the whole address space. *)
Theorem prefix_zero_range ip :
  addr_ok ip -> value (apply_mask ip 0) = 0%Z /\ value (prefix_end (apply_mask ip 0) 0) = 1%Z.
Proof.
  intros Ha. destruct (value_apply_mask ip 0 Ha) as (Hv & Hok & Hw); [destruct ip; cbn; lia|].
  rewrite Z.sub_0_r, Z.div_small, Z.mul_0_l in Hv by (by apply value_bound). split; [done|].
  unfold value in Hv. destruct ip as [o|o]; cbn [apply_mask prefix_end octets value] in *; unfold value; cbn [octets];
    rewrite Hv; by vm_compute.
Qed.

(** ** Replies *)

Section replies.
Context (big_endian : bool).
Abbreviation message := (message big_endian).
Abbreviation enc_attrs := (enc_attrs big_endian).

Lemma read_ne_returns l i n : i + n <= length l -> returns (read_ne big_endian l i n).
Proof. intros. unfold read_ne. rewrite slice_Ret by lia. apply returns_Ret. Qed.

Lemma nla_iter_total fuel data pos :
  0 < fuel -> length data < fuel + pos -> returns (nla_iter big_endian fuel data pos).
Proof.
  revert pos. induction fuel as [|fuel IH]; intros pos H0 Hf; [lia|]. cbn [nla_iter].
  case_decide; auto with rust. apply returns_bind; [apply read_ne_returns; lia|]. intros len _.
  case_decide; auto with rust. case_decide; auto with rust.
  apply returns_bind; [apply read_ne_returns; lia|]. intros kind _. rewrite slice_Ret by lia. cbn [obind].
  apply returns_bind; [|auto with rust]. rewrite round_up_4. apply IH; lia.
Qed.

Lemma find_flags_total attrs : returns (find_flags attrs).
Proof.
  induction attrs as [|[t v] attrs IH]; cbn [find_flags]; auto with rust.
  case_decide as H; [|done]. rewrite u32_at_be32 by lia. auto with rust.
Qed.

Lemma decode_nft_set_flags_total t data : returns (decode_nft_set_flags big_endian t data).
Proof.
  unfold decode_nft_set_flags, nlmsg_errno. case_decide.
  - apply returns_bind; [|auto with rust]. case_decide; auto with rust.
    apply returns_bind; [apply read_ne_returns; lia|auto with rust].
  - case_decide; auto with rust. rewrite slice_Ret by lia. cbn [obind].
    apply returns_bind; [apply nla_iter_total; lia|]. intros attrs _.
    apply returns_bind; [apply find_flags_total|auto with rust].
Qed.

Lemma round_up_ge n : n <= Z.to_nat (Z.land (Z.of_nat (n + 3)) (Z.lnot 3)).
Proof. rewrite round_up_4. lia. Qed.

Lemma scan_datagram_total fuel buf seq pos :
  0 < fuel -> length buf < fuel + pos -> returns (scan_datagram big_endian fuel buf seq pos).
Proof.
  revert pos. induction fuel as [|fuel IH]; intros pos H0 Hf; [lia|]. cbn [scan_datagram].
  case_decide; auto with rust. apply returns_bind; [apply read_ne_returns; lia|]. intros len _.
  case_decide; auto with rust. apply returns_bind; [apply read_ne_returns; lia|]. intros t _.
  apply returns_bind; [apply read_ne_returns; lia|]. intros s _.
  case_decide; auto with rust. destruct (decide (s = seq)); [rewrite slice_Ret by lia; cbn [obind]; auto with rust|].
  pose proof (round_up_ge (Z.to_nat len)). apply IH; lia.
Qed.

(** A message of the kernel: type, flags, sequence number, family, attributes. *)
Record nl_reply := mkReply { rp_type : Z; rp_flags : Z; rp_seq : Z; rp_family : Z; rp_attrs : list (Z * list Z) }.

Definition reply_bytes (r : nl_reply) : list Z :=
  message (rp_type r) (rp_flags r) (rp_seq r) (rp_family r) 0 (enc_attrs (rp_attrs r)).

Definition reply_ok (r : nl_reply) : Prop :=
  u_ok 16 (rp_type r) /\ u_ok 32 (rp_seq r) /\ Forall attr_ok (rp_attrs r) /\
  (Z.of_nat (20 + length (enc_attrs (rp_attrs r))) < 2 ^ 32)%Z.

Lemma length_reply r : length (reply_bytes r) = 20 + length (enc_attrs (rp_attrs r)).
Proof. unfold reply_bytes, NetlinkCorrect.message. rewrite !length_app, length_to_ne, length_header. lia. Qed.

Lemma reply_fields r pre post :
  reply_ok r ->
  let d := pre ++ reply_bytes r ++ post in
  read_ne big_endian d (length pre) 4 = Ret (Z.of_nat (length (reply_bytes r))) /\
  read_ne big_endian d (length pre + 4) 2 = Ret (rp_type r) /\
  read_ne big_endian d (length pre + 8) 4 = Ret (rp_seq r).
Proof.
  intros (Ht & Hs & _ & Hl) d. rewrite length_reply. unfold d, reply_bytes, NetlinkCorrect.message, header. rewrite <- !app_assoc.
  unfold u_ok in *. split_and!.
  - rewrite read_ne_mid by (by rewrite ?length_to_ne). rewrite from_ne_to_ne.
    + unfold wrap. by rewrite Z.mod_small by lia.
    + change (256 ^ Z.of_nat 4)%Z with (2 ^ 32)%Z. unfold wrap. apply Z.mod_pos_bound. lia.
  - rewrite (app_assoc pre). rewrite read_ne_mid by (by rewrite ?length_app, ?length_to_ne).
    rewrite from_ne_to_ne; [done|]. change (256 ^ Z.of_nat 2)%Z with (2 ^ 16)%Z. done.
  - do 3 rewrite app_assoc.
    rewrite read_ne_mid by (rewrite ?length_app, ?length_to_ne; lia).
    rewrite from_ne_to_ne; [done|]. change (256 ^ Z.of_nat 4)%Z with (2 ^ 32)%Z. done.
Qed.

(** The first reply with the sequence number. *)
Fixpoint find_seq (seq : Z) (rs : list nl_reply) : option nl_reply :=
  match rs with
  | [] => None
  | r :: rs' => if decide (rp_seq r = seq) then Some r else find_seq seq rs'
  end.

Definition datagram (rs : list nl_reply) : list Z := concat (reply_bytes <$> rs).

Lemma aligned_reply r : aligned (reply_bytes r).
Proof.
  unfold aligned. rewrite length_reply. change 20 with (length (replicate 20 0%Z)). rewrite <- length_app.
  apply aligned_app; [done|apply aligned_enc_attrs].
Qed.

Lemma scan_datagram_find rs fuel pre seq :
  Forall reply_ok rs -> length rs < fuel ->
  scan_datagram big_endian fuel (pre ++ datagram rs) seq (length pre)
  = Ret (match find_seq seq rs with Some r => RecvFound (rp_type r) (reply_bytes r) | None => RecvAgain end).
Proof.
  revert fuel pre. induction rs as [|r rs IH]; intros fuel pre Hrs Hf; (destruct fuel as [|fuel]; [cbn in Hf; lia|]).
  - cbn [scan_datagram datagram fmap list_fmap concat find_seq]. rewrite decide_False; [done|]. len.
  - apply Forall_cons in Hrs as [Hr Hrs]. unfold datagram. cbn [fmap list_fmap concat]. fold (datagram rs).
    change (concat (list_fmap _ _ reply_bytes rs)) with (datagram rs).
    destruct (reply_fields r pre (datagram rs) Hr) as (H1 & H2 & H3).
    assert (Hl : 20 <= length (reply_bytes r)) by (rewrite length_reply; lia).
    cbn [scan_datagram]. rewrite decide_True by (rewrite !length_app; lia). rewrite H1. cbn [obind].
    rewrite Nat2Z.id, decide_False by lia. rewrite H2. cbn [obind]. rewrite H3. cbn [obind].
    rewrite decide_False by (rewrite !length_app; lia). cbn [find_seq]. case_decide as Hs.
    + rewrite slice_Ret by (rewrite ?length_app; lia). cbn [obind]. rewrite drop_app_length.
      replace (length pre + length (reply_bytes r) - length pre) with (length (reply_bytes r)) by lia. by rewrite take_app_length.
    + rewrite round_up_4. assert (padding (length (reply_bytes r)) = []) as Hp.
      { unfold padding. by rewrite aligned_reply. }
      rewrite Hp. cbn [length]. rewrite Nat.add_0_r, <- length_app, app_assoc. apply IH; [done|cbn in Hf; lia].
Qed.

Lemma recv_for_seq_find groups seq :
  Forall (Forall reply_ok) groups ->
  recv_for_seq big_endian (datagram <$> groups) seq
  = Ret ((fun r => Ok (rp_type r, reply_bytes r)) <$> find_seq seq (concat groups)).
Proof.
  induction 1 as [|g groups Hg _ IH]; [done|]. cbn [fmap list_fmap recv_for_seq concat].
  assert (Hlen : length g <= length (datagram g)).
  { clear. induction g as [|r g IH]; [done|]. unfold datagram in *. cbn [fmap list_fmap concat length].
    rewrite length_app, length_reply. lia. }
  pose proof (scan_datagram_find g (S (length (datagram g))) [] seq Hg ltac:(lia)) as Hsc. cbn [app length] in Hsc.
  rewrite Hsc. cbn [obind].
  assert (Hf : find_seq seq (g ++ concat groups) = match find_seq seq g with Some r => Some r | None => find_seq seq (concat groups) end).
  { clear. induction g as [|r g IH]; [done|]. cbn [app find_seq]. by case_decide. }
  rewrite Hf. destruct (find_seq seq g); [done|]. exact IH.
Qed.

Lemma decode_reply_flags r :
  reply_ok r -> rp_type r = nft_msg_type NFT_MSG_NEWSET ->
  decode_nft_set_flags big_endian (rp_type r) (reply_bytes r)
  = let! f := find_flags (bare <$> rp_attrs r) in Ret (Ok f).
Proof.
  intros (_ & _ & Ha & _) Ht. unfold decode_nft_set_flags. rewrite decide_False by tauto.
  rewrite length_reply, decide_False by lia. rewrite slice_Ret by (rewrite ?length_reply; lia). cbn [obind].
  unfold reply_bytes, NetlinkCorrect.message. rewrite app_assoc, drop_app_length' by (rewrite length_app, length_to_ne, length_header; done).
  rewrite take_ge by lia. rewrite nlas_attrs by done. done.
Qed.

(** Netlink replies.  Decoding and scanning return on every byte string the
    kernel can hand over.  When the datagrams consist of well-formed messages,
    [recv_for_seq] finds the first one carrying the sequence number sought and skips
    every other one, and the flags decoded from a NEWSET message are those of its
    first flags attribute (0 without one). *)
Theorem netlink_replies_correct :
  (forall t data, returns (decode_nft_set_flags big_endian t data)) /\
  (forall d seq, returns (scan_datagram big_endian (S (length d)) d seq 0)) /\
  (forall groups seq, Forall (Forall reply_ok) groups ->
     recv_for_seq big_endian (datagram <$> groups) seq
     = Ret ((fun r => Ok (rp_type r, reply_bytes r)) <$> find_seq seq (concat groups))) /\
  (forall r v, reply_ok r -> rp_type r = nft_msg_type NFT_MSG_NEWSET -> u_ok 32 v ->
     (forall pre post, rp_attrs r = pre ++ (NFTA_SET_FLAGS, to_be 4 v) :: post ->
        Forall (fun a => Z.land (fst a) NLA_TYPE_MASK <> NFTA_SET_FLAGS) pre ->
        decode_nft_set_flags big_endian (rp_type r) (reply_bytes r) = Ret (Ok v)) /\
     (Forall (fun a => Z.land (fst a) NLA_TYPE_MASK <> NFTA_SET_FLAGS) (rp_attrs r) ->
        decode_nft_set_flags big_endian (rp_type r) (reply_bytes r) = Ret (Ok 0%Z))).
Proof.
  split; [apply decode_nft_set_flags_total|]. split; [intros d seq; apply scan_datagram_total; lia|].
  split; [apply recv_for_seq_find|]. intros r v Hr Ht Hv. rewrite decode_reply_flags by done.
  assert (Hskip : forall pre post, Forall (fun a => Z.land (fst a) NLA_TYPE_MASK <> NFTA_SET_FLAGS) pre ->
    find_flags (bare <$> (pre ++ post)) = find_flags (bare <$> post)).
  { intros pre post Hp. induction Hp as [|a pre Ha _ IH]; [done|]. cbn [app fmap list_fmap bare find_flags fst snd].
    rewrite decide_False by tauto. exact IH. }
  split.
  - intros pre post -> Hp. rewrite Hskip by done. cbn [fmap list_fmap bare find_flags fst snd].
    rewrite decide_True by (split; [done|by rewrite length_to_be]). rewrite u32_at_be32 by (rewrite length_to_be; lia). cbn [obind].
    do 2 f_equal. destruct (list_of_4 (to_be 4 v)) as (a & b & c & d & Hl); [apply length_to_be|].
    unfold be32. rewrite Hl. cbn [nthb]. change (from_be [a; b; c; d] = v). rewrite <- Hl. by apply from_be_to_be_small.
  - intros Hn. rewrite <- (app_nil_r (rp_attrs r)), Hskip by done. done.
Qed.
End replies.
