(* ===== verification/Ipset.v ===== *)
(** * ipset and nftset management (src/src/ipset/mod.rs, config.rs, client.rs, worker.rs)

    Set names and their syntax, the addresses that never enter a set, the bounded add
    queue, the batching worker (sort, deduplicate, one add per set, retry after a
    socket error) and the client that splits a batch into messages.  Sending is an
    argument: the outcome of each send. *)

From stdpp Require Import strings.
From S2P Require Import Prelude Order Hasher DnsName DnsQuery DnsRecords Utf8 DnsQname RustStr IpRange IpParse Netlink.

(** ** Set names *)

Inductive SetName :=
| IpSet (name : list Z) (mask : option Z)
| NftSet (family : NftFamily) (table set : list Z) (mask : option Z).

#[export] Instance SetName_eq_dec : EqDecision SetName.
Proof. solve_decision. Defined.

Inductive set_error :=
| InvalidNftFamily
| InvalidNftName
| InvalidPrefixLength
| InvalidIpsetMask
| EmptyIpsetName
| PrefixTooLarge.

(** [s.parse::<u8>()] *)
Fixpoint parse_u8_digits (acc : Z) (s : list Z) : option Z :=
  match s with
  | [] => Some acc
  | c :: s' =>
      match to_digit 10 c with
      | None => None
      | Some d =>
          let acc := (acc * 10 + d)%Z in
          if decide (256 <= acc)%Z then None else parse_u8_digits acc s'
      end
  end.

Definition parse_u8 (s : list Z) : option Z :=
  match s with
  | [] => None
  | [43%Z] => None
  | 43%Z :: s' => parse_u8_digits 0 s'
  | _ => parse_u8_digits 0 s
  end.

Definition parse_mask (s : list Z) : result set_error (option Z) :=
  match s with
  | [] => Ok None
  | _ =>
      match parse_u8 s with
      | None => Err InvalidPrefixLength
      | Some n => if decide (128 < n)%Z then Err InvalidPrefixLength else Ok (Some n)
      end
  end.

Definition parse_nft_family (value : list Z) : result set_error NftFamily :=
  if decide (value = lit "inet") then Ok Inet
  else if decide (value = lit "ip") then Ok Ip
  else if decide (value = lit "ip6") then Ok Ip6
  else if decide (value = lit "arp") then Ok Arp
  else if decide (value = lit "bridge") then Ok Bridge
  else if decide (value = lit "netdev") then Ok Netdev
  else Err InvalidNftFamily.

(** [s.splitn(n, c)]: at most [n] pieces, the last one unsplit. *)
Fixpoint splitn (n : nat) (c : Z) (s : list Z) : list (list Z) :=
  match n with
  | O => []
  | S O => [s]
  | S n' => match split_once c s with Some (a, rest) => a :: splitn n' c rest | None => [s] end
  end.

(** [s.rfind(c)] *)
Definition str_rfind (c : Z) (s : list Z) : option nat :=
  match str_find c (rev s) with Some i => Some (length s - 1 - i) | None => None end.

Definition set_mask (s : SetName) : option Z :=
  match s with IpSet _ mask => mask | NftSet _ _ _ mask => mask end.

Definition AT : Z := 64.
Definition SLASH : Z := 47.

(** The nftset branch of [SetName::parse]. *)
Definition parse_nftset (raw : list Z) : result set_error SetName :=
  let parts := splitn 5 AT raw in
  let part i := default [] (parts !! i) in
  match parse_nft_family (part 0) with
  | Err e => Err e
  | Ok family =>
      let table := part 1 in
      let set := part 2 in
      let mask_str := part 3 in
      if decide (table = [] \/ set = [] \/ is_Some (parts !! 4)) then Err InvalidNftName
      else match parse_mask mask_str with
           | Err e => Err e
           | Ok mask => Ok (NftSet family table set mask)
           end
  end.

(** The ipset branch. *)
Definition parse_ipset (raw : list Z) : result set_error SetName :=
  let named (name : list Z) (mask : option Z) : result set_error SetName :=
    if decide (name = []) then Err EmptyIpsetName else Ok (IpSet name mask) in
  match str_rfind SLASH raw with
  | Some slash =>
      match parse_mask (drop (slash + 1) raw) with
      | Err e => Err e
      | Ok None => Err InvalidIpsetMask
      | Ok (Some mask) => named (take slash raw) (Some mask)
      end
  | None => named raw None
  end.

Definition parse_set_name (raw : list Z) (max_prefix : Z) : result set_error SetName :=
  match (if str_contains AT raw then parse_nftset raw else parse_ipset raw) with
  | Err e => Err e
  | Ok parsed =>
      match set_mask parsed with
      | Some mask => if decide (max_prefix < mask)%Z then Err PrefixTooLarge else Ok parsed
      | None => Ok parsed
      end
  end.

(** ** Special-use addresses *)

(** The predicates of [Ipv4Addr] and [Ipv6Addr] used, on octets and segments. *)
Definition v4_is_loopback (o : list Z) : bool := bool_decide (nthb o 0 = 127)%Z.
Definition v4_is_private (o : list Z) : bool :=
  bool_decide (nthb o 0 = 10 \/ (nthb o 0 = 172 /\ 16 <= nthb o 1 <= 31) \/ (nthb o 0 = 192 /\ nthb o 1 = 168))%Z.
Definition v4_is_link_local (o : list Z) : bool := bool_decide (nthb o 0 = 169 /\ nthb o 1 = 254)%Z.
Definition v4_is_broadcast (o : list Z) : bool := bool_decide (o = [255; 255; 255; 255]%Z).
Definition v4_is_multicast (o : list Z) : bool := bool_decide (224 <= nthb o 0 <= 239)%Z.
Definition v4_is_documentation (o : list Z) : bool :=
  bool_decide (take 3 o = [192; 0; 2]%Z \/ take 3 o = [198; 51; 100]%Z \/ take 3 o = [203; 0; 113]%Z).

Definition segment (o : list Z) (i : nat) : Z := be16 o (2 * i).
Definition v6_is_loopback (o : list Z) : bool := bool_decide (from_be o = 1)%Z.
Definition v6_is_unspecified (o : list Z) : bool := bool_decide (from_be o = 0)%Z.
Definition v6_is_multicast (o : list Z) : bool := bool_decide (Z.land (segment o 0) 0xff00 = 0xff00)%Z.
Definition v6_is_unique_local (o : list Z) : bool := bool_decide (Z.land (segment o 0) 0xfe00 = 0xfc00)%Z.
Definition v6_is_unicast_link_local (o : list Z) : bool := bool_decide (Z.land (segment o 0) 0xffc0 = 0xfe80)%Z.

Definition is_special_use (ip : IpAddr) : bool :=
  match ip with
  | V4 o =>
      if v4_is_loopback o || v4_is_private o || v4_is_link_local o || v4_is_broadcast o || v4_is_multicast o ||
         v4_is_documentation o then true
      else bool_decide (nthb o 0 = 0)%Z || (bool_decide (nthb o 0 = 100)%Z && bool_decide (Z.land (nthb o 1) 0xc0 = 0x40)%Z)
  | V6 o =>
      if v6_is_loopback o || v6_is_unspecified o || v6_is_multicast o || v6_is_unique_local o || v6_is_unicast_link_local o
      then true
      else bool_decide (segment o 0 = 0x2001)%Z && bool_decide (segment o 1 = 0x0db8)%Z
  end.

(** ** The add queue *)

Definition ADD_QUEUE_SIZE : nat := Z.to_nat 16384.

Record AddJob := mkJob { job_set : SetName; job_ip : IpAddr; job_interval : bool }.

(** [queue] is the channel's content, [None] when there is no channel (no set is
    configured); [worker_alive] is false once the worker thread is gone. *)
Record IpSetManager := mkManager {
  add_rules : list (nat * nat * SetName);
  interval_nft_sets : list SetName;
  warned_full : bool;
  warned_exited : bool;
  dropped_count : Z;
  queue : option (list AddJob);
  worker_alive : bool
}.

(** [IpSetManager::new]: [has_interval] is what the startup query of a set's
    [NFT_SET_INTERVAL] flag says (false when the query fails). *)
Fixpoint parse_rules (cfg : list (nat * nat * list Z * bool)) : result set_error (list (nat * nat * SetName)) :=
  match cfg with
  | [] => Ok []
  | (rule_idx, filter_idx, raw, is_v6) :: cfg' =>
      match parse_set_name raw (if is_v6 : bool then 128 else 32)%Z with
      | Err e => Err e
      | Ok set => match parse_rules cfg' with Err e => Err e | Ok rs => Ok ((rule_idx, filter_idx, set) :: rs) end
      end
  end.

Definition manager_new (cfg : list (nat * nat * list Z * bool)) (has_interval : SetName -> bool)
  : result set_error IpSetManager :=
  match parse_rules cfg with
  | Err e => Err e
  | Ok rules =>
      let nft := List.filter (fun s => match s with NftSet _ _ _ _ => has_interval s | IpSet _ _ => false end) (snd <$> rules) in
      Ok (mkManager rules nft false false 0 (match rules with [] => None | _ => Some [] end) true)
  end.

Definition filter_set (m : IpSetManager) (rule_idx filter_idx : nat) : option SetName :=
  match list_find (fun p => fst (fst p) = rule_idx /\ snd (fst p) = filter_idx) (add_rules m) with
  | Some (_, (_, _, set)) => Some set
  | None => None
  end.

(** One address of the loop in [add_ips]. *)
Definition add_one (set : SetName) (m : IpSetManager) (ip : IpAddr) : IpSetManager :=
  if is_special_use ip then m
  else
    let interval := bool_decide (set ∈ interval_nft_sets m) in
    match queue m with
    | None => m
    | Some q =>
        if negb (worker_alive m) then
          mkManager (add_rules m) (interval_nft_sets m) (warned_full m) true (dropped_count m) (queue m) (worker_alive m)
        else if decide (length q < ADD_QUEUE_SIZE) then
          mkManager (add_rules m) (interval_nft_sets m) (warned_full m) (warned_exited m) (dropped_count m)
            (Some (q ++ [mkJob set ip interval])) (worker_alive m)
        else
          mkManager (add_rules m) (interval_nft_sets m) true (warned_exited m) (wrap 64 (dropped_count m + 1))
            (queue m) (worker_alive m)
    end.

Definition add_ips (m : IpSetManager) (set : SetName) (ips : list IpAddr) : IpSetManager := foldl (add_one set) m ips.

Definition add_filter_ips (m : IpSetManager) (rule_idx filter_idx : nat) (ips : list IpAddr) : IpSetManager :=
  match filter_set m rule_idx filter_idx with
  | Some set => add_ips m set ips
  | None => m
  end.

(** ** The worker *)

(** The derived orders: a variant's number first, then its fields in order. *)
Definition mask_fields (mask : option Z) : list Z := match mask with None => [0] | Some m => [1; m] end%Z.

Definition family_number (f : NftFamily) : Z :=
  match f with Inet => 0 | Ip => 1 | Ip6 => 2 | Arp => 3 | Bridge => 4 | Netdev => 5 end.

Definition set_fields (s : SetName) : list (list Z) :=
  match s with
  | IpSet name mask => [[0%Z]; name; mask_fields mask]
  | NftSet family table set mask => [[1%Z]; [family_number family]; table; set; mask_fields mask]
  end.

Definition ip_fields (ip : IpAddr) : list Z := match ip with V4 o => 0%Z :: o | V6 o => 1%Z :: o end.

Definition set_cmp (a b : SetName) : comparison := list_cmp (list_cmp Z.compare) (set_fields a) (set_fields b).
Definition ip_cmp (a b : IpAddr) : comparison := list_cmp Z.compare (ip_fields a) (ip_fields b).

(** [a.set.cmp(&b.set).then_with(|| a.ip.cmp(&b.ip))] *)
Definition job_cmp (a b : AddJob) : comparison :=
  match set_cmp (job_set a) (job_set b) with Eq => ip_cmp (job_ip a) (job_ip b) | c => c end.

(** [sort_by], a stable sort. *)
Fixpoint insert_job (a : AddJob) (l : list AddJob) : list AddJob :=
  match l with
  | [] => [a]
  | b :: l' => match job_cmp a b with Gt => b :: insert_job a l' | _ => a :: l end
  end.

Definition sort_jobs (l : list AddJob) : list AddJob := foldr insert_job [] l.

(** [dedup_by]: an element equal to the last one kept is removed. *)
Fixpoint dedup_after (last : AddJob) (l : list AddJob) : list AddJob :=
  match l with
  | [] => []
  | a :: l' =>
      if decide (job_set a = job_set last /\ job_ip a = job_ip last) then dedup_after last l'
      else a :: dedup_after a l'
  end.

Definition dedup_jobs (l : list AddJob) : list AddJob :=
  match l with [] => [] | a :: l' => a :: dedup_after a l' end.

(** The contiguous runs of one set. *)
Fixpoint take_run (set : SetName) (l : list AddJob) : list AddJob * list AddJob :=
  match l with
  | a :: l' => if decide (job_set a = set) then let '(r, rest) := take_run set l' in (a :: r, rest) else ([], l)
  | [] => ([], [])
  end.

Inductive add_outcome := AddOk | AddIoError | AddOtherError.

(** The walk over the runs: [send i] is the outcome of the [i]-th add.  The adds made
    (set, addresses, interval), the jobs retained, whether to reconnect. *)
Fixpoint walk_runs (fuel : nat) (send : nat -> add_outcome) (i : nat) (need_reconnect : bool) (jobs : list AddJob)
  : list (SetName * list IpAddr * bool) * list AddJob * bool :=
  match fuel, jobs with
  | S fuel', a :: jobs' =>
      let '(run, rest) := take_run (job_set a) jobs' in
      let chunk := a :: run in
      if need_reconnect then
        let '(adds, retained, r) := walk_runs fuel' send i true rest in (adds, chunk ++ retained, r)
      else
        let this := (job_set a, job_ip <$> chunk, job_interval a) in
        match send i with
        | AddIoError => let '(adds, retained, r) := walk_runs fuel' send (S i) true rest in (this :: adds, chunk ++ retained, r)
        | _ => let '(adds, retained, r) := walk_runs fuel' send (S i) false rest in (this :: adds, retained, r)
        end
  | _, _ => ([], [], need_reconnect)
  end.

(** One pass of the inner loop over the jobs drained from the channel: the adds made,
    the batch kept for the next pass, the number of jobs dropped, whether to
    reconnect. *)
Definition worker_pass (send : nat -> add_outcome) (batch drained : list AddJob)
  : list (SetName * list IpAddr * bool) * list AddJob * nat * bool :=
  let jobs := dedup_jobs (sort_jobs (batch ++ drained)) in
  let '(adds, retained, reconnect) := walk_runs (length jobs) send 0 false jobs in
  (adds, take ADD_QUEUE_SIZE retained, length retained - ADD_QUEUE_SIZE, reconnect).

(** ** The client *)

Definition MAX_IPS_PER_MESSAGE : nat := 500.

(** [ips.chunks(n)] *)
Fixpoint chunks (fuel n : nat) (l : list IpAddr) : list (list IpAddr) :=
  match fuel, l with
  | S fuel', _ :: _ => take n l :: chunks fuel' n (drop n l)
  | _, _ => []
  end.

(** [NetlinkSocket::alloc_seq]: the number used and the next one. *)
Definition alloc_seq (seq : Z) : Z * Z := (seq, Z.max (wrap 32 (seq + 1)) 1).

Section client.
Context (big_endian : bool).

(** [send_chunked]: the messages sent and the next sequence number; a failed send does
    not stop the others. *)
Fixpoint send_chunked (request : list IpAddr -> NetfilterRequest) (cs : list (list IpAddr)) (seq : Z)
  : list (list Z) * Z :=
  match cs with
  | [] => ([], seq)
  | c :: cs' =>
      let '(s, seq) := alloc_seq seq in
      let '(msgs, seq) := send_chunked request cs' seq in
      (encode big_endian (request c) s :: msgs, seq)
  end.

Definition is_v4 (ip : IpAddr) : bool := match ip with V4 _ => true | V6 _ => false end.

Definition all_chunks (ips : list IpAddr) : list (list IpAddr) := chunks (length ips) MAX_IPS_PER_MESSAGE ips.

Definition add_ipset_family (name : list Z) (ips : list IpAddr) (mask : option Z) (seq : Z) : list (list Z) * Z :=
  send_chunked (fun chunk => IpsetAddBatch name chunk mask) (all_chunks ips) seq.

Definition add_ipset (name : list Z) (ips : list IpAddr) (mask : option Z) (seq : Z) : list (list Z) * Z :=
  let v4 := filter (fun ip => is_v4 ip = true) ips in
  let v6 := filter (fun ip => is_v4 ip = false) ips in
  let '(m4, seq) := if decide (v4 = []) then ([], seq) else add_ipset_family name v4 mask seq in
  let '(m6, seq) := if decide (v6 = []) then ([], seq) else add_ipset_family name v6 mask seq in
  (m4 ++ m6, seq).

Definition add_many (set : SetName) (ips : list IpAddr) (interval : bool) (seq : Z) : list (list Z) * Z :=
  if decide (ips = []) then ([], seq)
  else
    match set with
    | IpSet name mask => add_ipset name ips mask seq
    | NftSet family table set_name mask =>
        send_chunked (fun chunk => NftSetAdd family table set_name chunk mask interval) (all_chunks ips) seq
    end.

(** [query_nft_interval_flag], given the datagrams the socket delivers. *)
Definition query_nft_interval_flag (datagrams : list (list Z)) (s : Z) : outcome (result nl_error bool) :=
  let! r := recv_for_seq big_endian datagrams s in
  match r with
  | None => Ret (Ok false)
  | Some (Err _) => Ret (Err NlInvalidData)
  | Some (Ok (msg_type, data)) =>
      let! f := decode_nft_set_flags big_endian msg_type data in
      Ret (match f with Ok flags => Ok (bool_decide (Z.land flags NFT_SET_INTERVAL <> 0)%Z) | Err e => Err e end)
  end.
End client.
