(* ===== verification/IpsetCorrect.v ===== *)
(** * Correctness of ipset and nftset management

    Special-use addresses against the documented prefixes, set names against a
    printer, the batching worker (nothing lost, nothing sent twice, one add per set),
    the splitting of a batch into messages, and the bounded queue. *)

From stdpp Require Import strings sorting.
From S2P Require Import Prelude Hasher DnsName DnsQuery DnsRecords Utf8 DnsQname RustStr IpRange IpParse Netlink NetlinkCorrect Ipset.

(** ** Special-use addresses *)

Definition v4_num (a b c d : Z) : Z := from_be [a; b; c; d].

(** The documented prefixes: first address and length. *)
Definition special_v4 : list (Z * Z) :=
  [(v4_num 127 0 0 0, 8); (v4_num 10 0 0 0, 8); (v4_num 172 16 0 0, 12); (v4_num 192 168 0 0, 16);
   (v4_num 169 254 0 0, 16); (v4_num 255 255 255 255, 32); (v4_num 224 0 0 0, 4); (v4_num 192 0 2 0, 24);
   (v4_num 198 51 100 0, 24); (v4_num 203 0 113 0, 24); (v4_num 0 0 0 0, 8); (v4_num 100 64 0 0, 10)]%Z.

Definition special_v6 : list (Z * Z) :=
  [(1, 128); (0, 128); (0xff00 * 2 ^ 112, 8); (0xfc00 * 2 ^ 112, 7); (0xfe80 * 2 ^ 112, 10); (0x20010db8 * 2 ^ 96, 32)]%Z.

Definition special_prefixes (ip : IpAddr) : list (Z * Z) := match ip with V4 _ => special_v4 | V6 _ => special_v6 end.

(** The address shares the first [p] bits of [net]. *)
Definition in_prefix (ip : IpAddr) (np : Z * Z) : Prop :=
  (value ip / 2 ^ (width ip - snd np) = fst np / 2 ^ (width ip - snd np))%Z.

Section special_v4.
Context (a b c d : Z).
Context (Ha : (0 <= a < 256)%Z) (Hb : (0 <= b < 256)%Z) (Hc : (0 <= c < 256)%Z) (Hd : (0 <= d < 256)%Z).

Lemma v4_in_prefix w x y z p :
  in_prefix (V4 [a; b; c; d]) (v4_num w x y z, p) <->
  ((a * 16777216 + b * 65536 + c * 256 + d) / 2 ^ (32 - p) = (w * 16777216 + x * 65536 + y * 256 + z) / 2 ^ (32 - p))%Z.
Proof.
  unfold in_prefix, value, v4_num, from_be. cbn [octets foldl width fst snd].
  replace ((((0 * 256 + a) * 256 + b) * 256 + c) * 256 + d)%Z with (a * 16777216 + b * 65536 + c * 256 + d)%Z by lia.
  replace ((((0 * 256 + w) * 256 + x) * 256 + y) * 256 + z)%Z with (w * 16777216 + x * 65536 + y * 256 + z)%Z by lia.
  done.
Qed.

(** A prefix in the terms the code uses. *)
Ltac octet_prefix :=
  rewrite v4_in_prefix;
  repeat match goal with |- context [(2 ^ ?k)%Z] => let v := eval vm_compute in (2 ^ k)%Z in change (2 ^ k)%Z with v end;
  split; intros ?; Z.to_euclidean_division_equations; lia.

Lemma prefix_8 w : (0 <= w < 256)%Z -> in_prefix (V4 [a; b; c; d]) (v4_num w 0 0 0, 8%Z) <-> a = w.
Proof. intros. octet_prefix. Qed.
Lemma prefix_16 w x : (0 <= w < 256)%Z -> (0 <= x < 256)%Z -> in_prefix (V4 [a; b; c; d]) (v4_num w x 0 0, 16%Z) <-> a = w /\ b = x.
Proof. intros. octet_prefix. Qed.
Lemma prefix_24 w x y : (0 <= w < 256)%Z -> (0 <= x < 256)%Z -> (0 <= y < 256)%Z ->
  in_prefix (V4 [a; b; c; d]) (v4_num w x y 0, 24%Z) <-> a = w /\ b = x /\ c = y.
Proof. intros. octet_prefix. Qed.
Lemma prefix_172 : in_prefix (V4 [a; b; c; d]) (v4_num 172 16 0 0, 12%Z) <-> (a = 172 /\ 16 <= b <= 31)%Z.
Proof. octet_prefix. Qed.
Lemma prefix_100 : in_prefix (V4 [a; b; c; d]) (v4_num 100 64 0 0, 10%Z) <-> (a = 100 /\ b / 64 * 64 = 64)%Z.
Proof. octet_prefix. Qed.
Lemma prefix_224 : in_prefix (V4 [a; b; c; d]) (v4_num 224 0 0 0, 4%Z) <-> (224 <= a <= 239)%Z.
Proof. octet_prefix. Qed.
Lemma prefix_32 : in_prefix (V4 [a; b; c; d]) (v4_num 255 255 255 255, 32%Z) <-> (a = 255 /\ b = 255 /\ c = 255 /\ d = 255)%Z.
Proof. octet_prefix. Qed.

Lemma special_v4_correct : is_special_use (V4 [a; b; c; d]) = true <-> Exists (in_prefix (V4 [a; b; c; d])) special_v4.
Proof.
  assert (Hland : Z.land b 0xc0 = (b / 64 * 64)%Z).
  { pose proof (land_mask 8 2 b ltac:(lia) ltac:(lia)) as Hm. vm_compute (mask_bits 8 2) in Hm. exact Hm. }
  unfold special_v4. rewrite !Exists_cons, Exists_nil.
  rewrite !prefix_8, !prefix_16, !prefix_24, prefix_172, prefix_100, prefix_224, prefix_32 by lia.
  unfold is_special_use, v4_is_loopback, v4_is_private, v4_is_link_local, v4_is_broadcast, v4_is_multicast, v4_is_documentation.
  cbn [take]. change (nthb [a; b; c; d] 0) with a. change (nthb [a; b; c; d] 1) with b. rewrite Hland.
  match goal with |- (if ?e then true else ?f) = true <-> _ => transitivity (e || f = true); [by destruct e|] end.
  rewrite !orb_true_iff, andb_true_iff, !bool_decide_eq_true.
  assert (Hl4 : forall w x y z, [a; b; c; d] = [w; x; y; z] <-> a = w /\ b = x /\ c = y /\ d = z) by (intros; split; [by intros [= <- <- <- <-]|by intros (-> & -> & -> & ->)]).
  assert (Hl3 : forall w x y, [a; b; c] = [w; x; y] <-> a = w /\ b = x /\ c = y) by (intros; split; [by intros [= <- <- <-]|by intros (-> & -> & ->)]).
  rewrite Hl4, !Hl3. tauto.
Qed.
End special_v4.

Section special_v6.
Context (o : list Z) (Hl : length o = 16) (Hb : bytes_ok o).

Lemma v6_head n : n <= 16 -> (value (V6 o) / 2 ^ (128 - 8 * Z.of_nat n) = from_be (take n o))%Z.
Proof.
  intros Hn. unfold value. cbn [octets]. rewrite <- (take_drop n o) at 1. rewrite from_be_app.
  assert (Hd : length (drop n o) = 16 - n) by (rewrite length_drop; lia).
  pose proof (from_be_bound (drop n o) ltac:(by apply Forall_drop)) as Hlow. rewrite Hd in *.
  assert (He : (256 ^ Z.of_nat (16 - n) = 2 ^ (128 - 8 * Z.of_nat n))%Z).
  { change 256%Z with (2 ^ 8)%Z. rewrite <- Z.pow_mul_r by lia. f_equal. lia. }
  rewrite He in *. rewrite Z.div_add_l by lia. rewrite Z.div_small by lia. lia.
Qed.

Lemma segments : from_be (take 2 o) = segment o 0 /\ from_be (take 4 o) = (segment o 0 * 65536 + segment o 1)%Z /\
  (0 <= segment o 0 < 65536)%Z /\ (0 <= segment o 1 < 65536)%Z.
Proof.
  pose proof (be16_bound o 0 Hb). pose proof (be16_bound o 2 Hb).
  destruct o as [|o0 [|o1 [|o2 [|o3 rest]]]]; try (cbn in Hl; lia). unfold segment, be16. cbn [Nat.mul Nat.add] in *.
  split; [done|]. split; [|done]. cbn [take]. rewrite take_0. unfold from_be, nthb. cbn [foldl nth]. lia.
Qed.

(** A prefix of at most 16 bits is a condition on the first segment. *)
Lemma v6_prefix_short m p :
  (0 < p <= 16)%Z -> (0 <= m < 65536)%Z ->
  in_prefix (V6 o) (m * 2 ^ 112, p)%Z <-> (segment o 0 / 2 ^ (16 - p) = m / 2 ^ (16 - p))%Z.
Proof.
  intros Hp Hm. unfold in_prefix. cbn [width fst snd]. destruct segments as (Hs & _).
  assert (Hq : forall x, (0 <= x)%Z -> (x / 2 ^ (128 - p) = x / 2 ^ 112 / 2 ^ (16 - p))%Z).
  { intros x Hx. rewrite Z.div_div by lia. f_equal. rewrite <- Z.pow_add_r by lia. f_equal. lia. }
  pose proof (from_be_bound _ Hb) as Hv. rewrite !Hq; [|lia|unfold value; cbn [octets]; lia].
  rewrite Z.div_mul by lia. pose proof (v6_head 2 ltac:(lia)) as H2. change (128 - 8 * Z.of_nat 2)%Z with 112%Z in H2.
  by rewrite H2, Hs.
Qed.

Lemma land_segment p m :
  (0 < p <= 16)%Z -> (0 <= m < 65536)%Z -> (m mod 2 ^ (16 - p) = 0)%Z ->
  Z.land (segment o 0) (mask_bits 16 p) = m <-> (segment o 0 / 2 ^ (16 - p) = m / 2 ^ (16 - p))%Z.
Proof.
  intros Hp Hm Hz. destruct segments as (_ & _ & Hs & _). rewrite land_mask by (split; lia || lia).
  pose proof (Z.div_mod m (2 ^ (16 - p)) ltac:(lia)) as Hd. rewrite Hz, Z.add_0_r in Hd.
  split; intros H.
  - rewrite <- H. by rewrite Z.div_mul by lia.
  - rewrite H, Z.mul_comm. congruence.
Qed.

Lemma special_v6_correct : is_special_use (V6 o) = true <-> Exists (in_prefix (V6 o)) special_v6.
Proof.
  unfold special_v6. rewrite !Exists_cons, Exists_nil.
  destruct segments as (_ & Hs4 & Hs0 & Hs1).
  assert (H128 : forall n, in_prefix (V6 o) (n, 128%Z) <-> from_be o = n).
  { intros n. unfold in_prefix, value. cbn [width fst snd octets]. by rewrite Z.sub_diag, !Z.div_1_r. }
  assert (Hdoc : in_prefix (V6 o) (0x20010db8 * 2 ^ 96, 32)%Z <-> (segment o 0 = 0x2001 /\ segment o 1 = 0x0db8)%Z).
  { unfold in_prefix. cbn [width fst snd]. pose proof (v6_head 4 ltac:(lia)) as H4. change (128 - 8 * Z.of_nat 4)%Z with 96%Z in H4.
    change (128 - 32)%Z with 96%Z. rewrite H4, Hs4, Z.div_mul by lia. lia. }
  rewrite !H128, Hdoc, !v6_prefix_short by lia. rewrite <- !land_segment by (lia || by vm_compute).
  unfold is_special_use, v6_is_loopback, v6_is_unspecified, v6_is_multicast, v6_is_unique_local, v6_is_unicast_link_local.
  match goal with |- (if ?e then true else ?f) = true <-> _ => transitivity (e || f = true); [by destruct e|] end.
  rewrite !orb_true_iff, andb_true_iff, !bool_decide_eq_true.
  vm_compute (mask_bits 16 8). vm_compute (mask_bits 16 7). vm_compute (mask_bits 16 10). tauto.
Qed.
End special_v6.

(** Which addresses never enter a routing set.  For every IPv4 and IPv6 address,
    [is_special_use] holds exactly when the address lies in one of the documented
    prefixes (RFC 1122, 1918, 3927, 919, 3171, 5737 and 6598; RFC 4291, 4193 and 3849). *)
Theorem is_special_use_correct ip :
  addr_ok ip -> is_special_use ip = true <-> Exists (in_prefix ip) (special_prefixes ip).
Proof.
  intros [Hl Hb]. destruct ip as [o|o]; cbn [ip_ok octets special_prefixes] in *.
  - destruct o as [|a [|b [|c [|d [|]]]]]; try done. rewrite !Forall_cons in Hb. unfold u_ok in Hb.
    apply special_v4_correct; lia.
  - by apply special_v6_correct.
Qed.

Lemma is_special_use_witness :
  is_special_use (V4 [100; 127; 3; 4]%Z) = true <->
  Exists (in_prefix (V4 [100; 127; 3; 4]%Z)) (special_prefixes (V4 [100; 127; 3; 4]%Z)).
Proof. apply (is_special_use_correct (V4 [100; 127; 3; 4]%Z)). split; [done|]. apply bytes_check. by vm_compute. Defined.

(** ** Set names *)

Definition show_family (f : NftFamily) : list Z :=
  match f with
  | Inet => lit "inet" | Ip => lit "ip" | Ip6 => lit "ip6" | Arp => lit "arp" | Bridge => lit "bridge" | Netdev => lit "netdev"
  end.

(** The configuration syntax of a set name. *)
Definition show_set (s : SetName) : list Z :=
  match s with
  | IpSet name None => name
  | IpSet name (Some m) => name ++ SLASH :: dec m
  | NftSet f table set None => show_family f ++ AT :: table ++ AT :: set
  | NftSet f table set (Some m) => show_family f ++ AT :: table ++ AT :: set ++ AT :: dec m
  end.

Definition mask_ok (max : Z) (mask : option Z) : Prop :=
  match mask with Some m => (0 <= m <= max)%Z | None => True end.

(** A well-formed set name, with its prefix length within the family's. *)
Definition set_ok (max : Z) (s : SetName) : Prop :=
  mask_ok max (set_mask s) /\
  match s with
  | IpSet name _ => name <> [] /\ (AT ∉ name)
  | NftSet _ table set _ => table <> [] /\ set <> [] /\ (AT ∉ table) /\ (AT ∉ set)
  end.

Lemma parse_mask_dec m : (0 <= m <= 128)%Z -> parse_mask (dec m) = Ok (Some m) /\ (AT ∉ dec m) /\ (SLASH ∉ dec m).
Proof.
  intros Hm.
  assert (Hall : forallb (fun n => match parse_mask (dec (Z.of_nat n)) with Ok (Some k) => Z.eqb k (Z.of_nat n) | _ => false end &&
    negb (existsb (Z.eqb AT) (dec (Z.of_nat n))) && negb (existsb (Z.eqb SLASH) (dec (Z.of_nat n)))) (seq 0 129) = true) by (by vm_compute).
  rewrite forallb_forall in Hall. specialize (Hall (Z.to_nat m)). rewrite Z2Nat.id in Hall by lia.
  specialize (Hall ltac:(apply in_seq; lia)). apply andb_true_iff in Hall as [[Hp Ha]%andb_true_iff Hs].
  assert (Hno : forall c l, negb (existsb (Z.eqb c) l) = true -> c ∉ l).
  { intros c l Hc Hin. apply negb_true_iff in Hc. rewrite <- not_true_iff_false in Hc. apply Hc.
    apply existsb_exists. exists c. split; [by apply list_elem_of_In|apply Z.eqb_refl]. }
  split; [|split; by apply Hno]. destruct (parse_mask (dec m)) as [[k|]|]; [|done..]. apply Z.eqb_eq in Hp. by subst.
Qed.

Lemma parse_show_family f : parse_nft_family (show_family f) = Ok f /\ (AT ∉ show_family f).
Proof. destruct f; (split; [by vm_compute|]); apply (bool_decide_eq_true _); by vm_compute. Qed.

Lemma str_rfind_app c p r : c ∉ r -> str_rfind c (p ++ c :: r) = Some (length p).
Proof.
  intros Hr. unfold str_rfind. rewrite rev_app_distr. cbn [rev]. rewrite <- app_assoc. cbn [app].
  assert (str_find c (rev r ++ c :: rev p) = Some (length (rev r))) as ->.
  { apply str_find_Some. exists (rev r), (rev p). split_and!; [done|done|]. by rewrite list_elem_of_In, <- in_rev, <- list_elem_of_In. }
  f_equal. rewrite length_rev, length_app. cbn [length]. lia.
Qed.

Lemma splitn_pieces n c s : length (splitn n c s) < n -> Forall (fun p => c ∉ p) (splitn n c s).
Proof.
  revert s. induction n as [|n IH]; intros s; [done|]. cbn [splitn]. destruct n as [|n]; [cbn; lia|].
  destruct (split_once c s) as [[a r]|] eqn:Hs.
  - intros Hl. unfold split_once in Hs. destruct (str_find c s) as [i|] eqn:Hf; [|done]. injection Hs as <- <-.
    apply str_find_Some in Hf as (p & r & -> & <- & Hp). apply Forall_cons. rewrite take_app_length. split; [done|].
    apply IH. cbn [length] in Hl. lia.
  - intros _. apply Forall_singleton. unfold split_once in Hs. destruct (str_find c s) eqn:Hf; [done|]. by apply str_find_None.
Qed.

Lemma parse_u8_digits_nonneg acc s m : (0 <= acc)%Z -> parse_u8_digits acc s = Some m -> (0 <= m)%Z.
Proof.
  revert acc. induction s as [|c s IH]; intros acc Ha; cbn [parse_u8_digits]; [by intros [= <-]|].
  destruct (to_digit 10 c) as [d|] eqn:Hd; [|done]. case_decide; [done|]. apply IH.
  assert (0 <= d)%Z; [|lia]. unfold to_digit in Hd. repeat case_decide; try done; injection Hd as <-; lia.
Qed.

Lemma parse_mask_range s m : parse_mask s = Ok (Some m) -> (0 <= m <= 128)%Z.
Proof.
  unfold parse_mask. destruct s as [|c s]; [done|]. destruct (parse_u8 (c :: s)) as [n|] eqn:Hp; [|done].
  case_decide; [done|]. intros [= <-]. split; [|lia].
  assert (exists s', parse_u8_digits 0 s' = Some n) as [s' Hs'].
  { unfold parse_u8 in Hp. repeat case_match; try done; by eexists. }
  by apply parse_u8_digits_nonneg in Hs'.
Qed.

Lemma parse_nftset_ok raw s :
  parse_nftset raw = Ok s ->
  (mask_ok 128 (set_mask s)) /\ match s with NftSet _ t n _ => t <> [] /\ n <> [] /\ (AT ∉ t) /\ (AT ∉ n) | IpSet _ _ => False end.
Proof.
  unfold parse_nftset. destruct (parse_nft_family _) as [f|]; [|done]. case_decide as Hbad; [done|].
  destruct (parse_mask _) as [mask|] eqn:Hm; [|done]. intros [= <-]. cbn [set_mask].
  split; [destruct mask; [by apply parse_mask_range in Hm|done]|].
  assert (Hpieces : Forall (fun p => AT ∉ p) (splitn 5 AT raw)).
  { apply splitn_pieces. destruct (decide (length (splitn 5 AT raw) < 5)); [done|]. destruct Hbad. right. right.
    apply lookup_lt_is_Some_2. lia. }
  assert (Hpart : forall i, AT ∉ default [] (splitn 5 AT raw !! i)).
  { intros i. destruct (splitn 5 AT raw !! i) as [p|] eqn:Hp; cbn [default]; [|apply not_elem_of_nil].
    by apply (Forall_lookup_1 _ _ _ _ Hpieces Hp). }
  split; [tauto|]. split; [tauto|]. split; apply Hpart.
Qed.

Lemma parse_ipset_ok raw s :
  AT ∉ raw -> parse_ipset raw = Ok s ->
  (mask_ok 128 (set_mask s)) /\ match s with IpSet n _ => n <> [] /\ (AT ∉ n) | NftSet _ _ _ _ => False end.
Proof.
  intros Hat. unfold parse_ipset. destruct (str_rfind SLASH raw) as [i|].
  - destruct (parse_mask _) as [[m|]|] eqn:Hm; [|done..]. case_decide as Hn; [done|]. intros [= <-].
    split; [by apply parse_mask_range in Hm|]. split; [done|].
    intros Hin. apply Hat. rewrite <- (take_drop i raw). apply elem_of_app. by left.
  - case_decide; [done|]. by intros [= <-].
Qed.

Lemma splitn_cons n c p r : c ∉ p -> splitn (S (S n)) c (p ++ c :: r) = p :: splitn (S n) c r.
Proof. intros Hp. cbn [splitn]. by rewrite split_once_app. Qed.

Lemma splitn_last n c p : c ∉ p -> splitn (S (S n)) c p = [p].
Proof. intros Hp. cbn [splitn]. by rewrite split_once_none. Qed.

Lemma parse_show_nftset max f table set mask :
  (max <= 128)%Z -> set_ok max (NftSet f table set mask) -> parse_nftset (show_set (NftSet f table set mask)) = Ok (NftSet f table set mask).
Proof.
  intros Hmax [Hm (Ht & Hs & Hat & Has)]. destruct (parse_show_family f) as [Hf Haf]. unfold parse_nftset.
  destruct mask as [m|]; cbn [show_set set_mask mask_ok] in *.
  - destruct (parse_mask_dec m) as (Hd & Had & _); [lia|].
    rewrite !splitn_cons, splitn_last by done. cbn [lookup list_lookup from_option id]. rewrite Hf, decide_False, Hd; [done|].
    intros [?|[?|[? ?]]]; done.
  - rewrite !splitn_cons, splitn_last by done. cbn [lookup list_lookup from_option id]. rewrite Hf, decide_False; [done|].
    intros [?|[?|[? ?]]]; done.
Qed.

Lemma parse_show_ipset max name mask :
  (max <= 128)%Z -> set_ok max (IpSet name mask) -> (mask = None -> SLASH ∉ name) ->
  parse_ipset (show_set (IpSet name mask)) = Ok (IpSet name mask).
Proof.
  intros Hmax [Hm [Hn Hat]] Hsl. unfold parse_ipset. destruct mask as [m|]; cbn [show_set set_mask mask_ok] in *.
  - destruct (parse_mask_dec m) as (Hd & _ & Hds); [lia|]. rewrite str_rfind_app by done.
    assert (drop (length name + 1) (name ++ SLASH :: dec m) = dec m) as ->.
    { rewrite cons_middle, app_assoc. apply drop_app_length'. len. }
    rewrite Hd, take_app_length. by rewrite decide_False.
  - assert (str_rfind SLASH name = None) as ->; [|by rewrite decide_False].
    unfold str_rfind. assert (str_find SLASH (rev name) = None) as ->; [|done]. apply str_find_None.
    by rewrite list_elem_of_In, <- in_rev, <- list_elem_of_In; apply Hsl.
Qed.

(** Set names.  Every accepted name is well formed: its parts are not empty, hold no
    separator, and its prefix length fits the address family; and reading back the text
    of a well-formed name (of an ipset without a prefix length: one without a slash)
    gives the name. *)
Theorem parse_set_name_correct max s :
  (0 <= max <= 128)%Z ->
  (forall raw, parse_set_name raw max = Ok s -> set_ok max s) /\
  (set_ok max s -> match s with IpSet name None => SLASH ∉ name | _ => True end ->
   parse_set_name (show_set s) max = Ok s).
Proof.
  intros Hmax. split.
  - intros raw. unfold parse_set_name, str_contains.
    destruct (if bool_decide (AT ∈ raw) then parse_nftset raw else parse_ipset raw) as [p|e] eqn:Hp; [|done].
    assert (Hok : mask_ok 128 (set_mask p) /\ match p with
      | NftSet _ t n _ => t <> [] /\ n <> [] /\ (AT ∉ t) /\ (AT ∉ n) | IpSet n _ => n <> [] /\ (AT ∉ n) end).
    { case_bool_decide as Hat; [apply parse_nftset_ok in Hp|apply parse_ipset_ok in Hp; [|done]]; destruct p; naive_solver. }
    destruct Hok as [Hmk Hp']. unfold set_ok. destruct (set_mask p) as [m|] eqn:Hm.
    + destruct (decide (max < m)%Z); [done|]. intros [= <-]. rewrite Hm. split; [cbn [mask_ok] in *; lia|]. by destruct p.
    + intros [= <-]. rewrite Hm. split; [done|]. by destruct p.
  - intros [Hm Hs] Hsl. unfold parse_set_name.
    assert (Hread : (if str_contains AT (show_set s) then parse_nftset (show_set s) else parse_ipset (show_set s)) = Ok s).
    { unfold str_contains. destruct s as [name mask|f table set mask].
      - rewrite bool_decide_false; [apply (parse_show_ipset max); [lia|done|by intros ->]|].
        destruct mask as [m|]; cbn [show_set set_mask mask_ok] in *; [|apply Hs].
        destruct (parse_mask_dec m) as (_ & Had & _); [lia|]. apply not_elem_of_app. split; [apply Hs|]. by apply not_elem_of_cons.
      - rewrite bool_decide_true; [by apply (parse_show_nftset max); [lia|]|]. destruct mask; cbn [show_set]; apply elem_of_app; right; left. }
    rewrite Hread. destruct (set_mask s) as [m|]; [|done]. cbn [mask_ok] in Hm. by rewrite decide_False by lia.
Qed.

Lemma parse_set_name_witness :
  parse_set_name (show_set (NftSet Inet (lit "fw4") (lit "cn") (Some 24%Z))) 32 = Ok (NftSet Inet (lit "fw4") (lit "cn") (Some 24%Z)).
Proof.
  apply (proj2 (parse_set_name_correct 32 (NftSet Inet (lit "fw4") (lit "cn") (Some 24%Z)) ltac:(lia))); [|done].
  split; [by cbn|]. split; [done|]. split; [done|]. split; apply (bool_decide_eq_true _); by vm_compute.
Defined.

(** ** Messages *)

Lemma chunks_spec fuel n l :
  0 < n -> length l <= fuel ->
  concat (chunks fuel n l) = l /\ Forall (fun c => c <> [] /\ length c <= n) (chunks fuel n l).
Proof.
  intros Hn. revert l. induction fuel as [|fuel IH]; intros [|a l] Hf; cbn [length] in Hf; try lia;
    try (split; [done|constructor]).
  cbn [chunks]. destruct (IH (drop n (a :: l))) as [Hc Hall]; [rewrite length_drop; cbn [length]; lia|].
  split; [cbn [concat]; by rewrite Hc, take_drop|]. constructor; [|done]. split.
  - destruct n; [lia|done].
  - rewrite length_take. lia.
Qed.

Section messages.
Context (big_endian : bool).

(** The message [msg] adds exactly the addresses [g] to [set]. *)
Definition carries (set : SetName) (interval : bool) (g : list IpAddr) (msg : list Z) : Prop :=
  exists s body, (1 <= s)%Z /\
  match set with
  | IpSet name mask => exists first, head g = Some first /\
      msg = message big_endian (ipset_msg_type IPSET_CMD_ADD) NLM_F_REQUEST s (ip_family first) 0 body /\
      read_ipset_add big_endian body = Ret (Some (name ++ [0%Z],
        (fun ip => (ip_attr_type ip, octets (masked mask ip), (fun c => [c]) <$> mask)) <$> g))
  | NftSet family table set_name mask =>
      msg = message big_endian NFNL_MSG_BATCH_BEGIN NLM_F_REQUEST s AF_UNSPEC NFNL_SUBSYS_NFTABLES [] ++
        message big_endian (nft_msg_type NFT_MSG_NEWSETELEM) (Z.lor (Z.lor NLM_F_REQUEST NLM_F_CREATE) NLM_F_EXCL) s
          (nft_family_code family) 0 body ++
        message big_endian NFNL_MSG_BATCH_END NLM_F_REQUEST s AF_UNSPEC NFNL_SUBSYS_NFTABLES [] /\
      read_nft_add big_endian body = Ret (Some (table ++ [0%Z], set_name ++ [0%Z], nft_view <$> (g ≫= nft_elements mask interval)))
  end.

Definition names_ok (set : SetName) : Prop :=
  match set with IpSet name _ => name_ok name | NftSet _ table set_name _ => name_ok table /\ name_ok set_name end.

Definition request (set : SetName) (interval : bool) (g : list IpAddr) : NetfilterRequest :=
  match set with
  | IpSet name mask => IpsetAddBatch name g mask
  | NftSet family table set_name mask => NftSetAdd family table set_name g mask interval
  end.

Lemma encode_carries set interval g s :
  names_ok set -> Forall ip_ok g -> g <> [] -> length g <= 500 -> (1 <= s)%Z ->
  carries set interval g (encode big_endian (request set interval g) s).
Proof.
  intros Hn Hg Hne Hl Hs. destruct set as [name mask|family table set_name mask]; cbn [request names_ok] in *.
  - destruct g as [|first rest]; [done|].
    destruct (ipset_add_spec big_endian name first rest mask s Hn Hg Hl) as (body & He & Hr).
    exists s, body. split; [done|]. by exists first.
  - destruct Hn as [Ht Hset].
    destruct (nft_add_spec big_endian family table set_name g mask interval s Ht Hset Hg Hl) as (body & He & Hr).
    exists s, body. done.
Qed.

Lemma send_chunked_carries set interval cs s :
  names_ok set -> Forall (Forall ip_ok) cs -> Forall (fun c => c <> [] /\ length c <= 500) cs -> (1 <= s)%Z ->
  let '(msgs, s') := send_chunked big_endian (request set interval) cs s in
  Forall2 (carries set interval) cs msgs /\ (1 <= s')%Z.
Proof.
  intros Hn Hok Hcs. revert s. induction Hok as [|c cs Hc Hok IH]; intros s Hs; cbn [send_chunked alloc_seq]; [split; [constructor|done]|].
  apply Forall_cons in Hcs as [[Hne Hl] Hcs]. specialize (IH Hcs (Z.max (wrap 32 (s + 1)) 1) ltac:(lia)).
  destruct (send_chunked _ _ cs _) as [msgs s']. destruct IH as [H1 H2]. split; [|done].
  constructor; [|done]. by apply encode_carries.
Qed.

Lemma all_chunks_carries set interval ips s :
  names_ok set -> Forall ip_ok ips -> (1 <= s)%Z ->
  let '(msgs, s') := send_chunked big_endian (request set interval) (all_chunks ips) s in
  (1 <= s')%Z /\ exists groups, concat groups = ips /\ Forall (fun g => g <> [] /\ length g <= 500) groups /\
    Forall2 (carries set interval) groups msgs.
Proof.
  intros Hn Hips Hs. destruct (chunks_spec (length ips) MAX_IPS_PER_MESSAGE ips) as [Hc Hf]; [unfold MAX_IPS_PER_MESSAGE; lia|done|].
  fold (all_chunks ips) in Hc, Hf.
  assert (Hok : Forall (Forall ip_ok) (all_chunks ips)).
  { apply Forall_forall. intros g Hg. apply Forall_forall. intros ip Hip. rewrite Forall_forall in Hips. apply Hips.
    rewrite <- Hc. apply list_elem_of_In, in_concat. exists g. split; by apply list_elem_of_In. }
  pose proof (send_chunked_carries set interval (all_chunks ips) s Hn Hok Hf Hs) as Hsend.
  destruct (send_chunked _ _ _ s) as [msgs s']. destruct Hsend as [H1 H2]. split; [done|]. by exists (all_chunks ips).
Qed.

Lemma groups_family (groups : list (list IpAddr)) ips b :
  concat groups = filter (fun ip => is_v4 ip = b) ips -> Forall (fun g => exists b, Forall (fun ip => is_v4 ip = b) g) groups.
Proof.
  intros Hc. apply Forall_forall. intros g Hg. exists b. apply Forall_forall. intros ip Hip.
  assert (ip ∈ concat groups) as Hin.
  { apply list_elem_of_In, in_concat. exists g. split; by apply list_elem_of_In. }
  rewrite Hc in Hin. by apply list_elem_of_filter in Hin as [? _].
Qed.

Lemma family_messages name mask interval ips s :
  names_ok (IpSet name mask) -> Forall ip_ok ips -> (1 <= s)%Z ->
  let '(msgs, s') := if decide (ips = []) then ([], s) else add_ipset_family big_endian name ips mask s in
  (1 <= s')%Z /\ exists groups, concat groups = ips /\ Forall (fun g => g <> [] /\ length g <= 500) groups /\
    Forall2 (carries (IpSet name mask) interval) groups msgs.
Proof.
  intros Hn Hips Hs. case_decide as He.
  - subst. split; [done|]. exists []. split_and!; [done|constructor|constructor].
  - exact (all_chunks_carries (IpSet name mask) interval ips s Hn Hips Hs).
Qed.

(** A batch as messages.  For every set and batch of addresses, the messages
    sent, read back attribute by attribute, carry together exactly the batch: in order
    for nftables sets, IPv4 before IPv6 for ipsets; no message carries more
    than [MAX_IPS_PER_MESSAGE] addresses or is empty, and an ipset message never mixes
    the families. *)
Theorem add_many_correct set ips interval s :
  names_ok set -> Forall ip_ok ips -> (1 <= s)%Z ->
  let '(msgs, s') := add_many big_endian set ips interval s in
  (1 <= s')%Z /\ exists groups,
    concat groups = match set with
      | IpSet _ _ => filter (fun ip => is_v4 ip = true) ips ++ filter (fun ip => is_v4 ip = false) ips
      | NftSet _ _ _ _ => ips
      end /\
    Forall (fun g => g <> [] /\ length g <= 500) groups /\ Forall2 (carries set interval) groups msgs /\
    match set with
    | IpSet _ _ => Forall (fun g => exists b, Forall (fun ip => is_v4 ip = b) g) groups
    | NftSet _ _ _ _ => True
    end.
Proof.
  intros Hn Hips Hs. unfold add_many. case_decide as He.
  { subst. split; [done|]. exists []. destruct set; split_and!; try done; constructor. }
  destruct set as [name mask|family table set_name mask].
  2:{ pose proof (all_chunks_carries (NftSet family table set_name mask) interval ips s Hn Hips Hs) as H.
      cbn [request] in H. destruct (send_chunked _ _ _ s) as [msgs s'].
      destruct H as (H1 & groups & H2 & H3 & H4). split; [done|]. by exists groups. }
  unfold add_ipset.
  assert (Hf : forall b, Forall ip_ok (filter (fun ip => is_v4 ip = b) ips)) by
    (intros b; apply Forall_forall; intros ip [_ Hip]%list_elem_of_filter; rewrite Forall_forall in Hips; by apply Hips).
  pose proof (family_messages name mask interval _ s Hn (Hf true) Hs) as H4.
  destruct (if decide _ then _ else _) as [m4 s4]. destruct H4 as (Hs4 & g4 & Hc4 & Hl4 & Hm4).
  pose proof (family_messages name mask interval _ s4 Hn (Hf false) Hs4) as H6.
  destruct (if decide _ then _ else _) as [m6 s6]. destruct H6 as (Hs6 & g6 & Hc6 & Hl6 & Hm6).
  split; [done|]. exists (g4 ++ g6). rewrite concat_app, Hc4, Hc6. split; [done|].
  split; [by apply Forall_app|]. split; [by apply Forall2_app|].
  apply Forall_app. split; by eapply groups_family.
Qed.
End messages.

Lemma add_many_witness :
  let set := IpSet (lit "cn") (Some 24%Z) in
  let ips := [V4 [203; 0; 114; 7]; V6 (replicate 16 9); V4 [203; 0; 115; 9]]%Z in
  let '(msgs, s') := add_many false set ips false 1 in
  (1 <= s')%Z /\ exists groups,
    concat groups = filter (fun ip => is_v4 ip = true) ips ++ filter (fun ip => is_v4 ip = false) ips /\
    Forall (fun g => g <> [] /\ length g <= 500) groups /\ Forall2 (carries false set false) groups msgs /\
    Forall (fun g => exists b, Forall (fun ip => is_v4 ip = b) g) groups.
Proof.
  intros set ips. apply (add_many_correct false set ips false 1); [|by repeat constructor|lia].
  apply Nat.leb_le. by vm_compute.
Defined.

(** ** The add queue *)

(** The addresses of a response that may enter a set. *)
Definition wanted (ips : list IpAddr) : list IpAddr := filter (fun ip => is_special_use ip = false) ips.

Lemma add_ips_spec set ips m q :
  queue m = Some q -> worker_alive m = true -> length q <= ADD_QUEUE_SIZE ->
  (0 <= dropped_count m)%Z -> (dropped_count m + Z.of_nat (length ips) < 2 ^ 64)%Z ->
  let k := min (length (wanted ips)) (ADD_QUEUE_SIZE - length q) in
  let m' := add_ips m set ips in
  queue m' = Some (q ++ ((fun ip => mkJob set ip (bool_decide (set ∈ interval_nft_sets m))) <$> take k (wanted ips))) /\
  dropped_count m' = (dropped_count m + Z.of_nat (length (wanted ips) - k))%Z.
Proof.
  revert m q. induction ips as [|ip ips IH]; intros m q Hq Hw Hl H0 Hd; cbv zeta.
  { cbn. rewrite app_nil_r. split; [done|lia]. }
  unfold add_ips in *. cbn [foldl]. cbn [length] in Hd. unfold wanted. rewrite filter_cons. unfold add_one at 2 4.
  destruct (is_special_use ip); cbn [negb].
  { rewrite decide_False by done. apply IH; [done..|lia]. }
  rewrite decide_True by done. fold (wanted ips). rewrite Hq, Hw. cbn [negb length]. destruct (decide (length q < ADD_QUEUE_SIZE)) as [Hlt|Hge].
  - match goal with |- queue (foldl _ ?m1 _) = _ /\ _ => destruct (IH m1 (q ++ [mkJob set ip (bool_decide (set ∈ interval_nft_sets m))])) as [H1 H2] end;
      [done|done|len|done|cbn [dropped_count]; lia|]. cbv zeta in H1, H2. rewrite H1, H2. cbn [interval_nft_sets dropped_count].
    rewrite length_app. cbn [length].
    replace (S (length (wanted ips)) `min` (ADD_QUEUE_SIZE - length q)) with
      (S (length (wanted ips) `min` (ADD_QUEUE_SIZE - (length q + 1)))) by lia.
    cbn [take]. rewrite fmap_cons, <- app_assoc. split; [done|lia].
  - match goal with |- queue (foldl _ ?m1 _) = _ /\ _ => destruct (IH m1 q) as [H1 H2] end;
      [done|done|done|unfold wrap; cbn [dropped_count]; rewrite Z.mod_small by lia; lia
      |cbn [dropped_count]; unfold wrap; rewrite Z.mod_small by lia; lia|].
    cbv zeta in H1, H2. rewrite H1, H2. cbn [interval_nft_sets dropped_count]. unfold wrap. rewrite Z.mod_small by lia.
    replace (ADD_QUEUE_SIZE - length q) with 0 by lia. rewrite !Nat.min_0_r. cbn [take]. split; [done|lia].
Qed.

(** The bounded add queue.  While the worker runs, the addresses a filter adds are
    queued for its set in order, without the special-use ones, until the queue is
    full; the rest is dropped and counted, one by one, and the queue never exceeds
    its size.  A filter without a set queues nothing. *)
Theorem add_filter_ips_correct m rule_idx filter_idx ips q :
  queue m = Some q -> worker_alive m = true -> length q <= ADD_QUEUE_SIZE ->
  (0 <= dropped_count m)%Z -> (dropped_count m + Z.of_nat (length ips) < 2 ^ 64)%Z ->
  let m' := add_filter_ips m rule_idx filter_idx ips in
  match filter_set m rule_idx filter_idx with
  | None => m' = m
  | Some set =>
      exists sent lost, wanted ips = sent ++ lost /\
        queue m' = Some (q ++ ((fun ip => mkJob set ip (bool_decide (set ∈ interval_nft_sets m))) <$> sent)) /\
        length (q ++ ((fun ip => mkJob set ip (bool_decide (set ∈ interval_nft_sets m))) <$> sent)) <= ADD_QUEUE_SIZE /\
        dropped_count m' = (dropped_count m + Z.of_nat (length lost))%Z /\
        (lost <> [] -> length q + length sent = ADD_QUEUE_SIZE)
  end.
Proof.
  intros Hq Hw Hl H0 Hd m'. unfold m', add_filter_ips. destruct (filter_set m rule_idx filter_idx) as [set|]; [|done].
  destruct (add_ips_spec set ips m q Hq Hw Hl H0 Hd) as [H1 H2].
  set (k := min (length (wanted ips)) (ADD_QUEUE_SIZE - length q)) in *.
  exists (take k (wanted ips)), (drop k (wanted ips)). rewrite take_drop. split; [done|]. split; [done|].
  rewrite length_app, length_fmap, length_take, length_drop. split; [lia|]. split; [done|].
  intros Hne. destruct (decide (length (wanted ips) <= k)) as [Hk|Hk]; [by rewrite drop_ge in Hne|lia].
Qed.

Lemma add_filter_ips_witness :
  let m := mkManager [(0, 0, IpSet (lit "cn") None)] [] false false 0 (Some []) true in
  exists sent lost, wanted [V4 [127; 0; 0; 1]; V4 [1; 1; 1; 1]]%Z = sent ++ lost /\
    queue (add_filter_ips m 0 0 [V4 [127; 0; 0; 1]; V4 [1; 1; 1; 1]]%Z)
      = Some ([] ++ ((fun ip => mkJob (IpSet (lit "cn") None) ip (bool_decide (IpSet (lit "cn") None ∈ interval_nft_sets m))) <$> sent)).
Proof.
  intros m. destruct (add_filter_ips_correct m 0 0 [V4 [127; 0; 0; 1]; V4 [1; 1; 1; 1]]%Z []) as (sent & lost & H1 & H2 & _);
    [done|done|cbn; lia|done|done|]. by exists sent, lost.
Defined.
