(* ===== verification/IpsetWorker.v ===== *)
(** * The batching worker of the ipset module

    The derived orders are total, sorting and deduplication keep exactly the distinct
    jobs, and one pass of the worker sends each set once and loses nothing it does not
    count. *)

From stdpp Require Import strings sorting.
From S2P Require Import Prelude Order Hasher DnsName DnsQuery DnsRecords Utf8 DnsQname RustStr IpRange IpParse Netlink Ipset.

(** ** Jobs *)

Definition key (j : AddJob) : SetName * IpAddr := (job_set j, job_ip j).

Lemma mask_fields_inj m m' : mask_fields m = mask_fields m' -> m = m'.
Proof. destruct m, m'; cbn; try done. by intros [= ->]. Qed.

Lemma set_fields_inj s s' : set_fields s = set_fields s' -> s = s'.
Proof.
  destruct s as [n m|f t n m], s' as [n' m'|f' t' n' m']; cbn [set_fields]; try done.
  - intros [= -> Hm]. by apply mask_fields_inj in Hm as ->.
  - intros [= Hf -> -> Hm]. apply mask_fields_inj in Hm as ->. by destruct f, f'.
Qed.

Lemma ip_fields_inj i i' : ip_fields i = ip_fields i' -> i = i'.
Proof. destruct i, i'; cbn; try done; by intros [= ->]. Qed.

#[export] Instance set_cmp_order : CmpOrder set_cmp.
Proof.
  split; unfold set_cmp.
  - intros a b. rewrite cmp_eq. split; [apply set_fields_inj|by intros ->].
  - intros a b. apply cmp_sym.
  - intros a b c. apply cmp_lt_trans.
Qed.

#[export] Instance ip_cmp_order : CmpOrder ip_cmp.
Proof.
  split; unfold ip_cmp.
  - intros a b. rewrite cmp_eq. split; [apply ip_fields_inj|by intros ->].
  - intros a b. apply cmp_sym.
  - intros a b c. apply cmp_lt_trans.
Qed.

(** The order of jobs is that of their keys. *)
Definition key_cmp (a b : SetName * IpAddr) : comparison :=
  match set_cmp (fst a) (fst b) with Eq => ip_cmp (snd a) (snd b) | c => c end.

#[export] Instance key_cmp_order : CmpOrder key_cmp.
Proof.
  split; unfold key_cmp.
  - intros [s i] [s' i']. cbn [fst snd]. destruct (set_cmp s s') eqn:Hs.
    + apply cmp_eq in Hs as ->. rewrite cmp_eq. split; [by intros ->|by intros [= ->]].
    + split; [done|]. intros [= -> ->]. by rewrite (cmp_refl set_cmp) in Hs.
    + split; [done|]. intros [= -> ->]. by rewrite (cmp_refl set_cmp) in Hs.
  - intros a b. rewrite (cmp_sym (fst a) (fst b)). destruct (set_cmp (fst a) (fst b)); cbn [CompOpp]; [apply cmp_sym|done..].
  - intros [s i] [s' i'] [s'' i'']. cbn [fst snd]. destruct (set_cmp s s') eqn:Hs; [apply cmp_eq in Hs as ->| |done].
    + destruct (set_cmp s' s'') eqn:Hs'; [apply cmp_lt_trans|done|done].
    + intros _. destruct (set_cmp s' s'') eqn:Hs'; [apply cmp_eq in Hs' as ->; by rewrite Hs| |done].
      by rewrite (cmp_lt_trans s s' s'' Hs Hs').
Qed.

Definition job_le (a b : AddJob) : Prop := key_cmp (key a) (key b) <> Gt.
Definition job_lt (a b : AddJob) : Prop := key_cmp (key a) (key b) = Lt.

Lemma insert_job_perm a l : insert_job a l ≡ₚ a :: l.
Proof.
  induction l as [|b l IH]; [done|]. cbn [insert_job]. destruct (job_cmp a b); [done|done|].
  rewrite IH. apply Permutation_swap.
Qed.

Lemma insert_job_sorted a l : StronglySorted job_le l -> StronglySorted job_le (insert_job a l).
Proof.
  induction l as [|b l IH]; intros Hs; cbn [insert_job]; [by repeat constructor|].
  apply StronglySorted_inv in Hs as [Hs Hb].
  change (job_cmp a b) with (key_cmp (key a) (key b)). destruct (key_cmp (key a) (key b)) eqn:Hc.
  1,2: assert (Hab : job_le a b) by (unfold job_le; by rewrite Hc); constructor; [by constructor|]; constructor; [done|];
    eapply Forall_impl; [exact Hb|]; intros x Hx; by eapply (cmp_le_trans key_cmp).
  constructor; [by apply IH|]. rewrite insert_job_perm. constructor; [|done].
  unfold job_le. by rewrite (cmp_sym (key a) (key b)), Hc.
Qed.

Lemma sort_jobs_spec l : StronglySorted job_le (sort_jobs l) /\ sort_jobs l ≡ₚ l.
Proof.
  induction l as [|a l [Hs Hp]]; cbn [sort_jobs foldr]; [split; [constructor|done]|]. fold (sort_jobs l).
  split; [by apply insert_job_sorted|]. by rewrite insert_job_perm, Hp.
Qed.

Lemma dedup_after_spec a l :
  StronglySorted job_le (a :: l) ->
  StronglySorted job_lt (a :: dedup_after a l) /\
  forall k, k ∈ key <$> a :: dedup_after a l <-> k ∈ key <$> a :: l.
Proof.
  revert a. induction l as [|b l IH]; intros a Hs; cbn [dedup_after]; [split; [by repeat constructor|done]|].
  apply StronglySorted_inv in Hs as [Hs Ha]. pose proof (StronglySorted_inv Hs) as [Hsl Hb].
  apply Forall_cons in Ha as [Hab Hal]. case_decide as He.
  - assert (Hk : key b = key a) by (unfold key; f_equal; tauto).
    destruct (IH a) as [H1 H2]; [by constructor|]. split; [done|]. intros k. rewrite H2, !fmap_cons, !elem_of_cons, Hk. tauto.
  - assert (Hlt : job_lt a b).
    { unfold job_lt, job_le in *. destruct (key_cmp (key a) (key b)) eqn:Hc; [|done|done]. apply cmp_eq in Hc.
      destruct He. unfold key in Hc. by injection Hc as -> ->. }
    destruct (IH b Hs) as [H1 H2]. split.
    + constructor; [done|]. pose proof (StronglySorted_inv H1) as [_ Hf]. constructor; [done|].
      eapply Forall_impl; [exact Hf|]. intros x Hx. by eapply (cmp_lt_trans (cmp := key_cmp)).
    + intros k. rewrite fmap_cons, (fmap_cons _ a (b :: l)), !elem_of_cons, H2. done.
Qed.

Lemma dedup_jobs_spec l :
  StronglySorted job_le l ->
  StronglySorted job_lt (dedup_jobs l) /\ forall k, k ∈ key <$> dedup_jobs l <-> k ∈ key <$> l.
Proof. destruct l as [|a l]; cbn [dedup_jobs]; [split; [constructor|done]|]. apply dedup_after_spec. Qed.

Lemma sorted_keys_nodup l : StronglySorted job_lt l -> NoDup (key <$> l).
Proof.
  induction 1 as [|a l Hs IH Ha]; [constructor|]. rewrite fmap_cons. constructor; [|done].
  rewrite list_elem_of_fmap. intros (b & Hk & Hb). rewrite Forall_forall in Ha. apply Ha in Hb.
  unfold job_lt in Hb. rewrite <- Hk in Hb. by rewrite (cmp_refl key_cmp) in Hb.
Qed.

(** ** Runs *)

Lemma take_run_spec set l :
  let '(run, rest) := take_run set l in
  l = run ++ rest /\ Forall (fun j => job_set j = set) run /\
  match rest with j :: _ => job_set j <> set | [] => True end.
Proof.
  induction l as [|a l IH]; cbn [take_run]; [done|]. case_decide as Ha; [|done].
  destruct (take_run set l) as [run rest]. destruct IH as (-> & Hr & Hh). split; [done|]. split; [by constructor|done].
Qed.

Lemma job_lt_set a b : job_lt a b -> set_cmp (job_set a) (job_set b) <> Gt.
Proof. unfold job_lt, key_cmp. cbn [key fst]. by destruct (set_cmp (job_set a) (job_set b)). Qed.

(** Behind the run of a set in a sorted list the set does not occur again. *)
Lemma take_run_sorted a l run rest :
  StronglySorted job_lt (a :: l) -> take_run (job_set a) l = (run, rest) ->
  StronglySorted job_lt rest /\ Forall (fun j => job_set j <> job_set a) rest.
Proof.
  intros Hs Ht. pose proof (take_run_spec (job_set a) l) as Hspec. rewrite Ht in Hspec. destruct Hspec as (-> & _ & Hh).
  apply StronglySorted_inv in Hs as [Hs Ha]. apply StronglySorted_app in Hs as (_ & _ & Hrest).
  apply Forall_app in Ha as [_ Ha]. split; [done|]. destruct rest as [|h rest]; [done|].
  apply StronglySorted_inv in Hrest as [_ Hrest]. apply Forall_cons in Ha as [Hah _].
  assert (Hlt : set_cmp (job_set a) (job_set h) = Lt).
  { apply job_lt_set in Hah. destruct (set_cmp (job_set a) (job_set h)) eqn:Hc; [by apply cmp_eq in Hc|done|done]. }
  constructor; [done|]. eapply Forall_impl; [exact Hrest|]. intros x Hx%job_lt_set He. rewrite He in Hx.
  rewrite (cmp_sym (job_set a) (job_set h)), Hlt in Hx. by apply Hx.
Qed.

(** The (set, address) pairs of the adds made. *)
Definition added (adds : list (SetName * list IpAddr * bool)) : list (SetName * IpAddr) :=
  adds ≫= fun '(set, ips, _) => pair set <$> ips.

Lemma added_run a run :
  Forall (fun j => job_set j = job_set a) run ->
  pair (job_set a) <$> (job_ip <$> a :: run) = key <$> a :: run.
Proof.
  intros Hr. rewrite !fmap_cons. f_equal. induction Hr as [|j run Hj _ IH]; [done|]. rewrite !fmap_cons, IH. unfold key at 2. by rewrite Hj.
Qed.

(** What a walk over sorted jobs does. *)
Record walk_ok (nr : bool) (jobs : list AddJob) (adds : list (SetName * list IpAddr * bool)) (retained : list AddJob) (r : bool) : Prop := mkWalk {
  (** the jobs before the retained ones were all added, in order *)
  wo_split : exists pre, jobs = pre ++ retained /\ key <$> pre `prefix_of` added adds /\ added adds `prefix_of` key <$> jobs;
  wo_sets : NoDup ((fun a => fst (fst a)) <$> adds);
  wo_in : Forall (fun a => exists j, j ∈ jobs /\ job_set j = fst (fst a)) adds;
  wo_reconnect : r = false -> retained = [] /\ nr = false;
  wo_started : nr = true -> adds = [] /\ retained = jobs
}.

Lemma walk_skip fuel send i jobs :
  length jobs <= fuel -> walk_runs fuel send i true jobs = ([], jobs, true).
Proof.
  revert jobs. induction fuel as [|fuel IH]; intros [|a jobs] Hf; cbn [length] in Hf; try lia; [done..|].
  cbn [walk_runs]. pose proof (take_run_spec (job_set a) jobs) as Hspec.
  destruct (take_run (job_set a) jobs) as [run rest]. destruct Hspec as (-> & _).
  rewrite IH; [done|]. rewrite length_app in Hf. lia.
Qed.

Lemma walk_runs_spec fuel send i jobs :
  length jobs <= fuel -> StronglySorted job_lt jobs ->
  let '(adds, retained, r) := walk_runs fuel send i false jobs in walk_ok false jobs adds retained r.
Proof.
  revert i jobs. induction fuel as [|fuel IH]; intros i [|a jobs] Hf Hs; cbn [length] in Hf; try lia;
    try (cbn [walk_runs]; constructor; [by exists []|constructor|constructor|done|done]).
  cbn [walk_runs]. destruct (take_run (job_set a) jobs) as [run rest] eqn:Ht.
  pose proof (take_run_spec (job_set a) jobs) as Hspec. rewrite Ht in Hspec. destruct Hspec as (Hj & Hrun & _).
  destruct (take_run_sorted a jobs run rest Hs Ht) as [Hrest Hne].
  assert (Hlr : length rest <= fuel) by (rewrite Hj, length_app in Hf; lia).
  assert (Hadd : forall adds, added ((job_set a, job_ip <$> a :: run, job_interval a) :: adds) = (key <$> a :: run) ++ added adds).
  { intros adds. unfold added. rewrite bind_cons. by rewrite added_run. }
  assert (Hjobs : key <$> a :: jobs = (key <$> a :: run) ++ (key <$> rest)) by (by rewrite Hj, <- fmap_app).
  assert (Hok : forall adds retained r, walk_ok false rest adds retained r ->
    walk_ok false (a :: jobs) ((job_set a, job_ip <$> a :: run, job_interval a) :: adds) retained r).
  { intros adds retained r [(pre & Hpre & Hp1 & Hp2) Hnd Hin Hre Hst]. constructor.
    - exists (a :: run ++ pre). split; [rewrite Hj, Hpre; cbn; by rewrite <- app_assoc|]. rewrite Hadd, Hjobs.
      change (key <$> a :: run ++ pre) with (key <$> (a :: run) ++ pre). rewrite fmap_app. split; by apply prefix_app.
    - rewrite fmap_cons. constructor; [|done]. cbn [fst]. rewrite list_elem_of_fmap. intros (x & Hx & Hxin).
      rewrite Forall_forall in Hin. destruct (Hin x Hxin) as (j & Hjin & Hjs). rewrite Forall_forall in Hne.
      apply (Hne j Hjin). congruence.
    - constructor; [exists a; split; [left|done]|]. eapply Forall_impl; [exact Hin|]. intros x (j & Hjin & Hjs).
      exists j. split; [|done]. rewrite Hj. right. apply elem_of_app. by right.
    - done.
    - done. }
  destruct (send i) eqn:Hsend.
  - specialize (IH (S i) rest Hlr Hrest). destruct (walk_runs fuel send (S i) false rest) as [[adds retained] r]. by apply Hok.
  - rewrite walk_skip by done. constructor.
    + exists []. split; [cbn [app]; by rewrite Hj|]. rewrite Hadd, Hjobs. cbn [added mbind list_bind]. rewrite app_nil_r.
      split; [apply prefix_nil|by exists (key <$> rest)].
    + rewrite fmap_cons. apply NoDup_singleton.
    + constructor; [exists a; split; [left|done]|constructor].
    + done.
    + done.
  - specialize (IH (S i) rest Hlr Hrest). destruct (walk_runs fuel send (S i) false rest) as [[adds retained] r]. by apply Hok.
Qed.

