(* ===== verification/Startup.v ===== *)
(** * Starting up

    [cache_fingerprint] of [src/config/fingerprint.rs] and [AppState::new] of
    [src/server.rs]: the persisted caches are loaded under the configuration's
    fingerprint, the snapshot is built, and the kernel sets are filled again from the
    cached answers. *)

From stdpp Require Import gmap strings.
From S2P Require Import Prelude Order Hasher DnsName DnsQuery Utf8 DnsQname DnsRecords DnsEdns Ecs DnsMessage DnsBuilder Persist CacheMap Cache CacheKey CacheCorrect CachePersist VerdictCache IpRange RustStr Domain IpParse RankBitmap Mrs Ruleset RouteIndex RouteCorrect Router Resolver ResolverCorrect Upstream UpstreamUrl ConfigServers ConfigParse Config ConfigCorrect ServerBuild ServerBuildCorrect Netlink Ipset.

(** ** The fingerprint *)

(** What [write_sep] absorbs: not a byte. *)
Definition SEP : Z := 0x00FFFF00.

Lemma write_sep_symbol h : Fnv1a.write_sep h = Fnv1a.write h [SEP].
Proof. reflexivity. Qed.

Section fingerprint.
(** The derived [Debug] texts, and size and modification time (in nanoseconds, when
    known) of a file. *)
Variables (debug_spec : ServerSpec -> list Z) (debug_matcher : list RuleMatcher -> list Z).
Variable metadata : list Z -> option (option Z * Z).

Definition feed_server (s : list Z * ServerSpec) : list Z := fst s ++ [SEP] ++ debug_spec (snd s) ++ [SEP].

(** One side of an address matcher, in sorted order. *)
Definition feed_tags (tags : list (list Z)) : list Z := concat ((fun t => t ++ [SEP]) <$> sort_names tags).

Definition feed_action (a : RuleFilterActionSpec) : list Z :=
  match a with ActAccept => lit "accept" | ActDrop => lit "drop" | ActForward n => lit "forward" ++ n end.

Definition feed_filter (f : RuleFilterSpec) : list Z :=
  feed_tags (ai_include (fl_answer_ip f)) ++ [SEP] ++ feed_tags (ai_exclude (fl_answer_ip f)) ++ [SEP] ++
  concat (to_le 2 <$> fl_response_type f) ++ [SEP] ++ fl_response_rcode f ++ [SEP] ++ concat (to_le 2 <$> fl_response_qclass f) ++ [SEP] ++
  feed_action (fl_action f) ++ [SEP].

Definition feed_policy (p : option RuleCachePolicy) : list Z :=
  match p with
  | Some p => [if rule_skip p then 1%Z else 0%Z] ++ to_le 4 (default 0%Z (rule_min_ttl p)) ++ to_le 4 (default 0%Z (rule_max_ttl p))
  | None => []
  end.

Definition feed_rule (r : RuleSpec) : list Z :=
  ru_server r ++ [SEP] ++ debug_matcher (ru_matcher r) ++ [SEP] ++ concat (feed_filter <$> ru_filters r) ++ [SEP] ++ feed_policy (ru_cache_policy r) ++ [SEP].

Definition feed_fallback (t : FallbackTarget) : list Z :=
  match t with
  | LastRule => lit "last-rule"
  | ToServer n => lit "server" ++ n
  | Dual primary secondary m => lit "none" ++ primary ++ secondary ++ feed_tags (ai_include m) ++ [SEP] ++ feed_tags (ai_exclude m)
  end.

Definition feed_ruleset (s : RuleSetSpec) : list Z :=
  spec_tag s ++ [match spec_format s with FormatText => 0 | FormatMrs => 1 end; match spec_behavior s with BehaviorDomain => 0 | BehaviorIpCidr => 1 end]%Z ++
  spec_path s ++
  match metadata (spec_path s) with
  | Some (mtime, len) => to_le 8 (wrap 64 (default 0%Z mtime)) ++ to_le 8 len
  | None => []
  end ++ [SEP].

(** Everything written to the hash, in order. *)
Definition feed_front (c : Config) : list Z :=
  concat (feed_server <$> cf_servers c) ++ [SEP] ++ concat (feed_rule <$> cf_rules c) ++ feed_fallback (fb_target (cf_fallback c)) ++ [SEP].

Definition feed_back (c : Config) : list Z :=
  [SEP] ++ to_le 4 (cf_cache_min_ttl c) ++ to_le 4 (cf_cache_max_ttl c) ++ [SEP] ++ concat (feed_ruleset <$> cf_ruleset_specs c).

Definition fingerprint_feed (c : Config) : list Z :=
  feed_front c ++ (if fb_noip_as_primary_ip (cf_fallback c) then 1 else 0)%Z :: feed_back c.

Definition cache_fingerprint (c : Config) : Z := Fnv1a.finish (Fnv1a.write Fnv1a.new (fingerprint_feed c)).
End fingerprint.

(** ** The state at start *)

Section new.
Context {Regex : Type} `{!RegexEngine Regex}.
Context {CS : Type} `{!CacheMap CS Z Entry} {VS : Type} `{!CacheMap VS (list Z) VerdictEntry}.
Context (pool_new : list Z -> list UpstreamEndpoint -> option nat) (zstd : list Z -> option (list Z)) (watch_path : list Z -> list Z).
Context (fingerprint : Config -> Z) (has_interval : SetName -> bool).

(** The closure given to [for_each_rule_entry]: the addresses of a cached answer go to the
    filter that would have accepted it. *)
Definition restore_entry (hot : HotState (Regex := Regex)) (filter_ips : gmap (nat * nat) (list IpAddr)) (entry : Z * list Z * nat)
    : outcome (gmap (nat * nat) (list IpAddr)) :=
  let '(rule_id, packet, question_end) := entry in
  match hs_rules hot !! Z.to_nat rule_id with
  | None => Ret filter_ips
  | Some rule =>
      let! m := first_filter 0 (r_filters rule) (hs_ruleset hot) packet question_end in
      match m with
      | Some (filter_idx, f) =>
          match rf_action f with
          | Accept =>
              let! ips := answer_ips packet question_end in
              Ret (if decide (ips = []) then filter_ips
                   else <[(Z.to_nat rule_id, filter_idx) := default [] (filter_ips !! (Z.to_nat rule_id, filter_idx)) ++ ips]> filter_ips)
          | _ => Ret filter_ips
          end
      | None => Ret filter_ips
      end
  end.

Fixpoint restore_sets (hot : HotState (Regex := Regex)) (entries : list (Z * list Z * nat)) (filter_ips : gmap (nat * nat) (list IpAddr))
    : outcome (gmap (nat * nat) (list IpAddr)) :=
  match entries with
  | [] => Ret filter_ips
  | e :: entries => let! filter_ips := restore_entry hot filter_ips e in restore_sets hot entries filter_ips
  end.

Inductive start_error := SetsRefused (e : set_error) | StartRefused (e : build_error).

(** The persisted DNS cache, when there is one; a file that does not load leaves what was
    read before the error. *)
Definition start_cache (fs : list Z -> option (list Z)) (c : Config) (now_unix now_instant : Z) : outcome (DnsCache CS) :=
  let cache := cache_new (mkCacheConfig (cf_cache_size c) (cf_cache_min_ttl c) (cf_cache_max_ttl c)) in
  match cf_cache_persist_path c with
  | None => Ret cache
  | Some path =>
      match fs path with
      | None => Ret cache
      | Some file => let! (cache, _) := load_from_file cache file (fingerprint c) now_unix now_instant in Ret cache
      end
  end.

Definition start_verdicts (fs : list Z -> option (list Z)) (c : Config) (now_unix : Z) : VerdictCache VS :=
  let verdicts := verdict_new (cf_verdict_cache c) in
  match cf_cache_persist_path c with
  | None => verdicts
  | Some path =>
      match fs (persist_path_for path) with
      | None => verdicts
      | Some file => fst (verdict_load verdicts file (fingerprint c) now_unix)
      end
  end.

(** [AppState::new], with the kernel-set manager next to the state. *)
Definition app_new (fs : list Z -> option (list Z)) (c : Config) (now_unix now_instant now : Z)
    : outcome (result start_error (AppState Regex CS VS * option IpSetManager)) :=
  let! cache := start_cache fs c now_unix now_instant in
  let* ipset := Ret (match cf_ipset c with
                     | None => Ok None
                     | Some rules => match manager_new rules has_interval with Ok m => Ok (Some m) | Err e => Err (SetsRefused e) end
                     end) in
  let verdicts := start_verdicts fs c now_unix in
  let! r := build_hot_state pool_new zstd watch_path fs c cache 0 in
  match r with
  | Err e => Ret (Err (StartRefused e))
  | Ok sn =>
      let! ipset := match ipset with
                    | None => Ret None
                    | Some m =>
                        let! filter_ips := restore_sets (sn_hot sn) (for_each_rule_entry cache now) ∅ in
                        Ret (Some (foldl (fun m p => add_filter_ips m (fst (fst p)) (snd (fst p)) (snd p)) m (map_to_list filter_ips)))
                    end in
      Ret (Ok (mkApp sn cache verdicts reload_stats_new, ipset))
  end.
End new.
