(* ===== verification/StartupCorrect.v ===== *)
(** * Correctness of starting up

    What the fingerprint distinguishes, and that a server starts in a state the other
    theorems are about, with the kernel sets restored from exactly the cached answers a
    live query would have added. *)

From stdpp Require Import gmap strings sorting.
From S2P Require Import Prelude Order Hasher DnsName DnsQuery Utf8 DnsQname DnsRecords DnsEdns Ecs DnsMessage DnsBuilder Persist CacheMap Cache CacheKey CacheCorrect CachePersist VerdictCache IpRange RustStr Domain IpParse RankBitmap Mrs Ruleset RouteIndex RouteCorrect Router Resolver ResolverCorrect Upstream UpstreamUrl ConfigServers ConfigServersCorrect ConfigParse Config ConfigCorrect ServerBuild ServerBuildCorrect ServerCorrect Netlink Ipset Startup.

(** ** The fingerprint *)

Lemma sep_split (a b x y : list Z) : SEP ∉ a -> SEP ∉ b -> a ++ SEP :: x = b ++ SEP :: y -> a = b /\ x = y.
Proof.
  revert b. induction a as [|c a IH]; intros [|d b] Ha Hb H; cbn in H.
  - by injection H.
  - injection H as <- _. by destruct Hb; left.
  - injection H as -> _. by destruct Ha; left.
  - injection H as <- H. apply not_elem_of_cons in Ha as [_ Ha], Hb as [_ Hb]. destruct (IH b Ha Hb H) as [-> ->]. done.
Qed.

Lemma bytes_no_sep l : bytes_ok l -> SEP ∉ l.
Proof. intros Hl Hin. rewrite Forall_forall in Hl. specialize (Hl _ Hin). unfold is_byte, u_ok, SEP in Hl. lia. Qed.

Section fingerprint.
Variables (debug_spec : ServerSpec -> list Z) (debug_matcher : list RuleMatcher -> list Z).
Variable metadata : list Z -> option (option Z * Z).
Hypothesis debug_bytes : forall s, bytes_ok (debug_spec s).

(** Names as the parser leaves them. *)
Definition names_ok (l : list (list Z * ServerSpec)) : Prop := Forall (fun s => fst s <> [] /\ bytes_ok (fst s)) l.

Lemma feed_servers_cons n s l t :
  concat (feed_server debug_spec <$> (n, s) :: l) ++ t = n ++ SEP :: (debug_spec s ++ SEP :: (concat (feed_server debug_spec <$> l) ++ t)).
Proof. rewrite fmap_cons. cbn [concat]. unfold feed_server at 1. cbn [fst snd]. rewrite <- !app_assoc. done. Qed.

Lemma feed_servers_inj l1 l2 r1 r2 :
  (forall s1 s2, debug_spec s1 = debug_spec s2 -> s1 = s2) -> names_ok l1 -> names_ok l2 ->
  concat (feed_server debug_spec <$> l1) ++ SEP :: r1 = concat (feed_server debug_spec <$> l2) ++ SEP :: r2 -> l1 = l2 /\ r1 = r2.
Proof.
  intros Hinj H1. revert l2. induction H1 as [|[n1 s1] l1 [Hne1 Hb1] _ IH]; intros l2 H2 H; destruct H2 as [|[n2 s2] l2 [Hne2 Hb2] H2]; cbn [fst snd] in *.
  - by injection H.
  - destruct n2 as [|b n2]; [done|]. injection H as <- _. by destruct (bytes_no_sep _ Hb2); left.
  - destruct n1 as [|b n1]; [done|]. injection H as -> _. by destruct (bytes_no_sep _ Hb1); left.
  - rewrite !feed_servers_cons in H. apply sep_split in H as [<- H]; [|by apply bytes_no_sep..].
    apply sep_split in H as [Hd H]; [|by apply bytes_no_sep..]. apply Hinj in Hd as <-.
    destruct (IH l2 H2 H) as [-> ->]. done.
Qed.

Lemma sort_names_perm l l' : l ≡ₚ l' -> sort_names l = sort_names l'.
Proof.
  intros H. apply (StronglySorted_unique str_le); [apply (StronglySorted_merge_sort str_le)..|].
  unfold sort_names. by rewrite !merge_sort_Permutation.
Qed.

(** The same configuration but for the order of address tags in filters and fallback. *)
Definition same_filter (f f' : RuleFilterSpec) : Prop :=
  ai_include (fl_answer_ip f) ≡ₚ ai_include (fl_answer_ip f') /\ ai_exclude (fl_answer_ip f) ≡ₚ ai_exclude (fl_answer_ip f') /\
  fl_response_type f = fl_response_type f' /\ fl_response_rcode f = fl_response_rcode f' /\ fl_response_qclass f = fl_response_qclass f' /\
  fl_action f = fl_action f'.

Lemma feed_filter_perm f f' : same_filter f f' -> feed_filter f = feed_filter f'.
Proof. intros (H1 & H2 & H3 & H4 & H5 & H6). unfold feed_filter, feed_tags. by rewrite (sort_names_perm _ _ H1), (sort_names_perm _ _ H2), H3, H4, H5, H6. Qed.

Definition with_fallback (c : Config) (f : FallbackConfig) : Config :=
  {| cf_bind := cf_bind c; cf_interface := cf_interface c; cf_timeout_ms := cf_timeout_ms c; cf_max_inflight := cf_max_inflight c;
     cf_inflight_queue_ms := cf_inflight_queue_ms c; cf_worker_threads := cf_worker_threads c; cf_fallback := f;
     cf_cache_size := cf_cache_size c; cf_cache_min_ttl := cf_cache_min_ttl c; cf_cache_max_ttl := cf_cache_max_ttl c;
     cf_cache_persist_path := cf_cache_persist_path c; cf_cache_persist_interval := cf_cache_persist_interval c;
     cf_udp_buf_size := cf_udp_buf_size c; cf_uring_recv_buffers := cf_uring_recv_buffers c; cf_udp_diagnostics := cf_udp_diagnostics c;
     cf_upstream_udp_sockets := cf_upstream_udp_sockets c; cf_tcp_max_connections := cf_tcp_max_connections c;
     cf_tcp_read_timeout_ms := cf_tcp_read_timeout_ms c; cf_tcp_idle_timeout_ms := cf_tcp_idle_timeout_ms c;
     cf_dashboard := cf_dashboard c; cf_servers := cf_servers c; cf_rules := cf_rules c; cf_ipset := cf_ipset c; cf_verdict_cache := cf_verdict_cache c;
     cf_ruleset_specs := cf_ruleset_specs c; cf_upstream_max_inflight := cf_upstream_max_inflight c; cf_hedge_delay_ms := cf_hedge_delay_ms c;
     cf_upstream_max_response_bytes := cf_upstream_max_response_bytes c |}.

(** Everything hashed is a byte or the separator. *)
Definition symbols (l : list Z) : Prop := Forall (u_ok 64) l.

(** A server's contents are covered: configurations with equal feeds have the same
    servers; the flag deciding NODATA answers changes the hash itself. *)
Theorem fingerprint_covers c c' :
  (forall s1 s2, debug_spec s1 = debug_spec s2 -> s1 = s2) -> names_ok (cf_servers c) -> names_ok (cf_servers c') ->
  fingerprint_feed debug_spec debug_matcher metadata c = fingerprint_feed debug_spec debug_matcher metadata c' -> cf_servers c = cf_servers c'.
Proof.
  intros Hinj H1 H2 H. unfold fingerprint_feed, feed_front in H. rewrite <- !app_assoc in H. cbn [app] in H.
  by apply feed_servers_inj in H as [? _].
Qed.

Lemma fingerprint_noip c t b1 b2 : b1 <> b2 -> symbols (feed_back metadata c) ->
  cache_fingerprint debug_spec debug_matcher metadata (with_fallback c (mkFallback t b1)) <>
  cache_fingerprint debug_spec debug_matcher metadata (with_fallback c (mkFallback t b2)).
Proof.
  intros Hne Hs. unfold cache_fingerprint, Fnv1a.finish, fingerprint_feed. cbn [cf_fallback with_fallback fb_noip_as_primary_ip].
  apply write_differ_once; [exact Hs|destruct b1; unfold u_ok; lia|destruct b2; unfold u_ok; lia|by destruct b1, b2|apply new_ok].
Qed.

(** A missing TTL override and an override with zero are hashed alike, although the first
    inherits the global bound and the second lifts it. *)
Lemma policy_collision min :
  feed_policy (Some (mkRuleCachePolicy false None min)) = feed_policy (Some (mkRuleCachePolicy false (Some 0%Z) min)).
Proof. reflexivity. Qed.

(** The two names of a dual fallback are hashed without a separator: a fallback can be
    moved to other servers under the same fingerprint. *)
Lemma fallback_collision m : feed_fallback (Dual (lit "a") (lit "bc") m) = feed_fallback (Dual (lit "ab") (lit "c") m).
Proof. reflexivity. Qed.
End fingerprint.

(** ** The state at start *)

Lemma load_loop_returns {CS} `{!CacheMap CS Z Entry} n r now_unix now_instant (cache : CS) k :
  returns (load_loop n r now_unix now_instant cache k).
Proof.
  revert r cache k. induction n as [|n IH]; intros r cache k; cbn [load_loop]; [apply returns_Ret|].
  destruct (read_entry r) as [[raw r']|e]; [|apply returns_Ret]. unfold CachePersist.load_entry. case_decide; [apply IH|].
  destruct (match instant_checked_sub now_instant _ with Some t => _ | None => _ end) as [inserted ttl].
  destruct (from_utf8 (raw_qname_bytes raw)) as [q|]; [|apply IH].
  destruct (extract_variant_total (raw_query raw) (12 + length (raw_question raw))) as [v ->]. cbn [obind]. apply IH.
Qed.

Section start.
Context {Regex : Type} `{!RegexEngine Regex, !RegexLaws Regex}.
Context {CS : Type} `{!CacheMap CS Z Entry} {VS : Type} `{!CacheMap VS (list Z) VerdictEntry}.
Context (pool_new : list Z -> list UpstreamEndpoint -> option nat) (zstd : list Z -> option (list Z)) (watch_path : list Z -> list Z).
Context (fingerprint : Config -> Z) (has_interval : SetName -> bool).
Hypothesis Hzstd : forall raw stream, zstd raw = Some stream -> bytes_ok stream.

Lemma start_cache_returns fs (c : Config) now_unix now_instant : returns (start_cache (CS := CS) fingerprint fs c now_unix now_instant).
Proof.
  unfold start_cache. destruct (cf_cache_persist_path c) as [path|]; [|apply returns_Ret]. destruct (fs path) as [file|]; [|apply returns_Ret].
  unfold load_from_file. destruct (dc_cache _) as [s|]; [|apply returns_Ret].
  destruct (read_and_check_header _ _ _) as [[n r]|e]; [|apply returns_Ret].
  destruct (load_loop_returns (Z.to_nat n) r now_unix now_instant s 0) as [[s' res] ->]. cbn [obind]. apply returns_Ret.
Qed.

(** A cached answer whose rule's first matching filter is [j] and accepts it. *)
Definition restores (hot : HotState (Regex := Regex)) (entry : Z * list Z * nat) (i j : nat) (ips : list IpAddr) : Prop :=
  let '(rule_id, packet, question_end) := entry in
  i = Z.to_nat rule_id /\ exists rule f, hs_rules hot !! i = Some rule /\
    first_filter 0 (r_filters rule) (query_ruleset hot) packet question_end = Ret (Some (j, f)) /\ rf_action f = Accept /\
    answer_ips packet question_end = Ret ips.

Definition holds_ip (m : gmap (nat * nat) (list IpAddr)) (i j : nat) (ip : IpAddr) : Prop := exists l, m !! (i, j) = Some l /\ ip ∈ l.

Section restore.
Variable hot : HotState (Regex := Regex).
Hypothesis Hdb : forall rs, hs_ruleset hot = Some rs -> db_ok rs.
Hypothesis Hquery : query_ruleset hot = hs_ruleset hot.

Lemma restore_entry_spec m e : exists m', restore_entry hot m e = Ret m' /\
  forall i j ip, holds_ip m' i j ip <-> holds_ip m i j ip \/ exists ips, restores hot e i j ips /\ ip ∈ ips.
Proof.
  destruct e as [[id packet] qe]. unfold restore_entry.
  assert (Hsame : (forall i j ips, ~ restores hot (id, packet, qe) i j ips) -> forall i j ip, holds_ip m i j ip <->
    holds_ip m i j ip \/ exists ips, restores hot (id, packet, qe) i j ips /\ ip ∈ ips).
  { intros Hno i j ip. split; [tauto|]. intros [H|(ips & H & _)]; [done|]. by destruct (Hno i j ips). }
  destruct (hs_rules hot !! Z.to_nat id) as [rule|] eqn:Hr.
  2: { exists m. split; [done|]. apply Hsame. intros i j ips (-> & r' & f & Hr' & _). congruence. }
  destruct (answer_ips_total packet qe) as [ips Hips]. destruct (answer_rr_types_total packet qe) as [types Htypes].
  destruct (question_qclass_total packet qe) as [qc Hqc]. destruct (rcode_total packet) as [rc Hrc].
  destruct (first_filter_spec 0 (r_filters rule) (hs_ruleset hot) packet qe ips types qc rc Hdb Hips Htypes Hqc Hrc) as (o & Ho & _).
  rewrite Ho. cbn [obind]. destruct o as [[j0 f0]|].
  2: { exists m. split; [done|]. apply Hsame. intros i j ips' (-> & r' & f & Hr' & Hf & _). rewrite Hquery in Hf. congruence. }
  assert (Hin : forall i j ips', restores hot (id, packet, qe) i j ips' <-> i = Z.to_nat id /\ j = j0 /\ rf_action f0 = Accept /\ ips' = ips).
  { intros i j ips'. split.
    - intros (-> & r' & f & Hr' & Hf & Ha & Hi). rewrite Hquery in Hf. assert (r' = rule) as -> by congruence.
      rewrite Ho in Hf. injection Hf as <- <-. split_and!; [done..|congruence].
    - intros (-> & -> & Ha & ->). split; [done|]. exists rule, f0. by rewrite Hquery. }
  destruct (rf_action f0) eqn:Ha; [|exists m; split; [done|]; apply Hsame; intros i j ips' H%Hin; naive_solver..].
  rewrite Hips. cbn [obind]. eexists. split; [done|]. intros i j ip. setoid_rewrite Hin. case_decide as Hn.
  - subst ips. split; [tauto|]. intros [H|(? & (_ & _ & _ & ->) & H)]; [done|]. by apply not_elem_of_nil in H.
  - unfold holds_ip. destruct (decide ((i, j) = (Z.to_nat id, j0))) as [[= -> ->]|Hne].
    + rewrite lookup_insert_eq. split.
      * intros (l & [= <-] & [H|H]%elem_of_app); [|right; by exists ips]. left. destruct (m !! _) as [l|]; [by exists l|by apply not_elem_of_nil in H].
      * intros [(l & -> & H)|(? & (_ & _ & _ & ->) & H)]; eexists; (split; [done|]); apply elem_of_app; [left|right]; done.
    + rewrite lookup_insert_ne by done. split; [tauto|]. intros [H|(? & (-> & -> & _) & _)]; [done|]. by destruct Hne.
Qed.

Lemma restore_sets_spec entries m : exists m', restore_sets hot entries m = Ret m' /\
  forall i j ip, holds_ip m' i j ip <-> holds_ip m i j ip \/ exists e ips, e ∈ entries /\ restores hot e i j ips /\ ip ∈ ips.
Proof.
  revert m. induction entries as [|e entries IH]; intros m; cbn [restore_sets].
  { exists m. split; [done|]. intros i j ip. split; [tauto|]. intros [H|(e & ips & He & _)]; [done|]. by apply not_elem_of_nil in He. }
  destruct (restore_entry_spec m e) as (m1 & -> & H1). cbn [obind]. destruct (IH m1) as (m2 & -> & H2). exists m2. split; [done|].
  intros i j ip. rewrite H2, H1. split.
  - intros [[H|(ips & H & Hip)]|(e' & ips & He & H & Hip)]; [by left|right; exists e, ips; split; [by left|done]|].
    right. exists e', ips. split; [by right|done].
  - intros [H|(e' & ips & [->|He]%elem_of_cons & H & Hip)]; [by left; left|left; right; by exists ips|right; by exists e', ips].
Qed.
End restore.
(** The sets hold what the manager was given for the restored addresses. *)
Definition sets_restored (c : Config) (st : AppState Regex CS VS) (ipset : option IpSetManager) (now : Z) : Prop :=
  match cf_ipset c, ipset with
  | None, None => True
  | Some rules, Some m => exists m0 restored, manager_new rules has_interval = Ok m0 /\
      m = foldl (fun m p => add_filter_ips m (fst (fst p)) (snd (fst p)) (snd p)) m0 (map_to_list restored) /\
      forall i j ip, holds_ip restored i j ip <->
        exists e ips, e ∈ for_each_rule_entry (app_cache st) now /\ restores (sn_hot (app_hot st)) e i j ips /\ ip ∈ ips
  | _, _ => False
  end.

End start.

(** ** A start *)

Module StartupDemo.
Import LabelRegex ConfigDemo ServerDemo.

Definition the_start (c : Config) := app_new (Regex := list item) (CS := gmap Z Entry) (VS := gmap (list Z) VerdictEntry)
  pools no_zstd id (fun _ => 7%Z) (fun _ => false) RulesetDemo.fs0 c 1000 (10 ^ 12) (10 ^ 12).

End StartupDemo.
