(* ===== verification/Restart.v ===== *)
(** * Stopping and starting again (save_caches of src/src/lib.rs; AppState::new of
    src/src/server.rs)

    What the periodic and the final save write, and what a server started with the same
    or with another configuration makes of it.  The file system is a function from paths
    to contents; a failed write leaves it as it was. *)

From stdpp Require Import gmap strings.
From S2P Require Import Prelude Order Hasher DnsName DnsQuery Utf8 DnsQname DnsRecords DnsEdns Ecs DnsMessage DnsBuilder Persist CacheMap Cache CacheKey CacheCorrect CachePersist VerdictCache IpRange RustStr Domain IpParse Mrs Ruleset RouteIndex Router Resolver Upstream UpstreamUrl ConfigServers ConfigParse Config ServerBuild Netlink Ipset Startup.

Definition FileSystem : Type := list Z -> option (list Z).

Definition write_file (fs : FileSystem) (path bytes : list Z) : FileSystem := fun p => if decide (p = path) then Some bytes else fs p.

Section restart.
Context {CS : Type} `{!CacheMap CS Z Entry, !CacheMapLaws CS Z Entry} {VS : Type} `{!CacheMap VS (list Z) VerdictEntry, !CacheMapLaws VS (list Z) VerdictEntry}.

(** [save_caches]: [ok] and [ok'] are whether the two writes succeed. *)
Definition save_caches (cache : DnsCache CS) (verdicts : VerdictCache VS) (path vpath : list Z) (fp now_unix : Z) (clock : nat -> Z) (ok ok' : bool)
    (fs : FileSystem) : FileSystem :=
  let fs := match save_to_file cache now_unix clock fp with
            | Some (file, _) => if ok then write_file fs path file else fs
            | None => fs
            end in
  match verdict_save verdicts now_unix fp with
  | Some (file, _) => if ok' then write_file fs vpath file else fs
  | None => fs
  end.

Lemma persist_path_ne path : persist_path_for path <> path.
Proof. intros H. apply (f_equal length) in H. unfold persist_path_for in H. rewrite length_app in H. cbn in H. lia. Qed.

Lemma start_cache_file fingerprint fs c path file n : cf_cache_persist_path c = Some path -> fs path = Some file ->
  start_cache (CS := CS) fingerprint fs c n = fun inst =>
    let! (cache, _) := load_from_file (cache_new (mkCacheConfig (cf_cache_size c) (cf_cache_min_ttl c) (cf_cache_max_ttl c))) file (fingerprint c) n inst in Ret cache.
Proof. intros Hp Hf. unfold start_cache. by rewrite Hp, Hf. Qed.

(** A cache file of another configuration is refused. *)
Lemma load_mismatch (c c0 : DnsCache CS) now_unix clock fp fp' file n now_unix' now' :
  save_to_file c now_unix clock fp = Some (file, n) -> u_ok 64 fp -> fp <> fp' ->
  exists r, load_from_file c0 file fp' now_unix' now' = Ret (c0, r).
Proof.
  intros Hs Hu Hne. unfold save_to_file in Hs. destruct (dc_cache c) as [s|]; [|done]. apply (inj Some), pair_equal_spec in Hs as [<- _].
  unfold load_from_file. destruct (dc_cache c0); [|by eexists]. rewrite read_header_mismatch by done. by eexists.
Qed.

Section saved.
Context (fingerprint : Config -> Z) (c : Config) (path : list Z).
Context (cache : DnsCache CS) (s : CS) (verdicts : VerdictCache VS) (v : VS).
Context (now_unix : Z) (clock : nat -> Z) (fs : FileSystem).
Hypothesis Hpath : cf_cache_persist_path c = Some path.
Hypothesis Hcache : dc_cache cache = Some s.
Hypothesis Hverdicts : vc_inner verdicts = Some v.
Hypothesis Hsave : map_Forall saveable (cm_view s).
Hypothesis Hvsave : map_Forall verdict_saveable (cm_view v).
Hypothesis Hfp : u_ok 64 (fingerprint c).
Hypothesis Hnow : (0 <= now_unix)%Z /\ (now_unix + 2 ^ 32 < 2 ^ 64)%Z.
Hypothesis Hcount : (Z.of_nat (length (cm_iter s)) < 2 ^ 32)%Z /\ (Z.of_nat (length (cm_iter v)) < 2 ^ 32)%Z.

Definition saved : FileSystem := save_caches cache verdicts path (persist_path_for path) (fingerprint c) now_unix clock true true fs.

(** The entries that are still live when the server starts again. *)
Definition live_entries (now_unix' now' : Z) : list (Z * Entry) := reloaded now_unix now_unix' now' (collect_live 0 clock (cm_iter s)).

Definition live_verdicts (v0 : VerdictCache VS) (now_unix' : Z) : list (list Z * VerdictEntry) :=
  filter (fun kv => is_expired v0 (inserted_unix (snd kv)) now_unix' = false)
    (filter (fun kv => is_expired verdicts (inserted_unix (snd kv)) now_unix = false) (cm_iter v)).

Lemma length_collect_live i k (l : list (Z * Entry)) : length (collect_live i k l) <= length l.
Proof. revert i. induction l as [|[key e] l IH]; intros i; cbn [collect_live]; [done|]. specialize (IH (S i)). repeat case_match; cbn [length]; lia. Qed.

Lemma saved_files : exists file n vfile vn,
  save_to_file cache now_unix clock (fingerprint c) = Some (file, n) /\ (Z.of_nat n < 2 ^ 32)%Z /\ saved path = Some file /\
  verdict_save verdicts now_unix (fingerprint c) = Some (vfile, vn) /\ (Z.of_nat vn < 2 ^ 32)%Z /\ saved (persist_path_for path) = Some vfile.
Proof.
  unfold saved, save_caches, save_to_file, verdict_save. rewrite Hcache, Hverdicts. do 4 eexists. split; [done|]. split.
  { pose proof (length_collect_live 0 clock (cm_iter s)). lia. }
  split; [unfold write_file; rewrite decide_False, decide_True by (done || (symmetry; apply persist_path_ne)); done|].
  split; [done|]. split; [|unfold write_file; by rewrite decide_True].
  pose proof (length_filter (fun kv : list Z * VerdictEntry => is_expired verdicts (inserted_unix (snd kv)) now_unix = false) (cm_iter v)). lia.
Qed.

Definition fresh_cache (c : Config) : DnsCache CS := cache_new (mkCacheConfig (cf_cache_size c) (cf_cache_min_ttl c) (cf_cache_max_ttl c)).
Definition fresh_verdicts (c : Config) : VerdictCache VS := verdict_new (cf_verdict_cache c).

End saved.
End restart.

(** ** An example *)

Module RestartDemo.
Definition path : list Z := lit "/var/cache/pathdns".

Definition config (size : Z) : Config := {|
  cf_bind := []; cf_interface := AllInterfaces; cf_timeout_ms := 3000; cf_max_inflight := 1024; cf_inflight_queue_ms := 0; cf_worker_threads := 1;
  cf_fallback := mkFallback LastRule false; cf_cache_size := size; cf_cache_min_ttl := 0; cf_cache_max_ttl := 0; cf_cache_persist_path := Some path;
  cf_cache_persist_interval := 0; cf_udp_buf_size := 0; cf_uring_recv_buffers := 256; cf_udp_diagnostics := DiagOff; cf_upstream_udp_sockets := 1;
  cf_tcp_max_connections := 16; cf_tcp_read_timeout_ms := 0; cf_tcp_idle_timeout_ms := 0;
  cf_dashboard := mkDashboard false [] None 0 0 None; cf_servers := []; cf_rules := []; cf_ipset := None;
  cf_verdict_cache := Some (mkVerdictCacheConfig 100 60); cf_ruleset_specs := []; cf_upstream_max_inflight := 1024; cf_hedge_delay_ms := None;
  cf_upstream_max_response_bytes := 0 |}.

Definition verdicts : VerdictCache (gmap (list Z) VerdictEntry) := verdict_add sample_verdicts [97]%Z true 4990.
Definition verdict_entries : gmap (list Z) VerdictEntry := {[ [97]%Z := mkVerdictEntry true 4990 ]}.

Lemma verdicts_saveable : map_Forall verdict_saveable (cm_view verdict_entries).
Proof.
  change (map_Forall verdict_saveable verdict_entries). unfold verdict_entries. apply map_Forall_singleton.
  split; [unfold u_ok; cbn [inserted_unix]; lia|]. split; [cbn; lia|by vm_compute].
Defined.

(** The fingerprint is the cache size. *)
Definition on_disk : FileSystem := saved cf_cache_size (config 100) path filled_cache verdicts 5000 sample_clock (fun _ => None).

End RestartDemo.
