(* ===== verification/QueryRing.v ===== *)
(** * The in-memory rings of the query log

    [src/querylog/ring.rs]: the ring of recent events with its newest-first queries,
    the ring of per-second query counts and the ring of per-minute samples with its
    aggregates; and [run_qps_sampler] of [src/querylog/worker.rs], which turns the
    process counters into the entries of the last two.  The locks are never poisoned
    (a panic aborts the process), so the branches for a poisoned lock are left out. *)

From stdpp Require Import strings.
From S2P Require Import Prelude DnsName DnsQuery DnsRecords RustStr.

(** ** Events *)

Record QueryLogEvent := mkEvent {
  ev_seq : Z;
  unix_micros : Z;
  client : IpAddr;
  client_port : Z;
  ev_qname : list Z;
  ev_qtype : Z;
  ev_rcode : Z;
  elapsed_us : Z;
  response_bytes : Z;
  source : list Z;
  upstream : option (list Z)
}.

(** ** The event ring *)

(** [receivers] is the number of live subscribers of the broadcast channel. *)
Record EventRing := mkRing { ring_buf : list QueryLogEvent; ring_capacity : nat; receivers : nat }.

Definition ring_new (capacity : nat) : EventRing := mkRing [] capacity 0.

(** The body of the loop under the lock: evict the oldest when full, then append. *)
Definition push_one (capacity : nat) (st : list QueryLogEvent * Z) (ev : QueryLogEvent) : list QueryLogEvent * Z :=
  let '(buf, evicted) := st in
  if decide (capacity <= length buf) then (drop 1 buf ++ [ev], wrap 64 (evicted + 1))
  else (buf ++ [ev], evicted).

(** The ring afterwards, the number evicted, and the events broadcast. *)
Definition push_batch (r : EventRing) (events : list QueryLogEvent) : EventRing * Z * list QueryLogEvent :=
  if decide (ring_capacity r = 0 \/ events = []) then (r, 0%Z, []) else
  let '(buf', evicted) := foldl (push_one (ring_capacity r)) (ring_buf r, 0%Z) events in
  (mkRing buf' (ring_capacity r) (receivers r), evicted, if decide (0 < receivers r) then events else []).

Definition subscribe (r : EventRing) : EventRing := mkRing (ring_buf r) (ring_capacity r) (S (receivers r)).

(** The filter of a query. *)
Definition ring_filter (before_seq after_seq : option Z) (filter : option (list Z)) (ev : QueryLogEvent) : bool :=
  let before := match before_seq with Some s => bool_decide (s <= ev_seq ev)%Z | None => false end in
  let after := match after_seq with Some s => bool_decide (ev_seq ev <= s)%Z | None => false end in
  let unmatched := match filter with
    | Some f => bool_decide (f <> []) && negb (contains_str f (ev_qname ev))
    | None => false
    end in
  negb (before || after || unmatched).

Definition ring_query (r : EventRing) (before_seq after_seq : option Z) (limit : Z) (filter : option (list Z))
    : list QueryLogEvent :=
  take (Z.to_nat (Z.max 1 (Z.min limit 1000))) (List.filter (ring_filter before_seq after_seq filter) (rev (ring_buf r))).

Definition ring_clear (r : EventRing) : EventRing := mkRing [] (ring_capacity r) (receivers r).

Definition ring_enabled (r : EventRing) : bool := bool_decide (0 < ring_capacity r).

(** ** The ring of per-second counts *)

Definition QPS_LEN : Z := 3600.

Definition qps_push (data : list Z) (count : Z) : list Z :=
  (if decide (Z.of_nat (length data) = QPS_LEN) then drop 1 data else data) ++ [count].

Definition qps_snapshot (data : list Z) (n : Z) : list Z :=
  let take := Z.min (Z.min n QPS_LEN) (Z.of_nat (length data)) in
  drop (length data - Z.to_nat take) data.

(** ** The ring of samples *)

Record StatsSample := mkSample {
  unix_secs : Z;
  s_queries : Z;
  s_cache_hits : Z;
  s_upstream_ok : Z;
  s_upstream_err : Z;
  s_filtered : Z
}.

Definition default_sample : StatsSample := mkSample 0 0 0 0 0 0.

Definition STATS_SAMPLE_SECS : Z := 60.
Definition STATS_RING_LEN : Z := 24 * 60.

(** [agg.queries += snap.queries; ...]: the five counters, not the time. *)
Definition add_counters (agg snap : StatsSample) : StatsSample :=
  mkSample (unix_secs agg)
    (wrap 64 (s_queries agg + s_queries snap)) (wrap 64 (s_cache_hits agg + s_cache_hits snap))
    (wrap 64 (s_upstream_ok agg + s_upstream_ok snap)) (wrap 64 (s_upstream_err agg + s_upstream_err snap))
    (wrap 64 (s_filtered agg + s_filtered snap)).

Definition set_secs (t : Z) (s : StatsSample) : StatsSample :=
  mkSample t (s_queries s) (s_cache_hits s) (s_upstream_ok s) (s_upstream_err s) (s_filtered s).

Definition stats_push (data : list StatsSample) (snap : StatsSample) : list StatsSample :=
  (if decide (Z.of_nat (length data) = STATS_RING_LEN) then drop 1 data else data) ++ [snap].

(** The number of samples in the window of [seconds]. *)
Definition window_len (data : list StatsSample) (seconds : Z) : nat :=
  Z.to_nat (Z.min (Z.min (seconds / STATS_SAMPLE_SECS) STATS_RING_LEN) (Z.of_nat (length data))).

Definition aggregate (data : list StatsSample) (seconds : Z) : StatsSample * Z :=
  let skip := length data - window_len data seconds in
  let window := drop skip data in
  (foldl add_counters default_sample window,
   match window with snap :: _ => unix_secs snap | [] => 0%Z end).

(** The group with index [b] of [buckets] groups of the window. *)
Definition bucket (snaps : list StatsSample) (buckets b : nat) : outcome StatsSample :=
  let n := length snaps in
  let start := b * n / buckets in
  let end_ := if decide (b + 1 = buckets) then n else (b + 1) * n / buckets in
  let! group := slice snaps start end_ in
  let agg := foldl add_counters default_sample group in
  if decide (start < end_) then
    let! first := idx snaps start in Ret (set_secs (unix_secs first) agg)
  else Ret agg.

Fixpoint bucket_loop (snaps : list StatsSample) (buckets b fuel : nat) : outcome (list StatsSample) :=
  match fuel with
  | 0 => Ret []
  | S fuel =>
      let! agg := bucket snaps buckets b in
      let! rest := bucket_loop snaps buckets (b + 1) fuel in
      Ret (agg :: rest)
  end.

Definition bucket_aggregate (data : list StatsSample) (seconds : Z) (buckets : nat) : outcome (list StatsSample) :=
  let buckets := Nat.max buckets 1 in
  let take := window_len data seconds in
  if decide (take = 0) then Ret (replicate buckets default_sample)
  else bucket_loop (drop (length data - take) data) buckets 0 buckets.

(** ** The sampler *)

(** The absolute counters read at a tick. *)
Record Reading := mkReading {
  c_queries : Z; c_cache : Z; c_up_ok : Z; c_up_err : Z; c_filtered : Z
}.

Record Sampler := mkSampler {
  prev : Reading;
  stats_acc : StatsSample;
  ticks_this_sample : Z;
  qps_ring : list Z;
  stats_ring : list StatsSample
}.

Definition sampler_new (r : Reading) : Sampler := mkSampler r default_sample 0 [] [].

(** The deltas since the previous tick. *)
Definition snap_of (now_secs : Z) (cur prev : Reading) : StatsSample :=
  mkSample now_secs
    (sat_sub (c_queries cur) (c_queries prev)) (sat_sub (c_cache cur) (c_cache prev))
    (sat_sub (c_up_ok cur) (c_up_ok prev)) (sat_sub (c_up_err cur) (c_up_err prev))
    (sat_sub (c_filtered cur) (c_filtered prev)).

Definition sampler_tick (s : Sampler) (now_secs : Z) (cur : Reading) : Sampler :=
  let snap := snap_of now_secs cur (prev s) in
  let qps := qps_push (qps_ring s) (s_queries snap) in
  let acc := add_counters (stats_acc s) snap in
  let ticks := (ticks_this_sample s + 1)%Z in
  if decide (STATS_SAMPLE_SECS <= ticks)%Z then
    mkSampler cur default_sample 0 qps (stats_push (stats_ring s) (set_secs now_secs acc))
  else mkSampler cur acc ticks qps (stats_ring s).

(** ** The event ring keeps the newest events *)

Lemma push_loop_eq cap events b e :
  0 < cap -> length b <= cap -> u_ok 64 e ->
  foldl (push_one cap) (b, e) events
  = (lastn cap (b ++ events), wrap 64 (e + Z.of_nat (length b + length events - cap))).
Proof.
  intros Hcap. revert b e. induction events as [|ev events IH]; intros b e Hb He.
  - cbn [foldl length]. rewrite app_nil_r, lastn_all by done.
    replace (length b + 0 - cap) with 0 by lia. unfold wrap. by rewrite Z.add_0_r, Z.mod_small.
  - cbn [foldl]. replace (push_one cap (b, e) ev) with (lastn cap (b ++ [ev]), wrap 64 (e + Z.of_nat (length b + 1 - cap))).
    + rewrite IH; [|rewrite length_lastn; lia|apply Z.mod_pos_bound; lia].
      rewrite lastn_app_lastn, <- app_assoc. cbn [app length]. f_equal. unfold wrap.
      rewrite Zplus_mod_idemp_l, length_lastn, length_app. cbn [length]. f_equal. lia.
    + unfold push_one. rewrite <- lastn_push by done. repeat case_decide; try lia; f_equal.
      * f_equal. lia.
      * replace (length b + 1 - cap) with 0 by lia. unfold wrap. by rewrite Z.add_0_r, Z.mod_small.
Qed.

(** The operations of a ring, in any order. *)
Inductive ring_op := RPush (events : list QueryLogEvent) | RClear | RSubscribe.

Definition ring_step (st : EventRing * Z * list QueryLogEvent) (op : ring_op) : EventRing * Z * list QueryLogEvent :=
  let '(r, evicted, sent) := st in
  match op with
  | RPush events => let '(r', e, s) := push_batch r events in (r', wrap 64 (evicted + e), sent ++ s)
  | RClear => (ring_clear r, evicted, sent)
  | RSubscribe => (subscribe r, evicted, sent)
  end.

(** The events pushed since the ring was last cleared. *)
Definition since_clear (ops : list ring_op) : list QueryLogEvent :=
  foldl (fun acc op => match op with RPush events => acc ++ events | RClear => [] | RSubscribe => acc end) [] ops.

Definition event_matches_query (before_seq after_seq : option Z) (filter : option (list Z)) (ev : QueryLogEvent) : Prop :=
  (forall s, before_seq = Some s -> (ev_seq ev < s)%Z) /\ (forall s, after_seq = Some s -> (s < ev_seq ev)%Z) /\
  (forall f, filter = Some f -> exists a b, ev_qname ev = a ++ f ++ b).

Lemma ring_filter_true b a f ev : ring_filter b a f ev = true <-> event_matches_query b a f ev.
Proof.
  unfold ring_filter, event_matches_query. rewrite negb_true_iff, !orb_false_iff.
  destruct b as [s|], a as [s'|]; destruct f as [[|c f]|]; rewrite ?bool_decide_eq_false, ?andb_false_iff, ?negb_false_iff, ?contains_str_true;
    (split; [intros [[H1 H2] H3]|intros (H1 & H2 & H3)]); split_and!; try done;
    try (intros ? [= <-]); try (specialize (H1 _ eq_refl)); try (specialize (H2 _ eq_refl)); try lia;
    try (exists [], (ev_qname ev); done); try (left; apply bool_decide_eq_false; tauto);
    try (destruct H3 as [H3%bool_decide_eq_false|H3]; [destruct H3; done|exact H3]); try (right; by apply H3).
Qed.

Lemma ring_run_buf cap ops r e sent :
  foldl ring_step (ring_new cap, 0%Z, []) ops = (r, e, sent) ->
  ring_capacity r = cap /\ ring_buf r = lastn cap (since_clear ops).
Proof.
  revert r e sent. induction ops as [|op ops IH] using rev_ind; intros r e sent; [intros [= <- <- <-]; done|].
  unfold since_clear. rewrite !foldl_app. destruct (foldl ring_step _ ops) as [[r0 e0] s0].
  destruct (IH _ _ _ eq_refl) as [Hc Hb]. fold (since_clear ops). cbn [foldl ring_step].
  destruct op as [events| |].
  - unfold push_batch. case_decide as Hd.
    + intros [= <- <- <-]. split; [done|]. destruct Hd as [H0|H0].
      * rewrite Hb. rewrite Hc in H0. subst cap. rewrite H0. unfold lastn. rewrite !Nat.sub_0_r, !drop_all. done.
      * by rewrite H0, app_nil_r.
    + rewrite push_loop_eq; [|lia| |unfold u_ok; lia].
      * intros [= <- <- <-]. cbn. split; [done|]. by rewrite Hb, Hc, lastn_app_lastn.
      * rewrite Hb, length_lastn. lia.
  - intros [= <- <- <-]. done.
  - intros [= <- <- <-]. done.
Qed.

(** The ring of recent events.  After any sequence of pushes, clears and
    subscriptions the ring holds exactly the newest events pushed since the last
    clear, up to its capacity; and a query lists, newest first, exactly the events of the
    ring that lie strictly between the two sequence numbers and contain the filter text,
    cut off only at the limit (between 1 and 1000). *)
Theorem event_ring_correct cap ops before after limit filter :
  let '(r, _, _) := foldl ring_step (ring_new cap, 0%Z, []) ops in
  ring_buf r = lastn cap (since_clear ops) /\
  exists rest, List.filter (ring_filter before after filter) (rev (ring_buf r)) = ring_query r before after limit filter ++ rest /\
    (forall ev, ev ∈ ring_query r before after limit filter ++ rest <-> ev ∈ ring_buf r /\ event_matches_query before after filter ev) /\
    (Z.of_nat (length (ring_query r before after limit filter)) <= 1000)%Z /\
    (rest <> [] -> Z.of_nat (length (ring_query r before after limit filter)) = Z.max 1 (Z.min limit 1000)).
Proof.
  destruct (foldl _ _ _) as [[r e] s] eqn:H. apply ring_run_buf in H as [_ Hb]. split; [done|].
  unfold ring_query. set (k := Z.to_nat _). set (l := List.filter _ _).
  exists (drop k l). rewrite take_drop, length_take. split_and!; [done| |unfold k; lia|].
  - intros ev. subst l. rewrite list_elem_of_In, filter_In, ring_filter_true, <- in_rev, <- list_elem_of_In. done.
  - intros Hr. destruct (decide (length l <= k)); [by rewrite drop_ge in Hr by lia|unfold k in *; lia].
Qed.

(** ** Buckets partition the window *)

(** The counter fields of a sample, with the counter each is read from. *)
Definition fields : list ((StatsSample -> Z) * (Reading -> Z)) :=
  [(s_queries, c_queries); (s_cache_hits, c_cache); (s_upstream_ok, c_up_ok);
   (s_upstream_err, c_up_err); (s_filtered, c_filtered)].

(** Case analysis on the five counters. *)
Ltac by_field H :=
  cbn [fields In] in H; destruct H as [H|[H|[H|[H|[H|[]]]]]]; injection H as <- <-.

Definition total (f : StatsSample -> Z) (l : list StatsSample) : Z := foldr (fun s acc => f s + acc)%Z 0%Z l.

Lemma total_cons f s l : total f (s :: l) = (f s + total f l)%Z.
Proof. done. Qed.

Lemma total_app f l k : total f (l ++ k) = (total f l + total f k)%Z.
Proof.
  unfold total. induction l as [|s l IH]; cbn [app foldr]; [lia|]. rewrite IH. lia.
Qed.

Lemma foldl_add_counters f c l a :
  In (f, c) fields -> u_ok 64 (f a) -> f (foldl add_counters a l) = wrap 64 (f a + total f l).
Proof.
  intros Hf. revert a. induction l as [|s l IH]; intros a Ha; cbn [foldl total foldr].
  - unfold wrap. by rewrite Z.add_0_r, Z.mod_small.
  - assert (f (add_counters a s) = wrap 64 (f a + f s)) as Hs by (by_field Hf; done).
    rewrite IH, Hs; unfold wrap, u_ok; [|rewrite Hs; apply Z.mod_pos_bound; lia].
    rewrite Zplus_mod_idemp_l. f_equal. fold (total f l). lia.
Qed.

Lemma default_field f c : In (f, c) fields -> f default_sample = 0%Z.
Proof. intros H. by_field H; done. Qed.

Lemma set_secs_field f c t s : In (f, c) fields -> f (set_secs t s) = f s.
Proof. intros H. by_field H; done. Qed.

(** What one bucket reports about its samples. *)
Definition summary (g : list StatsSample) : StatsSample :=
  set_secs (match g with s :: _ => unix_secs s | [] => 0%Z end) (foldl add_counters default_sample g).

Lemma unix_secs_fold l a : unix_secs (foldl add_counters a l) = unix_secs a.
Proof. revert a. induction l as [|s l IH]; intros a; [done|]. cbn [foldl]. by rewrite IH. Qed.

Lemma summary_eq t l : t = match l with s :: _ => unix_secs s | [] => 0%Z end ->
  set_secs t (foldl add_counters default_sample l) = summary l.
Proof. by intros ->. Qed.

Lemma aggregate_summary f c data seconds :
  In (f, c) fields ->
  f (fst (aggregate data seconds)) = wrap 64 (total f (lastn (window_len data seconds) data)) /\
  snd (aggregate data seconds) = unix_secs (summary (lastn (window_len data seconds) data)).
Proof.
  intros Hf. split; [|done]. unfold aggregate. cbn [fst]. fold (lastn (window_len data seconds) data).
  rewrite (foldl_add_counters f c), (default_field f c) by (rewrite ?(default_field f c) by done; unfold u_ok; done || lia).
  done.
Qed.

(** Where bucket [b] of [B] starts in a window of [n] samples. *)
Definition cut (n B b : nat) : nat := b * n / B.

Definition part (snaps : list StatsSample) (B b : nat) : list StatsSample :=
  let n := length snaps in take (cut n B (b + 1) - cut n B b) (drop (cut n B b) snaps).

Lemma cut_le n B b : 0 < B -> b <= B -> cut n B b <= n /\ cut n B b <= cut n B (b + 1).
Proof.
  intros HB Hb. unfold cut. split.
  - apply Nat.Div0.div_le_upper_bound. nia.
  - apply Nat.Div0.div_le_mono. lia.
Qed.

Lemma cut_last n B : 0 < B -> cut n B B = n.
Proof. intros. unfold cut. rewrite Nat.mul_comm. by apply Nat.div_mul; lia. Qed.

Lemma cut_step n B b : 0 < B -> n / B <= cut n B (b + 1) - cut n B b <= n / B + 1.
Proof.
  intros HB. unfold cut. pose proof (Nat.div_mod_eq (b * n) B). pose proof (Nat.div_mod_eq ((b + 1) * n) B).
  pose proof (Nat.div_mod_eq n B). pose proof (Nat.mod_upper_bound (b * n) B ltac:(lia)).
  pose proof (Nat.mod_upper_bound ((b + 1) * n) B ltac:(lia)). pose proof (Nat.mod_upper_bound n B ltac:(lia)). nia.
Qed.

Lemma bucket_eq snaps B b : b < B -> bucket snaps B b = Ret (summary (part snaps B b)).
Proof.
  intros Hb. unfold bucket, part. set (n := length snaps).
  pose proof (cut_le n B b ltac:(lia) ltac:(lia)) as [H1 H2]. pose proof (cut_le n B (b + 1) ltac:(lia) ltac:(lia)) as [H3 _].
  replace (if decide (b + 1 = B) then n else (b + 1) * n / B) with (cut n B (b + 1)).
  2:{ case_decide as He; [|done]. rewrite He. apply cut_last. lia. }
  fold (cut n B b). rewrite slice_Ret by (unfold n in *; lia). cbn [obind].
  case_decide as Hlt.
  - destruct (lookup_lt_is_Some_2 snaps (cut n B b)) as [x Hx]; [unfold n in *; lia|].
    rewrite (idx_lookup _ _ x) by done. cbn [obind]. f_equal. apply summary_eq.
    rewrite (drop_S _ _ _ Hx). by destruct (cut n B (b + 1) - cut n B b) eqn:E; [lia|].
  - replace (cut n B (b + 1) - cut n B b) with 0 by lia. rewrite take_0. done.
Qed.

Lemma bucket_loop_eq snaps B b fuel : b + fuel <= B -> bucket_loop snaps B b fuel = Ret ((fun b => summary (part snaps B b)) <$> seq b fuel).
Proof.
  revert b. induction fuel as [|fuel IH]; intros b Hb; [done|]. cbn [bucket_loop seq fmap list_fmap].
  rewrite bucket_eq by lia. cbn [obind]. rewrite IH by lia. cbn [obind]. do 2 f_equal. by rewrite Nat.add_1_r.
Qed.

Lemma parts_concat snaps B b m : 0 < B -> b + m <= B ->
  concat (part snaps B <$> seq b m) = take (cut (length snaps) B (b + m) - cut (length snaps) B b) (drop (cut (length snaps) B b) snaps).
Proof.
  intros HB. revert b. induction m as [|m IH]; intros b Hb.
  - cbn. by rewrite Nat.add_0_r, Nat.sub_diag.
  - cbn [seq fmap list_fmap concat]. rewrite <- Nat.add_1_r, IH by lia. unfold part. set (n := length snaps).
    pose proof (cut_le n B b HB ltac:(lia)) as [_ Hle]. replace (b + 1 + m) with (b + S m) by lia.
    assert (cut n B (b + 1) <= cut n B (b + S m)) as Hle' by (apply Nat.Div0.div_le_mono; nia).
    set (s0 := cut n B b) in *. set (s1 := cut n B (b + 1)) in *. set (s2 := cut n B (b + S m)) in *.
    replace (drop s1 snaps) with (drop (s1 - s0) (drop s0 snaps)) by (rewrite drop_drop; f_equal; lia).
    rewrite take_take_drop. f_equal. lia.
Qed.

Lemma stats_buckets_spec data seconds buckets :
  let B := Nat.max buckets 1 in
  let window := lastn (window_len data seconds) data in
  exists parts, bucket_aggregate data seconds buckets = Ret (summary <$> parts) /\
    length parts = B /\ concat parts = window /\
    Forall (fun g => length window / B <= length g <= length window / B + 1) parts /\
    forall f c, In (f, c) fields -> wrap 64 (total f (summary <$> parts)) = f (fst (aggregate data seconds)).
Proof.
  intros B window.
  assert (exists parts, bucket_aggregate data seconds buckets = Ret (summary <$> parts) /\ length parts = B /\ concat parts = window /\
    Forall (fun g => length window / B <= length g <= length window / B + 1) parts) as (parts & H1 & H2 & H3 & H4).
  { unfold bucket_aggregate. fold B. fold (lastn (window_len data seconds) data). fold window. case_decide as H0.
    - assert (window = []) as -> by (unfold window, lastn; by rewrite H0, Nat.sub_0_r, drop_all).
      exists (replicate B []). rewrite length_replicate. split_and!; [by rewrite fmap_replicate|done| |].
      + clear. induction B; [done|]. done.
      + apply Forall_replicate. cbn [length]. rewrite Nat.Div0.div_0_l. lia.
    - exists (part window B <$> seq 0 B). rewrite bucket_loop_eq by lia. rewrite <- list_fmap_compose, length_fmap, length_seq.
      split_and!; [done|done| |].
      + rewrite parts_concat by lia. cbn [Nat.add]. rewrite cut_last by lia. unfold cut. cbn [Nat.mul]. rewrite Nat.Div0.div_0_l.
        rewrite drop_0, Nat.sub_0_r. by rewrite take_ge.
      + apply Forall_fmap, Forall_forall. intros b Hb%elem_of_seq. cbn. unfold part.
        pose proof (cut_step (length window) B b ltac:(lia)). pose proof (cut_le (length window) B (b + 1) ltac:(lia) ltac:(lia)).
        rewrite length_take, length_drop. lia. }
  exists parts. split_and!; try done. intros f c Hf.
  destruct (aggregate_summary f c data seconds Hf) as [-> _]. fold window. rewrite <- H3. clear -Hf.
  induction parts as [|g parts IH]; [done|]. cbn [concat fmap list_fmap]. rewrite total_app, total_cons.
  unfold summary at 1. rewrite (set_secs_field f c) by done.
  rewrite (foldl_add_counters f c), (default_field f c) by (rewrite ?(default_field f c) by done; unfold u_ok; done || lia).
  unfold wrap in *. rewrite Zplus_mod_idemp_l, Zplus_mod, IH, <- Zplus_mod. f_equal.
Qed.

(** The time buckets of the dashboard.  [bucket_aggregate] never panics and returns
    one entry per bucket; the entries summarise consecutive groups that partition the
    window [aggregate] sums (sizes differing by at most one), so for every counter the
    buckets add up to the aggregate (in 64-bit arithmetic); without samples every
    entry is zero. *)
Theorem stats_buckets_correct data seconds buckets :
  let B := Nat.max buckets 1 in
  let window := lastn (window_len data seconds) data in
  exists parts, bucket_aggregate data seconds buckets = Ret (summary <$> parts) /\
    length parts = B /\ concat parts = window /\
    Forall (fun g => length window / B <= length g <= length window / B + 1) parts /\
    forall f c, In (f, c) fields -> wrap 64 (total f (summary <$> parts)) = f (fst (aggregate data seconds)).
Proof. apply stats_buckets_spec. Qed.

(** ** The sampler *)

Section sampler.
Context (r0 : Reading) (ticks : list (Z * Reading)).

(** The counters at tick [i] (tick 0 is the initial reading) and its wall clock. *)
Definition reading_at (i : nat) : Reading := nth i (r0 :: (snd <$> ticks)) r0.
Definition time_at (i : nat) : Z := nth i (0%Z :: (fst <$> ticks)) 0%Z.

(** Process counters only grow, and fit 64 bits. *)
Definition counters_grow : Prop :=
  forall f c i j, In (f, c) fields -> i <= j <= length ticks ->
    (0 <= c (reading_at i) <= c (reading_at j) /\ c (reading_at j) < 2 ^ 64)%Z.

(** The per-second counts, and the per-minute samples, of [n] ticks. *)
Definition second_counts (n : nat) : list Z :=
  (fun i => c_queries (reading_at (i + 1)) - c_queries (reading_at i))%Z <$> seq 0 n.
Definition minute_samples (n : nat) : list StatsSample :=
  (fun j => snap_of (time_at (60 * (j + 1))) (reading_at (60 * (j + 1))) (reading_at (60 * j))) <$> seq 0 (n / 60).

Lemma qps_push_lastn l x : qps_push (lastn (Z.to_nat QPS_LEN) l) x = lastn (Z.to_nat QPS_LEN) (l ++ [x]).
Proof.
  rewrite <- lastn_app_lastn, <- lastn_push; [|unfold QPS_LEN; lia|rewrite length_lastn; lia].
  unfold qps_push. f_equal. assert (0 < QPS_LEN)%Z by done. repeat case_decide; lia || done.
Qed.

Lemma stats_push_lastn l x : stats_push (lastn (Z.to_nat STATS_RING_LEN) l) x = lastn (Z.to_nat STATS_RING_LEN) (l ++ [x]).
Proof.
  rewrite <- lastn_app_lastn, <- lastn_push; [|unfold STATS_RING_LEN; lia|rewrite length_lastn; lia].
  unfold stats_push. f_equal. assert (0 < STATS_RING_LEN)%Z by done. repeat case_decide; lia || done.
Qed.

Lemma sat_sub_add a b c : (0 <= a <= b)%Z -> (b <= c < 2 ^ 64)%Z -> wrap 64 (sat_sub b a + sat_sub c b) = sat_sub c a.
Proof. intros. unfold sat_sub, wrap. rewrite !Z.max_r by lia. rewrite Z.mod_small; lia. Qed.

Lemma acc_step t t' i j k : counters_grow -> i <= j -> j <= k <= length ticks ->
  add_counters (snap_of t (reading_at j) (reading_at i)) (snap_of t' (reading_at k) (reading_at j))
  = snap_of t (reading_at k) (reading_at i).
Proof.
  intros Hg Hij Hjk. unfold add_counters, snap_of. cbn [unix_secs s_queries s_cache_hits s_upstream_ok s_upstream_err s_filtered].
  f_equal.
  all: match goal with |- wrap 64 (sat_sub (?c _) _ + _) = _ =>
    let H1 := fresh in let H2 := fresh in
    assert (exists f, In (f, c) fields) as [f Hf] by (cbn [fields In]; eauto 8);
    pose proof (Hg f c i j Hf ltac:(lia)) as H1; pose proof (Hg f c j k Hf ltac:(lia)) as H2; apply sat_sub_add; lia end.
Qed.

Lemma snap_self t i : snap_of t (reading_at i) (reading_at i) = mkSample t 0 0 0 0 0.
Proof. unfold snap_of, sat_sub. by rewrite !Z.sub_diag. Qed.

Definition sampler_run (n : nat) : Sampler :=
  foldl (fun s '(now, cur) => sampler_tick s now cur) (sampler_new r0) (take n ticks).

Lemma sampler_run_S n : n < length ticks ->
  sampler_run (S n) = sampler_tick (sampler_run n) (time_at (n + 1)) (reading_at (n + 1)).
Proof.
  intros Hn. destruct (lookup_lt_is_Some_2 ticks n Hn) as [[t r] Ht]. unfold sampler_run.
  rewrite (take_S_r _ _ _ Ht), foldl_app. cbn [foldl]. unfold time_at, reading_at. rewrite Nat.add_1_r. cbn [nth].
  rewrite !nth_lookup, !list_lookup_fmap, Ht. done.
Qed.

Lemma minute_samples_S n : n mod 60 = 59 ->
  minute_samples (S n) = minute_samples n ++ [snap_of (time_at (n + 1)) (reading_at (n + 1)) (reading_at (60 * (n / 60)))].
Proof.
  intros Hm. unfold minute_samples. pose proof (Nat.div_mod_eq n 60).
  assert (S n / 60 = S (n / 60)) as -> by (symmetry; apply (Nat.div_unique _ _ _ 0); lia).
  rewrite seq_S, fmap_app. cbn [fmap list_fmap Nat.add]. do 3 f_equal; f_equal; lia.
Qed.

Lemma sampler_run_eq n : counters_grow -> n <= length ticks ->
  sampler_run n = mkSampler (reading_at n) (snap_of 0 (reading_at n) (reading_at (60 * (n / 60)))) (Z.of_nat (n mod 60))
    (lastn (Z.to_nat QPS_LEN) (second_counts n)) (lastn (Z.to_nat STATS_RING_LEN) (minute_samples n)).
Proof.
  intros Hg. induction n as [|n IH]; intros Hn.
  - unfold sampler_run. cbn [take foldl]. change (60 * (0 / 60)) with 0. rewrite snap_self. done.
  - rewrite sampler_run_S, IH by lia. unfold sampler_tick. cbn [prev stats_acc ticks_this_sample qps_ring stats_ring].
    pose proof (Nat.div_mod_eq n 60). pose proof (Nat.mod_upper_bound n 60 ltac:(lia)).
    rewrite acc_step by (done || lia). rewrite qps_push_lastn.
    assert (second_counts n ++ [s_queries (snap_of (time_at (n + 1)) (reading_at (n + 1)) (reading_at n))] = second_counts (S n)) as ->.
    { unfold second_counts. rewrite seq_S, fmap_app. cbn [fmap list_fmap Nat.add]. do 2 f_equal. unfold snap_of, sat_sub. cbn [s_queries].
      pose proof (Hg s_queries c_queries n (n + 1) ltac:(left; done) ltac:(lia)). lia. }
    rewrite (Nat.add_1_r n). case_decide as Hd; unfold STATS_SAMPLE_SECS in Hd.
    + assert (n mod 60 = 59) as Hm by lia.
      assert (S n / 60 = S (n / 60)) as Hq by (symmetry; apply (Nat.div_unique _ _ _ 0); lia).
      assert (S n mod 60 = 0) as -> by (symmetry; apply (Nat.mod_unique _ _ (S (n / 60))); lia).
      rewrite stats_push_lastn, minute_samples_S, Hq by done. rewrite (Nat.add_1_r n).
      replace (60 * S (n / 60)) with (S n) by lia. rewrite snap_self. done.
    + assert (S n / 60 = n / 60) as Hq by (symmetry; apply (Nat.div_unique _ _ _ (S (n mod 60))); lia).
      assert (S n mod 60 = S (n mod 60)) as -> by (symmetry; apply (Nat.mod_unique _ _ (n / 60)); lia).
      unfold minute_samples. rewrite Hq. f_equal. lia.
Qed.

End sampler.

(** The sampled history.  Whatever the counters do between ticks (they only grow),
    after any number of ticks the per-second ring holds the query counts of the last
    3600 seconds and [qps_snapshot] the last [n] of them; the sample ring holds, for each
    of the last 1440 full minutes, the time of its last tick and for every counter
    the exact growth over its 60 ticks. *)
Theorem sampler_correct r0 ticks n :
  counters_grow r0 ticks -> (0 <= n)%Z ->
  let s := foldl (fun s '(now, cur) => sampler_tick s now cur) (sampler_new r0) ticks in
  let k := length ticks in
  qps_ring s = lastn (Z.to_nat QPS_LEN) (second_counts r0 ticks k) /\
  qps_snapshot (qps_ring s) n = lastn (Z.to_nat (Z.min n QPS_LEN)) (second_counts r0 ticks k) /\
  stats_ring s = lastn (Z.to_nat STATS_RING_LEN) (minute_samples r0 ticks k) /\
  length (minute_samples r0 ticks k) = k / 60.
Proof.
  intros Hg Hn s k. assert (s = sampler_run r0 ticks k) as -> by (unfold sampler_run, k; by rewrite firstn_all).
  rewrite sampler_run_eq by done. cbn [qps_ring stats_ring]. split_and!; [done| |done|].
  - unfold qps_snapshot, lastn. set (l := second_counts r0 ticks k). rewrite drop_drop, length_drop. f_equal.
    unfold QPS_LEN. lia.
  - unfold minute_samples. by rewrite length_fmap, length_seq.
Qed.

(** Sixty-one ticks in which one query and one cache hit arrive per second. *)
Definition sample_ticks : list (Z * Reading) :=
  (fun i => (Z.of_nat i, mkReading (Z.of_nat i) (Z.of_nat i) 0 0 0)) <$> seq 1 61.

Lemma sample_ticks_grow : counters_grow (mkReading 0 0 0 0 0) sample_ticks.
Proof.
  intros f c i j Hf Hij. change (length sample_ticks) with 61 in Hij.
  assert (forall m, m <= 61 -> reading_at (mkReading 0 0 0 0 0) sample_ticks m = mkReading (Z.of_nat m) (Z.of_nat m) 0 0 0) as H.
  { intros [|m] Hm; [done|]. unfold reading_at, sample_ticks. cbn [nth].
    rewrite nth_lookup, !list_lookup_fmap, lookup_seq_lt by lia. done. }
  rewrite !H by lia. by_field Hf; cbn; lia.
Qed.

Lemma sampler_witness :
  let s := foldl (fun s '(now, cur) => sampler_tick s now cur) (sampler_new (mkReading 0 0 0 0 0)) sample_ticks in
  qps_snapshot (qps_ring s) 3 = [1; 1; 1]%Z /\ stats_ring s = [mkSample 60 60 60 0 0 0].
Proof.
  destruct (sampler_correct (mkReading 0 0 0 0 0) sample_ticks 3) as (_ & H2 & H3 & _);
    [apply sample_ticks_grow|lia|].
  intros s. split; [etransitivity; [exact H2|by vm_compute]|etransitivity; [exact H3|by vm_compute]].
Defined.
