(* ===== verification/QueryLog.v ===== *)
(** * Collection of query events

    [src/querylog/mod.rs]: the sharded counters, the handle through which resolver
    threads emit events into bounded per-shard channels, and [build]; and the worker loop
    of [src/querylog/worker.rs] that drains the channels into the ring (and a log file,
    a parameter here: [QueryHistory] supplies it).  One emission and one pass of the
    worker are atomic steps: emissions of threads that share a shard are serialised by
    the channel, and the worker is the only consumer. *)

From stdpp Require Import strings.
From S2P Require Import Prelude DnsName DnsQuery DnsRecords RustStr QueryRing.

(** ** Sharded counters *)

(** [SHARD_ID % shards]: [id] is the calling thread's number. *)
Definition thread_shard (id shards : nat) : nat := id mod shards.

Definition sharded_new (shards : nat) : list Z := replicate (Nat.max shards 1) 0%Z.

(** [ShardedCounter::fetch_add]: the slots afterwards. *)
Definition sharded_fetch_add (slots : list Z) (id : nat) (val : Z) : outcome (list Z) :=
  let i := thread_shard id (length slots) in
  let! old := idx slots i in
  store slots i (wrap 64 (old + val)).

Definition sharded_load (slots : list Z) : Z := foldl (fun acc s => wrap 64 (acc + s)) 0%Z slots.

(** ** The handle *)

Record LogCounters := mkLogCounters {
  events_enqueued : Z;
  events_processed : Z;
  events_dropped_full : Z;
  events_dropped_closed : Z;
  queue_high_watermark : Z;
  ring_evictions : Z;
  file_write_errors : Z
}.

Definition log_counters_new : LogCounters := mkLogCounters 0 0 0 0 0 0 0.

(** The channels: what each shard has buffered, the capacity of each, and whether the
    worker still holds the receivers. *)
Record Channels := mkChannels { shards : list (list QueryLogEvent); per_shard : nat; rx_open : bool }.

Record QueryLogHandle := mkHandle { txs : option Channels; next_seq : Z; log_counters : LogCounters }.

(** The number buffered in a shard ([max_capacity - capacity]). *)
Definition shard_depth (q : list QueryLogEvent) : nat := length q.

Definition queue_depth (h : QueryLogHandle) : nat :=
  match txs h with Some ch => sum_list (shard_depth <$> shards ch) | None => 0 end.

Definition try_emit_with (h : QueryLogHandle) (id : nat) (build : Z -> QueryLogEvent) : outcome QueryLogHandle :=
  match txs h with
  | None => Ret h
  | Some ch =>
      let i := thread_shard id (length (shards ch)) in
      let c := log_counters h in
      let! tx := idx (shards ch) i in
      if negb (rx_open ch) then
        Ret (mkHandle (txs h) (next_seq h)
          (mkLogCounters (events_enqueued c) (events_processed c) (events_dropped_full c)
             (wrap 64 (events_dropped_closed c + 1)) (queue_high_watermark c) (ring_evictions c) (file_write_errors c)))
      else if decide (per_shard ch <= length tx) then
        Ret (mkHandle (txs h) (next_seq h)
          (mkLogCounters (events_enqueued c) (events_processed c) (wrap 64 (events_dropped_full c + 1))
             (events_dropped_closed c) (queue_high_watermark c) (ring_evictions c) (file_write_errors c)))
      else
        let tx' := tx ++ [build (next_seq h)] in
        Ret (mkHandle (Some (mkChannels (<[i := tx']> (shards ch)) (per_shard ch) true)) (wrap 64 (next_seq h + 1))
          (mkLogCounters (wrap 64 (events_enqueued c + 1)) (events_processed c) (events_dropped_full c)
             (events_dropped_closed c) (Z.max (queue_high_watermark c) (Z.of_nat (shard_depth tx')))
             (ring_evictions c) (file_write_errors c)))
  end.

(** ** Construction *)

Record QueryLogFileConfig := mkFileConfig {
  fc_dir : list Z;
  max_mb : Z;
  max_segments : Z;
  batch_size : nat;
  flush_interval_ms : Z;
  retention_days : option Z;
  compress : bool
}.

Record QueryLogConfig := mkLogConfig {
  enabled : bool;
  memory : nat;
  channel : nat;
  cfg_shards : nat;
  file : option QueryLogFileConfig
}.

(** The handle, and the ring of the worker when events are collected. *)
Definition build (cfg : QueryLogConfig) : QueryLogHandle * option EventRing :=
  if negb (enabled cfg && (bool_decide (0 < memory cfg) || bool_decide (is_Some (file cfg)))) then
    (mkHandle None 0 log_counters_new, None)
  else
    let n := Nat.max 1 (Nat.min (cfg_shards cfg) 32) in
    let per := Nat.max (Nat.max (channel cfg) 64 / n) 16 in
    (mkHandle (Some (mkChannels (replicate n []) per true)) 0 log_counters_new, Some (ring_new (memory cfg))).

(** ** Draining *)

(** [for k in 0..n]: one event from each shard that has one, until the batch is full.
    Returns the shards, the batch, whether anything was taken and whether it is full. *)
Fixpoint drain_round (batch_size start k fuel : nat) (rxs : list (list QueryLogEvent)) (batch : list QueryLogEvent)
    (progressed : bool) : outcome (list (list QueryLogEvent) * list QueryLogEvent * bool * bool) :=
  match fuel with
  | 0 => Ret (rxs, batch, progressed, false)
  | S fuel =>
      let i := (start + k) mod length rxs in
      let! rx := idx rxs i in
      match rx with
      | ev :: rx' =>
          let rxs := <[i := rx']> rxs in
          let batch := batch ++ [ev] in
          if decide (batch_size <= length batch) then Ret (rxs, batch, true, true)
          else drain_round batch_size start (k + 1) fuel rxs batch true
      | [] => drain_round batch_size start (k + 1) fuel rxs batch progressed
      end
  end.

(** [while batch.len() < batch_size]; every round but the last takes an event. *)
Fixpoint drain_loop (fuel batch_size start : nat) (rxs : list (list QueryLogEvent)) (batch : list QueryLogEvent)
    : outcome (list (list QueryLogEvent) * list QueryLogEvent) :=
  match fuel with
  | 0 => OutOfFuel
  | S fuel =>
      if decide (batch_size <= length batch) then Ret (rxs, batch)
      else
        let! (rxs, batch, progressed, full) := drain_round batch_size start 0 (length rxs) rxs batch false in
        if full || negb progressed then Ret (rxs, batch) else drain_loop fuel batch_size start rxs batch
  end.

Definition drain_available (batch_size start : nat) (rxs : list (list QueryLogEvent)) (batch : list QueryLogEvent)
    : outcome (list (list QueryLogEvent) * list QueryLogEvent) :=
  drain_loop (S (batch_size - length batch)) batch_size start rxs batch.

Inductive poll (A : Type) := Pending | Ready (a : A).
Arguments Pending {A}.
Arguments Ready {A} a.

(** The closure of [poll_fn]: the first event found from shard [start] on, with the
    shard to start from next.  [open] says which shards still have senders. *)
Fixpoint poll_shards (open : list bool) (start k fuel : nat) (rxs : list (list QueryLogEvent)) (any_open : bool)
    : outcome (poll (option (QueryLogEvent * nat * list (list QueryLogEvent)))) :=
  match fuel with
  | 0 => Ret (if any_open then Pending else Ready None)
  | S fuel =>
      let i := (start + k) mod length rxs in
      let! rx := idx rxs i in
      match rx with
      | ev :: rx' => Ret (Ready (Some (ev, (i + 1) mod length rxs, <[i := rx']> rxs)))
      | [] =>
          let! o := idx open i in
          poll_shards open start (k + 1) fuel rxs (any_open || o)
      end
  end.

(** One poll of [recv_batch]: the batch, the shard to start from next and the shards. *)
Definition recv_batch (open : list bool) (rxs : list (list QueryLogEvent)) (start batch_size : nat)
    : outcome (poll (option (list QueryLogEvent * nat * list (list QueryLogEvent)))) :=
  let! first := poll_shards open start 0 (length rxs) rxs false in
  match first with
  | Pending => Ret Pending
  | Ready None => Ret (Ready None)
  | Ready (Some (ev, start, rxs)) =>
      let! (rxs, batch) := drain_available batch_size start rxs [ev] in
      Ret (Ready (Some (batch, start, rxs)))
  end.

(** ** Processing a batch *)

Section process.
Context {F : Type} (append : F -> list QueryLogEvent -> F * bool).

Definition process_batch (batch : list QueryLogEvent) (ring : EventRing) (c : LogCounters) (file_state : option F)
    : EventRing * LogCounters * option F :=
  let processed := wrap 64 (events_processed c + Z.of_nat (length batch)) in
  let '(ring, evicted) :=
    if ring_enabled ring then let '(r, e, _) := push_batch ring batch in (r, e) else (ring, 0%Z) in
  let evictions := if decide (0 < evicted)%Z then wrap 64 (ring_evictions c + evicted) else ring_evictions c in
  let counted errors := mkLogCounters (events_enqueued c) processed (events_dropped_full c) (events_dropped_closed c)
                          (queue_high_watermark c) evictions errors in
  match file_state with
  | None => (ring, counted (file_write_errors c), None)
  | Some fs =>
      let '(fs, ok) := append fs batch in
      if ok : bool then (ring, counted (file_write_errors c), Some fs)
      else (ring, counted (wrap 64 (file_write_errors c + 1)), None)
  end.

(** The shutdown branch of [run]: process what is buffered until nothing is left. *)
Fixpoint shutdown_drain (fuel batch_size start : nat) (rxs : list (list QueryLogEvent)) (ring : EventRing)
    (c : LogCounters) (file_state : option F)
    : outcome (list (list QueryLogEvent) * EventRing * LogCounters * option F) :=
  match fuel with
  | 0 => OutOfFuel
  | S fuel =>
      let! (rxs, batch) := drain_available batch_size start rxs [] in
      match batch with
      | [] => Ret (rxs, ring, c, file_state)
      | _ =>
          let '(ring, c, file_state) := process_batch batch ring c file_state in
          shutdown_drain fuel batch_size start rxs ring c file_state
      end
  end.

End process.

(** ** Sharded counters count everything *)

Lemma sharded_load_eq slots : sharded_load slots = wrap 64 (foldr Z.add 0%Z slots).
Proof.
  unfold sharded_load. assert (forall a, u_ok 64 a -> foldl (fun acc s => wrap 64 (acc + s)) a slots = wrap 64 (a + foldr Z.add 0%Z slots)) as H.
  { induction slots as [|s slots IH]; intros a Ha; cbn [foldl foldr]; unfold wrap in *.
    - by rewrite Z.add_0_r, Z.mod_small.
    - rewrite IH by (apply Z.mod_pos_bound; lia). rewrite Zplus_mod_idemp_l. f_equal. lia. }
  rewrite H by (unfold u_ok; lia). done.
Qed.

Lemma sum_insert (l : list Z) i x y : l !! i = Some x -> foldr Z.add 0%Z (<[i := y]> l) = (foldr Z.add 0 l - x + y)%Z.
Proof.
  revert i. induction l as [|z l IH]; intros [|i] H; try done.
  - injection H as ->. cbn [insert list_insert foldr]. lia.
  - change (<[S i := y]> (z :: l)) with (z :: <[i := y]> l). cbn [foldr]. rewrite (IH _ H). lia.
Qed.

(** A sharded counter is a counter.  Whatever threads add, in whatever order, every
    addition succeeds and the value read is the sum of all additions, modulo [2^64]:
    nothing is lost by spreading it over the shards. *)
Theorem sharded_counter_correct shards (adds : list (nat * Z)) :
  exists slots, foldl (fun m '(id, val) => let! s := m in sharded_fetch_add s id val) (Ret (sharded_new shards)) adds = Ret slots /\
    sharded_load slots = wrap 64 (foldr Z.add 0%Z (snd <$> adds)).
Proof.
  induction adds as [|[id val] adds IH] using rev_ind.
  - exists (sharded_new shards). split; [done|]. rewrite sharded_load_eq. unfold sharded_new. f_equal.
    induction (Nat.max shards 1); [done|]. cbn in *. lia.
  - destruct IH as (slots & Hs & Hl). rewrite foldl_app, Hs. cbn [foldl obind].
    assert (length slots <> 0) as Hn.
    { clear Hl. revert slots Hs. induction adds as [|[i v] adds IH] using rev_ind; intros slots.
      - intros [= <-]. unfold sharded_new. rewrite length_replicate. lia.
      - rewrite foldl_app. cbn [foldl]. intros H. apply obind_Ret_inv in H as (s & Hs & H).
        unfold sharded_fetch_add in H. apply obind_Ret_inv in H as (x & _ & H). unfold store in H. case_decide; [|done].
        injection H as <-. rewrite length_insert. by apply IH. }
    unfold sharded_fetch_add, thread_shard. pose proof (Nat.mod_upper_bound id (length slots) Hn) as Hi.
    destruct (lookup_lt_is_Some_2 slots _ Hi) as [x Hx]. rewrite (idx_lookup _ _ x Hx). cbn [obind].
    rewrite store_Ret by done. eexists. split; [done|].
    rewrite sharded_load_eq in *. rewrite (sum_insert _ _ x) by done. rewrite fmap_app, foldr_app. cbn [fmap list_fmap foldr snd].
    assert (forall l a, foldr Z.add a l = (foldr Z.add 0 l + a)%Z) as Hf.
    { clear. intros l a. induction l as [|y l IH]; cbn; lia. }
    rewrite (Hf _ (val + 0)%Z), Z.add_0_r. unfold wrap in *. rewrite Zplus_mod_idemp_r.
    replace (foldr Z.add 0 slots - x + (x + val))%Z with (foldr Z.add 0 slots + val)%Z by lia.
    rewrite <- Zplus_mod_idemp_l, Hl, Zplus_mod_idemp_l. done.
Qed.

(** ** Draining takes events from the fronts of the shards *)

Inductive takes : list (list QueryLogEvent) -> list QueryLogEvent -> list (list QueryLogEvent) -> Prop :=
| takes_nil s : takes s [] s
| takes_cons s i ev rest es s' :
    s !! i = Some (ev :: rest) -> takes (<[i := rest]> s) es s' -> takes s (ev :: es) s'.

Lemma takes_app s es s1 fs s2 : takes s es s1 -> takes s1 fs s2 -> takes s (es ++ fs) s2.
Proof. induction 1; [done|]. intros. eapply takes_cons; eauto. Qed.

Lemma takes_length s es s' : takes s es s' -> length s' = length s.
Proof. induction 1 as [|s i ev rest es s' Hi Ht IH]; [done|]. by rewrite IH, length_insert. Qed.

Lemma concat_insert_perm {A} (s : list (list A)) i x rest :
  s !! i = Some (x :: rest) -> concat s ≡ₚ x :: concat (<[i := rest]> s).
Proof.
  revert i. induction s as [|q s IH]; intros [|i] H; try done.
  - by injection H as ->.
  - change (<[S i := rest]> (q :: s)) with (q :: <[i := rest]> s). cbn [concat]. rewrite (IH _ H). by rewrite Permutation_middle.
Qed.

Lemma concat_insert_snoc {A} (s : list (list A)) i q x :
  s !! i = Some q -> concat (<[i := q ++ [x]]> s) ≡ₚ concat s ++ [x].
Proof.
  revert i. induction s as [|r s IH]; intros [|i] H; try done.
  - injection H as ->. cbn [insert list_insert concat]. rewrite <- !app_assoc. f_equiv. apply Permutation_app_comm.
  - change (<[S i := q ++ [x]]> (r :: s)) with (r :: <[i := q ++ [x]]> s). cbn [concat]. by rewrite (IH _ H), app_assoc.
Qed.

Lemma takes_perm s es s' : takes s es s' -> concat s ≡ₚ es ++ concat s'.
Proof.
  induction 1 as [|s i ev rest es s' Hi Ht IH]; [done|]. by rewrite (concat_insert_perm _ _ _ _ Hi), IH.
Qed.

Lemma takes_shorter P s es s' : takes s es s' -> Forall (fun q => length q <= P) s -> Forall (fun q => length q <= P) s'.
Proof.
  induction 1 as [|s i ev rest es s' Hi Ht IH]; [done|]. intros H. apply IH, Forall_insert; [done|].
  pose proof (Forall_lookup_1 _ _ _ _ H Hi) as Hl. cbn [length] in Hl. lia.
Qed.

Lemma drain_round_spec bs start fuel k rxs batch p :
  length batch < bs -> (fuel = 0 \/ rxs <> []) ->
  exists rxs' es p' full, drain_round bs start k fuel rxs batch p = Ret (rxs', batch ++ es, p', full) /\
    takes rxs es rxs' /\ length (batch ++ es) <= bs /\ (full = true <-> length (batch ++ es) = bs) /\
    (p' = true <-> p = true \/ es <> []) /\
    (es = [] -> forall j, k <= j < k + fuel -> rxs !! ((start + j) mod length rxs) = Some []).
Proof.
  revert k rxs batch p. induction fuel as [|fuel IH]; intros k rxs batch p Hb Hn; cbn [drain_round].
  - exists rxs, [], p, false. rewrite app_nil_r. split_and!; [done|constructor|lia|split; [done|lia]|tauto|intros _ j; lia].
  - assert (length rxs <> 0) as Hn' by (destruct Hn as [|Hn]; [done|by destruct rxs]).
    pose proof (Nat.mod_upper_bound (start + k) (length rxs) Hn') as Hi.
    destruct (lookup_lt_is_Some_2 rxs _ Hi) as [rx Hx]. rewrite (idx_lookup _ _ rx Hx). cbn [obind].
    destruct rx as [|ev rx].
    + destruct (IH (k + 1) rxs batch p Hb ltac:(right; by destruct rxs)) as (rxs' & es & p' & full & H1 & H2 & H3 & H4 & H5 & H6).
      exists rxs', es, p', full. split_and!; try done. intros -> j Hj. destruct (decide (j = k)) as [->|]; [done|apply H6; [done|lia]].
    + set (rxs1 := <[_ := rx]> rxs). case_decide as Hd.
      * exists rxs1, [ev], true, true. rewrite length_app in *. cbn [length] in *.
        split_and!; [done|eapply takes_cons; [done|constructor]|lia|split; [lia|done]| |done]. split; [by right|done].
      * rewrite length_app in Hd. cbn [length] in Hd.
        destruct (IH (k + 1) rxs1 (batch ++ [ev]) true) as (rxs' & es & p' & full & H1 & H2 & H3 & H4 & H5 & H6).
        { rewrite length_app. cbn [length]. lia. }
        { right. unfold rxs1. intros He%(f_equal length). rewrite length_insert in He. done. }
        exists rxs', (ev :: es), p', full. rewrite <- app_assoc in *. cbn [app] in *.
        split_and!; [done|by eapply takes_cons|done|done| |done]. rewrite H5. split; [by right|tauto].
Qed.

(** Counting on from [start], modulo [n], every index comes up. *)
Lemma rotation_hits start n i : i < n -> exists j, j < n /\ (start + j) mod n = i.
Proof.
  intros Hlt. pose proof (Nat.mod_upper_bound start n ltac:(lia)). pose proof (Nat.div_mod_eq start n).
  destruct (decide (start mod n <= i)).
  - exists (i - start mod n). split; [lia|]. symmetry. apply (Nat.mod_unique _ _ (start / n)); lia.
  - exists (n + i - start mod n). split; [lia|]. symmetry. apply (Nat.mod_unique _ _ (start / n + 1)); lia.
Qed.

Lemma all_shards_visited start (rxs : list (list QueryLogEvent)) :
  (forall j, j < length rxs -> rxs !! ((start + j) mod length rxs) = Some []) -> Forall (fun q => q = []) rxs.
Proof.
  intros H. apply Forall_lookup. intros i q Hi. pose proof (lookup_lt_Some _ _ _ Hi) as Hlt. set (n := length rxs) in *.
  destruct (rotation_hits start n i Hlt) as (j & Hj & Hji).
  specialize (H j Hj). rewrite Hji, Hi in H. by injection H.
Qed.

Lemma drain_loop_spec fuel bs start rxs batch :
  bs - length batch < fuel ->
  exists rxs' es, drain_loop fuel bs start rxs batch = Ret (rxs', batch ++ es) /\ takes rxs es rxs' /\
    length (batch ++ es) <= Nat.max bs (length batch) /\ (length (batch ++ es) < bs -> Forall (fun q => q = []) rxs').
Proof.
  revert rxs batch. induction fuel as [|fuel IH]; intros rxs batch Hf; [lia|]. cbn [drain_loop]. case_decide as Hd.
  - exists rxs, []. rewrite app_nil_r. split_and!; [done|constructor|lia|lia].
  - destruct (drain_round_spec bs start (length rxs) 0 rxs batch false) as (rxs1 & es & p & full & -> & H2 & H3 & H4 & H5 & H6);
      [lia|destruct rxs; [by left|by right]|]. cbn [obind].
    destruct (decide (es = [])) as [->|He].
    + assert (p = false) as -> by (destruct p; [|done]; destruct H5 as [H5 _]; destruct (H5 eq_refl); done).
      rewrite orb_true_r. exists rxs1, []. split_and!; [done|done|lia|].
      intros _. inversion H2; subst. apply (all_shards_visited start). intros j Hj. apply H6; [done|lia].
    + assert (p = true) as -> by (apply H5; by right). cbn [negb]. rewrite orb_false_r. destruct full.
      * exists rxs1, es. destruct H4 as [H4 _]. specialize (H4 eq_refl). split_and!; [done|done|lia|lia].
      * destruct (IH rxs1 (batch ++ es)) as (rxs' & fs & H7 & H8 & H9 & H10).
        { rewrite length_app. assert (length es <> 0) by by destruct es. lia. }
        exists rxs', (es ++ fs). rewrite <- app_assoc in *. split_and!; [done|by eapply takes_app|lia|done].
Qed.

(** Draining never blocks, never panics and never fails to return: whatever is
    buffered, the batch is extended by events taken from the fronts of the shards,
    one after the other, up to the batch size; and if it stays below the batch
    size nothing is left in any shard. *)
Lemma drain_available_spec bs start rxs batch :
  exists rxs' es, drain_available bs start rxs batch = Ret (rxs', batch ++ es) /\ takes rxs es rxs' /\
    length (batch ++ es) <= Nat.max bs (length batch) /\ (length (batch ++ es) < bs -> Forall (fun q => q = []) rxs').
Proof. apply drain_loop_spec. lia. Qed.

(** ** Receiving a batch *)

(** [i] is the first shard with a buffered event, [m] places after [start]. *)
Definition first_ready (rxs : list (list QueryLogEvent)) (start m i : nat) : Prop :=
  i = (start + m) mod length rxs /\ m < length rxs /\
  forall j, j < m -> rxs !! ((start + j) mod length rxs) = Some [].

Lemma poll_shards_spec open start rxs k fuel b :
  length open = length rxs -> rxs <> [] -> k + fuel = length rxs ->
  (forall j, j < k -> rxs !! ((start + j) mod length rxs) = Some []) ->
  match poll_shards open start k fuel rxs b with
  | Ret (Ready (Some (ev, start', rxs'))) =>
      exists m i rest, first_ready rxs start m i /\ rxs !! i = Some (ev :: rest) /\
        start' = (i + 1) mod length rxs /\ rxs' = <[i := rest]> rxs
  | Ret (Ready None) => b = false /\ Forall (fun q => q = []) rxs /\
      forall j, k <= j < length rxs -> open !! ((start + j) mod length rxs) = Some false
  | Ret Pending => Forall (fun q => q = []) rxs /\ (b = true \/ true ∈ open)
  | _ => False
  end.
Proof.
  intros Ho Hn. revert k b. induction fuel as [|fuel IH]; intros k b Hk Hj; cbn [poll_shards].
  - replace k with (length rxs) in Hj by lia. apply all_shards_visited in Hj as He.
    destruct b; [by split; [|left]|]. split_and!; [done|done|intros; lia].
  - assert (length rxs <> 0) as Hn' by by destruct rxs.
    pose proof (Nat.mod_upper_bound (start + k) (length rxs) Hn') as Hi.
    destruct (lookup_lt_is_Some_2 rxs _ Hi) as [rx Hx]. rewrite (idx_lookup _ _ rx Hx). cbn [obind].
    destruct rx as [|ev rx].
    + destruct (lookup_lt_is_Some_2 open ((start + k) mod length rxs)) as [o Hop]; [lia|].
      rewrite (idx_lookup _ _ o Hop). cbn [obind].
      assert (forall j, j < k + 1 -> rxs !! ((start + j) mod length rxs) = Some []) as Hj'.
      { intros j ?. destruct (decide (j = k)) as [->|]; [done|apply Hj; lia]. }
      specialize (IH (k + 1) (b || o) ltac:(lia) Hj'). destruct (poll_shards _ _ _ _ _ _) as [[|[[[ev start'] rxs']|]]| |]; try done.
      * destruct IH as [? [Hb|?]]; split; auto. apply orb_true_iff in Hb as [->| ->]; [by left|right]. by eapply list_elem_of_lookup_2.
      * destruct IH as (Hb & H2 & H3). apply orb_false_iff in Hb as [-> ->]. split_and!; [done|done|].
        intros j ?. destruct (decide (j = k)) as [->|]; [done|apply H3; lia].
    + exists k, ((start + k) mod length rxs), rx. split_and!; try done. split_and!; [done|lia|done].
Qed.

(** The outcome of one poll: a batch when some shard has an event, nothing for good
    only when every shard is empty and closed, waiting otherwise. *)
Lemma recv_batch_spec open rxs start bs :
  length open = length rxs -> rxs <> [] ->
  match recv_batch open rxs start bs with
  | Ret (Ready (Some (batch, start', rxs'))) =>
      takes rxs batch rxs' /\ batch <> [] /\ length batch <= Nat.max bs 1 /\
      (length batch < bs -> Forall (fun q => q = []) rxs') /\
      exists m i ev rest es, first_ready rxs start m i /\ rxs !! i = Some (ev :: rest) /\ batch = ev :: es /\
        start' = (i + 1) mod length rxs
  | Ret (Ready None) => Forall (fun q => q = []) rxs /\ Forall (fun o => o = false) open
  | Ret Pending => Forall (fun q => q = []) rxs /\ true ∈ open
  | _ => False
  end.
Proof.
  intros Ho Hn. unfold recv_batch.
  pose proof (poll_shards_spec open start rxs 0 (length rxs) false Ho Hn eq_refl ltac:(lia)) as H.
  destruct (poll_shards _ _ _ _ _ _) as [[|[[[ev start'] rxs1]|]]| |]; cbn [obind]; try done.
  - destruct H as [H [?|H2]]; [done|by split].
  - destruct H as (m & i & rest & Hf & Hi & -> & ->).
    destruct (drain_available_spec bs ((i + 1) mod length rxs) (<[i := rest]> rxs) [ev]) as (rxs' & es & -> & H2 & H3 & H4).
    cbn [obind app] in *. split_and!; [by eapply takes_cons|done|cbn [length] in *; lia|done|].
    by exists m, i, ev, rest, es.
  - destruct H as (_ & H2 & H3). split; [done|]. apply Forall_lookup. intros i o Hi.
    pose proof (lookup_lt_Some _ _ _ Hi) as Hlt. set (n := length rxs) in *. rewrite Ho in Hlt.
    destruct (rotation_hits start n i Hlt) as (j & Hj & Hji).
    specialize (H3 j ltac:(lia)). rewrite Hji, Hi in H3. by injection H3.
Qed.

(** ** No shard is starved *)

Lemma takes_front s es s' i ev rest :
  takes s es s' -> s !! i = Some (ev :: rest) -> ev ∈ es \/ s' !! i = Some (ev :: rest).
Proof.
  induction 1 as [|s j e r es s' Hj Ht IH]; intros Hi; [by right|]. destruct (decide (i = j)) as [->|Hne].
  - rewrite Hi in Hj. injection Hj as -> _. left. by left.
  - destruct IH as [H|H]; [by rewrite list_lookup_insert_ne|left; by right|by right].
Qed.

(** A run of the worker: at each pass it receives a batch, and meanwhile the threads
    may have appended to any shard. *)
Definition worker_run (bs : nat) (open : list bool) (rx : nat -> list (list QueryLogEvent)) (start : nat -> nat)
    (batch : nat -> list QueryLogEvent) : Prop :=
  forall t, length (rx t) = length open /\ rx t <> [] /\
    exists left, recv_batch open (rx t) (start t) bs = Ret (Ready (Some (batch t, start (S t), left))) /\
      forall i q, left !! i = Some q -> exists more, rx (S t) !! i = Some (q ++ more).

Lemma start_distance n start i m d :
  i < n -> d < n -> m < d -> (start + d) mod n = i -> ((start + m) mod n + 1) mod n = (start + m + 1) mod n /\
  ((start + m + 1) mod n + (d - m - 1)) mod n = i.
Proof.
  intros Hi Hd Hm <-. split.
  - by rewrite Nat.Div0.add_mod_idemp_l.
  - rewrite Nat.Div0.add_mod_idemp_l. f_equal. lia.
Qed.

Lemma starve_aux bs open rx start batch i ev t d rest :
  worker_run bs open rx start batch -> i < length open -> d < length open ->
  (start t + d) mod length open = i -> rx t !! i = Some (ev :: rest) ->
  exists t', t <= t' <= t + d /\ ev ∈ batch t'.
Proof.
  intros Hr Hi. revert t rest. induction (lt_wf d) as [d _ IH]. intros t rest Hd Hdi Hq.
  destruct (Hr t) as (Hl & Hn & left & Hrecv & Hmore).
  pose proof (recv_batch_spec open (rx t) (start t) bs ltac:(lia) Hn) as H. rewrite Hrecv in H.
  destruct H as (Ht & _ & _ & _ & m & i' & ev' & rest' & es & (-> & Hm & Hemp) & Hi' & Hb & Hst). rewrite Hl in *.
  destruct (takes_front _ _ _ _ _ _ Ht Hq) as [Hin|Hstay]; [exists t; split; [lia|done]|].
  destruct (decide (m < d)) as [Hmd|Hmd].
  - destruct (Hmore _ _ Hstay) as [more Hq']. destruct (start_distance (length open) (start t) i m d) as [E1 E2]; [done..|].
    destruct (IH (d - m - 1) ltac:(lia) (S t) (rest ++ more) ltac:(lia)) as (t' & Ht' & Hin).
    { by rewrite Hst, E1. }
    { done. }
    exists t'. split; [lia|done].
  - destruct (decide (m = d)) as [->|Hne].
    + rewrite Hdi, Hq in Hi'. injection Hi' as <- _. exists t. split; [lia|]. rewrite Hb. by left.
    + specialize (Hemp d ltac:(lia)). rewrite Hdi, Hq in Hemp. done.
Qed.

(** No shard is starved.  However many events the other shards keep receiving, and
    whatever the batch size, the event at the front of a shard is in one of the
    next batches, at most as many as there are shards. *)
Theorem no_shard_starves bs open rx start batch i ev rest :
  worker_run bs open rx start batch -> rx 0 !! i = Some (ev :: rest) ->
  exists t, t < length open /\ ev ∈ batch t.
Proof.
  intros Hr Hq. destruct (Hr 0) as (Hl & _). pose proof (lookup_lt_Some _ _ _ Hq) as Hi. rewrite Hl in Hi.
  destruct (rotation_hits (start 0) _ i Hi) as (d & Hd & Hdi).
  destruct (starve_aux bs open rx start batch i ev 0 d rest) as (t & Ht & Hin); try done.
  exists t. split; [lia|done].
Qed.

(** ** Accounting of the pipeline *)

(** The whole pipeline with its history: the emissions attempted, the events
    accepted into a channel, the events the worker has processed, and those of them
    processed since the ring was last cleared. *)
Record LogWorld := mkLogWorld {
  lw_handle : QueryLogHandle;
  lw_ring : EventRing;
  lw_start : nat;
  attempts : nat;
  accepted : list QueryLogEvent;
  delivered : list QueryLogEvent;
  since : list QueryLogEvent
}.

Definition with_shards (h : QueryLogHandle) (rxs : list (list QueryLogEvent)) (c : LogCounters) : QueryLogHandle :=
  mkHandle (match txs h with Some ch => Some (mkChannels rxs (per_shard ch) (rx_open ch)) | None => None end) (next_seq h) c.

Section pipeline.
Context {F : Type} (append : F -> list QueryLogEvent -> F * bool) (bs : nat).

Inductive log_step : LogWorld -> LogWorld -> Prop :=
| log_emit w id build h' :
    (forall s, ev_seq (build s) = s) ->
    try_emit_with (lw_handle w) id build = Ret h' ->
    log_step w (mkLogWorld h' (lw_ring w) (lw_start w) (S (attempts w))
      (accepted w ++ (if decide (next_seq h' = next_seq (lw_handle w)) then [] else [build (next_seq (lw_handle w))]))
      (delivered w) (since w))
| log_work w ch open batch start' rxs' file_state ring' c' file_state' :
    txs (lw_handle w) = Some ch -> rx_open ch = true -> length open = length (shards ch) ->
    recv_batch open (shards ch) (lw_start w) bs = Ret (Ready (Some (batch, start', rxs'))) ->
    process_batch append batch (lw_ring w) (log_counters (lw_handle w)) file_state = (ring', c', file_state') ->
    log_step w (mkLogWorld (with_shards (lw_handle w) rxs' c') ring' start' (attempts w) (accepted w)
      (delivered w ++ batch) (since w ++ batch))
| log_clear w :
    log_step w (mkLogWorld (lw_handle w) (ring_clear (lw_ring w)) (lw_start w) (attempts w) (accepted w) (delivered w) [])
| log_close w ch :
    txs (lw_handle w) = Some ch ->
    log_step w (mkLogWorld (mkHandle (Some (mkChannels (shards ch) (per_shard ch) false)) (next_seq (lw_handle w))
      (log_counters (lw_handle w))) (lw_ring w) (lw_start w) (attempts w) (accepted w) (delivered w) (since w)).

Inductive log_reachable (h0 : QueryLogHandle) (r0 : EventRing) : LogWorld -> Prop :=
| log_init : log_reachable h0 r0 (mkLogWorld h0 r0 0 0 [] [] [])
| log_next w w' : log_reachable h0 r0 w -> log_step w w' -> log_reachable h0 r0 w'.

(** What the counters and buffers say about the history, as long as fewer than [2^64]
    emissions were attempted. *)
Definition log_accounts (cap : nat) (w : LogWorld) : Prop :=
  exists ch, txs (lw_handle w) = Some ch /\ shards ch <> [] /\
    accepted w ≡ₚ delivered w ++ concat (shards ch) /\
    Forall (fun q => length q <= per_shard ch) (shards ch) /\
    (0 <= queue_high_watermark (log_counters (lw_handle w)) <= Z.of_nat (per_shard ch))%Z /\
    ring_capacity (lw_ring w) = cap /\ ring_buf (lw_ring w) = lastn cap (since w) /\
    let c := log_counters (lw_handle w) in
    (events_enqueued c = Z.of_nat (length (accepted w)) /\ next_seq (lw_handle w) = Z.of_nat (length (accepted w)) /\
     events_processed c = Z.of_nat (length (delivered w)) /\
     0 <= events_dropped_full c /\ 0 <= events_dropped_closed c /\
     events_enqueued c + events_dropped_full c + events_dropped_closed c = Z.of_nat (attempts w))%Z /\
    forall k ev, accepted w !! k = Some ev -> ev_seq ev = Z.of_nat k.

Lemma wrap_small z : (0 <= z < 2 ^ 64)%Z -> wrap 64 z = z.
Proof. intros. unfold wrap. by rewrite Z.mod_small. Qed.

Lemma accounts_emit cap w id build h' :
  log_accounts cap w -> (forall s, ev_seq (build s) = s) -> (Z.of_nat (S (attempts w)) < 2 ^ 64)%Z ->
  try_emit_with (lw_handle w) id build = Ret h' ->
  log_accounts cap (mkLogWorld h' (lw_ring w) (lw_start w) (S (attempts w))
    (accepted w ++ (if decide (next_seq h' = next_seq (lw_handle w)) then [] else [build (next_seq (lw_handle w))]))
    (delivered w) (since w)).
Proof.
  intros (ch & Htx & Hne & Hp & Hf & Hw & Hc & Hr & (H1 & H2 & H3 & H4 & H5 & H6) & Hs) Hb Ha He.
  unfold try_emit_with in He. rewrite Htx in He.
  assert (length (shards ch) <> 0) as Hn by by destruct (shards ch).
  pose proof (Nat.mod_upper_bound id (length (shards ch)) Hn) as Hi. unfold thread_shard in He.
  destruct (lookup_lt_is_Some_2 (shards ch) _ Hi) as [q Hq]. rewrite (idx_lookup _ _ q Hq) in He. cbn [obind] in He.
  pose proof (Forall_lookup_1 _ _ _ _ Hf Hq) as Hql. cbn in Hql.
  destruct (rx_open ch) eqn:Hop; cbn [negb] in He; [case_decide as Hd|].
  - injection He as <-. exists ch. cbn [lw_handle txs next_seq log_counters lw_ring accepted delivered since attempts
      events_enqueued events_processed events_dropped_full events_dropped_closed queue_high_watermark].
    rewrite decide_True, app_nil_r by done. rewrite wrap_small by lia. split_and!; try done; lia.
  - injection He as <-. eexists. cbn [lw_handle txs next_seq log_counters lw_ring accepted delivered since attempts
      events_enqueued events_processed events_dropped_full events_dropped_closed queue_high_watermark].
    split; [done|]. cbn [shards per_shard].
    rewrite !wrap_small by lia. rewrite decide_False by lia. rewrite !length_app. cbn [length shard_depth].
    split_and!; try done; try lia.
    + intros E%(f_equal length). by rewrite length_insert in E.
    + rewrite Hp, <- app_assoc, (concat_insert_snoc _ _ _ _ Hq). done.
    + apply Forall_insert; [done|]. rewrite length_app. cbn [length]. lia.
    + unfold shard_depth. rewrite length_app. cbn [length]. lia.
    + intros k ev Hk. apply lookup_app_Some in Hk as [Hk|[Hk1 Hk2]]; [by apply Hs|].
      apply list_lookup_singleton_Some in Hk2 as [Hk2 <-]. rewrite Hb. lia.
  - injection He as <-. exists ch. cbn [lw_handle txs next_seq log_counters lw_ring accepted delivered since attempts
      events_enqueued events_processed events_dropped_full events_dropped_closed queue_high_watermark].
    rewrite decide_True, app_nil_r by done. rewrite wrap_small by lia. split_and!; try done; lia.
Qed.

(** What a batch does to the ring. *)
Lemma batch_to_ring (batch : list QueryLogEvent) ring ring' e :
  length (ring_buf ring) <= ring_capacity ring ->
  (if ring_enabled ring then let '(r, e, _) := push_batch ring batch in (r, e) else (ring, 0%Z)) = (ring', e) ->
  ring_capacity ring' = ring_capacity ring /\ ring_buf ring' = lastn (ring_capacity ring) (ring_buf ring ++ batch).
Proof.
  intros Hl Hr. unfold ring_enabled in Hr. case_bool_decide as Hc.
  - unfold push_batch in Hr. case_decide as Hd.
    + injection Hr as <- _. destruct Hd as [?| ->]; [lia|]. by rewrite app_nil_r, lastn_all.
    + rewrite push_loop_eq in Hr by (done || (unfold u_ok; lia)). by injection Hr as <- _.
  - injection Hr as <- _. split; [done|]. replace (ring_capacity ring) with 0 by lia. unfold lastn.
    rewrite Nat.sub_0_r, drop_all. destruct (ring_buf ring); [done|]. cbn [length] in Hl. lia.
Qed.

Lemma process_batch_spec (batch : list QueryLogEvent) ring c fs ring' c' fs' :
  length (ring_buf ring) <= ring_capacity ring ->
  process_batch append batch ring c fs = (ring', c', fs') ->
  ring_capacity ring' = ring_capacity ring /\
  ring_buf ring' = lastn (ring_capacity ring) (ring_buf ring ++ batch) /\
  events_processed c' = wrap 64 (events_processed c + Z.of_nat (length batch)) /\
  events_enqueued c' = events_enqueued c /\ events_dropped_full c' = events_dropped_full c /\
  events_dropped_closed c' = events_dropped_closed c /\ queue_high_watermark c' = queue_high_watermark c.
Proof.
  intros Hl Hp. unfold process_batch in Hp.
  destruct (if ring_enabled ring then _ else _) as [r e] eqn:Hr. apply batch_to_ring in Hr; [|done].
  destruct fs as [fs|]; [destruct (append fs batch) as [? []]|]; injection Hp as <- <- _; by destruct Hr.
Qed.

Lemma accounts_work cap w ch open batch start' rxs' fs ring' c' fs' :
  log_accounts cap w -> (Z.of_nat (attempts w) < 2 ^ 64)%Z ->
  txs (lw_handle w) = Some ch -> length open = length (shards ch) ->
  recv_batch open (shards ch) (lw_start w) bs = Ret (Ready (Some (batch, start', rxs'))) ->
  process_batch append batch (lw_ring w) (log_counters (lw_handle w)) fs = (ring', c', fs') ->
  log_accounts cap (mkLogWorld (with_shards (lw_handle w) rxs' c') ring' start' (attempts w) (accepted w)
    (delivered w ++ batch) (since w ++ batch)).
Proof.
  intros (ch' & Htx & Hne & Hp & Hf & Hw & Hc & Hr & (H1 & H2 & H3 & H4 & H5 & H6) & Hs) Ha Htx' Ho Hrecv Hproc.
  rewrite Htx in Htx'. injection Htx' as ->.
  pose proof (recv_batch_spec open (shards ch) (lw_start w) bs Ho Hne) as Hb. rewrite Hrecv in Hb.
  destruct Hb as (Ht & _). apply process_batch_spec in Hproc as (G1 & G2 & G3 & G4 & G5 & G6 & G7);
    [|rewrite Hr, Hc, length_lastn; lia].
  pose proof (takes_perm _ _ _ Ht) as Hperm. rewrite Hperm, app_assoc in Hp.
  apply Permutation_length in Hp as Hlen. rewrite !length_app in Hlen.
  unfold with_shards. rewrite Htx. eexists.
  cbn [lw_handle txs next_seq log_counters lw_ring accepted delivered since attempts]. split; [done|]. cbn [shards per_shard].
  rewrite G1, G3, G4, G5, G6, G7, wrap_small, length_app by lia. split_and!; try done; try lia.
  - intros ->. apply takes_length in Ht. by destruct (shards ch).
  - by eapply takes_shorter.
  - by rewrite G2, Hr, Hc, lastn_app_lastn.
Qed.

Lemma log_reachable_accounts h0 r0 cfg w :
  build cfg = (h0, Some r0) -> log_reachable h0 r0 w -> (Z.of_nat (attempts w) < 2 ^ 64)%Z -> log_accounts (memory cfg) w.
Proof.
  intros Hb Hr. induction Hr as [|w w' Hr IH Hstep].
  - intros _. unfold build in Hb. destruct (negb _); [done|]. injection Hb as <- <-. eexists.
    cbn [lw_handle txs next_seq log_counters lw_ring accepted delivered since attempts log_counters_new
      events_enqueued events_processed events_dropped_full events_dropped_closed queue_high_watermark length].
    split; [done|]. cbn [shards per_shard]. split_and!; try done; try lia.
    + intros E%(f_equal length). rewrite length_replicate in E. cbn [length] in E. lia.
    + induction (Nat.max 1 _); [done|]. done.
    + apply Forall_replicate. cbn [length]. lia.
  - inversion Hstep; subst; cbn [attempts]; intros Ha.
    + eapply accounts_emit; try done. apply IH. lia.
    + eapply accounts_work; eauto.
    + destruct (IH Ha) as (ch & Htx & Hne & Hp & Hf & Hw & Hc & Hr' & Hcnt & Hs). exists ch.
      cbn [lw_handle txs next_seq log_counters lw_ring accepted delivered since attempts].
      destruct Hcnt as (? & ? & ? & ? & ? & ?), Hw. split_and!; done.
    + destruct (IH Ha) as (ch' & Htx & Hne & Hp & Hf & Hw & Hc & Hr' & Hcnt & Hs). rewrite Htx in H. injection H as ->.
      eexists. cbn [lw_handle txs next_seq log_counters lw_ring accepted delivered since attempts]. split; [done|].
      destruct Hcnt as (? & ? & ? & ? & ? & ?), Hw. split_and!; done.
Qed.

(** ** Shutdown *)

Lemma shutdown_drain_spec fuel start rxs ring c fs :
  1 <= bs -> length (concat rxs) < fuel -> length (ring_buf ring) <= ring_capacity ring ->
  exists rxs' ring' c' fs' es, shutdown_drain append fuel bs start rxs ring c fs = Ret (rxs', ring', c', fs') /\
    takes rxs es rxs' /\ Forall (fun q => q = []) rxs' /\
    ring_buf ring' = lastn (ring_capacity ring) (ring_buf ring ++ es) /\
    wrap 64 (events_processed c') = wrap 64 (events_processed c + Z.of_nat (length es)).
Proof.
  intros Hbs. revert rxs ring c fs. induction fuel as [|fuel IH]; intros rxs ring c fs Hf Hl; [lia|].
  cbn [shutdown_drain]. destruct (drain_available_spec bs start rxs []) as (rxs1 & es & -> & H2 & H3 & H4).
  cbn [obind app] in *. destruct es as [|ev es].
  - exists rxs1, ring, c, fs, []. cbn [length] in *. rewrite app_nil_r, lastn_all, Z.add_0_r by done.
    split_and!; try done. apply H4. lia.
  - destruct (process_batch append (ev :: es) ring c fs) as [[ring1 c1] fs1] eqn:Hp.
    apply process_batch_spec in Hp as (G1 & G2 & G3 & _); [|done].
    pose proof (Permutation_length (takes_perm _ _ _ H2)) as Hlen. rewrite length_app in Hlen. cbn [length] in Hlen.
    destruct (IH rxs1 ring1 c1 fs1) as (rxs' & ring' & c' & fs' & es' & I1 & I2 & I3 & I4 & I5); [lia|rewrite G1, G2, length_lastn; lia|].
    exists rxs', ring', c', fs', ((ev :: es) ++ es'). split_and!; [done|by eapply takes_app|done| |].
    + by rewrite I4, G1, G2, lastn_app_lastn, <- app_assoc.
    + rewrite I5, G3. unfold wrap. rewrite Zplus_mod_idemp_l, length_app. f_equal. lia.
Qed.
End pipeline.


(** ** Concrete runs *)

Definition sample_event (s : Z) : QueryLogEvent :=
  mkEvent s (1000 + s) (V4 [10; 0; 0; 1]%Z) 5353 (lit "example.org") 1 0 120 64 (lit "cache") None.

Lemma no_shard_starves_witness : exists t, t < 2 /\ sample_event 7 ∈ (if Nat.even t then [sample_event 3; sample_event 7] else [sample_event 7; sample_event 3]).
Proof.
  apply (no_shard_starves 2 [true; true] (fun _ => [[sample_event 3]; [sample_event 7]])
    (fun t => if Nat.even t then 0 else 1)
    (fun t => if Nat.even t then [sample_event 3; sample_event 7] else [sample_event 7; sample_event 3]) 1 (sample_event 7) []);
    [|reflexivity].
  intros t. split; [reflexivity|]. split; [discriminate|]. exists [[]; []]. split.
  - rewrite Nat.even_succ, <- Nat.negb_even. destruct (Nat.even t); reflexivity.
  - intros [|[|i]] q; cbn; intros [= <-]; eexists; reflexivity.
Defined.

Definition log_sample_config : QueryLogConfig := mkLogConfig true 2 64 2 None.

Definition no_file (u : unit) (_ : list QueryLogEvent) : unit * bool := (u, true).

(** Three emissions from two threads, then one pass of the worker. *)
Definition log_sample_world : LogWorld :=
  let events := sample_event <$> [0; 1; 2]%Z in
  mkLogWorld
    (mkHandle (Some (mkChannels [[]; []] 32 true)) 3 (mkLogCounters 3 3 0 0 2 1 0))
    (mkRing (sample_event <$> [1; 2]%Z) 2 0) 1 3 events events events.

Definition emitted_world (n : nat) (q0 q1 : list Z) : LogWorld :=
  mkLogWorld (mkHandle (Some (mkChannels [sample_event <$> q0; sample_event <$> q1] 32 true)) (Z.of_nat n)
    (mkLogCounters (Z.of_nat n) 0 0 0 (Z.of_nat (length q0)) 0 0))
    (ring_new 2) 0 n (sample_event <$> (Z.of_nat <$> seq 0 n)) [] [].

Lemma log_sample_world_reachable : log_reachable no_file 4 (fst (build log_sample_config)) (ring_new 2) log_sample_world.
Proof.
  apply (log_next _ _ _ _ (emitted_world 3 [0; 2]%Z [1]%Z)).
  2:{ refine (log_work no_file 4 (emitted_world 3 [0; 2]%Z [1]%Z) (mkChannels [sample_event <$> [0; 2]%Z; sample_event <$> [1]%Z] 32 true)
        [true; true] (sample_event <$> [0; 1; 2]%Z) 1 [[]; []] None (lw_ring log_sample_world) (log_counters (lw_handle log_sample_world)) None
        _ _ _ _ _); reflexivity. }
  apply (log_next _ _ _ _ (emitted_world 2 [0]%Z [1]%Z)).
  2:{ exact (log_emit no_file 4 (emitted_world 2 [0]%Z [1]%Z) 0 sample_event (lw_handle (emitted_world 3 [0; 2]%Z [1]%Z)) (fun _ => eq_refl) eq_refl). }
  apply (log_next _ _ _ _ (emitted_world 1 [0]%Z [])).
  2:{ exact (log_emit no_file 4 (emitted_world 1 [0]%Z []) 1 sample_event (lw_handle (emitted_world 2 [0]%Z [1]%Z)) (fun _ => eq_refl) eq_refl). }
  apply (log_next _ _ _ _ (emitted_world 0 [] [])).
  2:{ exact (log_emit no_file 4 (emitted_world 0 [] []) 0 sample_event (lw_handle (emitted_world 1 [0]%Z [])) (fun _ => eq_refl) eq_refl). }
  apply log_init.
Qed.

