(* ===== verification/QueryHistory.v ===== *)
(** * The query log on disk

    The file half of [src/querylog/worker.rs]: the sparse sidecar index of a segment and
    how it grows, the segment writer with rotation and pruning, compression into
    independent gzip members, and the readers of a history page.  The MessagePack, JSON
    and gzip codecs are third-party crates: a class of operations with their documented
    laws.  The log directory is a map from file names to contents. *)

From stdpp Require Import gmap strings.
From S2P Require Import Prelude Hasher DnsName DnsQuery DnsRecords Utf8 DnsQname RustStr IpRange IpParse QueryRing QueryLog.

(** ** Events as the log stores them *)

Record DecodedEvent := mkDecoded {
  d_seq : Z;
  d_unix_micros : Z;
  d_client : list Z;
  d_client_port : Z;
  d_qname : list Z;
  d_qtype : Z;
  d_rcode : Z;
  d_elapsed_us : Z;
  d_response_bytes : Z;
  d_source : list Z;
  d_upstream : option (list Z)
}.

(** [IpAddr::to_string]: dotted decimal; eight hexadecimal groups with the first
    longest run of at least two zero groups shortened, and IPv4-mapped addresses
    in mixed notation. *)
Definition hex_digit (d : Z) : Z := if decide (d < 10)%Z then 48 + d else 87 + d.

Fixpoint hex_text (fuel : nat) (n : Z) (acc : list Z) : list Z :=
  match fuel with
  | 0 => acc
  | S fuel =>
      let acc := hex_digit (n mod 16) :: acc in
      if decide (n < 16)%Z then acc else hex_text fuel (n / 16) acc
  end.

Definition COLON : Z := 58.

Fixpoint segments (o : list Z) : list Z :=
  match o with a :: b :: o => (a * 256 + b)%Z :: segments o | _ => [] end.

(** The first longest run of zeros: its start and length. *)
Fixpoint zero_run (i : nat) (cur best : nat * nat) (s : list Z) : nat * nat :=
  match s with
  | [] => best
  | g :: s =>
      if decide (g = 0%Z) then
        let cur := ((if decide (snd cur = 0) then i else fst cur), S (snd cur)) in
        zero_run (S i) cur (if decide (snd best < snd cur) then cur else best) s
      else zero_run (S i) (0, 0) best s
  end.

Definition show_groups (s : list Z) : list Z := join_with COLON ((fun g => hex_text 4 g []) <$> s).

Definition show_v6 (o : list Z) : list Z :=
  let s := segments o in
  if decide (take 5 s = [0; 0; 0; 0; 0]%Z /\ nthb s 5 = 65535%Z) then
    lit "::ffff:" ++ show_v4 (drop 12 o)
  else
    let '(start, len) := zero_run 0 (0, 0) (0, 0) s in
    if decide (1 < len) then show_groups (take start s) ++ [COLON; COLON] ++ show_groups (drop (start + len) s)
    else show_groups s.

Definition ip_to_string (ip : IpAddr) : list Z :=
  match ip with V4 o => show_v4 o | V6 o => show_v6 o end.

(** An event as it comes back from a log file: the address as text. *)
Definition decoded (ev : QueryLogEvent) : DecodedEvent :=
  mkDecoded (ev_seq ev) (unix_micros ev) (ip_to_string (client ev)) (client_port ev) (ev_qname ev) (ev_qtype ev)
    (ev_rcode ev) (elapsed_us ev) (response_bytes ev) (source ev) (upstream ev).

(** ** The index *)

Definition HISTORY_INDEX_VERSION : Z := 1.
Definition HISTORY_INDEX_STRIDE : Z := 512.
Definition HISTORY_PAGE_MAX : nat := 200.

Record HistoryBlock := mkBlock {
  offset : Z; blen : Z; first_entry : Z; entries : Z; start_micros : Z; end_micros : Z
}.

Record HistoryIndex := mkIndex {
  version : Z;
  compressed_blocks : bool;
  total_entries : Z;
  idx_start_micros : option Z;
  idx_end_micros : option Z;
  blocks : list HistoryBlock
}.

Definition index_empty : HistoryIndex := mkIndex HISTORY_INDEX_VERSION false 0 None None [].

(** Replace the last block by [f] of it. *)
Definition map_last (f : HistoryBlock -> HistoryBlock) (l : list HistoryBlock) : list HistoryBlock :=
  match rev l with b :: r => rev (f b :: r) | [] => [] end.

(** Whether a batch of [count] events at [offset] extends the block. *)
Definition extends (total count off : Z) (b : HistoryBlock) : bool :=
  bool_decide (wrap 64 (first_entry b + entries b) = total) && bool_decide (entries b + count <= HISTORY_INDEX_STRIDE)%Z
  && bool_decide (wrap 64 (offset b + blen b) = off).

Definition index_append (ix : HistoryIndex) (off len : Z) (batch : list QueryLogEvent) : HistoryIndex :=
  match batch with
  | [] => ix
  | first :: _ =>
      let end_ := match last batch with Some ev => unix_micros ev | None => unix_micros first end in
      let count := Z.of_nat (length batch) in
      let start := Some (default (unix_micros first) (idx_start_micros ix)) in
      let total := wrap 64 (total_entries ix + count) in
      let bs :=
        if (match last (blocks ix) with Some b => extends (total_entries ix) count off b | None => false end) then
          map_last (fun b => mkBlock (offset b) (wrap 64 (blen b + len)) (first_entry b) (wrap 32 (entries b + count))
                       (start_micros b) end_) (blocks ix)
        else blocks ix ++ [mkBlock off len (total_entries ix) (wrap 32 count) (unix_micros first) end_] in
      mkIndex (version ix) (compressed_blocks ix) total start (Some end_) bs
  end.

(** The validation loop of [load_index]: the byte offset and the entry number expected
    after the blocks. *)
Fixpoint check_blocks (bs : list HistoryBlock) (off ent : Z) : option (Z * Z) :=
  match bs with
  | [] => Some (off, ent)
  | b :: bs =>
      if decide (offset b = off /\ first_entry b = ent /\ 0 < blen b /\ 0 < entries b /\
                 off + blen b < 2 ^ 64 /\ ent + entries b < 2 ^ 64)%Z
      then check_blocks bs (off + blen b) (ent + entries b) else None
  end.

(** ** Queries *)

Record HistoryQuery := mkQuery {
  q_limit : nat;
  q_cursor : option Z;
  q_from : option Z;
  q_to : option Z;
  q_qname : option (list Z);
  q_rcode : option Z;
  q_source : option (list Z);
  q_upstream : option (list Z);
  q_client : option (list Z);
  q_qtype : option Z
}.

Record HistoryPage := mkPage {
  p_events : list DecodedEvent;
  p_total_entries : option Z;
  p_start_micros : option Z;
  p_end_micros : option Z;
  next_cursor : option Z;
  has_more : bool;
  indexed : bool
}.

(** [opt.is_none_or(f)]. *)
Definition none_or {A} (f : A -> bool) (o : option A) : bool := match o with Some a => f a | None => true end.

Definition is_empty (s : list Z) : bool := match s with [] => true | _ => false end.

Definition event_matches (e : DecodedEvent) (q : HistoryQuery) : bool :=
  none_or (fun from => bool_decide (from <= d_unix_micros e)%Z) (q_from q)
  && none_or (fun to => bool_decide (d_unix_micros e <= to)%Z) (q_to q)
  && none_or (fun s => is_empty s || contains_str s (d_qname e)) (q_qname q)
  && none_or (fun r => bool_decide (d_rcode e = r)) (q_rcode q)
  && none_or (fun s => is_empty s || bool_decide (d_source e = s)) (q_source q)
  && none_or (fun u => is_empty u || match d_upstream e with Some eu => contains_str u eu | None => false end) (q_upstream q)
  && none_or (fun c => is_empty c || contains_str c (d_client e)) (q_client q)
  && none_or (fun t => bool_decide (d_qtype e = t)) (q_qtype q).

Definition page_limit (q : HistoryQuery) : nat := Nat.max 1 (Nat.min (q_limit q) HISTORY_PAGE_MAX).

(** The events of one block: the events found, the next cursor, and whether the page is
    full and more events match. *)
Fixpoint scan_block (q : HistoryQuery) (limit : nat) (cursor ordinal : Z) (evs acc : list DecodedEvent) (next : Z)
    : list DecodedEvent * Z * bool :=
  match evs with
  | [] => (acc, next, false)
  | e :: evs =>
      if decide (ordinal < cursor)%Z then scan_block q limit cursor (ordinal + 1) evs acc next
      else if event_matches e q then
        if decide (length acc < limit) then scan_block q limit cursor (ordinal + 1) evs (acc ++ [e]) (ordinal + 1)
        else (acc, ordinal, true)
      else scan_block q limit cursor (ordinal + 1) evs acc next
  end.

(** ** Codecs *)

Class HistoryCodecs := {
  write_named : QueryLogEvent -> option (list Z);
  de_next : list Z -> option (DecodedEvent * list Z);
  index_json : HistoryIndex -> list Z;
  index_from_json : list Z -> option HistoryIndex;
  gz_encode : list Z -> list Z;
  gz_decode : list Z -> list Z;
  multi_gz_decode : list Z -> list Z
}.

(** What the code relies on: reading back what was written, one value at a time, each
    read consuming input; a gzip member decompresses to what was compressed, and
    concatenated members to the concatenation. *)
Class HistoryCodecLaws `{HistoryCodecs} : Prop := {
  de_write ev b rest : write_named ev = Some b -> de_next (b ++ rest) = Some (decoded ev, rest);
  write_nonempty ev b : write_named ev = Some b -> b <> [];
  de_nil : de_next [] = None;
  de_consumes b e rest : de_next b = Some (e, rest) -> length rest < length b;
  json_roundtrip ix : index_from_json (index_json ix) = Some ix;
  gz_roundtrip b : gz_decode (gz_encode b) = b;
  gz_nonempty b : gz_encode b <> [];
  multi_gz_members bs : multi_gz_decode (concat (gz_encode <$> bs)) = concat bs
}.

(** ** The log directory *)

Abbreviation LogDir := (gmap (list Z) (list Z)).

Inductive history_error := NotFound | BadIndex | EncodeFailed | IoFailed | ShortRead.

Definition index_path (path : list Z) : list Z := path ++ lit ".index.json".

Section history.
Context `{HistoryCodecs}.

Definition load_index (d : LogDir) (path : list Z) : result history_error HistoryIndex :=
  match d !! index_path path with
  | None => Err NotFound
  | Some data =>
      match index_from_json data with
      | None => Err BadIndex
      | Some ix =>
          if decide (version ix = HISTORY_INDEX_VERSION) then
            match d !! path with
            | None => Err NotFound
            | Some file =>
                match check_blocks (blocks ix) 0 0 with
                | Some (off, ent) =>
                    if decide (off = Z.of_nat (length file) /\ ent = total_entries ix) then Ok ix else Err BadIndex
                | None => Err BadIndex
                end
            end
          else Err BadIndex
      end
  end.

(** ** Reading *)

(** All events of a byte string; the fuel is one more than its length, and every event
    takes at least one byte. *)
Fixpoint decode_loop (fuel : nat) (b : list Z) : outcome (list DecodedEvent) :=
  match fuel with
  | 0 => OutOfFuel
  | S fuel =>
      match de_next b with
      | Some (e, rest) => let! es := decode_loop fuel rest in Ret (e :: es)
      | None => Ret []
      end
  end.

Definition decode_msgpack_block (b : list Z) : outcome (list DecodedEvent) := decode_loop (S (length b)) b.

(** The loop ['blocks] of [read_indexed_history_page]. *)
Fixpoint read_blocks (ix : HistoryIndex) (q : HistoryQuery) (limit : nat) (cursor : Z) (file : list Z)
    (bs : list HistoryBlock) (acc : list DecodedEvent) (next : Z) : outcome (list DecodedEvent * Z * bool) :=
  match bs with
  | [] => Ret (acc, next, false)
  | b :: bs =>
      if decide (first_entry b + entries b <= cursor)%Z then read_blocks ix q limit cursor file bs acc next
      else if (match q_from q with Some from => bool_decide (end_micros b < from)%Z | None => false end) then
        read_blocks ix q limit cursor file bs acc next
      else if (match q_to q with Some to => bool_decide (to < start_micros b)%Z | None => false end) then
        Ret (acc, next, false)
      else
        let bytes := take (Z.to_nat (blen b)) (drop (Z.to_nat (offset b)) file) in
        let! evs := decode_msgpack_block (if compressed_blocks ix then gz_decode bytes else bytes) in
        let '(acc, next, full) := scan_block q limit cursor (first_entry b) evs acc next in
        if full : bool then Ret (acc, next, true) else read_blocks ix q limit cursor file bs acc next
  end.

(** The first block that can hold events of the requested time. *)
Definition first_candidate (ix : HistoryIndex) (q : HistoryQuery) : Z :=
  match List.find (fun b => none_or (fun from => bool_decide (from <= end_micros b)%Z) (q_from q)) (blocks ix) with
  | Some b => first_entry b
  | None => total_entries ix
  end.

Definition read_indexed_history_page (d : LogDir) (path : list Z) (q : HistoryQuery) (ix : HistoryIndex)
    : outcome (result history_error HistoryPage) :=
  let limit := page_limit q in
  let cursor := Z.max (default (first_candidate ix q) (q_cursor q)) (first_candidate ix q) in
  match d !! path with
  | None => Ret (Err NotFound)
  | Some file =>
      let! (events, next, more) := read_blocks ix q limit cursor file (blocks ix) [] cursor in
      Ret (Ok (mkPage events (Some (total_entries ix)) (idx_start_micros ix) (idx_end_micros ix)
        (if more then Some next else None) more true))
  end.

(** [max_scan]: unlimited without a filter. *)
Definition has_filter (q : HistoryQuery) : bool :=
  match q_qname q with Some s => negb (is_empty s) | None => false end
  || bool_decide (is_Some (q_rcode q))
  || match q_source q with Some s => negb (is_empty s) | None => false end
  || match q_upstream q with Some s => negb (is_empty s) | None => false end
  || match q_client q with Some s => negb (is_empty s) | None => false end
  || bool_decide (is_Some (q_qtype q)) || bool_decide (is_Some (q_from q)) || bool_decide (is_Some (q_to q)).

Definition max_scan (q : HistoryQuery) : Z :=
  if has_filter q then Z.max (Z.of_nat (page_limit q) * 100) 10000 else 2 ^ 64 - 1.

(** The loop of [read_legacy_history_page], from entry [ordinal] on. *)
Fixpoint legacy_loop (fuel : nat) (q : HistoryQuery) (limit : nat) (cursor ordinal : Z) (b : list Z) (acc : list DecodedEvent)
    : outcome (list DecodedEvent * Z * bool) :=
  match fuel with
  | 0 => OutOfFuel
  | S fuel =>
      if decide (max_scan q <= sat_sub ordinal cursor)%Z then Ret (acc, ordinal, false)
      else match de_next b with
           | None => Ret (acc, ordinal, false)
           | Some (e, rest) =>
               if decide (ordinal < cursor)%Z then legacy_loop fuel q limit cursor (ordinal + 1) rest acc
               else if event_matches e q then
                 if decide (length acc < limit) then legacy_loop fuel q limit cursor (ordinal + 1) rest (acc ++ [e])
                 else Ret (acc, ordinal, true)
               else legacy_loop fuel q limit cursor (ordinal + 1) rest acc
           end
  end.

Definition GZ : list Z := lit ".gz".

Definition ends_with (suffix s : list Z) : bool := starts_with (rev suffix) (rev s).

Definition read_legacy_history_page (d : LogDir) (path : list Z) (q : HistoryQuery) : outcome (result history_error HistoryPage) :=
  match d !! path with
  | None => Ret (Err NotFound)
  | Some file =>
      let b := if ends_with GZ path then multi_gz_decode file else file in
      let! (events, ordinal, more) := legacy_loop (S (length b)) q (page_limit q) (default 0%Z (q_cursor q)) 0 b [] in
      Ret (Ok (mkPage events None None None (if more then Some ordinal else None) more false))
  end.

Definition read_history_page (d : LogDir) (path : list Z) (q : HistoryQuery) : outcome (result history_error HistoryPage) :=
  match load_index d path with
  | Ok ix => read_indexed_history_page d path q ix
  | Err _ => read_legacy_history_page d path q
  end.

(** ** Compression *)

Inductive dir_op :=
| WriteFile (name contents : list Z)
| RenameFile (from to : list Z)
| RenameIfExists (from to : list Z)
| RemoveFile (name : list Z).

Definition dir_step (d : LogDir) (op : dir_op) : LogDir :=
  match op with
  | WriteFile n c => <[n := c]> d
  | RenameFile a b | RenameIfExists a b => match d !! a with Some c => <[b := c]> (delete a d) | None => d end
  | RemoveFile n => delete n d
  end.

Definition run_ops (d : LogDir) (ops : list dir_op) : LogDir := foldl dir_step d ops.

(** One gzip member per block, with the blocks of the compressed index. *)
Fixpoint compress_blocks (file : list Z) (bs : list HistoryBlock) (out : Z)
    : option (list Z * list HistoryBlock) :=
  match bs with
  | [] => Some ([], [])
  | b :: bs =>
      let o := Z.to_nat (offset b) in
      let n := Z.to_nat (blen b) in
      if decide (o + n <= length file) then
        let member := gz_encode (take n (drop o file)) in
        match compress_blocks file bs (out + Z.of_nat (length member)) with
        | Some (bytes, bs') =>
            Some (member ++ bytes,
                  mkBlock out (Z.of_nat (length member)) (first_entry b) (entries b) (start_micros b) (end_micros b) :: bs')
        | None => None
        end
      else None
  end.

(** The file operations of a compression that succeeds. *)
Definition compress_to_gz (d : LogDir) (path : list Z) : result history_error (list dir_op) :=
  let gz_path := path ++ GZ in
  let temp_path := gz_path ++ lit ".tmp" in
  match d !! path with
  | None => Err NotFound
  | Some file =>
      let finish := [RenameFile temp_path gz_path; RenameIfExists (index_path temp_path) (index_path gz_path);
                     RemoveFile path; RemoveFile (index_path path)] in
      match load_index d path with
      | Ok ix =>
          match blocks ix with
          | [] => Ok (WriteFile temp_path (gz_encode file) :: finish)
          | bs =>
              match compress_blocks file bs 0 with
              | None => Err ShortRead
              | Some (bytes, bs') =>
                  let cix := mkIndex (version ix) true (total_entries ix) (idx_start_micros ix) (idx_end_micros ix) bs' in
                  Ok (WriteFile temp_path bytes :: WriteFile (index_path temp_path) (index_json cix) :: finish)
              end
          end
      | Err _ => Ok (WriteFile temp_path (gz_encode file) :: finish)
      end
  end.

End history.
