(* ===== verification/IpText.v ===== *)
(** * The text of an address

    [IpAddr::to_string] ([ip_to_string] of QueryHistory.v) and [str::parse::<IpAddr>]
    (IpParse.v) are inverse: what the dashboard, the history files and the node names show
    is read back as the same address. *)

From stdpp Require Import strings.
From S2P Require Import Prelude Hasher DnsName DnsQuery Utf8 DnsQname DnsRecords DnsEdns Ecs IpRange RustStr Domain IpParse QueryRing QueryLog QueryHistory.

(** ** Hexadecimal groups *)

Lemma to_digit_hex d : (0 <= d < 16)%Z -> to_digit 16 (hex_digit d) = Some d.
Proof.
  intros Hd. unfold hex_digit. destruct (decide (d < 10)%Z); unfold to_digit.
  - rewrite (decide_True (P := 48 <= 48 + d <= 57)%Z) by lia. replace (48 + d - 48)%Z with d by lia. by rewrite decide_True by lia.
  - rewrite (decide_False (P := 48 <= 87 + d <= 57)%Z) by lia. rewrite (decide_True (P := 97 <= 87 + d <= 122)%Z) by lia.
    replace (87 + d - 87)%Z with d by lia. by rewrite decide_True by lia.
Qed.

Lemma hex_text_digits g : u_ok 16 g -> exists ds, hex_text 4 g [] = hex_digit <$> ds /\ Forall (fun d => 0 <= d < 16)%Z ds /\
  foldl (fun a d => a * 16 + d)%Z 0%Z ds = g /\ 1 <= length ds <= 4.
Proof.
  unfold u_ok. change (2 ^ 16)%Z with 65536%Z. intros Hg. cbn [hex_text].
  assert (0 <= g mod 16 < 16 /\ 0 <= g / 16 mod 16 < 16 /\ 0 <= g / 16 / 16 mod 16 < 16 /\ 0 <= g / 16 / 16 / 16 mod 16 < 16)%Z as (? & ? & ? & ?)
    by (split_and!; apply Z.mod_pos_bound; lia).
  repeat case_decide.
  - exists [g mod 16]%Z. split_and!; [done|rewrite !Forall_cons, Forall_nil; tauto|cbn; rewrite Z.mod_small by lia; lia|cbn; lia..].
  - exists [g / 16 mod 16; g mod 16]%Z. split_and!; [done|rewrite !Forall_cons, Forall_nil; tauto|cbn; Z.to_euclidean_division_equations; lia|cbn; lia..].
  - exists [g / 16 / 16 mod 16; g / 16 mod 16; g mod 16]%Z. split_and!; [done|rewrite !Forall_cons, Forall_nil; tauto|cbn; Z.to_euclidean_division_equations; lia|cbn; lia..].
  - exists [g / 16 / 16 / 16 mod 16; g / 16 / 16 mod 16; g / 16 mod 16; g mod 16]%Z.
    split_and!; [done|rewrite !Forall_cons, Forall_nil; tauto|cbn; Z.to_euclidean_division_equations; lia|cbn; lia..].
  - exists [g / 16 / 16 / 16 mod 16; g / 16 / 16 mod 16; g / 16 mod 16; g mod 16]%Z.
    split_and!; [done|rewrite !Forall_cons, Forall_nil; tauto|cbn; Z.to_euclidean_division_equations; lia|cbn; lia..].
Qed.

(** Text that does not go on with a hexadecimal digit. *)
Definition not_hex (s : list Z) : Prop := match s with [] => True | c :: _ => to_digit 16 c = None end.

Lemma foldl_hex_mono ds a : (0 <= a)%Z -> Forall (fun d => 0 <= d < 16)%Z ds -> (a <= foldl (fun a d => a * 16 + d) a ds)%Z.
Proof.
  intros Ha Hds. revert a Ha. induction Hds as [|d ds Hd Hds IH]; intros a Ha; cbn [foldl]; [lia|].
  specialize (IH (a * 16 + d)%Z ltac:(lia)). lia.
Qed.

Lemma read_digits_hex max md ds count acc rest : Forall (fun d => 0 <= d < 16)%Z ds -> (0 <= acc)%Z -> not_hex rest ->
  (foldl (fun a d => a * 16 + d) acc ds <= max)%Z -> count + length ds <= md ->
  read_digits 16 max md count acc ((hex_digit <$> ds) ++ rest) = Some (foldl (fun a d => a * 16 + d)%Z acc ds, count + length ds, rest).
Proof.
  intros Hds. revert count acc. induction Hds as [|d ds Hd Hds IH]; intros count acc Ha Hr Hmax Hmd.
  - cbn [fmap list_fmap app foldl length]. rewrite Nat.add_0_r. by apply read_digits_stop.
  - cbn [length] in Hmd. rewrite fmap_cons. cbn [app read_digits]. rewrite to_digit_hex by done. cbn [foldl] in *.
    pose proof (foldl_hex_mono ds (acc * 16 + d) ltac:(lia) Hds). rewrite !decide_False by lia.
    rewrite IH; [|lia|done|done|lia]. cbn [length]. by rewrite Nat.add_succ_r.
Qed.

Lemma read_group g rest : u_ok 16 g -> not_hex rest -> read_number 16 65535 4 true (hex_text 4 g [] ++ rest) = Some (g, rest).
Proof.
  intros Hg Hr. destruct (hex_text_digits g Hg) as (ds & -> & Hds & Hval & Hlen). unfold u_ok in Hg. change (2 ^ 16)%Z with 65536%Z in Hg.
  unfold read_number. rewrite read_digits_hex; [|done|lia|done|lia|lia]. rewrite Hval. by rewrite decide_False by lia.
Qed.

(** A group is not the start of a dotted address. *)
Lemma read_digits_suffix max md l count acc rest r c s' : Forall (fun b => is_Some (to_digit 16 b)) l -> not_hex rest ->
  read_digits 10 max md count acc (l ++ rest) = Some (r, c, s') -> exists l', s' = l' ++ rest /\ Forall (fun b => is_Some (to_digit 16 b)) l'.
Proof.
  intros Hl Hr. revert count acc. induction Hl as [|b l Hb Hl IH]; intros count acc.
  - cbn [app]. assert (match rest with [] => True | b :: _ => to_digit 10 b = None end) as Hn.
    { destruct rest as [|b rest]; [done|]. cbn [not_hex] in Hr. unfold to_digit in *. repeat case_decide; (done || lia). }
    rewrite read_digits_stop by done. intros [= <- <- <-]. exists []. by split.
  - cbn [app read_digits]. destruct (to_digit 10 b).
    + do 2 (case_decide; [done|]). apply IH.
    + intros [= <- <- <-]. exists (b :: l). split; [done|]. by constructor.
Qed.

Lemma read_octet_suffix l rest b s' : Forall (fun b => is_Some (to_digit 16 b)) l -> not_hex rest ->
  read_number 10 255 3 false (l ++ rest) = Some (b, s') -> exists l', s' = l' ++ rest /\ Forall (fun b => is_Some (to_digit 16 b)) l'.
Proof.
  intros Hl Hr. unfold read_number. destruct (read_digits 10 255 3 0 0 (l ++ rest)) as [[[r c] s1]|] eqn:Hrd; [|done].
  destruct (decide (c = 0)); [done|]. intros H. assert (s1 = s') as <- by (revert H; case_match; [done|]; congruence). by eapply read_digits_suffix.
Qed.

Lemma group_not_v4 l rest : Forall (fun b => is_Some (to_digit 16 b)) l -> not_hex rest -> head rest <> Some DOT -> read_ipv4_addr (l ++ rest) = None.
Proof.
  intros Hl Hr Hd. unfold read_ipv4_addr. cbn [read_octets]. unfold read_separator at 1. rewrite decide_False by lia.
  destruct (read_number 10 255 3 false (l ++ rest)) as [[b s']|] eqn:Hrd; [|done].
  destruct (read_octet_suffix _ _ _ _ Hl Hr Hrd) as (l' & -> & Hl'). unfold read_separator at 1. rewrite decide_True by lia.
  assert (read_given_char DOT (l' ++ rest) = None) as ->; [|done]. destruct Hl' as [|c l' Hc Hl']; cbn [app read_given_char].
  - destruct rest as [|c rest]; [done|]. cbn [read_given_char]. rewrite decide_False; [done|]. intros ->. by apply Hd.
  - rewrite decide_False; [done|]. intros ->. by destruct Hc.
Qed.

Lemma hex_text_chars g : u_ok 16 g -> Forall (fun b => is_Some (to_digit 16 b)) (hex_text 4 g []).
Proof.
  intros Hg. destruct (hex_text_digits g Hg) as (ds & -> & Hds & _). apply Forall_fmap. eapply Forall_impl; [exact Hds|].
  intros d Hd. cbn. by rewrite to_digit_hex.
Qed.

(** ** Sequences of groups *)

(** What ends a sequence: nothing, or the double colon. *)
Definition ends (rest : list Z) : Prop := rest = [] \/ exists s, rest = COLON :: COLON :: s.

Lemma colon_not_v4 s : read_ipv4_addr (58 :: s)%Z = None.
Proof. done. Qed.

Lemma read_groups_stop limit n i rest : ends rest -> read_groups limit n i rest = ([], false, rest).
Proof.
  destruct n as [|n]; [done|]. intros [->|[s ->]]; cbn [read_groups]; unfold read_separator.
  - destruct (decide (i < limit - 1)), (decide (0 < i)); done.
  - destruct (decide (i < limit - 1)), (decide (0 < i)); done.
Qed.

Lemma show_groups_cons g gs : gs <> [] -> show_groups (g :: gs) = hex_text 4 g [] ++ COLON :: show_groups gs.
Proof. intros Hne. unfold show_groups. rewrite fmap_cons, join_with_cons; [done|]. by destruct gs. Qed.

Lemma read_groups_show limit gs n i rest : Forall (u_ok 16) gs -> gs <> [] -> length gs <= n -> ends rest ->
  read_groups limit n i ((if decide (0 < i) then [COLON] else []) ++ show_groups gs ++ rest) = (concat (to_be 2 <$> gs), false, rest).
Proof.
  intros Hgs Hne. revert n i. induction Hgs as [|g gs Hg Hgs IH]; intros n i Hn Hr; [done|]. destruct n as [|n]; [cbn in Hn; lia|].
  assert (forall tl, not_hex tl -> head tl <> Some DOT ->
    read_groups limit (S n) i ((if decide (0 < i) then [COLON] else []) ++ hex_text 4 g [] ++ tl)
    = let '(l, v4, s'') := read_groups limit n (S i) tl in (to_be 2 g ++ l, v4, s'')) as Hstep.
  { intros tl Htl Hdot. cbn [read_groups]. unfold read_separator. pose proof (group_not_v4 _ tl (hex_text_chars g Hg) Htl Hdot) as H4.
    pose proof (read_group g tl Hg Htl) as Hn16. destruct (decide (0 < i)); cbn [app].
    - assert (forall s, read_given_char IpParse.COLON (COLON :: s) = Some (tt, s)) as Hc by done. rewrite Hc, H4, Hn16. by destruct (decide (i < limit - 1)).
    - rewrite H4, Hn16. by destruct (decide (i < limit - 1)). }
  rewrite fmap_cons. cbn [concat]. destruct gs as [|g' gs].
  - unfold show_groups at 1. cbn [fmap list_fmap join_with]. rewrite Hstep.
    + by rewrite read_groups_stop.
    + by destruct Hr as [->|[s ->]].
    + by destruct Hr as [->|[s ->]].
  - rewrite show_groups_cons by done. rewrite <- app_assoc. rewrite Hstep by done. cbn [length] in Hn.
    specialize (IH ltac:(done) n (S i) ltac:(cbn [length]; lia) Hr). rewrite decide_True in IH by lia. cbn [app] in *. by rewrite IH.
Qed.

(** ** Segments *)

Lemma segments_octets o n : length o = 2 * n -> bytes_ok o -> concat (to_be 2 <$> segments o) = o /\ length (segments o) = n /\ Forall (u_ok 16) (segments o).
Proof.
  revert o. induction n as [|n IH]; intros o Hl Hb; [by destruct o|]. destruct o as [|a [|b o]]; [cbn in Hl; lia..|].
  apply Forall_cons in Hb as [Ha Hb]. apply Forall_cons in Hb as [Hb Ho]. destruct (IH o ltac:(cbn in Hl; lia) Ho) as (H1 & H2 & H3).
  cbn [segments]. rewrite fmap_cons. cbn [concat length]. rewrite H1, H2. unfold u_ok in *. split_and!; [|done|].
  - assert ((a * 256 + b)%Z = from_be [a; b]) as -> by (unfold from_be; cbn; lia).
    pose proof (to_be_from_be [a; b]) as Hab. cbn [length] in Hab. rewrite Hab; [done|]. by apply Forall_cons; split; [|apply Forall_singleton].
  - constructor; [|done]. change (2 ^ 8)%Z with 256%Z in *. change (2 ^ 16)%Z with 65536%Z. lia.
Qed.

(** The run found is one of zeros. *)
Definition zeros_at (s : list Z) (r : nat * nat) : Prop := fst r + snd r <= length s /\ take (snd r) (drop (fst r) s) = replicate (snd r) 0%Z.

Lemma zeros_at_empty s : zeros_at s (0, 0).
Proof. split; cbn; [lia|done]. Qed.

Lemma zero_run_zeros s1 s2 cur best : zeros_at (s1 ++ s2) best -> zeros_at (s1 ++ s2) cur -> (snd cur = 0 \/ fst cur + snd cur = length s1) ->
  zeros_at (s1 ++ s2) (zero_run (length s1) cur best s2).
Proof.
  revert s1 cur best. induction s2 as [|g s2 IH]; intros s1 cur best Hb Hc Hcur; cbn [zero_run]; [done|].
  rewrite (cons_middle g s1 s2), app_assoc in *. replace (S (length s1)) with (length (s1 ++ [g])) by (rewrite length_app; cbn; lia).
  case_decide as Hg.
  - subst g. set (cur' := (_, _)). assert (zeros_at ((s1 ++ [0%Z]) ++ s2) cur') as Hc'.
    { unfold cur', zeros_at in *. cbn [fst snd] in *. destruct Hc as [Hcl Hct]. rewrite !length_app in *. cbn [length] in *. destruct (decide (snd cur = 0)) as [H0|H0].
      - rewrite H0. split; [lia|]. rewrite <- app_assoc, drop_app_length. done.
      - destruct Hcur as [?|Hcur]; [done|]. split; [lia|]. assert (snd cur = length s1 - fst cur) as Hs by lia. revert Hct. rewrite Hs.
        rewrite <- app_assoc. rewrite drop_app_le by lia. rewrite take_app_le by (rewrite length_drop; lia). intros Hct.
        replace (S (length s1 - fst cur)) with (length (drop (fst cur) s1) + 1) by (rewrite length_drop; lia). rewrite take_app_add.
        rewrite take_ge in Hct by (rewrite length_drop; lia). rewrite Hct, length_replicate. cbn [app take].
        by rewrite replicate_add. }
    apply IH; [by case_decide|done|]. right. unfold cur'. cbn [fst snd]. rewrite length_app. cbn [length]. case_decide; lia.
  - apply IH; [done|apply zeros_at_empty|by left].
Qed.

(** ** Reading back *)

Lemma parse_ip_v6_text s o : read_ipv4_addr s = None -> read_ipv6_addr s = Some (o, []) -> parse_ip s = Some (V6 o).
Proof. intros H4 H6. unfold parse_ip. by rewrite H4, H6. Qed.

Lemma zeros_split s r n : length s = n -> zeros_at s r -> s = take (fst r) s ++ replicate (snd r) 0%Z ++ drop (fst r + snd r) s.
Proof. intros _ [Hl Hz]. rewrite <- (take_drop (fst r) s) at 1. f_equal. rewrite <- (take_drop (snd r) (drop (fst r) s)) at 1. by rewrite Hz, drop_drop. Qed.

Lemma concat_zeros n : concat (to_be 2 <$> replicate n 0%Z) = replicate (2 * n) 0%Z.
Proof. induction n as [|n IH]; [done|]. cbn [replicate]. rewrite fmap_cons. cbn [concat]. rewrite IH. replace (2 * S n) with (S (S (2 * n))) by lia. done. Qed.

Lemma length_groups gs : length (concat (to_be 2 <$> gs)) = 2 * length gs.
Proof. induction gs as [|g gs IH]; [done|]. rewrite fmap_cons. cbn [concat]. rewrite length_app, length_to_be, IH. cbn [length]. lia. Qed.

(** Groups around a double colon. *)
Lemma read_shortened hd tl : Forall (u_ok 16) hd -> Forall (u_ok 16) tl -> length hd + length tl <= 6 ->
  read_ipv6_addr (show_groups hd ++ [COLON; COLON] ++ show_groups tl) = Some (concat (to_be 2 <$> (hd ++ replicate (8 - length hd - length tl) 0%Z ++ tl)), []).
Proof.
  intros Hh Ht Hl. unfold read_ipv6_addr.
  assert (read_groups 8 8 0 (show_groups hd ++ [COLON; COLON] ++ show_groups tl) = (concat (to_be 2 <$> hd), false, [COLON; COLON] ++ show_groups tl)) as ->.
  { destruct (decide (hd = [])) as [->|Hne]; [apply read_groups_stop; right; by eexists|].
    pose proof (read_groups_show 8 hd 8 0 ([COLON; COLON] ++ show_groups tl) Hh Hne ltac:(lia)) as H. apply H. right. by eexists. }
  rewrite length_groups. rewrite decide_False by lia. cbn [app].
  assert (forall s, read_given_char IpParse.COLON (COLON :: s) = Some (tt, s)) as Hc by done. rewrite !Hc.
  assert (2 * length hd / 2 = length hd) as -> by (rewrite Nat.mul_comm; apply Nat.div_mul; lia).
  assert (read_groups (8 - (length hd + 1)) (8 - (length hd + 1)) 0 (show_groups tl) = (concat (to_be 2 <$> tl), false, [])) as ->.
  { destruct (decide (tl = [])) as [->|Hne]; [apply read_groups_stop; by left|].
    pose proof (read_groups_show (8 - (length hd + 1)) tl (8 - (length hd + 1)) 0 [] Ht Hne ltac:(lia)) as H. rewrite app_nil_r in H. apply H. by left. }
  rewrite length_groups. f_equal. f_equal. rewrite !fmap_app, !concat_app, concat_zeros. do 3 f_equal. lia.
Qed.

Lemma read_full gs : Forall (u_ok 16) gs -> length gs = 8 -> read_ipv6_addr (show_groups gs) = Some (concat (to_be 2 <$> gs), []).
Proof.
  intros Hg Hl. unfold read_ipv6_addr. assert (gs <> []) as Hne by (by intros ->).
  pose proof (read_groups_show 8 gs 8 0 [] Hg Hne ltac:(lia)) as H. rewrite app_nil_r in H. cbn [decide] in H. rewrite decide_False in H by lia. cbn [app] in H.
  rewrite H by (by left). rewrite decide_True; [done|]. rewrite length_groups. lia.
Qed.

Lemma read_mapped o : length o = 4 -> bytes_ok o ->
  read_ipv6_addr (lit "::ffff:" ++ show_v4 o) = Some (replicate 10 0%Z ++ [255; 255]%Z ++ o, []).
Proof.
  intros Hl Ho. unfold read_ipv6_addr. rewrite (read_groups_stop 8 8 0) by (right; by eexists). cbn [length app].
  change (lit "::ffff:" ++ show_v4 o) with (COLON :: COLON :: lit "ffff:" ++ show_v4 o). cbn [length]. rewrite decide_False by lia.
  assert (forall s, read_given_char IpParse.COLON (COLON :: s) = Some (tt, s)) as Hc by done. rewrite !Hc.
  change (8 - (0 / 2 + 1)) with 7.
  assert (read_groups 7 7 0 (lit "ffff:" ++ show_v4 o) = ([255; 255]%Z ++ o, true, [])) as ->.
  { change (lit "ffff:" ++ show_v4 o) with (hex_text 4 65535 [] ++ COLON :: show_v4 o). cbn [read_groups]. unfold read_separator.
    rewrite (decide_True (P := 0 < 7 - 1)) by lia. rewrite !(decide_False (P := 0 < 0)) by lia.
    rewrite (group_not_v4 _ (COLON :: show_v4 o)) by (done || by apply hex_text_chars).
    rewrite (read_group 65535 (COLON :: show_v4 o)) by done. rewrite !(decide_True (P := 0 < 1)), (decide_True (P := 1 < 7 - 1)) by lia. rewrite !Hc.
    pose proof (read_octets_show o 0 []) as H. rewrite app_nil_r, Hl in H. rewrite decide_False in H by lia. cbn [app] in H.
    unfold read_ipv4_addr. rewrite H; [done|by destruct o|done|done]. }
  do 2 f_equal. rewrite length_app, Hl. done.
Qed.

(** The text of an address never starts like a dotted one unless it is one. *)
Lemma groups_not_v4 gs rest : Forall (u_ok 16) gs -> ends rest -> (1 < length gs \/ rest <> []) -> read_ipv4_addr (show_groups gs ++ rest) = None.
Proof.
  intros Hg Hr Hl. destruct Hg as [|g gs Hg Hgs].
  - destruct Hr as [->|[s ->]]; [destruct Hl; [cbn in *; lia|done]|done].
  - destruct gs as [|g' gs].
    + destruct Hr as [->|[s ->]]; [destruct Hl; [cbn in *; lia|done]|]. unfold show_groups. cbn [fmap list_fmap join_with].
      by apply group_not_v4; [apply hex_text_chars|..].
    + rewrite show_groups_cons by done. rewrite <- app_assoc. by apply group_not_v4; [apply hex_text_chars|..].
Qed.

Lemma parse_ip_to_string ip : length (addr_octets ip) = addr_len ip -> bytes_ok (addr_octets ip) -> parse_ip (ip_to_string ip) = Some ip.
Proof.
  destruct ip as [o|o]; cbn [addr_octets addr_len ip_to_string]; intros Hl Ho; [by apply parse_ip_v4|].
  destruct (segments_octets o 8 Hl Ho) as (Hs & Hn & Hu). unfold show_v6. case_decide as Hm.
  - destruct Hm as [H5 H6]. apply parse_ip_v6_text; [done|]. rewrite read_mapped; [|rewrite length_drop; lia|by apply Forall_drop].
    assert (segments o = [0; 0; 0; 0; 0; 65535]%Z ++ drop 6 (segments o)) as Hseg.
    { rewrite <- (take_drop 6 (segments o)) at 1. f_equal. rewrite (take_S_r _ _ 65535%Z); [by rewrite H5|]. rewrite <- H6. apply nthb_lookup. lia. }
    rewrite Hseg, fmap_app, concat_app in Hs. rewrite <- Hs. done.
  - destruct (zero_run 0 (0, 0) (0, 0) (segments o)) as [st ln] eqn:Hz.
    pose proof (zero_run_zeros [] (segments o) (0, 0) (0, 0) (zeros_at_empty _) (zeros_at_empty _) ltac:(by left)) as Hza. cbn [app length] in Hza. rewrite Hz in Hza.
    pose proof (zeros_split _ _ _ Hn Hza) as Hsp. destruct Hza as [Hzl _]. cbn [fst snd] in *. case_decide.
    + apply parse_ip_v6_text; [apply groups_not_v4; [by apply Forall_take|right; by eexists|by right]|].
      rewrite read_shortened; [|by apply Forall_take|by apply Forall_drop|rewrite length_take, length_drop; lia].
      do 2 f_equal. rewrite length_take, length_drop. replace (8 - st `min` length (segments o) - (length (segments o) - (st + ln))) with ln by lia.
      by rewrite <- Hsp, Hs.
    + apply parse_ip_v6_text; [|by rewrite read_full, Hs]. pose proof (groups_not_v4 (segments o) [] Hu) as H4. rewrite app_nil_r in H4.
      apply H4; [by left|left; lia].
Qed.

(** The text of an address reads back.  Every IPv4 and IPv6 address, printed the way
    [Display] prints it (dotted; shortest hexadecimal groups with the first longest run of
    zeros shortened; IPv4-mapped addresses in mixed notation), parses to the same address. *)
Theorem ip_text_roundtrip ip : length (addr_octets ip) = addr_len ip -> bytes_ok (addr_octets ip) -> parse_ip (ip_to_string ip) = Some ip.
Proof. apply parse_ip_to_string. Qed.

Lemma ip_text_witness : parse_ip (lit "2001:db8::1:0:0:1") = Some (V6 [0x20; 0x01; 0x0d; 0xb8; 0; 0; 0; 0; 0; 1; 0; 0; 0; 0; 0; 1]%Z).
Proof.
  refine (ip_text_roundtrip (V6 [0x20; 0x01; 0x0d; 0xb8; 0; 0; 0; 0; 0; 1; 0; 0; 0; 0; 0; 1]%Z) _ _); [by vm_compute|].
  apply (bool_decide_unpack _). by vm_compute.
Defined.

(** ** The characters of the text *)

Lemma show_v4_chars o : bytes_ok o -> Forall (fun c => c = 46%Z \/ 48 <= c <= 57)%Z (show_v4 o).
Proof.
  intros Ho. unfold show_v4. induction Ho as [|b o Hb Ho IH]; [by apply Forall_nil|].
  assert (Forall (fun c => c = 46%Z \/ 48 <= c <= 57)%Z (dec b)) as Hd.
  { unfold u_ok in Hb. destruct (dec_digits b) as (ds & -> & Hds & _); [lia|]. apply Forall_fmap. eapply Forall_impl; [exact Hds|]. intros d Hd. cbv beta in Hd. right. change (48 <= 48 + d <= 57)%Z. lia. }
  destruct o as [|b' o]; [done|]. rewrite fmap_cons, join_with_cons by done. apply Forall_app. split; [done|]. apply Forall_cons. split; [by left|done].
Qed.

Lemma show_groups_chars gs : Forall (u_ok 16) gs -> Forall (fun c => c = COLON \/ is_Some (to_digit 16 c)) (show_groups gs).
Proof.
  intros Hg. induction Hg as [|g gs Hg Hgs IH]; [by apply Forall_nil|].
  assert (Forall (fun c => c = COLON \/ is_Some (to_digit 16 c)) (hex_text 4 g [])) as Hd
    by (eapply Forall_impl; [by apply hex_text_chars|]; intros c Hc; by right).
  destruct gs as [|g' gs]; [done|]. rewrite show_groups_cons by done. apply Forall_app. split; [done|]. apply Forall_cons. split; [by left|done].
Qed.

Lemma to_digit_16 c : (48 <= c <= 57)%Z -> is_Some (to_digit 16 c).
Proof. intros Hc. unfold to_digit. rewrite (decide_True (P := 48 <= c <= 57)%Z) by done. rewrite decide_True by lia. by eexists. Qed.

Lemma ip_to_string_chars ip : length (addr_octets ip) = addr_len ip -> bytes_ok (addr_octets ip) ->
  Forall (fun c => c = 46%Z \/ c = COLON \/ is_Some (to_digit 16 c)) (ip_to_string ip).
Proof.
  assert (forall o, bytes_ok o -> Forall (fun c => c = 46%Z \/ c = COLON \/ is_Some (to_digit 16 c)) (show_v4 o)) as H4.
  { intros o Ho. eapply Forall_impl; [by apply show_v4_chars|].
    intros c [->|Hc]; [by left|]. do 2 right. by apply to_digit_16. }
  assert (forall gs, Forall (u_ok 16) gs -> Forall (fun c => c = 46%Z \/ c = COLON \/ is_Some (to_digit 16 c)) (show_groups gs)) as Hg.
  { intros gs Hgs. eapply Forall_impl; [by apply show_groups_chars|]. intros c Hc. by right. }
  destruct ip as [o|o]; cbn [addr_octets addr_len ip_to_string]; intros Hl Ho; [by apply H4|].
  destruct (segments_octets o 8 Hl Ho) as (_ & _ & Hu). unfold show_v6. case_decide.
  - apply Forall_app. split; [apply (bool_decide_unpack _); by vm_compute|]. apply H4. by apply Forall_drop.
  - destruct (zero_run 0 (0, 0) (0, 0) (segments o)) as [st ln]. case_decide; [|by apply Hg].
    apply Forall_app. split; [by apply Hg, Forall_take|]. cbn [app]. apply Forall_cons. split; [by right; left|]. apply Forall_cons. split; [by right; left|].
    by apply Hg, Forall_drop.
Qed.

(** A dotted address has no colon, any other at least two. *)
Lemma show_v4_no_colon o : bytes_ok o -> COLON ∉ show_v4 o.
Proof.
  intros Ho Hin. eapply (proj1 (Forall_forall _ _)) in Hin; [|by apply show_v4_chars].
  unfold COLON in Hin. lia.
Qed.
