(* ===== verification/QuerySegments.v ===== *)
(** * Segment files of the query log

    The writer of [src/querylog/worker.rs]: segment names, resuming the newest plain
    segment, appending a batch, rotation, pruning by age and number, and the listing of
    history files.  The clock, the amount a buffered writer has passed on to the file and
    I/O failures are arguments. *)

From stdpp Require Import gmap strings.
From S2P Require Import Prelude Order Hasher DnsName DnsQuery DnsRecords Utf8 DnsQname RustStr IpRange IpParse QueryRing QueryLog QueryHistory.

(** ** Names *)

Definition QUERYLOG : list Z := lit "querylog-".
Definition MSGPACK : list Z := lit ".msgpack".
Definition MSGPACK_GZ : list Z := lit ".msgpack.gz".

(** [n] decimal digits. *)
Fixpoint digits (n : nat) (z : Z) : list Z :=
  match n with
  | 0 => []
  | S n => digits n (z / 10) ++ [(48 + z mod 10)%Z]
  end.

(** [format!("querylog-{micros:020}.msgpack")]: 20 digits hold every time of the
    64-bit clock. *)
Definition segment_name (micros : Z) : list Z := QUERYLOG ++ digits 20 micros ++ MSGPACK.

Definition extract_file_timestamp (name : list Z) : option Z :=
  match strip_prefix QUERYLOG name with
  | None => None
  | Some rest =>
      match str_find DOT rest with
      | Some end_ => parse_uint 64 (take end_ rest)
      | None => None
      end
  end.

Definition is_plain (n : list Z) : bool := starts_with QUERYLOG n && ends_with MSGPACK n.
Definition is_segment (n : list Z) : bool :=
  starts_with QUERYLOG n && (ends_with MSGPACK n || ends_with MSGPACK_GZ n).

(** The names of a directory, sorted. *)
Definition names_of (d : LogDir) (p : list Z -> bool) : list (list Z) :=
  sort_names (List.filter p (fst <$> map_to_list d)).

(** ** Pruning *)

Definition remove_segment (d : LogDir) (path : list Z) : LogDir := delete (index_path path) (delete path d).

Definition MICROS_PER_DAY : Z := 86400000000.

(** The oldest time kept. *)
Definition cutoff (cfg : QueryLogFileConfig) (now : Z) : Z :=
  match retention_days cfg with
  | Some days => sat_sub now (Z.min (2 ^ 64 - 1) (days * MICROS_PER_DAY))
  | None => 0
  end.

Definition too_old (cfg : QueryLogFileConfig) (now : Z) (name : list Z) : bool :=
  bool_decide (default (2 ^ 64 - 1) (extract_file_timestamp name) < cutoff cfg now)%Z.

Definition prune_old_files (cfg : QueryLogFileConfig) (now : Z) (d : LogDir) : LogDir :=
  let files := names_of d is_segment in
  let old := List.filter (too_old cfg now) files in
  let files := List.filter (fun n => negb (too_old cfg now n)) files in
  let d := foldl remove_segment d old in
  let max := Z.to_nat (Z.max (max_segments cfg) 1) in
  if decide (max < length files) then foldl remove_segment d (take (length files - max) files) else d.

(** ** The writer *)

Record MsgpackFileState := mkFileState {
  ms_path : list Z;
  ms_buffer : list Z;
  bytes_written : Z;
  ms_index : HistoryIndex;
  index_dirty : bool
}.

(** Appending to an open file: once its name is gone the bytes reach no reader. *)
Definition file_append (d : LogDir) (path bytes : list Z) : LogDir :=
  match d !! path with Some c => <[path := c ++ bytes]> d | None => d end.

(** [OpenOptions::create(true).append(true)]. *)
Definition file_open (d : LogDir) (path : list Z) : LogDir :=
  match d !! path with Some _ => d | None => <[path := []]> d end.

Section writer.
Context `{HistoryCodecs}.

Definition find_resumable_segment (d : LogDir) (max_mb : Z) : option (list Z * HistoryIndex) :=
  match last (names_of d is_plain) with
  | None => None
  | Some name =>
      match d !! name with
      | None => None
      | Some c =>
          match load_index d name with
          | Err _ => None
          | Ok ix => if decide (Z.of_nat (length c) < wrap 64 (max_mb * 1048576))%Z then Some (name, ix) else None
          end
      end
  end.

Definition ms_open (cfg : QueryLogFileConfig) (now : Z) (d : LogDir) : LogDir * MsgpackFileState :=
  let '(path, ix) := default (segment_name now, index_empty) (find_resumable_segment d (max_mb cfg)) in
  let d := file_open d path in
  let size := match d !! path with Some c => Z.of_nat (length c) | None => 0%Z end in
  (prune_old_files cfg now d, mkFileState path [] size ix false).

(** [flush]: [ok] is false when the write fails. *)
Definition ms_flush (ok : bool) (d : LogDir) (st : MsgpackFileState) : LogDir * MsgpackFileState * bool :=
  if ok then
    let d := file_append d (ms_path st) (ms_buffer st) in
    let d := if index_dirty st then <[index_path (ms_path st) := index_json (ms_index st)]> d else d in
    (d, mkFileState (ms_path st) [] (bytes_written st) (ms_index st) false, true)
  else (d, st, false).

(** [rotate]: also the segment whose compression is started. *)
Definition ms_rotate (cfg : QueryLogFileConfig) (now : Z) (ok : bool) (d : LogDir) (st : MsgpackFileState)
    : LogDir * MsgpackFileState * option (list Z) * bool :=
  let '(d, st, ok) := ms_flush ok d st in
  if ok then
    let job := if compress cfg then Some (ms_path st) else None in
    let new_path := segment_name now in
    let d := file_open d new_path in
    (prune_old_files cfg now d, mkFileState new_path [] 0 index_empty false, job, true)
  else (d, st, None, false).

Fixpoint encode_all (batch : list QueryLogEvent) : option (list Z) :=
  match batch with
  | [] => Some []
  | ev :: batch =>
      match write_named ev, encode_all batch with
      | Some b, Some bs => Some (b ++ bs)
      | _, _ => None
      end
  end.

(** [append_batch]: [spill] is how much of the buffer the buffered writer passes on to
    the file meanwhile. *)
Definition ms_append_batch (cfg : QueryLogFileConfig) (now : Z) (spill : nat) (write_ok flush_ok : bool)
    (d : LogDir) (st : MsgpackFileState) (batch : list QueryLogEvent)
    : LogDir * MsgpackFileState * option (list Z) * bool :=
  match batch with
  | [] => (d, st, None, true)
  | _ =>
      match encode_all batch with
      | None => (d, st, None, false)
      | Some bytes =>
          if write_ok then
            let off := bytes_written st in
            let buffer := ms_buffer st ++ bytes in
            let d := file_append d (ms_path st) (take spill buffer) in
            let n := Z.of_nat (length bytes) in
            let st := mkFileState (ms_path st) (drop spill buffer) (wrap 64 (off + n))
                        (index_append (ms_index st) off n batch) true in
            if decide (Z.min (2 ^ 64 - 1) (max_mb cfg * 1048576) <= bytes_written st)%Z then
              ms_rotate cfg now flush_ok d st
            else (d, st, None, true)
          else (d, st, None, false)
      end
  end.

(** ** Listing *)

Record HistoryFileInfo := mkFileInfo {
  hf_name : list Z;
  size_bytes : Z;
  hf_total_entries : option Z;
  hf_start_micros : option Z;
  hf_end_micros : option Z;
  hf_indexed : bool
}.

Definition file_info (d : LogDir) (name : list Z) : HistoryFileInfo :=
  let size := match d !! name with Some c => Z.of_nat (length c) | None => 0%Z end in
  match load_index d name with
  | Ok ix => mkFileInfo name size (Some (total_entries ix)) (idx_start_micros ix) (idx_end_micros ix) true
  | Err _ => mkFileInfo name size None None None false
  end.

(** [trim_end_matches] of a suffix: as long as the text ends with it. *)
Fixpoint trim_suffix (fuel : nat) (suffix s : list Z) : list Z :=
  match fuel with
  | 0 => s
  | S fuel => match strip_prefix (rev suffix) (rev s) with Some r => trim_suffix fuel suffix (rev r) | None => s end
  end.

Definition stem (suffix s : list Z) : list Z := trim_suffix (length s) suffix s.

Definition list_history_files (d : LogDir) : list HistoryFileInfo :=
  let names := names_of d is_segment in
  let gz_stems := stem MSGPACK_GZ <$> List.filter (ends_with MSGPACK_GZ) names in
  file_info d <$> List.filter (fun n => negb (ends_with MSGPACK n) || negb (bool_decide (stem MSGPACK n ∈ gz_stems))) names.

End writer.
