(* ===== verification/QueryHistoryCorrect.v ===== *)
(** * Reading the query log back

    What a reader of a segment finds: the index the writer builds describes the blocks of
    the file, an indexed page is the page a scan of all events gives (when the events are in
    time order, or no time range is asked for), compression changes no page, and following
    the cursors lists every match once. *)

From stdpp Require Import gmap strings.
From S2P Require Import Prelude Order Hasher DnsName DnsQuery DnsRecords Utf8 DnsQname RustStr IpRange IpParse QueryRing QueryLog QueryHistory QuerySegments.

(** ** The reference page *)

(** The matching events from the cursor on, with their ordinals. *)
Fixpoint hits (q : HistoryQuery) (cursor ordinal : Z) (evs : list DecodedEvent) : list (Z * DecodedEvent) :=
  match evs with
  | [] => []
  | e :: evs =>
      (if decide (cursor <= ordinal)%Z then if event_matches e q then [(ordinal, e)] else [] else [])
      ++ hits q cursor (ordinal + 1) evs
  end.

Lemma hits_app q c o a b : hits q c o (a ++ b) = hits q c o a ++ hits q c (o + Z.of_nat (length a)) b.
Proof.
  revert o. induction a as [|e a IH]; intros o; cbn [app hits length].
  - by rewrite Z.add_0_r.
  - rewrite IH, <- app_assoc. do 3 f_equal. lia.
Qed.

Lemma hits_before q c o a : (o + Z.of_nat (length a) <= c)%Z -> hits q c o a = [].
Proof.
  revert o. induction a as [|e a IH]; intros o Ho; [done|]. cbn [hits length] in *.
  rewrite decide_False by lia. apply IH. lia.
Qed.

Lemma hits_none q c o a : Forall (fun e => event_matches e q = false) a -> hits q c o a = [].
Proof.
  intros H. revert o. induction H as [|e a He _ IH]; intros o; [done|]. cbn [hits]. rewrite He, IH. by case_decide.
Qed.

(** A later cursor changes nothing when the events skipped do not match. *)
Lemma hits_cursor q c c' o a b :
  (c <= o + Z.of_nat (length a))%Z -> (c' <= o + Z.of_nat (length a))%Z ->
  Forall (fun e => event_matches e q = false) a -> hits q c o (a ++ b) = hits q c' o (a ++ b).
Proof.
  intros Hc Hc' Ha. rewrite !hits_app, !(hits_none q _ o a) by done. cbn [app].
  set (k := (o + Z.of_nat (length a))%Z) in *. clearbody k. clear Ha. revert k Hc Hc'. induction b as [|e b IH]; intros k Hc Hc'; [done|].
  cbn [hits]. rewrite !decide_True by lia. f_equal. apply IH; lia.
Qed.

Lemma hits_snd_ordinal q c o a i h : hits q c o a !! i = Some h ->
  (c <= fst h)%Z /\ (o <= fst h < o + Z.of_nat (length a))%Z /\ event_matches (snd h) q = true.
Proof.
  revert o i. induction a as [|e a IH]; intros o i Hi; [done|]. cbn [hits length] in *.
  apply lookup_app_Some in Hi as [Hi|[_ Hi]].
  - repeat case_decide; try done. destruct (event_matches e q) eqn:He; [|done].
    apply list_lookup_singleton_Some in Hi as [_ <-]. cbn. split_and!; [lia|lia|lia|done].
  - apply IH in Hi as (?&?&?). split_and!; [lia|lia|lia|done].
Qed.

(** What a scan for a page of at most [limit] events, [acc] already found, gives. *)
Definition page_of (limit : nat) (acc : list DecodedEvent) (hs : list (Z * DecodedEvent))
    (r : list DecodedEvent * Z * bool) : Prop :=
  let '(acc', next, full) := r in
  acc' = take limit (acc ++ (snd <$> hs)) /\
  full = bool_decide (limit < length acc + length hs) /\
  (full = true -> exists e, hs !! (limit - length acc) = Some (next, e)).

Lemma scan_block_spec q limit cursor evs o acc next :
  length acc <= limit -> page_of limit acc (hits q cursor o evs) (scan_block q limit cursor o evs acc next).
Proof.
  revert o acc next. induction evs as [|e evs IH]; intros o acc next Hl; cbn [scan_block hits].
  - cbn. rewrite app_nil_r, take_ge by done. split_and!; [done| |done]. rewrite bool_decide_eq_false_2 by lia. done.
  - destruct (decide (o < cursor)%Z) as [Hd|Hd].
    + rewrite decide_False by lia. cbn [app]. by apply IH.
    + rewrite decide_True by lia. destruct (event_matches e q); [|by apply IH]. cbn [app fmap list_fmap snd].
      case_decide as Hlt.
      * specialize (IH (o + 1)%Z (acc ++ [e]) (o + 1)%Z). destruct (scan_block _ _ _ _ _ _ _) as [[acc' next'] full].
        unfold page_of in *. rewrite <- app_assoc in IH. cbn [app length] in *. rewrite length_app in IH. cbn [length] in IH.
        destruct IH as (-> & -> & H3); [lia|]. split_and!; [done| |].
        -- f_equal. apply bool_decide_ext. lia.
        -- intros Hf. destruct H3 as [e' He']; [rewrite <- Hf; apply bool_decide_ext; lia|]. exists e'.
           replace (limit - length acc) with (S (limit - (length acc + 1))) by lia. done.
      * split_and!.
        -- rewrite take_app_le by lia. by rewrite take_ge.
        -- rewrite bool_decide_eq_true_2; [done|]. cbn [length]. lia.
        -- intros _. exists e. by replace (limit - length acc) with 0 by lia.
Qed.

(** ** The layout of an indexed segment *)

(** Blocks of events, each with its encoded bytes. *)
Definition Group : Type := list QueryLogEvent * list Z.

Section layout.
Context `{HistoryCodecLaws}.

Definition group_ok (g : Group) : Prop :=
  fst g <> [] /\ encode_all (fst g) = Some (snd g) /\ (Z.of_nat (length (fst g)) < 2 ^ 32)%Z.

Definition events_of (gs : list Group) : list QueryLogEvent := concat (fst <$> gs).

(** How blocks are stored: as they are, or as gzip members. *)
Definition stored (comp : bool) (b : list Z) : list Z := if comp then gz_encode b else b.

Definition file_of (comp : bool) (gs : list Group) : list Z := concat ((fun g => stored comp (snd g)) <$> gs).

Definition micros_of (o : option QueryLogEvent) : Z := match o with Some ev => unix_micros ev | None => 0%Z end.

Definition block_of (comp : bool) (off ent : Z) (g : Group) : HistoryBlock :=
  mkBlock off (Z.of_nat (length (stored comp (snd g)))) ent (Z.of_nat (length (fst g)))
    (micros_of (head (fst g))) (micros_of (last (fst g))).

Fixpoint blocks_of (comp : bool) (off ent : Z) (gs : list Group) : list HistoryBlock :=
  match gs with
  | [] => []
  | g :: gs =>
      block_of comp off ent g
      :: blocks_of comp (off + Z.of_nat (length (stored comp (snd g)))) (ent + Z.of_nat (length (fst g))) gs
  end.

Definition index_of (comp : bool) (gs : list Group) : HistoryIndex :=
  mkIndex HISTORY_INDEX_VERSION comp (Z.of_nat (length (events_of gs)))
    (unix_micros <$> head (events_of gs)) (unix_micros <$> last (events_of gs)) (blocks_of comp 0 0 gs).

(** A segment stored under a name, with its index beside it. *)
Definition stored_segment (comp : bool) (gs : list Group) (d : LogDir) (path : list Z) : Prop :=
  Forall group_ok gs /\ d !! path = Some (file_of comp gs) /\ d !! index_path path = Some (index_json (index_of comp gs)) /\
  (Z.of_nat (length (file_of comp gs)) < 2 ^ 64)%Z /\ (Z.of_nat (length (events_of gs)) < 2 ^ 64)%Z.

Lemma events_of_cons g gs : events_of (g :: gs) = fst g ++ events_of gs.
Proof. done. Qed.

Lemma file_of_cons comp g gs : file_of comp (g :: gs) = stored comp (snd g) ++ file_of comp gs.
Proof. done. Qed.

Lemma encode_nonempty evs b : encode_all evs = Some b -> evs <> [] -> b <> [].
Proof.
  destruct evs as [|ev evs]; [done|]. cbn [encode_all]. destruct (write_named ev) as [b1|] eqn:Hw; [|done].
  destruct (encode_all evs) as [b2|]; [|done]. intros [= <-] _. apply write_nonempty in Hw. by destruct b1.
Qed.

Lemma stored_pos comp g : group_ok g -> (0 < Z.of_nat (length (stored comp (snd g))))%Z /\ (0 < Z.of_nat (length (fst g)))%Z.
Proof.
  intros (Hne & He & _). split; [|destruct (fst g); [done|cbn [length]; lia]].
  assert (stored comp (snd g) <> []) as Hs; [|destruct (stored comp (snd g)); [done|cbn [length]; lia]].
  unfold stored. destruct comp; [apply gz_nonempty|by eapply encode_nonempty].
Qed.

Lemma check_blocks_of comp gs off ent :
  Forall group_ok gs -> (0 <= off)%Z -> (0 <= ent)%Z -> (off + Z.of_nat (length (file_of comp gs)) < 2 ^ 64)%Z ->
  (ent + Z.of_nat (length (events_of gs)) < 2 ^ 64)%Z ->
  check_blocks (blocks_of comp off ent gs) off ent
  = Some (off + Z.of_nat (length (file_of comp gs)), ent + Z.of_nat (length (events_of gs)))%Z.
Proof.
  intros Hg. revert off ent. induction Hg as [|g gs Hg Hgs IH]; intros off ent H1 H2 H3 H4.
  - cbn. by rewrite !Z.add_0_r.
  - cbn [blocks_of check_blocks block_of offset blen first_entry entries]. rewrite file_of_cons, events_of_cons, !length_app in *.
    destruct (stored_pos comp g Hg) as [Hp1 Hp2]. rewrite decide_True by (split_and!; lia).
    rewrite IH by lia. do 2 f_equal; lia.
Qed.

Lemma load_index_of comp gs d path : stored_segment comp gs d path -> load_index d path = Ok (index_of comp gs).
Proof.
  intros (Hg & Hf & Hi & H1 & H2). unfold load_index. rewrite Hi, json_roundtrip.
  change (version (index_of comp gs)) with HISTORY_INDEX_VERSION. change (blocks (index_of comp gs)) with (blocks_of comp 0 0 gs).
  rewrite decide_True, Hf by done. rewrite check_blocks_of by (done || lia). by rewrite decide_True.
Qed.

Lemma decode_encoded evs b fuel rest : encode_all evs = Some b -> length b < fuel -> de_next rest = None ->
  decode_loop fuel (b ++ rest) = Ret (decoded <$> evs).
Proof.
  revert b fuel. induction evs as [|ev evs IH]; intros b fuel He Hf Hr.
  - injection He as <-. destruct fuel; [cbn in Hf; lia|]. cbn [decode_loop app]. by rewrite Hr.
  - cbn [encode_all] in He. destruct (write_named ev) as [b1|] eqn:Hw; [|done].
    destruct (encode_all evs) as [b2|]; [|done]. injection He as <-. rewrite length_app in Hf.
    pose proof (write_nonempty _ _ Hw) as Hne. destruct fuel as [|fuel]; [lia|]. cbn [decode_loop].
    rewrite <- app_assoc, (de_write _ _ _ Hw). rewrite (IH b2) by (done || (destruct b1; [done|cbn [length] in Hf; lia])). done.
Qed.

Lemma decode_block (comp : bool) g : group_ok g ->
  decode_msgpack_block (if comp then gz_decode (stored comp (snd g)) else stored comp (snd g)) = Ret (decoded <$> fst g).
Proof.
  intros (_ & He & _). assert ((if comp then gz_decode (stored comp (snd g)) else stored comp (snd g)) = snd g) as ->.
  { destruct comp; [apply gz_roundtrip|done]. }
  unfold decode_msgpack_block. rewrite <- (app_nil_r (snd g)) at 2. apply decode_encoded; [done|lia|apply de_nil].
Qed.

(** ** Time ranges *)

Definition in_time_order (evs : list QueryLogEvent) : Prop := StronglySorted (fun a b => unix_micros a <= unix_micros b)%Z evs.

Definition range_ok (q : HistoryQuery) (evs : list QueryLogEvent) : Prop :=
  in_time_order evs \/ (q_from q = None /\ q_to q = None).

Lemma range_ok_app q a b : range_ok q (a ++ b) -> range_ok q a /\ range_ok q b.
Proof.
  intros [Hs|Hs]; [|by split; right]. apply StronglySorted_app in Hs as (_ & Ha & Hb). by split; left.
Qed.

Lemma event_matches_range ev q : event_matches (decoded ev) q = true ->
  (forall from, q_from q = Some from -> from <= unix_micros ev)%Z /\ (forall to, q_to q = Some to -> unix_micros ev <= to)%Z.
Proof.
  unfold event_matches. rewrite !andb_true_iff. intros [[[[[[[H1 H2] _] _] _] _] _] _]. split.
  - intros from Hf. rewrite Hf in H1. by apply bool_decide_eq_true in H1.
  - intros to Ht. rewrite Ht in H2. by apply bool_decide_eq_true in H2.
Qed.

Lemma sorted_last evs ev : in_time_order evs -> ev ∈ evs -> (unix_micros ev <= micros_of (last evs))%Z.
Proof.
  intros Hs. destruct evs as [|e evs _] using rev_ind; [by intros ?%not_elem_of_nil|]. rewrite last_snoc. cbn [micros_of].
  apply StronglySorted_app in Hs as (Hx & _). intros [Hin|Hin%list_elem_of_singleton]%elem_of_app; [|subst; lia].
  apply (Hx ev e); [done|by left].
Qed.

Lemma sorted_head evs ev : in_time_order evs -> ev ∈ evs -> (micros_of (head evs) <= unix_micros ev)%Z.
Proof.
  intros Hs. destruct evs as [|e evs]; [by intros ?%not_elem_of_nil|]. cbn [head micros_of].
  apply StronglySorted_inv in Hs as [_ Hf]. rewrite Forall_forall in Hf. intros [->|Hin]%elem_of_cons; [lia|by apply Hf].
Qed.

(** A block that ends before the range has no match. *)
Lemma before_range q evs from : range_ok q evs -> q_from q = Some from -> (micros_of (last evs) < from)%Z ->
  Forall (fun e => event_matches e q = false) (decoded <$> evs).
Proof.
  intros [Hs|[? _]] Hf Hlt; [|congruence]. apply Forall_fmap, Forall_forall. intros ev Hin. cbn.
  destruct (event_matches _ _) eqn:Hm; [|done]. apply event_matches_range in Hm as [Hm _]. specialize (Hm _ Hf).
  pose proof (sorted_last _ _ Hs Hin). lia.
Qed.

(** Once a block starts after the range, neither it nor a later one has a match. *)
Lemma after_range q evs rest to : range_ok q (evs ++ rest) -> evs <> [] -> q_to q = Some to -> (to < micros_of (head evs))%Z ->
  Forall (fun e => event_matches e q = false) (decoded <$> evs ++ rest).
Proof.
  intros [Hs|[_ ?]] Hne Ht Hlt; [|congruence]. apply Forall_fmap, Forall_forall. intros ev Hin. cbn.
  destruct (event_matches _ _) eqn:Hm; [|done]. apply event_matches_range in Hm as [_ Hm]. specialize (Hm _ Ht).
  pose proof (sorted_head _ _ Hs Hin) as Hh. destruct evs; [done|]. cbn [app head] in *. lia.
Qed.

(** ** An indexed page is the reference page *)

Lemma read_blocks_spec comp ix q limit cursor gs pre off ent acc next :
  compressed_blocks ix = comp -> Forall group_ok gs -> range_ok q (events_of gs) -> length acc <= limit ->
  off = Z.of_nat (length pre) ->
  exists r, read_blocks ix q limit cursor (pre ++ file_of comp gs) (blocks_of comp off ent gs) acc next = Ret r /\
    page_of limit acc (hits q cursor ent (decoded <$> events_of gs)) r.
Proof.
  intros Hc Hg. revert pre off ent acc next. induction Hg as [|g gs Hg Hgs IH]; intros pre off ent acc next Hr Hl Hoff.
  - exists (acc, next, false). split; [done|]. cbn. rewrite app_nil_r, take_ge by done.
    split_and!; [done| |done]. by rewrite bool_decide_eq_false_2 by lia.
  - rewrite events_of_cons in *. pose proof (range_ok_app _ _ _ Hr) as [Hr1 Hr2]. rewrite fmap_app, hits_app, length_fmap.
    cbn [blocks_of read_blocks]. unfold block_of. cbn [first_entry entries end_micros start_micros offset blen].
    rewrite file_of_cons, app_assoc. set (off' := (off + _)%Z). set (ent' := (ent + _)%Z).
    assert (off' = Z.of_nat (length (pre ++ stored comp (snd g)))) as Hoff' by (unfold off'; rewrite length_app; lia).
    specialize (IH (pre ++ stored comp (snd g)) off' ent').
    case_decide as Hd1.
    { rewrite hits_before by (rewrite length_fmap; lia). cbn [app]. by apply IH. }
    destruct (match q_from q with Some _ => _ | None => false end) eqn:Hfrom.
    { destruct (q_from q) as [from|] eqn:Hq; [|done]. apply bool_decide_eq_true in Hfrom.
      rewrite (hits_none _ _ _ (decoded <$> fst g)) by by eapply before_range. cbn [app]. by apply IH. }
    destruct (match q_to q with Some _ => _ | None => false end) eqn:Hto.
    { destruct (q_to q) as [to|] eqn:Hq; [|done]. apply bool_decide_eq_true in Hto.
      pose proof (after_range q (fst g) (events_of gs) to Hr ltac:(apply Hg) Hq Hto) as Hn. rewrite fmap_app in Hn.
      apply Forall_app in Hn as [Hn1 Hn2]. rewrite !hits_none by done. exists (acc, next, false). split; [done|].
      cbn. rewrite app_nil_r, take_ge by done. split_and!; [done| |done]. by rewrite bool_decide_eq_false_2 by lia. }
    assert (take (Z.to_nat (Z.of_nat (length (stored comp (snd g))))) (drop (Z.to_nat off) ((pre ++ stored comp (snd g)) ++ file_of comp gs))
      = stored comp (snd g)) as ->.
    { rewrite Hoff, !Nat2Z.id, <- app_assoc, drop_app_length, take_app_length. done. }
    rewrite Hc, decode_block by done. cbn [obind].
    pose proof (scan_block_spec q limit cursor (decoded <$> fst g) ent acc next Hl) as Hs.
    destruct (scan_block _ _ _ _ _ _ _) as [[acc1 next1] full]. destruct Hs as (-> & -> & H3). unfold page_of in *. rewrite fmap_app.
    case_bool_decide as Hfull.
    + eexists. split; [done|]. split_and!.
      * rewrite !app_assoc, (take_app_le (acc ++ _)) by (rewrite length_app, length_fmap; lia). done.
      * rewrite bool_decide_eq_true_2; [done|]. rewrite length_app. lia.
      * intros _. destruct H3 as [e He]; [done|]. exists e. by apply lookup_app_l_Some.
    + destruct (IH (take limit (acc ++ (snd <$> hits q cursor ent (decoded <$> fst g)))) next1) as ([[acc' next'] full] & Hread & Hp);
        [done|rewrite length_take; lia|done|].
      rewrite Hread. eexists. split; [done|]. destruct Hp as (-> & -> & Hp).
      rewrite (take_ge (acc ++ _)) in * by (rewrite length_app, length_fmap; lia).
      rewrite !length_app, !length_fmap in *. split_and!.
      * by rewrite <- app_assoc.
      * apply bool_decide_ext. lia.
      * intros Hf. destruct Hp as [e He]; [done|]. exists e.
        rewrite lookup_app_r by lia. replace (limit - length acc - length (hits q cursor ent (decoded <$> fst g)))
          with (limit - (length acc + length (hits q cursor ent (decoded <$> fst g)))) by lia. done.
Qed.

(** The blocks skipped by the time range hold no match. *)
Lemma find_candidate comp gs off ent q :
  range_ok q (events_of gs) ->
  exists a b, gs = a ++ b /\ Forall (fun e => event_matches e q = false) (decoded <$> events_of a) /\
    match List.find (fun b => none_or (fun from => bool_decide (from <= end_micros b)%Z) (q_from q)) (blocks_of comp off ent gs) with
    | Some b => first_entry b
    | None => (ent + Z.of_nat (length (events_of gs)))%Z
    end = (ent + Z.of_nat (length (events_of a)))%Z.
Proof.
  revert off ent. induction gs as [|g gs IH]; intros off ent Hr.
  - by exists [], [].
  - rewrite events_of_cons in Hr. apply range_ok_app in Hr as [Hr1 Hr2]. cbn [blocks_of List.find block_of end_micros].
    destruct (none_or _ _) eqn:Hn.
    + exists [], (g :: gs). split_and!; [done|by apply Forall_nil|]. cbn. lia.
    + destruct (IH (off + Z.of_nat (length (stored comp (snd g))))%Z (ent + Z.of_nat (length (fst g)))%Z Hr2) as (a & b & -> & Ha & Hf).
      exists (g :: a), b. rewrite !events_of_cons, fmap_app, !length_app, !Nat2Z.inj_add, !Z.add_assoc. split_and!; [done| |by apply Hf].
      apply Forall_app. split; [|done]. unfold none_or in Hn. destruct (q_from q) as [from|] eqn:Hq; [|done].
      apply bool_decide_eq_false in Hn. apply (before_range q (fst g) from); [done|done|lia].
Qed.

Definition cursor_of (q : HistoryQuery) : Z := default 0%Z (q_cursor q).

(** The page a scan of all events gives. *)
Definition reference_page (q : HistoryQuery) (evs : list QueryLogEvent) : HistoryPage :=
  let hs := hits q (cursor_of q) 0 (decoded <$> evs) in
  mkPage (take (page_limit q) (snd <$> hs)) (Some (Z.of_nat (length evs)))
    (unix_micros <$> head evs) (unix_micros <$> last evs)
    (fst <$> hs !! page_limit q) (bool_decide (page_limit q < length hs)) true.

Lemma read_page_spec comp gs d path q :
  stored_segment comp gs d path -> range_ok q (events_of gs) -> (0 <= cursor_of q)%Z ->
  read_history_page d path q = Ret (Ok (reference_page q (events_of gs))).
Proof.
  intros Hst Hr Hc. unfold read_history_page. rewrite (load_index_of comp gs) by done. destruct Hst as (Hg & Hf & _).
  unfold read_indexed_history_page. rewrite Hf.
  destruct (find_candidate comp gs 0 0 q Hr) as (a & b & -> & Ha & Hfc).
  change (match List.find _ (blocks_of comp 0 0 (a ++ b)) with Some b => first_entry b | None => _ end)
    with (first_candidate (index_of comp (a ++ b)) q) in Hfc. rewrite Z.add_0_l in Hfc. rewrite Hfc.
  set (k := Z.of_nat (length (events_of a))). set (cursor := Z.max _ k).
  assert (hits q cursor 0 (decoded <$> events_of (a ++ b)) = hits q (cursor_of q) 0 (decoded <$> events_of (a ++ b))) as Hh.
  { unfold events_of. rewrite fmap_app, concat_app, fmap_app. fold (events_of a). unfold cursor_of in *.
    destruct (q_cursor q) as [c|]; unfold default, from_option, id in *; [destruct (decide (c <= k)%Z)|].
    - apply hits_cursor; rewrite ?length_fmap; [unfold cursor; lia|unfold k in *; lia|done].
    - f_equal. unfold cursor. lia.
    - apply hits_cursor; rewrite ?length_fmap; [unfold cursor; lia|lia|done]. }
  destruct (read_blocks_spec comp (index_of comp (a ++ b)) q (page_limit q) cursor (a ++ b) [] 0 0 [] cursor)
    as ([[acc next] full] & Hread & (-> & -> & Hp)); [done|done|done|cbn; lia|done|].
  change (blocks (index_of comp (a ++ b))) with (blocks_of comp 0 0 (a ++ b)). cbn [app] in Hread. rewrite Hread. cbn [obind].
  unfold reference_page. cbn [app length Nat.add] in *. rewrite Nat.sub_0_r, Hh in *. do 2 f_equal. cbn [app].
  f_equal. case_bool_decide as Hlt.
  - destruct Hp as [e He]; [done|]. by rewrite He.
  - by rewrite lookup_ge_None_2 by lia.
Qed.

(** ** Following the cursors *)

Lemma hits_same q c c' o evs : (c <= o)%Z -> (c' <= o)%Z -> hits q c o evs = hits q c' o evs.
Proof. intros. apply (hits_cursor q c c' o [] evs); cbn; [lia|lia|by apply Forall_nil]. Qed.

Lemma hits_resume q c o evs k h : hits q c o evs !! k = Some h -> hits q (fst h) o evs = drop k (hits q c o evs).
Proof.
  revert o k. induction evs as [|e evs IH]; intros o k Hk; [done|]. cbn [hits] in *.
  destruct (decide (c <= o)%Z) as [Hc|Hc]; [destruct (event_matches e q) eqn:Hm|]; cbn [app] in *.
  - destruct k as [|k].
    + injection Hk as <-. cbn [fst drop]. rewrite decide_True by lia. cbn [app]. f_equal. apply hits_same; lia.
    + change (((o, e) :: hits q c (o + 1) evs) !! S k) with (hits q c (o + 1) evs !! k) in Hk.
      pose proof (hits_snd_ordinal _ _ _ _ _ _ Hk). rewrite decide_False by lia. cbn [app drop]. by apply IH.
  - case_decide; cbn [app]; by apply IH.
  - pose proof (hits_snd_ordinal _ _ _ _ _ _ Hk). rewrite decide_False by lia. cbn [app]. by apply IH.
Qed.

Lemma hits_all q o evs : snd <$> hits q o o evs = List.filter (fun e => event_matches e q) evs.
Proof.
  revert o. induction evs as [|e evs IH]; intros o; [done|]. cbn [hits List.filter]. rewrite decide_True by lia.
  rewrite fmap_app, (hits_same q o (o + 1)) by lia. rewrite IH. by destruct (event_matches e q).
Qed.

Definition with_cursor (q : HistoryQuery) (c : option Z) : HistoryQuery :=
  mkQuery (q_limit q) c (q_from q) (q_to q) (q_qname q) (q_rcode q) (q_source q) (q_upstream q) (q_client q) (q_qtype q).

(** A client that asks for page after page. *)
Fixpoint read_all (fuel : nat) (d : LogDir) (path : list Z) (q : HistoryQuery) : outcome (result history_error (list DecodedEvent)) :=
  match fuel with
  | 0 => OutOfFuel
  | S fuel =>
      let* page := read_history_page d path q in
      match next_cursor page with
      | Some c => let* rest := read_all fuel d path (with_cursor q (Some c)) in Ret (Ok (p_events page ++ rest))
      | None => Ret (Ok (p_events page))
      end
  end.

Lemma hits_with_cursor q c' c o evs : hits (with_cursor q c') c o evs = hits q c o evs.
Proof. revert o. induction evs as [|e evs IH]; intros o; [done|]. cbn [hits]. by rewrite IH. Qed.

Lemma page_limit_pos q : 1 <= page_limit q.
Proof. unfold page_limit. lia. Qed.

Lemma read_all_spec fuel comp gs d path q :
  stored_segment comp gs d path -> range_ok q (events_of gs) -> (0 <= cursor_of q)%Z ->
  length (hits q (cursor_of q) 0 (decoded <$> events_of gs)) < fuel ->
  read_all fuel d path q = Ret (Ok (snd <$> hits q (cursor_of q) 0 (decoded <$> events_of gs))).
Proof.
  intros Hst. revert q. induction fuel as [|fuel IH]; intros q Hr Hc Hf; [lia|]. cbn [read_all].
  rewrite (read_page_spec comp gs) by done. cbn [obind_res]. unfold reference_page. cbn [next_cursor p_events].
  set (hs := hits q _ _ _) in *. pose proof (page_limit_pos q) as Hpos.
  destruct (hs !! page_limit q) as [[c e]|] eqn:Hk; cbn [fmap option_fmap option_map fst].
  - pose proof (hits_resume _ _ _ _ _ _ Hk) as Hres. cbn [fst] in Hres.
    pose proof (hits_snd_ordinal _ _ _ _ _ _ Hk) as (? & ? & _). pose proof (lookup_lt_Some _ _ _ Hk).
    rewrite (IH (with_cursor q (Some c))).
    + cbn [obind_res]. unfold cursor_of at 1. cbn [q_cursor with_cursor default from_option]. unfold default, from_option, id.
      rewrite hits_with_cursor, Hres. fold hs. rewrite <- fmap_take, <- fmap_app, take_drop. done.
    + exact Hr.
    + unfold cursor_of. cbn [with_cursor q_cursor]. unfold default, from_option, id. cbn [fst] in *. lia.
    + unfold cursor_of at 1. cbn [with_cursor q_cursor]. unfold default, from_option, id. rewrite hits_with_cursor, Hres.
      fold hs. rewrite length_drop. lia.
  - apply lookup_ge_None_1 in Hk. rewrite take_ge by (rewrite length_fmap; lia). done.
Qed.

(** ** The index the writer keeps *)

Lemma encode_all_app a b x y : encode_all a = Some x -> encode_all b = Some y -> encode_all (a ++ b) = Some (x ++ y).
Proof.
  revert x. induction a as [|ev a IH]; intros x Ha Hb; [by injection Ha as <-|]. cbn [app encode_all] in *.
  destruct (write_named ev) as [b1|]; [|done]. destruct (encode_all a) as [b2|]; [|done]. injection Ha as <-.
  by rewrite (IH b2), app_assoc.
Qed.

Lemma encode_length evs b : encode_all evs = Some b -> length evs <= length b.
Proof.
  revert b. induction evs as [|ev evs IH]; intros b He; [cbn; lia|]. cbn [encode_all] in He.
  destruct (write_named ev) as [b1|] eqn:Hw; [|done]. destruct (encode_all evs) as [b2|]; [|done]. injection He as <-.
  apply write_nonempty in Hw. specialize (IH b2 eq_refl). rewrite length_app. destruct b1; [done|]. cbn [length]. lia.
Qed.

Lemma events_of_app a b : events_of (a ++ b) = events_of a ++ events_of b.
Proof. unfold events_of. by rewrite fmap_app, concat_app. Qed.

Lemma file_of_app comp a b : file_of comp (a ++ b) = file_of comp a ++ file_of comp b.
Proof. unfold file_of. by rewrite fmap_app, concat_app. Qed.

Lemma events_of_one g : events_of [g] = fst g.
Proof. unfold events_of. cbn. apply app_nil_r. Qed.

Lemma file_of_one comp g : file_of comp [g] = stored comp (snd g).
Proof. unfold file_of. cbn. apply app_nil_r. Qed.

Lemma events_le_file gs : Forall group_ok gs -> length (events_of gs) <= length (file_of false gs).
Proof.
  induction 1 as [|g gs (_ & He & _) _ IH]; [done|]. rewrite events_of_cons, file_of_cons, !length_app.
  apply encode_length in He. cbn [stored]. lia.
Qed.

Lemma blocks_of_snoc comp gs g off ent :
  blocks_of comp off ent (gs ++ [g]) = blocks_of comp off ent gs
    ++ [block_of comp (off + Z.of_nat (length (file_of comp gs))) (ent + Z.of_nat (length (events_of gs))) g].
Proof.
  revert off ent. induction gs as [|g' gs IH]; intros off ent.
  - cbn. by rewrite !Z.add_0_r.
  - cbn [app blocks_of]. rewrite IH, file_of_cons, events_of_cons, !length_app. cbn [app]. do 3 f_equal; f_equal; lia.
Qed.

Lemma map_last_snoc f l b : map_last f (l ++ [b]) = l ++ [f b].
Proof. unfold map_last. rewrite rev_app_distr. cbn. by rewrite rev_involutive. Qed.

Lemma index_snoc comp gs g :
  index_of comp (gs ++ [g]) = mkIndex HISTORY_INDEX_VERSION comp (Z.of_nat (length (events_of gs ++ fst g)))
    (unix_micros <$> head (events_of gs ++ fst g)) (unix_micros <$> last (events_of gs ++ fst g))
    (blocks_of comp 0 0 gs ++ [block_of comp (Z.of_nat (length (file_of comp gs))) (Z.of_nat (length (events_of gs))) g]).
Proof.
  unfold index_of. by rewrite blocks_of_snoc, events_of_app, !Z.add_0_l, events_of_one.
Qed.

Lemma head_app_default (a b : list QueryLogEvent) e : head b = Some e ->
  Some (default (unix_micros e) (unix_micros <$> head a)) = unix_micros <$> head (a ++ b).
Proof. destruct a; [|done]. cbn [app]. by intros ->. Qed.

Lemma last_app_batch (a b : list QueryLogEvent) : b <> [] -> last (a ++ b) = last b.
Proof. intros Hb. rewrite last_app. by destruct (last b) eqn:E; [|apply last_None in E]. Qed.

Lemma micros_of_some o ev : o = Some ev -> micros_of o = unix_micros ev.
Proof. by intros ->. Qed.

Lemma extends_block off ent total off' count g :
  total = (ent + Z.of_nat (length (fst g)))%Z -> off' = (off + Z.of_nat (length (snd g)))%Z ->
  (0 <= total < 2 ^ 64)%Z -> (0 <= off' < 2 ^ 64)%Z ->
  extends total count off' (block_of false off ent g) = bool_decide (Z.of_nat (length (fst g)) + count <= HISTORY_INDEX_STRIDE)%Z.
Proof.
  intros -> -> H1 H2. unfold extends, block_of. cbn [first_entry entries offset blen stored]. unfold wrap.
  rewrite !Z.mod_small by done. rewrite !(bool_decide_eq_true_2 (_ = _)) by done. by rewrite andb_true_l, andb_true_r.
Qed.

(** Appending a batch keeps the index that of a layout, with the batch at the end. *)
Lemma index_append_of gs batch bytes :
  Forall group_ok gs -> batch <> [] -> encode_all batch = Some bytes -> (Z.of_nat (length batch) < 2 ^ 32)%Z ->
  (Z.of_nat (length (file_of false gs ++ bytes)) < 2 ^ 64)%Z ->
  exists gs', index_append (index_of false gs) (Z.of_nat (length (file_of false gs))) (Z.of_nat (length bytes)) batch = index_of false gs' /\
    events_of gs' = events_of gs ++ batch /\ file_of false gs' = file_of false gs ++ bytes /\ Forall group_ok gs'.
Proof.
  intros Hg Hne He Hc Hb. pose proof (events_le_file gs Hg) as Hle. pose proof (encode_length _ _ He) as Hle2. rewrite length_app in Hb.
  destruct batch as [|first batch]; [done|]. set (bt := first :: batch) in *.
  destruct (last bt) as [e|] eqn:Hlast; [|by apply last_None in Hlast].
  assert (index_append (index_of false gs) (Z.of_nat (length (file_of false gs))) (Z.of_nat (length bytes)) bt
    = mkIndex HISTORY_INDEX_VERSION false (Z.of_nat (length (events_of gs ++ bt))) (unix_micros <$> head (events_of gs ++ bt))
        (unix_micros <$> last (events_of gs ++ bt))
        (if (match last (blocks_of false 0 0 gs) with
             | Some b => extends (Z.of_nat (length (events_of gs))) (Z.of_nat (length bt)) (Z.of_nat (length (file_of false gs))) b
             | None => false end)
         then map_last (fun b => mkBlock (offset b) (wrap 64 (blen b + Z.of_nat (length bytes))) (first_entry b)
                (wrap 32 (entries b + Z.of_nat (length bt))) (start_micros b) (unix_micros e)) (blocks_of false 0 0 gs)
         else blocks_of false 0 0 gs ++ [block_of false (Z.of_nat (length (file_of false gs))) (Z.of_nat (length (events_of gs))) (bt, bytes)])) as ->.
  { unfold index_append. unfold bt at 1. lazy match. rewrite Hlast. cbn [index_of version compressed_blocks total_entries idx_start_micros blocks].
    rewrite (head_app_default _ bt first), (last_app_batch _ bt), Hlast by done.
    unfold wrap at 1. rewrite Z.mod_small by lia. f_equal; [rewrite length_app; lia|]. destruct (match last _ with Some _ => _ | None => _ end); [done|].
    unfold block_of. cbn [stored fst snd]. unfold wrap. rewrite Z.mod_small by lia. by rewrite Hlast. }
  assert (Forall group_ok [(bt, bytes)]) as Hnew by (by apply Forall_singleton).
  destruct gs as [|g gs _] using rev_ind.
  - exists ([] ++ [(bt, bytes)]). rewrite index_snoc, events_of_app, file_of_app. split_and!; [done| | |done].
    + by rewrite events_of_one.
    + by rewrite file_of_one.
  - rewrite blocks_of_snoc, last_snoc. rewrite !Z.add_0_l.
    assert (length (events_of (gs ++ [g])) = length (events_of gs) + length (fst g) /\
            length (file_of false (gs ++ [g])) = length (file_of false gs) + length (snd g)) as [El Ef].
    { by rewrite events_of_app, file_of_app, !length_app, events_of_one, file_of_one. }
    apply Forall_app in Hg as [Hg Hg1]. destruct (proj1 (Forall_singleton _ _) Hg1) as (Hgne & Hge & Hgl).
    rewrite extends_block by lia.
    case_bool_decide as Hs.
    + exists (gs ++ [(fst g ++ bt, snd g ++ bytes)]). rewrite index_snoc, map_last_snoc. cbn [fst snd].
      rewrite !events_of_app, !file_of_app, !events_of_one, !file_of_one. cbn [fst snd stored]. split_and!.
      * rewrite <- !app_assoc. f_equal. f_equal. f_equal. unfold block_of. cbn [offset blen first_entry entries start_micros stored fst snd].
        unfold HISTORY_INDEX_STRIDE in Hs. rewrite !length_app. unfold wrap. rewrite !Z.mod_small by lia.
        f_equal; [lia|lia| |].
        -- destruct (fst g); [done|]. done.
        -- rewrite last_app_batch, Hlast by done. done.
      * by rewrite app_assoc.
      * by rewrite app_assoc.
      * apply Forall_app. split; [done|]. apply Forall_singleton. split_and!; cbn [fst snd].
        -- by destruct (fst g).
        -- by apply encode_all_app.
        -- unfold HISTORY_INDEX_STRIDE in Hs. rewrite length_app. lia.
    + exists ((gs ++ [g]) ++ [(bt, bytes)]). rewrite index_snoc, blocks_of_snoc, !Z.add_0_l, El, Ef.
      split_and!; [done| | |].
      * by rewrite (events_of_app (gs ++ [g])), events_of_one.
      * by rewrite (file_of_app _ (gs ++ [g])), file_of_one.
      * apply Forall_app. split; [by apply Forall_app|done].
Qed.
End layout.
