(* ===== verification/QuerySegmentsCorrect.v ===== *)
(** * Writing, pruning and compressing segments

    The names of segments carry their time and sort by it; pruning keeps the newest
    segments; whatever a run of the writer appended is what readers find, also after the
    segment was reopened by a restart or compressed, and at every moment of a
    compression. *)

From stdpp Require Import gmap strings.
From S2P Require Import Prelude Order Hasher DnsName DnsQuery DnsRecords Utf8 DnsQname RustStr IpRange IpParse QueryRing QueryLog QueryHistory QuerySegments QueryHistoryCorrect.

(** ** Names *)

Lemma length_digits n z : length (digits n z) = n.
Proof. revert z. induction n as [|n IH]; intros z; [done|]. cbn [digits]. rewrite length_app, IH. cbn [length]. lia. Qed.

Lemma digits_range n z : Forall (fun c => 48 <= c <= 57)%Z (digits n z).
Proof.
  revert z. induction n as [|n IH]; intros z; [by apply Forall_nil|]. cbn [digits]. apply Forall_app. split; [apply IH|].
  apply Forall_singleton. pose proof (Z.mod_pos_bound z 10 ltac:(lia)). lia.
Qed.

Lemma parse_digits_back n z acc : (0 <= z < 10 ^ Z.of_nat n)%Z -> (0 <= acc)%Z -> (acc * 10 ^ Z.of_nat n + z < 2 ^ 64)%Z ->
  parse_uint_digits 64 acc (digits n z) = Some (acc * 10 ^ Z.of_nat n + z)%Z.
Proof.
  revert z acc. induction n as [|n IH]; intros z acc Hz Ha Hb.
  - cbn in *. f_equal. lia.
  - rewrite Nat2Z.inj_succ, Z.pow_succ_r in * by lia. cbn [digits]. rewrite parse_uint_digits_app.
    pose proof (Z.div_mod z 10 ltac:(lia)) as Hdm. pose proof (Z.mod_pos_bound z 10 ltac:(lia)) as Hm.
    assert (0 <= z / 10 < 10 ^ Z.of_nat n)%Z as Hq by (split; [apply Z.div_pos; lia|apply Z.div_lt_upper_bound; lia]).
    rewrite IH by nia. cbn [parse_uint_digits]. rewrite decide_True by lia.
    rewrite decide_True by nia. f_equal. nia.
Qed.

Lemma parse_u64_digits20 z : (0 <= z < 2 ^ 64)%Z -> parse_uint 64 (digits 20 z) = Some z.
Proof.
  intros Hz. pose proof (digits_range 20 z) as Hr. pose proof (length_digits 20 z) as Hl.
  pose proof (parse_digits_back 20 z 0 ltac:(lia) ltac:(lia) ltac:(lia)) as Hp. rewrite Z.mul_0_l, Z.add_0_l in Hp.
  destruct (digits 20 z) as [|c ds]; [done|]. apply Forall_cons in Hr as [Hc _]. rewrite <- Hp. unfold parse_uint.
  assert (c <> 43%Z) as Hne by lia. destruct c as [|c|c]; try done. repeat (destruct c as [c|c|]; try done).
Qed.

(** Segment names carry their time. *)
Lemma segment_timestamp t : (0 <= t < 2 ^ 64)%Z -> extract_file_timestamp (segment_name t) = Some t.
Proof.
  intros Ht. unfold extract_file_timestamp, segment_name. rewrite (proj2 (strip_prefix_Some QUERYLOG _ (digits 20 t ++ MSGPACK)) eq_refl).
  assert (str_find DOT (digits 20 t ++ MSGPACK) = Some (length (digits 20 t))) as ->.
  { apply str_find_Some. exists (digits 20 t), (drop 1 MSGPACK). split_and!; [done|done|].
    intros Hin. pose proof (digits_range 20 t) as Hr. rewrite Forall_forall in Hr. apply Hr in Hin. unfold DOT in Hin. lia. }
  rewrite take_app_length. by apply parse_u64_digits20.
Qed.

(** Digits of the same length compare like the numbers. *)
Lemma list_cmp_app (a b x y : list Z) : length a = length b ->
  list_cmp Z.compare (a ++ x) (b ++ y) = match list_cmp Z.compare a b with Eq => list_cmp Z.compare x y | c => c end.
Proof.
  revert b. induction a as [|c a IH]; intros [|c' b] Hl; try done. cbn [app list_cmp]. destruct (c ?= c')%Z; [|done|done].
  apply IH. by injection Hl.
Qed.

Lemma digits_cmp n a b : (0 <= a < 10 ^ Z.of_nat n)%Z -> (0 <= b < 10 ^ Z.of_nat n)%Z ->
  list_cmp Z.compare (digits n a) (digits n b) = (a ?= b)%Z.
Proof.
  revert a b. induction n as [|n IH]; intros a b Ha Hb.
  - cbn in *. assert (a = b) as -> by lia. by rewrite Z.compare_refl.
  - rewrite Nat2Z.inj_succ, Z.pow_succ_r in * by lia. cbn [digits]. rewrite list_cmp_app by by rewrite !length_digits.
    pose proof (Z.div_mod a 10 ltac:(lia)). pose proof (Z.mod_pos_bound a 10 ltac:(lia)).
    pose proof (Z.div_mod b 10 ltac:(lia)). pose proof (Z.mod_pos_bound b 10 ltac:(lia)).
    rewrite IH by (split; [apply Z.div_pos; lia|apply Z.div_lt_upper_bound; lia]).
    destruct (Z.compare_spec (a / 10) (b / 10)) as [E|E|E]; cbn [list_cmp].
    + destruct (Z.compare_spec (48 + a mod 10) (48 + b mod 10)) as [E'|E'|E']; symmetry.
      * apply Z.compare_eq_iff. lia.
      * apply Z.compare_lt_iff. lia.
      * apply Z.compare_gt_iff. lia.
    + symmetry. apply Z.compare_lt_iff. lia.
    + symmetry. apply Z.compare_gt_iff. lia.
Qed.

(** Segment names sort by time. *)
Lemma segment_order a b : (0 <= a < 2 ^ 64)%Z -> (0 <= b < 2 ^ 64)%Z -> str_le (segment_name a) (segment_name b) <-> (a <= b)%Z.
Proof.
  intros Ha Hb. unfold str_le, segment_name. rewrite list_cmp_app by done.
  rewrite (cmp_refl (list_cmp Z.compare)), list_cmp_app by by rewrite !length_digits.
  rewrite digits_cmp by (change (10 ^ Z.of_nat 20)%Z with (10 ^ 20)%Z; lia). rewrite (cmp_refl (list_cmp Z.compare)).
  destruct (Z.compare_spec a b); split; intros; try done; lia.
Qed.

(** ** Directory listings *)

Lemma names_of_elem d p n : n ∈ names_of d p <-> is_Some (d !! n) /\ p n = true.
Proof.
  unfold names_of, sort_names. rewrite merge_sort_Permutation, elem_of_lfilter, list_elem_of_fmap.
  split; intros [H Hp]; split; try done.
  - destruct H as ([k c] & -> & Hk). apply elem_of_map_to_list in Hk. by exists c.
  - destruct H as [c Hc]. exists (n, c). split; [done|]. by apply elem_of_map_to_list.
Qed.

Lemma names_of_nodup d p : NoDup (names_of d p).
Proof.
  unfold names_of, sort_names. rewrite merge_sort_Permutation. apply NoDup_ListNoDup, List.NoDup_filter, NoDup_ListNoDup, NoDup_fst_map_to_list.
Qed.

Lemma names_of_sorted d p : Sorted str_le (names_of d p).
Proof. apply Sorted_merge_sort, _. Qed.

Lemma names_of_single d p n : is_Some (d !! n) -> p n = true -> (forall m, is_Some (d !! m) -> p m = true -> m = n) -> names_of d p = [n].
Proof.
  intros Hn Hp Hu. pose proof (names_of_nodup d p) as Hnd. assert (forall m, m ∈ names_of d p <-> m = n) as He.
  { intros m. rewrite names_of_elem. split; [intros [H1 H2]; by apply Hu|by intros ->]. }
  destruct (names_of d p) as [|a l]; [by destruct (not_elem_of_nil n); apply He|].
  assert (a = n) as -> by (apply He; by left). destruct l as [|b l]; [done|].
  assert (b = n) as -> by (apply He; right; by left). apply NoDup_cons in Hnd as [Hnd _]. destruct Hnd. by left.
Qed.

Lemma ends_with_app s x : ends_with s (x ++ s) = true.
Proof. unfold ends_with. rewrite rev_app_distr. apply starts_with_true. by eexists. Qed.

Lemma segment_is_plain t : is_plain (segment_name t) = true /\ is_segment (segment_name t) = true.
Proof.
  unfold is_plain, is_segment, segment_name. assert (starts_with QUERYLOG (QUERYLOG ++ digits 20 t ++ MSGPACK) = true) as -> by
    (apply starts_with_true; by eexists).
  rewrite app_assoc, ends_with_app. done.
Qed.

Lemma index_not_segment n : is_plain (index_path n) = false /\ is_segment (index_path n) = false.
Proof.
  unfold is_plain, is_segment, index_path, ends_with. rewrite rev_app_distr. split; by rewrite andb_comm.
Qed.

(** ** Pruning *)

Lemma remove_segments_lookup l d n :
  foldl remove_segment d l !! n = if decide (n ∈ l \/ n ∈ index_path <$> l) then None else d !! n.
Proof.
  revert d. induction l as [|a l IH]; intros d; cbn [foldl].
  - rewrite decide_False; [done|]. intros [?%not_elem_of_nil|?%not_elem_of_nil]; done.
  - rewrite IH, fmap_cons. unfold remove_segment. destruct (decide (n ∈ l \/ n ∈ index_path <$> l)) as [Hin|Hin].
    + rewrite decide_True; [done|]. destruct Hin; [left|right]; by right.
    + destruct (decide (n = a)) as [->|Ha]; [|destruct (decide (n = index_path a)) as [->|Hi]].
      * rewrite decide_True by (left; by left). apply lookup_delete_None. right. apply lookup_delete_eq.
      * rewrite decide_True by (right; by left). by rewrite lookup_delete_eq.
      * rewrite decide_False by (intros [[?|?]%elem_of_cons|[?|?]%elem_of_cons]; tauto).
        by rewrite !lookup_delete_ne by congruence.
Qed.

Lemma sorted_names_eq l k : Sorted str_le l -> Sorted str_le k -> NoDup l -> NoDup k -> (forall n, n ∈ l <-> n ∈ k) -> l = k.
Proof.
  intros Hl Hk Nl Nk He. apply (Sorted_unique str_le); [done|done|]. by apply NoDup_Permutation.
Qed.

Lemma sorted_drop n (l : list (list Z)) : Sorted str_le l -> Sorted str_le (drop n l).
Proof. revert l. induction n as [|n IH]; intros [|a l] H; try done. cbn [drop]. apply IH. by apply Sorted_inv in H as [? _]. Qed.

Lemma sorted_filter p (l : list (list Z)) : Sorted str_le l -> Sorted str_le (List.filter p l).
Proof.
  intros H. apply Sorted_StronglySorted in H; [|apply _]. apply StronglySorted_Sorted.
  induction H as [|a l _ IH Hf]; cbn [List.filter]; [constructor|]. destruct (p a); [|done]. constructor; [done|].
  rewrite Forall_forall in *. intros x Hx. apply Hf. rewrite elem_of_lfilter in Hx. tauto.
Qed.

(** The segments pruning keeps: the newest that are not too old. *)
Definition kept_segments (cfg : QueryLogFileConfig) (now : Z) (d : LogDir) : list (list Z) :=
  lastn (Z.to_nat (Z.max (max_segments cfg) 1)) (List.filter (fun n => negb (too_old cfg now n)) (names_of d is_segment)).

(** The segments it removes. *)
Definition removed_segments (cfg : QueryLogFileConfig) (now : Z) (d : LogDir) : list (list Z) :=
  let files := List.filter (fun n => negb (too_old cfg now n)) (names_of d is_segment) in
  List.filter (too_old cfg now) (names_of d is_segment) ++ take (length files - Z.to_nat (Z.max (max_segments cfg) 1)) files.

Lemma prune_removes cfg now d : prune_old_files cfg now d = foldl remove_segment d (removed_segments cfg now d).
Proof.
  unfold prune_old_files, removed_segments. rewrite foldl_app. case_decide as Hd; [done|].
  by replace (_ - _) with 0 by lia.
Qed.

Lemma kept_or_removed cfg now d n : is_segment n = true -> is_Some (d !! n) ->
  n ∈ kept_segments cfg now d <-> n ∉ removed_segments cfg now d.
Proof.
  intros Hs Hd. unfold kept_segments, removed_segments. set (k := Z.to_nat _). set (files := List.filter (fun n => negb _) _).
  assert (n ∈ names_of d is_segment) as Hn by by apply names_of_elem.
  assert (NoDup files) as Hnd by (apply NoDup_ListNoDup, List.NoDup_filter, NoDup_ListNoDup, names_of_nodup).
  assert (forall x, x ∈ files <-> x ∈ names_of d is_segment /\ too_old cfg now x = false) as Hf.
  { intros x. unfold files. by rewrite elem_of_lfilter, negb_true_iff. }
  rewrite not_elem_of_app, elem_of_lfilter. unfold lastn.
  rewrite <- (take_drop (length files - k) files) in Hnd. apply NoDup_app in Hnd as (_ & Hdis & _).
  pose proof (Hf n) as Hfn. rewrite <- (take_drop (length files - k) files) in Hfn at 1. rewrite elem_of_app in Hfn.
  split.
  - intros Hk. split; [|intros Ht; by apply (Hdis n)]. destruct Hfn as [Hfn _]. destruct Hfn as [_ Ho]; [by right|]. rewrite Ho. by intros [].
  - intros [H1 H2]. destruct Hfn as [_ Hfn]. destruct Hfn as [?|?]; [|done|done]. split; [done|].
    destruct (too_old cfg now n); [|done]. by destruct H1.
Qed.

Lemma prune_lookup_segment cfg now d n : is_segment n = true ->
  prune_old_files cfg now d !! n = if decide (n ∈ removed_segments cfg now d) then None else d !! n.
Proof.
  intros Hs. rewrite prune_removes, remove_segments_lookup. destruct (decide (n ∈ removed_segments cfg now d)) as [Hr|Hr].
  - by rewrite decide_True by by left.
  - rewrite decide_False; [done|]. intros [?|Hi]; [done|]. apply list_elem_of_fmap in Hi as (m & -> & _).
    by rewrite (proj2 (index_not_segment m)) in Hs.
Qed.

(** Pruning.  Afterwards the directory holds exactly the newest [max_segments] segments
    (at least one) among those that are not older than the retention time, with their contents; a
    file that changed is a removed segment or its index. *)
Theorem prune_correct cfg now d :
  let d' := prune_old_files cfg now d in
  names_of d' is_segment = kept_segments cfg now d /\
  (forall n, n ∈ kept_segments cfg now d -> d' !! n = d !! n) /\
  (forall n, d' !! n <> d !! n -> d' !! n = None /\
     exists seg, (seg ∉ kept_segments cfg now d) /\ is_segment seg = true /\ (n = seg \/ n = index_path seg)).
Proof.
  cbv zeta. assert (forall n, n ∈ kept_segments cfg now d -> n ∈ names_of d is_segment) as Hk.
  { intros n Hn. unfold kept_segments, lastn in Hn. apply (sublist_subseteq _ _ (sublist_drop _ _)) in Hn.
    rewrite elem_of_lfilter in Hn. tauto. }
  split_and!.
  - apply sorted_names_eq.
    + apply names_of_sorted.
    + unfold kept_segments, lastn. apply sorted_drop, sorted_filter, names_of_sorted.
    + apply names_of_nodup.
    + unfold kept_segments, lastn. eapply sublist_NoDup; [|apply sublist_drop].
      apply NoDup_ListNoDup, List.NoDup_filter, NoDup_ListNoDup, names_of_nodup.
    + intros n. rewrite names_of_elem. split.
      * intros [Hn Hs]. rewrite prune_lookup_segment in Hn by done. case_decide as Hr; [by destruct Hn|].
        by apply kept_or_removed.
      * intros Hn. pose proof (Hk n Hn) as Hm. apply names_of_elem in Hm as [Hd Hs]. split; [|done].
        rewrite prune_lookup_segment by done. rewrite decide_False; [done|]. by apply kept_or_removed.
  - intros n Hn. pose proof (Hk n Hn) as Hm. apply names_of_elem in Hm as [Hd Hs].
    rewrite prune_lookup_segment by done. rewrite decide_False; [done|]. by apply kept_or_removed.
  - intros n Hn. rewrite prune_removes, remove_segments_lookup in *. case_decide as Hr; [|done]. split; [done|].
    assert (forall seg, seg ∈ removed_segments cfg now d -> (seg ∉ kept_segments cfg now d) /\ is_segment seg = true) as Hseg.
    { intros seg Hin. assert (seg ∈ names_of d is_segment) as [Hd Hs]%names_of_elem.
      { unfold removed_segments in Hin. apply elem_of_app in Hin as [Hin|Hin].
        - rewrite elem_of_lfilter in Hin. tauto.
        - apply elem_of_take in Hin as (i & Hi & _). apply list_elem_of_lookup_2 in Hi.
          rewrite elem_of_lfilter in Hi. tauto. }
      split; [|done]. intros Hkept. by apply kept_or_removed in Hkept. }
    destruct Hr as [Hr|Hr].
    + exists n. destruct (Hseg n Hr). split_and!; [done|done|by left].
    + apply list_elem_of_fmap in Hr as (m & -> & Hm). exists m. destruct (Hseg m Hm). split_and!; [done|done|by right].
Qed.

(** ** A run of the writer *)

Section writer_run.
Context `{HistoryCodecLaws} (cfg : QueryLogFileConfig).

Definition size_limit : Z := Z.min (2 ^ 64 - 1) (max_mb cfg * 1048576).

(** The writer opened on an empty directory, then batches appended (up to the size at
    which it rotates) with any amount passed on to the file, flushes, and restarts after a flush
    that resume the segment. [evs] are the events appended so far. *)
Inductive writer_runs : LogDir -> MsgpackFileState -> list QueryLogEvent -> Prop :=
| wr_open now d st :
    (0 <= now < 2 ^ 64)%Z -> (forall days, retention_days cfg = Some days -> u_ok 32 days) ->
    ms_open cfg now ∅ = (d, st) -> writer_runs d st []
| wr_append d st evs now spill batch bytes d' st' job :
    writer_runs d st evs -> encode_all batch = Some bytes -> (Z.of_nat (length batch) < 2 ^ 32)%Z ->
    (bytes_written st + Z.of_nat (length bytes) < size_limit)%Z ->
    ms_append_batch cfg now spill true true d st batch = (d', st', job, true) ->
    writer_runs d' st' (evs ++ batch)
| wr_flush d st evs d' st' : writer_runs d st evs -> ms_flush true d st = (d', st', true) -> writer_runs d' st' evs
| wr_reopen d st evs now d' st' :
    writer_runs d st evs -> index_dirty st = false -> too_old cfg now (ms_path st) = false ->
    (Z.of_nat (length evs) <> 0)%Z -> (max_mb cfg * 1048576 < 2 ^ 64)%Z ->
    ms_open cfg now d = (d', st') -> writer_runs d' st' evs.

(** The state of a run: the file and the buffer hold the layout the index describes. *)
Definition writer_inv (d : LogDir) (st : MsgpackFileState) (evs : list QueryLogEvent) : Prop :=
  exists gs flushed, events_of gs = evs /\ Forall group_ok gs /\ ms_index st = index_of false gs /\
    d !! ms_path st = Some flushed /\ flushed ++ ms_buffer st = file_of false gs /\
    bytes_written st = Z.of_nat (length (file_of false gs)) /\ (bytes_written st < size_limit \/ gs = [])%Z /\
    (index_dirty st = false -> ms_buffer st = [] /\
       (gs <> [] -> d !! index_path (ms_path st) = Some (index_json (index_of false gs)))) /\
    is_plain (ms_path st) = true /\ is_segment (ms_path st) = true /\
    (forall n, is_Some (d !! n) -> n = ms_path st \/ n = index_path (ms_path st)).

Lemma index_path_ne n : index_path n <> n.
Proof.
  unfold index_path. intros E%(f_equal length). rewrite length_app in E.
  assert (length (lit ".index.json") <> 0) by done. lia.
Qed.

Lemma prune_keeps_single d now path : is_Some (d !! path) -> is_segment path = true ->
  (forall n, is_Some (d !! n) -> n = path \/ n = index_path path) -> too_old cfg now path = false ->
  prune_old_files cfg now d = d.
Proof.
  intros Hp Hs Hu Ho. unfold prune_old_files. rewrite (names_of_single d is_segment path); [|done|done|].
  - cbn [List.filter]. rewrite Ho. cbn [negb foldl length]. rewrite decide_False by lia. done.
  - intros m Hm Hs'. destruct (Hu m Hm) as [?| ->]; [done|]. by rewrite (proj2 (index_not_segment path)) in Hs'.
Qed.

Lemma segment_not_old now : (0 <= now < 2 ^ 64)%Z -> (forall days, retention_days cfg = Some days -> u_ok 32 days) ->
  too_old cfg now (segment_name now) = false.
Proof.
  intros Hn Hd. unfold too_old. rewrite segment_timestamp by done. apply bool_decide_eq_false.
  unfold default, from_option, id, cutoff, sat_sub. destruct (retention_days cfg) as [days|]; [|lia].
  specialize (Hd days eq_refl). unfold u_ok in Hd. unfold MICROS_PER_DAY. lia.
Qed.

Lemma inv_open now d st : (0 <= now < 2 ^ 64)%Z -> (forall days, retention_days cfg = Some days -> u_ok 32 days) ->
  ms_open cfg now ∅ = (d, st) -> writer_inv d st [].
Proof.
  intros Hn Hd Ho. unfold ms_open in Ho.
  assert (names_of ∅ is_plain = []) as Hnil. { unfold names_of. by rewrite map_to_list_empty. }
  unfold find_resumable_segment in Ho. rewrite Hnil in Ho. cbn [last] in Ho. unfold default, from_option, file_open in Ho.
  rewrite lookup_empty, lookup_insert_eq in Ho. cbn [length] in Ho.
  destruct (segment_is_plain now) as [Hp Hs].
  assert (forall n, is_Some ((<[segment_name now := []]> (∅ : LogDir)) !! n) -> n = segment_name now) as Hu.
  { intros n [c Hc]. destruct (decide (n = segment_name now)) as [|Hne]; [done|]. by rewrite lookup_insert_ne in Hc by congruence. }
  rewrite (prune_keeps_single _ now (segment_name now)) in Ho; [|by rewrite lookup_insert_eq|done|intros n Hn'; left; by apply Hu|by apply segment_not_old].
  injection Ho as <- <-. exists [], []. cbn [ms_index ms_path ms_buffer bytes_written index_dirty].
  split_and!; try done; try by right.
  - by rewrite lookup_insert_eq.
  - intros n Hn'. left. by apply Hu.
Qed.

Lemma quad_eq {A B C D} (a a' : A) (b b' : B) (c c' : C) (e e' : D) :
  (a, b, c, e) = (a', b', c', e') -> a = a' /\ b = b' /\ c = c' /\ e = e'.
Proof. by intros [= -> -> -> ->]. Qed.

Lemma file_append_some d path bytes c : d !! path = Some c -> file_append d path bytes = <[path := c ++ bytes]> d.
Proof. unfold file_append. by intros ->. Qed.

Lemma inv_append d st evs now spill batch bytes d' st' job :
  writer_inv d st evs -> encode_all batch = Some bytes -> (Z.of_nat (length batch) < 2 ^ 32)%Z ->
  (bytes_written st + Z.of_nat (length bytes) < size_limit)%Z ->
  ms_append_batch cfg now spill true true d st batch = (d', st', job, true) -> writer_inv d' st' (evs ++ batch).
Proof.
  intros (gs & fl & He & Hg & Hi & Hf & Hb & Hw & Hsz & Hcl & Hp & Hs & Hu) Henc Hl Hlim Ha. unfold ms_append_batch in Ha.
  destruct batch as [|ev batch].
  { injection Ha as <- <- _. rewrite app_nil_r. by exists gs, fl. }
  rewrite Henc in Ha. rewrite (file_append_some _ _ _ fl) in Ha by done. cbn [bytes_written] in Ha.
  assert (size_limit < 2 ^ 64)%Z as Hlim' by (unfold size_limit; lia).
  rewrite wrap_small in Ha by lia. fold size_limit in Ha. rewrite decide_False in Ha by lia.
  apply quad_eq in Ha as (<- & <- & _).
  destruct (index_append_of gs (ev :: batch) bytes) as (gs' & Hia & Hev & Hfi & Hok);
    [done|done|done|done|rewrite length_app; lia|].
  exists gs', (fl ++ take spill (ms_buffer st ++ bytes)). cbn [ms_index ms_path ms_buffer bytes_written index_dirty].
  rewrite Hi, Hw, Hia, lookup_insert_eq, Hev, He, Hfi. split_and!; try done.
  - rewrite <- app_assoc, take_drop, app_assoc, Hb. done.
  - rewrite length_app. lia.
  - left. rewrite Hw in Hlim. lia.
  - intros n [c Hc]. destruct (decide (n = ms_path st)) as [|Hne]; [by left|].
    rewrite lookup_insert_ne in Hc by congruence. apply Hu. by exists c.
Qed.

Lemma inv_flush d st evs d' st' : writer_inv d st evs -> ms_flush true d st = (d', st', true) -> writer_inv d' st' evs.
Proof.
  intros (gs & fl & He & Hg & Hi & Hf & Hb & Hw & Hsz & Hcl & Hp & Hs & Hu) Hfl. unfold ms_flush in Hfl.
  rewrite (file_append_some _ _ _ fl), Hb in Hfl by done. injection Hfl as <- <-. exists gs, (file_of false gs).
  cbn [ms_index ms_path ms_buffer bytes_written index_dirty]. rewrite app_nil_r.
  pose proof (index_path_ne (ms_path st)) as Hne.
  split_and!; try done.
  - destruct (index_dirty st); [rewrite lookup_insert_ne by done|]; apply lookup_insert_eq.
  - intros _. split; [done|]. intros Hgs. destruct (index_dirty st) eqn:Hd.
    + by rewrite lookup_insert_eq, Hi.
    + rewrite lookup_insert_ne by done. by apply Hcl.
  - intros n Hn. destruct (decide (n = ms_path st)) as [|H1]; [by left|]. destruct (decide (n = index_path (ms_path st))) as [|H2]; [by right|].
    apply Hu. destruct (index_dirty st); [rewrite lookup_insert_ne in Hn by done|]; by rewrite lookup_insert_ne in Hn.
Qed.

Lemma inv_stored d st evs : writer_inv d st evs -> index_dirty st = false -> evs <> [] ->
  exists gs, events_of gs = evs /\ stored_segment false gs d (ms_path st).
Proof.
  intros (gs & fl & He & Hg & Hi & Hf & Hb & Hw & Hsz & Hcl & _) Hd Hne. destruct (Hcl Hd) as [Hbuf Hidx].
  assert (gs <> []) as Hgs by (intros ->; done). exists gs. split; [done|]. rewrite Hbuf, app_nil_r in Hb. subst fl.
  pose proof (events_le_file gs Hg). destruct Hsz as [Hsz|?]; [|done]. unfold size_limit in Hsz. rewrite Hw in Hsz.
  split_and!; [done|done|by apply Hidx|lia|lia].
Qed.

Lemma inv_reopen d st evs now d' st' :
  writer_inv d st evs -> index_dirty st = false -> too_old cfg now (ms_path st) = false ->
  evs <> [] -> (max_mb cfg * 1048576 < 2 ^ 64)%Z ->
  ms_open cfg now d = (d', st') -> writer_inv d' st' evs.
Proof.
  intros Hinv Hd Ho Hne Hmb Hop. destruct (inv_stored _ _ _ Hinv Hd Hne) as (gs & He & Hst).
  destruct Hinv as (gs0 & fl & He0 & Hg & Hi & Hf & Hb & Hw & Hsz & Hcl & Hp & Hs & Hu).
  pose proof (load_index_of _ _ _ _ Hst) as Hload. destruct Hst as (Hg' & Hf' & Hidx & _).
  destruct (Hcl Hd) as [Hbuf Hidx0]. rewrite Hbuf, app_nil_r in Hb. subst fl.
  assert (file_of false gs0 = file_of false gs) as Hff by congruence.
  unfold ms_open, find_resumable_segment in Hop. rewrite (names_of_single d is_plain (ms_path st)) in Hop; [|by exists (file_of false gs)|done|].
  2:{ intros m Hm Hpm. destruct (Hu m Hm) as [?| ->]; [done|]. by rewrite (proj1 (index_not_segment (ms_path st))) in Hpm. }
  cbn [last] in Hop. rewrite Hf', Hload in Hop.
  assert (bytes_written st < size_limit)%Z as Hlt.
  { destruct Hsz as [Hsz| ->]; [done|]. by rewrite <- He0 in Hne. }
  unfold size_limit in Hlt. rewrite Hw, Hff in Hlt.
  rewrite decide_True in Hop by (unfold wrap; rewrite Z.mod_small; lia).
  unfold default, from_option, id, file_open in Hop. rewrite Hf', Hf' in Hop. rewrite (prune_keeps_single d now (ms_path st)) in Hop by (done || by exists (file_of false gs)).
  injection Hop as <- <-. exists gs, (file_of false gs). cbn [ms_index ms_path ms_buffer bytes_written index_dirty]. rewrite app_nil_r.
  split_and!; try done. left. unfold size_limit. lia.
Qed.

Lemma writer_runs_inv d st evs : writer_runs d st evs -> writer_inv d st evs.
Proof.
  induction 1; eauto using inv_open, inv_append, inv_flush.
  eapply inv_reopen; eauto. by intros ->.
Qed.
End writer_run.

(** ** Compression *)

Section compression.
Context `{HistoryCodecLaws}.

Lemma compress_blocks_of gs pre off ent out :
  off = Z.of_nat (length pre) ->
  compress_blocks (pre ++ file_of false gs) (blocks_of false off ent gs) out = Some (file_of true gs, blocks_of true out ent gs).
Proof.
  revert pre off ent out. induction gs as [|g gs IH]; intros pre off ent out Ho; [done|].
  rewrite file_of_cons. cbn [blocks_of compress_blocks block_of offset blen first_entry entries start_micros end_micros stored].
  rewrite Ho, !Nat2Z.id, decide_True by (rewrite !length_app; lia).
  rewrite drop_app_length, take_app_length, app_assoc.
  rewrite (IH (pre ++ snd g)) by (rewrite length_app; lia). done.
Qed.

(** Names built from one path differ when their endings do. *)
Ltac name_ne := unfold index_path, GZ; rewrite <- ?app_assoc; intros E;
  first [ apply app_inv_head in E; discriminate E
        | rewrite <- (app_nil_r _) in E at 1; apply app_inv_head in E; discriminate E
        | symmetry in E; rewrite <- (app_nil_r _) in E at 1; apply app_inv_head in E; discriminate E ].

Definition temp_path (path : list Z) : list Z := (path ++ GZ) ++ lit ".tmp".

Lemma compress_ops gs d path : stored_segment false gs d path -> gs <> [] ->
  compress_to_gz d path = Ok [WriteFile (temp_path path) (file_of true gs);
    WriteFile (index_path (temp_path path)) (index_json (index_of true gs));
    RenameFile (temp_path path) (path ++ GZ); RenameIfExists (index_path (temp_path path)) (index_path (path ++ GZ));
    RemoveFile path; RemoveFile (index_path path)].
Proof.
  intros Hst Hne. pose proof (load_index_of _ _ _ _ Hst) as Hl. destruct Hst as (Hg & Hf & _). unfold compress_to_gz.
  rewrite Hf, Hl. change (blocks (index_of false gs)) with (blocks_of false 0 0 gs).
  pose proof (compress_blocks_of gs [] 0 0 0 eq_refl) as Hc. cbn [app] in Hc.
  destruct (blocks_of false 0 0 gs) as [|b bs] eqn:Hb; [by destruct gs|]. rewrite Hc. done.
Qed.

(** ** Reading without an index *)

Lemma encode_layout gs : Forall group_ok gs -> encode_all (events_of gs) = Some (file_of false gs).
Proof.
  induction 1 as [|g gs (_ & He & _) _ IH]; [done|]. rewrite events_of_cons, file_of_cons. by apply encode_all_app.
Qed.

Lemma gunzip_layout gs : multi_gz_decode (file_of true gs) = file_of false gs.
Proof.
  unfold file_of. rewrite <- (multi_gz_members (snd <$> gs)). by rewrite <- list_fmap_compose.
Qed.

Lemma legacy_loop_spec q limit cursor evs : forall fuel b o acc,
  encode_all evs = Some b -> length b < fuel -> length acc <= limit -> (0 <= cursor)%Z -> (0 <= o)%Z ->
  (has_filter q = false /\ o + Z.of_nat (length evs) < 2 ^ 64 - 1 \/ o + Z.of_nat (length evs) < cursor + 10000)%Z ->
  exists r, legacy_loop fuel q limit cursor o b acc = Ret r /\ page_of limit acc (hits q cursor o (decoded <$> evs)) r.
Proof.
  assert (10000 <= max_scan q)%Z as Hms by (unfold max_scan; destruct (has_filter q); lia).
  assert (has_filter q = false -> max_scan q = 2 ^ 64 - 1)%Z as Hms' by (unfold max_scan; by intros ->).
  induction evs as [|ev evs IH]; intros fuel b o acc He Hf Hl Hc Ho Hscan; (destruct fuel as [|fuel]; [lia|]); cbn [legacy_loop].
  - injection He as <-. rewrite de_nil. eexists. split; [by case_decide|]. cbn. rewrite app_nil_r, take_ge by done.
    split_and!; [done| |done]. by rewrite bool_decide_eq_false_2 by lia.
  - rewrite decide_False by (unfold sat_sub; cbn [length] in Hscan; destruct Hscan as [[Hh ?]|?]; [rewrite (Hms' Hh)|]; lia).
    cbn [encode_all] in He. destruct (write_named ev) as [b1|] eqn:Hw; [|done]. destruct (encode_all evs) as [b2|]; [|done].
    injection He as <-. rewrite (de_write _ _ _ Hw). pose proof (write_nonempty _ _ Hw) as Hne.
    assert (length b2 < fuel) as Hf2 by (rewrite length_app in Hf; destruct b1; [done|cbn [length] in Hf; lia]).
    assert (has_filter q = false /\ (o + 1) + Z.of_nat (length evs) < 2 ^ 64 - 1 \/ (o + 1) + Z.of_nat (length evs) < cursor + 10000)%Z as Hscan'.
    { cbn [length] in Hscan. destruct Hscan as [[Hh ?]|?]; [left; split; [done|lia]|right; lia]. }
    cbn [fmap list_fmap hits]. destruct (decide (o < cursor)%Z) as [Hd|Hd].
    + rewrite decide_False by lia. cbn [app]. apply IH; done || lia.
    + rewrite (decide_True (P := (cursor <= o)%Z)) by lia. destruct (event_matches (decoded ev) q); [|cbn [app]; apply IH; done || lia]. cbn [app]. case_decide as Hlt.
      * destruct (IH fuel b2 (o + 1)%Z (acc ++ [decoded ev])) as ([[acc' next] full] & -> & Hp); try done; try lia.
        { rewrite length_app. cbn [length]. lia. }
        eexists. split; [done|]. unfold page_of in *. rewrite <- app_assoc, length_app in Hp. cbn [app length fmap list_fmap snd] in *.
        destruct Hp as (-> & -> & Hp). split_and!; [done|apply bool_decide_ext; lia|].
        intros Hfull. destruct Hp as [e' He']; [rewrite <- Hfull; apply bool_decide_ext; lia|]. exists e'.
        replace (limit - length acc) with (S (limit - (length acc + 1))) by lia. done.
      * eexists. split; [done|]. cbn [fmap list_fmap snd length]. split_and!.
        -- rewrite take_app_le by lia. by rewrite take_ge.
        -- by rewrite bool_decide_eq_true_2 by (cbn [length]; lia).
        -- intros _. exists (decoded ev). by replace (limit - length acc) with 0 by lia.
Qed.

(** The same events, cursor and continuation as the reference page. *)
Definition same_events (p r : HistoryPage) : Prop :=
  p_events p = p_events r /\ next_cursor p = next_cursor r /\ has_more p = has_more r.

Lemma read_legacy_spec comp gs d path q :
  Forall group_ok gs -> d !! path = Some (file_of comp gs) -> ends_with GZ path = comp -> (0 <= cursor_of q)%Z ->
  (has_filter q = false /\ Z.of_nat (length (events_of gs)) < 2 ^ 64 - 1 \/ Z.of_nat (length (events_of gs)) < cursor_of q + 10000)%Z ->
  exists page, read_legacy_history_page d path q = Ret (Ok page) /\ same_events page (reference_page q (events_of gs)).
Proof.
  intros Hg Hf Hgz Hc Hs. unfold read_legacy_history_page. rewrite Hf, Hgz.
  assert ((if comp then multi_gz_decode (file_of comp gs) else file_of comp gs) = file_of false gs) as ->.
  { destruct comp; [apply gunzip_layout|done]. }
  destruct (legacy_loop_spec q (page_limit q) (cursor_of q) (events_of gs) (S (length (file_of false gs))) (file_of false gs) 0 [])
    as ([[acc next] full] & Hl & Hp); [by apply encode_layout|lia|cbn; lia|done|lia|by rewrite !Z.add_0_l|].
  unfold cursor_of in Hl. rewrite Hl. cbn [obind]. eexists. split; [done|]. destruct Hp as (-> & -> & Hp).
  unfold same_events, reference_page. cbn [p_events next_cursor has_more app length Nat.add] in *. rewrite Nat.sub_0_r in *.
  split_and!; [done| |done]. case_bool_decide as Hlt.
  - destruct Hp as [e He]; [done|]. unfold cursor_of in *. by rewrite He.
  - by rewrite lookup_ge_None_2 by lia.
Qed.

(** ** Every moment of a compression *)

(** The form of a segment that is listed: the compressed one when it exists. *)
Definition preferred (d : LogDir) (path : list Z) : list Z :=
  match d !! (path ++ GZ) with Some _ => path ++ GZ | None => path end.

Lemma compress_states gs d path k : stored_segment false gs d path -> gs <> [] ->
  d !! (path ++ GZ) = None -> d !! index_path (path ++ GZ) = None -> (Z.of_nat (length (file_of true gs)) < 2 ^ 64)%Z ->
  forall ops, compress_to_gz d path = Ok ops ->
  let d' := run_ops d (take k ops) in
  (k < 3 /\ d' !! (path ++ GZ) = None /\ stored_segment false gs d' path) \/
  (k = 3 /\ d' !! (path ++ GZ) = Some (file_of true gs) /\ d' !! index_path (path ++ GZ) = None) \/
  (4 <= k /\ stored_segment true gs d' (path ++ GZ) /\ (6 <= k -> d' !! path = None)).
Proof.
  intros Hst Hne H1 H2 Hsz ops Hops. rewrite (compress_ops gs) in Hops by done. injection Hops as <-.
  destruct Hst as (Hg & Hf & Hi & Hs1 & Hs2).
  assert (N1 : temp_path path <> path) by (unfold temp_path; name_ne). assert (N2 : temp_path path <> path ++ GZ) by (unfold temp_path; name_ne).
  assert (N3 : index_path (temp_path path) <> path) by (unfold temp_path; name_ne). assert (N4 : index_path (temp_path path) <> path ++ GZ) by (unfold temp_path; name_ne).
  assert (N5 : temp_path path <> index_path path) by (unfold temp_path; name_ne). assert (N6 : index_path (temp_path path) <> index_path path) by (unfold temp_path; name_ne).
  assert (N7 : temp_path path <> index_path (path ++ GZ)) by (unfold temp_path; name_ne).
  assert (N8 : index_path (temp_path path) <> index_path (path ++ GZ)) by (unfold temp_path; name_ne).
  assert (N9 : index_path (temp_path path) <> temp_path path) by (unfold temp_path; name_ne).
  assert (N10 : path ++ GZ <> path) by name_ne. assert (N11 : index_path (path ++ GZ) <> path ++ GZ) by name_ne.
  assert (N12 : index_path (path ++ GZ) <> path) by name_ne. assert (N13 : index_path path <> path ++ GZ) by name_ne.
  assert (N14 : index_path path <> index_path (path ++ GZ)) by name_ne. pose proof (index_path_ne path) as N15.
  destruct k as [|[|[|[|[|[|[|k]]]]]]]; cbn [take run_ops foldl dir_step]; cbv zeta;
    repeat first [rewrite lookup_insert_eq | rewrite lookup_insert_ne by congruence | rewrite lookup_delete_eq | rewrite lookup_delete_ne by congruence].
  1-3: left; split_and!; [lia|by rewrite ?lookup_insert_ne|]; split_and!; by rewrite ?lookup_insert_ne.
  1: right; left; split_and!; [lia|done|done].
  all: right; right; split_and!; [lia| |first [lia|intros _]].
  all: repeat split; repeat first [rewrite lookup_insert_eq | rewrite lookup_insert_ne by congruence | rewrite lookup_delete_eq | rewrite lookup_delete_ne by congruence]; done.
Qed.
End compression.

(** ** What readers find *)

Section readers.
Context `{HistoryCodecLaws}.

Lemma reference_all q evs : cursor_of q = 0%Z -> snd <$> hits q (cursor_of q) 0 (decoded <$> evs) = List.filter (fun e => event_matches e q) (decoded <$> evs).
Proof. intros ->. apply hits_all. Qed.

Lemma hits_length q c o evs : length (hits q c o evs) <= length evs.
Proof.
  revert o. induction evs as [|e evs IH]; intros o; [done|]. cbn [hits length]. rewrite length_app. specialize (IH (o + 1)%Z).
  repeat case_decide; try destruct (event_matches e q); cbn [length]; lia.
Qed.


(** Compression loses nothing at any moment.  For a flushed segment of a run, whatever
    moment the compression is interrupted at, the form of the segment that is listed
    (the compressed one once it exists) gives for every unfiltered query the events,
    cursor and continuation of the reference page; before the renames and after them
    it gives the reference page itself, for every query; and once the compression is through
    the plain file is gone. *)
Theorem compress_crash_safe cfg d st evs q k ops :
  writer_runs cfg d st evs -> index_dirty st = false -> evs <> [] -> range_ok q evs -> (0 <= cursor_of q)%Z ->
  compress_to_gz d (ms_path st) = Ok ops ->
  (forall c, run_ops d ops !! (ms_path st ++ GZ) = Some c -> Z.of_nat (length c) < 2 ^ 64)%Z ->
  let d' := run_ops d (take k ops) in
  (k <> 3 -> read_history_page d' (preferred d' (ms_path st)) q = Ret (Ok (reference_page q evs))) /\
  (has_filter q = false -> (Z.of_nat (length evs) < 2 ^ 64 - 1)%Z ->
   exists page, read_history_page d' (preferred d' (ms_path st)) q = Ret (Ok page) /\ same_events page (reference_page q evs)) /\
  (6 <= k -> d' !! ms_path st = None).
Proof.
  intros Hr Hd Hne Hq Hc Hops Hsz. cbv zeta. apply writer_runs_inv in Hr. destruct (inv_stored cfg _ _ _ Hr Hd Hne) as (gs & He & Hst). subst evs.
  assert (gs <> []) as Hgs by (intros ->; done).
  destruct Hr as (gs0 & fl & _ & _ & _ & _ & _ & _ & _ & _ & Hp & Hs & Hu).
  assert (ms_path st ++ GZ <> ms_path st) as N1 by (intros E%(f_equal length); rewrite length_app in E; assert (length GZ <> 0) by done; lia).
  assert (d !! (ms_path st ++ GZ) = None) as H1.
  { apply eq_None_not_Some. intros Hn. apply Hu in Hn as [?|E]; [done|]. unfold index_path, GZ in E. by apply app_inv_head in E. }
  assert (d !! index_path (ms_path st ++ GZ) = None) as H2.
  { apply eq_None_not_Some. intros Hn. apply Hu in Hn as [E|E]; unfold index_path, GZ in E; rewrite <- ?app_assoc in E.
    - apply (f_equal length) in E. rewrite !length_app in E. assert (length (lit ".gz") <> 0) by done. lia.
    - by apply app_inv_head in E. }
  assert (Z.of_nat (length (file_of true gs)) < 2 ^ 64)%Z as H3.
  { apply Hsz. rewrite (compress_ops gs) in Hops by done. injection Hops as <-. cbn [run_ops foldl dir_step].
    unfold temp_path, index_path, GZ. rewrite <- !app_assoc.
    repeat first [rewrite lookup_insert_eq; try done | rewrite lookup_insert_ne by (intros E; apply app_inv_head in E; discriminate E)
      | rewrite lookup_delete_ne by (intros E; first [apply app_inv_head in E; discriminate E|apply (f_equal length) in E; rewrite !length_app in E; assert (length (lit ".gz") <> 0) by done; lia])]. }
  destruct (compress_states gs d (ms_path st) k Hst Hgs H1 H2 H3 ops Hops) as [(Hk & Hg & Hst')|[(-> & Hg & Hi)|(Hk & Hst' & Hgone)]];
    unfold preferred.
  - rewrite Hg. rewrite (read_page_spec false gs) by done. split_and!; [done| |lia]. intros _ _. by eexists.
  - rewrite Hg. split_and!; [done| |lia]. intros Hnf Hlen. unfold read_history_page.
    assert (load_index (run_ops d (take 3 ops)) (ms_path st ++ GZ) = Err NotFound) as -> by (unfold load_index; by rewrite Hi).
    apply (read_legacy_spec true gs); [apply Hst|done|apply ends_with_app|done|by left].
  - pose proof Hst' as (_ & Hg & _). rewrite Hg. rewrite (read_page_spec true gs) by done. split_and!; [done| |done]. intros _ _. by eexists.
Qed.

(** ** Where the log falls short *)

(** A legacy file is scanned only so far: when the first [max_scan] records do not
    match, the page is empty and says there is no more, whatever follows. *)
Theorem legacy_scan_stops_short d path q evs rest bytes :
  load_index d path = Err NotFound -> ends_with GZ path = false -> has_filter q = true -> q_cursor q = None ->
  Z.of_nat (length evs) = max_scan q -> Forall (fun e => event_matches e q = false) (decoded <$> evs) ->
  encode_all (evs ++ rest) = Some bytes -> d !! path = Some bytes ->
  read_history_page d path q = Ret (Ok (mkPage [] None None None None false false)).
Proof.
  intros Hl Hgz Hf Hc Hn Hm He Hd. unfold read_history_page. rewrite Hl. unfold read_legacy_history_page. rewrite Hd, Hgz, Hc.
  unfold default, from_option.
  assert (forall evs b fuel o, encode_all (evs ++ rest) = Some b -> length b < fuel -> (0 <= o)%Z ->
    (o + Z.of_nat (length evs) = max_scan q)%Z -> Forall (fun e => event_matches e q = false) (decoded <$> evs) ->
    legacy_loop fuel q (page_limit q) 0 o b [] = Ret ([], max_scan q, false)) as Hloop.
  { clear Hl Hgz Hf Hc Hn Hm He Hd evs bytes. induction evs as [|ev evs IH]; intros b fuel o He Hf Ho Hn Hm; (destruct fuel as [|fuel]; [lia|]); cbn [legacy_loop].
    - cbn [length] in Hn. rewrite decide_True by (unfold sat_sub; lia). do 3 f_equal. lia.
    - cbn [length] in Hn. rewrite decide_False by (unfold sat_sub; lia). cbn [app encode_all] in He.
      destruct (write_named ev) as [b1|] eqn:Hw; [|done]. destruct (encode_all (evs ++ rest)) as [b2|]; [|done].
      injection He as <-. rewrite (de_write _ _ _ Hw), decide_False by lia. pose proof (write_nonempty _ _ Hw) as Hne.
      apply Forall_cons in Hm as [-> Hm]. apply IH; [done| |lia|lia|done].
      rewrite length_app in Hf. destruct b1; [done|]. cbn [length] in Hf. lia. }
  rewrite (Hloop evs) by (done || lia). done.
Qed.

(** A restart resumes the newest plain segment even when it is older than the retention
    time, and then prunes it: the file the writer appends to has lost its name, and nothing
    appended afterwards reaches a reader. *)
Theorem resumed_segment_pruned cfg d st evs now d' st' batches :
  writer_runs cfg d st evs -> index_dirty st = false -> evs <> [] -> (max_mb cfg * 1048576 < 2 ^ 64)%Z ->
  too_old cfg now (ms_path st) = true -> ms_open cfg now d = (d', st') ->
  ms_path st' = ms_path st /\ d' !! ms_path st' = None /\
  forall spill, foldl (fun d bytes => file_append d (ms_path st') (take spill bytes)) d' batches = d'.
Proof.
  intros Hr Hd Hne Hmb Ho Hop. apply writer_runs_inv in Hr. destruct (inv_stored cfg _ _ _ Hr Hd Hne) as (gs & He & Hst).
  destruct Hr as (gs0 & fl & He0 & Hg & Hi & Hf & Hb & Hw & Hsz & Hcl & Hp & Hs & Hu).
  pose proof (load_index_of _ _ _ _ Hst) as Hload. destruct Hst as (Hg' & Hf' & Hidx & _).
  destruct (Hcl Hd) as [Hbuf _]. rewrite Hbuf, app_nil_r in Hb. subst fl. assert (file_of false gs0 = file_of false gs) as Hff by congruence.
  unfold ms_open, find_resumable_segment in Hop. rewrite (names_of_single d is_plain (ms_path st)) in Hop; [|by exists (file_of false gs)|done|].
  2:{ intros m Hm Hpm. destruct (Hu m Hm) as [?| ->]; [done|]. by rewrite (proj1 (index_not_segment (ms_path st))) in Hpm. }
  cbn [last] in Hop. rewrite Hf', Hload in Hop.
  assert (bytes_written st < size_limit cfg)%Z as Hlt.
  { destruct Hsz as [Hsz| ->]; [done|]. by rewrite <- He0 in Hne. }
  unfold size_limit in Hlt. rewrite Hw, Hff in Hlt. rewrite decide_True in Hop by (unfold wrap; rewrite Z.mod_small; lia).
  unfold default, from_option, id, file_open in Hop. rewrite Hf' in Hop. injection Hop as <- <-. cbn [ms_path].
  assert (prune_old_files cfg now d !! ms_path st = None) as Hgone.
  { rewrite prune_lookup_segment by done. rewrite decide_True; [done|]. unfold removed_segments. apply elem_of_app. left.
    apply elem_of_lfilter. split; [|done]. apply names_of_elem. split; [by exists (file_of false gs)|done]. }
  split_and!; [done|done|]. intros spill. generalize Hgone. generalize (prune_old_files cfg now d) as d0. clear.
  intros d0 Hd0. induction batches as [|b bs IH]; [done|]. cbn [foldl]. unfold file_append at 2. by rewrite Hd0.
Qed.
End readers.
