(* ===== verification/QueryHistoryExample.v ===== *)
(** * A concrete log

    An instance of the codecs the query log uses (one number per value), showing that
    their laws can hold; a small log written, read and compressed with it; and the
    time-range query that misses an event. *)

From stdpp Require Import gmap strings countable.
From S2P Require Import Prelude Order Hasher DnsName DnsQuery DnsRecords Utf8 DnsQname RustStr IpRange IpParse QueryRing QueryLog QueryHistory QuerySegments QueryHistoryCorrect QuerySegmentsCorrect.

#[export] Instance DecodedEvent_eq_dec : EqDecision DecodedEvent.
Proof. solve_decision. Defined.

#[export] Instance DecodedEvent_countable : Countable DecodedEvent.
Proof.
  apply (inj_countable'
    (fun e => ((d_seq e, d_unix_micros e, d_client e, d_client_port e, d_qname e), (d_qtype e, d_rcode e, d_elapsed_us e, d_response_bytes e, d_source e, d_upstream e)))
    (fun '((s, m, c, p, n), (t, r, el, b, so, u)) => mkDecoded s m c p n t r el b so u)).
  by intros [].
Defined.

#[export] Instance HistoryBlock_eq_dec : EqDecision HistoryBlock.
Proof. solve_decision. Defined.

#[export] Instance HistoryBlock_countable : Countable HistoryBlock.
Proof.
  apply (inj_countable' (fun b => (offset b, blen b, first_entry b, entries b, start_micros b, end_micros b))
    (fun '(o, l, f, n, s, e) => mkBlock o l f n s e)). by intros [].
Defined.

#[export] Instance HistoryIndex_eq_dec : EqDecision HistoryIndex.
Proof. solve_decision. Defined.

#[export] Instance HistoryIndex_countable : Countable HistoryIndex.
Proof.
  apply (inj_countable' (fun i => (version i, compressed_blocks i, total_entries i, idx_start_micros i, idx_end_micros i, blocks i))
    (fun '(v, c, t, s, e, b) => mkIndex v c t s e b)). by intros [].
Defined.

(** A value as one number. *)
Definition to_number {A} `{Countable A} (a : A) : Z := Zpos (countable.encode a).
Definition of_number {A} `{Countable A} (z : Z) : option A := match z with Zpos p => countable.decode p | _ => None end.

Lemma of_to_number {A} `{Countable A} (a : A) : of_number (to_number a) = Some a.
Proof. unfold of_number, to_number. apply decode_encode. Qed.

#[export] Instance number_codecs : HistoryCodecs := {|
  write_named ev := Some [to_number (decoded ev)];
  de_next b := match b with z :: rest => match of_number z with Some e => Some (e, rest) | None => None end | [] => None end;
  index_json ix := [to_number ix];
  index_from_json b := match b with [z] => of_number z | _ => None end;
  gz_encode b := [to_number b];
  gz_decode b := match b with [z] => default [] (of_number z) | _ => [] end;
  multi_gz_decode b := concat ((fun z => default [] (of_number z)) <$> b)
|}.

#[export] Instance number_codec_laws : HistoryCodecLaws.
Proof.
  split; cbn [write_named de_next index_json index_from_json gz_encode gz_decode multi_gz_decode number_codecs].
  - intros ev b rest [= <-]. cbn [app]. by rewrite of_to_number.
  - by intros ev b [= <-].
  - done.
  - intros [|z b] e rest; [done|]. destruct (of_number z); [|done]. intros [= _ <-]. cbn [length]. lia.
  - intros ix. apply of_to_number.
  - intros b. by rewrite of_to_number.
  - done.
  - intros bs. induction bs as [|b bs IH]; [done|]. cbn [fmap list_fmap concat app] in *. by rewrite of_to_number, IH.
Qed.

(** ** A small log *)

Definition example_cfg : QueryLogFileConfig := mkFileConfig (lit "/var/log/pathdns") 1 4 256 500 None true.

Definition example_event (t : Z) (name : string) : QueryLogEvent :=
  mkEvent t (1000 + t) (V4 [10; 0; 0; 1]%Z) 5353 (lit name) 1 0 120 64 (lit "cache") None.

Definition example_batch : list QueryLogEvent := [example_event 1 "a.org"; example_event 2 "b.org"; example_event 5 "a.org"].

Definition example_query : HistoryQuery := mkQuery 1 None (Some 1002%Z) None (Some (lit "a.org")) None None None None None.

(** The state after opening and appending one batch, all of it still buffered. *)
Definition opened := ms_open example_cfg 77 ∅.
Definition appended := ms_append_batch example_cfg 78 0 true true (fst opened) (snd opened) example_batch.
Definition flushed := ms_flush true (fst (fst (fst appended))) (snd (fst (fst appended))).

Lemma quad_surj {A B C D} (x : A * B * C * D) c e :
  snd (fst x) = c -> snd x = e -> x = (fst (fst (fst x)), snd (fst (fst x)), c, e).
Proof. by destruct x as [[[a b] c'] e']; intros <- <-. Qed.

Lemma example_run : writer_runs example_cfg (fst (fst (fst appended))) (snd (fst (fst appended))) ([] ++ example_batch).
Proof.
  apply (wr_append _ (fst opened) (snd opened) [] 78 0 example_batch (to_number <$> (decoded <$> example_batch)) _ _ None).
  - by apply (wr_open _ 77).
  - done.
  - done.
  - by vm_compute.
  - apply quad_surj; by vm_compute.
Qed.

Lemma example_sorted : in_time_order example_batch.
Proof. repeat constructor; cbn; lia. Qed.


Lemma example_flushed : writer_runs example_cfg (fst (fst flushed)) (snd (fst flushed)) example_batch.
Proof. apply (wr_flush _ _ _ _ _ _ example_run). reflexivity. Qed.

Definition example_ops : list dir_op :=
  match compress_to_gz (fst (fst flushed)) (ms_path (snd (fst flushed))) with Ok ops => ops | Err _ => [] end.

Lemma compress_crash_safe_witness :
  let d' := run_ops (fst (fst flushed)) (take 6 example_ops) in
  d' !! ms_path (snd (fst flushed)) = None /\
  read_history_page d' (preferred d' (ms_path (snd (fst flushed)))) example_query = Ret (Ok (reference_page example_query example_batch)).
Proof.
  destruct (compress_crash_safe example_cfg (fst (fst flushed)) (snd (fst flushed)) example_batch example_query 6 example_ops)
    as (H1 & _ & H3); [apply example_flushed|reflexivity|discriminate|left; apply example_sorted|reflexivity|by vm_compute| |].
  - intros c Hc. assert (length c = 1) as ->; [|lia].
    assert (length <$> (run_ops (fst (fst flushed)) example_ops !! (ms_path (snd (fst flushed)) ++ GZ)) = Some 1) as E by (by vm_compute).
    rewrite Hc in E. by injection E.
  - split; [apply H3; lia|apply H1; lia].
Defined.

(** ** Time ranges and events out of order *)

(** Two threads' events drained in the wrong order: the later one first. *)
Definition swapped_batch : list QueryLogEvent := [example_event 200 "a.org"; example_event 100 "b.org"].

Definition swapped := ms_append_batch example_cfg 78 0 true true (fst opened) (snd opened) swapped_batch.
Definition swapped_flushed := ms_flush true (fst (fst (fst swapped))) (snd (fst (fst swapped))).

(** A block is described by the times of its first and its last event, not by the
    earliest and the latest; the shards are drained in turn, so events of a batch need not
    be in time order.  A query from a time on then skips a block that holds a match. *)
Theorem time_range_misses :
  let q := mkQuery 10 None (Some 1150%Z) None None None None None None None in
  event_matches (decoded (example_event 200 "a.org")) q = true /\
  read_history_page (fst (fst swapped_flushed)) (ms_path (snd (fst swapped_flushed))) q
  = Ret (Ok (mkPage [] (Some 2%Z) (Some 1200%Z) (Some 1100%Z) None false true)).
Proof. split; by vm_compute. Qed.
