(* ===== verification/Rfc3339.v ===== *)
(** * Timestamps

    [micros_to_rfc3339] and [days_to_ymd] of [src/querylog/worker.rs]: the calendar date is
    the Gregorian one, for every time of the 64-bit microsecond clock. *)

From stdpp Require Import strings.
From S2P Require Import Prelude RustStr.

Definition days_to_ymd (days : Z) : Z * Z * Z :=
  let days := (days + 719468)%Z in
  let era := (days / 146097)%Z in
  let doe := (days mod 146097)%Z in
  let yoe := ((doe - doe / 1460 + doe / 36524 - doe / 146096) / 365)%Z in
  let y := (yoe + era * 400)%Z in
  let doy := (doe - (365 * yoe + yoe / 4 - yoe / 100))%Z in
  let mp := ((5 * doy + 2) / 153)%Z in
  let d := (doy - (153 * mp + 2) / 5 + 1)%Z in
  let m := if decide (mp < 10)%Z then (mp + 3)%Z else (mp - 9)%Z in
  let y := if decide (m <= 2)%Z then (y + 1)%Z else y in
  (wrap 32 y, wrap 32 m, wrap 32 d).

(** Decimal text, at least [width] digits. *)
Fixpoint dec_digits (fuel : nat) (n : Z) (acc : list Z) : list Z :=
  match fuel with
  | 0 => acc
  | S fuel =>
      let acc := (48 + n mod 10)%Z :: acc in
      if decide (n < 10)%Z then acc else dec_digits fuel (n / 10) acc
  end.

Definition dec_width (width : nat) (n : Z) : list Z :=
  let s := dec_digits 20 n [] in replicate (width - length s) 48%Z ++ s.

(** The fields of the text. *)
Record DateTime := mkDateTime { year : Z; month : Z; day : Z; hour : Z; minute : Z; second : Z; micro : Z }.

Definition fields_of (micros : Z) : DateTime :=
  let secs := (micros / 1000000)%Z in
  let frac := (micros mod 1000000)%Z in
  let days := (secs / 86400)%Z in
  let time_of_day := (secs mod 86400)%Z in
  let h := (time_of_day / 3600)%Z in
  let m := (time_of_day mod 3600 / 60)%Z in
  let s := (time_of_day mod 60)%Z in
  let '(y, mo, d) := days_to_ymd days in
  mkDateTime y mo d h m s frac.

Definition micros_to_rfc3339 (micros : Z) : list Z :=
  let f := fields_of micros in
  dec_width 4 (year f) ++ lit "-" ++ dec_width 2 (month f) ++ lit "-" ++ dec_width 2 (day f) ++ lit "T"
  ++ dec_width 2 (hour f) ++ lit ":" ++ dec_width 2 (minute f) ++ lit ":" ++ dec_width 2 (second f)
  ++ lit "." ++ dec_width 6 (micro f) ++ lit "Z".

Example rfc3339_epoch : micros_to_rfc3339 0 = lit "1970-01-01T00:00:00.000000Z".
Proof. by vm_compute. Qed.

Example rfc3339_sample : micros_to_rfc3339 951782400123456 = lit "2000-02-29T00:00:00.123456Z".
Proof. by vm_compute. Qed.

(** ** The Gregorian calendar *)

Definition leap (y : Z) : bool :=
  bool_decide (y mod 4 = 0)%Z && (negb (bool_decide (y mod 100 = 0)%Z) || bool_decide (y mod 400 = 0)%Z).

Definition month_days (y m : Z) : Z :=
  if decide (m = 2)%Z then (if leap y then 29 else 28)%Z
  else if decide (m = 4 \/ m = 6 \/ m = 9 \/ m = 11)%Z then 30%Z else 31%Z.

Definition valid_date (ymd : Z * Z * Z) : Prop :=
  let '(y, m, d) := ymd in (1 <= m <= 12)%Z /\ (1 <= d <= month_days y m)%Z.

Definition next_day (ymd : Z * Z * Z) : Z * Z * Z :=
  let '(y, m, d) := ymd in
  if decide (d < month_days y m)%Z then (y, m, d + 1)%Z
  else if decide (m < 12)%Z then (y, m + 1, 1)%Z
  else (y + 1, 1, 1)%Z.

(** *** Years of an era, which begin on 1 March *)

(** The first day of year [y] of an era. *)
Definition year_start (y : Z) : Z := (365 * y + y / 4 - y / 100 + y / 400)%Z.

Definition year_of_era (doe : Z) : Z := ((doe - doe / 1460 + doe / 36524 - doe / 146096) / 365)%Z.

Lemma year_of_era_spec doe : (0 <= doe < 146097)%Z ->
  (0 <= year_of_era doe < 400 /\ year_start (year_of_era doe) <= doe < year_start (year_of_era doe + 1))%Z.
Proof.
  intros H. unfold year_of_era, year_start. split; Z.to_euclidean_division_equations; lia.
Qed.

Lemma year_start_mono a b : (0 <= a)%Z -> (a < b)%Z -> (year_start (a + 1) <= year_start b)%Z.
Proof. intros. unfold year_start. Z.to_euclidean_division_equations. lia. Qed.

Lemma year_of_era_unique doe y : (0 <= doe < 146097)%Z -> (0 <= y)%Z -> (year_start y <= doe < year_start (y + 1))%Z -> year_of_era doe = y.
Proof.
  intros Hd Hy Hs. destruct (year_of_era_spec doe Hd) as [Hb Hs']. set (z := year_of_era doe) in *.
  destruct (Z.lt_trichotomy z y) as [Hlt|[->|Hlt]]; [|done|].
  - pose proof (year_start_mono z y ltac:(lia) Hlt). lia.
  - pose proof (year_start_mono y z ltac:(lia) Hlt). lia.
Qed.

Definition bit (b : bool) : Z := if b then 1%Z else 0%Z.

(** A year ends with the February of the next calendar year. *)
Lemma year_length y : (0 <= y)%Z -> (year_start (y + 1) - year_start y = 365 + bit (leap (y + 1)))%Z.
Proof.
  intros Hy. unfold leap. set (a := bool_decide ((y + 1) mod 4 = 0)%Z). set (b := bool_decide ((y + 1) mod 100 = 0)%Z).
  set (c := bool_decide ((y + 1) mod 400 = 0)%Z). unfold year_start.
  destruct a eqn:Ha; destruct b eqn:Hb; destruct c eqn:Hc; subst a b c; rewrite ?bool_decide_eq_true, ?bool_decide_eq_false in *;
    cbn [andb orb negb bit]; Z.to_euclidean_division_equations; lia.
Qed.

(** *** Months *)

Definition month_of (doy : Z) : Z * Z :=
  let mp := ((5 * doy + 2) / 153)%Z in
  ((if decide (mp < 10)%Z then mp + 3 else mp - 9)%Z, (doy - (153 * mp + 2) / 5 + 1)%Z).

(** The days of a month, given whether the year is a leap year. *)
Definition mdays (l : bool) (m : Z) : Z :=
  if decide (m = 2)%Z then (if l then 29 else 28)%Z
  else if decide (m = 4 \/ m = 6 \/ m = 9 \/ m = 11)%Z then 30%Z else 31%Z.

Definition next_md (l : bool) (md : Z * Z) : Z * Z :=
  let '(m, d) := md in
  if decide (d < mdays l m)%Z then (m, d + 1)%Z else if decide (m < 12)%Z then (m + 1, 1)%Z else (1, 1)%Z.

Definition check_doy (l : bool) (doy : nat) : bool :=
  let md := month_of (Z.of_nat doy) in
  let '(m, d) := md in
  bool_decide (1 <= m <= 12)%Z && bool_decide (1 <= d <= mdays l m)%Z
  && (if decide (doy = 364 + Z.to_nat (bit l)) then bool_decide (m = 2 /\ d = mdays l 2)%Z
      else bool_decide (next_md l md = month_of (Z.of_nat doy + 1)))
  && bool_decide (((m <= 2) <-> (306 <= Z.of_nat doy)) /\ (doy = 305%nat <-> (m, d) = (12, 31)))%Z.

Lemma doy_checked l : forallb (check_doy l) (seq 0 (365 + Z.to_nat (bit l))) = true.
Proof. destruct l; vm_compute; reflexivity. Qed.

Lemma doy_spec l doy : (0 <= doy < 365 + bit l)%Z ->
  let '(m, d) := month_of doy in
  (1 <= m <= 12 /\ 1 <= d <= mdays l m /\ (m <= 2 <-> 306 <= doy) /\ (doy = 305 <-> (m, d) = (12, 31)) /\
   (doy = 364 + bit l -> m = 2 /\ d = mdays l 2))%Z /\
  (doy <> 364 + bit l -> next_md l (m, d) = month_of (doy + 1))%Z.
Proof.
  intros Hd. pose proof (doy_checked l) as H. rewrite forallb_forall in H.
  assert (0 <= bit l <= 1)%Z as Hb by (destruct l; cbn; lia).
  specialize (H (Z.to_nat doy)). rewrite <- list_elem_of_In, elem_of_seq in H. specialize (H ltac:(lia)).
  unfold check_doy in H. rewrite Z2Nat.id in H by lia. destruct (month_of doy) as [m d] eqn:Hm.
  rewrite !andb_true_iff in H. destruct H as [[[H1 H2] H3] H4]. apply bool_decide_eq_true in H1, H2, H4.
  assert (Z.to_nat doy = 305 <-> doy = 305%Z) as H305 by lia. rewrite H305 in H4.
  case_decide as Hlast; apply bool_decide_eq_true in H3; (split; [split_and!; try tauto; try lia|]); intros; try lia; done.
Qed.

(** *** Dates of an era *)

Definition date_in_era (doe : Z) : Z * Z * Z :=
  let yoe := year_of_era doe in
  let '(m, d) := month_of (doe - year_start yoe) in
  ((if decide (m <= 2)%Z then yoe + 1 else yoe)%Z, m, d).

Lemma mdays_month y m : mdays (leap y) m = month_days y m.
Proof. done. Qed.

Lemma mdays_not_feb l l' m : m <> 2%Z -> mdays l m = mdays l' m.
Proof. intros. unfold mdays. by rewrite !(decide_False (P := (m = 2)%Z)) by done. Qed.

(** The successor of a date is the date of the next day. *)
Lemma era_step doe : (0 <= doe < 146097)%Z ->
  valid_date (date_in_era doe) /\
  next_day (date_in_era doe) = if decide (doe = 146096)%Z then (400, 3, 1)%Z else date_in_era (doe + 1).
Proof.
  intros Hd. destruct (year_of_era_spec doe Hd) as [Hy Hs]. unfold date_in_era. set (yoe := year_of_era doe) in *.
  pose proof (year_length yoe ltac:(lia)) as Hlen. set (l := leap (yoe + 1)) in *. set (doy := (doe - year_start yoe)%Z).
  assert (0 <= bit l <= 1)%Z as Hb by (destruct l; cbn; lia).
  pose proof (doy_spec l doy ltac:(unfold doy; lia)) as Hdoy. destruct (month_of doy) as [m d] eqn:Hmd.
  destruct Hdoy as [(Hm & Hdm & Hm2 & H305 & Hlast) Hnext].
  assert (forall y, (if decide (m <= 2)%Z then y = yoe + 1 else y = yoe)%Z -> month_days y m = mdays l m) as Hmon.
  { intros y Hyy. rewrite <- mdays_month. case_decide; [by subst y|]. apply mdays_not_feb. lia. }
  set (y := (if decide (m <= 2)%Z then yoe + 1 else yoe)%Z). assert (month_days y m = mdays l m) as Hmd' by (apply Hmon; unfold y; by case_decide).
  split; [unfold valid_date; rewrite Hmd'; lia|]. unfold next_day. rewrite Hmd'.
  destruct (decide (doy = 364 + bit l)%Z) as [He|Hne].
  - destruct (Hlast He) as [-> ->]. unfold y. rewrite (decide_False (P := (mdays l 2 < mdays l 2)%Z)), !decide_True by lia.
    destruct (decide (doe = 146096)%Z) as [Hend|Hend].
    + assert (yoe = 399)%Z as ->; [|done].
      assert (year_start 400 <= year_start (yoe + 1))%Z by (change (year_start 400) with 146097%Z; unfold doy in He; lia).
      destruct (decide (yoe < 399)%Z); [|lia]. pose proof (year_start_mono (yoe + 1) 400 ltac:(lia) ltac:(lia)).
      pose proof (year_length (yoe + 1) ltac:(lia)). destruct (leap (yoe + 1 + 1)); cbn [bit] in *; lia.
    + assert (year_of_era (doe + 1) = yoe + 1)%Z as ->.
      { apply year_of_era_unique; [lia|lia|]. pose proof (year_length (yoe + 1) ltac:(lia)) as Hl2.
        destruct (leap (yoe + 1 + 1)); cbn [bit] in Hl2; unfold doy in He; lia. }
      replace (doe + 1 - year_start (yoe + 1))%Z with 0%Z by (unfold doy in He; lia). done.
  - specialize (Hnext Hne). assert (doe <> 146096)%Z as Hd'.
    { intros ->. apply Hne. assert (yoe = 399)%Z as Hyoe by (apply year_of_era_unique; [lia|lia|vm_compute; split; [intros ?|]; done]).
      unfold doy, l. rewrite Hyoe. done. }
    rewrite (decide_False (P := (doe = 146096)%Z)) by done.
    assert (year_of_era (doe + 1) = yoe)%Z as -> by (apply year_of_era_unique; [lia|lia|unfold doy in *; lia]).
    replace (doe + 1 - year_start yoe)%Z with (doy + 1)%Z by (unfold doy; lia). rewrite <- Hnext. unfold next_md.
    pose proof (doy_spec l (doy + 1)%Z ltac:(unfold doy in *; lia)) as Hdoy'. rewrite <- Hnext in Hdoy'. unfold next_md in Hdoy'.
    case_decide as H1; [done|]. case_decide as H2; unfold y.
    + destruct Hdoy' as [(_ & _ & Hm2' & _) _]. repeat case_decide; try done; exfalso; lia.
    + assert (m = 12)%Z as -> by lia. done.
Qed.

(** *** Dates of the clock *)

Definition shift_era (era : Z) (ymd : Z * Z * Z) : Z * Z * Z := let '(y, m, d) := ymd in (y + era * 400, m, d)%Z.

Lemma leap_shift y era : leap (y + era * 400) = leap y.
Proof.
  unfold leap.
  assert ((y + era * 400) mod 4 = y mod 4)%Z as -> by (replace (era * 400)%Z with ((era * 100) * 4)%Z by lia; by apply Z.mod_add).
  assert ((y + era * 400) mod 100 = y mod 100)%Z as -> by (replace (era * 400)%Z with ((era * 4) * 100)%Z by lia; by apply Z.mod_add).
  by rewrite Z.mod_add.
Qed.

Lemma next_day_shift era ymd : next_day (shift_era era ymd) = shift_era era (next_day ymd).
Proof.
  destruct ymd as [[y m] d]. unfold next_day, shift_era, month_days. rewrite leap_shift.
  repeat case_decide; try done; do 2 f_equal; lia.
Qed.

Lemma valid_shift era ymd : valid_date ymd -> valid_date (shift_era era ymd).
Proof. destruct ymd as [[y m] d]. unfold valid_date, shift_era, month_days. by rewrite leap_shift. Qed.

(** The last day whose year fits 32 bits. *)
Definition MAX_DAYS : Z := 1000000000000.

Lemma days_to_ymd_eq days : (0 <= days < MAX_DAYS)%Z ->
  days_to_ymd days = shift_era ((days + 719468) / 146097) (date_in_era ((days + 719468) mod 146097)).
Proof.
  intros Hd. unfold MAX_DAYS in Hd. unfold days_to_ymd, date_in_era. set (n := (days + 719468)%Z). set (doe := (n mod 146097)%Z).
  pose proof (Z.mod_pos_bound n 146097 ltac:(lia)) as Hm. fold doe in Hm. destruct (year_of_era_spec doe Hm) as [Hy Hs].
  fold (year_of_era doe). set (yoe := year_of_era doe) in *.
  assert (365 * yoe + yoe / 4 - yoe / 100 = year_start yoe)%Z as -> by (unfold year_start; rewrite (Z.div_small yoe 400) by lia; lia).
  pose proof (year_length yoe ltac:(lia)) as Hlen. set (l := leap (yoe + 1)) in *.
  pose proof (doy_spec l (doe - year_start yoe)%Z ltac:(lia)) as Hdoy. unfold month_of in *. set (mp := ((5 * (doe - year_start yoe) + 2) / 153)%Z) in *.
  set (m := if decide (mp < 10)%Z then (mp + 3)%Z else (mp - 9)%Z) in *. destruct Hdoy as [(Hm1 & Hm2 & _) _].
  assert (mdays l m <= 31)%Z by (unfold mdays; destruct l; repeat case_decide; lia).
  assert (0 <= n / 146097 < 2 ^ 23)%Z as He by (split; [apply Z.div_pos; lia|apply Z.div_lt_upper_bound; lia]).
  unfold shift_era, wrap. rewrite !(Z.mod_small _ (2 ^ 32)) by (try case_decide; lia). f_equal. f_equal. case_decide; lia.
Qed.

(** Timestamps.  For every time of the 64-bit clock the fields printed are a valid
    Gregorian date and a time of day that add up to it: day 0 is 1 January 1970, the date
    of each day is the calendar successor of the date of the day before, and the time
    is exactly hours, minutes, seconds and microseconds after that day's midnight. *)
Theorem rfc3339_correct t : (0 <= t < 2 ^ 64)%Z ->
  let f := fields_of t in
  let day_no := (t / (1000000 * 86400))%Z in
  (year f, month f, day f) = days_to_ymd day_no /\ valid_date (days_to_ymd day_no) /\
  days_to_ymd 0 = (1970, 1, 1)%Z /\ days_to_ymd (day_no + 1) = next_day (days_to_ymd day_no) /\
  (t = (((day_no * 24 + hour f) * 60 + minute f) * 60 + second f) * 1000000 + micro f /\
   0 <= hour f < 24 /\ 0 <= minute f < 60 /\ 0 <= second f < 60 /\ 0 <= micro f < 1000000)%Z.
Proof.
  intros Ht. cbv zeta. set (n := (t / (1000000 * 86400))%Z).
  assert (t / 1000000 / 86400 = n)%Z as Hn by (unfold n; by rewrite Z.div_div by lia).
  assert (0 <= n < 1000000000)%Z as Hb by (unfold n; split; [apply Z.div_pos; lia|apply Z.div_lt_upper_bound; lia]).
  split_and!.
  - unfold fields_of. rewrite Hn. by destruct (days_to_ymd n) as [[y m] d].
  - rewrite days_to_ymd_eq by (unfold MAX_DAYS; lia). apply valid_shift, era_step. apply Z.mod_pos_bound. lia.
  - by vm_compute.
  - rewrite !days_to_ymd_eq by (unfold MAX_DAYS; lia). rewrite next_day_shift.
    pose proof (Z.mod_pos_bound (n + 719468) 146097 ltac:(lia)) as Hm. pose proof (Z.div_mod (n + 719468) 146097 ltac:(lia)) as Hdm.
    rewrite (proj2 (era_step _ Hm)). case_decide as He.
    + assert ((n + 1 + 719468) / 146097 = (n + 719468) / 146097 + 1)%Z as -> by (symmetry; apply (Z.div_unique _ _ _ 0); lia).
      assert ((n + 1 + 719468) mod 146097 = 0)%Z as -> by (symmetry; apply (Z.mod_unique _ _ ((n + 719468) / 146097 + 1)); lia).
      unfold shift_era. replace (date_in_era 0) with (0, 3, 1)%Z by (by vm_compute). f_equal. f_equal. lia.
    + assert ((n + 1 + 719468) / 146097 = (n + 719468) / 146097)%Z as ->
        by (symmetry; apply (Z.div_unique _ _ _ ((n + 719468) mod 146097 + 1)); lia).
      assert ((n + 1 + 719468) mod 146097 = (n + 719468) mod 146097 + 1)%Z as ->
        by (symmetry; apply (Z.mod_unique _ _ ((n + 719468) / 146097)); lia). done.
  - unfold fields_of. rewrite Hn. destruct (days_to_ymd n) as [[y m] d]. cbn [hour minute second micro].
    unfold n. Z.to_euclidean_division_equations. lia.
  - unfold fields_of. destruct (days_to_ymd _) as [[y m] d]. cbn [hour]. Z.to_euclidean_division_equations. lia.
  - unfold fields_of. destruct (days_to_ymd _) as [[y m] d]. cbn [hour]. Z.to_euclidean_division_equations. lia.
  - unfold fields_of. destruct (days_to_ymd _) as [[y m] d]. cbn [minute]. Z.to_euclidean_division_equations. lia.
  - unfold fields_of. destruct (days_to_ymd _) as [[y m] d]. cbn [minute]. Z.to_euclidean_division_equations. lia.
  - unfold fields_of. destruct (days_to_ymd _) as [[y m] d]. cbn [second]. Z.to_euclidean_division_equations. lia.
  - unfold fields_of. destruct (days_to_ymd _) as [[y m] d]. cbn [second]. Z.to_euclidean_division_equations. lia.
  - unfold fields_of. destruct (days_to_ymd _) as [[y m] d]. cbn [micro]. Z.to_euclidean_division_equations. lia.
  - unfold fields_of. destruct (days_to_ymd _) as [[y m] d]. cbn [micro]. Z.to_euclidean_division_equations. lia.
Qed.

Lemma rfc3339_witness : days_to_ymd 11016 = (2000, 2, 29)%Z /\ days_to_ymd 11017 = next_day (2000, 2, 29)%Z.
Proof.
  destruct (rfc3339_correct 951782400123456) as (_ & _ & _ & H & _); [lia|].
  split; [by vm_compute|]. exact H.
Defined.
