(* ===== verification/PoolBuild.v ===== *)
(** * Building upstream pools (src/src/upstream/mod.rs: [format_upstream_addr],
    [UpstreamPool::new] and the transport factories; the constructors of
    src/src/upstream/udp.rs, tcp_mux.rs, doh.rs and quic.rs)

    From the endpoints of a server to its nodes: the transport of each protocol with its
    settings, the features compiled in, and what happens to the nodes already built when a
    later one fails.  Opening sockets, the check of a TLS server name and the random seeds
    are parameters. *)

From stdpp Require Import strings.
From S2P Require Import Prelude Hasher DnsName DnsQuery Utf8 DnsQname DnsRecords DnsEdns Ecs DnsMessage DnsBuilder CacheMap Cache IpRange Inflight RustStr Domain IpParse Mrs Ruleset RouteIndex Router Upstream UpstreamCorrect UpstreamWire UpstreamUrl UpstreamUrlCorrect ConfigServers ConfigServersCorrect ConfigParse Config ConfigCorrect ServerBuild TcpMux Udp UdpRefresh Transports QueryRing QueryLog QueryHistory IpText Rfc3339.

(** ** Settings *)

Record UpstreamConfig := mkUpstreamConfig {
  uc_timeout_ms : Z; uc_udp_sockets : Z; uc_udp_buf_size : Z; uc_upstream_max_inflight : Z;
  uc_hedge_delay_ms : option Z; uc_upstream_max_response_bytes : Z
}.

(** [Config::upstream_config] *)
Definition upstream_config (c : Config) : UpstreamConfig :=
  mkUpstreamConfig (cf_timeout_ms c) (cf_upstream_udp_sockets c) (cf_udp_buf_size c) (cf_upstream_max_inflight c) (cf_hedge_delay_ms c)
    (cf_upstream_max_response_bytes c).

Record UpstreamCommonConfig := mkCommon {
  uk_name : list Z; uk_remote : SocketAddr; uk_timeout_ms : Z; uk_ecs_mode : EcsMode; uk_max_inflight : nat; uk_mark : option Z
}.

(** The Cargo features of the build. *)
Record Features := mkFeatures { feat_dot : bool; feat_doh : bool; feat_doq : bool; feat_h3 : bool }.

Definition show_number (n : Z) : list Z := Rfc3339.dec_digits 20 n [].

(** [SocketAddr::to_string] *)
Definition show_sock (a : SocketAddr) : list Z :=
  match sa_ip a with
  | V4 _ => ip_to_string (sa_ip a) ++ [COLON] ++ show_number (sa_port a)
  | V6 _ => [LBRACKET] ++ ip_to_string (sa_ip a) ++ [RBRACKET; COLON] ++ show_number (sa_port a)
  end.

Definition format_upstream_addr (ep : UpstreamEndpoint) : list Z :=
  let host := if decide (sa_port (ep_addr ep) = default_port (ep_proto ep)) then ip_to_string (sa_ip (ep_addr ep)) else show_sock (ep_addr ep) in
  match ep_proto ep with
  | PUdp => lit "udp://" ++ host
  | PTcp => lit "tcp://" ++ host
  | PTls => lit "tls://" ++ host
  | PHttps => lit "https://" ++ host ++ default (lit "/dns-query") (ep_path ep)
  | PQuic => lit "quic://" ++ host
  | PH3 => lit "h3://" ++ host ++ default (lit "/dns-query") (ep_path ep)
  end.

(** ** Transports *)

Inductive tls_server_name := TlsIp (ip : IpAddr) | TlsName (name : list Z).

Inductive MuxConnector := ConnectTcp | ConnectTls (server_name : tls_server_name).

Inductive build_fail := FeatureMissing (p : UpstreamProto) | BadServerName | SocketFailed.

Section pool.
Context {C : Type}.
Context (features : Features) (tls_name_ok : list Z -> bool) (socket_opens : list Z -> nat -> bool) (random_id_seed : list Z -> Z).

Inductive node_transport :=
| NtUdp (u : UdpUpstream) (loops : UdpWorld)
| NtTcp (connector : MuxConnector) (m : TcpMux)
| NtDoh (server_name url : list Z) (u : ConnUpstream (C := C))
| NtDoq (server_name : list Z) (u : ConnUpstream (C := C))
| NtH3 (server_name path : list Z) (u : ConnUpstream (C := C)).

(** [UdpUpstream::create]: the first socket that fails ends it. *)
Definition create (common : UpstreamCommonConfig) (pool_size : nat) : result build_fail node_transport :=
  if forallb (socket_opens (uk_name common)) (seq 0 pool_size)
  then Ok (NtUdp (mkUdp (inflight_new (uk_max_inflight common) (random_id_seed (uk_name common))) (uk_ecs_mode common) 0 pool_size) (udp_create pool_size))
  else Err SocketFailed.

(** [TcpMux::new] *)
Definition tcp_mux_new (common : UpstreamCommonConfig) (max_response_bytes : Z) : TcpMux :=
  mux_new (uk_ecs_mode common) (uk_max_inflight common) (random_id_seed (uk_name common)) (Z.to_nat max_response_bytes).

(** The state all connection upstreams start with. *)
Definition conn_of (common : UpstreamCommonConfig) : ConnUpstream (C := C) :=
  conn_new (uk_ecs_mode common) (uk_max_inflight common) (random_id_seed (uk_name common)).

Definition make_tls_transport (common : UpstreamCommonConfig) (endpoint : UpstreamEndpoint) (max_response_bytes : Z) : result build_fail node_transport :=
  if feat_dot features then
    let= server_name :=
      if ep_no_sni endpoint then Ok (TlsIp (sa_ip (ep_addr endpoint)))
      else let name := default (ip_to_string (sa_ip (ep_addr endpoint))) (ep_server_name endpoint) in
           if tls_name_ok name then Ok (TlsName name) else Err BadServerName in
    Ok (NtTcp (ConnectTls server_name) (tcp_mux_new common max_response_bytes))
  else Err (FeatureMissing PTls).

(** [make_doh_transport] with [DoHUpstream::new] *)
Definition make_doh_transport (common : UpstreamCommonConfig) (endpoint : UpstreamEndpoint) : result build_fail node_transport :=
  if feat_doh features then
    let server_name := default (ip_to_string (sa_ip (ep_addr endpoint))) (ep_server_name endpoint) in
    let path := default (lit "/dns-query") (ep_path endpoint) in
    if tls_name_ok server_name then Ok (NtDoh server_name (lit "https://" ++ server_name ++ path) (conn_of common)) else Err BadServerName
  else Err (FeatureMissing PHttps).

(** [make_doq_transport] with [DoQUpstream::new]; its socket is the one with index 0. *)
Definition make_doq_transport (common : UpstreamCommonConfig) (server_name : list Z) : result build_fail node_transport :=
  if feat_doq features then
    if socket_opens (uk_name common) 0 then Ok (NtDoq server_name (conn_of common)) else Err SocketFailed
  else Err (FeatureMissing PQuic).

Definition make_h3_transport (common : UpstreamCommonConfig) (server_name path : list Z) : result build_fail node_transport :=
  if feat_h3 features then
    if socket_opens (uk_name common) 0 then Ok (NtH3 server_name path (conn_of common)) else Err SocketFailed
  else Err (FeatureMissing PH3).

(** ** Nodes *)

Record PoolNode := mkPoolNode { pn_common : UpstreamCommonConfig; pn_transport : node_transport; pn_node : UpstreamNode; pn_addr_display : list Z }.

Definition transport_kind (t : node_transport) : UpstreamTransport :=
  match t with NtUdp _ _ => TUdp | NtTcp _ _ => TTcp | NtDoh _ _ _ => TDoh | NtDoq _ _ => TDoq | NtH3 _ _ _ => TH3 end.

Definition common_of (cfg : UpstreamConfig) (name : list Z) (idx : nat) (endpoint : UpstreamEndpoint) : UpstreamCommonConfig :=
  mkCommon (name ++ lit "-" ++ show_number (Z.of_nat idx)) (ep_addr endpoint) (uc_timeout_ms cfg) (default EcsStrip (ep_ecs_mode endpoint))
    (Z.to_nat (uc_upstream_max_inflight cfg)) (ep_mark endpoint).

(** The [match endpoint.proto] of [UpstreamPool::new]. *)
Definition make_transport (cfg : UpstreamConfig) (common : UpstreamCommonConfig) (endpoint : UpstreamEndpoint) : result build_fail node_transport :=
  let server_name := default (ip_to_string (sa_ip (ep_addr endpoint))) (ep_server_name endpoint) in
  match ep_proto endpoint with
  | PUdp => create common (Z.to_nat (uc_udp_sockets cfg))
  | PTcp => Ok (NtTcp ConnectTcp (tcp_mux_new common (uc_upstream_max_response_bytes cfg)))
  | PTls => make_tls_transport common endpoint (uc_upstream_max_response_bytes cfg)
  | PHttps => make_doh_transport common endpoint
  | PQuic => make_doq_transport common server_name
  | PH3 => make_h3_transport common server_name (default (lit "/dns-query") (ep_path endpoint))
  end.

Definition make_node (cfg : UpstreamConfig) (name : list Z) (idx : nat) (endpoint : UpstreamEndpoint) : result build_fail PoolNode :=
  let common := common_of cfg name idx endpoint in
  let= t := make_transport cfg common endpoint in
  Ok (mkPoolNode common t (mkNode (health_new (uc_upstream_max_inflight cfg)) stats_new 0 (transport_kind t) 0) (format_upstream_addr endpoint)).

(** The loop of [UpstreamPool::new]: the nodes built and the failure that ended it. *)
Fixpoint build_nodes (cfg : UpstreamConfig) (name : list Z) (idx : nat) (addrs : list UpstreamEndpoint) : list PoolNode * option build_fail :=
  match addrs with
  | [] => ([], None)
  | endpoint :: addrs =>
      match make_node cfg name idx endpoint with
      | Err e => ([], Some e)
      | Ok n => let '(ns, e) := build_nodes cfg name (S idx) addrs in (n :: ns, e)
      end
  end.

(** [Drop for UpstreamNode] shuts a UDP node's loops down and nothing else. *)
Definition drop_node (n : PoolNode) : option UdpWorld :=
  match pn_transport n with NtUdp _ w => Some (mkUdpWorld (generations w) (loops w) (refreshing w) (Bumping 0)) | _ => None end.

Record BuiltPool := mkBuiltPool { bp_nodes : list PoolNode; bp_pool : UpstreamPool }.

(** [UpstreamPool::new]: the pool, or the failure with the loops being shut down. *)
Definition pool_new (name : list Z) (addrs : list UpstreamEndpoint) (cfg : UpstreamConfig) (counter : option Z)
    : result (build_fail * list UdpWorld) BuiltPool :=
  match build_nodes cfg name 0 addrs with
  | (ns, None) => Ok (mkBuiltPool ns (mkPool (pn_node <$> ns) 0 (Z.mul 1000 <$> uc_hedge_delay_ms cfg) 0 counter))
  | (ns, Some e) => Err (e, omap drop_node ns)
  end.
End pool.

(** * Pools that are built

    Which endpoints can be built, what a built node is ready for, and what is left of a
    pool that fails; the text shown for a node. *)

Section build.
Context {C : Type}.
Context (features : Features) (tls_name_ok : list Z -> bool) (socket_opens : list Z -> nat -> bool) (random_id_seed : list Z -> Z).
Context (cfg : UpstreamConfig).
Hypothesis sockets_pos : (1 <= uc_udp_sockets cfg)%Z.
Hypothesis cap_ok : (0 <= uc_upstream_max_inflight cfg <= U64_MAX)%Z.
Context (name : list Z).

Abbreviation pool_new := (pool_new (C := C) features tls_name_ok socket_opens random_id_seed).
Abbreviation make_node := (make_node (C := C) features tls_name_ok socket_opens random_id_seed).
Abbreviation build_nodes := (build_nodes (C := C) features tls_name_ok socket_opens random_id_seed).

(** The name checked against certificates. *)
Definition tls_name (ep : UpstreamEndpoint) : list Z := default (ip_to_string (sa_ip (ep_addr ep))) (ep_server_name ep).

(** Why an endpoint cannot be built. *)
Inductive fails (idx : nat) (ep : UpstreamEndpoint) : build_fail -> Prop :=
| fails_feature : (match ep_proto ep with PTls => feat_dot features | PHttps => feat_doh features | PQuic => feat_doq features
                   | PH3 => feat_h3 features | _ => true end) = false -> fails idx ep (FeatureMissing (ep_proto ep))
| fails_name : (ep_proto ep = PTls /\ ep_no_sni ep = false \/ ep_proto ep = PHttps) -> tls_name_ok (tls_name ep) = false -> fails idx ep BadServerName
| fails_sockets j : ep_proto ep = PUdp -> j < Z.to_nat (uc_udp_sockets cfg) -> socket_opens (uk_name (common_of cfg name idx ep)) j = false -> fails idx ep SocketFailed
| fails_socket : (ep_proto ep = PQuic \/ ep_proto ep = PH3) -> socket_opens (uk_name (common_of cfg name idx ep)) 0 = false -> fails idx ep SocketFailed.

(** What the exchange of each transport relies on: an empty in-flight table that can
    register, permits to give out, a socket to send on. *)
Definition transport_ready (common : UpstreamCommonConfig) (t : node_transport (C := C)) : Prop :=
  match t with
  | NtUdp u w => udp_ecs_mode u = uk_ecs_mode common /\ (forall tx, absent (udp_inflight u) tx) /\ ir_next_token (udp_inflight u) = 0%Z /\
                 0 < udp_pool u /\ w = udp_create (udp_pool u)
  | NtTcp _ m => mux_ecs_mode m = uk_ecs_mode common /\ (forall tx, absent (pending m) tx) /\ ir_next_token (pending m) = 0%Z /\ writer_tx m = None
  | NtDoh _ _ u | NtDoq _ u | NtH3 _ _ u => cu_ecs_mode u = uk_ecs_mode common /\ (0 < cu_permits u)%Z /\ cu_slot u = None
  end.

(** The transport the protocol asks for. *)
Definition transport_for (ep : UpstreamEndpoint) (t : node_transport (C := C)) : Prop :=
  match ep_proto ep with
  | PUdp => exists u w, t = NtUdp u w /\ udp_pool u = Z.to_nat (uc_udp_sockets cfg)
  | PTcp => exists m, t = NtTcp ConnectTcp m
  | PTls => exists m, t = NtTcp (ConnectTls (if ep_no_sni ep then TlsIp (sa_ip (ep_addr ep)) else TlsName (tls_name ep))) m
  | PHttps => exists u, t = NtDoh (tls_name ep) (lit "https://" ++ tls_name ep ++ default (lit "/dns-query") (ep_path ep)) u
  | PQuic => exists u, t = NtDoq (tls_name ep) u
  | PH3 => exists u, t = NtH3 (tls_name ep) (default (lit "/dns-query") (ep_path ep)) u
  end.

Record node_for (idx : nat) (ep : UpstreamEndpoint) (n : PoolNode (C := C)) : Prop := mkNodeFor {
  nf_name : uk_name (pn_common n) = name ++ lit "-" ++ show_number (Z.of_nat idx);
  nf_remote : uk_remote (pn_common n) = ep_addr ep;
  nf_mark : uk_mark (pn_common n) = ep_mark ep;
  nf_ecs : uk_ecs_mode (pn_common n) = EcsStrip <-> strips_ecs ep = true;
  nf_mode : endpoint_ok ep -> mode_ok (uk_ecs_mode (pn_common n));
  nf_transport : transport_for ep (pn_transport n);
  nf_ready : transport_ready (pn_common n) (pn_transport n);
  nf_node : node_ok (pn_node n) /\ active_inflight (stats (pn_node n)) = 0%Z
}.

Lemma absent_new max seed tx : absent (inflight_new max seed) tx.
Proof. split; [by apply length_replicate|]. intros k e. by rewrite ilookup_new. Qed.

Lemma permits_pos (ecs : EcsMode) max seed : (0 < cu_permits (conn_new (C := C) ecs max seed))%Z.
Proof. unfold conn_new, MAX_PERMITS. cbn [cu_permits]. case_decide; lia. Qed.

Lemma forallb_seq_false (f : nat -> bool) n : forallb f (seq 0 n) = false -> exists j, j < n /\ f j = false.
Proof.
  intros H. assert (forall m k, forallb f (seq k m) = false -> exists j, k <= j < k + m /\ f j = false) as Hg.
  { clear. induction m as [|m IH]; intros k; cbn [seq forallb]; [done|]. destruct (f k) eqn:Hf; cbn [andb]; [|intros _; exists k; split; [lia|done]].
    intros H. destruct (IH (S k) H) as (j & ? & ?). exists j. split; [lia|done]. }
  destruct (Hg n 0 H) as (j & ? & ?). exists j. split; [lia|done].
Qed.

Lemma make_transport_spec idx ep common : uk_name common = uk_name (common_of cfg name idx ep) ->
  match make_transport (C := C) features tls_name_ok socket_opens random_id_seed cfg common ep with
  | Ok t => transport_for ep t /\ transport_ready common t /\ forall e, ~ fails idx ep e
  | Err e => fails idx ep e
  end.
Proof.
  intros Hc. unfold make_transport, transport_for. fold (tls_name ep). destruct (ep_proto ep) eqn:Hp.
  - unfold create. destruct (forallb _ _) eqn:Hs.
    + split; [by eexists _, _|]. split; [cbn; split_and!; [done|intros; apply absent_new|done|lia|done]|].
      intros e Hf. destruct Hf as [Hf|[[Hf _]|Hf]|j _ Hj Hf|[Hf|Hf]]; try congruence; rewrite ?Hp in *; try done.
      rewrite <- Hc in Hf. rewrite forallb_forall in Hs. rewrite Hs in Hf; [done|]. apply in_seq. lia.
    + destruct (forallb_seq_false _ _ Hs) as (j & Hj & Hf). rewrite Hc in Hf. by eapply fails_sockets.
  - split; [by eexists|]. split; [cbn; split_and!; [done|intros; apply absent_new|done|done]|].
    intros e Hf. destruct Hf as [Hf|[[Hf _]|Hf]|j Hf _ _|[Hf|Hf]]; rewrite ?Hp in *; done.
  - unfold make_tls_transport. fold (tls_name ep). destruct (feat_dot features) eqn:Hd; [|rewrite <- Hp; apply fails_feature; by rewrite Hp].
    destruct (ep_no_sni ep) eqn:Hn; cbn [rbind].
    + split; [by eexists|]. split; [cbn; split_and!; [done|intros; apply absent_new|done|done]|].
      intros e Hf. destruct Hf as [Hf|[[_ Hf]|Hf]|j Hf _ _|[Hf|Hf]]; rewrite ?Hp in *; congruence.
    + destruct (tls_name_ok (tls_name ep)) eqn:Ht; cbn [rbind]; [|apply fails_name; [by left|done]].
      split; [by eexists|]. split; [cbn; split_and!; [done|intros; apply absent_new|done|done]|].
      intros e Hf. destruct Hf as [Hf|_ Hf|j Hf _ _|[Hf|Hf]]; rewrite ?Hp in *; congruence.
  - unfold make_doh_transport. fold (tls_name ep). destruct (feat_doh features) eqn:Hd; [|rewrite <- Hp; apply fails_feature; by rewrite Hp].
    destruct (tls_name_ok (tls_name ep)) eqn:Ht; [|apply fails_name; [by right|done]].
    split; [by eexists|]. split; [cbn [transport_ready]; split_and!; [done|apply permits_pos|done]|].
    intros e Hf. destruct Hf as [Hf|_ Hf|j Hf _ _|[Hf|Hf]]; rewrite ?Hp in *; congruence.
  - unfold make_doq_transport. destruct (feat_doq features) eqn:Hd; [|rewrite <- Hp; apply fails_feature; by rewrite Hp].
    rewrite Hc. destruct (socket_opens _ 0) eqn:Hs; [|by apply fails_socket; [left|]].
    split; [by eexists|]. split; [cbn [transport_ready]; split_and!; [done|apply permits_pos|done]|].
    intros e Hf. destruct Hf as [Hf|[[Hf _]|Hf] _|j Hf _ _|_ Hf]; rewrite ?Hp in *; congruence.
  - unfold make_h3_transport. destruct (feat_h3 features) eqn:Hd; [|rewrite <- Hp; apply fails_feature; by rewrite Hp].
    rewrite Hc. destruct (socket_opens _ 0) eqn:Hs; [|by apply fails_socket; [right|]].
    split; [by eexists|]. split; [cbn [transport_ready]; split_and!; [done|apply permits_pos|done]|].
    intros e Hf. destruct Hf as [Hf|[[Hf _]|Hf] _|j Hf _ _|_ Hf]; rewrite ?Hp in *; congruence.
Qed.

Lemma make_node_spec idx ep :
  match make_node cfg name idx ep with
  | Ok n => node_for idx ep n /\ forall e, ~ fails idx ep e
  | Err e => fails idx ep e
  end.
Proof.
  unfold make_node. pose proof (make_transport_spec idx ep (common_of cfg name idx ep) eq_refl) as Ht.
  destruct (make_transport _ _ _ _ cfg _ ep) as [t|e]; cbn [rbind]; [|done]. destruct Ht as (Hf & Hr & Hn). split; [|done].
  split; cbn [pn_common pn_transport pn_node common_of uk_name uk_remote uk_mark uk_ecs_mode]; try done.
  - unfold strips_ecs. destruct (ep_ecs_mode ep) as [[]|]; naive_solver.
  - intros (_ & _ & _ & _ & Hm & _). destruct (ep_ecs_mode ep) as [m|]; [by apply Hm|done].
  - split; [|done]. split; [by apply health_new_ok|]. cbn. unfold U64_MAX. lia.
Qed.

(** How many of the endpoints are UDP. *)
Definition udp_count (eps : list UpstreamEndpoint) : nat := length (filter (fun ep => ep_proto ep = PUdp) eps).

Lemma drop_node_spec idx ep n : node_for idx ep n ->
  match drop_node n with
  | Some w => ep_proto ep = PUdp /\ shut w = Bumping 0 /\ length (generations w) = Z.to_nat (uc_udp_sockets cfg)
  | None => ep_proto ep <> PUdp
  end.
Proof.
  intros [_ _ _ _ _ Ht Hr _]. unfold drop_node, transport_for in *.
  destruct (ep_proto ep); [destruct Ht as (u & w & Hn & Hu)|destruct Ht as (? & Hn)..]; rewrite Hn in *; [|done..].
  destruct Hr as (_ & _ & _ & _ & ->). split_and!; [done|done|]. cbn [generations udp_create]. by rewrite length_replicate.
Qed.

Lemma build_nodes_spec idx eps ns e : build_nodes cfg name idx eps = (ns, e) ->
  length ns <= length eps /\ (forall i n, ns !! i = Some n -> exists ep, eps !! i = Some ep /\ node_for (idx + i) ep n /\ forall e, ~ fails (idx + i) ep e) /\
  match e with
  | None => length ns = length eps
  | Some f => exists ep, eps !! length ns = Some ep /\ fails (idx + length ns) ep f
  end.
Proof.
  revert idx ns e. induction eps as [|ep eps IH]; intros idx ns e; cbn [PoolBuild.build_nodes].
  - intros [= <- <-]. split_and!; [done|by intros i n|done].
  - pose proof (make_node_spec idx ep) as Hn. destruct (make_node cfg name idx ep) as [n|f].
    2:{ intros [= <- <-]. cbn [length]. split_and!; [lia|by intros i n|]. exists ep. rewrite Nat.add_0_r. by split. }
    destruct (build_nodes cfg name (S idx) eps) as [ns' e'] eqn:Hb. intros [= <- <-]. destruct (IH _ _ _ Hb) as (Hl & Hns & He).
    cbn [length]. split_and!; [lia| |].
    + intros [|i] m; cbn [lookup list_lookup].
      * intros [= <-]. exists ep. by rewrite Nat.add_0_r.
      * intros Hm. destruct (Hns i m Hm) as (ep' & Hep & Hnf). exists ep'. rewrite Nat.add_succ_r. by split.
    + destruct e' as [f|]; [|lia]. destruct He as (ep' & Hep & Hf). exists ep'. cbn [lookup list_lookup]. rewrite Nat.add_succ_r. by split.
Qed.

Lemma dropped_spec ns eps k : (forall i n, ns !! i = Some n -> exists ep, eps !! i = Some ep /\ node_for (k + i) ep n) ->
  length (omap drop_node ns) = udp_count (take (length ns) eps) /\
  Forall (fun w => shut w = Bumping 0 /\ length (generations w) = Z.to_nat (uc_udp_sockets cfg)) (omap drop_node ns).
Proof.
  revert eps k. induction ns as [|n ns IH]; intros eps k H; [done|].
  destruct (H 0 n eq_refl) as (ep & Hep & Hn). destruct eps as [|ep0 eps]; [done|]. injection Hep as ->.
  destruct (IH eps (S k)) as [Hl Hf].
  { intros i m Hm. destruct (H (S i) m Hm) as (ep' & Hep' & Hm'). exists ep'. split; [done|]. by rewrite Nat.add_succ_r in Hm'. }
  pose proof (drop_node_spec _ _ _ Hn) as Hd. cbn [omap list_omap length take]. unfold udp_count in *. rewrite filter_cons.
  destruct (drop_node n) as [w|].
  - destruct Hd as (Hp & Hs & Hg). rewrite decide_True by done. cbn [length]. split; [by f_equal|]. by constructor.
  - by rewrite decide_False.
Qed.

End build.

(** ** The text shown for a node *)

Lemma dec_digits_app fuel n acc : Rfc3339.dec_digits fuel n acc = Rfc3339.dec_digits fuel n [] ++ acc.
Proof.
  revert n acc. induction fuel as [|fuel IH]; intros n acc; [done|]. cbn [Rfc3339.dec_digits]. case_decide; [done|].
  rewrite (IH (n / 10)%Z (_ :: acc)), (IH (n / 10)%Z [_]). by rewrite <- app_assoc.
Qed.

Lemma dec_digits_chars fuel n : Forall (fun c => 48 <= c <= 57)%Z (Rfc3339.dec_digits fuel n []).
Proof.
  revert n. induction fuel as [|fuel IH]; intros n; [by apply Forall_nil|]. cbn [Rfc3339.dec_digits].
  pose proof (Z.mod_pos_bound n 10 ltac:(lia)). case_decide; [apply Forall_singleton; lia|].
  rewrite dec_digits_app. apply Forall_app. split; [done|]. apply Forall_singleton. lia.
Qed.

Lemma dec_digits_ne fuel n : Rfc3339.dec_digits (S fuel) n [] <> [].
Proof. cbn [Rfc3339.dec_digits]. case_decide; [done|]. rewrite dec_digits_app. by destruct (Rfc3339.dec_digits fuel _ []). Qed.

Lemma parse_dec_digits fuel n : (0 <= n < 2 ^ 16)%Z -> (n < 10 ^ Z.of_nat fuel)%Z -> parse_uint_digits 16 0 (Rfc3339.dec_digits fuel n []) = Some n.
Proof.
  revert n. induction fuel as [|fuel IH]; intros n Hn Hf; [cbn in *; f_equal; lia|]. cbn [Rfc3339.dec_digits].
  pose proof (Z.mod_pos_bound n 10 ltac:(lia)). pose proof (Z.div_mod n 10 ltac:(lia)). case_decide.
  - cbn [parse_uint_digits]. rewrite Z.mod_small in * by lia. rewrite decide_True by lia. rewrite decide_True by lia. f_equal. lia.
  - rewrite Nat2Z.inj_succ, Z.pow_succ_r in Hf by lia. rewrite dec_digits_app, parse_uint_digits_app. rewrite IH by lia.
    cbn [parse_uint_digits]. rewrite decide_True by lia. rewrite decide_True by lia. f_equal. lia.
Qed.

Lemma parse_show_number n : u_ok 16 n -> parse_uint 16 (show_number n) = Some n.
Proof.
  intros Hn. pose proof (dec_digits_chars 20 n) as Hc. pose proof (parse_dec_digits 20 n Hn ltac:(unfold u_ok in Hn; lia)) as Hp. unfold show_number.
  pose proof (dec_digits_ne 19 n) as Hne.
  revert Hc Hp Hne. generalize (Rfc3339.dec_digits 20 n []). intros [|c ds] Hc Hp Hne; [done|]. apply Forall_cons in Hc as [Hc _]. rewrite <- Hp. unfold parse_uint.
  assert (c <> 43%Z) as H43 by lia. destruct c as [|c|c]; try done. repeat (destruct c as [c|c|]; try done).
Qed.

(** The path of an endpoint as it can stand in a URL. *)
Definition path_plain (ep : UpstreamEndpoint) : Prop :=
  forall p, ep_path ep = Some p -> Forall (fun c : Z => graphic c /\ c <> 35%Z /\ c <> 64%Z) p /\ 63%Z ∉ p.

Definition scheme_of (p : UpstreamProto) : list Z :=
  match p with PUdp => lit "udp" | PTcp => lit "tcp" | PTls => lit "tls" | PHttps => lit "https" | PQuic => lit "quic" | PH3 => lit "h3" end.

Definition is_v6 (ip : IpAddr) : bool := match ip with V6 _ => true | V4 _ => false end.

(** The URL the text is. *)
Definition display_url (ep : UpstreamEndpoint) : Url :=
  mkUrl (scheme_of (ep_proto ep)) (ep_proto ep) (is_v6 (sa_ip (ep_addr ep))) (ip_to_string (sa_ip (ep_addr ep))) (sa_ip (ep_addr ep))
    (if decide (sa_port (ep_addr ep) = default_port (ep_proto ep)) then None else Some (show_number (sa_port (ep_addr ep)), sa_port (ep_addr ep)))
    (tail <$> ep_path ep) [].

Lemma format_is_url ep : endpoint_ok ep -> (is_v6 (sa_ip (ep_addr ep)) = false \/ sa_port (ep_addr ep) <> default_port (ep_proto ep)) ->
  format_upstream_addr ep = url_text (display_url ep).
Proof.
  intros (_ & _ & Hpath & _) Hv. unfold format_upstream_addr, url_text, url_authority, display_url, show_sock.
  cbn [u_scheme u_proto u_bracket u_host u_ip u_port u_path u_params]. rewrite app_nil_r.
  assert (forall h, (match ep_proto ep with
    | PUdp => lit "udp://" ++ h | PTcp => lit "tcp://" ++ h | PTls => lit "tls://" ++ h | PHttps => lit "https://" ++ h ++ default (lit "/dns-query") (ep_path ep)
    | PQuic => lit "quic://" ++ h | PH3 => lit "h3://" ++ h ++ default (lit "/dns-query") (ep_path ep) end)
    = scheme_of (ep_proto ep) ++ lit "://" ++ h ++ match tail <$> ep_path ep with Some p => 47%Z :: p | None => [] end) as Hsch.
  { intros h. destruct (ep_proto ep); cbn [scheme_of]; try (rewrite Hpath; cbn [fmap option_fmap]; rewrite app_nil_r; done).
    - destruct Hpath as [p ->]. cbn. done.
    - destruct Hpath as [p ->]. cbn. done. }
  rewrite Hsch. do 2 f_equal. rewrite <- app_assoc. case_decide as Hd.
  - destruct Hv as [Hv|Hv]; [|done]. rewrite Hv. by rewrite app_nil_l.
  - destruct (sa_ip (ep_addr ep)); cbn [is_v6]; rewrite <- ?app_assoc; done.
Qed.

Lemma path_tail ep p : endpoint_ok ep -> ep_path ep = Some p -> exists q, p = 47%Z :: q /\ (ep_proto ep = PHttps \/ ep_proto ep = PH3).
Proof.
  intros (_ & _ & Hp & _) He. rewrite He in Hp. destruct (ep_proto ep); try done; destruct Hp as [q [= ->]]; exists q; (split; [done|tauto]).
Qed.

(** The address shown for a node.  For every valid endpoint with an IPv4 address, or with
    any address on another port than the protocol's own, the text the dashboard shows is a
    URL the configuration accepts and reads back as the same protocol, address, port and
    path (the name, the marks and the client-subnet mode are not part of it). *)
Theorem node_display_roundtrip net bootstrap ep : endpoint_ok ep -> path_plain ep ->
  (is_v6 (sa_ip (ep_addr ep)) = false \/ sa_port (ep_addr ep) <> default_port (ep_proto ep)) ->
  parse_upstream net (format_upstream_addr ep) bootstrap
  = Ret (Ok [mkEndpoint (ep_proto ep) (ep_addr ep) (if uses_tls_name (ep_proto ep) then Some (ip_to_string (sa_ip (ep_addr ep))) else None) (ep_path ep) false None None]).
Proof.
  intros Hep Hpl Hv. rewrite format_is_url by done. pose proof Hep as ([[Hl Hb] Hport] & _ & Hpath & _).
  rewrite parse_url_text.
  - do 3 f_equal. unfold url_endpoint, display_url. cbn [u_proto u_ip u_port u_host u_path u_params]. f_equal.
    + destruct (ep_addr ep) as [ip port]. cbn. f_equal. case_decide; done.
    + destruct (ep_proto ep); [done..| |done|]; destruct Hpath as [p ->]; done.
  - unfold url_ok, display_url. cbn [u_scheme u_proto u_bracket u_host u_ip u_port u_path u_params]. split_and!.
    + by destruct (ep_proto ep).
    + by apply parse_ip_to_string.
    + intros H0. pose proof (parse_ip_to_string _ Hl Hb) as Hp. by rewrite H0 in Hp.
    + by apply ip_to_string_chars.
    + destruct (sa_ip (ep_addr ep)); [|done]. intros _. by apply show_v4_no_colon.
    + intros t n. case_decide; [done|]. intros [= <- <-]. by apply parse_show_number.
    + intros p (p' & He & ->)%fmap_Some. destruct (path_tail _ _ Hep He) as (q & -> & Hpr). destruct (Hpl _ He) as [Hg Hq]. cbn [tail].
      apply Forall_cons in Hg as [_ Hg]. apply not_elem_of_cons in Hq as [_ Hq]. by split_and!.
    + by apply Forall_nil.
    + done.
    + by intros [? ?].
Qed.

(** ** An example *)

Module PoolDemo.
Definition features : Features := mkFeatures true false false false.
Definition settings : UpstreamConfig := mkUpstreamConfig 3000 4 0 1024 (Some 150%Z) 0.
Definition plain_udp : UpstreamEndpoint := mkEndpoint PUdp (mkSock (V4 [192; 0; 2; 1]%Z) 53) None None false None None.
Definition doh : UpstreamEndpoint := mkEndpoint PHttps (mkSock (V4 [192; 0; 2; 2]%Z) 443) (Some (lit "dns.example")) (Some (lit "/dns-query")) false None None.


Lemma node_display_witness : parse_upstream (fun _ _ _ => None) (lit "https://192.0.2.2/dns-query") (fun _ => Ok [])
  = Ret (Ok [mkEndpoint PHttps (mkSock (V4 [192; 0; 2; 2]%Z) 443) (Some (lit "192.0.2.2")) (Some (lit "/dns-query")) false None None]).
Proof.
  refine (node_display_roundtrip (fun _ _ _ => None) (fun _ => Ok []) doh _ _ (or_introl _)); [| |by vm_compute].
  - split_and!; [split; [split; [by vm_compute|]|]|..]; try (apply (bool_decide_unpack _); by vm_compute); try done; by eexists.
  - intros p [= <-]. split; apply (bool_decide_unpack _); by vm_compute.
Defined.

(** An HTTPS upstream given by an IPv6 address: the URL its requests are built with has the
    address without brackets, which is not the authority of a URL; the configuration parser
    itself refuses that text. *)
Definition doh_v6 : UpstreamEndpoint :=
  mkEndpoint PHttps (mkSock (V6 ([0x20; 0x01; 0x0d; 0xb8] ++ replicate 11 0 ++ [1])%Z) 443) (Some (lit "2001:db8::1")) (Some (lit "/dns-query")) false None None.

Lemma doh_v6_url_unbracketed :
  parse_upstream (fun _ _ _ => None) (lit "https://[2001:db8::1]/dns-query") (fun _ => Ok []) = Ret (Ok [doh_v6]) /\
  (exists u, make_doh_transport (C := nat) (mkFeatures true true true true) (fun _ => true) (fun _ => 7%Z) (common_of settings (lit "up") 0 doh_v6) doh_v6
    = Ok (NtDoh (lit "2001:db8::1") (lit "https://2001:db8::1/dns-query") u)) /\
  parse_upstream (fun _ _ _ => None) (lit "https://2001:db8::1/dns-query") (fun _ => Ok []) = Ret (Err UnbracketedV6).
Proof. split_and!; [by vm_compute|by eexists|by vm_compute]. Qed.

(** An HTTPS upstream on another port: the URL of its requests does not have the port. *)
Definition doh_port : UpstreamEndpoint :=
  mkEndpoint PHttps (mkSock (V4 [192; 0; 2; 2]%Z) 8443) (Some (lit "192.0.2.2")) (Some (lit "/q")) false None None.

Lemma doh_url_without_port :
  parse_upstream (fun _ _ _ => None) (lit "https://192.0.2.2:8443/q") (fun _ => Ok []) = Ret (Ok [doh_port]) /\
  exists u, make_doh_transport (C := nat) (mkFeatures true true true true) (fun _ => true) (fun _ => 7%Z) (common_of settings (lit "up") 0 doh_port) doh_port
    = Ok (NtDoh (lit "192.0.2.2") (lit "https://192.0.2.2/q") u).
Proof. split; [by vm_compute|by eexists]. Qed.
End PoolDemo.
