(* ===== verification/ApiRender.v ===== *)
(** * What the dashboard shows (the renderers of src/src/querylog/api.rs; [node_snapshots] of
    src/src/upstream/mod.rs; [NodeStats::snapshot] of src/src/stats.rs; [tag_counts] of
    src/src/ruleset.rs)

    The answers of the dashboard as JSON values.  Their text is serde_json's: a parameter
    with the documented shape of an array. *)

From stdpp Require Import strings sorting.
From S2P Require Import Prelude Hasher DnsName DnsQuery Utf8 DnsQname DnsRecords DnsEdns Ecs DnsMessage DnsBuilder CacheMap Cache VerdictCache IpRange RustStr Domain IpParse Mrs Ruleset RouteIndex Router Resolver Upstream UpstreamUrl ConfigServers ConfigParse Config ConfigCorrect ServerBuild ServerBuildCorrect ServerCorrect QueryRing QueryLog QueryHistory Rfc3339 PoolBuild.

Inductive Json := JNull | JBool (b : bool) | JNum (n : Z) | JStr (s : list Z) | JArr (l : list Json) | JObj (fields : list (list Z * Json)).

Definition JOpt {A} (f : A -> Json) (o : option A) : Json := match o with Some a => f a | None => JNull end.
Definition JNat (n : nat) : Json := JNum (Z.of_nat n).

(** ** Events *)

(** The fields of an event: [event_to_json], and [render_history_page] on an event read back. *)
Definition event_json (seq micros : Z) (client : list Z) (port : Z) (qname : list Z) (qtype rcode elapsed bytes : Z) (source : list Z) (upstream : option (list Z)) : Json :=
  JObj [(lit "seq", JNum seq); (lit "time", JStr (micros_to_rfc3339 micros)); (lit "client", JStr client); (lit "client_port", JNum port);
        (lit "qname", JStr qname); (lit "qtype", JNum qtype); (lit "rcode", JNum rcode); (lit "elapsed_us", JNum elapsed);
        (lit "response_bytes", JNum bytes); (lit "source", JStr source); (lit "upstream", JOpt JStr upstream)].

Definition event_to_json (ev : QueryLogEvent) : Json :=
  event_json (ev_seq ev) (unix_micros ev) (ip_to_string (client ev)) (client_port ev) (ev_qname ev) (ev_qtype ev) (ev_rcode ev) (elapsed_us ev)
    (response_bytes ev) (source ev) (upstream ev).

Definition decoded_to_json (ev : DecodedEvent) : Json :=
  event_json (d_seq ev) (d_unix_micros ev) (d_client ev) (d_client_port ev) (d_qname ev) (d_qtype ev) (d_rcode ev) (d_elapsed_us ev)
    (d_response_bytes ev) (d_source ev) (d_upstream ev).

Definition history_page_json (page : HistoryPage) : Json :=
  JObj [(lit "items", JArr (decoded_to_json <$> p_events page)); (lit "total_entries", JOpt JNum (p_total_entries page));
        (lit "start_time", JOpt (fun m => JStr (micros_to_rfc3339 m)) (p_start_micros page));
        (lit "end_time", JOpt (fun m => JStr (micros_to_rfc3339 m)) (p_end_micros page));
        (lit "next_cursor", JOpt JNum (next_cursor page)); (lit "has_more", JBool (has_more page)); (lit "indexed", JBool (indexed page))].

(** ** Upstreams *)

Record NodeStatsSnapshot := mkSnap {
  ss_name : list Z; ss_addr : list Z; ss_queries_ok : Z; ss_queries_err : Z; ss_queries_timeout : Z; ss_queries_cancelled : Z; ss_active_inflight : Z; ss_rtt_sum_us : Z
}.

(** [NodeStats::snapshot] *)
Definition snapshot (s : NodeStats) (name addr : list Z) : NodeStatsSnapshot :=
  mkSnap name addr (queries_ok s) (queries_err s) (queries_timeout s) (queries_cancelled s) (active_inflight s) (ns_rtt_sum_us s).

(** [node_snapshots]: a node is its statistics and its displayed address. *)
Definition node_snapshots (nodes : list (NodeStats * list Z)) (pool_name : list Z) : list NodeStatsSnapshot :=
  imap (fun i n => snapshot (fst n) (pool_name ++ lit "-" ++ show_number (Z.of_nat i)) (snd n)) nodes.

(** [render_node_snapshots]; [rtt_count] is [queries_ok].  Dividing by zero panics. *)
Definition checked_div (a b : Z) : outcome Z := if decide (b = 0)%Z then Panic else Ret (a / b)%Z.

Definition node_json (s : NodeStatsSnapshot) : outcome Json :=
  let! avg := if decide (0 < ss_queries_ok s)%Z then checked_div (ss_rtt_sum_us s) (ss_queries_ok s) else Ret 0%Z in
  Ret (JObj [(lit "name", JStr (ss_name s)); (lit "addr", JStr (ss_addr s)); (lit "queries_ok", JNum (ss_queries_ok s));
             (lit "queries_err", JNum (ss_queries_err s)); (lit "queries_timeout", JNum (ss_queries_timeout s));
             (lit "queries_cancelled", JNum (ss_queries_cancelled s)); (lit "active_inflight", JNum (ss_active_inflight s)); (lit "avg_rtt_us", JNum avg)]).

Fixpoint render_node_snapshots (snaps : list NodeStatsSnapshot) : outcome (list Json) :=
  match snaps with
  | [] => Ret []
  | s :: snaps => let! j := node_json s in let! js := render_node_snapshots snaps in Ret (j :: js)
  end.

Section text.
(** [serde_json::to_string]. *)
Context (to_text : Json -> list Z).

(** [join(",")] *)
Definition join_comma (l : list (list Z)) : list Z := join_with 44 l.

Definition render_ring_events (events : list QueryLogEvent) : list Z :=
  lit "[" ++ join_comma ((fun ev => to_text (event_to_json ev)) <$> events) ++ lit "]".

Definition render_history_page (page : HistoryPage) : list Z := to_text (history_page_json page).

(** The loop of [render_upstreams]: [pools] gives the nodes of a pool. *)
Fixpoint upstreams_loop (pools : nat -> list (NodeStats * list Z)) (servers : list Server) (first : bool) (out : list Z) : outcome (list Z) :=
  match servers with
  | [] => Ret (out ++ lit "]")
  | server :: servers =>
      match sv_kind server with
      | Fixed _ => upstreams_loop pools servers first out
      | Router.Upstream pool =>
          let out := if first then out else out ++ lit "," in
          let! nodes := render_node_snapshots (node_snapshots (pools pool) (sv_name server)) in
          upstreams_loop pools servers false (out ++ to_text (JObj [(lit "server", JStr (sv_name server)); (lit "nodes", JArr nodes)]))
      end
  end.

Definition render_upstreams (pools : nat -> list (NodeStats * list Z)) (servers : list Server) : outcome (list Z) :=
  upstreams_loop pools servers true (lit "[").
End text.

(** ** Rules *)

Section rules.
Context {Regex : Type} `{!RegexEngine Regex}.

Definition tag_len (t : TagEntry Regex) : nat :=
  match t with TagDomain m => matcher_len m | TagIpCidr s => length (set_ranges s) end.

(** [tag_counts.get(t).copied().unwrap_or(0)] *)
Definition tag_count (db : option (RuleSetDb Regex)) (t : list Z) : nat :=
  default 0 (db ≫= fun rs => tag_len <$> db_tags rs !! t).

Definition tag_json (db : option (RuleSetDb Regex)) (t : list Z) : Json := JObj [(lit "tag", JStr t); (lit "count", JNat (tag_count db t))].

Definition matcher_json (db : option (RuleSetDb Regex)) (m : RuleMatcher) : Json :=
  match m with
  | MDomain pattern => JObj [(lit "kind", JStr (lit "domain")); (lit "pattern", JStr pattern)]
  | MTag include exclude => JObj [(lit "kind", JStr (lit "tag")); (lit "include", JArr (tag_json db <$> include)); (lit "exclude", JArr (tag_json db <$> exclude))]
  end.

Definition action_text (servers : list Server) (a : FilterAction) : list Z :=
  match a with
  | Accept => lit "accept"
  | DropReply => lit "drop"
  | Forward idx => lit "forward:" ++ match servers !! idx with Some s => sv_name s | None => lit "?" end
  end.

(** [iter().copied().collect::<Vec<_>>()] with [sort_unstable]. *)
Definition sorted_numbers (s : gset Z) : list Z := merge_sort Z.le (elements s).

Definition filter_json (servers : list Server) (f : ResponseFilter) : Json :=
  JObj [(lit "action", JStr (action_text servers (rf_action f))); (lit "answer_ip", JArr (JStr <$> ai_include (rf_answer_ip f)));
        (lit "answer_ip_exclude", JArr (JStr <$> ai_exclude (rf_answer_ip f))); (lit "response_type", JArr (JNum <$> sorted_numbers (rf_response_type f)));
        (lit "response_rcode", JArr (JNum <$> sorted_numbers (rf_response_rcode f))); (lit "response_qclass", JArr (JNum <$> sorted_numbers (rf_response_qclass f)))].

Definition rule_json (servers : list Server) (db : option (RuleSetDb Regex)) (g : Rule) : Json :=
  JObj [(lit "matcher", JArr (matcher_json db <$> r_matcher g)); (lit "filters", JArr (filter_json servers <$> r_filters g)); (lit "server", JStr (r_server g))].

Definition rules_json (hot : HotState (Regex := Regex)) : Json := JArr (rule_json (hs_servers hot) (hs_ruleset hot) <$> hs_rules hot).
End rules.

(** ** What is shown is what there is *)

Lemma decoded_json ev : decoded_to_json (decoded ev) = event_to_json ev.
Proof. done. Qed.

(** The field of an object. *)
Definition field_of (name : list Z) (j : Json) : option Json :=
  match j with JObj fields => match list_find (fun f => fst f = name) fields with Some (_, (_, v)) => Some v | None => None end | _ => None end.

(** The average is a whole number of microseconds, 0 before the first answer. *)
Definition avg_rtt (s : NodeStats) : Z := if decide (0 < queries_ok s)%Z then (ns_rtt_sum_us s / queries_ok s)%Z else 0%Z.

Definition node_entry (pool_name : list Z) (i : nat) (n : NodeStats * list Z) : Json :=
  JObj [(lit "name", JStr (pool_name ++ lit "-" ++ show_number (Z.of_nat i))); (lit "addr", JStr (snd n)); (lit "queries_ok", JNum (queries_ok (fst n)));
        (lit "queries_err", JNum (queries_err (fst n))); (lit "queries_timeout", JNum (queries_timeout (fst n)));
        (lit "queries_cancelled", JNum (queries_cancelled (fst n))); (lit "active_inflight", JNum (active_inflight (fst n))); (lit "avg_rtt_us", JNum (avg_rtt (fst n)))].

Lemma node_json_entry name i n : node_json (snapshot (fst n) (name ++ lit "-" ++ show_number (Z.of_nat i)) (snd n)) = Ret (node_entry name i n).
Proof.
  unfold node_json, node_entry, avg_rtt, checked_div. cbn [ss_queries_ok ss_rtt_sum_us snapshot]. case_decide; [|done]. rewrite decide_False by lia. done.
Qed.

Lemma render_node_snapshots_spec name nodes : render_node_snapshots (node_snapshots nodes name) = Ret (imap (node_entry name) nodes).
Proof.
  unfold node_snapshots. change (imap (node_entry name) nodes) with (imap (fun i => node_entry name (0 + i)) nodes).
  change (imap _ nodes) with (imap (fun i n => snapshot (fst n) (name ++ lit "-" ++ show_number (Z.of_nat (0 + i))) (snd n)) nodes) at 1.
  generalize 0. induction nodes as [|n nodes IH]; intros k; [done|]. rewrite !imap_cons. cbn [render_node_snapshots]. rewrite Nat.add_0_r, node_json_entry. cbn [obind].
  assert (forall A B (f g : nat -> A -> B) l, (forall i x, f i x = g i x) -> imap f l = imap g l) as Hext.
  { clear. intros A B f g l. revert f g. induction l as [|x l IHl]; intros f g Hfg; [done|]. rewrite !imap_cons, Hfg. f_equal. apply IHl. intros. apply Hfg. }
  rewrite (Hext _ _ _ (fun i n => snapshot (fst n) (name ++ lit "-" ++ show_number (Z.of_nat (S k + i))) (snd n)))
    by (intros; unfold compose; by rewrite Nat.add_succ_r).
  rewrite IH. cbn [obind]. do 2 f_equal. apply Hext. intros. unfold compose. by rewrite Nat.add_succ_r.
Qed.

(** The entry of a server that has a pool. *)
Definition upstream_entry (pools : nat -> list (NodeStats * list Z)) (s : Server) : option Json :=
  match sv_kind s with
  | Router.Upstream pool => Some (JObj [(lit "server", JStr (sv_name s)); (lit "nodes", JArr (imap (node_entry (sv_name s)) (pools pool)))])
  | Fixed _ => None
  end.

Section shown.
Context (to_text : Json -> list Z).
(** serde_json's compact text of an array. *)
Hypothesis array_text : forall l, to_text (JArr l) = lit "[" ++ join_comma (to_text <$> l) ++ lit "]".

Lemma join_comma_cons t ts : ts <> [] -> join_comma (t :: ts) = t ++ lit "," ++ join_comma ts.
Proof. intros Hne. unfold join_comma. by rewrite join_with_cons. Qed.

(** The comma before the first of the remaining entries. *)
Definition comma (first : bool) (l : list Json) : list Z := match l with [] => [] | _ => if first then [] else lit "," end.

Lemma render_loop_spec pools servers first out :
  upstreams_loop to_text pools servers first out
  = Ret (out ++ comma first (omap (upstream_entry pools) servers) ++ join_comma (to_text <$> omap (upstream_entry pools) servers) ++ lit "]").
Proof.
  revert first out. induction servers as [|s servers IH]; intros first out; cbn [upstreams_loop]; [done|].
  change (omap (upstream_entry pools) (s :: servers)) with (match upstream_entry pools s with Some e => e :: omap (upstream_entry pools) servers | None => omap (upstream_entry pools) servers end).
  destruct (upstream_entry pools s) as [e0|] eqn:He0; unfold upstream_entry in He0; destruct (sv_kind s) as [pool|fx]; try done.
  apply (inj Some) in He0 as <-. rewrite render_node_snapshots_spec. cbn [obind]. rewrite IH. clear IH.
  set (e := JObj _). rewrite fmap_cons. f_equal. cbn [comma].
  destruct (omap (upstream_entry pools) servers) as [|e' rest]; [destruct first; rewrite <- ?app_assoc; done|].
  rewrite (join_comma_cons (to_text e)) by done. destruct first; cbn [comma]; rewrite <- ?app_assoc; done.
Qed.

Lemma render_upstreams_spec pools servers : render_upstreams to_text pools servers = Ret (to_text (JArr (omap (upstream_entry pools) servers))).
Proof. unfold render_upstreams. rewrite render_loop_spec, array_text. by destruct (omap _ servers). Qed.

Lemma render_ring_events_spec events : render_ring_events to_text events = to_text (JArr (event_to_json <$> events)).
Proof. rewrite array_text. unfold render_ring_events. by rewrite <- list_fmap_compose. Qed.
End shown.

(** ** Rules as configured *)

Section configured.
Context {Regex : Type} `{!RegexEngine Regex} {CS : Type} `{!CacheMap CS Z Entry}.
Context (pool_new : list Z -> list UpstreamEndpoint -> option nat).

Definition configured_action (a : RuleFilterActionSpec) : list Z :=
  match a with ActAccept => lit "accept" | ActDrop => lit "drop" | ActForward n => lit "forward:" ++ n end.

Definition configured_numbers (l : list Z) : list Z := sorted_numbers (list_to_set l).

Definition configured_filter (f : RuleFilterSpec) : Json :=
  JObj [(lit "action", JStr (configured_action (fl_action f))); (lit "answer_ip", JArr (JStr <$> ai_include (fl_answer_ip f)));
        (lit "answer_ip_exclude", JArr (JStr <$> ai_exclude (fl_answer_ip f))); (lit "response_type", JArr (JNum <$> configured_numbers (fl_response_type f)));
        (lit "response_rcode", JArr (JNum <$> configured_numbers (fl_response_rcode f))); (lit "response_qclass", JArr (JNum <$> configured_numbers (fl_response_qclass f)))].

Definition configured_rule (db : option (RuleSetDb Regex)) (r : RuleSpec) : Json :=
  JObj [(lit "matcher", JArr (matcher_json db <$> ru_matcher r)); (lit "filters", JArr (configured_filter <$> ru_filters r)); (lit "server", JStr (ru_server r))].

Lemma sorted_numbers_spec l : Sorted Z.le (configured_numbers l) /\ NoDup (configured_numbers l) /\ forall n, n ∈ configured_numbers l <-> n ∈ l.
Proof.
  unfold configured_numbers, sorted_numbers. split; [apply Sorted_merge_sort; exact _|]. split.
  - rewrite merge_sort_Permutation. apply NoDup_elements.
  - intros n. rewrite merge_sort_Permutation. set_solver.
Qed.

Lemma filter_shown servers spec f : filter_of servers spec f -> filter_json servers f = configured_filter spec.
Proof.
  intros (Ha & Ht & Hr & Hq & Hact). unfold filter_json, configured_filter, configured_numbers. rewrite Ha, Ht, Hr, Hq. do 4 f_equal.
  destruct (fl_action spec) as [| |n]; [by rewrite Hact..|]. destruct Hact as (k & s & -> & Hs & <-). cbn [action_text]. by rewrite Hs.
Qed.

Lemma rules_shown (cache : DnsCache CS) (sn : Snapshot Regex) : snapshot_ok pool_new cache sn ->
  rules_json (sn_hot sn) = JArr (configured_rule (hs_ruleset (sn_hot sn)) <$> cf_rules (sn_cfg sn)).
Proof.
  intros [_ _ [Hl Hr] _ _ _ _ _ _]. unfold rules_json. f_equal. apply list_eq. intros k. rewrite !list_lookup_fmap.
  destruct (cf_rules (sn_cfg sn) !! k) as [spec|] eqn:Hk.
  - destruct (Hr k spec Hk) as (r & -> & s & filters & _ & _ & Hf & _ & ->). cbn [fmap option_fmap option_map]. f_equal.
    unfold rule_json, configured_rule. cbn [r_matcher r_filters r_server]. do 5 f_equal. 
    induction Hf as [|spec' f specs fs Hsf _ IH]; [done|]. rewrite !fmap_cons, IH. by rewrite (filter_shown _ _ _ Hsf).
  - apply lookup_ge_None in Hk. rewrite (proj2 (lookup_ge_None _ k)) by lia. done.
Qed.

(** The dashboard shows what there is.  Live events and events read back from the history
    files are the same JSON for the same event, and the live list is the text of their array;
    the upstream list is the text of one entry per server that has a pool, in order, with
    one entry per node, and never divides by zero; the rule list of a snapshot built from a
    configuration shows each rule of that configuration as configured: its matchers, its
    server, its filters with the name of the server a forward goes to, and its number lists
    sorted, without repetitions and complete. *)
Theorem dashboard_shows to_text events page pools (cache : DnsCache CS) (sn : Snapshot Regex) :
  (forall l, to_text (JArr l) = lit "[" ++ join_comma (to_text <$> l) ++ lit "]") ->
  p_events page = decoded <$> events -> snapshot_ok pool_new cache sn ->
  render_ring_events to_text events = to_text (JArr (event_to_json <$> events)) /\
  field_of (lit "items") (history_page_json page) = Some (JArr (event_to_json <$> events)) /\
  render_upstreams to_text pools (hs_servers (sn_hot sn)) = Ret (to_text (JArr (omap (upstream_entry pools) (hs_servers (sn_hot sn))))) /\
  rules_json (sn_hot sn) = JArr (configured_rule (hs_ruleset (sn_hot sn)) <$> cf_rules (sn_cfg sn)) /\
  forall l, Sorted Z.le (configured_numbers l) /\ NoDup (configured_numbers l) /\ forall n, n ∈ configured_numbers l <-> n ∈ l.
Proof.
  intros Htext Hpage Hsn. split_and!.
  - by apply render_ring_events_spec.
  - unfold history_page_json. rewrite Hpage, <- list_fmap_compose. done.
  - by apply render_upstreams_spec.
  - by eapply rules_shown.
  - apply sorted_numbers_spec.
Qed.
End configured.

(** ** An example *)

Module RenderDemo.
Import LabelRegex ConfigDemo ServerDemo.

(** A printer with the shape of serde_json's arrays; the other values do not matter. *)
Fixpoint print (j : Json) : list Z :=
  match j with
  | JArr l => lit "[" ++ join_comma (map print l) ++ lit "]"
  | JNum n => show_number n
  | JStr s => [34%Z] ++ s ++ [34%Z]
  | JBool b => lit (if b then "true" else "false")
  | JNull => lit "null"
  | JObj _ => lit "{}"
  end.

Lemma print_array l : print (JArr l) = lit "[" ++ join_comma (print <$> l) ++ lit "]".
Proof. reflexivity. Defined.

Definition event : QueryLogEvent := mkEvent 1 951782400123456 (V4 [192; 0; 2; 1]%Z) 5353 (lit "example.com") 1 0 1500 44 (lit "cache") None.

Lemma dashboard_witness : exists sn, built = Ret (Ok sn) /\
  render_ring_events print [event] = print (JArr [event_to_json event]) /\
  rules_json (sn_hot sn) = JArr (configured_rule (hs_ruleset (sn_hot sn)) <$> cf_rules (sn_cfg sn)).
Proof.
  destruct started as (sn & Hb & Hst). exists sn. split; [exact Hb|].
  pose proof (running_ok (CS := gmap Z Entry) (VS := gmap (list Z) VerdictEntry) pools no_zstd id id no_net 4 no_net_bytes no_zstd_bytes _ Hst) as Hok.
  destruct (dashboard_shows pools print [event] (mkPage [decoded event] None None None None false false) (fun _ => []) cache0 sn print_array eq_refl Hok) as (H1 & _ & _ & H2 & _).
  split; [exact H1|exact H2].
Defined.
End RenderDemo.
