(* ===== verification/QueryApi.v ===== *)
(** * The dashboard API

    [src/querylog/api.rs]: reading and parsing a request, query parameters, token
    authentication, the routes with their effect on the log's state, and the event stream
    with its backfill.  The rendering of answers as JSON and HTML is left out: a response is
    its status and the data rendered. *)

From stdpp Require Import gmap strings.
From S2P Require Import Prelude Order Hasher DnsName DnsQuery DnsRecords Utf8 DnsQname RustStr IpRange IpParse QueryRing QueryLog QueryHistory QuerySegments.

(** ** Requests *)

Record HttpRequest := mkRequest {
  method : list Z;
  path : list Z;
  query : list Z;
  auth : option (list Z);
  last_event_id : option (list Z)
}.

Definition REQUEST_MAX : Z := 4096.

Definition CRLF2 : list Z := [13; 10; 13; 10]%Z.

(** The read loop: the bytes of successive reads until the header ends, the buffer is
    full or the peer closes (an empty read). *)
Fixpoint read_loop (reads : list (list Z)) (buf : list Z) : list Z :=
  match reads with
  | [] => buf
  | chunk :: reads =>
      let got := take (Z.to_nat REQUEST_MAX - length buf) chunk in
      match got with
      | [] => buf
      | _ =>
          let buf := buf ++ got in
          if contains_str CRLF2 buf then buf
          else if decide (REQUEST_MAX <= Z.of_nat (length buf))%Z then buf
          else read_loop reads buf
      end
  end.

Definition strip_header_prefix (line prefix : list Z) : option (list Z) :=
  if decide (length line < length prefix \/ lower_label (take (length prefix) line) <> lower_label prefix) then None
  else Some (drop (length prefix) line).

(** [splitn(3, ' ')]: the first two pieces. *)
Definition SPACE : Z := 32.

Definition request_parts (line : list Z) : list Z * option (list Z) :=
  match split_once SPACE line with
  | None => (line, None)
  | Some (m, rest) => (m, Some (match split_once SPACE rest with Some (p, _) => p | None => rest end))
  end.

Section api.
(** [str::to_uppercase] of a text that is not ASCII. *)
Context (unicode_upper : list Z -> list Z).

Definition to_uppercase (s : list Z) : list Z :=
  if decide (Forall (fun b => b < 128)%Z s) then ascii_upper <$> s else unicode_upper s.

(** One header line. *)
Definition header_line (st : option (list Z) * option (list Z)) (line : list Z) : option (list Z) * option (list Z) :=
  match strip_header_prefix line (lit "authorization:") with
  | Some value =>
      match strip_prefix (lit "Bearer ") (trim value) with
      | Some tok => (Some (trim tok), snd st)
      | None => st
      end
  | None =>
      match strip_header_prefix line (lit "last-event-id:") with
      | Some value => (fst st, Some (trim value))
      | None => st
      end
  end.

Definition parse_http_request (text : list Z) : HttpRequest :=
  let ls := lines text in
  let '(m, target) := request_parts (default [] (head ls)) in
  let full_path := default (lit "/") target in
  let '(p, q) := match str_find 63 full_path with
                 | Some pos => (take pos full_path, drop (pos + 1) full_path)
                 | None => (full_path, [])
                 end in
  let '(a, e) := foldl header_line (None, None) (tail ls) in
  mkRequest (to_uppercase m) p q a e.

Definition read_request (reads : list (list Z)) : HttpRequest := parse_http_request (from_utf8_lossy (read_loop reads [])).

(** ** Query parameters *)

Definition hex (b : Z) : option Z :=
  if decide (48 <= b <= 57)%Z then Some (b - 48)%Z
  else if decide (97 <= b <= 102)%Z then Some (b - 97 + 10)%Z
  else if decide (65 <= b <= 70)%Z then Some (b - 65 + 10)%Z
  else None.

(** The loop of [percent_decode]; [None] is the early return of a bad escape. *)
Fixpoint percent_loop (fuel : nat) (bytes out : list Z) : option (list Z) :=
  match fuel with
  | 0 => Some out
  | S fuel =>
      match bytes with
      | [] => Some out
      | 37%Z :: h :: l :: rest =>
          match hex h, hex l with
          | Some hi, Some lo => percent_loop fuel rest (out ++ [Z.lor (Z.shiftl hi 4) lo])
          | _, _ => None
          end
      | 43%Z :: rest => percent_loop fuel rest (out ++ [SPACE])
      | b :: rest => percent_loop fuel rest (out ++ [b])
      end
  end.

Definition percent_decode (input : list Z) : option (list Z) :=
  match percent_loop (length input) input [] with
  | Some out => from_utf8 out
  | None => None
  end.

(** The first parameter with the key, in order; a bad value is no value. *)
Fixpoint find_param (parts : list (list Z)) (key : list Z) : option (list Z) :=
  match parts with
  | [] => None
  | part :: parts =>
      match split_once 61 part with
      | Some (k, v) => if decide (k = key) then percent_decode v else find_param parts key
      | None => find_param parts key
      end
  end.

Definition parse_query_param (query key : list Z) : option (list Z) := find_param (str_split 38 query) key.

Definition query_param_opt (w : Z) (query : list Z) (key : string) : option Z :=
  match parse_query_param query (lit key) with Some v => parse_uint w v | None => None end.

Definition query_param (query : list Z) (key : string) (dflt : Z) : Z := default dflt (query_param_opt 64 query key).

(** ** Security helpers *)

Definition MAX_TOKEN_CMP_LEN : Z := 4096.

(** [diff |= x ^ y], with 0 beyond the end of either. *)
Fixpoint ct_loop (n i : nat) (a b : list Z) (diff : Z) : Z :=
  match n with
  | 0 => diff
  | S n => ct_loop n (S i) a b (Z.lor diff (Z.lxor (nthb a i) (nthb b i)))
  end.

Definition ct_str_eq (a b : list Z) : bool :=
  let diff := if decide (length a <> length b) then 1%Z else 0%Z in
  bool_decide (ct_loop (Z.to_nat MAX_TOKEN_CMP_LEN) 0 a b diff = 0%Z).

Definition safe_history_filename (name : list Z) : bool :=
  negb (is_empty name) && negb (str_contains 47 name) && negb (str_contains 92 name) && negb (contains_str (lit "..") name)
  && starts_with QUERYLOG name && (ends_with MSGPACK_GZ name || ends_with MSGPACK name).

(** ** Routes *)

(** The log's state as the API sees it: the rings and, when file logging is enabled, the
    log directory. *)
Record ApiState := mkApi {
  api_ring : EventRing;
  api_qps : list Z;
  api_stats : list StatsSample;
  api_dir : option LogDir
}.

(** What a response is rendered from. *)
Inductive ApiBody :=
| DashboardHtml | ErrorBody (msg : list Z) | StatsBody | QpsBody (counts : list Z) | EventsBody (events : list QueryLogEvent)
| EmptyBody | FilesBody (files : list HistoryFileInfo) | PageBody (page : HistoryPage) | BucketsBody (samples : list StatsSample)
| AggregateBody (seconds from : Z) (agg : StatsSample) | RulesBody | UpstreamsBody.

Definition is_route (req : HttpRequest) (m p : string) : bool :=
  bool_decide (method req = lit m) && bool_decide (path req = lit p).

Definition clamp (lo hi z : Z) : Z := Z.max lo (Z.min hi z).

Context `{HistoryCodecs}.

Definition history_query (q : list Z) : HistoryQuery :=
  mkQuery (Z.to_nat (clamp 1 200 (query_param q "limit" 100))) (query_param_opt 64 q "cursor") (query_param_opt 64 q "from")
    (query_param_opt 64 q "to") (parse_query_param q (lit "q")) (query_param_opt 8 q "rcode") (parse_query_param q (lit "source"))
    (parse_query_param q (lit "upstream")) (parse_query_param q (lit "client")) (query_param_opt 16 q "type").

(** The history route; [gate] says whether a permit was obtained in time. *)
Definition history_route (gate : bool) (q : list Z) (dir : option LogDir) : outcome (Z * ApiBody) :=
  match dir with
  | None => Ret (404, ErrorBody (lit "file logging disabled"))%Z
  | Some d =>
      let file_name := default [] (parse_query_param q (lit "file")) in
      if negb (safe_history_filename file_name) then Ret (400, ErrorBody (lit "invalid file name"))%Z
      else if negb gate then Ret (503, ErrorBody (lit "history query busy"))%Z
      else
        let! r := read_history_page d file_name (history_query q) in
        match r with
        | Ok page => Ret (200, PageBody page)%Z
        | Err _ => Ret (500, ErrorBody (lit "read failed"))%Z
        end
  end.

(** The routes behind the token. *)
Definition route_request (gate : bool) (req : HttpRequest) (st : ApiState) : outcome (ApiState * Z * ApiBody) :=
  let q := query req in
  let reply (r : Z * ApiBody) := Ret (st, fst r, snd r) in
  if is_route req "GET" "/api/stats" then reply (200, StatsBody)%Z
  else if is_route req "GET" "/api/stats/history" then
    reply (200%Z, QpsBody (qps_snapshot (api_qps st) (Z.min (query_param q "n" 3600) 3600)))
  else if is_route req "GET" "/api/querylog" then
    reply (200%Z, EventsBody (ring_query (api_ring st) (query_param_opt 64 q "before_seq") (query_param_opt 64 q "after_seq")
                    (query_param q "limit" 100) (parse_query_param q (lit "q"))))
  else if is_route req "DELETE" "/api/querylog" then
    Ret (mkApi (ring_clear (api_ring st)) (api_qps st) (api_stats st) (api_dir st), 204%Z, EmptyBody)
  else if is_route req "GET" "/api/querylog/files" then
    reply (200%Z, FilesBody (match api_dir st with Some d => list_history_files d | None => [] end))
  else if is_route req "GET" "/api/querylog/history" then
    let! r := history_route gate q (api_dir st) in reply r
  else if is_route req "GET" "/api/stats/buckets" then
    let! snaps := bucket_aggregate (api_stats st) (clamp 1 86400 (query_param q "seconds" 3600))
                    (Z.to_nat (clamp 1 1440 (query_param q "buckets" 12))) in
    reply (200%Z, BucketsBody snaps)
  else if is_route req "GET" "/api/stats/aggregate" then
    let seconds := clamp 1 86400 (query_param q "seconds" 3600) in
    let '(agg, from) := aggregate (api_stats st) seconds in
    reply (200%Z, AggregateBody seconds from agg)
  else if is_route req "GET" "/api/rules" then reply (200, RulesBody)%Z
  else if is_route req "GET" "/api/upstreams" then reply (200, UpstreamsBody)%Z
  else reply (404, ErrorBody (lit "not found"))%Z.

Definition is_dashboard (req : HttpRequest) : bool := is_route req "GET" "/" || is_route req "GET" "/index.html".

Definition dispatch (gate : bool) (token : option (list Z)) (req : HttpRequest) (st : ApiState) : outcome (ApiState * Z * ApiBody) :=
  if is_dashboard req then Ret (st, 200%Z, DashboardHtml)
  else
    match token with
    | Some expected =>
        if ct_str_eq (default [] (auth req)) expected then route_request gate req st
        else Ret (st, 401%Z, ErrorBody (lit "unauthorized"))
    | None => route_request gate req st
    end.

(** ** The event stream *)

Definition SSE_BACKFILL : Z := 1000.

Definition sse_allowed (token : option (list Z)) (req : HttpRequest) : bool :=
  match token with
  | Some expected =>
      ct_str_eq (default [] (auth req)) expected
      || ct_str_eq (default [] (parse_query_param (query req) (lit "token"))) expected
  | None => true
  end.

(** Where the client left off. *)
Definition last_seq (req : HttpRequest) : option Z :=
  match (match last_event_id req with Some s => parse_uint 64 s | None => None end) with
  | Some n => Some n
  | None => query_param_opt 64 (query req) "last_seq"
  end.

Definition backfill (r : EventRing) (last : option Z) : list QueryLogEvent :=
  match last with Some after => rev (ring_query r None (Some after) SSE_BACKFILL None) | None => [] end.

(** [handle_sse]: the events sent to a client that keeps the connection open, when the
    ring is [ring] at the backfill and [live] are the events broadcast after the
    subscription; [None] is the refusal. *)
Definition handle_sse (token : option (list Z)) (req : HttpRequest) (ring : EventRing) (live : list QueryLogEvent)
    : option (list QueryLogEvent) :=
  if sse_allowed token req then Some (backfill ring (last_seq req) ++ live) else None.

End api.

(** ** Authentication *)

Lemma ct_loop_zero n i a b diff : (0 <= diff)%Z -> bytes_ok a -> bytes_ok b ->
  ct_loop n i a b diff = 0%Z <-> diff = 0%Z /\ forall j, i <= j < i + n -> nthb a j = nthb b j.
Proof.
  intros Hd Ha Hb. revert i diff Hd. induction n as [|n IH]; intros i diff Hd; cbn [ct_loop].
  - split; [intros ->; split; [done|intros; lia]|tauto].
  - pose proof (nthb_ok a i Ha) as Hx. pose proof (nthb_ok b i Hb) as Hy. unfold u_ok in Hx, Hy.
    assert (0 <= Z.lxor (nthb a i) (nthb b i))%Z as Hl by (apply Z.lxor_nonneg; lia).
    rewrite IH by (by apply Z.lor_nonneg). rewrite Z.lor_eq_0_iff, Z.lxor_eq_0_iff. split.
    + intros [[H1 H2] H3]. split; [done|]. intros j Hj. destruct (decide (j = i)) as [->|]; [done|apply H3; lia].
    + intros [H1 H2]. split; [split; [done|apply H2; lia]|]. intros j Hj. apply H2. lia.
Qed.

(** The constant-time comparison is equality, whenever one side fits the 4096 bytes
    it looks at. *)
Lemma ct_str_eq_spec a b : bytes_ok a -> bytes_ok b -> (Z.of_nat (length a) <= MAX_TOKEN_CMP_LEN \/ Z.of_nat (length b) <= MAX_TOKEN_CMP_LEN)%Z ->
  ct_str_eq a b = true <-> a = b.
Proof.
  intros Ha Hb Hl. unfold ct_str_eq. rewrite bool_decide_eq_true, ct_loop_zero by (done || by case_decide). split.
  - intros [Hlen Heq]. case_decide as Hd; [done|]. apply list_eq_same_length with (length a); [done|lia|].
    intros i x y Hi Hx Hy. rewrite <- (nthb_Some _ _ _ Hx), <- (nthb_Some _ _ _ Hy). apply Heq. lia.
  - intros ->. rewrite decide_False by tauto. done.
Qed.

Lemma ct_str_eq_spec_r a b : bytes_ok a -> bytes_ok b -> (Z.of_nat (length b) <= MAX_TOKEN_CMP_LEN)%Z -> ct_str_eq a b = true <-> a = b.
Proof. intros. apply ct_str_eq_spec; [done|done|by right]. Qed.
