(* ===== verification/QueryApiCorrect.v ===== *)
(** * Correctness of the dashboard API

    Every request is answered and only an authorised one reaches the log; parameters and
    whole requests read back what a client wrote, however the network splits them; the
    backfill of the event stream. *)

From stdpp Require Import gmap strings.
From S2P Require Import Prelude Order Hasher DnsName DnsQuery DnsRecords Utf8 DnsQname RustStr IpRange IpParse QueryRing QueryLog QueryHistory QuerySegments QueryHistoryCorrect QuerySegmentsCorrect QueryHistoryExample QueryApi.

(** ** Every request is answered *)

Section answered.
Context `{HistoryCodecLaws}.

Lemma decode_loop_returns fuel b : length b < fuel -> returns (decode_loop fuel b).
Proof.
  revert b. induction fuel as [|fuel IH]; intros b Hf; [lia|]. cbn [decode_loop]. destruct (de_next b) as [[e rest]|] eqn:Hd; [|apply returns_Ret].
  apply de_consumes in Hd. apply returns_bind; [apply IH; lia|]. intros. apply returns_Ret.
Qed.

Lemma read_blocks_returns ix q limit cursor file bs acc next : returns (read_blocks ix q limit cursor file bs acc next).
Proof.
  revert acc next. induction bs as [|b bs IH]; intros acc next; cbn [read_blocks]; [apply returns_Ret|].
  case_decide; [apply IH|]. destruct (match q_from q with Some _ => _ | None => _ end); [apply IH|].
  destruct (match q_to q with Some _ => _ | None => _ end); [apply returns_Ret|].
  apply returns_bind; [apply decode_loop_returns; lia|]. intros evs _. destruct (scan_block _ _ _ _ _ _ _) as [[a n] []]; [apply returns_Ret|apply IH].
Qed.

Lemma legacy_loop_returns fuel q limit cursor o b acc : length b < fuel -> returns (legacy_loop fuel q limit cursor o b acc).
Proof.
  revert o b acc. induction fuel as [|fuel IH]; intros o b acc Hf; [lia|]. cbn [legacy_loop]. case_decide; [apply returns_Ret|].
  destruct (de_next b) as [[e rest]|] eqn:Hd; [|apply returns_Ret]. apply de_consumes in Hd.
  case_decide; [apply IH; lia|]. destruct (event_matches e q); [|apply IH; lia]. case_decide; [apply IH; lia|apply returns_Ret].
Qed.

Lemma read_history_page_returns d path q : returns (read_history_page d path q).
Proof.
  unfold read_history_page. destruct (load_index d path) as [ix|e].
  - unfold read_indexed_history_page. destruct (d !! path); [|apply returns_Ret].
    apply returns_bind; [apply read_blocks_returns|]. intros [[a n] m] _. apply returns_Ret.
  - unfold read_legacy_history_page. destruct (d !! path); [|apply returns_Ret].
    apply returns_bind; [apply legacy_loop_returns; lia|]. intros [[a n] m] _. apply returns_Ret.
Qed.

(** The name of a segment inside the log directory. *)
Definition safe_name (name : list Z) : Prop :=
  (47%Z ∉ name) /\ (92%Z ∉ name) /\ ~ (exists a b, name = a ++ lit ".." ++ b) /\ is_segment name = true.

Lemma safe_filename_spec name : safe_history_filename name = true <-> safe_name name.
Proof.
  unfold safe_history_filename, safe_name, is_segment, str_contains. rewrite !andb_true_iff, !negb_true_iff, !bool_decide_eq_false, !orb_true_iff.
  rewrite <- contains_str_true, not_true_iff_false. split; [tauto|].
  intros (H1 & H2 & H3 & H4 & H5). split_and!; try done; [|tauto]. by destruct name.
Qed.

(** What a route may do: clear the ring on DELETE, nothing otherwise; and a page comes
    from a file with a safe name. *)
Definition route_effect (req : HttpRequest) (st st' : ApiState) (body : ApiBody) : Prop :=
  (if is_route req "DELETE" "/api/querylog" then st' = mkApi (ring_clear (api_ring st)) (api_qps st) (api_stats st) (api_dir st)
   else st' = st) /\
  forall page, body = PageBody page -> exists d name, api_dir st = Some d /\ safe_name name /\
    read_history_page d name (history_query (query req)) = Ret (Ok page).

Lemma get_not_delete req p p' : is_route req "GET" p = true -> is_route req "DELETE" p' = false.
Proof.
  unfold is_route. rewrite andb_true_iff, !bool_decide_eq_true. intros [-> _]. by rewrite bool_decide_eq_false_2.
Qed.

Lemma history_route_spec gate q dir : exists status body, history_route gate q dir = Ret (status, body) /\
  forall page, body = PageBody page -> exists d name, dir = Some d /\ safe_name name /\
    read_history_page d name (history_query q) = Ret (Ok page).
Proof.
  unfold history_route. destruct dir as [d|]; [|do 2 eexists; split; [done|]; by intros ? [=]].
  set (name := default [] _). destruct (safe_history_filename name) eqn:Hs; cbn [negb]; [|do 2 eexists; split; [done|]; by intros ? [=]].
  destruct gate; cbn [negb]; [|do 2 eexists; split; [done|]; by intros ? [=]].
  destruct (read_history_page_returns d name (history_query q)) as [r Hr]. rewrite Hr. cbn [obind].
  destruct r as [page|e]; do 2 eexists; (split; [done|]); intros p [=]. subst p. exists d, name. split_and!; [done|by apply safe_filename_spec|done].
Qed.

Lemma route_request_spec gate req st : exists st' status body, route_request gate req st = Ret (st', status, body) /\ route_effect req st st' body.
Proof.
  assert (forall p status body, is_route req "GET" p = true -> (forall page, body <> PageBody page) ->
    exists st' status' body', @Ret (ApiState * Z * ApiBody) (st, status, body) = Ret (st', status', body') /\ route_effect req st st' body') as Hget.
  { intros p status body Hg Hb. do 3 eexists. split; [done|]. unfold route_effect. rewrite (get_not_delete _ _ _ Hg). split; [done|]. intros page E. by destruct (Hb page). }
  unfold route_request. cbn [fst snd].
  destruct (is_route req "GET" "/api/stats") eqn:H1; [by eapply Hget|].
  destruct (is_route req "GET" "/api/stats/history") eqn:H2; [by eapply Hget|].
  destruct (is_route req "GET" "/api/querylog") eqn:H3; [by eapply Hget|].
  destruct (is_route req "DELETE" "/api/querylog") eqn:H4.
  { do 3 eexists. split; [done|]. unfold route_effect. rewrite H4. split; [done|]. by intros ? [=]. }
  destruct (is_route req "GET" "/api/querylog/files") eqn:H5; [by eapply Hget|].
  destruct (is_route req "GET" "/api/querylog/history") eqn:H6.
  { destruct (history_route_spec gate (query req) (api_dir st)) as (status & body & -> & Hb). cbn [obind fst snd].
    do 3 eexists. split; [done|]. unfold route_effect. rewrite H4. split; [done|exact Hb]. }
  destruct (is_route req "GET" "/api/stats/buckets") eqn:H7.
  { destruct (stats_buckets_spec (api_stats st) (clamp 1 86400 (query_param (query req) "seconds" 3600))
      (Z.to_nat (clamp 1 1440 (query_param (query req) "buckets" 12)))) as (parts & -> & _). cbn [obind]. by eapply Hget. }
  destruct (is_route req "GET" "/api/stats/aggregate") eqn:H8.
  { destruct (aggregate _ _) as [agg from]. by eapply Hget. }
  destruct (is_route req "GET" "/api/rules") eqn:H9; [by eapply Hget|].
  destruct (is_route req "GET" "/api/upstreams") eqn:H10; [by eapply Hget|].
  do 3 eexists. split; [done|]. unfold route_effect. rewrite H4. split; [done|]. by intros ? [=].
Qed.

(** C25: authentication and effects.  Every request is answered without a panic, whatever
    its bytes.  When a token of at most 4096 bytes is configured, a request
    other than for the dashboard page that does not carry exactly that token is refused
    with 401 and changes nothing; every other request changes the state only by clearing the ring
    on DELETE /api/querylog, and reads history only from a file of the log
    directory whose name has no separator and no "..". *)
Theorem api_dispatch_correct gate token req st :
  (forall t, token = Some t -> bytes_ok t /\ (Z.of_nat (length t) <= MAX_TOKEN_CMP_LEN)%Z) -> bytes_ok (default [] (auth req)) ->
  let authorised := is_dashboard req = true \/ token = None \/ token = Some (default [] (auth req)) in
  exists st' status body, dispatch gate token req st = Ret (st', status, body) /\
    (authorised -> route_effect req st st' body) /\
    (~ authorised -> st' = st /\ status = 401%Z /\ body = ErrorBody (lit "unauthorized")).
Proof.
  intros Htok Hauth authorised. unfold dispatch. destruct (is_dashboard req) eqn:Hd.
  - do 3 eexists. split; [done|]. split; [intros _|intros Hn; destruct Hn; by left].
    unfold is_dashboard in Hd. apply orb_true_iff in Hd as [Hd|Hd]; (split; [by rewrite (get_not_delete _ _ _ Hd)|by intros ? [=]]).
  - destruct token as [t|].
    + destruct (Htok t eq_refl) as [Ht Hl]. destruct (ct_str_eq _ t) eqn:He.
      * destruct (route_request_spec gate req st) as (st' & status & body & -> & Hr). do 3 eexists. split; [done|]. split; [done|].
        intros Hn. destruct Hn. right. right. f_equal. by apply ct_str_eq_spec_r in He.
      * do 3 eexists. split; [reflexivity|]. split; [|intros _; split_and!; reflexivity]. intros [Hx|[Hx|Hx]]; [congruence|congruence|].
        apply (inj Some) in Hx. exfalso. apply not_true_iff_false in He. apply He. by apply ct_str_eq_spec_r.
    + destruct (route_request_spec gate req st) as (st' & status & body & -> & Hr). do 3 eexists. split; [done|]. split; [done|].
      intros Hn. destruct Hn. right. by left.
Qed.
End answered.

(** ** Query parameters read back *)

(** [encodes s e]: [e] is a percent-encoding of [s]. Any byte may be escaped; one that is
    neither a percent sign, a plus sign nor an ampersand may stand for itself; a space
    may be written as a plus sign. *)
Inductive encodes : list Z -> list Z -> Prop :=
| enc_nil : encodes [] []
| enc_plain b s e : b <> 37%Z -> b <> 43%Z -> b <> 38%Z -> encodes s e -> encodes (b :: s) (b :: e)
| enc_escape hi lo h l s e : hex h = Some hi -> hex l = Some lo -> encodes s e -> encodes ((hi * 16 + lo)%Z :: s) (37%Z :: h :: l :: e)
| enc_plus s e : encodes s e -> encodes (SPACE :: s) (43%Z :: e).

Lemma hex_range b v : hex b = Some v -> (0 <= v < 16)%Z /\ b <> 38%Z.
Proof. unfold hex. repeat case_decide; intros [= <-]; lia. Qed.

Lemma lor_nibbles hi lo : (0 <= hi < 16)%Z -> (0 <= lo < 16)%Z -> Z.lor (Z.shiftl hi 4) lo = (hi * 16 + lo)%Z.
Proof.
  intros H1 H2.
  assert (Z.land (Z.shiftl hi 4) lo = 0%Z) as Hl.
  { apply Z.bits_inj'. intros n Hn. rewrite Z.land_spec, Z.bits_0, Z.shiftl_spec by done. destruct (decide (n < 4)%Z).
    - rewrite (Z.testbit_neg_r hi) by lia. done.
    - rewrite (Z.bits_above_log2 lo), andb_false_r; [done|lia|]. destruct (decide (lo = 0)%Z) as [->|]; [cbn; lia|].
      assert (Z.log2 lo < 4)%Z by (apply Z.log2_lt_pow2; lia). lia. }
  pose proof (Z.add_nocarry_lxor _ _ Hl) as Ha. rewrite Z.lxor_lor in Ha by done.
  rewrite <- Ha, Z.shiftl_mul_pow2 by lia. done.
Qed.

Lemma percent_loop_plain fuel b rest out : b <> 37%Z -> b <> 43%Z ->
  percent_loop (S fuel) (b :: rest) out = percent_loop fuel rest (out ++ [b]).
Proof. intros H1 H2. cbn [percent_loop]. destruct b as [|b|b]; try done. repeat (destruct b as [b|b|]; try done). Qed.

Lemma percent_loop_encodes s e : encodes s e -> forall fuel out, length e <= fuel -> percent_loop fuel e out = Some (out ++ s).
Proof.
  induction 1 as [|b s e H1 H2 H3 He IH|hi lo h l s e Hh Hl He IH|s e He IH]; intros fuel out Hf.
  - rewrite app_nil_r. by destruct fuel.
  - cbn [length] in Hf. destruct fuel as [|fuel]; [lia|]. rewrite percent_loop_plain by done. rewrite IH, <- app_assoc by lia. done.
  - cbn [length] in Hf. destruct fuel as [|fuel]; [lia|]. cbn [percent_loop]. rewrite Hh, Hl, IH, <- app_assoc by lia.
    apply hex_range in Hh as [? _], Hl as [? _]. by rewrite lor_nibbles.
  - cbn [length] in Hf. destruct fuel as [|fuel]; [lia|]. cbn [percent_loop]. by rewrite IH, <- app_assoc by lia.
Qed.

Lemma percent_decode_encodes s e : encodes s e -> percent_decode e = from_utf8 s.
Proof. intros He. unfold percent_decode. by rewrite (percent_loop_encodes s e He) by lia. Qed.

Lemma encodes_no_amp s e : encodes s e -> 38%Z ∉ e.
Proof.
  induction 1 as [|b s e H1 H2 H3 He IH|hi lo h l s e Hh Hl He IH|s e He IH]; [apply not_elem_of_nil|..].
  - apply not_elem_of_cons. split; [done|done].
  - apply hex_range in Hh as [_ ?], Hl as [_ ?]. rewrite !not_elem_of_cons. split_and!; done.
  - apply not_elem_of_cons. by split.
Qed.

(** A parameter: its key, its value and the text the value is sent as. *)
Record Param := mkParam { p_key : list Z; p_value : list Z; p_text : list Z }.

Definition param_ok (p : Param) : Prop := (38%Z ∉ p_key p) /\ (61%Z ∉ p_key p) /\ encodes (p_value p) (p_text p).

Definition query_text (ps : list Param) : list Z := join_with 38 ((fun p => p_key p ++ 61%Z :: p_text p) <$> ps).

(** Query parameters read back.  Whatever parameters a client sends and however it
    escapes their values, looking up a key gives the value of the first parameter with
    that key, provided it is valid UTF-8 (otherwise nothing), and nothing for a key
    that was not sent. *)
Theorem query_param_roundtrip ps key : ps <> [] -> Forall param_ok ps ->
  parse_query_param (query_text ps) key = match List.find (fun p => bool_decide (p_key p = key)) ps with
                                          | Some p => from_utf8 (p_value p)
                                          | None => None
                                          end.
Proof.
  intros Hne Hok. unfold parse_query_param, query_text. rewrite split_join.
  - clear Hne. induction Hok as [|p ps (Hk & He & Henc) _ IH]; [done|]. cbn [fmap list_fmap find_param List.find].
    rewrite split_once_app by done. case_decide as Hd.
    + rewrite bool_decide_eq_true_2 by done. by apply percent_decode_encodes.
    + rewrite bool_decide_eq_false_2 by done. apply IH.
  - by destruct ps.
  - apply Forall_fmap. apply (Forall_impl _ _ _ Hok). intros p (Hk & He & Henc). cbn.
    rewrite not_elem_of_app, not_elem_of_cons. split_and!; [done|done|by eapply encodes_no_amp].
Qed.

Lemma query_param_witness : parse_query_param (lit "q=a%2Eorg&limit=5") (lit "q") = Some (lit "a.org").
Proof.
  rewrite <- (eq_refl : query_text [mkParam (lit "q") (lit "a.org") (lit "a%2Eorg"); mkParam (lit "limit") (lit "5") (lit "5")] = lit "q=a%2Eorg&limit=5").
  rewrite query_param_roundtrip; [reflexivity|discriminate|].
  assert (forall k v e, bool_decide (38%Z ∉ k) = true -> bool_decide (61%Z ∉ k) = true -> encodes v e -> param_ok (mkParam k v e)) as Hp.
  { intros k v e H1%bool_decide_eq_true H2%bool_decide_eq_true He. by split_and!. }
  apply Forall_cons. split; [apply Hp; [by vm_compute|by vm_compute|]|apply Forall_singleton, Hp; [by vm_compute|by vm_compute|]].
  - apply (enc_plain 97); try done. apply (enc_escape 2 14); try done. do 3 (apply enc_plain; [done..|]). apply enc_nil.
  - apply enc_plain; [done..|]. apply enc_nil.
Defined.

Lemma api_dispatch_witness : exists st' status body,
  dispatch true (Some (lit "secret")) (mkRequest (lit "DELETE") (lit "/api/querylog") [] None None) (mkApi (ring_new 4) [] [] None) = Ret (st', status, body) /\
  st' = mkApi (ring_new 4) [] [] None /\ status = 401%Z /\ body = ErrorBody (lit "unauthorized").
Proof.
  destruct (api_dispatch_correct true (Some (lit "secret")) (mkRequest (lit "DELETE") (lit "/api/querylog") [] None None) (mkApi (ring_new 4) [] [] None))
    as (st' & status & body & Hd & _ & Hn).
  - intros t Ht. apply (inj Some) in Ht. subst t. split; [repeat constructor; by vm_compute|by vm_compute].
  - apply Forall_nil. done.
  - exists st', status, body. split; [exact Hd|]. apply Hn. intros [H|[H|H]]; [by vm_compute in H|discriminate H|discriminate H].
Defined.

(** ** The event stream *)

Lemma rev_take_rev {A} n (l : list A) : rev (take n (rev l)) = lastn n l.
Proof. unfold lastn. rewrite firstn_rev, rev_involutive. done. Qed.

(** Newer than the last event the client has seen. *)
Definition newer (after : Z) (ev : QueryLogEvent) : bool := (after <? ev_seq ev)%Z.

Lemma ring_filter_newer after ev : ring_filter None (Some after) None ev = newer after ev.
Proof. unfold ring_filter, newer. cbn [orb]. rewrite orb_false_r. case_bool_decide; cbn [negb]; symmetry; [apply Z.ltb_ge|apply Z.ltb_lt]; lia. Qed.

Lemma backfill_spec ring after : backfill ring (Some after) = lastn (Z.to_nat SSE_BACKFILL) (List.filter (newer after) (ring_buf ring)).
Proof.
  unfold backfill, ring_query. rewrite filter_rev, rev_take_rev. f_equal. apply filter_ext. apply ring_filter_newer.
Qed.

(** Resuming the event stream.  Only a client presenting the configured token, in the
    header or as a parameter, is served.  A client that reports the last sequence number
    it has seen first receives, oldest first, the newer events of the ring, all of them
    as long as there are at most 1000 (the newest 1000 otherwise), and then
    every event broadcast since it subscribed; so no newer event of either source is missed. *)
Theorem sse_resume_correct token req ring live :
  (forall t, token = Some t -> bytes_ok t /\ (Z.of_nat (length t) <= MAX_TOKEN_CMP_LEN)%Z) ->
  bytes_ok (default [] (auth req)) -> bytes_ok (default [] (parse_query_param (query req) (lit "token"))) ->
  let authorised := token = None \/ token = Some (default [] (auth req)) \/ token = Some (default [] (parse_query_param (query req) (lit "token"))) in
  (~ authorised -> handle_sse token req ring live = None) /\
  (authorised -> forall after, last_seq req = Some after ->
    let fresh := List.filter (newer after) (ring_buf ring) in
    handle_sse token req ring live = Some (lastn (Z.to_nat SSE_BACKFILL) fresh ++ live) /\
    (Z.of_nat (length fresh) <= SSE_BACKFILL -> handle_sse token req ring live = Some (fresh ++ live))%Z).
Proof.
  intros Htok Ha Hp authorised.
  assert (sse_allowed token req = true <-> authorised) as Hiff.
  { unfold sse_allowed, authorised. destruct token as [t|]; [|tauto]. destruct (Htok t eq_refl) as [Ht Hl].
    rewrite orb_true_iff, !ct_str_eq_spec_r by done. split; [intros [->| ->]; tauto|].
    intros [H|[H|H]]; [discriminate H|left|right]; apply (inj Some) in H; congruence. }
  unfold handle_sse. split.
  - intros Hn. destruct (sse_allowed token req); [|reflexivity]. destruct Hn. by apply Hiff.
  - intros Hy%Hiff after Hs. rewrite Hy, Hs, backfill_spec. split; [reflexivity|]. intros Hl. by rewrite lastn_all by lia.
Qed.

Lemma sse_resume_witness :
  handle_sse (Some (lit "k")) (mkRequest (lit "GET") (lit "/api/events") (lit "token=k&last_seq=7") None None) (ring_new 4) [] = Some [].
Proof.
  refine (proj2 (proj2 (sse_resume_correct (Some (lit "k")) (mkRequest (lit "GET") (lit "/api/events") (lit "token=k&last_seq=7") None None) (ring_new 4) [] _ _ _) _ 7%Z _) _).
  - intros t Ht. apply (inj Some) in Ht. subst t. split; [repeat constructor; by vm_compute|by vm_compute].
  - apply Forall_nil. done.
  - vm_compute. repeat constructor; by vm_compute.
  - right. right. by vm_compute.
  - by vm_compute.
  - by vm_compute.
Defined.
